(* ===== verification/_CoqProject ===== *)
-Q . S2P
Prelude.v
RunMonad.v
GoStrings.v
GoText.v
GoQuote.v
GoRegexp.v
GoPath.v
PathJoin.v
Dferr.v
Distro.v
DebVersion.v
Digest.v
Json.v
JsonText.v
Canonical.v
LockTypes.v
Lock.v
LockDoc.v
Resolve.v
DigestAll.v
Repository.v
RepositorySafe.v
Redact.v
RedactSafe.v
HostText.v
FetchList.v
FetchDeb.v
Fetcher.v
FetcherSafe.v
Assemble.v
AssembleSafe.v
GoGlob.v
Policy.v
JsonFold.v
Clock.v
SnapshotTypes.v
Keyring.v
Snapshot.v
Base.v
SnapshotArchive.v
SnapshotSafe.v
SnapshotOpen.v
PolicyLoad.v
FsTree.v
Tar.v
Store.v
StoreLock.v
AptParse.v
AptClosure.v
ClosedWorld.v
AptConfText.v
SnapshotConf.v
AptSolver.v
AptConf.v
AptConfSafe.v
AptSources.v
AptSourcesSafe.v
PrivateRoot.v
PrivateRootSafe.v
Manifest.v
EngineTypes.v
Engine.v
EngineLock.v
EngineSafe.v
AptLocal.v
AptResolve.v
AptResolveSafe.v
Synthesize.v
Sign.v
Gpg.v
Plugin.v
Verify.v
VerifySound.v
InstallSelect.v
InstallRun.v
InstallText.v
InstallSafe.v
InstallVerified.v
