(* ===== verification/Prelude.v ===== *)
(** * debark: a verification development

    debark carries Debian packages across an air gap. On the connected side it
    takes a snapshot of the target (core/snapshot), resolves a request against it
    with a private apt (core/apt), fetches and stores the files by content
    (core/fetch, core/store), and assembles a bundle (core/bundle): a repository
    (core/repository), a lock document of exact versions and digests (core/lock),
    and a signed manifest of every file (core/manifest, core/sign), exported as an
    archive; core/engine drives it. On the offline side the archive is imported,
    verified (core/verify) and installed with the target's own apt or dpkg
    (core/install). This library models those paths as the Go code under
    [src/core] takes them and proves what makes them correct.

    ** The files

    The library below the components. [Prelude]: the [result] type of fallible
    code, stable sorting by a boolean order, list lemmas, the tactics [bsplit]
    and [guards] and the hint database [debark]. [RunMonad]: computations with a
    state and an error and the rules of their weakest preconditions.
    [GoStrings], [GoText], [GoQuote]: bytes, strings, UTF-8, white space, letter
    case, decimal numbers, lines and quoting as Go's library has them.
    [GoRegexp]: Go's regexp on the expressions of the source. [GoPath],
    [PathJoin]: [path.Clean], [filepath.Join], [Base] and [Dir], and
    [safe_path], the specification all path checks are proved against. [Json],
    [JsonText], [JsonFold]: encoding/json, its text, its encoder and its two
    ways of decoding (exact member names, and the case-folding one). [FsTree]: a
    directory tree and [filepath.WalkDir].

    The components, each the Go package of the same name:
    - [Dferr] (dferr/dferr.go): the error taxonomy; errors are the inductive
      [goerror], [errors.As] a search of the unwrap chain.
    - [DebVersion] (apt/dpkgversion.go): version comparison; the loops of
      [verrevcmp] run on fuel, proved sufficient.
    - [Digest], [DigestAll] (digest/digest.go): SHA-256, MD5 and SHA-1 written
      out, and digest texts.
    - [Canonical], [Clock] (canonical/canonical.go): the signed form of a
      document, and the one time of a build.
    - [LockTypes], [Lock], [LockDoc] (lock/types.go, validate.go, api.go): the
      lock, its checks, its shape check, Load and Save.
    - [Resolve] (resolve/types.go, attribute.go): reasons by breadth-first
      search.
    - [Repository] (repository/iface.go, api.go): the pool path, the control
      fields that are kept, the Packages and Release files; [RepositorySafe]
      their meaning to a reader.
    - [Redact], [FetchList] (fetch/redact.go, list.go): redaction over net/url,
      and the list of inputs a user writes; [RedactSafe]. [HostText]: the
      replacement of host directories in a text, which two packages use.
    - [FetchDeb], [Fetcher] (fetch/fetcher.go, local.go, debsniff.go,
      control.go, reason.go): a download, whose state is what it has done so
      far: requests, writes, waits and files handed to the store; [FetcherSafe].
    - [Distro], [Base], [Synthesize] (distro/distro.go; base/base.go,
      builtin.go, parse.go, list.go, synthesize.go; apt/closure.go): the table
      of releases, the definitions of stock installs, and the snapshot made of
      one.
    - [Assemble] (bundle/assemble.go, prune.go, unreferenced.go): the pool of a
      bundle; [AssembleSafe].
    - [Manifest] (manifest/types.go, api.go): Build, checkDocument, Save, Load.
    - [Sign] (sign/keyformat.go, ed25519.go, verifier.go, iface.go): key files,
      the trust set, signing and the verdict on a signature block.
    - [Verify] (verify/verify.go, iface.go): a run of the verifier, its report a
      record threaded through every check; [VerifySound] its meaning.
    - [Tar] (bundle/tar.go): export and import; the import threads the target
      file system, a map from paths to nodes, through the entries.
    - [Store], [StoreLock] (store/fsstore.go): the operations of [fsStore] are
      programs over system calls (a free monad), run alone with failing calls,
      or interleaved by the step relation [step]; the index lock's loop.
    - [SnapshotTypes], [Snapshot], [SnapshotArchive], [Keyring]
      (snapshot/types.go, api.go, validate.go, redact.go, displaystrings.go,
      archive.go, keyring.go): the document, its checks, what is redacted and
      sanitised, the archive written and opened, and the keys of a keyring;
      [SnapshotSafe], [SnapshotOpen] what they promise.
    - [AptParse], [AptClosure], [ClosedWorld] (apt/parse.go, runner.go,
      closure.go, held.go, closedworld.go): apt's output as read, the dpkg
      status of a synthesised base, and the closed-world check of a bundle.
    - [SnapshotConf], [AptSolver] (snapshot/aptconf.go; apt/solver.go,
      select.go): what the captured configuration says of recommends and of the
      solver, what a host's apt says of its own, and the choice of a backend.
    - [AptLocal], [AptResolve] (apt/local.go, the index reader of apt/parse.go):
      a resolution by the host's own apt, whose state is the commands it has
      started, what it has stored and the warnings so far; [AptResolveSafe] what
      a plan says and which commands are run.
    - [AptConfText], [AptConf], [AptSources], [PrivateRoot] (apt/aptconf.go,
      sources.go, root.go): captured configuration and sources, filtered and
      rewritten, and the private root apt runs in; [AptConfSafe],
      [PrivateRootSafe].
    - [InstallSelect], [InstallRun], [InstallText] (install/select.go, parse.go,
      precondition.go, keepsource.go, runner.go, bundle.go, exec.go,
      privateroot.go, basedivergence.go): a run of [debark install], whose state
      has the processes started and the report; [InstallSafe] its safety, and
      [InstallVerified] its composition with the verifier.
    - [GoGlob], [Policy], [PolicyLoad] (policy/iface.go, evaluate.go,
      validate.go, api.go, miniyaml.go): [path.Match], the rules over a plan's
      selections, and the policy file in JSON and the small YAML.
    - [EngineTypes], [Engine] (engine/util.go, lockbuild.go, reproducible.go,
      engine.go, defaults.go, snapshot.go, inputs.go, resolve.go, policy.go,
      finalize.go, result.go): a whole build, whose state is what it has asked
      of its collaborators so far; [EngineLock] what goes into the lock,
      [EngineSafe] what is done when.

    ** What the theorems show

    - The composition: a command that changes the machine runs only after every
      gate, on files the manifest vouches for ([install_safe],
      [install_verified]); an OK of the verifier means the bytes are the
      manifest's and, unless unsigned bundles are allowed, that a trusted key
      signed them ([OK_sound], [OK_signed]); an honest bundle gets it
      ([Build_checkFiles]); an OK of the closed-world check rests on runs of apt
      that succeeded and were understood line by line ([closedWorld_ok]).
    - A resolution: every version in a plan was proposed by a simulation that
      was understood, or is on hold ([resolve_sound]); apt is given validated
      operands after a separator and nothing else ([commands_safe]); no text of
      the plan names the host's directories ([lock_texts_free]); the host's apt
      is used only when its solver is known to be the target's
      ([selectBackend_spec]).
    - A build: nothing is written before the policy has passed the plan
      ([policy_first]); what a successful one wrote last is sealed in order
      ([build_sealed]); its lock names no directory of the host
      ([lock_host_free]) and the digest of its request says what was asked for
      and nothing else ([request_digest_spec]); its pool holds the plan's files
      ([assembled_pool]) and the index says of them what they are
      ([Write_indexed]).
    - Trust carried from the target: a source is used with approved keys only
      under a keyring that holds one ([approved_sources_pinned]), whose keys are
      told truly ([keyrings_told_truly]); a private root and its configuration
      hold nothing else ([root_contents], [filterAptConf_sound]).
    - Untrusted input: an import stays below its target and within its bounds,
      and takes in the whole archive or fails ([importTar_confined],
      [importTar_complete]); a snapshot is opened only with the bytes its
      document has digests of ([open_sound], [doValidate_spec]); [Load] and
      [Validate] accept exactly the well-formed locks ([Load_spec],
      [Validate_spec]); a redacted URL has no credentials left
      ([RedactURL_parts]); a download is kept whole and under the digest that
      was asked for ([fetch_sound]), over https if that was asked for, and
      within its bounds ([fetch_contained]).
    - A target that is not there yet: the builtin bases are a closed table
      ([builtin_closed]), and a synthesised snapshot says of the packages it
      assumes what its dpkg status says ([synthesized_told]).
    - Concurrency and failure: every object of the store hashes to its name in
      every reachable state ([objects_always_good]); each operation refines its
      contract over an abstract map whatever calls fail ([store_refines]); the
      lock loop ends ([lockIndex_ends]).
    - Round trips: locks, manifests, archives, snapshots.
    - Exactness of the decisions in between: disk space, version order, and, as
      lemmas of their files, apt's simulation, selections and pool paths.
    - The operator's policy: a plan is denied exactly on a violation
      ([Evaluate_spec]), and a policy file is applied as written or refused
      ([Load_exact]).

    ** Parameters, bounds and assumptions

    Code outside the repository is a parameter: jcs.Transform ([JCS]),
    crypto/ed25519 ([Ed25519], with the law that signatures verify), the
    OpenPGP packet reader ([OpenPGP]), the compressors of archives ([Codecs],
    with the law that what is written is read back) and of indexes ([Gzip]),
    the readers of .deb files ([DebReader]), of control stanzas
    ([DebControl]), of YAML ([YAML]) and of a mime header ([MediaTypes]),
    net/url's checks of a host ([Hosts]), the verdict of the gpg program, the
    debversion library, the Unicode tables above ASCII ([UnicodeTables], with
    the laws the source relies on), the machine an install runs on
    ([machine]), the host of a resolution ([host_world]), the network and disk
    of a download ([host]) and the child processes, whose answers may depend
    on what was done before. Code that is modelled elsewhere is a parameter
    where the source itself puts an interface or a variable between the two:
    the store of an assembly ([ContentStore]), the private root of the
    closed-world check, and the collaborators of the engine ([world]). Each
    has a concrete instance, used by the witnesses and examples.

    Fuel: the JSON parser has [2 * length + 2], proved enough for every text;
    [verrevcmp] the lengths of its strings, proved enough; the attribution's
    search the number of names; a starred expression the length of the text and
    [find_all] one round for each byte; [message_loop] one round for each byte
    and one more; [deb822_loop] one for each line; [unpack_loop] the number of
    files; the walk up the ancestors has the source's own 64, a redirected
    request its own ten, and a download is tried as often as its options say.
    [lock_loop] is proved to end within 502 turns plus the stale locks it meets.
    Integers that
    can overflow are kept in their ranges: [int64] sizes, counts and times, the
    uint64 of the disk check, 2^53 - 1 in canonical numbers, 32-bit words in the
    digests.

    A tree being verified or built from does not change meanwhile; a context is
    never cancelled; a nil slice is an empty one; the texts of errors and
    problems are left out unless they are recorded or looked at; an import's
    target holds no symbolic link; names of temporary files are fresh; paths are
    a Unix system's.

    ** Not modelled

    The container backend of core/apt (container.go, container_driver.go,
    basecontainer.go, containerevents.go) is a driver of a container runtime
    that runs the local backend, modelled here, inside an image. The capture of
    a snapshot reads a running system. core/doctor, core/sbom, core/evidence and
    the README are documents for people and other tools, which nothing reads
    back to decide; gpg.go and plugin.go of core/sign run external programs,
    whose verdicts are parameters; gui, internal/cli, cmd and api are user
    interfaces and glue. *)
From stdpp Require Export base tactics list gmap strings sorting.
From Stdlib Require Export ZArith Lia.
Set Default Proof Using "Type".

(** ** Results of fallible code *)

(** A Go function returning [(T, error)] or [error] is a function into
    [result E T]: [Ok] is the nil-error return, [Err] carries the error. *)
Inductive result (E A : Type) : Type :=
| Ok (a : A)
| Err (e : E).
Arguments Ok {E A} _.
Arguments Err {E A} _.

#[export] Instance result_ret E : MRet (result E) := λ A a, Ok a.
#[export] Instance result_bind E : MBind (result E) := λ A B f m,
  match m with Ok a => f a | Err e => Err e end.
#[export] Instance result_fmap E : FMap (result E) := λ A B f m,
  match m with Ok a => Ok (f a) | Err e => Err e end.

Definition is_ok {E A} (r : result E A) : bool :=
  match r with Ok _ => true | Err _ => false end.
Definition ok_or {E A} (d : A) (r : result E A) : A :=
  match r with Ok a => a | Err _ => d end.

(** [map_err f r]: the error value rewrapped, as [dferr.Wrap] does. *)
Definition map_err {E F A} (f : E → F) (r : result E A) : result F A :=
  match r with Ok a => Ok a | Err e => Err (f e) end.
Lemma map_err_Ok {E F A} (f : E → F) (r : result E A) x : map_err f r = Ok x ↔ r = Ok x.
Proof. destruct r; cbn; split; congruence. Qed.

Lemma bind_Ok {E A B} (m : result E A) (f : A → result E B) b :
  mbind f m = Ok b ↔ ∃ a, m = Ok a ∧ f a = Ok b.
Proof.
  destruct m as [a|e]; cbn; split; [eauto| |done|].
  - by intros (a' & [= ->] & ?).
  - by intros (? & ? & _).
Qed.

(** The related element of an element of one of two related lists. *)
Lemma Forall2_elem_of_l {A B} (P : A → B → Prop) l k x : Forall2 P l k → x ∈ l → ∃ y, y ∈ k ∧ P x y.
Proof.
  induction 1 as [|y z l k HP _ IH]; [by intros ?%elem_of_nil|]. intros [->|Hx]%elem_of_cons.
  - exists z. by split; [left|].
  - destruct (IH Hx) as (w & ? & ?). exists w. by split; [right|].
Qed.
Lemma Forall2_elem_of_r {A B} (P : A → B → Prop) l k y : Forall2 P l k → y ∈ k → ∃ x, x ∈ l ∧ P x y.
Proof. intros H%Forall2_flip Hy. exact (Forall2_elem_of_l _ _ _ _ H Hy). Qed.

(** The filter of lists by a boolean, which Go's filtering loops are. *)
Lemma elem_of_lfilter {A} (f : A → bool) l x : x ∈ List.filter f l ↔ x ∈ l ∧ f x = true.
Proof. by rewrite !list_elem_of_In, filter_In. Qed.
Lemma NoDup_lfilter {A} (f : A → bool) l : NoDup l → NoDup (List.filter f l).
Proof. rewrite !NoDup_ListNoDup. apply List.NoDup_filter. Qed.

(** ** Sorting: [sort.SliceStable] with a boolean [leb] order. *)
Section sorting.
Context {A : Type} (leb : A → A → bool).

Fixpoint insert_by (x : A) (l : list A) : list A :=
  match l with
  | [] => [x]
  | y :: l' => if leb x y then x :: y :: l' else y :: insert_by x l'
  end.

Definition sort_by (l : list A) : list A := foldr insert_by [] l.

Lemma insert_by_perm x l : insert_by x l ≡ₚ x :: l.
Proof.
  induction l as [|y l IH]; simpl; [done|].
  destruct (leb x y); [done|]. rewrite IH. apply Permutation_swap.
Qed.

Lemma sort_by_perm l : sort_by l ≡ₚ l.
Proof.
  induction l as [|x l IH]; simpl; [done|]. rewrite insert_by_perm. by f_equiv.
Qed.

Lemma elem_of_sort_by x l : x ∈ sort_by l ↔ x ∈ l.
Proof. by rewrite sort_by_perm. Qed.

Lemma length_sort_by l : length (sort_by l) = length l.
Proof. by rewrite sort_by_perm. Qed.

Lemma NoDup_sort_by l : NoDup (sort_by l) ↔ NoDup l.
Proof. by rewrite sort_by_perm. Qed.

Definition leR (x y : A) : Prop := leb x y = true.

Hypothesis leb_total : ∀ x y, leb x y = true ∨ leb y x = true.
Hypothesis leb_trans : ∀ x y z, leb x y = true → leb y z = true → leb x z = true.

Lemma insert_by_sorted x l : StronglySorted leR l → StronglySorted leR (insert_by x l).
Proof using leb_total leb_trans.
  induction 1 as [|y l Hs IH Hall]; simpl.
  { repeat constructor. }
  destruct (leb x y) eqn:Hxy.
  - constructor; [by constructor|]. constructor; [done|].
    eapply Forall_impl; [exact Hall|]. intros z Hz. by eapply leb_trans.
  - constructor; [done|]. rewrite insert_by_perm. constructor; [|done].
    destruct (leb_total x y) as [H|H]; [congruence|done].
Qed.

Lemma sort_by_sorted l : StronglySorted leR (sort_by l).
Proof using leb_total leb_trans.
  induction l as [|x l IH]; simpl; [constructor|]. by apply insert_by_sorted.
Qed.

(** A sorted list is a fixed point; two permutations sort to the same list. *)
Lemma sort_by_id l : StronglySorted leR l → sort_by l = l.
Proof.
  induction 1 as [|x l Hs IH Hall]; simpl; [done|]. rewrite IH.
  destruct l as [|y l]; simpl; [done|].
  apply Forall_cons in Hall as [Hxy _]. unfold leR in Hxy. by rewrite Hxy.
Qed.

Lemma sort_by_ext l k :
  (∀ x y, leb x y = true → leb y x = true → x = y) →
  l ≡ₚ k → sort_by l = sort_by k.
Proof using leb_total leb_trans.
  intros Hanti Hp.
  assert (AntiSymm (=) leR) by (intros x y ??; by apply Hanti).
  eapply (StronglySorted_unique leR); [apply sort_by_sorted..|].
  by rewrite !sort_by_perm.
Qed.
End sorting.

(** Stability: the elements of one key class keep their relative order. *)
Lemma insert_by_filter {A} (leb : A → A → bool) (P : A → Prop) `{!∀ x, Decision (P x)} x l :
  (∀ y, P x → P y → leb x y = true) →
  filter P (insert_by leb x l) = filter P (x :: l).
Proof.
  intros Heq. induction l as [|y l IH]; [done|].
  simpl insert_by. destruct (leb x y) eqn:Hxy; [done|].
  rewrite (filter_cons P y (insert_by leb x l)), IH, !filter_cons.
  repeat case_decide; try done.
  rewrite Heq in Hxy by done. done.
Qed.

Lemma sort_by_stable {A} (leb : A → A → bool) (P : A → Prop) `{!∀ x, Decision (P x)} l :
  (∀ x y, P x → P y → leb x y = true) →
  filter P (sort_by leb l) = filter P l.
Proof.
  intros Heq. induction l as [|x l IH]; [done|].
  simpl sort_by. rewrite insert_by_filter by auto. rewrite !filter_cons.
  by case_decide; rewrite IH.
Qed.

(** ** Lists *)

Lemma elem_of_rev {A} (x : A) l : x ∈ rev l ↔ x ∈ l.
Proof. rewrite !list_elem_of_In. symmetry. apply in_rev. Qed.

Lemma snoc_cases {A} (l : list A) : l = [] ∨ ∃ l' x, l = l' ++ [x].
Proof. induction l using rev_ind; eauto. Qed.

(** ** Duplicate-free images *)

Lemma NoDup_map_inj {A B} (f : A → B) l x y :
  NoDup (map f l) → x ∈ l → y ∈ l → f x = f y → x = y.
Proof.
  induction l as [|a l IH]; cbn [map]; [by intros _ ?%elem_of_nil|].
  intros [Ha Hl]%NoDup_cons [->|Hx]%elem_of_cons [->|Hy]%elem_of_cons E; [done|..|auto];
    exfalso; apply Ha; [rewrite E|rewrite <- E]; by apply list_elem_of_fmap_2.
Qed.

Lemma NoDup_map_on {A B} (f : A → B) l :
  (∀ x y, x ∈ l → y ∈ l → f x = f y → x = y) → NoDup l → NoDup (map f l).
Proof.
  induction l as [|a l IH]; cbn [map]; intros Hf Hl; [constructor|]. apply NoDup_cons in Hl as [Ha Hl].
  apply NoDup_cons. split.
  - intros (x & E & Hx)%list_elem_of_fmap. apply Ha. rewrite (Hf a x); [done|by left|by right|done].
  - apply IH; [|done]. intros x y Hx Hy. apply Hf; by right.
Qed.

Lemma filter_all {A} (f : A → bool) l : (∀ x, x ∈ l → f x = true) → List.filter f l = l.
Proof.
  induction l as [|x l IH]; cbn [List.filter]; intros H; [done|].
  rewrite H by (by left). f_equal. apply IH. intros y Hy. apply H. by right.
Qed.

(** ** Loops with an early return *)

(** [first_err f l]: [for _, x := range l { if err := f(x); err != nil { return err } }]. *)
Fixpoint first_err {A E} (f : A → option E) (l : list A) : option E :=
  match l with
  | [] => None
  | x :: l' => match f x with Some e => Some e | None => first_err f l' end
  end.

Lemma first_err_None {A E} (f : A → option E) l :
  first_err f l = None ↔ ∀ x, x ∈ l → f x = None.
Proof.
  induction l as [|x l IH]; simpl.
  - split; [by intros _ y Hy%elem_of_nil|done].
  - destruct (f x) eqn:Hx; split.
    + done.
    + intros H. specialize (H x (list_elem_of_here _ _)). congruence.
    + intros H y [->|Hy]%elem_of_cons; [done|]. by apply IH.
    + intros H. apply IH. intros y Hy. apply H. by right.
Qed.

(** ** Automation *)

(** [bsplit]: turn boolean hypotheses and goals into propositions, one layer at a time. *)
Create HintDb debark.
Ltac bsplit :=
  repeat match goal with
  | H : (_ && _)%bool = true |- _ => apply andb_true_iff in H; destruct H
  | H : (_ || _)%bool = false |- _ => apply orb_false_iff in H; destruct H
  | H : negb _ = true |- _ => apply negb_true_iff in H
  | H : negb _ = false |- _ => apply negb_false_iff in H
  | H : bool_decide _ = true |- _ => apply bool_decide_eq_true in H
  | H : bool_decide _ = false |- _ => apply bool_decide_eq_false in H
  | H : (_ <? _)%Z = true |- _ => apply Z.ltb_lt in H
  | H : (_ <? _)%Z = false |- _ => apply Z.ltb_ge in H
  | H : (_ <=? _)%Z = true |- _ => apply Z.leb_le in H
  | H : (_ <=? _)%Z = false |- _ => apply Z.leb_gt in H
  | H : (_ =? _)%Z = true |- _ => apply Z.eqb_eq in H
  | H : (_ =? _)%Z = false |- _ => apply Z.eqb_neq in H
  | |- (_ && _)%bool = true => apply andb_true_iff; split
  | |- negb _ = true => apply negb_true_iff
  | |- bool_decide _ = true => apply bool_decide_eq_true
  | |- bool_decide _ = false => apply bool_decide_eq_false
  end.

(** [guards]: walk through a chain of [if c then Err e else k] guards in a
    hypothesis that says the chain succeeded, keeping every negated condition. *)
Ltac guards :=
  repeat match goal with
  | H : (if ?c then _ else _) = _ |- _ =>
      let E := fresh "G" in destruct c eqn:E; [try discriminate|]; simpl in H
  | H : (match ?c with Some _ => _ | None => _ end) = _ |- _ =>
      let E := fresh "G" in destruct c eqn:E; [try discriminate|]; simpl in H
  end.

(** ** Machine integers: an [int64], wrapped around *)

Definition wrap_int64 (n : Z) : Z := ((n + 2 ^ 63) mod 2 ^ 64 - 2 ^ 63)%Z.
