(* ===== verification/RunMonad.v ===== *)
(** * Computations with a state and an error, and their weakest preconditions.

    A Go function that acts on the world and may fail, in the style of the code:
    the state is what it has done so far, an error ends it. [finally] is a
    [defer]; the rules below carry a property over a computation one step at a
    time, and [adds] bounds what it puts on a trace. *)
From S2P Require Export Prelude.

Definition run (S E A : Type) : Type := S → result E A * S.

#[export] Instance run_ret S E : MRet (run S E) := λ A a s, (Ok a, s).
#[export] Instance run_bind S E : MBind (run S E) := λ A B f m s,
  match m s with
  | (Ok a, s') => f a s'
  | (Err e, s') => (Err e, s')
  end.

Section run.
Context {S E : Type}.

Definition fail_with {A} (e : E) : run S E A := λ s, (Err e, s).
Definition modify (f : S → S) : run S E unit := λ s, (Ok tt, f s).
Definition gets {A} (f : S → A) : run S E A := λ s, (Ok (f s), s).
Definition lift_result {A} (r : result E A) : run S E A := λ s, (r, s).
Definition guard_with (c : bool) (e : E) : run S E unit := if c then fail_with e else mret tt.
(** The error, if any, as a value. *)
Definition attempt {A} (m : run S E A) : run S E (result E A) := λ s, let '(r, s') := m s in (Ok r, s').
(** [defer c()] before [m], the outcome of [c] ignored. *)
Definition finally {A} (c : run S E unit) (m : run S E A) : run S E A := λ s, let '(r, s') := m s in (r, (c s').2).
Fixpoint each {A B} (f : A → run S E B) (l : list A) : run S E (list B) :=
  match l with
  | [] => mret []
  | x :: l' => y ← f x; ys ← each f l'; mret (y :: ys)
  end.

(** ** Weakest preconditions *)

Definition wp {A} (m : run S E A) (Q : A → S → Prop) (F : E → S → Prop) (s : S) : Prop :=
  match m s with (Ok a, s') => Q a s' | (Err e, s') => F e s' end.

Lemma wp_ret {A} (a : A) Q F s : Q a s → wp (mret a) Q F s.
Proof. done. Qed.
Lemma wp_bind {A B} (m : run S E A) (f : A → run S E B) Q F s :
  wp m (λ a, wp (f a) Q F) F s → wp (m ≫= f) Q F s.
Proof. unfold wp, mbind, run_bind. destruct (m s) as [[a|e] s']; auto. Qed.
Lemma wp_fail {A} (e : E) (Q : A → S → Prop) F s : F e s → wp (fail_with e) Q F s.
Proof. done. Qed.
Lemma wp_modify f (Q : unit → S → Prop) F s : Q tt (f s) → wp (modify f) Q F s.
Proof. done. Qed.
Lemma wp_gets {A} (f : S → A) Q F s : Q (f s) s → wp (gets f) Q F s.
Proof. done. Qed.
Lemma wp_lift {A} (r : result E A) Q F s :
  match r with Ok a => Q a s | Err e => F e s end → wp (lift_result r) Q F s.
Proof. by destruct r. Qed.
Lemma wp_guard c e (Q : unit → S → Prop) F s :
  (c = true → F e s) → (c = false → Q tt s) → wp (guard_with c e) Q F s.
Proof. destruct c; cbn; auto. Qed.
Lemma wp_attempt {A} (m : run S E A) Q F s :
  wp m (λ a, Q (Ok a)) (λ e, Q (Err e)) s → wp (attempt m) Q F s.
Proof. unfold wp, attempt. by destruct (m s) as [[a|e] s']. Qed.
Lemma wp_finally {A} (c : run S E unit) (m : run S E A) Q F s :
  wp m (λ a s', Q a (c s').2) (λ e s', F e (c s').2) s → wp (finally c m) Q F s.
Proof. unfold wp, finally. by destruct (m s) as [[a|e] s']. Qed.
Lemma wp_mono {A} (m : run S E A) (Q Q' : A → S → Prop) (F F' : E → S → Prop) s :
  wp m Q F s → (∀ a s', Q a s' → Q' a s') → (∀ e s', F e s' → F' e s') → wp m Q' F' s.
Proof. unfold wp. destruct (m s) as [[a|e] s']; auto. Qed.
Lemma wp_and {A} (m : run S E A) (Q Q' : A → S → Prop) (F F' : E → S → Prop) s :
  wp m Q F s → wp m Q' F' s → wp m (λ a s', Q a s' ∧ Q' a s') (λ e s', F e s' ∧ F' e s') s.
Proof. unfold wp. destruct (m s) as [[a|e] s']; auto. Qed.

(** A loop keeps what its body keeps. *)
Lemma wp_each {A B} (f : A → run S E B) (I : list A → list B → S → Prop) F l s :
  (∀ seen x bs s, I seen bs s → wp (f x) (λ b, I (seen ++ [x]) (bs ++ [b])) F s) →
  ∀ seen bs, I seen bs s → wp (each f l) (λ bs', I (seen ++ l) (bs ++ bs')) F s.
Proof.
  intros Hf. revert s. induction l as [|x l IH]; intros s seen bs HI; cbn [each].
  - apply wp_ret. by rewrite !app_nil_r.
  - apply wp_bind. eapply wp_mono; [exact (Hf _ _ _ _ HI)| |done]. intros b s' Hb. apply wp_bind.
    eapply wp_mono; [exact (IH _ _ _ Hb)| |done]. intros bs' s'' H. apply wp_ret. by rewrite <- !app_assoc in H.
Qed.
(** What holds of a computation, from its run. *)
Lemma wp_run {A} (m : run S E A) (Q : A → S → Prop) (F : E → S → Prop) s :
  wp m Q F s ↔ (∀ a s', m s = (Ok a, s') → Q a s') ∧ (∀ e s', m s = (Err e, s') → F e s').
Proof.
  unfold wp. destruct (m s) as [[a|e] s'].
  - split; [intros H; split; intros; by simplify_eq|intros [H _]; auto].
  - split; [intros H; split; intros; by simplify_eq|intros [_ H]; auto].
Qed.
End run.

(** ** What a computation adds to a trace *)

Section adds.
Context {S E T : Type} (trace : S → list T).

Definition adds (P : T → Prop) {A} (m : run S E A) : Prop :=
  ∀ s, ∃ new, trace (m s).2 = trace s ++ new ∧ Forall P new.

Section rules.
Context (P : T → Prop).
Lemma adds_still {A} (m : run S E A) : (∀ s, trace (m s).2 = trace s) → adds P m.
Proof. intros H s. exists []. by rewrite app_nil_r, H. Qed.
Lemma adds_ret {A} (a : A) : adds P (mret a).
Proof. by apply adds_still. Qed.
Lemma adds_lift {A} (r : result E A) : adds P (lift_result r).
Proof. by apply adds_still. Qed.
Lemma adds_gets {A} (f : S → A) : adds P (gets f).
Proof. by apply adds_still. Qed.
Lemma adds_guard c e : adds P (guard_with c e).
Proof. apply adds_still. by destruct c. Qed.
Lemma adds_fail {A} e : adds P (fail_with (A := A) e).
Proof. by apply adds_still. Qed.
Lemma adds_bind {A B} (m : run S E A) (f : A → run S E B) : adds P m → (∀ a, adds P (f a)) → adds P (m ≫= f).
Proof.
  intros Hm Hf s. destruct (Hm s) as (n1 & E1 & H1). unfold mbind, run_bind.
  destruct (m s) as [[a|e] s']; cbn [fst snd] in *; [|by exists n1].
  destruct (Hf a s') as (n2 & E2 & H2). exists (n1 ++ n2). rewrite E2, E1, <- app_assoc. split; [done|]. by apply Forall_app.
Qed.
(** With what is known of the result. *)
Lemma adds_bind_wp {A B} (R : A → Prop) (m : run S E A) (f : A → run S E B) :
  adds P m → (∀ s, wp m (λ a _, R a) (λ _ _, True) s) → (∀ a, R a → adds P (f a)) → adds P (m ≫= f).
Proof.
  intros Hm HR Hf s. destruct (Hm s) as (n1 & E1 & H1). specialize (HR s). unfold mbind, run_bind, wp in *.
  destruct (m s) as [[a|e] s']; cbn [fst snd] in *; [|by exists n1].
  destruct (Hf a HR s') as (n2 & E2 & H2). exists (n1 ++ n2). rewrite E2, E1, <- app_assoc. split; [done|]. by apply Forall_app.
Qed.
Lemma adds_attempt {A} (m : run S E A) : adds P m → adds P (attempt m).
Proof. intros Hm s. destruct (Hm s) as (n & E' & H). exists n. unfold attempt. by destruct (m s). Qed.
Lemma adds_finally {A} c (m : run S E A) : adds P c → adds P m → adds P (finally c m).
Proof.
  intros Hc Hm s. destruct (Hm s) as (n1 & E1 & H1). unfold finally. destruct (m s) as [r s']. cbn in E1.
  destruct (Hc s') as (n2 & E2 & H2). exists (n1 ++ n2). cbn. rewrite E2, E1, <- app_assoc. split; [done|]. by apply Forall_app.
Qed.
Lemma adds_each {A B} (f : A → run S E B) l : (∀ x, adds P (f x)) → adds P (each f l).
Proof.
  intros Hf. induction l as [|x l IH]; [apply adds_ret|]. cbn [each].
  apply adds_bind; [done|]. intros b. apply adds_bind; [done|]. intros bs. apply adds_ret.
Qed.
End rules.

Lemma adds_mono {A} (P P' : T → Prop) (m : run S E A) : (∀ a, P a → P' a) → adds P m → adds P' m.
Proof. intros HP Hm s. destruct (Hm s) as (n & E' & H). exists n. split; [done|]. eapply Forall_impl; [exact H|exact HP]. Qed.
(** A stage known by what it adds, in a longer run. *)
Lemma adds_wp {A} P (m : run S E A) (Q : A → S → Prop) F s : adds P m →
  (∀ r s' new, m s = (r, s') → trace s' = trace s ++ new → Forall P new →
     match r with Ok a => Q a s' | Err e => F e s' end) →
  wp m Q F s.
Proof.
  intros Hm HQ. destruct (Hm s) as (n & E' & H). unfold wp. destruct (m s) as [r s'] eqn:Er.
  specialize (HQ r s' n eq_refl E' H). by destruct r.
Qed.
End adds.

(** One rule per step; [own] knows the steps of the monad at hand. *)
Ltac adds_step own :=
  cbn beta iota zeta;
  match goal with
  | |- adds _ _ (mbind _ _) => apply adds_bind; [|intros ?]
  | |- adds _ _ (mret _) => apply adds_ret
  | |- adds _ _ (gets _) => apply adds_gets
  | |- adds _ _ (fail_with _) => apply adds_fail
  | |- adds _ _ (lift_result _) => apply adds_lift
  | |- adds _ _ (guard_with _ _) => apply adds_guard
  | |- adds _ _ (attempt _) => apply adds_attempt
  | |- adds _ _ (finally _ _) => apply adds_finally
  | |- adds _ _ (each _ _) => apply adds_each; intros ?
  | |- _ => own
  | |- adds _ _ (let '(_, _) := ?p in _) => destruct p
  | |- adds _ _ (match ?x with _ => _ end) => destruct x
  | |- adds _ _ (if ?x then _ else _) => destruct x
  end.
