(* ===== verification/GoStrings.v ===== *)
(** * Go strings: bytes, the [strings]/[utf8]/[strconv]/[bufio] operations the source uses.

    A Go [string] or [[]byte] is a list of bytes ([ascii]); literals are Rocq
    strings coerced to byte lists. Each operation follows the documented
    behaviour of the Go function named in its comment, on every byte sequence,
    valid UTF-8 or not. *)
From Stdlib Require Import DecimalString.
From Stdlib Require Export Ascii.
From Stdlib Require String.
From S2P Require Export Prelude.
Export String.StringSyntax.

Abbreviation gostring := (list ascii).
Abbreviation bytes_of := String.list_ascii_of_string.
Coercion String.list_ascii_of_string : String.string >-> list.
(** Literals stay literals under [simpl]. *)
#[global] Arguments String.list_ascii_of_string : simpl never.
#[global] Open Scope char_scope.
#[global] Open Scope string_scope.
#[global] Open Scope list_scope.

Definition ord (c : ascii) : Z := Z.of_N (N_of_ascii c).
Definition chr (n : Z) : ascii := ascii_of_N (Z.to_N n).

Lemma ord_range c : (0 ≤ ord c < 256)%Z.
Proof. unfold ord. pose proof (N_ascii_bounded c). lia. Qed.

Lemma ord_inj c d : ord c = ord d → c = d.
Proof.
  unfold ord. intros H. apply N2Z.inj in H.
  rewrite <- (ascii_N_embedding c), <- (ascii_N_embedding d). by rewrite H.
Qed.

Lemma chr_ord c : chr (ord c) = c.
Proof. unfold chr, ord. rewrite N2Z.id. apply ascii_N_embedding. Qed.

Lemma ord_chr n : (0 ≤ n < 256)%Z → ord (chr n) = n.
Proof. intros H. unfold chr, ord. rewrite N_ascii_embedding; lia. Qed.

(** [between lo hi c]: [lo <= c && c <= hi] on a byte. *)
Definition between (lo hi : ascii) (c : ascii) : bool :=
  ((ord lo <=? ord c) && (ord c <=? ord hi))%Z.

Definition is_digit (c : ascii) : bool := between "0" "9" c.
Definition is_lower (c : ascii) : bool := between "a" "z" c.
Definition is_upper (c : ascii) : bool := between "A" "Z" c.

(** [is_control c]: [c < 0x20 || c == 0x7f]. *)
Definition is_control (c : ascii) : bool := ((ord c <? 32) || (ord c =? 127))%Z.

Definition beq (c d : ascii) : bool := bool_decide (c = d).
Definition streq (s t : gostring) : bool := bool_decide (s = t).

Definition contains_byte (c : ascii) (s : gostring) : bool := existsb (beq c) s.

Lemma contains_byte_spec c s : contains_byte c s = true ↔ c ∈ s.
Proof.
  unfold contains_byte. rewrite existsb_exists. setoid_rewrite <- list_elem_of_In.
  unfold beq. split.
  - intros (x & Hx & ->%bool_decide_eq_true). done.
  - intros H. exists c. by rewrite bool_decide_eq_true.
Qed.

Lemma contains_byte_false c s : contains_byte c s = false ↔ c ∉ s.
Proof. rewrite <- contains_byte_spec. by destruct (contains_byte c s). Qed.

(** ** Order: [a < b] on strings is bytewise lexicographic. *)
Fixpoint str_cmp (s t : gostring) : comparison :=
  match s, t with
  | [], [] => Eq
  | [], _ :: _ => Lt
  | _ :: _, [] => Gt
  | a :: s', b :: t' =>
      match (ord a ?= ord b)%Z with Eq => str_cmp s' t' | c => c end
  end.
Definition str_ltb (s t : gostring) : bool := match str_cmp s t with Lt => true | _ => false end.
Definition str_leb (s t : gostring) : bool := match str_cmp s t with Gt => false | _ => true end.

Lemma str_cmp_refl s : str_cmp s s = Eq.
Proof. induction s as [|a s IH]; simpl; [done|]. by rewrite Z.compare_refl. Qed.

Lemma str_cmp_eq s t : str_cmp s t = Eq ↔ s = t.
Proof.
  split; [|intros ->; apply str_cmp_refl].
  revert t. induction s as [|a s IH]; intros [|b t]; simpl; try done.
  destruct (Z.compare_spec (ord a) (ord b)) as [H|H|H]; try done.
  apply ord_inj in H as ->. intros ?. f_equal. by apply IH.
Qed.

Lemma str_cmp_antisym s t : str_cmp t s = CompOpp (str_cmp s t).
Proof.
  revert t. induction s as [|a s IH]; intros [|b t]; simpl; try done.
  rewrite (Z.compare_antisym (ord a) (ord b)).
  by destruct (Z.compare (ord a) (ord b)); simpl.
Qed.

Lemma str_cmp_lt_trans s t u : str_cmp s t = Lt → str_cmp t u = Lt → str_cmp s u = Lt.
Proof.
  revert t u. induction s as [|a s IH]; intros [|b t] [|c u]; simpl; try done.
  destruct (Z.compare_spec (ord a) (ord b)) as [E1|E1|E1]; try done;
    destruct (Z.compare_spec (ord b) (ord c)) as [E2|E2|E2]; try done; intros H1 H2.
  - rewrite E1, E2, Z.compare_refl. eauto.
  - replace (ord a ?= ord c)%Z with Lt; [done|]. symmetry. apply Z.compare_lt_iff. lia.
  - replace (ord a ?= ord c)%Z with Lt; [done|]. symmetry. apply Z.compare_lt_iff. lia.
  - replace (ord a ?= ord c)%Z with Lt; [done|]. symmetry. apply Z.compare_lt_iff. lia.
Qed.

Lemma str_leb_total s t : str_leb s t = true ∨ str_leb t s = true.
Proof. unfold str_leb. rewrite (str_cmp_antisym s t). destruct (str_cmp s t); auto. Qed.

Lemma str_leb_trans s t u : str_leb s t = true → str_leb t u = true → str_leb s u = true.
Proof.
  unfold str_leb.
  destruct (str_cmp s t) eqn:E1; try done;
    [apply str_cmp_eq in E1 as ->; done|].
  destruct (str_cmp t u) eqn:E2; try done.
  - apply str_cmp_eq in E2 as ->. by rewrite E1.
  - by rewrite (str_cmp_lt_trans _ _ _ E1 E2).
Qed.

Lemma str_leb_antisym s t : str_leb s t = true → str_leb t s = true → s = t.
Proof.
  unfold str_leb. rewrite (str_cmp_antisym s t).
  destruct (str_cmp s t) eqn:E; try done. by apply str_cmp_eq in E.
Qed.

Lemma str_ltb_lt s t : str_ltb s t = true ↔ str_leb s t = true ∧ s ≠ t.
Proof.
  unfold str_ltb, str_leb. split.
  - destruct (str_cmp s t) eqn:E; try done. intros _. split; [done|].
    intros ->. by rewrite str_cmp_refl in E.
  - intros [H1 H2]. destruct (str_cmp s t) eqn:E; try done. by apply str_cmp_eq in E.
Qed.

(** [sort.Strings] *)
Definition sort_strings : list gostring → list gostring := sort_by str_leb.

Lemma sort_strings_perm l : sort_strings l ≡ₚ l.
Proof. apply sort_by_perm. Qed.

Lemma elem_of_sort_strings x l : x ∈ sort_strings l ↔ x ∈ l.
Proof. apply elem_of_sort_by. Qed.

Lemma sort_strings_sorted l : StronglySorted (leR str_leb) (sort_strings l).
Proof. apply sort_by_sorted; [apply str_leb_total|apply str_leb_trans]. Qed.

Lemma sort_strings_ext l k : l ≡ₚ k → sort_strings l = sort_strings k.
Proof.
  apply sort_by_ext; [apply str_leb_total|apply str_leb_trans|apply str_leb_antisym].
Qed.

(** ** Prefixes and suffixes: [strings.HasPrefix], [TrimPrefix], [CutPrefix], ... *)
Fixpoint cut_prefix (p s : gostring) : option gostring :=
  match p, s with
  | [], _ => Some s
  | a :: p', b :: s' => if beq a b then cut_prefix p' s' else None
  | _ :: _, [] => None
  end.
Definition has_prefix (p s : gostring) : bool :=
  match cut_prefix p s with Some _ => true | None => false end.
Definition trim_prefix (p s : gostring) : gostring := default s (cut_prefix p s).

Definition cut_suffix (p s : gostring) : option gostring := @rev ascii <$> cut_prefix (rev p) (rev s).
Definition has_suffix (p s : gostring) : bool :=
  match cut_suffix p s with Some _ => true | None => false end.
Definition trim_suffix (p s : gostring) : gostring := default s (cut_suffix p s).

Lemma cut_prefix_Some p s r : cut_prefix p s = Some r ↔ s = p ++ r.
Proof.
  revert s. induction p as [|a p IH]; intros s; simpl.
  - split; congruence.
  - destruct s as [|b s]; [done|]. unfold beq. case_bool_decide as Hab.
    + subst b. rewrite IH. split; intros H; [by subst|by simplify_eq].
    + split; [done|]. intros H. by simplify_eq.
Qed.

Lemma cut_prefix_app p r : cut_prefix p (p ++ r) = Some r.
Proof. by apply cut_prefix_Some. Qed.

Lemma has_prefix_spec p s : has_prefix p s = true ↔ ∃ r, s = p ++ r.
Proof.
  unfold has_prefix. destruct (cut_prefix p s) as [r|] eqn:E.
  - apply cut_prefix_Some in E. split; [eauto|done].
  - split; [done|]. intros [r Hr]. apply cut_prefix_Some in Hr. congruence.
Qed.

Lemma has_prefix_app p r : has_prefix p (p ++ r) = true.
Proof. apply has_prefix_spec. eauto. Qed.

Lemma trim_prefix_app p r : trim_prefix p (p ++ r) = r.
Proof. unfold trim_prefix. by rewrite cut_prefix_app. Qed.

Lemma cut_suffix_Some p s r : cut_suffix p s = Some r ↔ s = r ++ p.
Proof.
  unfold cut_suffix. split.
  - intros (r' & H & Hr)%fmap_Some. apply cut_prefix_Some in H.
    apply (f_equal (@rev ascii)) in H. rewrite rev_involutive, rev_app_distr, rev_involutive in H.
    congruence.
  - intros ->. rewrite rev_app_distr, cut_prefix_app. simpl. by rewrite rev_involutive.
Qed.

Lemma has_suffix_spec p s : has_suffix p s = true ↔ ∃ r, s = r ++ p.
Proof.
  unfold has_suffix. destruct (cut_suffix p s) as [r|] eqn:E.
  - apply cut_suffix_Some in E. split; [eauto|done].
  - split; [done|]. intros [r Hr]. apply cut_suffix_Some in Hr. congruence.
Qed.

Lemma trim_suffix_app p r : trim_suffix p (r ++ p) = r.
Proof.
  unfold trim_suffix. by replace (cut_suffix p (r ++ p)) with (Some r) by (symmetry; by apply cut_suffix_Some).
Qed.

(** ** Searching and splitting at a byte *)

(** [strings.Cut(s, c)] for a one-byte separator: [None] when it is absent. *)
Fixpoint cut (c : ascii) (s : gostring) : option (gostring * gostring) :=
  match s with
  | [] => None
  | a :: s' =>
      if beq a c then Some ([], s')
      else match cut c s' with Some (l, r) => Some (a :: l, r) | None => None end
  end.

(** [strings.IndexByte]; [None] is Go's -1. *)
Definition index_byte (c : ascii) (s : gostring) : option nat :=
  match cut c s with Some (l, _) => Some (length l) | None => None end.

(** [strings.Split(s, c)] for a one-byte separator. *)
Fixpoint split (c : ascii) (s : gostring) : list gostring :=
  match s with
  | [] => [[]]
  | a :: s' =>
      if beq a c then [] :: split c s'
      else match split c s' with
           | w :: ws => (a :: w) :: ws
           | [] => [[a]]
           end
  end.

(** [strings.Join]. *)
Fixpoint join (sep : gostring) (l : list gostring) : gostring :=
  match l with
  | [] => []
  | [w] => w
  | w :: ws => w ++ sep ++ join sep ws
  end.

Lemma cut_Some c s l r : cut c s = Some (l, r) ↔ s = l ++ c :: r ∧ c ∉ l.
Proof.
  revert l r. induction s as [|a s IH]; intros l r; simpl.
  - split; [done|]. intros [H _]. by destruct l.
  - unfold beq. case_bool_decide as Hac.
    + subst a. split.
      * intros [= <- <-]. split; [done|]. apply not_elem_of_nil.
      * intros [H Hl]. destruct l as [|x l]; [by simplify_eq/=|].
        simplify_eq/=. exfalso. apply Hl. by left.
    + destruct (cut c s) as [[l' r']|] eqn:E.
      * split.
        -- intros [= <- <-]. destruct (proj1 (IH _ _) eq_refl) as [-> Hl].
           split; [done|]. by intros [->|?]%elem_of_cons.
        -- intros [H Hl]. destruct l as [|x l]; [by simplify_eq/=|].
           simplify_eq/=. apply not_elem_of_cons in Hl as [_ Hl].
           assert (Some (l', r') = Some (l, r)) as [= -> ->] by (by apply IH). done.
      * split; [done|]. intros [H Hl]. destruct l as [|x l]; [by simplify_eq/=|].
        simplify_eq/=. apply not_elem_of_cons in Hl as [_ Hl].
        by pose proof (proj2 (IH l r) (conj eq_refl Hl)).
Qed.

Lemma cut_None c s : cut c s = None ↔ c ∉ s.
Proof.
  split.
  - intros H (l & r & -> & Hl)%list_elem_of_split_l.
    by rewrite (proj2 (cut_Some c _ l r) (conj eq_refl Hl)) in H.
  - intros Hs. destruct (cut c s) as [[l r]|] eqn:E; [|done].
    apply cut_Some in E as [-> _]. exfalso. apply Hs. set_solver.
Qed.

Lemma cut_app c l r : c ∉ l → cut c (l ++ c :: r) = Some (l, r).
Proof. intros. by apply cut_Some. Qed.

Lemma split_nonempty c s : split c s ≠ [].
Proof. destruct s as [|a s]; simpl; [done|]. destruct (beq a c); [done|]. by destruct (split c s). Qed.

Lemma join_split c s : join [c] (split c s) = s.
Proof.
  induction s as [|a s IH]; simpl; [done|].
  pose proof (split_nonempty c s) as Hne.
  unfold beq. case_bool_decide as Hac.
  - subst. simpl. destruct (split c s); [done|]. simpl in *. by rewrite IH.
  - destruct (split c s) as [|w ws]; [done|]. simpl in *. rewrite <- IH. by destruct ws.
Qed.

Lemma split_no_sep c s w : w ∈ split c s → c ∉ w.
Proof.
  revert w. induction s as [|a s IH]; intros w; simpl.
  - intros ->%list_elem_of_singleton. apply not_elem_of_nil.
  - unfold beq. case_bool_decide as Hac.
    + intros [->|H]%elem_of_cons; [apply not_elem_of_nil|auto].
    + destruct (split c s) as [|w0 ws].
      * intros ->%list_elem_of_singleton. by intros ->%list_elem_of_singleton.
      * intros [->|H]%elem_of_cons; [|apply IH; by right].
        intros [->|H]%elem_of_cons; [done|]. by apply (IH w0); [left|].
Qed.

Lemma split_no_occur c s : c ∉ s → split c s = [s].
Proof.
  induction s as [|a s IH]; intros H; simpl; [done|].
  apply not_elem_of_cons in H as [H1 H2].
  unfold beq. rewrite bool_decide_eq_false_2 by congruence. by rewrite IH.
Qed.

Lemma split_app_sep c l r : c ∉ l → split c (l ++ c :: r) = l :: split c r.
Proof.
  induction l as [|a l IH]; intros H; simpl.
  - unfold beq. by rewrite bool_decide_eq_true_2.
  - apply not_elem_of_cons in H as [H1 H2].
    unfold beq. rewrite bool_decide_eq_false_2 by congruence. by rewrite IH.
Qed.

Lemma split_join c l : l ≠ [] → (∀ w, w ∈ l → c ∉ w) → split c (join [c] l) = l.
Proof.
  induction l as [|w l IH]; intros Hne Hw; [done|].
  destruct l as [|w' l].
  - simpl. apply split_no_occur. apply Hw. by left.
  - change (join [c] (w :: w' :: l)) with (w ++ c :: join [c] (w' :: l)).
    rewrite split_app_sep by (apply Hw; by left). f_equal. apply IH; [done|].
    intros ??. apply Hw. by right.
Qed.
