(* ===== verification/GoText.v ===== *)
(** * Go text: UTF-8, white space, letter case, decimal numbers, lines.

    The parts of [unicode/utf8], [unicode], [strings], [strconv] and [bufio]
    that look at characters rather than bytes. Strings are still byte lists;
    an undecodable byte is the rune U+FFFD of width one, as in Go. *)
From S2P Require Export GoStrings.
#[local] Open Scope Z_scope.

(** ** UTF-8 decoding: [utf8.DecodeRuneInString] applied from left to right *)

Definition RuneError : Z := 65533.
Definition in_range (lo hi : Z) (c : ascii) : bool := (lo <=? ord c) && (ord c <=? hi).
Definition is_cont (c : ascii) : bool := in_range 128 191 c.

(** The second byte a three- or four-byte leading byte accepts. *)
Definition second3 (a b : ascii) : bool :=
  if ord a =? 224 then in_range 160 191 b
  else if ord a =? 237 then in_range 128 159 b
  else in_range 225 239 a && is_cont b.
Definition second4 (a b : ascii) : bool :=
  if ord a =? 240 then in_range 144 191 b
  else if ord a =? 244 then in_range 128 143 b
  else in_range 241 243 a && is_cont b.

Definition rune2 (a b : ascii) : Z := (ord a - 192) * 64 + (ord b - 128).
Definition rune3 (a b c : ascii) : Z := (ord a - 224) * 4096 + (ord b - 128) * 64 + (ord c - 128).
Definition rune4 (a b c d : ascii) : Z :=
  (ord a - 240) * 262144 + (ord b - 128) * 4096 + (ord c - 128) * 64 + (ord d - 128).

(** [decode s]: the runes of [s] with the bytes each was decoded from. *)
Fixpoint decode (s : gostring) : list (Z * gostring) :=
  match s with
  | [] => []
  | a :: s1 =>
      if ord a <? 128 then (ord a, [a]) :: decode s1
      else match s1 with
      | b :: s2 =>
          if in_range 194 223 a && is_cont b then (rune2 a b, [a; b]) :: decode s2
          else match s2 with
          | c :: s3 =>
              if second3 a b && is_cont c then (rune3 a b c, [a; b; c]) :: decode s3
              else match s3 with
              | d :: s4 =>
                  if second4 a b && is_cont c && is_cont d
                  then (rune4 a b c d, [a; b; c; d]) :: decode s4
                  else (RuneError, [a]) :: decode s1
              | [] => (RuneError, [a]) :: decode s1
              end
          | [] => (RuneError, [a]) :: decode s1
          end
      | [] => (RuneError, [a]) :: decode s1
      end
  end.

(** [range] over a string. *)
Definition runes (s : gostring) : list Z := map fst (decode s).

(** [utf8.ValidString]: no byte decodes to a width-one U+FFFD. *)
Definition valid_rune (p : Z * gostring) : bool := negb ((fst p =? RuneError) && Nat.eqb (length (snd p)) 1).
Definition utf8_valid (s : gostring) : bool := forallb valid_rune (decode s).

(** [utf8.AppendRune] for a rune in range. *)
Definition encode_rune (r : Z) : gostring :=
  if r <? 128 then [chr r]
  else if r <? 2048 then [chr (192 + r / 64); chr (128 + r mod 64)]
  else if r <? 65536 then [chr (224 + r / 4096); chr (128 + (r / 64) mod 64); chr (128 + r mod 64)]
  else [chr (240 + r / 262144); chr (128 + (r / 4096) mod 64); chr (128 + (r / 64) mod 64); chr (128 + r mod 64)].

Definition is_ascii (s : gostring) : bool := forallb (λ c, ord c <? 128) s.

Lemma decode_ascii s : is_ascii s = true → decode s = map (λ c, (ord c, [c])) s.
Proof.
  induction s as [|a s IH]; [done|]. cbn [is_ascii forallb decode map].
  intros [Ha Hs]%andb_true_iff. rewrite Ha. by rewrite IH.
Qed.

Lemma runes_ascii s : is_ascii s = true → runes s = map ord s.
Proof. intros H. unfold runes. rewrite decode_ascii, map_map by done. done. Qed.

(** Decoding loses no byte, and only an ASCII byte decodes to an ASCII rune. *)
Ltac byte_bounds :=
  repeat match goal with
  | x : ascii |- _ =>
      lazymatch goal with
      | _ : 0 ≤ ord x < 256 |- _ => fail
      | _ => pose proof (ord_range x)
      end
  end.

(** Induction over the six ways [decode] consumes a string. *)
Lemma decode_ind (P : gostring → list (Z * gostring) → Prop) :
  P [] [] →
  (∀ a s l, ord a < 128 → P s l → P (a :: s) ((ord a, [a]) :: l)) →
  (∀ a s l, 128 ≤ ord a → P s l → P (a :: s) ((RuneError, [a]) :: l)) →
  (∀ a b s l, in_range 194 223 a = true → is_cont b = true → P s l →
     P (a :: b :: s) ((rune2 a b, [a; b]) :: l)) →
  (∀ a b c s l, 128 ≤ ord a → second3 a b = true → is_cont c = true → P s l →
     P (a :: b :: c :: s) ((rune3 a b c, [a; b; c]) :: l)) →
  (∀ a b c d s l, 128 ≤ ord a → second4 a b = true → is_cont c = true → is_cont d = true → P s l →
     P (a :: b :: c :: d :: s) ((rune4 a b c d, [a; b; c; d]) :: l)) →
  ∀ s, P s (decode s).
Proof.
  intros H0 H1 He H2 H3 H4 s.
  remember (length s) as n eqn:Hn.
  assert (length s ≤ n)%nat as Hle by lia. clear Hn. revert s Hle.
  induction n as [|n IH]; intros s Hle; [by destruct s; [|simpl in Hle; lia]|].
  destruct s as [|a s1]; [done|]. cbn [decode]. simpl in Hle.
  destruct (ord a <? 128) eqn:Ha; [apply Z.ltb_lt in Ha; apply H1; [done|]; apply IH; lia|].
  apply Z.ltb_ge in Ha.
  assert (P (a :: s1) ((RuneError, [a]) :: decode s1)) as Herr by (apply He; [done|]; apply IH; lia).
  destruct s1 as [|b s2]; [done|]. simpl in Hle.
  destruct (in_range 194 223 a && is_cont b) eqn:E2.
  { bsplit. apply H2; try done. apply IH; lia. }
  destruct s2 as [|c s3]; [done|]. simpl in Hle.
  destruct (second3 a b && is_cont c) eqn:E3.
  { bsplit. apply H3; try done. apply IH; lia. }
  destruct s3 as [|d s4]; [done|]. simpl in Hle.
  destruct (second4 a b && is_cont c && is_cont d) eqn:E4; [|done].
  bsplit. apply H4; try done. apply IH; lia.
Qed.

Lemma decode_bytes s : concat (map snd (decode s)) = s.
Proof. apply (decode_ind (λ s l, concat (map snd l) = s)); intros; simpl; congruence. Qed.

Ltac rune_cases :=
  unfold second3, second4, is_cont, in_range, rune2, rune3, rune4, RuneError in *;
  byte_bounds; repeat case_match; bsplit; lia.

Lemma decode_small s : ∀ r w, (r, w) ∈ decode s → r < 128 → w = [chr r].
Proof.
  apply (decode_ind (λ s l, ∀ r w, (r, w) ∈ l → r < 128 → w = [chr r])).
  - intros r w H. by apply elem_of_nil in H.
  - intros a t l Ha IH r w [[= -> ->]|H]%elem_of_cons Hr; [by rewrite chr_ord|eauto].
  - intros a t l Ha IH r w [[= -> ->]|H]%elem_of_cons Hr; [unfold RuneError in Hr; lia|eauto].
  - intros a b t l Ha Hb IH r w [[= -> ->]|H]%elem_of_cons Hr; [exfalso; rune_cases|eauto].
  - intros a b c t l Ha Hb Hc IH r w [[= -> ->]|H]%elem_of_cons Hr; [exfalso; rune_cases|eauto].
  - intros a b c d t l Ha Hb Hc Hd IH r w [[= -> ->]|H]%elem_of_cons Hr; [exfalso; rune_cases|eauto].
Qed.

(** A string all of whose runes are ASCII is the string of those runes. *)
Lemma runes_all_small s : Forall (λ r, r < 128) (runes s) → s = map chr (runes s).
Proof.
  intros H. rewrite <- (decode_bytes s) at 1. unfold runes in *.
  assert (∀ r w, (r, w) ∈ decode s → r < 128 → w = [chr r]) as Hd by apply decode_small.
  revert H Hd. induction (decode s) as [|[r w] l IH]; simpl; [done|].
  intros [Hr Hl]%Forall_cons Hd. rewrite (Hd r w) by (try done; by left). simpl. f_equal.
  apply IH; [done|]. intros r' w' ??. apply Hd; [by right|done].
Qed.

(** A predicate on ASCII runes can be tested byte by byte. *)
Lemma existsb_runes f s :
  (∀ r, 128 ≤ r → f r = false) → existsb f (runes s) = existsb (λ c, f (ord c)) s.
Proof.
  intros Hf. unfold runes.
  apply (decode_ind (λ s l, existsb f (map fst l) = existsb (λ c, f (ord c)) s)); [done|..].
  - intros a t l Ha IH. simpl. by rewrite IH.
  - intros a t l Ha IH. simpl. rewrite IH, (Hf (ord a)) by done. by rewrite Hf.
  - intros a b t l Ha Hb IH. simpl.
    rewrite IH, (Hf (ord a)), (Hf (ord b)), (Hf (rune2 a b)) by rune_cases. done.
  - intros a b c t l Ha Hb Hc IH. simpl.
    rewrite IH, (Hf (ord a)), (Hf (ord b)), (Hf (ord c)), (Hf (rune3 a b c)) by rune_cases. done.
  - intros a b c d t l Ha Hb Hc Hd IH. simpl.
    rewrite IH, (Hf (ord a)), (Hf (ord b)), (Hf (ord c)), (Hf (ord d)), (Hf (rune4 a b c d)) by rune_cases. done.
Qed.

(** A chunk of a decoded string decodes to itself in front of anything. *)
Lemma decode_chunk s : ∀ r w t, (r, w) ∈ decode s → valid_rune (r, w) = true → decode (w ++ t) = (r, w) :: decode t.
Proof.
  apply (decode_ind (λ s l, ∀ r w t, (r, w) ∈ l → valid_rune (r, w) = true → decode (w ++ t) = (r, w) :: decode t)).
  - intros r w t H. by apply elem_of_nil in H.
  - intros a s' l Ha IH r w t [[= -> ->]|H]%elem_of_cons Hv; [|eauto].
    simpl. apply Z.ltb_lt in Ha. by rewrite Ha.
  - intros a s' l Ha IH r w t [[= -> ->]|H]%elem_of_cons Hv; [done|eauto].
  - intros a b s' l Ha Hb IH r w t [[= -> ->]|H]%elem_of_cons Hv; [|eauto].
    simpl. assert ((ord a <? 128) = false) as -> by rune_cases. by rewrite Ha, Hb.
  - intros a b c s' l Ha Hb Hc IH r w t [[= -> ->]|H]%elem_of_cons Hv; [|eauto].
    simpl. assert ((ord a <? 128) = false) as -> by rune_cases.
    assert (in_range 194 223 a = false) as -> by rune_cases. simpl. by rewrite Hb, Hc.
  - intros a b c d s' l Ha Hb Hc Hd IH r w t [[= -> ->]|H]%elem_of_cons Hv; [|eauto].
    simpl. assert ((ord a <? 128) = false) as -> by rune_cases.
    assert (in_range 194 223 a = false) as -> by rune_cases.
    assert (second3 a b = false) as -> by rune_cases. simpl. by rewrite Hb, Hc, Hd.
Qed.

(** A chunk is one ASCII byte or consists of bytes above the ASCII range. *)
Lemma decode_chunk_shape s : ∀ r w, (r, w) ∈ decode s →
  (0 ≤ r < 128 ∧ w = [chr r]) ∨ (128 ≤ r ∧ Forall (λ c, 128 ≤ ord c) w).
Proof.
  apply (decode_ind (λ s l, ∀ r w, (r, w) ∈ l →
    (0 ≤ r < 128 ∧ w = [chr r]) ∨ (128 ≤ r ∧ Forall (λ c, 128 ≤ ord c) w))).
  - intros r w H. by apply elem_of_nil in H.
  - intros a t l Ha IH r w [[= -> ->]|H]%elem_of_cons; [left|eauto].
    rewrite chr_ord. pose proof (ord_range a). split; [lia|done].
  - intros a t l Ha IH r w [[= -> ->]|H]%elem_of_cons; [right|eauto]. split; [done|by constructor].
  - intros a b t l Ha Hb IH r w [[= -> ->]|H]%elem_of_cons; [right|eauto].
    split; [|repeat constructor]; rune_cases.
  - intros a b c t l Ha Hb Hc IH r w [[= -> ->]|H]%elem_of_cons; [right|eauto].
    split; [|repeat constructor]; rune_cases.
  - intros a b c d t l Ha Hb Hc Hd IH r w [[= -> ->]|H]%elem_of_cons; [right|eauto].
    split; [|repeat constructor]; rune_cases.
Qed.

Lemma encode_decode s : ∀ r w, (r, w) ∈ decode s → valid_rune (r, w) = true → encode_rune r = w.
Proof.
  apply (decode_ind (λ s l, ∀ r w, (r, w) ∈ l → valid_rune (r, w) = true → encode_rune r = w)).
  - intros r w H. by apply elem_of_nil in H.
  - intros a t l Ha IH r w [[= -> ->]|H]%elem_of_cons Hv; [|eauto].
    unfold encode_rune. apply Z.ltb_lt in Ha. by rewrite Ha, chr_ord.
  - intros a t l Ha IH r w [[= -> ->]|H]%elem_of_cons Hv; [done|eauto].
  - intros a b t l Ha Hb IH r w [[= -> ->]|H]%elem_of_cons Hv; [|eauto]. clear Hv.
    unfold encode_rune, rune2.
    assert (194 ≤ ord a < 224 ∧ 128 ≤ ord b < 192) as [? ?] by rune_cases.
    rewrite (proj2 (Z.ltb_ge _ 128)), (proj2 (Z.ltb_lt _ 2048)) by lia.
    f_equal; [|f_equal]; apply ord_inj; rewrite ord_chr; Z.to_euclidean_division_equations; lia.
  - intros a b c t l Ha Hb Hc IH r w [[= -> ->]|H]%elem_of_cons Hv; [|eauto]. clear Hv.
    unfold encode_rune, rune3.
    assert (224 ≤ ord a < 240 ∧ 128 ≤ ord b < 192 ∧ 128 ≤ ord c < 192 ∧ (224 < ord a ∨ 160 ≤ ord b)) as (? & ? & ? & ?) by rune_cases.
    rewrite (proj2 (Z.ltb_ge _ 128)), (proj2 (Z.ltb_ge _ 2048)), (proj2 (Z.ltb_lt _ 65536)) by lia.
    f_equal; [|f_equal; [|f_equal]]; apply ord_inj; rewrite ord_chr; Z.to_euclidean_division_equations; lia.
  - intros a b c d t l Ha Hb Hc Hd IH r w [[= -> ->]|H]%elem_of_cons Hv; [|eauto]. clear Hv.
    unfold encode_rune, rune4.
    assert (240 ≤ ord a < 245 ∧ 128 ≤ ord b < 192 ∧ 128 ≤ ord c < 192 ∧ 128 ≤ ord d < 192 ∧ (240 < ord a ∨ 144 ≤ ord b)) as (? & ? & ? & ? & ?) by rune_cases.
    rewrite (proj2 (Z.ltb_ge _ 128)), (proj2 (Z.ltb_ge _ 2048)), (proj2 (Z.ltb_ge _ 65536)) by lia.
    f_equal; [|f_equal; [|f_equal; [|f_equal]]]; apply ord_inj; rewrite ord_chr; Z.to_euclidean_division_equations; lia.
Qed.

(** ** White space: [unicode.IsSpace] on the encodings of its members *)

(** One-byte members: \t \n \v \f \r and space. *)
Definition is_space1 (a : ascii) : bool := in_range 9 13 a || (ord a =? 32).
(** U+0085 and U+00A0. *)
Definition is_space2 (a b : ascii) : bool :=
  (ord a =? 194) && ((ord b =? 133) || (ord b =? 160)).
(** U+1680, U+2000..U+200A, U+2028, U+2029, U+202F, U+205F, U+3000. *)
Definition is_space3 (a b c : ascii) : bool :=
  ((ord a =? 225) && (ord b =? 154) && (ord c =? 128)) ||
  ((ord a =? 226) && (ord b =? 128) &&
     (in_range 128 138 c || (ord c =? 168) || (ord c =? 169) || (ord c =? 175))) ||
  ((ord a =? 226) && (ord b =? 129) && (ord c =? 159)) ||
  ((ord a =? 227) && (ord b =? 128) && (ord c =? 128)).

(** [strings.TrimLeftFunc(s, unicode.IsSpace)]; the recognisers are arguments so
    the right trim can read the reversed string with reversed encodings. *)
Section trim.
Context (sp1 : ascii → bool) (sp2 : ascii → ascii → bool) (sp3 : ascii → ascii → ascii → bool).
Fixpoint trim_spaces (s : gostring) : gostring :=
  match s with
  | [] => []
  | a :: s1 =>
      if sp1 a then trim_spaces s1
      else match s1 with
      | b :: s2 =>
          if sp2 a b then trim_spaces s2
          else match s2 with
          | c :: s3 => if sp3 a b c then trim_spaces s3 else s
          | [] => s
          end
      | [] => s
      end
  end.
End trim.

Definition trim_space_left : gostring → gostring := trim_spaces is_space1 is_space2 is_space3.
Definition trim_space_right (s : gostring) : gostring :=
  rev (trim_spaces is_space1 (λ a b, is_space2 b a) (λ a b c, is_space3 c b a) (rev s)).

(** [strings.TrimSpace]. *)
Definition trim_space (s : gostring) : gostring := trim_space_right (trim_space_left s).

(** A trimmed text starts and ends with an ASCII byte that is no space. *)
Definition solid (c : ascii) : bool := (ord c <? 128) && negb (is_space1 c).
Lemma solid_left c s : solid c = true → trim_space_left (c :: s) = c :: s.
Proof.
  intros [Hc Hs%negb_true_iff]%andb_true_iff. apply Z.ltb_lt in Hc. unfold trim_space_left. cbn [trim_spaces].
  rewrite Hs. destruct s as [|b s]; [done|].
  assert (is_space2 c b = false) as ->.
  { unfold is_space2. destruct (Z.eqb_spec (ord c) 194); [lia|done]. }
  destruct s as [|d s]; [done|].
  assert (is_space3 c b d = false) as ->; [|done].
  unfold is_space3.
  rewrite !(proj2 (Z.eqb_neq (ord c) _)) by lia. done.
Qed.
Lemma solid_right c s : solid c = true → trim_space_right (s ++ [c]) = s ++ [c].
Proof.
  intros [Hc Hs%negb_true_iff]%andb_true_iff. apply Z.ltb_lt in Hc. unfold trim_space_right.
  rewrite rev_app_distr. cbn [rev app trim_spaces]. rewrite Hs.
  destruct (rev s) as [|b t] eqn:E.
  - apply (f_equal (@rev ascii)) in E. rewrite rev_involutive in E. by subst.
  - assert (is_space2 b c = false) as ->.
    { unfold is_space2. rewrite !(proj2 (Z.eqb_neq (ord c) _)) by lia. by rewrite andb_false_r. }
    assert (∀ d, is_space3 d b c = false) as H3.
    { intros d. unfold is_space3, in_range.
      rewrite !(proj2 (Z.eqb_neq (ord c) _)), !(proj2 (Z.leb_gt _ (ord c))) by lia.
      by rewrite ?andb_false_r. }
    apply (f_equal (@rev ascii)) in E. rewrite rev_involutive in E. subst s.
    destruct t as [|d t]; [done|]. rewrite H3. done.
Qed.
Lemma solid_trim c s d : solid c = true → solid d = true → trim_space (c :: s ++ [d]) = c :: s ++ [d].
Proof.
  intros Hc Hd. unfold trim_space. rewrite solid_left by done. apply (solid_right d (c :: s) Hd).
Qed.

(** [strings.TrimRight(s, cutset)] and [TrimLeft] for an ASCII cutset. *)
Fixpoint drop_in (cutset s : gostring) : gostring :=
  match s with
  | a :: s' => if contains_byte a cutset then drop_in cutset s' else s
  | [] => []
  end.
Definition trim_right (cutset s : gostring) : gostring := rev (drop_in cutset (rev s)).

(** [strings.Fields]: the maximal runs without white space; [cur] is the field
    being read, reversed. *)
Definition emit (cur : gostring) (l : list gostring) : list gostring :=
  match cur with [] => l | _ => rev cur :: l end.
Fixpoint fields_go (cur s : gostring) : list gostring :=
  match s with
  | [] => emit cur []
  | a :: s1 =>
      if is_space1 a then emit cur (fields_go [] s1)
      else match s1 with
      | b :: s2 =>
          if is_space2 a b then emit cur (fields_go [] s2)
          else match s2 with
          | c :: s3 =>
              if is_space3 a b c then emit cur (fields_go [] s3) else fields_go (a :: cur) s1
          | [] => fields_go (a :: cur) s1
          end
      | [] => fields_go (a :: cur) s1
      end
  end.
Definition fields (s : gostring) : list gostring := fields_go [] s.

(** ** Letter case *)

Definition lower_byte (c : ascii) : ascii := if is_upper c then chr (ord c + 32) else c.
Definition upper_byte (c : ascii) : ascii := if is_lower c then chr (ord c - 32) else c.

(** The Unicode tables the source reaches through [strings.ToLower] and
    [strings.EqualFold]: [unicode.ToLower] and a representative of the
    [unicode.SimpleFold] orbit, on the runes from 0x80. Below 0x80 both are the
    ASCII rule, written out in [lower_rune] and [fold_rune]. *)
Class UnicodeTables := {
  table_lower : Z → Z;
  table_fold : Z → Z
}.

(** What the source relies on of the tables: only U+017F and U+212A fold to an
    ASCII letter, and only U+0130 and U+212A have an ASCII lower case. *)
Class UnicodeLaws `{UnicodeTables} : Prop := {
  table_fold_ascii r : 128 ≤ r → table_fold r < 128 →
    (r = 383 ∧ table_fold r = 115) ∨ (r = 8490 ∧ table_fold r = 107);
  table_lower_ascii r : 128 ≤ r → table_lower r < 128 →
    (r = 304 ∧ table_lower r = 105) ∨ (r = 8490 ∧ table_lower r = 107)
}.

(** A concrete instance: the runes just named, every other rune unchanged. *)
#[export] Instance ascii_tables : UnicodeTables := {
  table_lower r := if r =? 304 then 105 else if r =? 8490 then 107 else r;
  table_fold r := if r =? 383 then 115 else if r =? 8490 then 107 else r
}.
#[export] Instance ascii_tables_laws : @UnicodeLaws ascii_tables.
Proof.
  split; intros r Hr; simpl; repeat case_match; bsplit; subst; intros; try lia; auto.
Qed.

Section case.
Context `{UnicodeTables}.

Definition lower_rune (r : Z) : Z :=
  if r <? 128 then ord (lower_byte (chr r)) else table_lower r.
Definition fold_rune (r : Z) : Z :=
  if r <? 128 then ord (lower_byte (chr r)) else table_fold r.

(** [strings.ToLower] *)
Definition to_lower (s : gostring) : gostring :=
  if is_ascii s then map lower_byte s
  else concat (map (λ r, encode_rune (lower_rune r)) (runes s)).

(** [strings.EqualFold] *)
Definition equal_fold (s t : gostring) : bool :=
  bool_decide (map fold_rune (runes s) = map fold_rune (runes t)).

Lemma equal_fold_refl s : equal_fold s s = true.
Proof. unfold equal_fold. by rewrite bool_decide_eq_true. Qed.

Lemma equal_fold_sym s t : equal_fold s t = equal_fold t s.
Proof. unfold equal_fold. apply bool_decide_ext. done. Qed.

Lemma equal_fold_trans s t u : equal_fold s t = true → equal_fold t u = true → equal_fold s u = true.
Proof. unfold equal_fold. rewrite !bool_decide_eq_true. congruence. Qed.

End case.

(** ** Comparing against hexadecimal text *)

Definition is_hex_lower (c : ascii) : bool := is_digit c || between "a" "f" c.
Definition is_hex (c : ascii) : bool := is_hex_lower c || between "A" "F" c.

Lemma map_inj {A B} (f : A → B) l k : (∀ x y, f x = f y → x = y) → map f l = map f k → l = k.
Proof.
  intros Hf. revert k. induction l as [|x l IH]; intros [|y k]; simpl; try done.
  intros [= H1%Hf H2%IH]. by subst.
Qed.

Ltac byte_cases :=
  unfold is_hex, is_hex_lower, is_digit, is_upper, is_lower, between in *;
  change (ord "0") with 48 in *; change (ord "9") with 57 in *;
  change (ord "a") with 97 in *; change (ord "z") with 122 in *;
  change (ord "f") with 102 in *; change (ord "A") with 65 in *;
  change (ord "F") with 70 in *; change (ord "Z") with 90 in *.

Lemma ord_lower_byte c : ord (lower_byte c) = if is_upper c then ord c + 32 else ord c.
Proof.
  unfold lower_byte. destruct (is_upper c) eqn:E; [|done].
  byte_cases. bsplit. apply ord_chr. lia.
Qed.

Lemma hex_ascii s : forallb is_hex s = true → is_ascii s = true.
Proof.
  unfold is_ascii. rewrite !forallb_forall. intros H c Hc. specialize (H c Hc).
  byte_cases. apply Z.ltb_lt. apply orb_true_iff in H as [H|H]; bsplit; [|lia].
  apply orb_true_iff in H as [H|H]; bsplit; lia.
Qed.

Lemma hex_fold_bounds c : is_hex c = true → 48 ≤ ord (lower_byte c) ≤ 102.
Proof.
  rewrite ord_lower_byte. byte_cases. intros H.
  destruct (_ && _) eqn:E in |- *; bsplit; [lia|].
  apply orb_true_iff in H as [H|H]; bsplit; [|].
  - apply orb_true_iff in H as [H|H]; bsplit; lia.
  - exfalso. apply andb_false_iff in E as [E|E]; bsplit; lia.
Qed.

(** Against a hexadecimal string, [EqualFold] is equality up to ASCII case. *)
Lemma equal_fold_hex `{UnicodeLaws} s t :
  forallb is_hex t = true →
  equal_fold s t = true ↔ map lower_byte s = map lower_byte t.
Proof.
  intros Ht. unfold equal_fold. rewrite bool_decide_eq_true.
  assert (∀ w, is_ascii w = true → map fold_rune (runes w) = map (λ c, ord (lower_byte c)) w) as Hasc.
  { intros w Hw. rewrite runes_ascii, map_map by done. apply map_ext_in. intros c Hc.
    unfold fold_rune. unfold is_ascii in Hw. rewrite forallb_forall in Hw.
    rewrite (Hw c Hc). by rewrite chr_ord. }
  rewrite (Hasc t) by (by apply hex_ascii).
  split; intros Heq.
  - assert (Forall (λ r, r < 128) (runes s)) as Hsmall.
    { apply Forall_forall. intros r Hr. destruct (Z.lt_ge_cases r 128) as [|Hge]; [done|].
      assert (fold_rune r ∈ map (λ c, ord (lower_byte c)) t) as Hin
        by (rewrite <- Heq; by apply list_elem_of_fmap_2).
      apply list_elem_of_fmap in Hin as (c & Hc & Hct).
      rewrite forallb_forall in Ht. specialize (Ht c (proj1 (list_elem_of_In _ _) Hct)).
      pose proof (hex_fold_bounds c Ht) as Hb. rewrite <- Hc in Hb.
      unfold fold_rune in Hb. replace (r <? 128) with false in Hb by (symmetry; apply Z.ltb_ge; lia).
      destruct (table_fold_ascii r) as [[_ E]|[_ E]]; lia. }
    assert (is_ascii s = true) as Hs.
    { rewrite (runes_all_small s Hsmall). unfold is_ascii.
      apply forallb_forall. intros c (r & <- & Hr)%in_map_iff.
      rewrite Forall_forall in Hsmall. specialize (Hsmall r (proj2 (list_elem_of_In _ _) Hr)).
      pose proof (ord_range (chr r)).
      apply Z.ltb_lt. destruct (Z.lt_ge_cases r 0).
      - unfold chr. replace (Z.to_N r) with 0%N by lia. done.
      - rewrite ord_chr; lia. }
    rewrite (Hasc s Hs) in Heq.
    apply (map_inj ord); [apply ord_inj|]. by rewrite !map_map.
  - assert (is_ascii s = true) as Hs.
    { unfold is_ascii. apply forallb_forall. intros c Hc.
      assert (lower_byte c ∈ map lower_byte t) as Hin
        by (rewrite <- Heq; apply list_elem_of_fmap_2, list_elem_of_In, Hc).
      apply list_elem_of_fmap in Hin as (d & Hd & Hdt).
      rewrite forallb_forall in Ht. specialize (Ht d (proj1 (list_elem_of_In _ _) Hdt)).
      pose proof (hex_fold_bounds d Ht) as Hb. rewrite <- Hd, ord_lower_byte in Hb.
      apply Z.ltb_lt. case_match; lia. }
    rewrite (Hasc s Hs). rewrite <- !(map_map lower_byte ord). by rewrite Heq.
Qed.

(** ** Decimal numbers *)

(** [strconv.Itoa] / [FormatInt(n, 10)]: digits from the right, a division by
    ten each; the bit length bounds their number. *)
Fixpoint digits_go (fuel : nat) (n : Z) (acc : gostring) : gostring :=
  let acc' := chr (48 + n mod 10) :: acc in
  if n / 10 =? 0 then acc'
  else match fuel with
       | O => acc'
       | S fuel' => digits_go fuel' (n / 10) acc'
       end.
Definition udigits (n : Z) : gostring := digits_go (Z.to_nat (Z.log2 n)) n [].
Definition itoa (n : Z) : gostring := if n <? 0 then "-"%char :: udigits (- n) else udigits n.

Definition digit_val (c : ascii) : Z := ord c - 48.
(** The value of a digit string read after a prefix of value [v]. *)
Definition dec_from (v : Z) (ds : gostring) : Z := fold_left (λ n c, 10 * n + digit_val c) ds v.
Definition decimal (s : gostring) : Z := dec_from 0 s.

Definition min_int64 : Z := -9223372036854775808.
Definition max_int64 : Z := 9223372036854775807.
Definition int64 (n : Z) : Prop := min_int64 ≤ n ≤ max_int64.
Definition int64b (n : Z) : bool := (min_int64 <=? n) && (n <=? max_int64).
Lemma int64b_int64 n : int64b n = true → int64 n.
Proof. intros [H1 H2]%andb_true_iff. split; by apply Z.leb_le. Qed.

(** [strconv.ParseInt(s, 10, 64)]; [None] is a non-nil error. *)
Definition parse_int64 (s : gostring) : option Z :=
  let '(neg, ds) :=
    match s with
    | a :: s' => if beq a "-" then (true, s') else if beq a "+" then (false, s') else (false, s)
    | [] => (false, s)
    end in
  if bool_decide (ds = []) || negb (forallb is_digit ds) then None
  else
    let v := if neg : bool then - decimal ds else decimal ds in
    if (min_int64 <=? v) && (v <=? max_int64) then Some v else None.

Lemma is_digit_chr d : 0 ≤ d < 10 → is_digit (chr (48 + d)) = true ∧ digit_val (chr (48 + d)) = d.
Proof. intros H. unfold digit_val. byte_cases. rewrite ord_chr by lia. split; [bsplit; lia|lia]. Qed.

Lemma digits_go_value fuel n acc :
  0 ≤ n < 2 ^ Z.of_nat (S fuel) → dec_from 0 (digits_go fuel n acc) = dec_from n acc.
Proof.
  revert n acc. induction fuel as [|fuel IH]; intros n acc H.
  - assert (n / 10 = 0) as E by (apply Z.div_small; change (2 ^ Z.of_nat 1) with 2 in H; lia).
    simpl. rewrite E. simpl. unfold dec_from. simpl.
    rewrite Z.mod_small by (change (2 ^ Z.of_nat 1) with 2 in H; lia).
    rewrite (proj2 (is_digit_chr n ltac:(change (2 ^ Z.of_nat 1) with 2 in H; lia))). done.
  - cbn [digits_go]. pose proof (Z.div_mod n 10 ltac:(lia)). pose proof (Z.mod_pos_bound n 10 ltac:(lia)).
    destruct (Z.eqb_spec (n / 10) 0) as [E|E].
    + unfold dec_from. simpl. rewrite (proj2 (is_digit_chr (n mod 10) ltac:(lia))).
      f_equal. lia.
    + rewrite IH.
      * unfold dec_from. simpl. rewrite (proj2 (is_digit_chr (n mod 10) ltac:(lia))).
        f_equal. lia.
      * split; [apply Z.div_pos; lia|]. apply Z.div_lt_upper_bound; [lia|].
        rewrite Nat2Z.inj_succ, Z.pow_succ_r in H by lia.
        pose proof (Z.pow_pos_nonneg 2 (Z.of_nat (S fuel)) ltac:(lia) ltac:(lia)). lia.
Qed.

Lemma digits_go_digits fuel n acc :
  forallb is_digit acc = true → forallb is_digit (digits_go fuel n acc) = true.
Proof.
  revert n acc. induction fuel as [|fuel IH]; intros n acc H; cbn [digits_go];
    pose proof (Z.mod_pos_bound n 10 ltac:(lia)) as Hm;
    assert (forallb is_digit (chr (48 + n mod 10) :: acc) = true) as Ha
      by (cbn [forallb]; rewrite (proj1 (is_digit_chr _ Hm)); done);
    destruct (n / 10 =? 0); auto.
Qed.

Lemma digits_go_nonempty fuel n acc : ∃ c s, digits_go fuel n acc = c :: s.
Proof.
  revert n acc. induction fuel as [|fuel IH]; intros n acc; cbn [digits_go];
    destruct (n / 10 =? 0); eauto.
Qed.

Lemma udigits_spec n : 0 ≤ n → dec_from 0 (udigits n) = n ∧ forallb is_digit (udigits n) = true ∧ udigits n ≠ [].
Proof.
  intros Hn. unfold udigits. split_and!.
  - rewrite digits_go_value; [done|]. split; [done|].
    destruct (Z.eq_dec n 0) as [->|]; [done|].
    rewrite Nat2Z.inj_succ, Z2Nat.id by apply Z.log2_nonneg. apply Z.log2_spec. lia.
  - by apply digits_go_digits.
  - destruct (digits_go_nonempty (Z.to_nat (Z.log2 n)) n []) as (c & s & ->). done.
Qed.

(** Printing and parsing a 64-bit integer. *)
Lemma parse_itoa n : min_int64 ≤ n ≤ max_int64 → parse_int64 (itoa n) = Some n.
Proof.
  intros Hn. unfold itoa, parse_int64. destruct (Z.ltb_spec n 0) as [H|H].
  - pose proof (udigits_spec (- n) ltac:(lia)) as (Hv & Hd & Hne).
    change (beq "-" "-") with true. cbn iota beta zeta.
    rewrite bool_decide_eq_false_2 by done. rewrite Hd. unfold decimal. rewrite Hv. simpl.
    unfold min_int64, max_int64 in *.
    replace (- - n) with n by lia.
    by replace ((-9223372036854775808 <=? n) && (n <=? 9223372036854775807)) with true by (symmetry; apply andb_true_iff; split; apply Z.leb_le; lia).
  - pose proof (udigits_spec n ltac:(lia)) as (Hv & Hd & Hne).
    destruct (udigits n) as [|a s] eqn:E; [done|].
    assert (beq a "-" = false ∧ beq a "+" = false) as [E1 E2].
    { simpl in Hd. apply andb_true_iff in Hd as [Hd _]. unfold beq.
      split; case_bool_decide; subst; done. }
    rewrite E1, E2. rewrite bool_decide_eq_false_2 by done. rewrite Hd. unfold decimal. rewrite Hv. simpl.
    unfold min_int64, max_int64 in *.
    by replace ((-9223372036854775808 <=? n) && (n <=? 9223372036854775807)) with true by (symmetry; apply andb_true_iff; split; apply Z.leb_le; lia).
Qed.

(** ** Lines: [bufio.Scanner] with [ScanLines] *)

Definition drop_cr (l : gostring) : gostring := trim_suffix [chr 13] l.

(** The raw lines: separators removed, no empty last line. *)
Fixpoint raw_lines (ls : list gostring) : list gostring :=
  match ls with
  | [] => []
  | [l] => match l with [] => [] | _ => [l] end
  | l :: ls' => l :: raw_lines ls'
  end.

(** A token must fit the buffer: the scan stops at the first line of [max] or
    more bytes, with [false] for the [ErrTooLong] it then reports. *)
Fixpoint take_lines (max : Z) (ls : list gostring) : list gostring * bool :=
  match ls with
  | [] => ([], true)
  | l :: ls' =>
      if Z.of_nat (length l) <? max
      then let '(r, ok) := take_lines max ls' in (drop_cr l :: r, ok)
      else ([], false)
  end.

Definition newline : ascii := chr 10.
Definition scan_lines (max : Z) (s : gostring) : list gostring * bool :=
  take_lines max (raw_lines (split newline s)).

(** ** [strings.ReplaceAll] for a non-empty [old] *)
Fixpoint replace_go (old new : gostring) (skip : nat) (s : gostring) : gostring :=
  match s with
  | [] => []
  | a :: s' =>
      match skip with
      | S k => replace_go old new k s'
      | O => if has_prefix old s then new ++ replace_go old new (length old - 1) s'
             else a :: replace_go old new 0 s'
      end
  end.
Definition replace_all (old new s : gostring) : gostring := replace_go old new 0 s.

(** [strings.Contains]. *)
Fixpoint contains_str (p s : gostring) : bool :=
  has_prefix p s || match s with [] => false | _ :: s' => contains_str p s' end.

(** The first digit of a positive number is not zero. *)
Lemma digits_go_head fuel n acc :
  0 < n < 2 ^ Z.of_nat (S fuel) → ∃ c s, digits_go fuel n acc = c :: s ∧ c ≠ "0"%char.
Proof.
  revert n acc. induction fuel as [|fuel IH]; intros n acc H; cbn [digits_go];
    pose proof (Z.div_mod n 10 ltac:(lia)); pose proof (Z.mod_pos_bound n 10 ltac:(lia));
    destruct (Z.eqb_spec (n / 10) 0) as [E|E].
  1, 2, 3: try (exfalso; change (2 ^ Z.of_nat 1) with 2 in H; Z.to_euclidean_division_equations; lia);
    eexists _, _; (split; [done|]); intros Hc; apply (f_equal ord) in Hc;
    rewrite ord_chr in Hc by lia; change (ord "0") with 48 in Hc; lia.
  apply IH. split; [Z.to_euclidean_division_equations; lia|]. apply Z.div_lt_upper_bound; [lia|].
  rewrite Nat2Z.inj_succ, Z.pow_succ_r in H by lia.
  pose proof (Z.pow_pos_nonneg 2 (Z.of_nat (S fuel)) ltac:(lia) ltac:(lia)). lia.
Qed.
Lemma udigits_head n : 0 < n → ∃ c s, udigits n = c :: s ∧ c ≠ "0"%char.
Proof.
  intros Hn. apply digits_go_head. split; [done|].
  rewrite Nat2Z.inj_succ, Z2Nat.id by apply Z.log2_nonneg. apply Z.log2_spec. lia.
Qed.

Lemma itoa_inj n m : itoa n = itoa m → n = m.
Proof.
  assert (∀ k, 0 ≤ k → ∃ c s, udigits k = c :: s ∧ c ≠ "-"%char) as Hh.
  { intros k Hk. destruct (udigits_spec k Hk) as (_ & Hd & Hne).
    destruct (udigits k) as [|c s]; [done|]. exists c, s. split; [done|]. intros ->. by simpl in Hd. }
  assert (∀ k k', 0 ≤ k → 0 ≤ k' → udigits k = udigits k' → k = k') as Hu.
  { intros k k' Hk Hk' E. destruct (udigits_spec k Hk) as (<- & _), (udigits_spec k' Hk') as (<- & _). by rewrite E. }
  unfold itoa. destruct (Z.ltb_spec n 0), (Z.ltb_spec m 0); intros E.
  - injection E as E. apply Hu in E; lia.
  - destruct (Hh m) as (c & s & E' & Hc); [lia|]. rewrite E' in E. by simplify_eq.
  - destruct (Hh n) as (c & s & E' & Hc); [lia|]. rewrite E' in E. by simplify_eq.
  - by apply Hu in E; [|lia..].
Qed.

(** ** Trimming twice is trimming once *)

Section trim_facts.
Context (sp1 : ascii → bool) (sp2 : ascii → ascii → bool) (sp3 : ascii → ascii → ascii → bool).
(** The text starts with white space. *)
Definition starts_space (s : gostring) : bool :=
  match s with
  | [] => false
  | a :: s1 => sp1 a || match s1 with
      | [] => false
      | b :: s2 => sp2 a b || match s2 with [] => false | c :: _ => sp3 a b c end
      end
  end.
Lemma trim_spaces_starts_len n s : (length s ≤ n)%nat → starts_space (trim_spaces sp1 sp2 sp3 s) = false.
Proof.
  revert s. induction n as [|n IH]; intros s Hl; (destruct s as [|a s1]; [done|]); [simpl in Hl; lia|].
  cbn [trim_spaces]. simpl in Hl. destruct (sp1 a) eqn:E1; [apply IH; lia|].
  destruct s1 as [|b s2]; [simpl; by rewrite E1|]. simpl in Hl. destruct (sp2 a b) eqn:E2; [apply IH; lia|].
  destruct s2 as [|c s3]; [simpl; by rewrite E1, E2|]. simpl in Hl. destruct (sp3 a b c) eqn:E3; [apply IH; lia|].
  simpl. by rewrite E1, E2, E3.
Qed.
Lemma trim_spaces_fixed s : starts_space s = false → trim_spaces sp1 sp2 sp3 s = s.
Proof.
  destruct s as [|a [|b [|c s]]]; simpl; intros H; try done;
    repeat (apply orb_false_iff in H as [-> H]); rewrite ?H; done.
Qed.
Lemma starts_space_prefix s t : starts_space (s ++ t) = false → starts_space s = false.
Proof.
  destruct s as [|a [|b [|c s]]]; simpl; intros H; try done.
  - apply orb_false_iff in H as [-> _]. done.
  - apply orb_false_iff in H as [-> H]. apply orb_false_iff in H as [-> _]. done.
Qed.
Lemma trim_spaces_suffix_len n s : (length s ≤ n)%nat → ∃ p, s = p ++ trim_spaces sp1 sp2 sp3 s.
Proof.
  revert s. induction n as [|n IH]; intros s Hl; (destruct s as [|a s1]; [by exists []|]); [simpl in Hl; lia|].
  cbn [trim_spaces]. simpl in Hl.
  destruct (sp1 a); [destruct (IH s1) as [p E]; [lia|]; exists (a :: p); simpl; by f_equal|].
  destruct s1 as [|b s2]; [by exists []|]. simpl in Hl.
  destruct (sp2 a b); [destruct (IH s2) as [p E]; [lia|]; exists (a :: b :: p); simpl; by do 2 f_equal|].
  destruct s2 as [|c s3]; [by exists []|]. simpl in Hl.
  destruct (sp3 a b c); [destruct (IH s3) as [p E]; [lia|]; exists (a :: b :: c :: p); simpl; by do 3 f_equal|].
  by exists [].
Qed.
End trim_facts.

Lemma trim_space_idem s : trim_space (trim_space s) = trim_space s.
Proof.
  assert (∀ t, trim_space_right (trim_space_right t) = trim_space_right t) as Hr.
  { intros t. unfold trim_space_right. rewrite rev_involutive.
    rewrite (trim_spaces_fixed _ _ _ (trim_spaces _ _ _ _)) at 1; [done|]. by apply (trim_spaces_starts_len _ _ _ (length (rev t))). }
  assert (trim_space_left (trim_space s) = trim_space s) as Hl.
  { apply trim_spaces_fixed. unfold trim_space, trim_space_right. set (l := trim_space_left s).
    destruct (trim_spaces_suffix_len is_space1 (λ a b, is_space2 b a) (λ a b c, is_space3 c b a) (length (rev l)) (rev l))
      as [p E]; [done|]. apply (f_equal (@rev ascii)) in E. rewrite rev_involutive, rev_app_distr in E.
    apply (starts_space_prefix _ _ _ _ (rev p)). rewrite <- E.
    by apply (trim_spaces_starts_len _ _ _ (length s)). }
  unfold trim_space at 1. rewrite Hl. apply Hr.
Qed.
