(* ===== verification/GoQuote.v ===== *)
(** * [strconv.Quote], as [%q] of fmt writes a string.

    [is_print] is [unicode.IsPrint] of the runes above ASCII. *)
From S2P Require Export GoText.
#[local] Open Scope Z_scope.

Section quote.
Context (is_print : Z → bool).
Definition quote_mark : ascii := chr 34.
Definition hex_lower (n : Z) : ascii := nth (Z.to_nat n) "0123456789abcdef" "0"%char.
Fixpoint hex_pad (width : nat) (n : Z) : gostring :=
  match width with O => [] | S w => hex_pad w (n / 16) ++ [hex_lower (n mod 16)] end.
Definition escape_name (r : Z) : option ascii :=
  if r =? 7 then Some "a"%char else if r =? 8 then Some "b"%char else if r =? 12 then Some "f"%char
  else if r =? 10 then Some "n"%char else if r =? 13 then Some "r"%char else if r =? 9 then Some "t"%char
  else if r =? 11 then Some "v"%char else None.
Definition quote_rune (p : Z * gostring) : gostring :=
  let '(r, b) := p in
  if negb (valid_rune p) then ["\"%char; "x"%char] ++ concat (map (λ c, hex_pad 2 (ord c)) b)
  else if (r =? ord quote_mark) || (r =? ord "\") then "\"%char :: b
  else if (32 <=? r) && (r <? 127) then b
  else if (128 <=? r) && is_print r then b
  else match escape_name r with
  | Some c => ["\"%char; c]
  | None =>
      if (r <? 32) || (r =? 127) then ["\"%char; "x"%char] ++ hex_pad 2 r
      else if r <? 65536 then ["\"%char; "u"%char] ++ hex_pad 4 r
      else ["\"%char; "U"%char] ++ hex_pad 8 r
  end.
Definition Quote (s : gostring) : gostring := quote_mark :: concat (map quote_rune (decode s)) ++ [quote_mark].
End quote.
