(* ===== verification/GoRegexp.v ===== *)
(** * Go's [regexp], as far as the source uses it.

    The syntax the expressions of the program need, and a matcher with Go's
    preference: leftmost, and among the matches there the one a backtracking
    search finds first. It works on bytes: every expression of the source that
    [.] or a negated class can end in is followed by an ASCII byte, a class of
    ASCII bytes or the end of the text, so that a match never ends inside a rune
    and agrees with Go's, which reads runes. *)
From S2P Require Export GoText.
#[local] Open Scope Z_scope.

Inductive re :=
| Lit (s : gostring)            (* a literal text *)
| Cls (f : ascii → bool)        (* a class of bytes *)
| Cat (a b : re)
| Alt (a b : re)
| Opt (a : re)                  (* a? *)
| Star (greedy : bool) (a : re) (* a* and a*? *)
| Cap (n : nat) (a : re)        (* the n-th group *)
| Bol                           (* ^ *)
| Eol.                          (* $ *)

(** The groups, the latest first. *)
Abbreviation groups := (list (nat * gostring)).

Section matcher.
Context {R : Type} (whole : nat).
(** [re_match r s gs k]: [r] at the front of [s], the rest of the text and the
    groups handed to [k]. A starred expression takes no empty rounds. *)
Fixpoint re_match (r : re) (s : gostring) (gs : groups) (k : gostring → groups → option R) : option R :=
  match r with
  | Lit t => match cut_prefix t s with Some rest => k rest gs | None => None end
  | Cls f => match s with c :: rest => if f c then k rest gs else None | [] => None end
  | Cat a b => re_match a s gs (λ rest gs, re_match b rest gs k)
  | Alt a b => match re_match a s gs k with Some x => Some x | None => re_match b s gs k end
  | Opt a => match re_match a s gs k with Some x => Some x | None => k s gs end
  | Star greedy a =>
      (fix star (n : nat) (s : gostring) (gs : groups) : option R :=
         let more :=
           match n with
           | O => None
           | S n => re_match a s gs (λ rest gs, if (length rest <? length s)%nat then star n rest gs else None)
           end in
         if greedy then match more with Some x => Some x | None => k s gs end
         else match k s gs with Some x => Some x | None => more end) (length s) s gs
  | Cap n a => re_match a s gs (λ rest gs, k rest ((n, take (length s - length rest) s) :: gs))
  | Bol => if (length s =? whole)%nat then k s gs else None
  | Eol => match s with [] => k s gs | _ => None end
  end.
End matcher.

Definition group (n : nat) (gs : groups) : gostring :=
  match find (λ g, (g.1 =? n)%nat) gs with Some g => g.2 | None => [] end.

(** A match at the front of [s]: what follows it, and its groups. *)
Definition match_at (whole : nat) (r : re) (s : gostring) : option (gostring * groups) :=
  re_match whole r s [] (λ rest gs, Some (rest, gs)).
(** [FindStringSubmatch], and what follows the match. *)
Fixpoint search (whole : nat) (r : re) (s : gostring) : option (gostring * groups) :=
  match match_at whole r s with
  | Some x => Some x
  | None => match s with [] => None | _ :: rest => search whole r rest end
  end.
Definition find_submatch (r : re) (s : gostring) : option groups := snd <$> search (length s) r s.
Definition re_matches (r : re) (s : gostring) : bool :=
  match find_submatch r s with Some _ => true | None => false end.
(** [FindAllStringSubmatch] with no limit, for an expression whose matches are
    not empty; a search round for each byte of the text is enough. *)
Fixpoint find_all_loop (fuel : nat) (whole : nat) (r : re) (s : gostring) : list groups :=
  match fuel with
  | O => []
  | S fuel => match search whole r s with Some (rest, gs) => gs :: find_all_loop fuel whole r rest | None => [] end
  end.
Definition find_all (r : re) (s : gostring) : list groups := find_all_loop (length s) (length s) r s.

(** ** Classes and shorthands *)

Definition is_re_space (c : ascii) : bool :=
  beq c (chr 9) || beq c (chr 10) || beq c (chr 12) || beq c (chr 13) || beq c " ".
Definition ws : re := Cls is_re_space.
Definition nonws : re := Cls (λ c, negb (is_re_space c)).
Definition dot : re := Cls (λ c, negb (beq c newline)).
Definition re_digit : re := Cls is_digit.
Definition not_byte (b : ascii) : re := Cls (λ c, negb (beq c b)).
Definition any (r : re) : re := Star true r.
Definition many (r : re) : re := Cat r (Star true r).
Fixpoint cats (l : list re) : re := match l with [] => Lit [] | [r] => r | r :: l => Cat r (cats l) end.
Fixpoint alts (l : list re) : re := match l with [] => Cls (λ _, false) | [r] => r | r :: l => Alt r (alts l) end.

(** ** Letter case, positions, replacement *)

(** An ASCII letter under [(?i)]: both cases, and the two runes that fold to
    one. *)
Definition fold_byte (c : ascii) : re :=
  let same := Cls (λ d, beq (lower_byte d) (lower_byte c)) in
  if beq (lower_byte c) "s" then Alt same (Lit [chr 197; chr 191])
  else if beq (lower_byte c) "k" then Alt same (Lit [chr 226; chr 132; chr 170])
  else same.
Definition lit_fold (s : gostring) : re := cats (map fold_byte s).

(** [FindStringSubmatchIndex], as texts: before the match, the match, after it,
    and its groups. *)
Definition find_parts (r : re) (s : gostring) : option (gostring * gostring * gostring * groups) :=
  '(after, gs) ← search (length s) (Cap 0 r) s;
  let whole := group 0 gs in
  Some (take (length s - length after - length whole) s, whole, after, gs).

(** [ReplaceAllFunc], for an expression whose matches are not empty; [f] is given
    the match and its groups. A round for each byte of the text is enough. *)
Fixpoint replace_func (fuel : nat) (r : re) (f : gostring → groups → gostring) (s : gostring) : gostring :=
  match fuel with
  | O => s
  | S fuel =>
      match find_parts r s with
      | Some (before, whole, after, gs) => before ++ f whole gs ++ replace_func fuel r f after
      | None => s
      end
  end.
Definition replace_all_func (r : re) (f : gostring → groups → gostring) (s : gostring) : gostring :=
  replace_func (length s) r f s.

(** Every regexp of the source that starts with [^] is tried at the start only. *)
Lemma search_bol whole r s : (length s < whole)%nat → search whole (Cat Bol r) s = None.
Proof.
  induction s as [|c s IH]; intros Hlt; cbn [search]; unfold match_at; cbn [re_match].
  - destruct (Nat.eqb_spec (length (@nil ascii)) whole); [lia|done].
  - destruct (Nat.eqb_spec (length (c :: s)) whole); [lia|]. apply IH. cbn [length] in Hlt. lia.
Qed.
Lemma find_submatch_bol r s :
  find_submatch (Cat Bol r) s = snd <$> match_at (length s) r s.
Proof.
  unfold find_submatch. destruct s as [|c s]; cbn [search].
  - unfold match_at. cbn [re_match]. by destruct (re_match _ _ _ _ _).
  - unfold match_at at 1. cbn [re_match]. rewrite Nat.eqb_refl. fold (match_at (length (c :: s)) r (c :: s)).
    destruct (match_at (length (c :: s)) r (c :: s)) as [x|]; [done|]. rewrite search_bol; [done|cbn; lia].
Qed.
