(* ===== verification/GoPath.v ===== *)
(** * Go paths: [path.Clean] and the meaning of a relative path.

    [path_clean] is [path.Clean] (and [filepath.Clean] on a slash-separated
    system). [safe_path] is the specification the path checks of the lock, the
    manifest and the repository writer are proved against: a relative path of
    ordinary segments, whose resolution cannot leave the directory it is
    joined to. *)
From S2P Require Export GoText.

Definition slash : ascii := "/".

(** One segment against the reversed output, as [Clean]'s loop handles it. *)
Definition clean_step (rooted : bool) (out : list gostring) (seg : gostring) : list gostring :=
  if streq seg "" || streq seg "." then out
  else if streq seg ".." then
    match out with
    | top :: out' => if streq top ".." then seg :: out else out'
    | [] => if rooted then [] else [seg]
    end
  else seg :: out.

Definition clean_segs (rooted : bool) (segs : list gostring) : list gostring :=
  rev (fold_left (clean_step rooted) segs []).

Definition path_clean (p : gostring) : gostring :=
  let rooted := has_prefix [slash] p in
  let out := clean_segs rooted (split slash p) in
  if rooted then slash :: join [slash] out
  else match out with [] => "." | _ => join [slash] out end.
(** [filepath.Dir]: the path up to its last slash, cleaned. *)
Definition filepath_dir (p : gostring) : gostring :=
  path_clean (match cut "/" (rev p) with Some (_, d) => rev d ++ "/" | None => [] end).

(** ** Safe relative paths *)

Definition safe_seg (s : gostring) : Prop :=
  s ≠ "" ∧ s ≠ "." ∧ s ≠ "..".
#[export] Instance safe_seg_dec s : Decision (safe_seg s) := _.

Definition safe_path (p : gostring) : Prop := Forall safe_seg (split slash p).
#[export] Instance safe_path_dec p : Decision (safe_path p) := _.

(** Lexical resolution of [p] from a directory given by its segments: what
    opening [filepath.Join(dir, p)] names on a tree without symbolic links. *)
Definition resolve_step (dir : list gostring) (seg : gostring) : list gostring :=
  if streq seg "" || streq seg "." then dir
  else if streq seg ".." then removelast dir
  else dir ++ [seg].
Definition resolve (dir : list gostring) (p : gostring) : list gostring :=
  fold_left resolve_step (split slash p) dir.

Lemma streq_false s t : s ≠ t → streq s t = false.
Proof. intros. unfold streq. by rewrite bool_decide_eq_false_2. Qed.
Lemma streq_refl s : streq s s = true.
Proof. unfold streq. by rewrite bool_decide_eq_true_2. Qed.
Lemma streq_true s t : streq s t = true ↔ s = t.
Proof. unfold streq. apply bool_decide_eq_true. Qed.

Lemma streq_false_iff s t : streq s t = false ↔ s ≠ t.
Proof. unfold streq. apply bool_decide_eq_false. Qed.

Lemma resolve_segs dir l : Forall safe_seg l → fold_left resolve_step l dir = dir ++ l.
Proof.
  intros H. revert dir. induction H as [|s l (H1 & H2 & H3) Hl IH]; intros dir; simpl.
  - by rewrite app_nil_r.
  - unfold resolve_step at 2. rewrite !streq_false by done. simpl. rewrite IH.
    by rewrite <- app_assoc.
Qed.

(** A safe path stays below every directory it is joined to. *)
Lemma safe_path_resolve dir p : safe_path p → resolve dir p = dir ++ split slash p.
Proof. apply resolve_segs. Qed.

Lemma clean_step_safe rooted out s : safe_seg s → clean_step rooted out s = s :: out.
Proof. intros (H1 & H2 & H3). unfold clean_step. by rewrite !streq_false. Qed.

Lemma clean_fold_safe rooted l out :
  Forall safe_seg l → fold_left (clean_step rooted) l out = rev l ++ out.
Proof.
  intros H. revert out. induction H as [|s l Hs Hl IH]; intros out; simpl; [done|].
  rewrite clean_step_safe, IH by done. by rewrite <- app_assoc.
Qed.

Lemma clean_segs_safe rooted l : Forall safe_seg l → clean_segs rooted l = l.
Proof.
  intros H. unfold clean_segs. rewrite clean_fold_safe by done.
  by rewrite app_nil_r, rev_involutive.
Qed.

(** The output of an unrooted clean: some [..]s, then safe segments. *)
Definition clean_shape (l : list gostring) : Prop :=
  ∃ k r, l = replicate k (".." : gostring) ++ r ∧ Forall safe_seg r.

Lemma clean_fold_shape l out :
  clean_shape (rev out) → clean_shape (rev (fold_left (clean_step false) l out)).
Proof.
  revert out. induction l as [|s l IH]; intros out Hout; simpl; [done|].
  apply IH. unfold clean_step.
  destruct (streq s "") eqn:E1; [done|]. destruct (streq s ".") eqn:E2; [done|]. simpl.
  destruct (streq s "..") eqn:E3.
  - apply streq_true in E3 as ->.
    destruct out as [|top out].
    { exists 1%nat, []. done. }
    destruct Hout as (k & r & Hr & Hsafe).
    destruct (streq top "..") eqn:E4.
    + apply streq_true in E4 as ->. exists (S k), []. split; [|constructor].
      simpl in Hr |- *.
      destruct (snoc_cases r) as [->|(r' & x & ->)].
      * rewrite app_nil_r in *. rewrite Hr. symmetry. apply replicate_cons_app.
      * rewrite app_assoc in Hr. apply app_inj_2 in Hr as [_ Hr]; [|done]. simplify_eq/=.
        apply Forall_app in Hsafe as [_ [(_ & _ & Hx) _]%Forall_cons]. done.
    + simpl in Hr.
      destruct (snoc_cases r) as [->|(r' & x & ->)].
      * rewrite app_nil_r in Hr. destruct k as [|k]; [by destruct (rev out)|].
        rewrite replicate_S_end in Hr. apply app_inj_2 in Hr as [_ Hr]; [|done]. by simplify_eq/=.
      * rewrite app_assoc in Hr. apply app_inj_2 in Hr as [Hr _]; [|done].
        exists k, r'. split; [done|]. by apply Forall_app in Hsafe as [? _].
  - destruct Hout as (k & r & Hr & Hsafe). exists k, (r ++ [s]). simpl. rewrite Hr.
    split; [by rewrite app_assoc|]. apply Forall_app. split; [done|].
    constructor; [|constructor]. unfold safe_seg.
    split_and!; intros ->; by rewrite streq_refl in *.
Qed.

Lemma clean_segs_shape l : clean_shape (clean_segs false l).
Proof. apply clean_fold_shape. exists 0%nat, []. done. Qed.

Lemma fold_clean_no_slash rooted l out :
  (∀ w, w ∈ l → slash ∉ w) → (∀ w, w ∈ out → slash ∉ w) →
  ∀ w, w ∈ fold_left (clean_step rooted) l out → slash ∉ w.
Proof.
  revert out. induction l as [|s l IH]; intros out Hl Hout; simpl; [done|].
  apply IH; [intros w ?; apply Hl; by right|].
  assert (slash ∉ s) as Hs by (apply Hl; left).
  intros w. unfold clean_step. destruct (_ || _); [auto|]. destruct (streq s "..").
  - destruct out as [|top out]; [destruct rooted; [by intros ?%elem_of_nil|]|destruct (streq top "..")].
    + by intros ->%list_elem_of_singleton.
    + intros [->|?]%elem_of_cons; auto.
    + intros ?. apply Hout. by right.
  - intros [->|?]%elem_of_cons; auto.
Qed.

Lemma clean_segs_no_slash rooted p w : w ∈ clean_segs rooted (split slash p) → slash ∉ w.
Proof.
  unfold clean_segs. rewrite elem_of_rev. revert w.
  apply fold_clean_no_slash; [apply split_no_sep|]. by intros w Hw%elem_of_nil.
Qed.

Lemma split_hd c s : ∃ w ws, split c s = w :: ws.
Proof. pose proof (split_nonempty c s). destruct (split c s); eauto. done. Qed.

Lemma safe_path_not_rooted p : safe_path p → has_prefix [slash] p = false.
Proof.
  unfold safe_path. intros H. destruct (has_prefix [slash] p) eqn:E; [|done].
  apply has_prefix_spec in E as [r ->]. simpl in H.
  by apply Forall_cons in H as [(? & _ & _) _].
Qed.

(** A safe path is in cleaned form. *)
Lemma safe_path_clean p : safe_path p → path_clean p = p.
Proof.
  intros H. unfold path_clean. rewrite safe_path_not_rooted by done.
  rewrite clean_segs_safe by done. destruct (split_hd slash p) as (w & ws & E).
  rewrite E. rewrite <- E. apply join_split.
Qed.

(** Conversely, a relative path in cleaned form is safe unless it is ["."] or
    starts with a [".."] segment. *)
Lemma clean_safe_path p :
  has_prefix [slash] p = false → path_clean p = p → p ≠ "." → p ≠ ".." →
  has_prefix "../" p = false → safe_path p.
Proof.
  intros Hroot Hclean Hdot Hdd Hpre. unfold path_clean in Hclean. rewrite Hroot in Hclean.
  pose proof (clean_segs_shape (split slash p)) as (k & r & Hshape & Hsafe).
  pose proof (clean_segs_no_slash false p) as Hns.
  remember (clean_segs false (split slash p)) as out eqn:E.
  destruct out as [|w ws]; [congruence|].
  assert (split slash p = w :: ws) as Hsplit.
  { rewrite <- Hclean. apply split_join; [done|]. intros x Hx. by apply Hns. }
  unfold safe_path. rewrite Hsplit, Hshape.
  destruct k as [|k]; [done|]. exfalso. injection Hshape as -> ->.
  destruct (replicate k (".." : gostring) ++ r) as [|x l]; [by simpl in Hclean|].
  assert (p = ".." ++ [slash] ++ join [slash] (x :: l)) as Hp by (by rewrite <- Hclean).
  rewrite Hp in Hpre. rewrite app_assoc in Hpre.
  change (bytes_of ".." ++ [slash])%list with (bytes_of "../") in Hpre.
  by rewrite has_prefix_app in Hpre.
Qed.

(** ** Bundle paths: what lock, manifest and repository accept *)

(** No backslash and no control byte. *)
Definition plain_bytes (p : gostring) : bool := forallb (λ c, negb (beq c "\" || is_control c)) p.
Definition drive_letter (p : gostring) : bool :=
  match p with _ :: c :: _ => beq c ":" | _ => false end.

Definition bundle_path (p : gostring) : Prop :=
  safe_path p ∧ plain_bytes p = true ∧ drive_letter p = false.
#[export] Instance bundle_path_dec p : Decision (bundle_path p) := _.

Lemma plain_bytes_spec p : plain_bytes p = true ↔ ("\"%char ∉ p) ∧ Forall (λ c, is_control c = false) p.
Proof.
  unfold plain_bytes. rewrite forallb_forall, Forall_forall. split.
  - intros H. split.
    + intros Hin%list_elem_of_In. apply H in Hin. done.
    + intros c Hc%list_elem_of_In. apply H in Hc. bsplit. done.
  - intros [H1 H2] c Hc%list_elem_of_In. bsplit. apply orb_false_iff. split; [|auto].
    unfold beq. apply bool_decide_eq_false. congruence.
Qed.

Lemma safe_path_nonempty p : safe_path p → p ≠ [].
Proof. intros H ->. apply Forall_inv in H. by destruct H. Qed.

(** A bundle path joined to any directory names a file strictly below it. *)
Lemma bundle_path_below dir p : bundle_path p → ∃ s l, resolve dir p = dir ++ s :: l.
Proof.
  intros [H _]. rewrite safe_path_resolve by done.
  destruct (split_hd slash p) as (w & ws & ->). eauto.
Qed.
