(* ===== verification/PathJoin.v ===== *)
(** * [filepath.Join] below a directory.

    [under dir segs] is the path of the segments [segs] below [dir], as [Join]
    cleans it; names without a separator, other than ["."] and [".."], stay
    below and are told apart. *)
From S2P Require Export GoPath.

Definition plain_seg (s : gostring) : Prop := safe_seg s ∧ slash ∉ s.
#[export] Instance plain_seg_dec s : Decision (plain_seg s) := _.

(** [filepath.Join] of a nonempty first element. *)
Definition filepath_join (elems : list gostring) : gostring := path_clean (join [slash] elems).

Definition show (rooted : bool) (out : list gostring) : gostring :=
  if rooted then slash :: join [slash] out else match out with [] => bytes_of "." | _ => join [slash] out end.
Definition under (dir : gostring) (segs : list gostring) : gostring :=
  show (has_prefix [slash] dir) (clean_segs (has_prefix [slash] dir) (split slash dir) ++ segs).

Lemma plain_safe segs : Forall plain_seg segs → Forall safe_seg segs.
Proof. intros H. eapply Forall_impl; [exact H|]. by intros s [? _]. Qed.

Lemma split_app c l r : split c (l ++ c :: r) = split c l ++ split c r.
Proof.
  induction l as [|x l IH].
  - cbn [app split]. unfold beq. by rewrite bool_decide_eq_true_2.
  - cbn [app split]. rewrite IH. case_match; [done|]. destruct (split_hd c l) as (w & ws & ->). done.
Qed.
Lemma split_join_dir dir segs : (∀ s, s ∈ segs → slash ∉ s) → split slash (join [slash] (dir :: segs)) = split slash dir ++ segs.
Proof.
  destruct segs as [|s segs]; intros H; [by rewrite app_nil_r|].
  change (join [slash] (dir :: s :: segs)) with (dir ++ slash :: join [slash] (s :: segs)).
  by rewrite split_app, (split_join slash (s :: segs)).
Qed.

Lemma clean_segs_app rooted l a : Forall safe_seg a → clean_segs rooted (l ++ a) = clean_segs rooted l ++ a.
Proof.
  intros Ha. unfold clean_segs. rewrite fold_left_app, clean_fold_safe by done. by rewrite rev_app_distr, rev_involutive.
Qed.

Lemma clean_rooted_safe l : ∀ out, Forall safe_seg out → Forall safe_seg (fold_left (clean_step true) l out).
Proof.
  induction l as [|s l IH]; intros out Hout; cbn [fold_left]; [done|]. apply IH. unfold clean_step.
  destruct (streq s "") eqn:E1; [done|]. destruct (streq s ".") eqn:E2; [done|]. cbn [orb].
  destruct (streq s "..") eqn:E3.
  - destruct Hout as [|x out Hx Hout]; [constructor|]. destruct Hx as (_ & _ & Hx). by rewrite (streq_false x "..").
  - constructor; [|done]. split_and!; by apply streq_false_iff.
Qed.
Lemma clean_dots k : ∀ out, Forall (λ s, s = bytes_of "..") out →
  clean_segs false (out ++ replicate k (bytes_of "..")) = (out ++ replicate k (bytes_of "..")).
Proof.
  intros out Hout. assert (∀ l acc, Forall (λ s, s = bytes_of "..") l → Forall (λ s, s = bytes_of "..") acc →
    fold_left (clean_step false) l acc = rev l ++ acc) as H.
  { induction l as [|s l IH]; intros acc Hl Hacc; [done|]. apply Forall_cons in Hl as [-> Hl]. cbn [fold_left rev].
    assert (clean_step false acc (bytes_of "..") = bytes_of ".." :: acc) as ->.
    { unfold clean_step. change (streq (bytes_of "..") "") with false. change (streq (bytes_of "..") ".") with false. cbn [orb].
      rewrite streq_refl. destruct Hacc as [|x acc -> Hacc]; [done|]. by rewrite streq_refl. }
    rewrite IH; [by rewrite <- app_assoc|done|by constructor]. }
  unfold clean_segs. rewrite H; [by rewrite app_nil_r, rev_involutive| |constructor].
  apply Forall_app. split; [done|]. apply Forall_forall. by intros s [-> _]%elem_of_replicate.
Qed.
(** Cleaning again changes nothing. *)
Lemma clean_segs_idem rooted l : clean_segs rooted (clean_segs rooted l) = clean_segs rooted l.
Proof.
  destruct rooted.
  - apply clean_segs_safe. unfold clean_segs. apply Forall_rev. by apply clean_rooted_safe.
  - destruct (clean_segs_shape l) as (k & r & -> & Hr). rewrite clean_segs_app by done. f_equal. by apply (clean_dots k []).
Qed.
Lemma clean_segs_blank rooted l : clean_segs rooted ([] :: l) = clean_segs rooted l.
Proof. done. Qed.

Lemma show_rooted rooted out : (∀ s, s ∈ out → (slash ∉ s) ∧ s ≠ []) → has_prefix [slash] (show rooted out) = rooted.
Proof.
  intros H. destruct rooted; [done|]. destruct out as [|s out]; [done|]. destruct (H s) as [H1 H2]; [by left|].
  destruct s as [|c s]; [done|]. cbn [show]. destruct (has_prefix [slash] (join [slash] ((c :: s) :: out))) eqn:E; [|done].
  exfalso. apply H1. apply has_prefix_spec in E as [r E]. assert (c = slash) as -> by (destruct out; cbn in E; congruence).
  by left.
Qed.
Lemma clean_show rooted out : (∀ s, s ∈ out → slash ∉ s) → clean_segs rooted (split slash (show rooted out)) = clean_segs rooted out.
Proof.
  intros H. destruct rooted; cbn [show].
  - change (slash :: join [slash] out) with ([] ++ slash :: join [slash] out). rewrite split_app.
    change (split slash []) with [[] : gostring]. cbn [app]. rewrite clean_segs_blank.
    destruct out as [|s out]; [done|]. by rewrite split_join.
  - destruct out as [|s out]; [done|]. by rewrite split_join.
Qed.

Lemma Join_show dir segs : dir ≠ [] → (∀ s, s ∈ segs → slash ∉ s) →
  filepath_join (dir :: segs) = show (has_prefix [slash] dir) (clean_segs (has_prefix [slash] dir) (split slash dir ++ segs)).
Proof.
  intros Hd Hs. unfold filepath_join, path_clean. rewrite split_join_dir by done.
  assert (has_prefix [slash] (join [slash] (dir :: segs)) = has_prefix [slash] dir) as ->.
  { destruct dir as [|c dir]; [done|]. unfold has_prefix. destruct segs; cbn [join app cut_prefix]; [done|]. by destruct (beq slash c). }
  done.
Qed.
Lemma Join_under dir segs : dir ≠ [] → Forall plain_seg segs → filepath_join (dir :: segs) = under dir segs.
Proof.
  intros Hd Hs. rewrite Join_show; [|done|].
  - unfold under. by rewrite clean_segs_app by (by apply plain_safe).
  - intros s Hin. by destruct (proj1 (Forall_forall _ _) Hs s Hin).
Qed.
Lemma under_segs dir segs s : Forall plain_seg segs →
  s ∈ clean_segs (has_prefix [slash] dir) (split slash dir) ++ segs → slash ∉ s.
Proof.
  intros Hs [Hin|Hin]%elem_of_app; [by eapply clean_segs_no_slash|]. by destruct (proj1 (Forall_forall _ _) Hs s Hin).
Qed.

Lemma show_inj rooted a b : (∀ s, s ∈ a → slash ∉ s) → (∀ s, s ∈ b → slash ∉ s) → a ≠ [] → b ≠ [] →
  show rooted a = show rooted b → a = b.
Proof.
  intros Ha Hb Ha0 Hb0 E. rewrite <- (split_join slash a), <- (split_join slash b) by done. f_equal.
  destruct rooted; [by simplify_eq/=|]. by destruct a, b.
Qed.
Lemma under_inj dir a b : Forall plain_seg a → Forall plain_seg b → a ≠ [] → b ≠ [] → under dir a = under dir b → a = b.
Proof.
  intros Ha Hb Ha0 Hb0 E. apply show_inj in E; [by apply app_inv_head in E|..].
  - intros s. by apply under_segs.
  - intros s. by apply under_segs.
  - intros [_ ?]%app_eq_nil. done.
  - intros [_ ?]%app_eq_nil. done.
Qed.

Lemma show_nonempty rooted out : (∀ s, s ∈ out → s ≠ []) → show rooted out ≠ [].
Proof. intros H. destruct rooted; [done|]. destruct out as [|s out]; [done|]. specialize (H s ltac:(by left)). by destruct s, out. Qed.

Lemma clean_segs_nonempty rooted l s : s ∈ clean_segs rooted l → s ≠ [].
Proof.
  destruct rooted.
  - intros Hin. assert (Forall safe_seg (clean_segs true l)) as H.
    { unfold clean_segs. apply Forall_rev. by apply clean_rooted_safe. }
    by destruct (proj1 (Forall_forall _ _) H s Hin).
  - destruct (clean_segs_shape l) as (k & r & -> & Hr). intros [[-> _]%elem_of_replicate|Hin]%elem_of_app; [done|].
    by destruct (proj1 (Forall_forall _ _) Hr s Hin).
Qed.
Lemma under_fresh dir a : Forall plain_seg a → ∀ s, s ∈ clean_segs (has_prefix [slash] dir) (split slash dir) ++ a → (slash ∉ s) ∧ s ≠ [].
Proof.
  intros Ha s Hin. split; [by eapply under_segs|]. apply elem_of_app in Hin as [Hin|Hin]; [by eapply clean_segs_nonempty|].
  by destruct (proj1 (Forall_forall _ _) Ha s Hin) as [(? & _) _].
Qed.
Lemma under_nonempty dir a : Forall plain_seg a → under dir a ≠ [].
Proof. intros Ha. apply show_nonempty. intros s Hin. by apply (under_fresh dir a Ha). Qed.
Lemma under_rooted dir a : Forall plain_seg a → has_prefix [slash] (under dir a) = has_prefix [slash] dir.
Proof. intros Ha. apply show_rooted. by apply under_fresh. Qed.
Lemma clean_under dir a : Forall plain_seg a →
  clean_segs (has_prefix [slash] dir) (split slash (under dir a)) = clean_segs (has_prefix [slash] dir) (split slash dir) ++ a.
Proof.
  intros Ha. unfold under. rewrite clean_show by (intros s Hin; by apply (under_segs dir a)).
  rewrite clean_segs_app by (by apply plain_safe). by rewrite clean_segs_idem.
Qed.
Lemma under_under dir a b : Forall plain_seg a → under (under dir a) b = under dir (a ++ b).
Proof. intros Ha. unfold under at 1. rewrite under_rooted, clean_under by done. by rewrite <- app_assoc. Qed.

(** The last segment is what decides whether a name stays where it is put. *)
Lemma Join_last dir a s : dir ≠ [] → Forall plain_seg a → slash ∉ s →
  filepath_join (dir :: a ++ [s]) = if streq s "" || streq s "." then under dir a
                           else if streq s ".." then show (has_prefix [slash] dir)
                             (clean_segs (has_prefix [slash] dir) (split slash dir ++ a ++ [bytes_of ".."]))
                           else under dir (a ++ [s]).
Proof.
  intros Hd Ha Hs. destruct (streq s "" || streq s ".") eqn:E1.
  - rewrite Join_show; [|done|].
    2: { intros x [Hin| ->%list_elem_of_singleton]%elem_of_app; [|done]. by destruct (proj1 (Forall_forall _ _) Ha x Hin). }
    unfold under. f_equal. rewrite app_assoc. unfold clean_segs at 1. rewrite fold_left_app. cbn [fold_left].
    assert (∀ out, clean_step (has_prefix [slash] dir) out s = out) as -> by (intros out; unfold clean_step; by rewrite E1).
    by apply clean_segs_app, plain_safe.
  - apply orb_false_iff in E1 as [E1 E2]. destruct (streq s "..") eqn:E3.
    + apply streq_true in E3 as ->. rewrite Join_show; [done|done|].
      intros x [Hin| ->%list_elem_of_singleton]%elem_of_app; [|done]. by destruct (proj1 (Forall_forall _ _) Ha x Hin).
    + apply Join_under; [done|]. apply Forall_app. split; [done|]. constructor; [|done]. split; [|done].
      split_and!; by apply streq_false_iff.
Qed.
Lemma clean_parent rooted l a s : Forall safe_seg a → safe_seg s →
  clean_segs rooted (l ++ (a ++ [s]) ++ [bytes_of ".."]) = clean_segs rooted l ++ a.
Proof.
  intros Ha Hs. rewrite app_assoc. unfold clean_segs. rewrite fold_left_app. cbn [fold_left].
  assert (fold_left (clean_step rooted) (l ++ a ++ [s]) [] = s :: rev a ++ fold_left (clean_step rooted) l []) as ->.
  { rewrite fold_left_app, clean_fold_safe; [by rewrite rev_app_distr|]. apply Forall_app. split; [done|]. by constructor. }
  destruct Hs as (_ & _ & Hs). unfold clean_step. change (streq (bytes_of "..") "") with false.
  change (streq (bytes_of "..") ".") with false. rewrite streq_refl, (streq_false s "..") by done. cbn [orb].
  by rewrite rev_app_distr, rev_involutive.
Qed.
Lemma Join_escape dir a s : dir ≠ [] → Forall plain_seg (a ++ [s]) → filepath_join (dir :: (a ++ [s]) ++ [bytes_of ".."]) = under dir a.
Proof.
  intros Hd Ha. rewrite Join_last; [|done|done|by apply contains_byte_false]. 
  change (streq (bytes_of "..") "" || streq (bytes_of "..") ".") with false. rewrite streq_refl. cbv iota.
  apply Forall_app in Ha as [Ha [[Hs _] _]%Forall_cons]. rewrite clean_parent; [done|by apply plain_safe|done].
Qed.

Lemma join_cons_ne sep w l : l ≠ [] → join sep (w :: l) = w ++ sep ++ join sep l.
Proof. by destruct l. Qed.
Lemma join_slash l : join [slash] (l ++ [[slash]]) = join [slash] (l ++ [[]; []]).
Proof. induction l as [|w l IH]; [done|]. cbn [app]. rewrite !join_cons_ne by (by destruct l). by rewrite IH. Qed.
Lemma Join_slash dir a : dir ≠ [] → Forall plain_seg a → filepath_join (dir :: a ++ [[slash]]) = under dir a.
Proof.
  intros Hd Ha. change (dir :: a ++ [[slash]]) with ((dir :: a) ++ [[slash]]). unfold filepath_join at 1. rewrite join_slash.
  change (path_clean (join [slash] ((dir :: a) ++ [[]; []]))) with (filepath_join (dir :: a ++ [[]; []])).
  rewrite Join_show; [|done|].
  - unfold under. f_equal. rewrite app_assoc. unfold clean_segs at 1. rewrite fold_left_app. cbn [fold_left].
    by apply clean_segs_app, plain_safe.
  - intros x [Hin|Hin]%elem_of_app; [by destruct (proj1 (Forall_forall _ _) Ha x Hin)|].
    apply elem_of_cons in Hin as [->|Hin]; [by intros ?%elem_of_nil|]. apply list_elem_of_singleton in Hin as ->.
    by intros ?%elem_of_nil.
Qed.

Definition plain_segb (s : gostring) : bool := negb (streq s "" || streq s "." || streq s ".." || contains_byte slash s).
Lemma plain_segb_spec s : plain_segb s = true ↔ plain_seg s.
Proof.
  unfold plain_segb, plain_seg, safe_seg. rewrite negb_true_iff, !orb_false_iff, contains_byte_false, !streq_false_iff. tauto.
Qed.
Lemma plain_check l : forallb plain_segb l = true → Forall plain_seg l.
Proof. rewrite forallb_forall, Forall_forall. intros H s Hs. apply plain_segb_spec, H. by apply list_elem_of_In. Qed.

(** ** The last element, and one path seen from another *)

(** [filepath.Base] *)
Definition Base (p : gostring) : gostring :=
  if streq p "" then bytes_of "."
  else let b := List.last (split slash (trim_right [slash] p)) [] in if streq b "" then [slash] else b.
(** [filepath.Rel] *)
Fixpoint drop_common (a b : list gostring) : list gostring * list gostring :=
  match a, b with
  | x :: a', y :: b' => if streq x y then drop_common a' b' else (a, b)
  | _, _ => (a, b)
  end.
Definition rel_segs (p : gostring) : list gostring :=
  if streq p "." then [] else List.filter (λ w, negb (streq w "")) (split slash p).
Definition Rel (base targ : gostring) : option gostring :=
  let b := path_clean base in
  let t := path_clean targ in
  if streq b t then Some (bytes_of ".")
  else if negb (Bool.eqb (has_prefix [slash] b) (has_prefix [slash] t)) then None
  else
    let '(up, down) := drop_common (rel_segs b) (if streq t "." then [bytes_of "."] else rel_segs t) in
    match up with
    | u :: _ => if streq u ".." then None else Some (join [slash] (map (λ _, bytes_of "..") up ++ down))
    | [] => Some (join [slash] down)
    end.

(** [filepath.IsLocal]. *)
Definition IsLocal (p : gostring) : bool :=
  if has_prefix "/" p || streq p "" then false
  else negb (streq (path_clean p) "..") && negb (has_prefix "../" (path_clean p)).
