(* ===== verification/Dferr.v ===== *)
(** * core/dferr: the error taxonomy and the process exit code. *)
From S2P Require Export GoText.
#[local] Open Scope Z_scope.

(** The classes; [OtherClass] is an [int] outside the constants, which the
    type [Class int] also admits. *)
Inductive Class :=
| Success | Usage | Environment | Incomplete | Verification | Resolution | Policy | TargetMismatch
| OtherClass (n : Z).

#[export] Instance Class_eq_dec : EqDecision Class.
Proof. solve_decision. Defined.

(** The numeric value of a class: the constants' values. *)
Definition class_int (c : Class) : Z :=
  match c with
  | Success => 0 | Usage => 1 | Environment => 2 | Incomplete => 3
  | Verification => 4 | Resolution => 5 | Policy => 6 | TargetMismatch => 7
  | OtherClass n => n
  end.

(** [Class.String] *)
Definition Class_String (c : Class) : gostring :=
  match c with
  | Success => "success"
  | Usage => "usage"
  | Environment => "environment"
  | Incomplete => "incomplete"
  | Verification => "verification"
  | Resolution => "resolution"
  | Policy => "policy"
  | TargetMismatch => "target-mismatch"
  | OtherClass n => "unknown(" ++ itoa n ++ ")"
  end.

(** [Class.Description] *)
Definition Description (c : Class) : gostring :=
  match c with
  | Success => "success; bundle matches the request"
  | Usage => "usage or configuration error"
  | Environment => "environment: no apt, no container runtime, no disk, no permission"
  | Incomplete => "bundle built but incomplete: a URL failed or an external .deb has unsatisfiable dependencies"
  | Verification => "verification failed: signature, digest or repository metadata mismatch"
  | Resolution => "resolution failed: apt could not satisfy the request"
  | Policy => "policy violation (local policy or approved-keys)"
  | TargetMismatch => "target mismatch on install: architecture or release"
  | OtherClass _ => "unknown"
  end.

(** [Classes] *)
Definition Classes : list Class :=
  [Success; Usage; Environment; Incomplete; Verification; Resolution; Policy; TargetMismatch].

(** A non-nil [error]. [Plain] is an [errors.New] or a [fmt.Errorf] without
    [%w]; [Sentinel] a package-level error value, compared by identity;
    [Wrapped] a [fmt.Errorf] with [%w]; [DfError] is [*dferr.Error]. *)
#[warnings="-register-all"]
Inductive goerror :=
| Plain (text : gostring)
| Sentinel (id text : gostring)
| Wrapped (text : gostring) (cause : goerror)
| DfError (class : Class) (msg hint : gostring) (cause : option goerror).

(** A possibly nil [error]. *)
Abbreviation error := (option goerror).

(** [error.Error()]; the last arm is the method of [*Error]. *)
Fixpoint error_text (e : goerror) : gostring :=
  match e with
  | Plain t => t
  | Sentinel _ t => t
  | Wrapped t _ => t
  | DfError c msg _ cause =>
      match cause with
      | Some e' => if negb (streq msg "") then msg ++ ": " ++ error_text e' else error_text e'
      | None => if negb (streq msg "") then msg else Class_String c
      end
  end.

(** [errors.Unwrap]; on [*Error] this is its [Unwrap] method. *)
Definition Unwrap (e : goerror) : error :=
  match e with
  | Plain _ | Sentinel _ _ => None
  | Wrapped _ cause => Some cause
  | DfError _ _ _ cause => cause
  end.

(** [New], the message already formatted. *)
Definition New (c : Class) (msg : gostring) : goerror := DfError c msg "" None.

(** [Wrap]: nil stays nil. *)
Definition Wrap (c : Class) (err : error) (msg : gostring) : error :=
  match err with
  | None => None
  | Some e => Some (DfError c msg "" (Some e))
  end.

(** The method [WithHint] of [*Error]: a copy with the hint set. *)
Definition WithHint (e : goerror) (hint : gostring) : goerror :=
  match e with
  | DfError c msg _ cause => DfError c msg hint cause
  | _ => e
  end.

(** [errors.As(err, &e)] for [*Error]: the first one of the unwrap chain. *)
Fixpoint as_dferr (e : goerror) : option (Class * gostring) :=
  match e with
  | Plain _ | Sentinel _ _ => None
  | Wrapped _ cause => as_dferr cause
  | DfError c _ hint _ => Some (c, hint)
  end.

(** [errors.Is(err, sentinel)]. *)
Fixpoint is_sentinel (id : gostring) (e : goerror) : bool :=
  match e with
  | Plain _ => false
  | Sentinel i _ => streq i id
  | Wrapped _ cause => is_sentinel id cause
  | DfError _ _ _ (Some cause) => is_sentinel id cause
  | DfError _ _ _ None => false
  end.

(** [ClassOf] *)
Definition ClassOf (err : error) : Class :=
  match err with
  | None => Success
  | Some e => match as_dferr e with Some (c, _) => c | None => Usage end
  end.

(** [ExitCode] *)
Definition ExitCode (err : error) : Z := class_int (ClassOf err).

(** [HintOf] *)
Definition HintOf (err : error) : gostring :=
  match err with
  | None => ""
  | Some e => match as_dferr e with Some (_, h) => h | None => "" end
  end.

(** [Is] *)
Definition Is (err : error) (c : Class) : bool :=
  match err with None => false | Some _ => bool_decide (ClassOf err = c) end.

(** ** Specification *)

(** The chain [errors.Unwrap] walks, outermost first. *)
Fixpoint chain (e : goerror) : list goerror :=
  e :: match e with
       | Plain _ | Sentinel _ _ => []
       | Wrapped _ cause => chain cause
       | DfError _ _ _ (Some cause) => chain cause
       | DfError _ _ _ None => []
       end.

Definition is_dferr (e : goerror) : bool := match e with DfError _ _ _ _ => true | _ => false end.
Definition class_field (e : goerror) : Class := match e with DfError c _ _ _ => c | _ => Usage end.

(** [Wrapped] layers put in front of an error by [fmt.Errorf("...: %w")]. *)
Definition plain_layers (texts : list gostring) (e : goerror) : goerror := foldr Wrapped e texts.

Lemma as_dferr_chain e :
  as_dferr e = match filter (λ x, is_dferr x = true) (chain e) with
               | DfError c _ h _ :: _ => Some (c, h)
               | _ => None
               end.
Proof.
  induction e as [t|i t|t e IH|c m h cause]; simpl; try done.
Qed.

Lemma as_dferr_layers texts e : as_dferr (plain_layers texts e) = as_dferr e.
Proof. induction texts as [|t texts IH]; simpl; [done|]. exact IH. Qed.

(** The class of an error is the class of the outermost [*Error] of its
    unwrap chain, whatever plain wrapping surrounds it and whatever it wraps;
    an error with no [*Error] at all is a usage error; and [Wrap] followed by
    plain wrapping therefore decides class and exit code. *)
Theorem ClassOf_outermost (e : goerror) (texts : list gostring) (c : Class) (msg : gostring) :
  ClassOf (Some e) =
    match filter (λ x, is_dferr x = true) (chain e) with x :: _ => class_field x | [] => Usage end
  ∧ (ClassOf (Some (plain_layers texts e)) = ClassOf (Some e))
  ∧ ClassOf (plain_layers texts <$> Wrap c (Some e) msg) = c
  ∧ ExitCode (plain_layers texts <$> Wrap c (Some e) msg) = class_int c.
Proof.
  unfold ExitCode, ClassOf. cbn. rewrite !as_dferr_layers. cbn. split_and!; try done.
  rewrite as_dferr_chain.
  assert (Forall (λ x, is_dferr x = true) (filter (λ x, is_dferr x = true) (chain e))) as Hf.
  { apply Forall_forall. by intros x [? _]%list_elem_of_filter. }
  destruct (filter _ _) as [|[| | |c' m h k] l]; try done;
    by apply Forall_cons in Hf as [? _].
Qed.

(** The process exits 0 exactly when there is no error or the outermost
    [*Error] was explicitly given a class whose value is 0; an unclassified
    error never does, and the eight documented classes have eight different
    exit codes, 0 to 7 in the order [Classes] lists them. *)
Theorem ExitCode_zero (err : error) :
  (ExitCode err = 0 ↔
     match err with
     | None => True
     | Some e => ∃ c h, as_dferr e = Some (c, h) ∧ (c = Success ∨ c = OtherClass 0)
     end)
  ∧ map class_int Classes = map Z.of_nat (seq 0 8).
Proof.
  split; [|done]. unfold ExitCode, ClassOf.
  destruct err as [e|]; [|done]. destruct (as_dferr e) as [[c h]|] eqn:E; simpl.
  - split.
    + intros H. exists c, h. split; [done|]. destruct c; simpl in H; try done; subst; auto.
    + intros (c' & h' & [= <- <-] & [-> | ->]); done.
  - split; [done|]. by intros (c' & h' & ? & _).
Qed.
