(* ===== verification/Distro.v ===== *)
(** * core/distro: releases, images and architectures.

    All of distro.go. A Go map is a list of pairs: its order shows only in
    [Architectures], which sorts. *)
From S2P Require Export GoPath Dferr GoQuote.
#[local] Open Scope Z_scope.

Definition Debian : gostring := "debian".
Definition Ubuntu : gostring := "ubuntu".
Record Release := mkRelease {
  rl_DistroID : gostring; rl_VersionID : gostring; rl_Codename : gostring; rl_Supported : bool; rl_Image : gostring;
  rl_ImageDigest : gostring; rl_EOL : gostring
}.

(** Before the last [c], if there is one. *)
Definition cut_at_last (c : ascii) (s : gostring) : option (gostring * gostring) :=
  match cut c (rev s) with Some (r, l) => Some (rev l, rev r) | None => None end.
(** A tag is cut at a colon after the last slash; a port stands before it. *)
Definition stripImageTag (image : gostring) : gostring :=
  let image := match cut "@" image with Some (l, _) => l | None => image end in
  match cut_at_last ":" image with
  | Some (l, r) => if contains_byte "/" r then image else l
  | None => image
  end.
Definition Ref (r : Release) : gostring :=
  if streq (rl_ImageDigest r) "" then rl_Image r else stripImageTag (rl_Image r) ++ "@" ++ rl_ImageDigest r.

Definition releases : list Release :=
  [mkRelease Debian "11" "bullseye" false "docker.io/library/debian:bullseye-slim"
     "sha256:e5b6442dd2e9684cf5e87d8338b5968f3b348636fc0be6d7850a381e3731a2bd" "2024-07-01";
   mkRelease Debian "12" "bookworm" true "docker.io/library/debian:bookworm-slim"
     "sha256:88200866dfff7ea7f5cbcb6ec7c8a701889efe6fe859fe64d6990e4b07ea4171" "2028-06-30";
   mkRelease Debian "13" "trixie" true "docker.io/library/debian:trixie-slim"
     "sha256:d7e12182ce18b85b93007c1dedf31f2d29e01ccf3182cc4017c709b6259bc132" "2030-06-30";
   mkRelease Debian "14" "forky" false "docker.io/library/debian:forky-slim"
     "sha256:91b0aaebf7a1ccacfe7a9cbff6ab2d6be7d9b3b6cf1dfcf44b25f9095c0e0464" "";
   mkRelease Ubuntu "20.04" "focal" false "docker.io/library/ubuntu:20.04"
     "sha256:8feb4d8ca5354def3d8fce243717141ce31e2c428701f6682bd2fafe15388214" "2025-05-31";
   mkRelease Ubuntu "22.04" "jammy" true "docker.io/library/ubuntu:22.04"
     "sha256:2edbbc5dc405e9612ba3584ce95480277e3eb374407b5505fe26f17df77c7dbc" "2027-06-01";
   mkRelease Ubuntu "24.04" "noble" true "docker.io/library/ubuntu:24.04"
     "sha256:33ceb71981b602c1a7443a53469e4dba065f7503eab3078a2d7a57a2ab987517" "2029-06-01";
   mkRelease Ubuntu "24.10" "oracular" false "docker.io/library/ubuntu:24.10"
     "sha256:cdf755952ed117f6126ff4e65810bf93767d4c38f5c7185b50ec1f1078b464cc" "2025-07-01";
   mkRelease Ubuntu "25.04" "plucky" false "docker.io/library/ubuntu:25.04"
     "sha256:27771fb7b40a58237c98e8d3e6b9ecdd9289cec69a857fccfb85ff36294dac20" "";
   mkRelease Ubuntu "25.10" "questing" false "docker.io/library/ubuntu:25.10"
     "sha256:7cc5e35f6567ee8c66d2abb4aab0fd866669e6207c237c3a8f0947a5c7f17092" "";
   mkRelease Ubuntu "26.04" "resolute" true "docker.io/library/ubuntu:26.04"
     "sha256:2260313b31c8c011cd2eebe728008efac1b3982be73eb71348ea2648d2c0e09b" "2031-06-01"].
Definition Supported : list Release := List.filter rl_Supported releases.

Section distro.
Context {unicode : UnicodeTables}.

Definition Lookup (distroID versionID : gostring) : option Release :=
  find (λ r, streq (rl_DistroID r) (to_lower distroID) && streq (rl_VersionID r) versionID) releases.
Definition ByCodename (codename : gostring) : option Release := find (λ r, streq (rl_Codename r) (to_lower codename)) releases.
Definition knownReleaseNames : list gostring :=
  map (λ r, rl_DistroID r ++ " " ++ rl_VersionID r ++ " (" ++ rl_Codename r ++ ")") releases.
Definition Resolve (is_print : Z → bool) (distroID versionID codename : gostring) : result goerror Release :=
  match Lookup distroID versionID with
  | Some r => Ok r
  | None => match ByCodename codename with
      | Some r => Ok r
      | None => Err (New Usage ("distro: unknown release " ++ Quote is_print distroID ++ " " ++ Quote is_print versionID ++ " ("
          ++ Quote is_print codename ++ "); known releases: " ++ join ", " knownReleaseNames))
      end
  end.
End distro.

Definition archToPlatform : list (gostring * gostring) :=
  [(bytes_of "amd64", bytes_of "linux/amd64"); (bytes_of "arm64", bytes_of "linux/arm64"); (bytes_of "armhf", bytes_of "linux/arm/v7");
   (bytes_of "armel", bytes_of "linux/arm/v6"); (bytes_of "i386", bytes_of "linux/386"); (bytes_of "ppc64el", bytes_of "linux/ppc64le");
   (bytes_of "s390x", bytes_of "linux/s390x"); (bytes_of "riscv64", bytes_of "linux/riscv64")].
Definition Platform (dpkgArch : gostring) : option gostring := snd <$> find (λ p, streq p.1 dpkgArch) archToPlatform.
Definition Architectures : list gostring := sort_strings (map fst archToPlatform).

Definition restrictedComponents : list (gostring * gostring) :=
  map (λ c, (bytes_of c, bytes_of c)) ["multiverse"; "restricted"; "non-free"; "non-free-firmware"]%string ++ [(bytes_of "contrib", [])].
Definition ComponentFlag `{UnicodeTables} (component : gostring) : option gostring :=
  let component := to_lower (trim_space component) in
  let component := match cut "/" component with Some (l, _) => l | None => component end in
  match find (λ p, streq p.1 component) restrictedComponents with
  | Some (_, flag) => if streq flag "" then None else Some flag
  | None => None
  end.

(** ** What the table is *)

(** A release is found by its own names, and only by them; an image is pinned,
    and is the one of a row whatever text was asked with. *)
Lemma Resolve_table `{UnicodeTables} is_print d v c r : Resolve is_print d v c = Ok r →
  r ∈ releases ∧ (rl_DistroID r = to_lower d ∧ rl_VersionID r = v ∨ rl_Codename r = to_lower c).
Proof.
  unfold Resolve, Lookup, ByCodename. destruct (find _ _) as [r1|] eqn:E1.
  - intros [= <-]. apply find_some in E1 as [Hin [H1%streq_true H2%streq_true]%andb_true_iff].
    split; [by apply list_elem_of_In|by left].
  - destruct (find (λ r, streq (rl_Codename r) (to_lower c)) releases) as [r2|] eqn:E2; [|by intros].
    intros [= <-]. apply find_some in E2 as [Hin H1%streq_true]. split; [by apply list_elem_of_In|by right].
Qed.
Lemma releases_distinct : NoDup (map (λ r, (rl_DistroID r, rl_VersionID r)) releases) ∧ NoDup (map rl_Codename releases).
Proof. split; apply (bool_decide_eq_true _); vm_compute; reflexivity. Qed.
Lemma images_pinned : Forall (λ r, contains_byte "@" (Ref r) = true ∧ rl_ImageDigest r ≠ []) releases.
Proof. repeat constructor; done. Qed.
Example a_port_is_no_tag : stripImageTag "registry.internal:5000/library/debian:trixie-slim" = "registry.internal:5000/library/debian".
Proof. reflexivity. Qed.
