(* ===== verification/DebVersion.v ===== *)
(** * core/apt/dpkgversion.go: comparing Debian version strings. *)
From S2P Require Export GoText.
#[local] Open Scope Z_scope.

(** ** The code *)

(** [isDigitByte] *)
Definition isDigitByte (b : ascii) : bool := is_digit b.

(** [verOrder] *)
Definition verOrder (b : ascii) : Z :=
  if beq b "~" then -1
  else if ord b =? 0 then 0
  else if is_digit b then 0
  else if is_lower b || is_upper b then ord b
  else ord b + 256.

(** [sign] *)
Definition sign (n : Z) : Z := if n <? 0 then -1 else if 0 <? n then 1 else 0.

(** The indices [i] and [j] of the source are the suffixes still to be read. *)
Definition at_nondigit (s : gostring) : bool :=
  match s with a :: _ => negb (isDigitByte a) | [] => false end.
Definition at_digit (s : gostring) : bool :=
  match s with a :: _ => isDigitByte a | [] => false end.
Definition head_order (s : gostring) : Z := match s with a :: _ => verOrder a | [] => 0 end.

(** The first inner loop: [inl d] is the early [return ac - bc]. [None] means
    the fuel ran out. *)
Fixpoint nondigit_loop (fuel : nat) (a b : gostring) : option (Z + gostring * gostring) :=
  if at_nondigit a || at_nondigit b then
    let ac := head_order a in
    let bc := head_order b in
    if negb (ac =? bc) then Some (inl (ac - bc))
    else match fuel with
         | O => None
         | S fuel' => nondigit_loop fuel' (tail a) (tail b)
         end
  else Some (inr (a, b)).

(** The two loops that skip leading zeros. *)
Fixpoint skip_zeros (s : gostring) : gostring :=
  match s with
  | a :: s' => if beq a "0" then skip_zeros s' else s
  | [] => []
  end.

(** The loop over the common digits, with [firstDiff]. *)
Fixpoint digit_loop (firstDiff : Z) (a b : gostring) : Z * gostring * gostring :=
  match a, b with
  | x :: a', y :: b' =>
      if isDigitByte x && isDigitByte y
      then digit_loop (if firstDiff =? 0 then ord x - ord y else firstDiff) a' b'
      else (firstDiff, a, b)
  | _, _ => (firstDiff, a, b)
  end.

(** The outer loop. *)
Fixpoint verrevcmp_loop (fuel : nat) (a b : gostring) : option Z :=
  match a, b with
  | [], [] => Some 0
  | _, _ =>
      match fuel with
      | O => None
      | S fuel' =>
          match nondigit_loop (length a + length b) a b with
          | None => None
          | Some (inl d) => Some d
          | Some (inr (a1, b1)) =>
              let '(firstDiff, a2, b2) := digit_loop 0 (skip_zeros a1) (skip_zeros b1) in
              if at_digit a2 then Some 1
              else if at_digit b2 then Some (-1)
              else if negb (firstDiff =? 0) then Some firstDiff
              else verrevcmp_loop fuel' a2 b2
          end
      end
  end.

(** [verrevcmp]; the fuel is enough for every input ([verrevcmp_total]). *)
Definition verrevcmp (a b : gostring) : Z :=
  default 0 (verrevcmp_loop (length a + length b) a b).

(** [splitEpoch] *)
Definition splitEpoch (v : gostring) : gostring * gostring :=
  match cut ":" v with
  | Some (e, r) => (e, r)
  | None => ("0" : gostring, v)
  end.

(** [splitRevision]: [strings.LastIndexByte] is the first index from the right. *)
Definition splitRevision (rest : gostring) : gostring * gostring :=
  match cut "-" (rev rest) with
  | Some (r, u) => (rev u, rev r)
  | None => (rest, "0" : gostring)
  end.

(** [compareVersionsFallback] *)
Definition compareVersionsFallback (a b : gostring) : Z :=
  let '(aEpoch, aRest) := splitEpoch a in
  let '(bEpoch, bRest) := splitEpoch b in
  let c := verrevcmp aEpoch bEpoch in
  if negb (c =? 0) then sign c
  else
    let '(aUp, aRev) := splitRevision aRest in
    let '(bUp, bRev) := splitRevision bRest in
    let c := verrevcmp aUp bUp in
    if negb (c =? 0) then sign c
    else sign (verrevcmp aRev bRev).

(** The [debversion] package (pault.ag/go/debian/version) is not part of the
    repository: its [Parse] ([None] for an error) and [Compare] are parameters. *)
Section library.
Context {version : Type} (parse : gostring → option version) (vcompare : version → version → Z).

(** [CompareVersions] *)
Definition CompareVersions (a b : gostring) : Z :=
  match parse a, parse b with
  | Some av, Some bv => sign (vcompare av bv)
  | _, _ => compareVersionsFallback a b
  end.

(** [EqualVersions] *)
Definition EqualVersions (a b : gostring) : bool := CompareVersions a b =? 0.
End library.

(** [majorMinorRE] is ^(\d+)\.(\d+): two greedy digit runs around a dot. *)
Fixpoint span_digits (s : gostring) : gostring * gostring :=
  match s with
  | a :: s' => if is_digit a then let '(d, r) := span_digits s' in (a :: d, r) else ([], s)
  | [] => ([], [])
  end.

(** [aptMajorMinor] *)
Definition aptMajorMinor (v : gostring) : option (gostring * gostring) :=
  let '(major, rest) := span_digits (trim_space v) in
  match major, rest with
  | _ :: _, c :: rest' =>
      if beq c "." then
        match span_digits rest' with
        | (minor, _) => match minor with [] => None | _ => Some (major, minor) end
        end
      else None
  | _, _ => None
  end.

(** ** Specification: Debian Policy 5.6.12 as an order on keys *)

(** Lexicographic order on integer sequences continued by zeros for ever. *)
Fixpoint lex0 (l : list Z) : comparison :=
  match l with
  | [] => Eq
  | x :: l' => match x ?= 0 with Eq => lex0 l' | c => c end
  end.
Fixpoint lexz (l k : list Z) : comparison :=
  match l, k with
  | [], _ => CompOpp (lex0 k)
  | _, [] => lex0 l
  | x :: l', y :: k' => match x ?= y with Eq => lexz l' k' | c => c end
  end.

(** The key of a version part: for each non-digit run the orders of its
    characters and a 0 (the end of the run, above ['~'] and below everything
    else), then the value of the digit run that follows. [num] is the value of
    the digit run being read. *)
Fixpoint key_go (num : option Z) (s : gostring) : list Z :=
  match s with
  | [] => match num with Some v => [v] | None => [] end
  | c :: s' =>
      if is_digit c then
        match num with
        | Some v => key_go (Some (10 * v + digit_val c)) s'
        | None => 0 :: key_go (Some (digit_val c)) s'
        end
      else
        match num with
        | Some v => v :: verOrder c :: key_go None s'
        | None => verOrder c :: key_go None s'
        end
  end.
Definition version_key (s : gostring) : list Z := key_go None s.

(** dpkg reads C strings: no NUL byte. *)
Definition nul_free (s : gostring) : Prop := Forall (λ c, ord c ≠ 0) s.
#[export] Instance nul_free_dec s : Decision (nul_free s) := _.

Definition cmp_int (c : comparison) : Z := match c with Lt => -1 | Eq => 0 | Gt => 1 end.

(** ** The order on keys is a total preorder *)

Lemma lex0_nth l :
  match lex0 l with
  | Eq => ∀ i, nth i l 0 = 0
  | Lt => ∃ i, (∀ j, (j < i)%nat → nth j l 0 = 0) ∧ nth i l 0 < 0
  | Gt => ∃ i, (∀ j, (j < i)%nat → nth j l 0 = 0) ∧ 0 < nth i l 0
  end.
Proof.
  induction l as [|x l IH]; simpl; [by intros [|i]|].
  destruct (Z.compare_spec x 0) as [->|H|H].
  - destruct (lex0 l).
    + intros [|i]; [done|apply IH].
    + destruct IH as (i & Hj & Hi). exists (S i). split; [|done]. intros [|j] ?; [done|apply Hj; lia].
    + destruct IH as (i & Hj & Hi). exists (S i). split; [|done]. intros [|j] ?; [done|apply Hj; lia].
  - exists O. split; [intros; lia|done].
  - exists O. split; [intros; lia|done].
Qed.

(** What [lexz] says, position by position. *)
Definition lex_rel (l k : list Z) (c : comparison) : Prop :=
  match c with
  | Eq => ∀ i, nth i l 0 = nth i k 0
  | Lt => ∃ i, (∀ j, (j < i)%nat → nth j l 0 = nth j k 0) ∧ nth i l 0 < nth i k 0
  | Gt => ∃ i, (∀ j, (j < i)%nat → nth j l 0 = nth j k 0) ∧ nth i k 0 < nth i l 0
  end.

Lemma lexz_rel l k : lex_rel l k (lexz l k).
Proof.
  revert k. induction l as [|x l IH]; intros k.
  - simpl. pose proof (lex0_nth k) as H. unfold lex_rel.
    destruct (lex0 k); simpl.
    + intros i. rewrite H. by destruct i.
    + destruct H as (i & Hj & Hi). exists i. split; [intros j ?; rewrite Hj by done; by destruct j|by destruct i].
    + destruct H as (i & Hj & Hi). exists i. split; [intros j ?; rewrite Hj by done; by destruct j|by destruct i].
  - destruct k as [|y k].
    + pose proof (lex0_nth (x :: l)) as H. change (lexz (x :: l) []) with (lex0 (x :: l)).
      unfold lex_rel. destruct (lex0 (x :: l)).
      * intros i. rewrite H. by destruct i.
      * destruct H as (i & Hj & Hi). exists i. split; [intros j ?; rewrite Hj by done; by destruct j|by destruct i].
      * destruct H as (i & Hj & Hi). exists i. split; [intros j ?; rewrite Hj by done; by destruct j|by destruct i].
    + simpl. destruct (Z.compare_spec x y) as [->|H|H].
      * specialize (IH k). destruct (lexz l k); simpl in *.
        -- intros [|i]; [done|apply IH].
        -- destruct IH as (i & Hj & Hi). exists (S i). split; [|done]. intros [|j] ?; [done|apply Hj; lia].
        -- destruct IH as (i & Hj & Hi). exists (S i). split; [|done]. intros [|j] ?; [done|apply Hj; lia].
      * exists O. split; [intros; lia|done].
      * exists O. split; [intros; lia|done].
Qed.

Lemma lex_rel_fun l k c d : lex_rel l k c → lex_rel l k d → c = d.
Proof.
  assert (∀ i i' : nat, (i < i')%nat ∨ i = i' ∨ (i' < i)%nat) as Htri by lia.
  destruct c, d; simpl; try done.
  - intros H (i & _ & Hi). rewrite H in Hi. lia.
  - intros H (i & _ & Hi). rewrite H in Hi. lia.
  - intros (i & _ & Hi) H. rewrite H in Hi. lia.
  - intros (i & Hj & Hi) (i' & Hj' & Hi').
    destruct (Htri i i') as [?|[->|?]]; [rewrite Hj' in Hi by lia|..|rewrite Hj in Hi' by lia]; lia.
  - intros (i & _ & Hi) H. rewrite H in Hi. lia.
  - intros (i & Hj & Hi) (i' & Hj' & Hi').
    destruct (Htri i i') as [?|[->|?]]; [rewrite Hj' in Hi by lia|..|rewrite Hj in Hi' by lia]; lia.
Qed.

Lemma lexz_intro l k c : lex_rel l k c → lexz l k = c.
Proof. intros H. eapply lex_rel_fun; [apply lexz_rel|done]. Qed.

Lemma lexz_refl l : lexz l l = Eq.
Proof. by apply lexz_intro. Qed.

Lemma lexz_antisym l k : lexz k l = CompOpp (lexz l k).
Proof.
  apply lexz_intro. pose proof (lexz_rel l k) as H.
  destruct (lexz l k); simpl in *; [done|..];
    destruct H as (i & Hj & Hi); exists i; (split; [intros; symmetry; auto|done]).
Qed.

Lemma lexz_trans l k m : lexz l k ≠ Gt → lexz k m ≠ Gt → lexz l m ≠ Gt.
Proof.
  intros H1 H2 H3.
  pose proof (lexz_rel l k) as R1. pose proof (lexz_rel k m) as R2. pose proof (lexz_rel l m) as R3.
  rewrite H3 in R3. destruct R3 as (i & Hj & Hi). simpl in Hi.
  destruct (lexz l k), (lexz k m); try done; simpl in R1, R2.
  - rewrite R1, R2 in Hi. lia.
  - destruct R2 as (p & Hp & Hlt).
    destruct (Nat.lt_trichotomy i p) as [?|[->|?]].
    + rewrite <- Hp, R1 in Hi by done. lia.
    + rewrite R1 in Hi. lia.
    + specialize (Hj p ltac:(done)). rewrite R1 in Hj. lia.
  - destruct R1 as (p & Hp & Hlt).
    destruct (Nat.lt_trichotomy i p) as [?|[->|?]].
    + rewrite Hp, R2 in Hi by done. lia.
    + rewrite R2 in Hlt. lia.
    + specialize (Hj p ltac:(done)). rewrite R2 in Hlt. lia.
  - destruct R1 as (p & Hp & Hlt). destruct R2 as (q & Hq & Hlt2).
    destruct (Nat.lt_trichotomy p q) as [?|[->|?]].
    + rewrite Hq in Hlt by done.
      destruct (Nat.lt_trichotomy i p) as [?|[->|?]].
      * rewrite Hp, Hq in Hi by lia. lia.
      * lia.
      * specialize (Hj p ltac:(done)). lia.
    + destruct (Nat.lt_trichotomy i q) as [?|[->|?]].
      * rewrite Hp, Hq in Hi by lia. lia.
      * lia.
      * specialize (Hj q ltac:(done)). lia.
    + destruct (Nat.lt_trichotomy i q) as [?|[->|?]].
      * rewrite Hp, Hq in Hi by lia. lia.
      * rewrite Hp in Hi by lia. lia.
      * specialize (Hj q ltac:(done)). rewrite Hp in Hj by lia. lia.
Qed.

Lemma lexz_ext l l' k k' :
  (∀ i, nth i l 0 = nth i l' 0) → (∀ i, nth i k 0 = nth i k' 0) → lexz l k = lexz l' k'.
Proof.
  intros Hl Hk. apply lexz_intro. pose proof (lexz_rel l' k') as H. unfold lex_rel in *.
  destruct (lexz l' k').
  - intros i. by rewrite Hl, Hk.
  - destruct H as (i & Hj & Hi). exists i. rewrite Hl, Hk. split; [|done].
    intros j ?. rewrite Hl, Hk. auto.
  - destruct H as (i & Hj & Hi). exists i. rewrite Hl, Hk. split; [|done].
    intros j ?. rewrite Hl, Hk. auto.
Qed.

Lemma lexz_heads l k : nth 0 l 0 ≠ nth 0 k 0 → lexz l k = (nth 0 l 0 ?= nth 0 k 0).
Proof.
  intros H. apply lexz_intro. unfold lex_rel.
  destruct (Z.compare_spec (nth 0 l 0) (nth 0 k 0)); [done|..];
    exists O; (split; [intros; lia|lia]).
Qed.

(** ** Characters *)

Lemma verOrder_digit c : is_digit c = true → verOrder c = 0.
Proof.
  intros H. unfold verOrder. rewrite H. unfold beq. case_bool_decide; [by subst|].
  by destruct (ord c =? 0).
Qed.

Lemma verOrder_nondigit c : ord c ≠ 0 → is_digit c = false → verOrder c ≠ 0.
Proof.
  intros H0 H. unfold verOrder. rewrite H. pose proof (ord_range c).
  unfold beq. case_bool_decide; [done|].
  replace (ord c =? 0) with false by (symmetry; by apply Z.eqb_neq).
  destruct (_ || _); lia.
Qed.

Lemma digit_val_range c : is_digit c = true → 0 ≤ digit_val c ≤ 9.
Proof. intros H. unfold digit_val. byte_cases. bsplit. lia. Qed.

Lemma digit_val_zero c : is_digit c = true → digit_val c = 0 → c = "0"%char.
Proof.
  intros _ H. apply ord_inj. change (ord "0") with 48. unfold digit_val in H. lia.
Qed.

Lemma key_head s : nul_free s → nth 0 (version_key s) 0 = head_order s.
Proof.
  destruct s as [|c s]; [done|]. intros [Hc Hs]%Forall_cons. unfold version_key. simpl.
  destruct (is_digit c) eqn:E; [|done]. by rewrite verOrder_digit.
Qed.

(** ** The first inner loop *)

Lemma nondigit_loop_spec fuel a b :
  nul_free a → nul_free b → (length a ≤ fuel)%nat → (length b ≤ fuel)%nat →
  ∃ r, nondigit_loop fuel a b = Some r ∧
    match r with
    | inl d => (d ?= 0) = lexz (version_key a) (version_key b) ∧ d ≠ 0
    | inr (a1, b1) =>
        lexz (version_key a) (version_key b) = lexz (version_key a1) (version_key b1) ∧
        at_nondigit a1 = false ∧ at_nondigit b1 = false ∧ nul_free a1 ∧ nul_free b1 ∧
        (length a1 ≤ length a)%nat ∧ (length b1 ≤ length b)%nat
    end.
Proof.
  revert a b. induction fuel as [|fuel IH]; intros a b Ha Hb La Lb.
  { destruct a; [|simpl in La; lia]. destruct b; [|simpl in Lb; lia].
    exists (inr ([], [])). done. }
  cbn [nondigit_loop]. destruct (at_nondigit a || at_nondigit b) eqn:Hnd.
  2:{ exists (inr (a, b)). bsplit. done. }
  destruct (head_order a =? head_order b) eqn:Hord; simpl; bsplit.
  - assert (∃ x a' y b', a = x :: a' ∧ b = y :: b' ∧ is_digit x = false ∧ is_digit y = false)
      as (x & a' & y & b' & -> & -> & Hx & Hy).
    { unfold at_nondigit, head_order, isDigitByte in *. unfold nul_free in *.
      destruct a as [|x a'], b as [|y b']; simpl in *; try done.
      - apply negb_true_iff in Hnd. apply Forall_cons in Hb as [Hy _].
        pose proof (verOrder_nondigit y Hy Hnd). lia.
      - rewrite orb_false_r in Hnd. apply negb_true_iff in Hnd. apply Forall_cons in Ha as [Hx _].
        pose proof (verOrder_nondigit x Hx Hnd). lia.
      - apply Forall_cons in Ha as [Hx _]. apply Forall_cons in Hb as [Hy _].
        destruct (is_digit x) eqn:Ex, (is_digit y) eqn:Ey; try done.
        + pose proof (verOrder_nondigit y Hy Ey). rewrite (verOrder_digit x) in Hord by done. lia.
        + pose proof (verOrder_nondigit x Hx Ex). rewrite (verOrder_digit y) in Hord by done. lia.
        + eauto 10. }
    apply Forall_cons in Ha as [_ Ha]. apply Forall_cons in Hb as [_ Hb]. simpl in *.
    destruct (IH a' b' Ha Hb) as (r & Hr & Hspec); [lia..|].
    exists r. split; [exact Hr|].
    assert (lexz (version_key (x :: a')) (version_key (y :: b')) =
            lexz (version_key a') (version_key b')) as ->.
    { unfold version_key. cbn [key_go]. rewrite Hx, Hy, Hord. cbn [lexz]. by rewrite Z.compare_refl. }
    destruct r as [d|[a1 b1]]; [done|].
    destruct Hspec as (? & ? & ? & ? & ? & ? & ?). split_and!; try done; lia.
  - exists (inl (head_order a - head_order b)). split; [done|]. split; [|lia].
    rewrite lexz_heads by (by rewrite !key_head).
    rewrite !key_head by done.
    destruct (Z.compare_spec (head_order a) (head_order b)); [lia|apply Z.compare_lt_iff; lia|apply Z.compare_gt_iff; lia].
Qed.

(** ** The digit loops *)

Definition digits (ds : gostring) : Prop := Forall (λ c, is_digit c = true) ds.

Lemma span_digits_app s :
  ∃ ds r, s = ds ++ r ∧ digits ds ∧ at_digit r = false.
Proof.
  induction s as [|c s (ds & r & -> & Hd & Hr)]; [exists [], []; by repeat constructor|].
  destruct (is_digit c) eqn:E.
  - exists (c :: ds), r. split_and!; [done|by constructor|done].
  - exists [], (c :: ds ++ r). split_and!; [done|constructor|done].
Qed.

Lemma key_go_digits v ds r :
  digits ds → at_digit r = false → key_go (Some v) (ds ++ r) = dec_from v ds :: version_key r.
Proof.
  intros Hd Hr. revert v. induction Hd as [|c ds Hc Hd IH]; intros v; simpl.
  - destruct r as [|c r]; [done|]. unfold version_key. simpl in *. unfold isDigitByte in Hr. by rewrite Hr.
  - rewrite Hc. by rewrite IH.
Qed.

(** Where no non-digit is pending, the key goes on with the value of the digits. *)
Lemma key_at_digit s i :
  at_nondigit s = false → nth i (version_key s) 0 = nth i (0 :: key_go (Some 0) s) 0.
Proof.
  unfold version_key. destruct s as [|c s]; simpl; [by destruct i as [|[|[|i]]]|].
  unfold isDigitByte. intros H%negb_false_iff. by rewrite H.
Qed.

Lemma skip_zeros_spec ds r :
  digits ds → at_digit r = false →
  ∃ ds', skip_zeros (ds ++ r) = ds' ++ r ∧ digits ds' ∧ dec_from 0 ds' = dec_from 0 ds ∧
    match ds' with [] => True | c :: _ => digit_val c ≠ 0 end.
Proof.
  intros Hd Hr. induction Hd as [|c ds Hc Hd IH]; simpl.
  - exists []. split_and!; [|constructor|done..]. destruct r as [|c r]; [done|]. simpl in *.
    unfold beq. case_bool_decide; [by subst|done].
  - unfold beq. case_bool_decide as E.
    + subst c. destruct IH as (ds' & H1 & H2 & H3 & H4). exists ds'. by split_and!.
    + exists (c :: ds). split_and!; [done|by constructor|done|].
      intros H. by apply digit_val_zero in H.
Qed.

Lemma dec_from_lower v ds : digits ds → 0 ≤ v → v * 10 ^ Z.of_nat (length ds) ≤ dec_from v ds.
Proof.
  intros Hd. revert v. induction Hd as [|c ds Hc Hd IH]; intros v Hv.
  - simpl. lia.
  - pose proof (digit_val_range c Hc).
    change (dec_from v (c :: ds)) with (dec_from (10 * v + digit_val c) ds).
    specialize (IH (10 * v + digit_val c) ltac:(lia)).
    simpl length. rewrite Nat2Z.inj_succ, Z.pow_succ_r by lia. nia.
Qed.

Lemma dec_from_upper v ds : digits ds → 0 ≤ v → dec_from v ds < (v + 1) * 10 ^ Z.of_nat (length ds).
Proof.
  intros Hd. revert v. induction Hd as [|c ds Hc Hd IH]; intros v Hv.
  - simpl. lia.
  - pose proof (digit_val_range c Hc).
    change (dec_from v (c :: ds)) with (dec_from (10 * v + digit_val c) ds).
    specialize (IH (10 * v + digit_val c) ltac:(lia)).
    simpl length. rewrite Nat2Z.inj_succ, Z.pow_succ_r by lia.
    pose proof (Z.pow_pos_nonneg 10 (Z.of_nat (length ds)) ltac:(lia) ltac:(lia)). nia.
Qed.

(** More digits without a leading zero is a bigger number. *)
Lemma dec_longer ds es :
  digits ds → digits es → (length es < length ds)%nat →
  match ds with [] => True | c :: _ => digit_val c ≠ 0 end →
  dec_from 0 es < dec_from 0 ds.
Proof.
  intros Hd He Hlen Hne. destruct ds as [|c ds]; [simpl in Hlen; lia|].
  apply Forall_cons in Hd as [Hc Hd]. pose proof (digit_val_range c Hc).
  change (dec_from 0 (c :: ds)) with (dec_from (10 * 0 + digit_val c) ds).
  pose proof (dec_from_lower (10 * 0 + digit_val c) ds Hd ltac:(lia)).
  pose proof (dec_from_upper 0 es He ltac:(lia)).
  assert (10 ^ Z.of_nat (length es) ≤ 10 ^ Z.of_nat (length ds)).
  { apply Z.pow_le_mono_r; [lia|]. simpl in Hlen. lia. }
  pose proof (Z.pow_pos_nonneg 10 (Z.of_nat (length ds)) ltac:(lia) ltac:(lia)). nia.
Qed.

Lemma digit_loop_spec ds es ra rb fd va vb :
  digits ds → digits es → at_digit ra = false → at_digit rb = false →
  (fd ?= 0) = (va ?= vb) →
  match digit_loop fd (ds ++ ra) (es ++ rb) with
  | (fd', a2, b2) =>
      match (length ds ?= length es)%nat with
      | Eq => a2 = ra ∧ b2 = rb ∧ (fd' ?= 0) = (dec_from va ds ?= dec_from vb es)
      | Gt => at_digit a2 = true
      | Lt => at_digit a2 = false ∧ at_digit b2 = true
      end
  end.
Proof.
  intros Hd He Hra Hrb. revert es He fd va vb.
  induction Hd as [|c ds Hc Hd IH]; intros es He fd va vb Hfd; destruct He as [|e es He Hes].
  - destruct ra as [|x ra], rb as [|y rb]; simpl in *; try done. by rewrite Hra.
  - destruct ra as [|x ra]; simpl in *; [done|]. by rewrite Hra.
  - destruct rb as [|y rb]; simpl in *; [done|]. unfold isDigitByte in *. by rewrite Hrb, andb_false_r.
  - simpl. unfold isDigitByte. rewrite Hc, He. simpl.
    apply (IH es Hes). pose proof (digit_val_range c Hc). pose proof (digit_val_range e He).
    assert (ord c - ord e = digit_val c - digit_val e) as -> by (unfold digit_val; lia).
    destruct (Z.eqb_spec fd 0) as [->|Hne].
    + rewrite Z.compare_refl in Hfd. symmetry in Hfd. apply Z.compare_eq_iff in Hfd as ->.
      destruct (Z.compare_spec (digit_val c - digit_val e) 0);
        symmetry; [apply Z.compare_eq_iff|apply Z.compare_lt_iff|apply Z.compare_gt_iff]; lia.
    + rewrite Hfd. destruct (Z.compare_spec va vb); [by apply Z.compare_eq_iff in Hfd|..];
        symmetry; [apply Z.compare_lt_iff|apply Z.compare_gt_iff]; lia.
Qed.

(** One round of the outer loop from a digit position. *)
Lemma digit_round a b :
  at_nondigit a = false → at_nondigit b = false → nul_free a → nul_free b →
  match digit_loop 0 (skip_zeros a) (skip_zeros b) with
  | (fd, a2, b2) =>
      if at_digit a2 then lexz (version_key a) (version_key b) = Gt
      else if at_digit b2 then lexz (version_key a) (version_key b) = Lt
      else
        nul_free a2 ∧ nul_free b2 ∧
        lexz (version_key a) (version_key b) =
          (match fd ?= 0 with Eq => lexz (version_key a2) (version_key b2) | c => c end) ∧
        (length a2 ≤ length a)%nat ∧ (length b2 ≤ length b)%nat ∧
        (a ≠ [] → (length a2 < length a)%nat) ∧ (b ≠ [] → (length b2 < length b)%nat)
  end.
Proof.
  intros Ha Hb Na Nb.
  rewrite (lexz_ext _ (0 :: key_go (Some 0) a) _ (0 :: key_go (Some 0) b))
    by (intros; by apply key_at_digit).
  cbn [lexz]. rewrite Z.compare_refl.
  destruct (span_digits_app a) as (ds & ra & -> & Hd & Hra).
  destruct (span_digits_app b) as (es & rb & -> & He & Hrb).
  destruct (skip_zeros_spec ds ra Hd Hra) as (ds' & -> & Hd' & Ed & Ld).
  destruct (skip_zeros_spec es rb He Hrb) as (es' & -> & He' & Ee & Le).
  rewrite !key_go_digits by done. rewrite <- Ed, <- Ee. cbn [lexz].
  pose proof (digit_loop_spec ds' es' ra rb 0 0 0 Hd' He' Hra Hrb eq_refl) as H.
  destruct (digit_loop 0 (ds' ++ ra) (es' ++ rb)) as [[fd a2] b2].
  destruct (Nat.compare_spec (length ds') (length es')) as [El|El|El].
  - destruct H as (-> & -> & Hfd). rewrite Hra, Hrb, Hfd.
    apply Forall_app in Na as [_ Na]. apply Forall_app in Nb as [_ Nb].
    rewrite !length_app. split_and!; try done; try lia.
    + intros Hne. destruct ds as [|c ds]; [|simpl; lia]. simpl in *.
      destruct ra as [|c ra]; [done|]. simpl in *. unfold isDigitByte in *. by rewrite Hra in Ha.
    + intros Hne. destruct es as [|c es]; [|simpl; lia]. simpl in *.
      destruct rb as [|c rb]; [done|]. simpl in *. unfold isDigitByte in *. by rewrite Hrb in Hb.
  - destruct H as [-> ->]. pose proof (dec_longer es' ds' He' Hd' El Le) as Hlt.
    apply Z.compare_lt_iff in Hlt. by rewrite Hlt.
  - rewrite H. pose proof (dec_longer ds' es' Hd' He' El Ld) as Hlt.
    by rewrite (proj2 (Z.compare_gt_iff (dec_from 0 ds') (dec_from 0 es'))) by lia.
Qed.

Lemma verrevcmp_loop_spec fuel a b :
  nul_free a → nul_free b → (length a + length b ≤ fuel)%nat →
  ∃ z, verrevcmp_loop fuel a b = Some z ∧ (z ?= 0) = lexz (version_key a) (version_key b).
Proof.
  revert a b. induction fuel as [|fuel IH]; intros a b Na Nb Hlen.
  { destruct a; [|simpl in Hlen; lia]. destruct b; [|simpl in Hlen; lia]. by exists 0. }
  destruct (decide (a = [] ∧ b = [])) as [[-> ->]|Hne]; [by exists 0|].
  assert (verrevcmp_loop (S fuel) a b =
    match nondigit_loop (length a + length b) a b with
    | None => None
    | Some (inl d) => Some d
    | Some (inr (a1, b1)) =>
        let '(firstDiff, a2, b2) := digit_loop 0 (skip_zeros a1) (skip_zeros b1) in
        if at_digit a2 then Some 1
        else if at_digit b2 then Some (-1)
        else if negb (firstDiff =? 0) then Some firstDiff
        else verrevcmp_loop fuel a2 b2
    end) as ->.
  { destruct a, b; try done. exfalso. by apply Hne. }
  destruct (nondigit_loop_spec (length a + length b) a b) as (r & -> & Hr); [done|done|lia|lia|].
  destruct r as [d|[a1 b1]]; [exists d; tauto|].
  destruct Hr as (-> & Ha1 & Hb1 & Na1 & Nb1 & La & Lb).
  pose proof (digit_round a1 b1 Ha1 Hb1 Na1 Nb1) as H.
  destruct (digit_loop 0 (skip_zeros a1) (skip_zeros b1)) as [[fd a2] b2].
  destruct (at_digit a2); [exists 1; by rewrite H|].
  destruct (at_digit b2); [exists (-1); by rewrite H|].
  destruct H as (Na2 & Nb2 & -> & La2 & Lb2 & Sa & Sb).
  destruct (Z.eqb_spec fd 0) as [->|Hfd]; cbn [negb].
  - rewrite Z.compare_refl. apply IH; [done..|].
    destruct (decide (a1 = [])) as [->|?], (decide (b1 = [])) as [->|?].
    + simpl in *. assert (length a ≠ 0 ∨ length b ≠ 0)%nat.
      { destruct a, b; simpl; try lia. exfalso. by apply Hne. }
      lia.
    + specialize (Sb ltac:(done)). lia.
    + specialize (Sa ltac:(done)). lia.
    + specialize (Sa ltac:(done)). lia.
  - exists fd. split; [done|]. destruct (Z.compare_spec fd 0); done.
Qed.

(** ** Termination on every input, NUL bytes included *)

Lemma nondigit_loop_total fuel a b :
  (length a ≤ fuel)%nat → (length b ≤ fuel)%nat →
  ∃ r, nondigit_loop fuel a b = Some r ∧
    match r with
    | inl _ => True
    | inr (a1, b1) => at_nondigit a1 = false ∧ at_nondigit b1 = false ∧
        (length a1 ≤ length a)%nat ∧ (length b1 ≤ length b)%nat
    end.
Proof.
  revert a b. induction fuel as [|fuel IH]; intros a b La Lb.
  { destruct a; [|simpl in La; lia]. destruct b; [|simpl in Lb; lia]. exists (inr ([], [])). done. }
  cbn [nondigit_loop]. destruct (at_nondigit a || at_nondigit b) eqn:Hnd.
  2:{ exists (inr (a, b)). bsplit. done. }
  destruct (negb _); [by eexists (inl _)|].
  destruct (IH (tail a) (tail b)) as (r & Hr & Hspec).
  { destruct a; simpl in *; lia. }
  { destruct b; simpl in *; lia. }
  exists r. split; [done|]. destruct r as [|[a1 b1]]; [done|].
  destruct Hspec as (? & ? & ? & ?). destruct a, b; simpl in *; split_and!; try done; lia.
Qed.

Lemma skip_zeros_length s : (length (skip_zeros s) ≤ length s)%nat.
Proof. induction s as [|a s IH]; simpl; [done|]. destruct (beq a "0"); simpl; lia. Qed.

Lemma digit_loop_length fd a b fd' a2 b2 :
  digit_loop fd a b = (fd', a2, b2) →
  (length a2 ≤ length a)%nat ∧ (length b2 ≤ length b)%nat ∧
  (at_digit a = true → at_digit a2 = false → at_digit b2 = false → (length a2 < length a)%nat) ∧
  (at_digit b = true → at_digit a2 = false → at_digit b2 = false → (length b2 < length b)%nat).
Proof.
  revert b fd. induction a as [|x a IH]; intros [|y b] fd; simpl.
  1-3: intros [= <- <- <-]; simpl; split_and!; try lia; congruence.
  destruct (isDigitByte x) eqn:Ex, (isDigitByte y) eqn:Ey; simpl.
  - intros H. apply IH in H as (? & ? & _). split_and!; intros; simpl; lia.
  - intros [= <- <- <-]. simpl. split_and!; try lia; congruence.
  - intros [= <- <- <-]. simpl. split_and!; try lia; congruence.
  - intros [= <- <- <-]. simpl. split_and!; try lia; congruence.
Qed.

Lemma skip_zeros_progress s :
  at_digit s = true → (length (skip_zeros s) < length s)%nat ∨ (skip_zeros s = s).
Proof.
  destruct s as [|a s]; [done|]. intros _. simpl. destruct (beq a "0"); [left|by right].
  pose proof (skip_zeros_length s). lia.
Qed.

Lemma verrevcmp_total_aux fuel a b :
  (length a + length b ≤ fuel)%nat → ∃ z, verrevcmp_loop fuel a b = Some z.
Proof.
  revert a b. induction fuel as [|fuel IH]; intros a b Hlen.
  { destruct a; [|simpl in Hlen; lia]. destruct b; [|simpl in Hlen; lia]. by exists 0. }
  destruct (nondigit_loop_total (length a + length b) a b) as (r & Hr & Hspec); [lia..|].
  assert (verrevcmp_loop (S fuel) a b =
    match a, b with
    | [], [] => Some 0
    | _, _ =>
      match r with
      | inl d => Some d
      | inr (a1, b1) =>
          let '(firstDiff, a2, b2) := digit_loop 0 (skip_zeros a1) (skip_zeros b1) in
          if at_digit a2 then Some 1
          else if at_digit b2 then Some (-1)
          else if negb (firstDiff =? 0) then Some firstDiff
          else verrevcmp_loop fuel a2 b2
      end
    end) as ->.
  { destruct a, b; simpl in *; rewrite ?Hr; done. }
  destruct (decide (a = [] ∧ b = [])) as [[-> ->]|Hne]; [by eexists|].
  enough (∃ z, match r with
      | inl d => Some d
      | inr (a1, b1) =>
          let '(firstDiff, a2, b2) := digit_loop 0 (skip_zeros a1) (skip_zeros b1) in
          if at_digit a2 then Some 1
          else if at_digit b2 then Some (-1)
          else if negb (firstDiff =? 0) then Some firstDiff
          else verrevcmp_loop fuel a2 b2
      end = Some z) by (destruct a, b; [exfalso; by apply Hne|done..]).
  destruct r as [d|[a1 b1]]; [by exists d|].
  destruct Hspec as (Ha1 & Hb1 & La & Lb).
  destruct (digit_loop 0 (skip_zeros a1) (skip_zeros b1)) as [[fd a2] b2] eqn:Hd.
  apply digit_loop_length in Hd as (L1 & L2 & S1 & S2).
  destruct (at_digit a2) eqn:Ea; [by eexists|]. destruct (at_digit b2) eqn:Eb; [by eexists|].
  destruct (negb (fd =? 0)); [by eexists|]. apply IH.
  pose proof (skip_zeros_length a1). pose proof (skip_zeros_length b1).
  assert (at_digit a1 = true → (length a2 < length a1)%nat) as Da.
  { intros H'. destruct (skip_zeros_progress a1 H') as [?|E]; [lia|]. rewrite E in S1. auto. }
  assert (at_digit b1 = true → (length b2 < length b1)%nat) as Db.
  { intros H'. destruct (skip_zeros_progress b1 H') as [?|E]; [lia|]. rewrite E in S2. auto. }
  destruct a1 as [|x a1].
  - destruct b1 as [|y b1].
    + simpl in *. destruct a, b; simpl in *; try lia.
    + simpl in Hb1. apply negb_false_iff in Hb1. specialize (Db Hb1). lia.
  - simpl in Ha1. apply negb_false_iff in Ha1. specialize (Da Ha1). lia.
Qed.

Lemma verrevcmp_key a b :
  nul_free a → nul_free b → (verrevcmp a b ?= 0) = lexz (version_key a) (version_key b).
Proof.
  intros Na Nb. unfold verrevcmp.
  destruct (verrevcmp_loop_spec (length a + length b) a b Na Nb) as (z & -> & H); [lia|done].
Qed.

(** ** Theorems *)

(** (C40) [verrevcmp] implements the policy order: on strings without a NUL byte
    the sign of its result is the comparison of the two keys, characters of
    non-digit runs by [verOrder], digit runs by value; and its loops end on
    every pair of strings whatever bytes they hold. *)
Theorem verrevcmp_policy (a b : gostring) :
  (∃ z, verrevcmp_loop (length a + length b) a b = Some z ∧ verrevcmp a b = z) ∧
  (nul_free a → nul_free b →
   sign (verrevcmp a b) = cmp_int (lexz (version_key a) (version_key b))).
Proof.
  split.
  - destruct (verrevcmp_total_aux (length a + length b) a b) as (z & Hz); [done|].
    exists z. split; [done|]. unfold verrevcmp. by rewrite Hz.
  - intros Na Nb. rewrite <- verrevcmp_key by done. unfold sign.
    destruct (Z.compare_spec (verrevcmp a b) 0) as [->|H|H]; [done|..].
    + apply Z.ltb_lt in H. by rewrite H.
    + replace (verrevcmp a b <? 0) with false by (symmetry; apply Z.ltb_ge; lia).
      apply Z.ltb_lt in H. by rewrite H.
Qed.

(** The key of a whole version: epoch, upstream version, revision. *)
Definition full_key (v : gostring) : list Z * list Z * list Z :=
  let '(e, r) := splitEpoch v in
  let '(u, d) := splitRevision r in
  (version_key e, version_key u, version_key d).
Definition full_cmp (v w : gostring) : comparison :=
  let '(e1, u1, d1) := full_key v in
  let '(e2, u2, d2) := full_key w in
  match lexz e1 e2 with
  | Eq => match lexz u1 u2 with Eq => lexz d1 d2 | c => c end
  | c => c
  end.

Lemma sign_compare n c : (n ?= 0) = c → sign n = cmp_int c.
Proof.
  intros <-. unfold sign. destruct (Z.compare_spec n 0) as [->|H|H]; [done|..].
  - apply Z.ltb_lt in H. by rewrite H.
  - replace (n <? 0) with false by (symmetry; apply Z.ltb_ge; lia). apply Z.ltb_lt in H. by rewrite H.
Qed.

Lemma eqb_compare n : (n =? 0) = match n ?= 0 with Eq => true | _ => false end.
Proof. destruct (Z.eqb_spec n 0) as [->|H]; [done|]. by destruct (Z.compare_spec n 0). Qed.

Lemma splitEpoch_nul_free v : nul_free v → nul_free (splitEpoch v).1 ∧ nul_free (splitEpoch v).2.
Proof.
  intros H. unfold splitEpoch. destruct (cut ":" v) as [[e r]|] eqn:E; simpl.
  - apply cut_Some in E as [-> _]. apply Forall_app in H as [? [_ ?]%Forall_cons]. done.
  - split; [|done]. repeat constructor; by vm_compute.
Qed.

Lemma nul_free_rev s : nul_free s → nul_free (rev s).
Proof. unfold nul_free. rewrite !Forall_forall. setoid_rewrite elem_of_rev. auto. Qed.

Lemma splitRevision_nul_free v : nul_free v → nul_free (splitRevision v).1 ∧ nul_free (splitRevision v).2.
Proof.
  intros H. unfold splitRevision. destruct (cut "-" (rev v)) as [[r u]|] eqn:E; simpl.
  - apply cut_Some in E as [E _]. apply nul_free_rev in H. rewrite E in H.
    apply Forall_app in H as [? [_ ?]%Forall_cons]. by split; apply nul_free_rev.
  - split; [done|]. repeat constructor; by vm_compute.
Qed.

Lemma fallback_full_cmp a b :
  nul_free a → nul_free b → compareVersionsFallback a b = cmp_int (full_cmp a b).
Proof.
  intros Na Nb. unfold compareVersionsFallback, full_cmp, full_key.
  pose proof (splitEpoch_nul_free a Na) as [Ea Ra]. pose proof (splitEpoch_nul_free b Nb) as [Eb Rb].
  destruct (splitEpoch a) as [ea ra], (splitEpoch b) as [eb rb]. simpl in *.
  pose proof (splitRevision_nul_free ra Ra) as [Ua Da]. pose proof (splitRevision_nul_free rb Rb) as [Ub Db].
  destruct (splitRevision ra) as [ua da], (splitRevision rb) as [ub db]. simpl in *.
  rewrite !eqb_compare, !verrevcmp_key by done.
  destruct (lexz (version_key ea) (version_key eb)) eqn:E1; simpl;
    [|by rewrite (sign_compare _ _ (verrevcmp_key _ _ Ea Eb)), E1..].
  destruct (lexz (version_key ua) (version_key ub)) eqn:E2; simpl;
    [|by rewrite (sign_compare _ _ (verrevcmp_key _ _ Ua Ub)), E2..].
  by rewrite (sign_compare _ _ (verrevcmp_key _ _ Da Db)).
Qed.

Lemma lexz_eq_l l k m : lexz l k = Eq → lexz l m = lexz k m.
Proof.
  intros H. pose proof (lexz_rel l k) as R. rewrite H in R. by apply lexz_ext.
Qed.
Lemma lexz_eq_r l k m : lexz k m = Eq → lexz l k = lexz l m.
Proof.
  intros H. pose proof (lexz_rel k m) as R. rewrite H in R. by apply lexz_ext.
Qed.

Lemma lexz_lt_le l k m : lexz l k = Lt → lexz k m ≠ Gt → lexz l m = Lt.
Proof.
  intros H1 H2. destruct (lexz k m) eqn:E; [|clear H2|done].
  - rewrite <- H1. symmetry. by apply lexz_eq_r.
  - assert (lexz l m ≠ Gt) as H3 by (apply (lexz_trans l k m); congruence).
    destruct (lexz l m) eqn:E3; [|done|done].
    rewrite (lexz_eq_l _ _ k E3) in H1. rewrite lexz_antisym, E in H1. done.
Qed.

Lemma full_cmp_trans a b c : full_cmp a b ≠ Gt → full_cmp b c ≠ Gt → full_cmp a c ≠ Gt.
Proof.
  unfold full_cmp. destruct (full_key a) as [[e1 u1] d1], (full_key b) as [[e2 u2] d2],
    (full_key c) as [[e3 u3] d3].
  assert (∀ l k m : list Z, ∀ x y z : comparison,
    (x ≠ Gt → y ≠ Gt → z ≠ Gt) →
    match lexz l k with Eq => x | c => c end ≠ Gt →
    match lexz k m with Eq => y | c => c end ≠ Gt →
    match lexz l m with Eq => z | c => c end ≠ Gt) as Hstep.
  { intros l k m x y z Hxyz H1 H2. destruct (lexz l k) eqn:E1; [| |done].
    - rewrite (lexz_eq_l _ _ m E1). destruct (lexz k m); auto.
    - rewrite (lexz_lt_le l k m E1); [done|]. by destruct (lexz k m). }
  apply Hstep. apply Hstep. apply lexz_trans.
Qed.

Lemma full_cmp_antisym a b : full_cmp b a = CompOpp (full_cmp a b).
Proof.
  unfold full_cmp. destruct (full_key a) as [[e1 u1] d1], (full_key b) as [[e2 u2] d2].
  rewrite (lexz_antisym e1 e2), (lexz_antisym u1 u2), (lexz_antisym d1 d2).
  destruct (lexz e1 e2); simpl; try done. by destruct (lexz u1 u2).
Qed.

Lemma full_cmp_refl a : full_cmp a a = Eq.
Proof. unfold full_cmp. destruct (full_key a) as [[? ?] ?]. by rewrite !lexz_refl. Qed.

Lemma fallback_preorder a b c :
  nul_free a → nul_free b → nul_free c →
  compareVersionsFallback a a = 0 ∧
  compareVersionsFallback b a = - compareVersionsFallback a b ∧
  (compareVersionsFallback a b ≤ 0 → compareVersionsFallback b c ≤ 0 →
   compareVersionsFallback a c ≤ 0).
Proof.
  intros Na Nb Nc. rewrite !fallback_full_cmp by done. split_and!.
  - by rewrite full_cmp_refl.
  - rewrite (full_cmp_antisym a b). by destruct (full_cmp a b).
  - pose proof (full_cmp_trans a b c) as H.
    destruct (full_cmp a b), (full_cmp b c), (full_cmp a c); simpl; try lia;
      exfalso; by apply H.
Qed.

(** [CompareVersions] is a total preorder on versions without NUL bytes:
    it returns -1, 0 or 1, 0 against itself, the opposite with its arguments
    swapped, and it is transitive even across versions the library parses and
    versions that fall back, given that the library implements the same policy
    order on what it parses. *)
Theorem CompareVersions_preorder {version : Type} (parse : gostring → option version)
    (vcompare : version → version → Z) (a b c : gostring)
    (library_policy : ∀ x y vx vy, parse x = Some vx → parse y = Some vy →
       sign (vcompare vx vy) = compareVersionsFallback x y)
    (Ha : nul_free a) (Hb : nul_free b) (Hc : nul_free c) :
  CompareVersions parse vcompare a b ∈ [-1; 0; 1] ∧
  EqualVersions parse vcompare a a = true ∧
  CompareVersions parse vcompare b a = - CompareVersions parse vcompare a b ∧
  (CompareVersions parse vcompare a b ≤ 0 → CompareVersions parse vcompare b c ≤ 0 →
   CompareVersions parse vcompare a c ≤ 0).
Proof.
  assert (∀ x y, CompareVersions parse vcompare x y = compareVersionsFallback x y) as E.
  { intros x y. unfold CompareVersions.
    destruct (parse x) eqn:Ex, (parse y) eqn:Ey; eauto. }
  unfold EqualVersions. rewrite !E.
  destruct (fallback_preorder a b c Ha Hb Hc) as (H1 & H2 & H3).
  split_and!; [|by rewrite H1|done|done].
  rewrite fallback_full_cmp by done. destruct (full_cmp a b); set_solver.
Qed.

Lemma CompareVersions_preorder_witness :
  nul_free "1:2.0~rc1-1" ∧
  CompareVersions (λ s, if beq (default "0"%char (head s)) "1" then Some s else None)
    compareVersionsFallback "1:2.0~rc1-1" "1:2.0-1" ∈ [-1; 0; 1].
Proof.
  split; [repeat constructor; by vm_compute|].
  apply (CompareVersions_preorder
    (λ s, if beq (default "0"%char (head s)) "1" then Some s else None)
    compareVersionsFallback "1:2.0~rc1-1" "1:2.0-1" "1.0").
  - intros x y vx vy Hx Hy.
    assert (vx = x) as -> by (destruct (beq _ _) in Hx; congruence).
    assert (vy = y) as -> by (destruct (beq _ _) in Hy; congruence).
    unfold compareVersionsFallback. destruct (splitEpoch x), (splitEpoch y).
    assert (∀ n, sign (sign n) = sign n) as Hs.
    { intros n. unfold sign. destruct (n <? 0) eqn:?; [done|]. by destruct (0 <? n) eqn:?. }
    destruct (negb _); [apply Hs|]. destruct (splitRevision _), (splitRevision _).
    destruct (negb _); apply Hs.
  - repeat constructor; by vm_compute.
  - repeat constructor; by vm_compute.
  - repeat constructor; by vm_compute.
Defined.

Lemma tilde_key num s t : lexz (key_go num (s ++ "~"%char :: t)) (key_go num s) = Lt.
Proof.
  revert num. induction s as [|c s IH]; intros num; simpl.
  - destruct num as [v|]; simpl; [by rewrite Z.compare_refl|done].
  - destruct (is_digit c), num as [v|]; cbn [lexz]; rewrite ?Z.compare_refl; apply IH.
Qed.

(** A tilde sorts before the end of the string: a pre-release suffix
    [~...] makes any version part smaller than the part itself. *)
Theorem tilde_sorts_first (s t : gostring) (Hs : nul_free s) (Ht : nul_free t) :
  verrevcmp (s ++ "~"%char :: t) s < 0 ∧ 0 < verrevcmp s (s ++ "~"%char :: t).
Proof.
  assert (nul_free (s ++ "~"%char :: t)) as H.
  { apply Forall_app. split; [done|]. constructor; [by vm_compute|done]. }
  pose proof (verrevcmp_key _ _ H Hs) as E1. pose proof (verrevcmp_key _ _ Hs H) as E2.
  unfold version_key in E1, E2. rewrite (lexz_antisym (key_go None (s ++ "~"%char :: t))) in E2.
  rewrite tilde_key in E1, E2. simpl in E2. split.
  - by apply Z.compare_lt_iff.
  - by apply Z.compare_gt_iff in E2.
Qed.

Lemma tilde_sorts_first_witness : verrevcmp "1.0~rc1" "1.0" < 0.
Proof. apply (tilde_sorts_first "1.0" "rc1"); repeat constructor; by vm_compute. Defined.

(** The order needs the absence of NUL bytes: a NUL is equal to every digit
    that starts a run. *)
Example verrevcmp_nul :
  verrevcmp "5" [chr 0] = 0 ∧ verrevcmp [chr 0] "6" = 0 ∧ verrevcmp "5" "6" < 0.
Proof. by vm_compute. Qed.

Example verrevcmp_examples :
  verrevcmp "1.10" "1.9" = 1 ∧ verrevcmp "1.0a" "1.0+" < 0 ∧ verrevcmp "01" "1" = 0 ∧
  compareVersionsFallback "1:1.0-1" "2.0-1" = 1 ∧ compareVersionsFallback "1.0" "1.0-0" = 0.
Proof. by vm_compute. Qed.
Example aptMajorMinor_examples :
  aptMajorMinor "2.7.14build2" = Some ("2" : gostring, "7" : gostring) ∧ aptMajorMinor "2" = None.
Proof. by vm_compute. Qed.
