(* ===== verification/Digest.v ===== *)
(** * core/digest: SHA-256 file digests, with [crypto/sha256] and [encoding/hex].

    Module [Sha256] is FIPS 180-4 on byte lists; the constants are computed
    from the primes they are defined by. The component itself follows it. *)
From S2P Require Export GoText.
#[local] Open Scope Z_scope.

Module Sha256.

Definition mask (x : Z) : Z := Z.land x 4294967295.
Definition add32 (x y : Z) : Z := mask (x + y).
Definition rotr (n x : Z) : Z := Z.lor (Z.shiftr x n) (mask (Z.shiftl x (32 - n))).
Definition shr (n x : Z) : Z := Z.shiftr x n.
Definition xor3 (x y z : Z) : Z := Z.lxor x (Z.lxor y z).

(** The first [n] primes, by trial division from [c]. *)
Definition is_prime (c : nat) : bool :=
  forallb (λ d, negb (Nat.eqb (c mod d) 0)) (seq 2 (c - 2)).
Fixpoint primes (fuel n c : nat) : list Z :=
  match fuel, n with
  | S fuel', S n' =>
      if is_prime c then Z.of_nat c :: primes fuel' n' (S c) else primes fuel' n (S c)
  | _, _ => []
  end.

(** Integer cube root, one bit at a time from bit [k]. *)
Fixpoint cbrt_go (k : nat) (x r : Z) : Z :=
  let r' := r + 2 ^ Z.of_nat k in
  let next := if r' * r' * r' <=? x then r' else r in
  match k with O => next | S k' => cbrt_go k' x next end.

(** The first 32 bits of the fractional parts of the square and cube roots. *)
Definition init_words : list Z :=
  Eval vm_compute in map (λ p, mask (Z.sqrt (p * 2 ^ 64))) (primes 400 8 2).
Definition round_words : list Z :=
  Eval vm_compute in map (λ p, mask (cbrt_go 36 (p * 2 ^ 96) 0)) (primes 400 64 2).

Record state := State { sa : Z; sb : Z; sc : Z; sd : Z; se : Z; sf : Z; sg : Z; sh : Z }.

Definition initial : state :=
  match init_words with
  | [a; b; c; d; e; f; g; h] => State a b c d e f g h
  | _ => State 0 0 0 0 0 0 0 0
  end.

Definition round (s : state) (kw : Z * Z) : state :=
  let '(k, w) := kw in
  let s1 := xor3 (rotr 6 (se s)) (rotr 11 (se s)) (rotr 25 (se s)) in
  let choose := Z.lxor (Z.land (se s) (sf s)) (Z.land (4294967295 - se s) (sg s)) in
  let t1 := add32 (sh s + s1) (choose + k + w) in
  let s0 := xor3 (rotr 2 (sa s)) (rotr 13 (sa s)) (rotr 22 (sa s)) in
  let majority := xor3 (Z.land (sa s) (sb s)) (Z.land (sa s) (sc s)) (Z.land (sb s) (sc s)) in
  State (add32 t1 (s0 + majority)) (sa s) (sb s) (sc s) (add32 (sd s) t1) (se s) (sf s) (sg s).

(** Sixteen message words extended to sixty-four; the list is newest first. *)
Fixpoint extend (n : nat) (ws : list Z) : list Z :=
  match n with
  | O => ws
  | S n' =>
      let w2 := nth 1 ws 0 in
      let w15 := nth 14 ws 0 in
      let s1 := xor3 (rotr 17 w2) (rotr 19 w2) (shr 10 w2) in
      let s0 := xor3 (rotr 7 w15) (rotr 18 w15) (shr 3 w15) in
      extend n' (add32 (s1 + nth 6 ws 0) (s0 + nth 15 ws 0) :: ws)
  end.

Fixpoint words (s : gostring) : list Z :=
  match s with
  | a :: b :: c :: d :: s' =>
      (ord a * 16777216 + ord b * 65536 + ord c * 256 + ord d) :: words s'
  | _ => []
  end.

Definition block (s : state) (b : gostring) : state :=
  let t := fold_left round (combine round_words (rev (extend 48 (rev (words b))))) s in
  State (add32 (sa s) (sa t)) (add32 (sb s) (sb t)) (add32 (sc s) (sc t)) (add32 (sd s) (sd t))
        (add32 (se s) (se t)) (add32 (sf s) (sf t)) (add32 (sg s) (sg t)) (add32 (sh s) (sh t)).

Fixpoint blocks (fuel : nat) (s : state) (m : gostring) : state :=
  match fuel, m with
  | S fuel', _ :: _ => blocks fuel' (block s (firstn 64 m)) (skipn 64 m)
  | _, _ => s
  end.

Definition be_bytes (n : nat) (x : Z) : gostring :=
  map (λ i, chr (Z.shiftr x (8 * Z.of_nat i) mod 256)) (rev (seq 0 n)).

Definition pad (m : gostring) : gostring :=
  let len := Z.of_nat (length m) in
  m ++ chr 128 :: replicate (Z.to_nat ((55 - len) mod 64)) (chr 0) ++ be_bytes 8 (8 * len).

Definition sum (m : gostring) : gostring :=
  let p := pad m in
  let s := blocks (length p) initial p in
  concat (map (be_bytes 4) [sa s; sb s; sc s; sd s; se s; sf s; sg s; sh s]).

Lemma length_sum m : length (sum m) = 32%nat.
Proof. unfold sum. cbn [map concat]. by rewrite !length_app. Qed.

End Sha256.
#[global] Opaque Sha256.sum.

(** [hex.EncodeToString] *)
Definition hex_digit (n : Z) : ascii := nth (Z.to_nat n) "0123456789abcdef" "0"%char.
Fixpoint hex_encode (s : gostring) : gostring :=
  match s with
  | [] => []
  | a :: s' => hex_digit (ord a / 16) :: hex_digit (ord a mod 16) :: hex_encode s'
  end.

(** [Bytes] *)
Definition Bytes (b : gostring) : gostring := hex_encode (Sha256.sum b).

(** [SHA256Reader]/[SHA256File] on a file that is read without an error: the
    digest of its bytes and their number. *)
Definition SHA256Reader (content : gostring) : gostring * Z :=
  (Bytes content, Z.of_nat (length content)).

(** [FileHashes] *)
Record FileHashes := mkFileHashes {
  Size : Z;
  MD5 : gostring;
  SHA1 : gostring;
  SHA256 : gostring
}.
#[export] Instance FileHashes_eq_dec : EqDecision FileHashes.
Proof. solve_decision. Defined.

(** [Valid] ranges over runes, and [strings.ContainsRune] is membership; a
    rune of the ASCII set is the byte itself. *)
Definition Valid (s : gostring) : bool :=
  (Z.of_nat (length s) =? 64) &&
  forallb (λ r, existsb (λ c, ord c =? r) "0123456789abcdef") (runes s).

(** [Equal] *)
Definition Equal `{UnicodeTables} (a b : gostring) : bool := equal_fold a b.

(** ** Properties *)

Lemma hex_digit_ok n : 0 ≤ n < 16 → is_hex_lower (hex_digit n) = true.
Proof.
  intros H. assert (n ∈ seqZ 0 16) as Hin by (apply elem_of_seqZ; lia).
  revert n H Hin. assert (forallb (λ n, is_hex_lower (hex_digit n)) (seqZ 0 16) = true) as Hall
    by (by vm_compute).
  intros n _ Hin. rewrite forallb_forall in Hall. apply Hall. by apply list_elem_of_In.
Qed.

Lemma hex_encode_ok s : forallb is_hex_lower (hex_encode s) = true.
Proof.
  induction s as [|a s IH]; [done|]. pose proof (ord_range a). simpl.
  rewrite !hex_digit_ok, IH; [done|..].
  - apply Z.mod_pos_bound. lia.
  - split; [apply Z.div_pos; lia|apply Z.div_lt_upper_bound; lia].
Qed.

Lemma length_hex_encode s : length (hex_encode s) = (2 * length s)%nat.
Proof. induction s as [|a s IH]; simpl; lia. Qed.

Lemma hex_lower_set : ∀ c, is_hex_lower c = existsb (λ d, ord d =? ord c) "0123456789abcdef".
Proof.
  assert (forallb (λ n, Bool.eqb (is_hex_lower (chr n)) (existsb (λ d, ord d =? n) "0123456789abcdef"))
            (seqZ 0 256) = true) as Hall by (by vm_compute).
  intros c. rewrite forallb_forall in Hall. specialize (Hall (ord c)).
  rewrite chr_ord in Hall. apply Bool.eqb_prop, Hall, list_elem_of_In, elem_of_seqZ.
  pose proof (ord_range c). lia.
Qed.

Lemma hex_lower_hex s : forallb is_hex_lower s = true → forallb is_hex s = true.
Proof.
  rewrite !forallb_forall. intros H c Hc. unfold is_hex. by rewrite (H c Hc).
Qed.

(** [Valid] is exactly: sixty-four lowercase hexadecimal bytes. *)
Lemma Valid_spec s : Valid s = true ↔ length s = 64%nat ∧ forallb is_hex_lower s = true.
Proof.
  unfold Valid. rewrite andb_true_iff, Z.eqb_eq. split.
  - intros [Hl Hr]. split; [lia|].
    assert (Forall (λ r, r < 128) (runes s)) as Hsmall.
    { apply Forall_forall. intros r Hin. rewrite forallb_forall in Hr.
      specialize (Hr r (proj1 (list_elem_of_In _ _) Hin)).
      apply existsb_exists in Hr as (c & Hc & <-%Z.eqb_eq).
      assert (forallb (λ c, ord c <? 128) "0123456789abcdef" = true) as Hall by (by vm_compute).
      rewrite forallb_forall in Hall. specialize (Hall c Hc). lia. }
    pose proof (runes_all_small s Hsmall) as Hs.
    rewrite Hs. rewrite forallb_forall in Hr |- *. intros c (r & <- & Hin)%in_map_iff.
    specialize (Hr r Hin). rewrite hex_lower_set.
    apply existsb_exists in Hr as (d & Hd & Hr%Z.eqb_eq). apply existsb_exists.
    exists d. split; [done|]. apply Z.eqb_eq. rewrite <- Hr. by rewrite chr_ord.
  - intros [Hl Hh]. split; [lia|]. rewrite runes_ascii by (by apply hex_ascii, hex_lower_hex).
    rewrite forallb_forall in Hh |- *. intros r (c & <- & Hc)%in_map_iff.
    rewrite <- hex_lower_set. auto.
Qed.

Lemma hex_lower_fixed s : forallb is_hex_lower s = true → map lower_byte s = s.
Proof.
  intros H. rewrite <- (map_id s) at 2. apply map_ext_in. intros c Hc.
  rewrite forallb_forall in H. specialize (H c Hc).
  unfold lower_byte. destruct (is_upper c) eqn:E; [|done].
  exfalso. byte_cases. bsplit. apply orb_true_iff in H as [H|H]; bsplit; lia.
Qed.

Lemma Bytes_hex b : forallb is_hex_lower (Bytes b) = true.
Proof. apply hex_encode_ok. Qed.

Lemma Bytes_Valid b : Valid (Bytes b) = true.
Proof.
  apply Valid_spec. split; [|apply Bytes_hex].
  unfold Bytes. by rewrite length_hex_encode, Sha256.length_sum.
Qed.

(** Two [Valid] digests are [Equal] exactly when they are the same string. *)
Lemma Equal_valid `{UnicodeLaws} a b :
  forallb is_hex_lower a = true → forallb is_hex_lower b = true → Equal a b = true ↔ a = b.
Proof.
  intros Ha Hb. unfold Equal. rewrite equal_fold_hex by (by apply hex_lower_hex).
  by rewrite !hex_lower_fixed.
Qed.

(** A computed digest is always well formed, and comparing it with
    arbitrary text by [Equal] accepts exactly its own spelling in either letter
    case: no other string, Unicode look-alikes included. *)
Theorem Bytes_digest `{UnicodeLaws} (b s : gostring) :
  Valid (Bytes b) = true ∧
  (Equal s (Bytes b) = true ↔ map lower_byte s = Bytes b).
Proof.
  split; [apply Bytes_Valid|].
  unfold Equal. rewrite (equal_fold_hex _ _ (hex_lower_hex _ (Bytes_hex b))).
  by rewrite (hex_lower_fixed _ (Bytes_hex b)).
Qed.

Lemma Bytes_digest_witness :
  Valid (Bytes "abc") = true ∧
  Bytes "abc" = "ba7816bf8f01cfea414140de5dae2223b00361a396177a9cb410ff61f20015ad".
Proof. split; [exact (proj1 (Bytes_digest "abc" ""))|by vm_compute]. Defined.

Example Bytes_empty : Bytes "" = "e3b0c44298fc1c149afbf4c8996fb92427ae41e4649b934ca495991b7852b855".
Proof. by vm_compute. Qed.
Example Bytes_two_blocks :
  Bytes "abcdbcdecdefdefgefghfghighijhijkijkljklmklmnlmnomnopnopq" =
  "248d6a61d20638b8e5c026930c3e6039a33ce45964ff2167f6ecedd419db06c1".
Proof. by vm_compute. Qed.
