(* ===== verification/Json.v ===== *)
(** * JSON documents as [encoding/json] values.

    A decoded document keeps what the source can see of the text: the order of
    object members, repeated members and the literal of a number. The decoders
    are [json.Unmarshal] into a zeroed Go value: a missing member and [null]
    leave the zero value, a value of another kind is an error. *)
From S2P Require Export GoText.
#[local] Open Scope Z_scope.

#[warnings="-register-all"]
Inductive json :=
| JNull
| JBool (b : bool)
| JNum (literal : gostring)
| JStr (s : gostring)
| JArr (items : list json)
| JObj (members : list (gostring * json)).

(** The induction principle that reaches array items and object members. *)
Section json_ind.
Context (P : json → Prop).
Context (Hnull : P JNull) (Hbool : ∀ b, P (JBool b)) (Hnum : ∀ n, P (JNum n)) (Hstr : ∀ s, P (JStr s)).
Context (Harr : ∀ l, (∀ v, List.In v l → P v) → P (JArr l)).
Context (Hobj : ∀ l, (∀ kv, List.In kv l → P kv.2) → P (JObj l)).
Fixpoint json_full_ind (v : json) : P v :=
  match v with
  | JNull => Hnull
  | JBool b => Hbool b
  | JNum n => Hnum n
  | JStr s => Hstr s
  | JArr l => Harr l (proj1 (List.Forall_forall P l)
      ((fix items l : @List.Forall json P l :=
          match l with [] => @List.Forall_nil _ _ | x :: l' => @List.Forall_cons _ P x l' (json_full_ind x) (items l') end) l))
  | JObj l => Hobj l (proj1 (List.Forall_forall (λ kv, P kv.2) l)
      ((fix members l : @List.Forall (gostring * json) (λ kv, P kv.2) l :=
          match l with
          | [] => @List.Forall_nil _ _
          | (k, x) :: l' => @List.Forall_cons _ (λ kv, P kv.2) (k, x) l' (json_full_ind x) (members l')
          end) l))
  end.
End json_ind.

Fixpoint member {A} (k : gostring) (l : list (gostring * A)) : option A :=
  match l with
  | [] => None
  | (k', a) :: l' => if streq k' k then Some a else member k l'
  end.

Lemma assoc_elem {A} k (a : A) l : member k l = Some a → (k, a) ∈ l.
Proof.
  induction l as [|[k' a'] l IH]; simpl; [done|].
  unfold streq. case_bool_decide as E; [intros [= ->]; subst; by left|right; auto].
Qed.

Lemma assoc_NoDup {A} k (a : A) l : NoDup (map fst l) → (k, a) ∈ l → member k l = Some a.
Proof.
  induction l as [|[k' a'] l IH]; simpl; [by intros _ ?%elem_of_nil|].
  intros [Hk Hl]%NoDup_cons [[= <- <-]|H]%elem_of_cons; unfold streq.
  - by rewrite bool_decide_eq_true_2.
  - case_bool_decide as E; [|auto]. subst. exfalso. apply Hk.
    by apply (list_elem_of_fmap_2 fst) in H.
Qed.

Lemma assoc_None {A} k (l : list (gostring * A)) : k ∉ map fst l → member k l = None.
Proof.
  induction l as [|[k' a'] l IH]; simpl; [done|]. intros [H1 H2]%not_elem_of_cons.
  unfold streq. rewrite bool_decide_eq_false_2 by congruence. auto.
Qed.

(** ** Decoding *)

Inductive decode_error := UnmarshalTypeError.

Definition dec (A : Type) : Type := option json → result decode_error A.

Definition dec_string : dec gostring := λ o,
  match o with
  | None | Some JNull => Ok []
  | Some (JStr s) => Ok s
  | _ => Err UnmarshalTypeError
  end.
Definition dec_bool : dec bool := λ o,
  match o with
  | None | Some JNull => Ok false
  | Some (JBool b) => Ok b
  | _ => Err UnmarshalTypeError
  end.
Definition dec_int64 : dec Z := λ o,
  match o with
  | None | Some JNull => Ok 0
  | Some (JNum lit) => match parse_int64 lit with Some n => Ok n | None => Err UnmarshalTypeError end
  | _ => Err UnmarshalTypeError
  end.
Fixpoint dec_items {A} (d : dec A) (l : list json) : result decode_error (list A) :=
  match l with
  | [] => Ok []
  | v :: l' => x ← d (Some v); xs ← dec_items d l'; Ok (x :: xs)
  end.
Definition dec_slice {A} (d : dec A) : dec (list A) := λ o,
  match o with
  | None | Some JNull => Ok []
  | Some (JArr l) => dec_items d l
  | _ => Err UnmarshalTypeError
  end.
(** A struct: [f] reads the members. *)
Definition dec_struct {A} (f : list (gostring * json) → result decode_error A) : dec A := λ o,
  match o with
  | None | Some JNull => f []
  | Some (JObj l) => f l
  | _ => Err UnmarshalTypeError
  end.

(** ** Encoding: [json.Marshal] of a struct; [None] is an omitted field. *)

Fixpoint present (fs : list (gostring * option json)) : list (gostring * json) :=
  match fs with
  | [] => []
  | (k, Some v) :: fs' => (k, v) :: present fs'
  | (_, None) :: fs' => present fs'
  end.
Definition enc_struct (fs : list (gostring * option json)) : json := JObj (present fs).

Definition enc_string (s : gostring) : option json := Some (JStr s).
Definition enc_bool (b : bool) : option json := Some (JBool b).
Definition enc_int (n : Z) : option json := Some (JNum (itoa n)).
Definition enc_slice {A} (e : A → json) (l : list A) : option json := Some (JArr (map e l)).
(** [omitempty] *)
Definition omit_string (s : gostring) : option json := match s with [] => None | _ => Some (JStr s) end.
Definition omit_bool (b : bool) : option json := if b then Some (JBool b) else None.
Definition omit_slice {A} (e : A → json) (l : list A) : option json :=
  match l with [] => None | _ => Some (JArr (map e l)) end.

Lemma present_keys fs k : k ∈ map fst (present fs) → k ∈ map fst fs.
Proof.
  induction fs as [|[k' [v|]] fs IH]; simpl; [done|..].
  - intros [->|H]%elem_of_cons; [by left|right; auto].
  - intros H. right. auto.
Qed.

(** A fact about every emitted field is a fact about every member. *)
Lemma present_Forall (Q : gostring → json → Prop) fs :
  Forall (λ ko, ∀ v, snd ko = Some v → Q (fst ko) v) fs → ∀ k v, (k, v) ∈ present fs → Q k v.
Proof.
  induction 1 as [|[k o] fs Hk Hfs IH]; intros k' v; cbn [present]; [by intros ?%elem_of_nil|].
  destruct o as [w|]; [|by apply IH]. intros [[= -> ->]|H]%elem_of_cons; [by apply Hk|by apply IH].
Qed.
Lemma NoDup_present fs : NoDup (map fst fs) → NoDup (map fst (present fs)).
Proof.
  induction fs as [|[k [v|]] fs IH]; cbn [map fst present]; intros H; [constructor|..];
    apply NoDup_cons in H as [Hk H]; [|by apply IH].
  constructor; [|by apply IH]. intros Hin%present_keys. done.
Qed.

(** Reading one field back from an encoded struct. *)
Lemma assoc_present fs i k o :
  NoDup (map fst fs) → fs !! i = Some (k, o) → member k (present fs) = o.
Proof.
  revert i. induction fs as [|[k' o'] fs IH]; intros i; simpl; [done|].
  intros [Hk Hnd]%NoDup_cons Hi.
  destruct i as [|i]; simpl in Hi.
  - simplify_eq. destruct o as [v|]; simpl.
    + unfold streq. by rewrite bool_decide_eq_true_2.
    + apply assoc_None. intros H%present_keys. done.
  - assert (k' ≠ k) as Hne.
    { intros ->. apply Hk. apply list_elem_of_lookup_2 in Hi.
      by apply (list_elem_of_fmap_2 fst) in Hi. }
    destruct o' as [v|]; simpl; [|by eapply IH].
    unfold streq. rewrite bool_decide_eq_false_2 by done. by eapply IH.
Qed.

Lemma dec_enc_string s : dec_string (enc_string s) = Ok s.
Proof. done. Qed.
Lemma dec_omit_string s : dec_string (omit_string s) = Ok s.
Proof. by destruct s. Qed.
Lemma dec_enc_bool b : dec_bool (enc_bool b) = Ok b.
Proof. done. Qed.
Lemma dec_omit_bool b : dec_bool (omit_bool b) = Ok b.
Proof. by destruct b. Qed.
Lemma dec_enc_int n : min_int64 ≤ n ≤ max_int64 → dec_int64 (enc_int n) = Ok n.
Proof. intros H. unfold dec_int64, enc_int. by rewrite parse_itoa. Qed.

Lemma dec_items_map {A} (d : dec A) (e : A → json) l :
  Forall (λ x, d (Some (e x)) = Ok x) l → dec_items d (map e l) = Ok l.
Proof.
  induction 1 as [|x l Hx Hl IH]; simpl; [done|]. rewrite Hx. simpl. by rewrite IH.
Qed.
Lemma dec_enc_slice {A} (d : dec A) (e : A → json) l :
  Forall (λ x, d (Some (e x)) = Ok x) l → dec_slice d (enc_slice e l) = Ok l.
Proof. apply dec_items_map. Qed.
Lemma dec_omit_slice {A} (d : dec A) (e : A → json) l :
  Forall (λ x, d (Some (e x)) = Ok x) l → dec_slice d (omit_slice e l) = Ok l.
Proof. destruct l; [done|]. apply dec_items_map. Qed.
Lemma dec_enc_strings l : dec_slice dec_string (enc_slice JStr l) = Ok l.
Proof. apply dec_enc_slice. by apply Forall_true. Qed.
Lemma dec_omit_strings l : dec_slice dec_string (omit_slice JStr l) = Ok l.
Proof. apply dec_omit_slice. by apply Forall_true. Qed.

(** [json_fields]: rewrite every [member k (present fs)] of the goal, for a
    literal list [fs], with the field of that name. *)
Ltac json_find k fs :=
  lazymatch fs with
  | (k, _) :: _ => constr:(O)
  | _ :: ?r => let n := json_find k r in constr:(S n)
  end.
Ltac json_fields :=
  repeat match goal with
  | |- context [member ?k (present ?fs)] =>
      let n := json_find k fs in
      erewrite (assoc_present fs n k);
      [|cbn [map fst]; apply (bool_decide_unpack _); vm_compute; exact I|reflexivity]
  end.
