(* ===== verification/JsonText.v ===== *)
(** * JSON text: the [encoding/json] scanner, string unquoting and encoder.

    [parse_value] is the decoder's grammar (strict JSON, nesting at most 10000,
    undecodable bytes of a string replaced by U+FFFD) and [render] the encoder
    ([<], [>], [&], U+2028 and U+2029 escaped), compact for [json.Marshal] and
    indented for [json.MarshalIndent(v, "", "  ")]. [parse_render]: a document
    whose strings are UTF-8 survives being written and read back. *)
From S2P Require Export Json.
#[local] Open Scope Z_scope.

Definition quote_char : ascii := chr 34.
Definition backslash : ascii := chr 92.

Definition is_ws (c : ascii) : bool := beq c " " || beq c (chr 9) || beq c (chr 10) || beq c (chr 13).
Fixpoint skip_ws (s : gostring) : gostring :=
  match s with
  | c :: s' => if is_ws c then skip_ws s' else s
  | [] => []
  end.

(** ** Strings *)

(** The letter after a backslash. *)
Definition escape_rune (e : Z) : option Z :=
  if e =? 34 then Some 34 else if e =? 92 then Some 92 else if e =? 47 then Some 47
  else if e =? 98 then Some 8 else if e =? 102 then Some 12 else if e =? 110 then Some 10
  else if e =? 114 then Some 13 else if e =? 116 then Some 9 else None.

Definition prepend {A B} (p : list A) (o : option (list A * B)) : option (list A * B) :=
  match o with Some (l, r) => Some (p ++ l, r) | None => None end.

(** The raw text of a string literal, after its opening quote. *)
Fixpoint scan_string (s : gostring) : option (gostring * gostring) :=
  match s with
  | [] => None
  | c :: s1 =>
      if ord c =? 34 then Some ([], s1)
      else if ord c =? 92 then
        match s1 with
        | [] => None
        | e :: s2 =>
            if ord e =? 117 then
              match s2 with
              | h1 :: h2 :: h3 :: h4 :: s3 =>
                  if is_hex h1 && is_hex h2 && is_hex h3 && is_hex h4
                  then prepend [c; e; h1; h2; h3; h4] (scan_string s3) else None
              | _ => None
              end
            else if escape_rune (ord e) is Some _ then prepend [c; e] (scan_string s2) else None
        end
      else if ord c <? 32 then None
      else prepend [c] (scan_string s1)
  end.

Definition hex_val (r : Z) : Z := if r <=? 57 then r - 48 else if r <=? 70 then r - 55 else r - 87.
Definition hex4 (a b c d : Z) : Z := hex_val a * 4096 + hex_val b * 256 + hex_val c * 16 + hex_val d.

(** [unquote]: runes of the raw text to the string they stand for. *)
Fixpoint unquote (l : list (Z * gostring)) : gostring :=
  match l with
  | [] => []
  | (r, w) :: l1 =>
      if r =? 92 then
        match l1 with
        | [] => []
        | (e, _) :: l2 =>
            if e =? 117 then
              match l2 with
              | (a, _) :: (b, _) :: (c, _) :: (d, _) :: l3 =>
                  let u := hex4 a b c d in
                  if (55296 <=? u) && (u <? 57344) then
                    match l3 with
                    | (x, _) :: (y, _) :: (a', _) :: (b', _) :: (c', _) :: (d', _) :: l4 =>
                        let u' := hex4 a' b' c' d' in
                        if (x =? 92) && (y =? 117) && (u <? 56320) && (56320 <=? u') && (u' <? 57344)
                        then encode_rune ((u - 55296) * 1024 + (u' - 56320) + 65536) ++ unquote l4
                        else encode_rune RuneError ++ unquote l3
                    | _ => encode_rune RuneError ++ unquote l3
                    end
                  else encode_rune u ++ unquote l3
              | _ => []
              end
            else match escape_rune e with Some c => chr c :: unquote l2 | None => [] end
        end
      else if valid_rune (r, w) then w ++ unquote l1
      else encode_rune RuneError ++ unquote l1
  end.

Definition hex_digit (n : Z) : ascii := if n <? 10 then chr (48 + n) else chr (87 + n).

(** One rune of [appendString]. *)
Definition escape_chunk (p : Z * gostring) : gostring :=
  let (r, w) := p in
  if r <? 128 then
    if (r =? 34) || (r =? 92) then [backslash; chr r]
    else if r =? 8 then [backslash; "b"%char]
    else if r =? 12 then [backslash; "f"%char]
    else if r =? 10 then [backslash; "n"%char]
    else if r =? 13 then [backslash; "r"%char]
    else if r =? 9 then [backslash; "t"%char]
    else if (r <? 32) || (r =? 60) || (r =? 62) || (r =? 38)
    then [backslash; "u"%char; "0"%char; "0"%char; hex_digit (r / 16); hex_digit (r mod 16)]
    else w
  else if negb (valid_rune p) then "\ufffd"
  else if r =? 8232 then "\u2028"
  else if r =? 8233 then "\u2029"
  else w.
Definition escape (s : gostring) : gostring := concat (map escape_chunk (decode s)).
Definition quote (s : gostring) : gostring := quote_char :: escape s ++ [quote_char].

(** ** Numbers *)

Fixpoint take_digits (s : gostring) : gostring * gostring :=
  match s with
  | c :: s' => if is_digit c then let (d, r) := take_digits s' in (c :: d, r) else ([], s)
  | [] => ([], [])
  end.
Definition digits1 (s : gostring) : option (gostring * gostring) :=
  match take_digits s with ([], _) => None | p => Some p end.
Definition scan_int (s : gostring) : option (gostring * gostring) :=
  match s with
  | "0"%char :: r => Some (["0"%char], r)
  | _ => digits1 s
  end.
Definition scan_frac (s : gostring) : option (gostring * gostring) :=
  match s with
  | "."%char :: r => prepend ["."%char] (digits1 r)
  | _ => Some ([], s)
  end.
Definition scan_exp (s : gostring) : option (gostring * gostring) :=
  match s with
  | c :: r =>
      if beq c "e" || beq c "E" then
        match r with
        | d :: r' => if beq d "+" || beq d "-" then prepend [c; d] (digits1 r') else prepend [c] (digits1 r)
        | [] => None
        end
      else Some ([], s)
  | [] => Some ([], [])
  end.
Definition scan_number (s : gostring) : option (gostring * gostring) :=
  let (sgn, r) := match s with "-"%char :: r => (["-"%char], r) | _ => ([], s) end in
  '(i, r1) ← scan_int r; '(f, r2) ← scan_frac r1; '(e, r3) ← scan_exp r2;
  Some (sgn ++ i ++ f ++ e, r3).

(** ** Values *)

Definition max_depth : Z := 10000.

Definition parse_string (s : gostring) : option (gostring * gostring) :=
  '(raw, r) ← scan_string s; Some (unquote (decode raw), r).

Fixpoint parse_value (fuel : nat) (depth : Z) (s : gostring) : option (json * gostring) :=
  match fuel with
  | O => None
  | S n =>
      match skip_ws s with
      | [] => None
      | c :: s1 =>
          if ord c =? 34 then '(w, r) ← parse_string s1; Some (JStr w, r)
          else if ord c =? 123 then
            if depth <=? 0 then None
            else match skip_ws s1 with
                 | "}"%char :: r => Some (JObj [], r)
                 | _ => '(ms, r) ← parse_members n (depth - 1) s1; Some (JObj ms, r)
                 end
          else if ord c =? 91 then
            if depth <=? 0 then None
            else match skip_ws s1 with
                 | "]"%char :: r => Some (JArr [], r)
                 | _ => '(vs, r) ← parse_items n (depth - 1) s1; Some (JArr vs, r)
                 end
          else match cut_prefix "true" (c :: s1), cut_prefix "false" (c :: s1), cut_prefix "null" (c :: s1) with
               | Some r, _, _ => Some (JBool true, r)
               | _, Some r, _ => Some (JBool false, r)
               | _, _, Some r => Some (JNull, r)
               | None, None, None => '(lit, r) ← scan_number (c :: s1); Some (JNum lit, r)
               end
      end
  end
with parse_items (fuel : nat) (depth : Z) (s : gostring) : option (list json * gostring) :=
  match fuel with
  | O => None
  | S n =>
      '(v, r) ← parse_value n depth s;
      match skip_ws r with
      | ","%char :: r' => prepend [v] (parse_items n depth r')
      | "]"%char :: r' => Some ([v], r')
      | _ => None
      end
  end
with parse_members (fuel : nat) (depth : Z) (s : gostring) : option (list (gostring * json) * gostring) :=
  match fuel with
  | O => None
  | S n =>
      match skip_ws s with
      | c :: s1 =>
          if ord c =? 34 then
            '(k, r) ← parse_string s1;
            match skip_ws r with
            | ":"%char :: r1 =>
                '(v, r2) ← parse_value n depth r1;
                match skip_ws r2 with
                | ","%char :: r' => prepend [(k, v)] (parse_members n depth r')
                | "}"%char :: r' => Some ([(k, v)], r')
                | _ => None
                end
            | _ => None
            end
          else None
      | [] => None
      end
  end.

Definition fuel_for (s : gostring) : nat := 2 * length s + 2.
(** [json.Decoder.Decode]: the first value and what follows it. *)
Definition decode_value (s : gostring) : option (json * gostring) := parse_value (fuel_for s) max_depth s.
(** [json.Unmarshal]: exactly one value. *)
Definition json_parse (s : gostring) : option json :=
  match decode_value s with
  | Some (v, r) => match skip_ws r with [] => Some v | _ => None end
  | None => None
  end.

(** ** Encoding *)

Section render.
Context (nl : nat → gostring) (colon : gostring).
Fixpoint render (d : nat) (v : json) : gostring :=
  match v with
  | JNull => "null"
  | JBool b => if b then "true" else "false"
  | JNum lit => lit
  | JStr s => quote s
  | JArr [] => "[]"
  | JArr l =>
      "["%char :: nl (S d) ++ join (","%char :: nl (S d)) (map (render (S d)) l) ++ nl d ++ ["]"%char]
  | JObj [] => "{}"
  | JObj l =>
      "{"%char :: nl (S d) ++
      join (","%char :: nl (S d)) (map (λ kv, quote kv.1 ++ colon ++ render (S d) kv.2) l) ++
      nl d ++ ["}"%char]
  end.
End render.

(** [json.Marshal] and [json.MarshalIndent(v, "", "  ")]. *)
Definition json_marshal (v : json) : gostring := render (λ _, []) ":" 0 v.
Definition indent (d : nat) : gostring := newline :: concat (replicate d (bytes_of "  ")).
Definition json_marshal_indent (v : json) : gostring := render indent ": " 0 v.

(** ** Strings survive quoting *)

Lemma prepend_prepend {A B} (p q : list A) (o : option (list A * B)) :
  prepend p (prepend q o) = prepend (p ++ q) o.
Proof. destruct o as [[l r]|]; simpl; [|done]. by rewrite app_assoc. Qed.

Lemma escape_ascii c t :
  ord c < 128 →
  scan_string (escape_chunk (ord c, [c]) ++ t) = prepend (escape_chunk (ord c, [c])) (scan_string t) ∧
  unquote (decode (escape_chunk (ord c, [c]) ++ t)) = c :: unquote (decode t).
Proof. destruct c as [[] [] [] [] [] [] [] []]; intros H; try (by compute in H); split; reflexivity. Qed.

Lemma scan_high w t : Forall (λ c, 128 ≤ ord c) w → scan_string (w ++ t) = prepend w (scan_string t).
Proof.
  induction 1 as [|c w Hc Hw IH]; simpl; [by destruct (scan_string t) as [[??]|]|].
  rewrite !(proj2 (Z.eqb_neq _ _)), (proj2 (Z.ltb_ge _ _)), IH by lia.
  by rewrite prepend_prepend.
Qed.

Lemma escape_chunk_high r w : 128 ≤ r → valid_rune (r, w) = true →
  (r = 8232 ∧ escape_chunk (r, w) = "\u2028") ∨ (r = 8233 ∧ escape_chunk (r, w) = "\u2029") ∨
  escape_chunk (r, w) = w.
Proof.
  intros Hr Hv. unfold escape_chunk. rewrite (proj2 (Z.ltb_ge _ _)), Hv by lia. simpl.
  destruct (Z.eqb_spec r 8232); [auto|]. destruct (Z.eqb_spec r 8233); auto.
Qed.

Lemma escape_chunk_ok s r w t :
  (r, w) ∈ decode s → valid_rune (r, w) = true →
  scan_string (escape_chunk (r, w) ++ t) = prepend (escape_chunk (r, w)) (scan_string t) ∧
  unquote (decode (escape_chunk (r, w) ++ t)) = w ++ unquote (decode t).
Proof.
  intros Hin Hv. destruct (decode_chunk_shape s r w Hin) as [[Hr ->]|[Hr Hw]].
  - pose proof (escape_ascii (chr r) t) as H. rewrite ord_chr in H by lia. apply H. lia.
  - destruct (escape_chunk_high r w Hr Hv) as [[E ->]|[[E ->]| ->]].
    + rewrite <- (encode_decode s r w Hin Hv), E. split; reflexivity.
    + rewrite <- (encode_decode s r w Hin Hv), E. split; reflexivity.
    + split; [by apply scan_high|]. rewrite (decode_chunk s r w t Hin Hv). simpl.
      rewrite (proj2 (Z.eqb_neq _ _)) by lia. by rewrite Hv.
Qed.

Lemma parse_quote s rest : utf8_valid s = true → parse_string (escape s ++ quote_char :: rest) = Some (s, rest).
Proof.
  intros Hv. unfold parse_string.
  assert (∀ l t, (∀ p, p ∈ l → p ∈ decode s) →
    scan_string (concat (map escape_chunk l) ++ t) = prepend (concat (map escape_chunk l)) (scan_string t) ∧
    unquote (decode (concat (map escape_chunk l) ++ t)) = concat (map snd l) ++ unquote (decode t)) as Hl.
  { induction l as [|[r w] l IH]; intros t Hin; [split; [|done]; simpl; by destruct (scan_string t) as [[??]|]|].
    cbn [map concat snd]. rewrite <- !(app_assoc _ _ t).
    destruct (escape_chunk_ok s r w (concat (map escape_chunk l) ++ t)) as [-> ->].
    { apply Hin. by left. }
    { unfold utf8_valid in Hv. rewrite forallb_forall in Hv.
      apply Hv, list_elem_of_In, Hin. by left. }
    destruct (IH t) as [-> ->]; [intros p Hp; apply Hin; by right|].
    by rewrite prepend_prepend, <- app_assoc. }
  destruct (Hl (decode s) (quote_char :: rest)) as [Hs _]; [done|].
  destruct (Hl (decode s) []) as [_ Hu]; [done|].
  rewrite !app_nil_r, decode_bytes in Hu. fold (escape s) in Hs, Hu.
  rewrite Hs. simpl. by rewrite app_nil_r, Hu.
Qed.

(** ** Numbers survive printing *)

Definition delim (r : gostring) : bool :=
  match r with [] => true | c :: _ => is_ws c || beq c "," || beq c "]" || beq c "}" end.

Lemma take_digits_app ds rest :
  forallb is_digit ds = true → delim rest = true → take_digits (ds ++ rest) = (ds, rest).
Proof.
  induction ds as [|c ds IH]; simpl.
  - intros _ H. destruct rest as [|c rest]; [done|]. simpl.
    assert (is_digit c = false) as ->; [|done].
    revert H. destruct c as [[] [] [] [] [] [] [] []]; vm_compute; congruence.
  - intros [Hc Hd]%andb_true_iff Hr. rewrite Hc. by rewrite IH.
Qed.

Lemma scan_frac_delim r : delim r = true → scan_frac r = Some ([], r).
Proof.
  destruct r as [|c r]; [done|]. intros H. simpl in H.
  destruct c as [[] [] [] [] [] [] [] []]; try reflexivity; by vm_compute in H.
Qed.
Lemma scan_exp_delim r : delim r = true → scan_exp r = Some ([], r).
Proof.
  destruct r as [|c r]; [done|]. intros H. simpl in H.
  destruct c as [[] [] [] [] [] [] [] []]; try reflexivity; by vm_compute in H.
Qed.

Lemma scan_int_udigits n rest : 0 ≤ n → delim rest = true → scan_int (udigits n ++ rest) = Some (udigits n, rest).
Proof.
  intros Hn Hr. destruct (Z.eq_dec n 0) as [->|Hne]; [done|].
  destruct (udigits_head n) as (c & s & E & Hc); [lia|].
  destruct (udigits_spec n Hn) as (_ & Hd & _).
  assert (scan_int (udigits n ++ rest) = digits1 (udigits n ++ rest)) as ->.
  { rewrite E. cbn [app scan_int]. destruct c as [[] [] [] [] [] [] [] []]; try reflexivity. done. }
  unfold digits1. rewrite take_digits_app by done. by rewrite E.
Qed.

Lemma scan_number_itoa n rest : delim rest = true → scan_number (itoa n ++ rest) = Some (itoa n, rest).
Proof.
  intros Hr. unfold itoa. destruct (Z.ltb_spec n 0) as [H|H]; unfold scan_number.
  - cbn [app]. rewrite scan_int_udigits by (done || lia). simpl.
    rewrite scan_frac_delim by done. simpl. rewrite scan_exp_delim by done. simpl. by rewrite app_nil_r.
  - destruct (udigits_spec n H) as (_ & Hd & Hne).
    assert (match udigits n ++ rest with "-"%char :: r => (["-"%char], r) | _ => ([], udigits n ++ rest) end
            = ([], udigits n ++ rest)) as ->.
    { destruct (udigits n) as [|c s]; [done|]. cbn [app]. simpl in Hd. apply andb_true_iff in Hd as [Hd _].
      destruct c as [[] [] [] [] [] [] [] []]; try reflexivity. by vm_compute in Hd. }
    rewrite scan_int_udigits by (done || lia). simpl.
    rewrite scan_frac_delim by done. simpl. rewrite scan_exp_delim by done. simpl. by rewrite app_nil_r.
Qed.

(** ** Documents survive rendering *)

Fixpoint json_size (v : json) : nat :=
  match v with
  | JArr l => S (foldr (λ x n, S (json_size x) + n)%nat O l)
  | JObj l => S (foldr (λ kv n, S (json_size kv.2) + n)%nat O l)
  | _ => 1
  end.
Fixpoint json_depth (v : json) : nat :=
  match v with
  | JArr l => S (foldr (λ x n, Nat.max (json_depth x) n) O l)
  | JObj l => S (foldr (λ kv n, Nat.max (json_depth kv.2) n) O l)
  | _ => O
  end.

(** What an encoder emits: UTF-8 strings and integers. *)
Fixpoint json_ok (v : json) : Prop :=
  match v with
  | JNum lit => ∃ n, lit = itoa n
  | JStr s => utf8_valid s = true
  | JArr l => foldr (λ x P, json_ok x ∧ P) True l
  | JObj l => foldr (λ kv P, utf8_valid kv.1 = true ∧ json_ok kv.2 ∧ P) True l
  | _ => True
  end.

Lemma skip_ws_app ws s : forallb is_ws ws = true → skip_ws (ws ++ s) = skip_ws s.
Proof. induction ws as [|c ws IH]; simpl; [done|]. intros [-> H]%andb_true_iff. auto. Qed.

Section round_trip.
Context (nl : nat → gostring) (colon ws : gostring).
Hypothesis Hnl : ∀ d, forallb is_ws (nl d) = true.
Hypothesis Hcolon : colon = ":"%char :: ws.
Hypothesis Hws : forallb is_ws ws = true.

(** The first byte of a rendered value is not white space and closes nothing. *)
Lemma render_head d v : json_ok v →
  ∃ c t, render nl colon d v = c :: t ∧ is_ws c = false ∧ c ≠ "]"%char ∧ c ≠ "}"%char.
Proof.
  destruct v as [|[]|lit|s|[|x l]|[|x l]]; simpl; intros Hv; try (by eexists _, _).
  destruct Hv as [n ->]. unfold itoa. destruct (Z.ltb_spec n 0) as [H|H]; [by eexists _, _|].
  destruct (udigits_spec n H) as (_ & Hd & Hne).
  destruct (udigits n) as [|c s]; [done|]. eexists _, _. split; [done|]. simpl in Hd.
  apply andb_true_iff in Hd as [Hd _].
  destruct c as [[] [] [] [] [] [] [] []]; by vm_compute in Hd.
Qed.

Lemma parse_leaf_number n fuel depth rest :
  delim rest = true → parse_value (S fuel) depth (itoa n ++ rest) = Some (JNum (itoa n), rest).
Proof.
  intros Hr. pose proof (scan_number_itoa n rest Hr) as Hs.
  assert (∃ c t, itoa n = c :: t ∧ (is_digit c || beq c "-") = true) as (c & t & E & Hc).
  { unfold itoa. destruct (Z.ltb_spec n 0) as [H|H]; [by eexists _, _|].
    destruct (udigits_spec n H) as (_ & Hd & Hne). destruct (udigits n) as [|c s]; [done|].
    simpl in Hd. apply andb_true_iff in Hd as [Hd _]. eexists _, _. by rewrite Hd. }
  rewrite E in *. cbn [app] in *.
  assert (is_ws c = false ∧ (ord c =? 34) = false ∧ (ord c =? 123) = false ∧ (ord c =? 91) = false ∧
    ∀ s, cut_prefix "true" (c :: s) = None ∧ cut_prefix "false" (c :: s) = None ∧ cut_prefix "null" (c :: s) = None)
    as (E1 & E2 & E3 & E4 & E5).
  { destruct c as [[] [] [] [] [] [] [] []]; try (by vm_compute in Hc); repeat split; reflexivity. }
  cbn [parse_value skip_ws]. rewrite E1, E2, E3, E4.
  destruct (E5 (t ++ rest)) as (-> & -> & ->). by rewrite Hs.
Qed.

Definition parses (v : json) : Prop := ∀ d fuel depth rest,
  json_ok v → (json_size v ≤ fuel)%nat → Z.of_nat (json_depth v) ≤ depth → delim rest = true →
  parse_value fuel depth (render nl colon d v ++ rest) = Some (v, rest).

Lemma parse_value_ws n depth w s : forallb is_ws w = true → parse_value n depth (w ++ s) = parse_value n depth s.
Proof. intros H. destruct n; [done|]. cbn [parse_value]. by rewrite skip_ws_app. Qed.

Lemma delim_ws w s : forallb is_ws w = true → delim s = true → delim (w ++ s) = true.
Proof. destruct w as [|c w]; [done|]. simpl. by intros [-> _]%andb_true_iff _. Qed.

Lemma join_cons sep (x y : gostring) l : join sep (x :: y :: l) = x ++ sep ++ join sep (y :: l).
Proof. done. Qed.

Lemma parse_items_render l d fuel depth rest :
  (∀ v, v ∈ l → parses v) → l ≠ [] → foldr (λ x P, json_ok x ∧ P) True l →
  (foldr (λ x n, S (json_size x) + n) O l ≤ fuel)%nat →
  Z.of_nat (foldr (λ x n, Nat.max (json_depth x) n) O l) ≤ depth →
  parse_items fuel depth (nl (S d) ++ join (","%char :: nl (S d)) (map (render nl colon (S d)) l) ++ nl d ++ "]"%char :: rest)
  = Some (l, rest).
Proof.
  revert fuel. induction l as [|x l IH]; intros fuel Hp Hne Hok Hsz Hd; [done|].
  destruct Hok as [Hx Hok]. cbn [foldr] in Hsz, Hd.
  destruct fuel as [|fuel]; [lia|]. cbn [parse_items map].
  rewrite parse_value_ws by done.
  destruct l as [|y l].
  - cbn [join map]. rewrite (Hp x); [|by left|done|lia|lia|].
    + simpl. by rewrite skip_ws_app.
    + by apply delim_ws.
  - cbn [join map]. rewrite <- !app_assoc. rewrite (Hp x); [|by left|done|lia|lia|done].
    simpl. rewrite <- ?app_assoc. rewrite IH; [done|..].
    + intros v Hv. apply Hp. by right.
    + done.
    + done.
    + simpl in *. lia.
    + simpl in *. lia.
Qed.

(** One member of an object. *)
Lemma parse_member n depth w k t :
  forallb is_ws w = true → utf8_valid k = true →
  parse_members (S n) depth (w ++ quote k ++ colon ++ t) =
  ('(v, r2) ← parse_value n depth t;
   match skip_ws r2 with
   | ","%char :: r' => prepend [(k, v)] (parse_members n depth r')
   | "}"%char :: r' => Some ([(k, v)], r')
   | _ => None
   end).
Proof.
  intros Hw Hk. cbn [parse_members]. rewrite skip_ws_app by done.
  unfold quote. cbn [app skip_ws]. change (is_ws quote_char) with false. cbn iota.
  change (ord quote_char =? 34) with true. cbn iota.
  rewrite <- !app_assoc. cbn [app]. rewrite parse_quote by done.
  rewrite Hcolon. cbn [app mbind option_bind skip_ws]. change (is_ws ":") with false. cbn iota.
  by rewrite parse_value_ws.
Qed.

Lemma parse_members_render l d fuel depth rest :
  (∀ kv, kv ∈ l → parses kv.2) → l ≠ [] →
  foldr (λ kv P, utf8_valid kv.1 = true ∧ json_ok kv.2 ∧ P) True l →
  (foldr (λ kv n, S (json_size kv.2) + n) O l ≤ fuel)%nat →
  Z.of_nat (foldr (λ kv n, Nat.max (json_depth kv.2) n) O l) ≤ depth →
  parse_members fuel depth (nl (S d) ++
    join (","%char :: nl (S d)) (map (λ kv, quote kv.1 ++ colon ++ render nl colon (S d) kv.2) l) ++
    nl d ++ "}"%char :: rest)
  = Some (l, rest).
Proof.
  revert fuel. induction l as [|[k x] l IH]; intros fuel Hp Hne Hok Hsz Hd; [done|].
  destruct Hok as (Hk & Hx & Hok). cbn [foldr fst snd] in Hsz, Hd, Hk, Hx.
  destruct fuel as [|fuel]; [lia|].
  destruct l as [|y l].
  - cbn [join map fst snd]. rewrite <- !app_assoc. rewrite parse_member by done.
    rewrite (Hp (k, x)); [|by left|done|simpl; lia|simpl; lia|by apply delim_ws].
    simpl. by rewrite skip_ws_app.
  - match goal with |- context [map ?f _] => set (g := f) in * end.
    rewrite (map_cons g (k, x) (y :: l)), (map_cons g y l), join_cons, <- (map_cons g y l).
    unfold g at 1. cbn [fst snd]. rewrite <- !app_assoc. rewrite parse_member by done. cbn [app].
    rewrite (Hp (k, x)); [|by left|done|simpl; lia|simpl; lia|done].
    cbn [mbind option_bind skip_ws]. change (is_ws ",") with false. cbn iota.
    rewrite IH; [done|..].
    + intros v Hv. apply Hp. by right.
    + done.
    + done.
    + simpl in *. lia.
    + simpl in *. lia.
Qed.

Lemma parse_render_gen v : parses v.
Proof.
  induction v as [|b|lit|s|l IH|l IH] using json_full_ind;
    intros d fuel depth rest Hok Hsz Hd Hr; (destruct fuel as [|fuel]; [simpl in Hsz; lia|]).
  - done.
  - by destruct b.
  - destruct Hok as [n ->]. by apply parse_leaf_number.
  - cbn [render parse_value]. unfold quote. cbn [app skip_ws]. change (is_ws quote_char) with false.
    cbn iota. change (ord quote_char =? 34) with true. cbn iota.
    rewrite <- app_assoc. cbn [app]. by rewrite parse_quote.
  - destruct l as [|x l]; [simpl in *; by rewrite (proj2 (Z.leb_gt _ _)) by lia|].
    cbn [json_ok json_depth json_size] in Hok, Hd, Hsz.
    assert (∀ y, y ∈ x :: l → parses y) as IH' by (intros y Hy; by apply IH, list_elem_of_In).
    pose proof (parse_items_render (x :: l) d fuel (depth - 1) rest IH' ltac:(done) Hok ltac:(lia) ltac:(lia)) as Hi.
    cbn [render app parse_value skip_ws].
    change (is_ws "[") with false. cbn iota.
    change (ord "[" =? 34) with false. change (ord "[" =? 123) with false. change (ord "[" =? 91) with true. cbn iota.
    rewrite (proj2 (Z.leb_gt _ _)) by lia. rewrite <- !app_assoc. cbn [app]. rewrite Hi.
    rewrite skip_ws_app by done.
    destruct (render_head (S d) x) as (c & t & E & Hc & Hc' & _); [apply Hok|].
    assert (∃ t', join (","%char :: nl (S d)) (map (render nl colon (S d)) (x :: l)) = c :: t') as [t' ->].
    { cbn [map]. rewrite E. destruct l; cbn [map join app]; eauto. }
    cbn [app skip_ws]. rewrite Hc.
    destruct c as [[] [] [] [] [] [] [] []]; done.
  - destruct l as [|x l]; [simpl in *; by rewrite (proj2 (Z.leb_gt _ _)) by lia|].
    cbn [json_ok json_depth json_size] in Hok, Hd, Hsz.
    assert (∀ y, y ∈ x :: l → parses y.2) as IH' by (intros y Hy; by apply IH, list_elem_of_In).
    pose proof (parse_members_render (x :: l) d fuel (depth - 1) rest IH' ltac:(done) Hok ltac:(lia) ltac:(lia)) as Hi.
    cbn [render app parse_value skip_ws].
    change (is_ws "{") with false. cbn iota.
    change (ord "{" =? 34) with false. change (ord "{" =? 123) with true. cbn iota.
    rewrite (proj2 (Z.leb_gt _ _)) by lia. rewrite <- !app_assoc. cbn [app]. rewrite Hi.
    rewrite skip_ws_app by done.
    assert (∃ t', join (","%char :: nl (S d)) (map (λ kv, quote kv.1 ++ colon ++ render nl colon (S d) kv.2) (x :: l)) = quote_char :: t') as [t' ->].
    { destruct l; cbn [map join]; unfold quote; cbn [app]; eauto. }
    done.
Qed.
End round_trip.

Lemma json_size_text nl colon d v : json_ok v → (json_size v ≤ 2 * length (render nl colon d v))%nat.
Proof.
  revert d. induction v as [|b|lit|s|l IH|l IH] using json_full_ind; intros d Hok; try (simpl; lia).
  - destruct b; simpl; lia.
  - destruct Hok as [n ->]. unfold itoa. destruct (Z.ltb_spec n 0) as [H|H]; [simpl; lia|].
    destruct (udigits_spec n H) as (_ & _ & Hne). destruct (udigits n); [done|simpl; lia].
  - assert (foldr (λ x n, S (json_size x) + n) O l ≤
      2 * length (join (","%char :: nl (S d)) (map (render nl colon (S d)) l)) + 1)%nat as H.
    { cbn [json_ok] in Hok. induction l as [|x l IHl]; [simpl; lia|].
      destruct Hok as [Hx Hl]. pose proof (IH x (or_introl eq_refl) (S d) Hx).
      specialize (IHl (λ v Hv, IH v (or_intror Hv)) Hl).
      destruct l as [|y l]; [simpl in *; lia|].
      rewrite map_cons, map_cons, join_cons, <- map_cons, !length_app. cbn [foldr length] in *. lia. }
    destruct l as [|x l]; [simpl; lia|].
    cbn [render length json_size] in *. rewrite !length_app. cbn [length]. lia.
  - set (f := λ kv, quote kv.1 ++ colon ++ render nl colon (S d) kv.2).
    assert (foldr (λ kv n, S (json_size kv.2) + n) O l ≤
      2 * length (join (","%char :: nl (S d)) (map f l)) + 1)%nat as H.
    { cbn [json_ok] in Hok. induction l as [|x l IHl]; [simpl; lia|].
      destruct Hok as (_ & Hx & Hl). pose proof (IH x (or_introl eq_refl) (S d) Hx) as Hs.
      specialize (IHl (λ v Hv, IH v (or_intror Hv)) Hl).
      assert (json_size x.2 ≤ 2 * length (f x))%nat as Hs' by (unfold f; rewrite !length_app; lia).
      clearbody f. destruct l as [|y l]; [simpl in *; lia|].
      rewrite (map_cons f x (y :: l)), (map_cons f y l), join_cons, <- (map_cons f y l), !length_app.
      cbn [foldr length] in *. lia. }
    destruct l as [|x l]; [simpl; lia|].
    cbn [render length json_size] in *. fold f. rewrite !length_app. cbn [length]. lia.
Qed.

Lemma is_ws_indent d : forallb is_ws (indent d) = true.
Proof. unfold indent. simpl. induction d; [done|]. done. Qed.

Lemma decode_render nl colon ws v rest :
  (∀ d, forallb is_ws (nl d) = true) → colon = ":"%char :: ws → forallb is_ws ws = true →
  json_ok v → Z.of_nat (json_depth v) ≤ max_depth → delim rest = true →
  decode_value (render nl colon 0 v ++ rest) = Some (v, rest).
Proof.
  intros H1 H2 H3 Hok Hd Hr. apply (parse_render_gen nl colon ws); try done.
  pose proof (json_size_text nl colon 0 v Hok). unfold fuel_for. rewrite length_app. lia.
Qed.

(** What [MarshalIndent] and a final newline write, the decoder reads back. *)
Lemma parse_marshal_indent v :
  json_ok v → Z.of_nat (json_depth v) ≤ max_depth →
  json_parse (json_marshal_indent v ++ [newline]) = Some v.
Proof.
  intros Hok Hd. unfold json_parse, json_marshal_indent.
  by rewrite (decode_render indent ": " " ") by (done || apply is_ws_indent).
Qed.
Lemma parse_json_marshal_indent v :
  json_ok v → Z.of_nat (json_depth v) ≤ max_depth → json_parse (json_marshal_indent v) = Some v.
Proof.
  intros Hok Hd. unfold json_parse, json_marshal_indent.
  rewrite <- (app_nil_r (render _ _ _ _)).
  by rewrite (decode_render indent ": " " ") by (done || apply is_ws_indent).
Qed.
Lemma parse_marshal v :
  json_ok v → Z.of_nat (json_depth v) ≤ max_depth → json_parse (json_marshal v) = Some v.
Proof.
  intros Hok Hd. unfold json_parse, json_marshal.
  rewrite <- (app_nil_r (render _ _ _ _)). by rewrite (decode_render (λ _, []) ":" []).
Qed.

(** ** The fuel suffices *)

Lemma skip_ws_length s : (length (skip_ws s) ≤ length s)%nat.
Proof. induction s as [|c s IH]; simpl; [lia|]. destruct (is_ws c); simpl; lia. Qed.

Lemma prepend_Some {A B} (p : list A) (o : option (list A * B)) l r :
  prepend p o = Some (l, r) → ∃ l', o = Some (l', r) ∧ l = p ++ l'.
Proof. destruct o as [[l' r']|]; simpl; [|done]. intros [= <- ->]. eauto. Qed.

Lemma scan_string_length s : ∀ raw r, scan_string s = Some (raw, r) → (length r < length s)%nat.
Proof.
  remember (length s) as n eqn:Hn. assert (length s ≤ n)%nat as Hle by lia. clear Hn.
  enough (∀ raw r, scan_string s = Some (raw, r) → (length r < length s)%nat) by (intros; apply H in H0; lia).
  revert s Hle. induction n as [|n IH]; intros s Hle raw r; [by destruct s; [|simpl in Hle; lia]|].
  destruct s as [|c s]; [done|]. cbn [scan_string]. simpl in Hle.
  repeat case_match; intros H'; simplify_eq/=; try lia;
    apply prepend_Some in H' as (? & H' & _); apply IH in H'; simpl in *; lia.
Qed.

Lemma take_digits_length s : ∀ d r, take_digits s = (d, r) → (length r ≤ length s)%nat.
Proof.
  induction s as [|c s IH]; simpl; intros d r; [by intros [= <- <-]|].
  destruct (is_digit c); [|by intros [= <- <-]].
  destruct (take_digits s) as [d' r'] eqn:E. intros [= <- <-]. specialize (IH _ _ eq_refl). lia.
Qed.
Lemma digits1_length s d r : digits1 s = Some (d, r) → (length r < length s)%nat.
Proof.
  unfold digits1. destruct s as [|c s]; [done|]. cbn [take_digits].
  destruct (is_digit c); [|done]. destruct (take_digits s) as [d' r'] eqn:E.
  intros [= <- <-]. apply take_digits_length in E. simpl. lia.
Qed.
Lemma scan_int_length s i r : scan_int s = Some (i, r) → (length r < length s)%nat.
Proof.
  unfold scan_int. intros H. repeat case_match; simplify_eq/=;
    try (by apply digits1_length in H); simpl; lia.
Qed.
Lemma scan_frac_length s i r : scan_frac s = Some (i, r) → (length r ≤ length s)%nat.
Proof.
  unfold scan_frac. intros H. repeat case_match; simplify_eq/=; try lia.
  apply prepend_Some in H as (? & H & _). apply digits1_length in H. lia.
Qed.
Lemma scan_exp_length s i r : scan_exp s = Some (i, r) → (length r ≤ length s)%nat.
Proof.
  unfold scan_exp. intros H. repeat case_match; simplify_eq/=; try lia;
    apply prepend_Some in H as (? & H & _); apply digits1_length in H; simpl in *; lia.
Qed.
Lemma scan_number_length s i r : scan_number s = Some (i, r) → (length r < length s)%nat.
Proof.
  unfold scan_number. intros H.
  destruct (match s with "-"%char :: r => (["-"%char], r) | _ => ([], s) end) as [sg r0] eqn:E0.
  assert (length r0 ≤ length s)%nat by (repeat case_match; simplify_eq/=; lia).
  destruct (scan_int r0) as [[i1 r1]|] eqn:E1; [|done]. simpl in H.
  destruct (scan_frac r1) as [[i2 r2]|] eqn:E2; [|done]. simpl in H.
  destruct (scan_exp r2) as [[i3 r3]|] eqn:E3; [|done]. simplify_eq/=.
  apply scan_int_length in E1. apply scan_frac_length in E2. apply scan_exp_length in E3. lia.
Qed.

Lemma parse_string_length s w r : parse_string s = Some (w, r) → (length r < length s)%nat.
Proof.
  unfold parse_string. destruct (scan_string s) as [[raw r']|] eqn:E; [|done].
  intros [= _ <-]. by apply scan_string_length in E.
Qed.
Lemma cut_prefix_length p s r : cut_prefix p s = Some r → p ≠ [] → (length r < length s)%nat.
Proof. intros ->%cut_prefix_Some Hp. rewrite length_app. destruct p; [done|simpl; lia]. Qed.

Ltac lengths :=
  repeat match goal with
  | H : skip_ws ?s = _ |- _ =>
      lazymatch goal with
      | _ : (length (skip_ws s) ≤ length s)%nat |- _ => fail
      | _ => pose proof (skip_ws_length s)
      end
  | H : parse_string _ = Some _ |- _ => apply parse_string_length in H
  | H : scan_number _ = Some _ |- _ => apply scan_number_length in H
  | H : cut_prefix _ _ = Some _ |- _ => apply cut_prefix_length in H; [|done]
  | H : prepend _ _ = Some _ |- _ => apply prepend_Some in H as (? & H & _)
  | H : mbind _ ?o = Some _ |- _ =>
      let E := fresh "E" in destruct o as [[??]|] eqn:E; [|discriminate H]; simpl in H
  end.

Lemma parse_consumes n :
  (∀ d s v r, parse_value n d s = Some (v, r) → (length r < length s)%nat) ∧
  (∀ d s l r, parse_items n d s = Some (l, r) → (length r < length s)%nat) ∧
  (∀ d s l r, parse_members n d s = Some (l, r) → (length r < length s)%nat).
Proof.
  induction n as [|n (IHv & IHi & IHm)]; [by split_and!|]. split_and!; intros d s v r H.
  - cbn [parse_value] in H.
    repeat (case_match; simplify_eq); lengths;
      repeat match goal with H : _ = skip_ws _ |- _ => symmetry in H end; lengths; simplify_eq/=;
      repeat match goal with H : skip_ws _ = _ |- _ => rewrite H in *; clear H end; simpl in *;
      repeat match goal with
      | H : parse_items _ _ _ = Some _ |- _ => apply IHi in H
      | H : parse_members _ _ _ = Some _ |- _ => apply IHm in H
      end; lia.
  - cbn [parse_items] in H. lengths. apply IHv in E.
    repeat (case_match; simplify_eq); lengths; simplify_eq;
      repeat match goal with H : skip_ws _ = _ |- _ => rewrite H in *; clear H end; simpl in *;
      repeat match goal with
      | H : parse_items _ _ _ = Some _ |- _ => apply IHi in H
      end; lia.
  - cbn [parse_members] in H. repeat (case_match; simplify_eq); lengths.
    repeat (case_match; simplify_eq); lengths; apply IHv in E0;
      repeat (case_match; simplify_eq); lengths; simplify_eq;
      repeat match goal with H : skip_ws _ = _ |- _ => rewrite H in *; clear H end; simpl in *;
      repeat match goal with
      | H : parse_members _ _ _ = Some _ |- _ => apply IHm in H
      end; lia.
Qed.

(** Beyond [fuel_for] more fuel changes nothing: the parser never runs out. *)
Lemma parse_fuel n : ∀ m,
  (∀ d s, (2 * length s + 1 ≤ n → 2 * length s + 1 ≤ m → parse_value n d s = parse_value m d s)%nat) ∧
  (∀ d s, (2 * length s + 2 ≤ n → 2 * length s + 2 ≤ m → parse_items n d s = parse_items m d s)%nat) ∧
  (∀ d s, (2 * length s + 2 ≤ n → 2 * length s + 2 ≤ m → parse_members n d s = parse_members m d s)%nat).
Proof.
  induction n as [|n IH]; intros m; [split_and!; intros; lia|].
  destruct m as [|m]; [split_and!; intros; lia|].
  specialize (IH m) as (IHv & IHi & IHm). split_and!; intros d s Hn Hm.
  - cbn [parse_value]. pose proof (skip_ws_length s).
    destruct (skip_ws s) as [|c s1] eqn:E; [done|]. cbn [length] in *.
    by rewrite (IHi (d - 1) s1), (IHm (d - 1) s1) by lia.
  - cbn [parse_items]. rewrite (IHv d s) by lia.
    destruct (parse_value m d s) as [[v r]|] eqn:E; [|done]. simpl.
    apply parse_consumes in E. pose proof (skip_ws_length r).
    destruct (skip_ws r) as [|c r'] eqn:E'; [done|]. simpl in *. by rewrite (IHi d r') by lia.
  - cbn [parse_members]. pose proof (skip_ws_length s).
    destruct (skip_ws s) as [|c s1] eqn:E; [done|]. cbn [length] in *.
    destruct (ord c =? 34); [|done].
    destruct (parse_string s1) as [[k r]|] eqn:Es; [|done]. simpl.
    apply parse_string_length in Es. pose proof (skip_ws_length r).
    destruct (skip_ws r) as [|c' r1] eqn:Er; [done|]. simpl in *.
    rewrite (IHv d r1) by lia.
    destruct (parse_value m d r1) as [[v r2]|] eqn:Ev; [|done]. simpl.
    apply parse_consumes in Ev. pose proof (skip_ws_length r2).
    destruct (skip_ws r2) as [|c2 r3] eqn:Er2; [done|]. simpl in *. by rewrite (IHm d r3) by lia.
Qed.

Lemma decode_value_fuel n s : (fuel_for s ≤ n)%nat → parse_value n max_depth s = decode_value s.
Proof. intros H. unfold decode_value, fuel_for in *. apply parse_fuel; lia. Qed.
