(* ===== verification/Canonical.v ===== *)
(** * core/canonical: the bytes a digest or a signature covers.

    A Go value to be serialised is its JSON tree before encoding: strings are
    the raw bytes, a struct is the object of its emitted fields in declaration
    order, and a map the object of its entries. [jcs.Transform] (github.com/gowebpki/jcs) is the parameter [JCS]. *)
From S2P Require Export JsonText Digest Dferr.
#[local] Open Scope Z_scope.

Definition MaxSafeInteger : Z := 2 ^ 53 - 1.
Definition errClass : Class := Usage.

Definition replacementForms : list gostring :=
  [encode_rune RuneError; bytes_of "\ufffd"; bytes_of "\uFFFD"].

Definition containsReplacement (raw : gostring) : bool :=
  existsb (λ form, contains_str form raw) replacementForms.

(** The path of the first string, in walking order, that is not UTF-8. A map's
    keys are looked at too; for a struct, whose names are ASCII, that says
    nothing. The path writes an entry of a map as a field. *)
Fixpoint findInvalidUTF8 (v : json) (path : gostring) : option gostring :=
  match v with
  | JStr s => if negb (utf8_valid s) then Some path else None
  | JArr l =>
      (fix items (i : Z) (l : list json) : option gostring :=
         match l with
         | [] => None
         | x :: l' =>
             match findInvalidUTF8 x (path ++ "[" ++ itoa i ++ "]") with
             | Some p => Some p
             | None => items (i + 1) l'
             end
         end) 0 l
  | JObj l =>
      (fix fields (l : list (gostring * json)) : option gostring :=
         match l with
         | [] => None
         | (name, x) :: l' =>
             if negb (utf8_valid name) then Some (path ++ "[key]")
             else match findInvalidUTF8 x (path ++ "." ++ name) with
             | Some p => Some p
             | None => fields l'
             end
         end) l
  | _ => None
  end.

Definition fieldLabel (path : gostring) : gostring :=
  match path with [] => "the value" | _ => trim_prefix "." path end.

Inductive canonical_error :=
| NotUTF8Field (label : gostring)
| NotUTF8Input
| UnsafeInteger (literal : gostring)
| JCSError (e : gostring).

Definition checkUTF8 (v : json) (raw : gostring) : option canonical_error :=
  if negb (containsReplacement raw) then None
  else match findInvalidUTF8 v "" with
       | Some field => Some (NotUTF8Field (fieldLabel field))
       | None => None
       end.

(** The number literals of a document in token order. *)
Fixpoint numbers (v : json) : list gostring :=
  match v with
  | JNum lit => [lit]
  | JArr l => foldr (λ x acc, numbers x ++ acc) [] l
  | JObj l => foldr (λ kv acc, numbers kv.2 ++ acc) [] l
  | _ => []
  end.

Definition checkNumber (lit : gostring) : option canonical_error :=
  if existsb (λ c, beq c "." || beq c "e" || beq c "E") lit then None
  else match parse_int64 lit with
       | Some i => if (MaxSafeInteger <? i) || (i <? - MaxSafeInteger) then Some (UnsafeInteger lit) else None
       | None => Some (UnsafeInteger lit)
       end.

(** On a document the scanner can read; any other is left to [jcs.Transform],
    which refuses it. *)
Definition checkNumbers (raw : gostring) : option canonical_error :=
  match json_parse raw with
  | Some v => first_err checkNumber (numbers v)
  | None => None
  end.

(** github.com/gowebpki/jcs. *)
Class JCS := { jcs_Transform : gostring → result gostring gostring }.

Definition Transform `{JCS} (raw : gostring) : result canonical_error gostring :=
  if negb (utf8_valid raw) then Err NotUTF8Input
  else match checkNumbers raw with
       | Some e => Err e
       | None => map_err JCSError (jcs_Transform raw)
       end.

Definition Marshal `{JCS} (v : json) : result canonical_error gostring :=
  let raw := json_marshal v in
  match checkUTF8 v raw with
  | Some e => Err e
  | None => Transform raw
  end.

Definition MarshalIndent (v : json) : result canonical_error gostring :=
  let out := json_marshal_indent v in
  match checkUTF8 v out with
  | Some e => Err e
  | None =>
      match checkNumbers out with
      | Some e => Err e
      | None => Ok (out ++ [newline])
      end
  end.

Definition DigestBytes (b : gostring) : gostring := hex_encode (Sha256.sum b).
Definition Digest `{JCS} (v : json) : result canonical_error gostring := DigestBytes <$> Marshal v.

(** ** The UTF-8 check *)

(** The document of a Go value: integers in decimal, ASCII field names. *)
Fixpoint go_value (v : json) : Prop :=
  match v with
  | JNum lit => ∃ n, min_int64 ≤ n ≤ max_int64 ∧ lit = itoa n
  | JArr l => foldr (λ x P, go_value x ∧ P) True l
  | JObj l => foldr (λ kv P, utf8_valid kv.1 = true ∧ go_value kv.2 ∧ P) True l
  | _ => True
  end.

(** Every string is UTF-8, names included. *)
Fixpoint strings_valid (v : json) : Prop :=
  match v with
  | JStr s => utf8_valid s = true
  | JArr l => foldr (λ x P, strings_valid x ∧ P) True l
  | JObj l => foldr (λ kv P, utf8_valid kv.1 = true ∧ strings_valid kv.2 ∧ P) True l
  | _ => True
  end.

Lemma findInvalidUTF8_None v : ∀ path, findInvalidUTF8 v path = None ↔ strings_valid v.
Proof.
  induction v as [|b|lit|s|l IH|l IH] using json_full_ind; intros path; try done; cbn [findInvalidUTF8 strings_valid].
  - by destruct (utf8_valid s).
  - generalize 0. induction l as [|x l IHl]; intros i; cbn [foldr]; [done|].
    rewrite <- (IH x (or_introl eq_refl) (path ++ "[" ++ itoa i ++ "]")),
      <- (IHl (λ v Hv, IH v (or_intror Hv)) (i + 1)).
    destruct (findInvalidUTF8 x _); naive_solver.
  - induction l as [|[k x] l IHl]; cbn [foldr fst]; [done|].
    rewrite <- (IH (k, x) (or_introl eq_refl) (path ++ "." ++ k)), <- (IHl (λ v Hv, IH v (or_intror Hv))).
    cbn [snd]. destruct (utf8_valid k); cbn [negb]; [|naive_solver]. destruct (findInvalidUTF8 x _); naive_solver.
Qed.

Lemma go_value_json_ok v : go_value v → strings_valid v → json_ok v.
Proof.
  induction v as [|b|lit|s|l IH|l IH] using json_full_ind; try done; cbn [go_value strings_valid json_ok].
  - intros (n & _ & ->) _. by exists n.
  - intros Hg Hs. induction l as [|x l IHl]; [done|].
    destruct Hg, Hs. split; [by apply IH; [left|..]|]. apply IHl; try done. intros v Hv. apply IH. by right.
  - intros Hg Hs. induction l as [|[k x] l IHl]; [done|].
    destruct Hg as (? & ? & ?), Hs as (? & ? & ?). split_and!; [done|by apply (IH (k, x)); [left|..]|].
    apply IHl; try done. intros v Hv. apply IH. by right.
Qed.

Definition occurs (p s : gostring) : Prop := ∃ a b, s = a ++ p ++ b.

Lemma contains_str_spec p s : contains_str p s = true ↔ occurs p s.
Proof.
  unfold occurs. induction s as [|c s IH]; cbn [contains_str].
  - rewrite orb_false_r, has_prefix_spec. split.
    + intros [r Hr]. exists [], r. done.
    + intros (a & b & H). destruct a; [|done]. by exists b.
  - rewrite orb_true_iff, has_prefix_spec, IH. split.
    + intros [[r ->]|(a & b & ->)]; [by exists [], r|by exists (c :: a), b].
    + intros ([|c' a] & b & H); simplify_eq/=; [left; by exists b|right; by exists a, b].
Qed.

Lemma occurs_app p s a b : occurs p s → occurs p (a ++ s ++ b).
Proof. intros (x & y & ->). exists (a ++ x), (y ++ b). by rewrite <- !app_assoc. Qed.

Lemma occurs_join p x l sep : occurs p x → x ∈ l → occurs p (join sep l).
Proof.
  intros Hp. induction l as [|y [|z l] IH]; intros Hx; [by apply elem_of_nil in Hx|..].
  - apply list_elem_of_singleton in Hx as ->. done.
  - rewrite join_cons. apply elem_of_cons in Hx as [->|Hx].
    + by apply (occurs_app p y []).
    + rewrite app_assoc, <- (app_nil_r (join _ _)). apply occurs_app. auto.
Qed.

Lemma occurs_cons p c s : occurs p s → occurs p (c :: s).
Proof. intros H. apply (occurs_app p s [c] []) in H. by rewrite app_nil_r in H. Qed.

(** An undecodable string leaves the escape of U+FFFD in the text. *)
Lemma escape_invalid s : utf8_valid s = false → occurs "\ufffd" (escape s).
Proof.
  unfold utf8_valid, escape. intros H. apply not_true_iff_false in H.
  induction (decode s) as [|[r w] l IH]; simpl in H; [done|]. cbn [map concat].
  destruct (valid_rune (r, w)) eqn:Hv.
  - rewrite <- (app_nil_r (concat _)). apply occurs_app. apply IH. by rewrite andb_true_l in H.
  - exists [], (concat (map escape_chunk l)). cbn [app]. f_equal. unfold escape_chunk.
    unfold valid_rune in Hv. apply negb_false_iff in Hv. bsplit. simpl in *. subst.
    unfold valid_rune. simpl. by rewrite H1.
Qed.

Lemma render_invalid nl colon v : ∀ d, ¬ strings_valid v → occurs "\ufffd" (render nl colon d v).
Proof.
  induction v as [|b|lit|s|l IH|l IH] using json_full_ind; intros d Hv; try (by destruct Hv).
  - cbn [strings_valid] in Hv. apply not_true_iff_false in Hv.
    cbn [render]. unfold quote. apply occurs_cons, (occurs_app _ _ []). by apply escape_invalid.
  - assert (∃ x, In x l ∧ ¬ strings_valid x) as (x & Hx & Hxv).
    { cbn [strings_valid] in Hv. clear IH. induction l as [|x l IHl]; [by destruct Hv|].
      cbn [foldr] in Hv. destruct (findInvalidUTF8 x "") eqn:E.
      - exists x. split; [by left|]. rewrite <- (findInvalidUTF8_None x ""). by rewrite E.
      - apply findInvalidUTF8_None in E. destruct IHl as (y & Hy & Hyv); [naive_solver|].
        exists y. split; [by right|done]. }
    destruct l as [|y l]; [done|]. cbn [render]. apply occurs_cons, occurs_app.
    apply (occurs_join _ (render nl colon (S d) x)); [by apply IH|].
    by apply list_elem_of_fmap_2, list_elem_of_In.
  - assert (∃ kv, In kv l ∧ (utf8_valid kv.1 = false ∨ ¬ strings_valid kv.2)) as (x & Hx & Hxv).
    { cbn [strings_valid] in Hv. clear IH. induction l as [|x l IHl]; [by destruct Hv|].
      cbn [foldr] in Hv. destruct (utf8_valid x.1) eqn:Ek; [|exists x; split; [by left|by left]]. destruct (findInvalidUTF8 x.2 "") eqn:E.
      - exists x. split; [by left|right]. rewrite <- (findInvalidUTF8_None x.2 ""). by rewrite E.
      - apply findInvalidUTF8_None in E. destruct IHl as (y & Hy & Hyv); [naive_solver|].
        exists y. split; [by right|done]. }
    destruct l as [|y l]; [done|]. cbn [render]. apply occurs_cons, occurs_app.
    apply (occurs_join _ (quote x.1 ++ colon ++ render nl colon (S d) x.2)).
    + destruct Hxv as [Hk|Hxv].
      * apply (occurs_app _ _ []). unfold quote. apply occurs_cons, (occurs_app _ _ []). by apply escape_invalid.
      * rewrite app_assoc, <- (app_nil_r (render _ _ _ _)). apply occurs_app. by apply IH.
    + apply list_elem_of_In in Hx. by apply (list_elem_of_fmap_2 (λ kv, quote kv.1 ++ colon ++ render nl colon (S d) kv.2)).
Qed.

(** The shortcut through the encoder's output loses no undecodable string. *)
Lemma checkUTF8_None nl colon v : checkUTF8 v (render nl colon 0 v) = None ↔ strings_valid v.
Proof.
  unfold checkUTF8. rewrite <- (findInvalidUTF8_None v "").
  destruct (containsReplacement _) eqn:E; simpl; [destruct (findInvalidUTF8 v ""); naive_solver|].
  split; [|done]. intros _. apply findInvalidUTF8_None.
  destruct (findInvalidUTF8 v "") eqn:E'; [|by apply (findInvalidUTF8_None v "")].
  exfalso. assert (occurs "\ufffd" (render nl colon 0 v)) as H.
  { apply render_invalid. rewrite <- (findInvalidUTF8_None v ""). by rewrite E'. }
  apply contains_str_spec in H. unfold containsReplacement in E. cbn [existsb replacementForms] in E.
  rewrite H in E. by rewrite !orb_true_r in E.
Qed.

(** ** The representability rule *)

Definition safe_integer (n : Z) : Prop := - MaxSafeInteger ≤ n ≤ MaxSafeInteger.
(** What the transform carries through unchanged. *)
Definition representable (v : json) : Prop :=
  strings_valid v ∧ ∀ n, itoa n ∈ numbers v → safe_integer n.

Lemma itoa_chars n : existsb (λ c, beq c "." || beq c "e" || beq c "E") (itoa n) = false.
Proof.
  assert (∀ s, forallb is_digit s = true → existsb (λ c, beq c "." || beq c "e" || beq c "E") s = false) as Hd.
  { induction s as [|c s IH]; [done|]. simpl. intros [Hc Hs]%andb_true_iff. rewrite IH by done.
    destruct c as [[] [] [] [] [] [] [] []]; by vm_compute in Hc. }
  unfold itoa. destruct (Z.ltb_spec n 0).
  - simpl. apply Hd, udigits_spec. lia.
  - apply Hd, udigits_spec. lia.
Qed.

Lemma checkNumber_itoa n : min_int64 ≤ n ≤ max_int64 → checkNumber (itoa n) = None ↔ safe_integer n.
Proof.
  intros Hn. unfold checkNumber, safe_integer. rewrite itoa_chars, parse_itoa by done.
  destruct (Z.ltb_spec MaxSafeInteger n), (Z.ltb_spec n (- MaxSafeInteger)); simpl; split; (done || lia).
Qed.

Lemma go_value_numbers v lit : go_value v → lit ∈ numbers v → ∃ n, min_int64 ≤ n ≤ max_int64 ∧ lit = itoa n.
Proof.
  induction v as [|b|lit'|s|l IH|l IH] using json_full_ind; cbn [go_value numbers]; try (by intros _ ?%elem_of_nil).
  - by intros H ->%list_elem_of_singleton.
  - intros Hg Hin. induction l as [|x l IHl]; [by apply elem_of_nil in Hin|].
    destruct Hg as [Hx Hl]. cbn [foldr] in Hin. apply elem_of_app in Hin as [Hin|Hin].
    + apply IH in Hin; [done|by left|done].
    + apply IHl in Hin; [done| |done]. intros v Hv. apply IH. by right.
  - intros Hg Hin. induction l as [|x l IHl]; [by apply elem_of_nil in Hin|].
    destruct Hg as (_ & Hx & Hl). cbn [foldr] in Hin. apply elem_of_app in Hin as [Hin|Hin].
    + apply IH in Hin; [done|by left|done].
    + apply IHl in Hin; [done| |done]. intros v Hv. apply IH. by right.
Qed.

Lemma numbers_safe v : go_value v →
  first_err checkNumber (numbers v) = None ↔ ∀ n, itoa n ∈ numbers v → safe_integer n.
Proof.
  intros Hg. rewrite first_err_None. split.
  - intros H n Hn. destruct (go_value_numbers v _ Hg Hn) as (m & Hm & E).
    specialize (H _ Hn). rewrite E in H. apply checkNumber_itoa in H; [|done].
    apply itoa_inj in E as ->. done.
  - intros H lit Hl. destruct (go_value_numbers v _ Hg Hl) as (n & Hn & ->).
    apply checkNumber_itoa; auto.
Qed.

Lemma MarshalIndent_parse v out :
  go_value v → Z.of_nat (json_depth v) ≤ max_depth → MarshalIndent v = Ok out → json_parse out = Some v.
Proof.
  unfold MarshalIndent. intros Hg Hd H. pose proof (checkUTF8_None indent ": " v) as Hi.
  fold (json_marshal_indent v) in Hi. destruct (checkUTF8 v (json_marshal_indent v)); [done|].
  assert (json_ok v) as Hok by (apply go_value_json_ok; naive_solver).
  destruct (checkNumbers _); [done|]. injection H as <-. by apply parse_marshal_indent.
Qed.

(** Documents built from structs and slices. *)
Definition small_value (n : nat) (v : json) : Prop := go_value v ∧ (json_depth v ≤ n)%nat.

Lemma small_obj n l :
  (∀ k v, (k, v) ∈ l → utf8_valid k = true ∧ small_value n v) → small_value (S n) (JObj l).
Proof.
  intros H. unfold small_value. cbn [go_value json_depth].
  induction l as [|[k v] l IH]; cbn [foldr]; [split; [done|lia]|].
  destruct (H k v) as (Hk & Hg & Hd); [by left|]. destruct IH as [IH1 IH2]; [intros k' v' Hin; apply H; by right|].
  cbn [fst snd]. split; [done|lia].
Qed.
Lemma small_arr n l : (∀ v, v ∈ l → small_value n v) → small_value (S n) (JArr l).
Proof.
  intros H. unfold small_value. cbn [go_value json_depth].
  induction l as [|v l IH]; cbn [foldr]; [split; [done|lia]|].
  destruct (H v) as (Hg & Hd); [by left|]. destruct IH as [IH1 IH2]; [intros v' Hin; apply H; by right|].
  split; [done|lia].
Qed.
Lemma small_struct n fs :
  Forall (λ ko, ∀ v, snd ko = Some v → utf8_valid (fst ko) = true ∧ small_value n v) fs →
  small_value (S n) (enc_struct fs).
Proof. intros H. apply small_obj. by apply (present_Forall (λ k v, utf8_valid k = true ∧ small_value n v)). Qed.

Lemma small_string n s v : enc_string s = Some v ∨ omit_string s = Some v → small_value n v.
Proof. unfold enc_string, omit_string. destruct s; intros [H|H]; simplify_eq; (split; [done|simpl; lia]). Qed.
Lemma small_bool n b v : enc_bool b = Some v ∨ omit_bool b = Some v → small_value n v.
Proof. unfold enc_bool, omit_bool. destruct b; intros [H|H]; simplify_eq; (split; [done|simpl; lia]). Qed.
Lemma small_int n k v : min_int64 ≤ k ≤ max_int64 → enc_int k = Some v → small_value n v.
Proof. intros Hk [= <-]. split; [by exists k|simpl; lia]. Qed.
Lemma small_slice {A} n (e : A → json) l v :
  enc_slice e l = Some v ∨ omit_slice e l = Some v → (∀ x, x ∈ l → small_value n (e x)) → small_value (S n) v.
Proof.
  intros H Hl. assert (v = JArr (map e l)) as -> by (unfold enc_slice, omit_slice in H; destruct l; destruct H as [H|H]; by simplify_eq).
  apply small_arr. intros w (x & -> & Hx)%list_elem_of_fmap. auto.
Qed.
Lemma small_strings n l v : enc_slice JStr l = Some v ∨ omit_slice JStr l = Some v → small_value (S n) v.
Proof. intros H. apply (small_slice n JStr l v H). intros x _. split; [done|simpl; lia]. Qed.

(** One goal per field of an encoded struct. *)
Ltac each_field tac :=
  repeat (apply Forall_cons; split; [cbn [fst snd]; intros v Hv; tac|]); apply Forall_nil; exact I.
Ltac small_leaf :=
  split; [reflexivity|];
  match goal with
  | H : enc_string _ = Some _ |- _ => eapply small_string; left; exact H
  | H : omit_string _ = Some _ |- _ => eapply small_string; right; exact H
  | H : enc_bool _ = Some _ |- _ => eapply small_bool; left; exact H
  | H : omit_bool _ = Some _ |- _ => eapply small_bool; right; exact H
  | H : enc_slice JStr _ = Some _ |- _ => eapply small_strings; left; exact H
  | H : omit_slice JStr _ = Some _ |- _ => eapply small_strings; right; exact H
  | H : enc_int _ = Some _ |- _ => eapply small_int; [|exact H]; assumption
  end.
Ltac small_leaves := apply small_struct; each_field small_leaf.

(** The indented serialisation refuses exactly the documents it could not
    carry unchanged (a string that is not UTF-8 in any position, an integer
    outside the 53-bit range), and what it does write reads back as the same
    document, so two different documents never share their bytes. The bytes
    [Marshal] hands to the canonicaliser obey the same rule. *)
Theorem Marshal_representable `{JCS} (v : json) :
  go_value v → Z.of_nat (json_depth v) ≤ max_depth →
  (is_ok (MarshalIndent v) = true ↔ representable v) ∧
  (∀ out, MarshalIndent v = Ok out → json_parse out = Some v) ∧
  (is_ok (Marshal v) = true → representable v).
Proof.
  intros Hg Hd. unfold MarshalIndent, Marshal, Transform, representable, checkNumbers.
  rewrite <- (numbers_safe v Hg).
  pose proof (checkUTF8_None indent ": " v) as Hi. pose proof (checkUTF8_None (λ _, []) ":" v) as Hc.
  fold (json_marshal_indent v) in Hi. fold (json_marshal v) in Hc.
  split_and!.
  - destruct (checkUTF8 v (json_marshal_indent v)); [naive_solver|].
    assert (json_ok v) as Hok by (apply go_value_json_ok; naive_solver).
    rewrite parse_json_marshal_indent by done.
    destruct (first_err _ _); naive_solver.
  - intros out. by apply MarshalIndent_parse.
  - destruct (checkUTF8 v (json_marshal v)); [naive_solver|].
    assert (json_ok v) as Hok by (apply go_value_json_ok; naive_solver).
    rewrite parse_marshal by done.
    destruct (negb _); [done|]. destruct (first_err _ _); naive_solver.
Qed.

Lemma Marshal_representable_witness :
  let jcs := {| jcs_Transform := λ raw, Ok raw |} in
  let v := JObj [(bytes_of "path", JStr "a<b"); (bytes_of "size", JNum (itoa 12))] in
  go_value v ∧ Z.of_nat (json_depth v) ≤ max_depth ∧
  (is_ok (MarshalIndent v) = true ↔ representable v).
Proof.
  intros jcs v.
  assert (go_value v) as Hg by (simpl; split_and!; try done; by exists 12).
  assert (Z.of_nat (json_depth v) ≤ max_depth) as Hd by (by vm_compute).
  exact (conj Hg (conj Hd (proj1 (@Marshal_representable jcs v Hg Hd)))).
Defined.
