(* ===== verification/LockTypes.v ===== *)
(** * core/lock/types.go: the lock document and its JSON form. *)
From S2P Require Export JsonText.
#[local] Open Scope Z_scope.

Definition SchemaVersion : gostring := "debark.lock/v1".
Definition FileName : gostring := "lock.json".

Record Target := mkTarget {
  t_DistroID : gostring; t_VersionID : gostring; t_Codename : gostring; t_Arch : gostring;
  t_ForeignArchs : list gostring; t_APTVersion : gostring; t_DpkgVersion : gostring
}.
Record Resolver := mkResolver {
  r_Backend : gostring; r_Image : gostring; r_ImageDigest : gostring;
  r_APTVersion : gostring; r_DpkgVersion : gostring; r_APTOptions : list gostring;
  r_PhasedUpdates : gostring; r_InstallRecommends : bool; r_SolverDivergence : gostring
}.
Record Origin := mkOrigin {
  o_URI : gostring; o_LocalPath : gostring; o_Suite : gostring; o_Component : gostring;
  o_ReleaseDigest : gostring; o_KeyFingerprint : gostring
}.
Record Package := mkPackage {
  p_Name : gostring; p_Arch : gostring; p_Version : gostring; p_SourcePackage : gostring;
  p_Filename : gostring; p_Size : Z; p_SHA256 : gostring; p_Origin : Origin; p_Reason : gostring;
  p_PublisherVerification : gostring; p_Flags : list gostring; p_Essential : bool
}.
Record ClosedWorld := mkClosedWorld {
  cw_Result : gostring; cw_CommandDigest : gostring; cw_OutputDigest : gostring; cw_Detail : gostring
}.
Record Warning := mkWarning { w_Code : gostring; w_Message : gostring; w_Packages : list gostring }.
Record Unresolved := mkUnresolved {
  u_Input : gostring; u_Kind : gostring; u_Detail : gostring; u_Missing : list gostring
}.
Record Stats := mkStats {
  s_Added : Z; s_Removed : Z; s_Unchanged : Z; s_Bytes : Z; s_DownloadedBytes : Z
}.
Record Lock := mkLock {
  l_SchemaVersion : gostring; l_CreatedAt : gostring; l_SnapshotDigest : gostring;
  l_RequestDigest : gostring; l_Target : Target; l_Resolver : Resolver; l_Packages : list Package;
  l_Install : list gostring; l_ClosedWorld : ClosedWorld; l_Warnings : list Warning;
  l_Unresolved : list Unresolved; l_Stats : Stats
}.

#[export] Instance Origin_eq_dec : EqDecision Origin.
Proof. solve_decision. Defined.
#[export] Instance Package_eq_dec : EqDecision Package.
Proof. solve_decision. Defined.

(** The enumerations that are strings in the source. *)
Definition BackendLocal : gostring := "local".
Definition BackendContainer : gostring := "container".
Definition BackendAuto : gostring := "auto".
Definition ReasonRequested : gostring := "requested".
Definition ReasonUpgrade : gostring := "upgrade".
Definition ReasonExternal : gostring := "external".
Definition ReasonDependencyOfPrefix : gostring := "dependency-of:".
Definition VerifiedAPTSigned : gostring := "apt-signed".
Definition VerifiedURLUnverified : gostring := "url-unverified".
Definition VerifiedUserDigest : gostring := "user-digest".
Definition VerifiedUserSignature : gostring := "user-signature".
Definition ClosedWorldOK : gostring := "ok".
Definition ClosedWorldFailed : gostring := "failed".
Definition ClosedWorldSkipped : gostring := "skipped".

(** ** [json.Marshal] by the struct tags *)

Definition enc_Target (t : Target) : json := enc_struct [
  (bytes_of "distro_id", enc_string (t_DistroID t)); (bytes_of "version_id", enc_string (t_VersionID t));
  (bytes_of "codename", enc_string (t_Codename t)); (bytes_of "arch", enc_string (t_Arch t));
  (bytes_of "foreign_archs", omit_slice JStr (t_ForeignArchs t));
  (bytes_of "apt_version", omit_string (t_APTVersion t)); (bytes_of "dpkg_version", omit_string (t_DpkgVersion t))].

Definition enc_Resolver (r : Resolver) : json := enc_struct [
  (bytes_of "backend", enc_string (r_Backend r)); (bytes_of "image", omit_string (r_Image r));
  (bytes_of "image_digest", omit_string (r_ImageDigest r));
  (bytes_of "apt_version", enc_string (r_APTVersion r)); (bytes_of "dpkg_version", enc_string (r_DpkgVersion r));
  (bytes_of "apt_options", omit_slice JStr (r_APTOptions r));
  (bytes_of "phased_updates", enc_string (r_PhasedUpdates r));
  (bytes_of "install_recommends", enc_bool (r_InstallRecommends r));
  (bytes_of "solver_divergence", omit_string (r_SolverDivergence r))].

Definition enc_Origin (o : Origin) : json := enc_struct [
  (bytes_of "uri", omit_string (o_URI o)); (bytes_of "local_path", omit_string (o_LocalPath o));
  (bytes_of "suite", omit_string (o_Suite o)); (bytes_of "component", omit_string (o_Component o));
  (bytes_of "release_digest", omit_string (o_ReleaseDigest o));
  (bytes_of "key_fingerprint", omit_string (o_KeyFingerprint o))].

Definition enc_Package (p : Package) : json := enc_struct [
  (bytes_of "name", enc_string (p_Name p)); (bytes_of "arch", enc_string (p_Arch p));
  (bytes_of "version", enc_string (p_Version p)); (bytes_of "source_package", omit_string (p_SourcePackage p));
  (bytes_of "filename", enc_string (p_Filename p)); (bytes_of "size", enc_int (p_Size p));
  (bytes_of "sha256", enc_string (p_SHA256 p)); (bytes_of "origin", Some (enc_Origin (p_Origin p)));
  (bytes_of "reason", enc_string (p_Reason p));
  (bytes_of "publisher_verification", enc_string (p_PublisherVerification p));
  (bytes_of "flags", omit_slice JStr (p_Flags p)); (bytes_of "essential", omit_bool (p_Essential p))].

Definition enc_ClosedWorld (c : ClosedWorld) : json := enc_struct [
  (bytes_of "result", enc_string (cw_Result c)); (bytes_of "command_digest", omit_string (cw_CommandDigest c));
  (bytes_of "output_digest", omit_string (cw_OutputDigest c)); (bytes_of "detail", omit_string (cw_Detail c))].

Definition enc_Warning (w : Warning) : json := enc_struct [
  (bytes_of "code", enc_string (w_Code w)); (bytes_of "message", enc_string (w_Message w));
  (bytes_of "packages", omit_slice JStr (w_Packages w))].

Definition enc_Unresolved (u : Unresolved) : json := enc_struct [
  (bytes_of "input", enc_string (u_Input u)); (bytes_of "kind", enc_string (u_Kind u));
  (bytes_of "detail", omit_string (u_Detail u)); (bytes_of "missing", omit_slice JStr (u_Missing u))].

Definition enc_Stats (s : Stats) : json := enc_struct [
  (bytes_of "added", enc_int (s_Added s)); (bytes_of "removed", enc_int (s_Removed s));
  (bytes_of "unchanged", enc_int (s_Unchanged s)); (bytes_of "bytes", enc_int (s_Bytes s));
  (bytes_of "downloaded_bytes", enc_int (s_DownloadedBytes s))].

Definition enc_Lock (l : Lock) : json := enc_struct [
  (bytes_of "schema_version", enc_string (l_SchemaVersion l)); (bytes_of "created_at", enc_string (l_CreatedAt l));
  (bytes_of "snapshot_digest", enc_string (l_SnapshotDigest l));
  (bytes_of "request_digest", enc_string (l_RequestDigest l));
  (bytes_of "target", Some (enc_Target (l_Target l))); (bytes_of "resolver", Some (enc_Resolver (l_Resolver l)));
  (bytes_of "packages", enc_slice enc_Package (l_Packages l)); (bytes_of "install", enc_slice JStr (l_Install l));
  (bytes_of "closed_world_check", Some (enc_ClosedWorld (l_ClosedWorld l)));
  (bytes_of "warnings", omit_slice enc_Warning (l_Warnings l));
  (bytes_of "unresolved", omit_slice enc_Unresolved (l_Unresolved l));
  (bytes_of "stats", Some (enc_Stats (l_Stats l)))].

(** ** [json.Unmarshal] into the zero value *)

Definition dec_Target : dec Target := dec_struct (λ m,
  a ← dec_string (member "distro_id" m); b ← dec_string (member "version_id" m);
  c ← dec_string (member "codename" m); d ← dec_string (member "arch" m);
  e ← dec_slice dec_string (member "foreign_archs" m);
  f ← dec_string (member "apt_version" m); g ← dec_string (member "dpkg_version" m);
  Ok (mkTarget a b c d e f g)).

Definition dec_Resolver : dec Resolver := dec_struct (λ m,
  a ← dec_string (member "backend" m); b ← dec_string (member "image" m);
  c ← dec_string (member "image_digest" m); d ← dec_string (member "apt_version" m);
  e ← dec_string (member "dpkg_version" m); f ← dec_slice dec_string (member "apt_options" m);
  g ← dec_string (member "phased_updates" m); h ← dec_bool (member "install_recommends" m);
  i ← dec_string (member "solver_divergence" m);
  Ok (mkResolver a b c d e f g h i)).

Definition dec_Origin : dec Origin := dec_struct (λ m,
  a ← dec_string (member "uri" m); b ← dec_string (member "local_path" m); c ← dec_string (member "suite" m);
  d ← dec_string (member "component" m); e ← dec_string (member "release_digest" m);
  f ← dec_string (member "key_fingerprint" m);
  Ok (mkOrigin a b c d e f)).

Definition dec_Package : dec Package := dec_struct (λ m,
  a ← dec_string (member "name" m); b ← dec_string (member "arch" m); c ← dec_string (member "version" m);
  d ← dec_string (member "source_package" m); e ← dec_string (member "filename" m);
  f ← dec_int64 (member "size" m); g ← dec_string (member "sha256" m); h ← dec_Origin (member "origin" m);
  i ← dec_string (member "reason" m); j ← dec_string (member "publisher_verification" m);
  k ← dec_slice dec_string (member "flags" m); l ← dec_bool (member "essential" m);
  Ok (mkPackage a b c d e f g h i j k l)).

Definition dec_ClosedWorld : dec ClosedWorld := dec_struct (λ m,
  a ← dec_string (member "result" m); b ← dec_string (member "command_digest" m);
  c ← dec_string (member "output_digest" m); d ← dec_string (member "detail" m);
  Ok (mkClosedWorld a b c d)).

Definition dec_Warning : dec Warning := dec_struct (λ m,
  a ← dec_string (member "code" m); b ← dec_string (member "message" m);
  c ← dec_slice dec_string (member "packages" m); Ok (mkWarning a b c)).

Definition dec_Unresolved : dec Unresolved := dec_struct (λ m,
  a ← dec_string (member "input" m); b ← dec_string (member "kind" m);
  c ← dec_string (member "detail" m); d ← dec_slice dec_string (member "missing" m);
  Ok (mkUnresolved a b c d)).

Definition dec_Stats : dec Stats := dec_struct (λ m,
  a ← dec_int64 (member "added" m); b ← dec_int64 (member "removed" m); c ← dec_int64 (member "unchanged" m);
  d ← dec_int64 (member "bytes" m); e ← dec_int64 (member "downloaded_bytes" m);
  Ok (mkStats a b c d e)).

Definition dec_Lock : dec Lock := dec_struct (λ m,
  a ← dec_string (member "schema_version" m); b ← dec_string (member "created_at" m);
  c ← dec_string (member "snapshot_digest" m); d ← dec_string (member "request_digest" m);
  e ← dec_Target (member "target" m); f ← dec_Resolver (member "resolver" m);
  g ← dec_slice dec_Package (member "packages" m); h ← dec_slice dec_string (member "install" m);
  i ← dec_ClosedWorld (member "closed_world_check" m); j ← dec_slice dec_Warning (member "warnings" m);
  k ← dec_slice dec_Unresolved (member "unresolved" m); l ← dec_Stats (member "stats" m);
  Ok (mkLock a b c d e f g h i j k l)).

(** ** Round trips *)

Definition Stats_int64 (s : Stats) : Prop :=
  int64 (s_Added s) ∧ int64 (s_Removed s) ∧ int64 (s_Unchanged s) ∧ int64 (s_Bytes s) ∧ int64 (s_DownloadedBytes s).
(** The integer fields hold 64-bit values, as every Go value does. *)
Definition Lock_int64 (l : Lock) : Prop :=
  Forall (λ p, int64 (p_Size p)) (l_Packages l) ∧ Stats_int64 (l_Stats l).

(** Every field of an encoded struct decodes to itself. *)
Ltac json_values :=
  repeat first
    [ rewrite dec_enc_string | rewrite dec_omit_string | rewrite dec_enc_bool | rewrite dec_omit_bool
    | rewrite dec_enc_strings | rewrite dec_omit_strings | rewrite dec_enc_int by done ].

Lemma dec_enc_Target t : dec_Target (Some (enc_Target t)) = Ok t.
Proof. unfold dec_Target, enc_Target, enc_struct, dec_struct. json_fields. json_values. by destruct t. Qed.
Lemma dec_enc_Resolver r : dec_Resolver (Some (enc_Resolver r)) = Ok r.
Proof. unfold dec_Resolver, enc_Resolver, enc_struct, dec_struct. json_fields. json_values. by destruct r. Qed.
Lemma dec_enc_Origin o : dec_Origin (Some (enc_Origin o)) = Ok o.
Proof. unfold dec_Origin, enc_Origin, enc_struct, dec_struct. json_fields. json_values. by destruct o. Qed.
Lemma dec_enc_Package p : int64 (p_Size p) → dec_Package (Some (enc_Package p)) = Ok p.
Proof.
  intros H. unfold dec_Package, enc_Package, enc_struct, dec_struct. json_fields.
  rewrite dec_enc_Origin. json_values. by destruct p.
Qed.
Lemma dec_enc_ClosedWorld c : dec_ClosedWorld (Some (enc_ClosedWorld c)) = Ok c.
Proof. unfold dec_ClosedWorld, enc_ClosedWorld, enc_struct, dec_struct. json_fields. json_values. by destruct c. Qed.
Lemma dec_enc_Warning w : dec_Warning (Some (enc_Warning w)) = Ok w.
Proof. unfold dec_Warning, enc_Warning, enc_struct, dec_struct. json_fields. json_values. by destruct w. Qed.
Lemma dec_enc_Unresolved u : dec_Unresolved (Some (enc_Unresolved u)) = Ok u.
Proof. unfold dec_Unresolved, enc_Unresolved, enc_struct, dec_struct. json_fields. json_values. by destruct u. Qed.
Lemma dec_enc_Stats s : Stats_int64 s → dec_Stats (Some (enc_Stats s)) = Ok s.
Proof.
  intros (?&?&?&?&?). unfold dec_Stats, enc_Stats, enc_struct, dec_struct. json_fields. json_values. by destruct s.
Qed.

(** Decoding what the encoder wrote gives the same lock. *)
Lemma dec_enc_Lock l : Lock_int64 l → dec_Lock (Some (enc_Lock l)) = Ok l.
Proof.
  intros [Hp Hs]. unfold dec_Lock, enc_Lock, enc_struct, dec_struct. json_fields.
  rewrite dec_enc_Target, dec_enc_Resolver, dec_enc_ClosedWorld, dec_enc_Stats by done.
  rewrite (dec_enc_slice dec_Package) by (eapply Forall_impl; [exact Hp|intros; by apply dec_enc_Package]).
  rewrite (dec_omit_slice dec_Warning) by (apply Forall_true; apply dec_enc_Warning).
  rewrite (dec_omit_slice dec_Unresolved) by (apply Forall_true; apply dec_enc_Unresolved).
  json_values. by destruct l.
Qed.
