(* ===== verification/Lock.v ===== *)
(** * core/lock: load-time safety, document shape, validation and the install set
    (validate.go and api.go). *)
From S2P Require Export GoPath LockTypes Canonical.
#[local] Open Scope Z_scope.

(** ** Filenames *)

Inductive filename_error :=
| FilenameEmpty | FilenameNUL | FilenameBackslash | FilenameAbsolute | FilenameDrive
| FilenameControl | FilenameEmptySegment | FilenameDotSegment (seg : gostring).

Definition control_rune (c : Z) : bool := (c <? 32) || (c =? 127).

Definition filename_segment (seg : gostring) : option filename_error :=
  if streq seg "" then Some FilenameEmptySegment
  else if streq seg "." || streq seg ".." then Some (FilenameDotSegment seg)
  else None.

Definition checkFilename (filename : gostring) : option filename_error :=
  if streq filename "" then Some FilenameEmpty
  else if contains_byte (chr 0) filename then Some FilenameNUL
  else if contains_byte "\" filename then Some FilenameBackslash
  else if has_prefix "/" filename then Some FilenameAbsolute
  else if drive_letter filename then Some FilenameDrive
  else if existsb control_rune (runes filename) then Some FilenameControl
  else first_err filename_segment (split slash filename).

(** ** What Load enforces *)

Inductive lock_error :=
| BadFilename (i : Z) (name : gostring) (e : filename_error)
| SharedFilename (prior name arch filename : gostring)
| EmptyName (i : Z)
| IllegalName (i : Z) (name : gostring)
| EmptyArch (i : Z) (name : gostring)
| MalformedArch (i : Z) (name arch : gostring)
| EmptyVersion (i : Z) (name : gostring)
| MalformedVersion (i : Z) (name version : gostring)
| NegativeSize (i : Z) (name : gostring) (size : Z)
| BadReason (i : Z) (name reason : gostring)
| BadPublisherVerification (i : Z) (name pv : gostring)
| BadSHA256 (name arch version sha256 : gostring)
| DuplicateIdent (name arch prior version : gostring)
| WrongSchema (version : gostring)
| BackendIsAuto
| TargetArchEmpty
| BadClosedWorldResult (result : gostring)
| MalformedInstallEntry (entry : gostring)
| InstallNotInPackages (entry : gostring)
| InstallTwice (name arch prior version : gostring).

(** The loop of [checkLoadSafety] from index [i], with the map [byFilename]. *)
Fixpoint load_safety_loop (byFilename : gmap gostring gostring) (i : Z) (ps : list Package) : option lock_error :=
  match ps with
  | [] => None
  | p :: ps' =>
      match checkFilename (p_Filename p) with
      | Some e => Some (BadFilename i (p_Name p) e)
      | None =>
          match byFilename !! p_Filename p with
          | Some prior => Some (SharedFilename prior (p_Name p) (p_Arch p) (p_Filename p))
          | None =>
              load_safety_loop (<[p_Filename p := p_Name p ++ ":" ++ p_Arch p]> byFilename) (i + 1) ps'
          end
      end
  end.
Definition checkLoadSafety (l : Lock) : option lock_error := load_safety_loop ∅ 0 (l_Packages l).

(** ** Field grammar *)

Definition validReason (s : gostring) : bool :=
  if streq s ReasonRequested || streq s ReasonUpgrade || streq s ReasonExternal then true
  else has_prefix ReasonDependencyOfPrefix s && (length ReasonDependencyOfPrefix <? length s)%nat.

Definition lowerAlnum (c : ascii) : bool := is_lower c || is_digit c.

Definition validPackageName (s : gostring) : bool :=
  match s with
  | [] => false
  | c :: rest =>
      if (255 <? length s)%nat then false
      else lowerAlnum c && forallb (λ c, lowerAlnum c || beq c "+" || beq c "-" || beq c ".") rest
  end.

Definition hasSpaceOrControl (s : gostring) : bool := existsb (λ c, (c <=? 32) || (c =? 127)) (runes s).

Definition containsString (l : list gostring) (v : gostring) : bool := existsb (λ x, streq x v) l.
Definition containsPV : list gostring → gostring → bool := containsString.

Definition validPublisherVerification : list gostring :=
  [VerifiedAPTSigned; VerifiedURLUnverified; VerifiedUserDigest; VerifiedUserSignature].
Definition validClosedWorldResults : list gostring := [ClosedWorldOK; ClosedWorldFailed; ClosedWorldSkipped].

Definition checkPackageFields (i : Z) (p : Package) : option lock_error :=
  if streq (p_Name p) "" then Some (EmptyName i)
  else if negb (validPackageName (p_Name p)) then Some (IllegalName i (p_Name p))
  else if streq (p_Arch p) "" then Some (EmptyArch i (p_Name p))
  else if contains_byte ":" (p_Arch p) || contains_byte "=" (p_Arch p) || hasSpaceOrControl (p_Arch p)
  then Some (MalformedArch i (p_Name p) (p_Arch p))
  else if streq (p_Version p) "" then Some (EmptyVersion i (p_Name p))
  else if contains_byte "=" (p_Version p) || hasSpaceOrControl (p_Version p)
  then Some (MalformedVersion i (p_Name p) (p_Version p))
  else match checkFilename (p_Filename p) with
  | Some e => Some (BadFilename i (p_Name p) e)
  | None =>
      if p_Size p <? 0 then Some (NegativeSize i (p_Name p) (p_Size p))
      else if negb (validReason (p_Reason p)) then Some (BadReason i (p_Name p) (p_Reason p))
      else if negb (containsPV validPublisherVerification (p_PublisherVerification p))
      then Some (BadPublisherVerification i (p_Name p) (p_PublisherVerification p))
      else None
  end.

(** ** Install entries *)

Definition parseInstallEntry (s : gostring) : option (gostring * gostring * gostring) :=
  match cut "=" s with
  | None => None
  | Some (lhs, version) =>
      if bool_decide (lhs = []) || bool_decide (version = []) then None
      else match cut ":" lhs with
      | None => None
      | Some (name, arch) =>
          if bool_decide (name = []) || bool_decide (arch = []) then None else Some (name, arch, version)
      end
  end.

Definition Find (l : Lock) (name arch : gostring) : option Package :=
  find (λ p, streq (p_Name p) name && streq (p_Arch p) arch) (l_Packages l).

Fixpoint install_set_loop (l : Lock) (entries : list gostring) : list Package :=
  match entries with
  | [] => []
  | entry :: rest =>
      match parseInstallEntry entry with
      | None => install_set_loop l rest
      | Some (name, arch, version) =>
          match Find l name arch with
          | Some p => if streq (p_Version p) version then p :: install_set_loop l rest else install_set_loop l rest
          | None => install_set_loop l rest
          end
      end
  end.
Definition InstallSet (l : Lock) : list Package := install_set_loop l (l_Install l).

(** ** Validate *)

Abbreviation ident := (gostring * gostring)%type.

(** The loop over the packages: [byIdent] and [seen] grow, or an error. *)
Fixpoint packages_loop (seen : gset (gostring * gostring * gostring)) (byIdent : gmap ident gostring)
    (i : Z) (ps : list Package) : result lock_error (gset (gostring * gostring * gostring)) :=
  match ps with
  | [] => Ok seen
  | p :: ps' =>
      match checkPackageFields i p with
      | Some e => Err e
      | None =>
          if negb (Valid (p_SHA256 p)) then Err (BadSHA256 (p_Name p) (p_Arch p) (p_Version p) (p_SHA256 p))
          else match byIdent !! (p_Name p, p_Arch p) with
          | Some prior => Err (DuplicateIdent (p_Name p) (p_Arch p) prior (p_Version p))
          | None =>
              packages_loop ({[(p_Name p, p_Arch p, p_Version p)]} ∪ seen)
                (<[(p_Name p, p_Arch p) := p_Version p]> byIdent) (i + 1) ps'
          end
      end
  end.

Fixpoint install_loop (seen : gset (gostring * gostring * gostring)) (installed : gmap ident gostring)
    (entries : list gostring) : option lock_error :=
  match entries with
  | [] => None
  | entry :: rest =>
      match parseInstallEntry entry with
      | None => Some (MalformedInstallEntry entry)
      | Some (name, arch, version) =>
          if negb (bool_decide ((name, arch, version) ∈ seen)) then Some (InstallNotInPackages entry)
          else match installed !! (name, arch) with
          | Some prior => Some (InstallTwice name arch prior version)
          | None => install_loop seen (<[(name, arch) := version]> installed) rest
          end
      end
  end.

Definition Validate (l : Lock) : option lock_error :=
  if negb (streq (l_SchemaVersion l) SchemaVersion) then Some (WrongSchema (l_SchemaVersion l))
  else if streq (r_Backend (l_Resolver l)) BackendAuto then Some BackendIsAuto
  else if streq (t_Arch (l_Target l)) "" then Some TargetArchEmpty
  else if negb (containsString validClosedWorldResults (cw_Result (l_ClosedWorld l)))
  then Some (BadClosedWorldResult (cw_Result (l_ClosedWorld l)))
  else match checkLoadSafety l with
  | Some e => Some e
  | None =>
      match packages_loop ∅ ∅ 0 (l_Packages l) with
      | Err e => Some e
      | Ok seen => install_loop seen ∅ (l_Install l)
      end
  end.

(** ** Filenames: the specification *)

Lemma first_err_segments p : first_err filename_segment (split slash p) = None ↔ safe_path p.
Proof.
  rewrite first_err_None. unfold safe_path. rewrite Forall_forall.
  assert (∀ s, filename_segment s = None ↔ safe_seg s) as Hs.
  { intros s. unfold filename_segment, safe_seg. rewrite <- !streq_false_iff.
    destruct (streq s ""), (streq s "."), (streq s ".."); simpl; naive_solver. }
  split; intros H s Hin; apply Hs, H, Hin.
Qed.

Lemma plain_bytes_runes p : plain_bytes p = true ↔ ("\"%char ∉ p) ∧ existsb control_rune (runes p) = false.
Proof.
  rewrite plain_bytes_spec. apply and_iff_compat_l.
  rewrite existsb_runes by (intros r Hr; unfold control_rune; rewrite (proj2 (Z.ltb_ge _ _)), (proj2 (Z.eqb_neq _ _)) by lia; done).
  rewrite Forall_forall. split.
  - intros H. apply not_true_iff_false. intros (c & Hc & Hr)%existsb_exists.
    apply list_elem_of_In in Hc. apply H in Hc. unfold is_control, control_rune in *. congruence.
  - intros H c Hc. destruct (is_control c) eqn:E; [|done]. rewrite <- not_true_iff_false in H.
    destruct H. apply existsb_exists. exists c. by rewrite <- list_elem_of_In.
Qed.

Lemma checkFilename_None p : checkFilename p = None ↔ bundle_path p.
Proof.
  unfold checkFilename, bundle_path. rewrite plain_bytes_runes. split.
  - intros H. guards. apply first_err_segments in H.
    apply contains_byte_false in G1. done.
  - intros (Hs & [Hb Hc] & Hd).
    assert (streq p "" = false) as -> by (apply streq_false_iff, (safe_path_nonempty p Hs)).
    assert (contains_byte "\" p = false) as -> by (by apply contains_byte_false).
    assert (has_prefix "/" p = false) as -> by (by apply safe_path_not_rooted).
    rewrite Hd, Hc. rewrite (proj2 (first_err_segments p)) by done.
    destruct (contains_byte (chr 0) p) eqn:E; [|done]. apply contains_byte_spec in E.
    assert (plain_bytes p = true) as Hp by (by apply plain_bytes_runes).
    apply plain_bytes_spec in Hp as [_ Hp]. rewrite Forall_forall in Hp. by apply Hp in E.
Qed.

(** A filename is accepted exactly when every slash-separated segment is a
    real name (not empty, not a dot or dot-dot), it holds no backslash and no
    control byte and starts with no drive letter; and resolving an accepted one
    from any directory gives a path strictly below that directory. *)
Theorem checkFilename_safe (filename : gostring) :
  (checkFilename filename = None ↔ bundle_path filename) ∧
  (checkFilename filename = None →
   ∀ dir, ∃ seg rest, resolve dir filename = dir ++ seg :: rest ∧ path_clean filename = filename).
Proof.
  split; [apply checkFilename_None|]. intros H dir. apply checkFilename_None in H.
  destruct (bundle_path_below dir filename H) as (s & l & E). exists s, l. split; [done|].
  apply safe_path_clean, H.
Qed.

Lemma checkFilename_safe_witness :
  checkFilename "pool/main/h/hello.deb" = None ∧
  ∃ seg rest, resolve [bytes_of "media"] "pool/main/h/hello.deb" = [bytes_of "media"] ++ seg :: rest ∧
    path_clean "pool/main/h/hello.deb" = "pool/main/h/hello.deb".
Proof. split; [reflexivity|]. exact (proj2 (checkFilename_safe "pool/main/h/hello.deb") eq_refl [bytes_of "media"]). Defined.

(** ** Install entries: the specification *)

Definition install_entry (name arch version : gostring) : gostring := name ++ ":" ++ arch ++ "=" ++ version.

Lemma app_char c (a b : gostring) : a ++ (c :: b) = a ++ [c] ++ b.
Proof. done. Qed.

Lemma parseInstallEntry_Some s name arch version :
  parseInstallEntry s = Some (name, arch, version) ↔
  s = install_entry name arch version ∧ name ≠ [] ∧ arch ≠ [] ∧ version ≠ [] ∧
  (":"%char ∉ name) ∧ ("="%char ∉ name) ∧ ("="%char ∉ arch).
Proof.
  unfold parseInstallEntry, install_entry. split.
  - intros H. destruct (cut "=" s) as [[lhs v]|] eqn:E1; [|done].
    destruct (bool_decide (lhs = []) || bool_decide (v = [])) eqn:G1; [done|].
    destruct (cut ":" lhs) as [[n a]|] eqn:E2; [|done].
    destruct (bool_decide (n = []) || bool_decide (a = [])) eqn:G2; [done|]. simplify_eq. bsplit.
    apply cut_Some in E1 as [-> Hl], E2 as [-> Hr].
    rewrite not_elem_of_app, not_elem_of_cons in Hl. destruct Hl as (? & ? & ?).
    split_and!; try done. by rewrite <- app_assoc.
  - intros (-> & Hn & Ha & Hv & H1 & H2 & H3).
    change (bytes_of ":") with [":"%char]. change (bytes_of "=") with ["="%char].
    replace (name ++ [":"%char] ++ arch ++ ["="%char] ++ version)
      with ((name ++ ":"%char :: arch) ++ "="%char :: version) by (by rewrite <- app_assoc).
    rewrite cut_app by (rewrite not_elem_of_app, not_elem_of_cons; done).
    rewrite (bool_decide_eq_false_2 (_ = [])) by (by destruct name).
    rewrite (bool_decide_eq_false_2 (version = [])) by done. simpl.
    rewrite cut_app by done. by rewrite !bool_decide_eq_false_2.
Qed.

(** An install entry parses exactly when it is the text [name:arch=version]
    of three non-empty parts, the name free of [:] and [=] and the architecture
    free of [=]; the parts are then the ones it was written from, so no entry
    has two readings. *)
Theorem parseInstallEntry_spec (s : gostring) :
  match parseInstallEntry s with
  | Some (name, arch, version) =>
      s = install_entry name arch version ∧
      ∀ n a v, s = install_entry n a v → n ≠ [] → a ≠ [] → v ≠ [] →
        (":"%char ∉ n) → ("="%char ∉ n) → ("="%char ∉ a) → n = name ∧ a = arch ∧ v = version
  | None =>
      ∀ n a v, s = install_entry n a v →
        n = [] ∨ a = [] ∨ v = [] ∨ (":"%char ∈ n) ∨ ("="%char ∈ n) ∨ ("="%char ∈ a)
  end.
Proof.
  destruct (parseInstallEntry s) as [[[name arch] version]|] eqn:E.
  - split; [by apply parseInstallEntry_Some in E as [-> _]|]. intros n a v Hs Hn Ha Hv H1 H2 H3.
    assert (parseInstallEntry s = Some (n, a, v)) as E' by (by apply parseInstallEntry_Some).
    rewrite E in E'. by simplify_eq.
  - intros n a v Hs.
    destruct (decide (n = [])), (decide (a = [])), (decide (v = [])), (decide (":"%char ∈ n)),
      (decide ("="%char ∈ n)), (decide ("="%char ∈ a)); try (by eauto 10).
    assert (parseInstallEntry s = Some (n, a, v)) by (by apply parseInstallEntry_Some). congruence.
Qed.

(** ** Field grammar: the specification *)

(** Above the space and not DEL. *)
Definition graphic (c : ascii) : Prop := 32 < ord c ∧ ord c ≠ 127.

Lemma hasSpaceOrControl_false s : hasSpaceOrControl s = false ↔ Forall graphic s.
Proof.
  unfold hasSpaceOrControl. rewrite existsb_runes
    by (intros r Hr; rewrite (proj2 (Z.leb_gt _ _)), (proj2 (Z.eqb_neq _ _)) by lia; done).
  rewrite Forall_forall, <- not_true_iff_false, existsb_exists. unfold graphic. split.
  - intros H c Hc. apply list_elem_of_In in Hc.
    destruct (Z.leb_spec (ord c) 32), (Z.eqb_spec (ord c) 127); try lia; destruct H; exists c; split; try done.
    + apply orb_true_iff. left. by apply Z.leb_le.
    + apply orb_true_iff. right. by apply Z.eqb_eq.
  - intros H (c & Hc & Hr). apply list_elem_of_In in Hc. apply H in Hc.
    apply orb_true_iff in Hr as [Hr|Hr]; bsplit; lia.
Qed.

Definition package_name (s : gostring) : Prop :=
  ∃ c rest, s = c :: rest ∧ (length s ≤ 255)%nat ∧ lowerAlnum c = true ∧
    Forall (λ d, lowerAlnum d = true ∨ d = "+"%char ∨ d = "-"%char ∨ d = "."%char) rest.

Lemma validPackageName_spec s : validPackageName s = true ↔ package_name s.
Proof.
  unfold validPackageName, package_name. destruct s as [|c rest]; [naive_solver|].
  destruct (Nat.ltb_spec 255 (length (c :: rest))).
  - split; [done|]. intros (c' & r' & E & Hl & _). lia.
  - rewrite andb_true_iff, forallb_forall.
    assert (∀ d, lowerAlnum d || beq d "+" || beq d "-" || beq d "." = true ↔
      lowerAlnum d = true ∨ d = "+"%char ∨ d = "-"%char ∨ d = "."%char) as Hd.
    { intros d. rewrite !orb_true_iff. unfold beq. rewrite !bool_decide_eq_true. naive_solver. }
    split.
    + intros [Hc Hr]. exists c, rest. split_and!; try done.
      apply Forall_forall. intros d Hd'. apply Hd, Hr. by apply list_elem_of_In.
    + intros (c' & r' & [= -> ->] & _ & Hc & Hr). split; [done|]. rewrite Forall_forall in Hr.
      intros d Hd'. apply Hd, Hr. by apply list_elem_of_In.
Qed.

Lemma package_name_chars s c : package_name s → c ∈ s → c ≠ ":"%char ∧ c ≠ "="%char.
Proof.
  intros (d & rest & -> & _ & Hd & Hr) Hc.
  assert (lowerAlnum c = true ∨ c = "+"%char ∨ c = "-"%char ∨ c = "."%char) as H.
  { apply elem_of_cons in Hc as [->|Hc]; [by left|]. rewrite Forall_forall in Hr. auto. }
  split; intros ->; destruct H as [H|[H|[H|H]]]; done.
Qed.

Definition lock_reason (s : gostring) : Prop :=
  s = ReasonRequested ∨ s = ReasonUpgrade ∨ s = ReasonExternal ∨
  ∃ pkg, pkg ≠ [] ∧ s = ReasonDependencyOfPrefix ++ pkg.

Lemma validReason_spec s : validReason s = true ↔ lock_reason s.
Proof.
  unfold validReason, lock_reason.
  destruct (streq s ReasonRequested || streq s ReasonUpgrade || streq s ReasonExternal) eqn:E.
  - split; [|done]. intros _. rewrite !orb_true_iff, !streq_true in E. naive_solver.
  - rewrite !orb_false_iff, !streq_false_iff in E. destruct E as [[? ?] ?].
    rewrite andb_true_iff, has_prefix_spec, Nat.ltb_lt. split.
    + intros [[r ->] Hl]. do 3 right. exists r. split; [|done]. intros ->. rewrite app_nil_r in Hl. lia.
    + intros [?|[?|[?|(r & Hr & ->)]]]; try done. split; [by exists r|].
      rewrite length_app. destruct r; [done|]. simpl. lia.
Qed.

Lemma containsString_spec l v : containsString l v = true ↔ v ∈ l.
Proof.
  unfold containsString. rewrite existsb_exists. split.
  - intros (x & Hx & ->%streq_true). by apply list_elem_of_In.
  - intros H. exists v. rewrite streq_refl. by apply list_elem_of_In in H.
Qed.

(** ** Validate: the specification *)

Record package_wf (p : Package) : Prop := {
  wf_name : package_name (p_Name p);
  wf_arch : p_Arch p ≠ [] ∧ (":"%char ∉ p_Arch p) ∧ ("="%char ∉ p_Arch p) ∧ Forall graphic (p_Arch p);
  wf_version : p_Version p ≠ [] ∧ ("="%char ∉ p_Version p) ∧ Forall graphic (p_Version p);
  wf_filename : bundle_path (p_Filename p);
  wf_size : 0 ≤ p_Size p;
  wf_reason : lock_reason (p_Reason p);
  wf_publisher : p_PublisherVerification p ∈ validPublisherVerification;
  wf_sha256 : Valid (p_SHA256 p) = true
}.

Lemma not_bool_true (b : bool) : negb b = false ↔ b = true.
Proof. by destruct b. Qed.

Lemma checkPackageFields_None i p :
  checkPackageFields i p = None ∧ Valid (p_SHA256 p) = true ↔ package_wf p.
Proof.
  split.
  - intros [H Hv]. unfold checkPackageFields in H. guards.
    rewrite !orb_false_iff, !contains_byte_false, hasSpaceOrControl_false in *.
    rewrite negb_false_iff, ?validPackageName_spec, ?validReason_spec, ?containsString_spec in *.
    rewrite !streq_false_iff in *. bsplit.
    destruct G2 as [[? ?] ?], G4 as [? ?].
    split; try done; [by apply checkFilename_None|by apply containsString_spec].
  - intros [Hn (Ha & Ha1 & Ha2 & Ha3) (Hv & Hv1 & Hv2) Hf Hs Hr Hp Hd]. split; [|done].
    unfold checkPackageFields.
    assert (p_Name p ≠ []) as Hne by (destruct Hn as (c & r & -> & _); done).
    rewrite !streq_false by done.
    rewrite (proj2 (validPackageName_spec _) Hn), (proj2 (validReason_spec _) Hr).
    unfold containsPV. rewrite (proj2 (containsString_spec _ _) Hp).
    rewrite !(proj2 (contains_byte_false _ _)) by done.
    rewrite !(proj2 (hasSpaceOrControl_false _)) by done. simpl.
    rewrite (proj2 (checkFilename_None _)) by done.
    by rewrite (proj2 (Z.ltb_ge _ _)).
Qed.

Abbreviation package_ident := (λ p, (p_Name p, p_Arch p)).
Abbreviation package_key := (λ p, (p_Name p, p_Arch p, p_Version p)).
Definition package_entry (p : Package) : gostring := install_entry (p_Name p) (p_Arch p) (p_Version p).

Lemma load_safety_loop_None ps : ∀ m i,
  load_safety_loop m i ps = None ↔
  Forall (λ p, bundle_path (p_Filename p)) ps ∧ NoDup (map p_Filename ps) ∧
  ∀ p, p ∈ ps → m !! p_Filename p = None.
Proof.
  induction ps as [|p ps IH]; intros m i; cbn [load_safety_loop map].
  - split; [|done]. intros _. split_and!; [constructor|constructor|]. by intros p ?%elem_of_nil.
  - rewrite Forall_cons, NoDup_cons, <- checkFilename_None.
    destruct (checkFilename (p_Filename p)); [naive_solver|].
    destruct (m !! p_Filename p) eqn:Em.
    + split; [done|]. intros (_ & _ & H). specialize (H p (list_elem_of_here _ _)). congruence.
    + rewrite IH. split.
      * intros (H1 & H2 & H3). split_and!; try done.
        -- intros (q & Hq & Hin)%list_elem_of_fmap. specialize (H3 q Hin).
           rewrite <- Hq, lookup_insert_eq in H3. done.
        -- intros q [->|Hq]%elem_of_cons; [done|]. specialize (H3 q Hq).
           by apply lookup_insert_None in H3 as [? _].
      * intros ([_ H1] & [H2 H3] & H4). split_and!; try done.
        intros q Hq. apply lookup_insert_None. split; [apply H4; by right|].
        intros E. apply H2. rewrite E. by apply list_elem_of_fmap_2.
Qed.

(** What Load enforces: every filename a bundle path, no two the same. *)
Lemma checkLoadSafety_None l :
  checkLoadSafety l = None ↔
  Forall (λ p, bundle_path (p_Filename p)) (l_Packages l) ∧ NoDup (map p_Filename (l_Packages l)).
Proof.
  unfold checkLoadSafety. rewrite load_safety_loop_None. split; [naive_solver|].
  intros [H1 H2]. split_and!; try done.
Qed.

Lemma packages_loop_Ok ps : ∀ seen m i seen',
  packages_loop seen m i ps = Ok seen' ↔
  Forall package_wf ps ∧ NoDup (map package_ident ps) ∧
  (∀ p, p ∈ ps → m !! package_ident p = None) ∧
  seen' = list_to_set (map package_key (rev ps)) ∪ seen.
Proof.
  induction ps as [|p ps IH]; intros seen m i seen'; cbn [packages_loop map rev].
  - split.
    + intros [= <-]. split_and!; [constructor|constructor|by intros p ?%elem_of_nil|]. set_solver.
    + intros (_ & _ & _ & ->). f_equal. set_solver.
  - rewrite Forall_cons, NoDup_cons, <- (checkPackageFields_None i p).
    destruct (checkPackageFields i p); [naive_solver|].
    destruct (Valid (p_SHA256 p)); simpl; [|naive_solver].
    destruct (m !! (p_Name p, p_Arch p)) eqn:Em.
    + split; [done|]. intros (_ & _ & H & _). specialize (H p (list_elem_of_here _ _)). congruence.
    + rewrite IH, map_app, list_to_set_app_L. cbn [map list_to_set]. split.
      * intros (H1 & H2 & H3 & ->). split_and!; try done.
        -- intros (q & Hq & Hin)%list_elem_of_fmap. specialize (H3 q Hin).
           rewrite <- Hq, lookup_insert_eq in H3. done.
        -- intros q [->|Hq]%elem_of_cons; [done|]. specialize (H3 q Hq).
           by apply lookup_insert_None in H3 as [? _].
        -- set_solver.
      * intros ([_ H1] & [H2 H3] & H4 & ->). split_and!; try done.
        -- intros q Hq. apply lookup_insert_None. split; [apply H4; by right|].
           intros E. apply H2. rewrite E. by apply (list_elem_of_fmap_2 package_ident).
        -- set_solver.
Qed.

Lemma install_loop_None seen entries : ∀ m,
  install_loop seen m entries = None ↔
  ∃ keys, Forall2 (λ e k, parseInstallEntry e = Some k) entries keys ∧
    Forall (λ k, k ∈ seen) keys ∧ NoDup (map fst keys) ∧ Forall (λ k, m !! k.1 = None) keys.
Proof.
  induction entries as [|e entries IH]; intros m; cbn [install_loop].
  - split; [|done]. intros _. exists []. split_and!; constructor.
  - destruct (parseInstallEntry e) as [[[n a] v]|] eqn:Ee.
    2: { split; [done|]. intros (keys & H & _). apply Forall2_cons_inv_l in H as (k & ks & Hk & _). congruence. }
    destruct (decide ((n, a, v) ∈ seen)) as [Hs|Hs].
    2: { rewrite bool_decide_eq_false_2 by done. simpl. split; [done|]. intros (keys & H & H' & _).
         apply Forall2_cons_inv_l in H as (k & ks & Hk & _ & ->).
         apply Forall_cons in H' as [H' _]. congruence. }
    rewrite bool_decide_eq_true_2 by done. simpl. destruct (m !! (n, a)) eqn:Em.
    + split; [done|]. intros (keys & H & _ & _ & H').
      apply Forall2_cons_inv_l in H as (k & ks & Hk & _ & ->).
      apply Forall_cons in H' as [H' _]. by simplify_eq/=.
    + rewrite IH. split.
      * intros (keys & H1 & H2 & H3 & H4). exists ((n, a, v) :: keys).
        split_and!; [by constructor|by constructor| |constructor; [done|]].
        -- cbn [map fst]. constructor; [|done]. intros (k & Hk & Hin)%list_elem_of_fmap.
           rewrite Forall_forall in H4. specialize (H4 k Hin). rewrite <- Hk, lookup_insert_eq in H4. done.
        -- eapply Forall_impl; [exact H4|]. intros k Hk. by apply lookup_insert_None in Hk as [? _].
      * intros (keys & H1 & H2 & H3 & H4).
        apply Forall2_cons_inv_l in H1 as (k & ks & Hk & H1 & ->). rewrite Ee in Hk. injection Hk as <-.
        cbn [map fst] in H3. apply NoDup_cons in H3 as [H3 H3']. apply Forall_cons in H2 as [_ H2].
        apply Forall_cons in H4 as [_ H4].
        exists ks. split_and!; try done. rewrite Forall_forall in H4 |- *. intros k Hk.
        apply lookup_insert_None. split; [auto|]. intros E. apply H3. rewrite E. by apply list_elem_of_fmap_2.
Qed.

(** A lock that is safe to install from. *)
Record lock_wf (l : Lock) : Prop := {
  lwf_schema : l_SchemaVersion l = SchemaVersion;
  lwf_backend : r_Backend (l_Resolver l) ≠ BackendAuto;
  lwf_arch : t_Arch (l_Target l) ≠ [];
  lwf_closed_world : cw_Result (l_ClosedWorld l) ∈ validClosedWorldResults;
  lwf_packages : Forall package_wf (l_Packages l);
  lwf_filenames : NoDup (map p_Filename (l_Packages l));
  lwf_idents : NoDup (map package_ident (l_Packages l));
  lwf_install : ∃ ps, l_Install l = map package_entry ps ∧ NoDup ps ∧ Forall (λ p, p ∈ l_Packages l) ps
}.

Lemma package_entry_parse p : package_wf p → parseInstallEntry (package_entry p) = Some (package_key p).
Proof.
  intros [Hn (Ha & _ & Ha' & _) (Hv & _) _ _ _ _ _]. apply parseInstallEntry_Some.
  split_and!; try done.
  - by destruct Hn as (c & r & -> & _).
  - intros H. by apply (package_name_chars _ _ Hn) in H as [? _].
  - intros H. by apply (package_name_chars _ _ Hn) in H as [_ ?].
Qed.

(** The install entries name a duplicate-free list of the packages. *)
Lemma install_entries l :
  Forall package_wf (l_Packages l) → NoDup (map package_ident (l_Packages l)) →
  install_loop (list_to_set (map package_key (rev (l_Packages l))) ∪ ∅) ∅ (l_Install l) = None ↔
  ∃ ps, l_Install l = map package_entry ps ∧ NoDup ps ∧ Forall (λ p, p ∈ l_Packages l) ps.
Proof.
  intros Hwf Hid. rewrite install_loop_None. rewrite Forall_forall in Hwf. split.
  - intros (keys & H1 & H2 & H3 & _).
    assert (∃ ps, keys = map package_key ps ∧ Forall (λ p, p ∈ l_Packages l) ps) as (ps & -> & Hps).
    { clear H1 H3. induction keys as [|k keys IH]; [by exists []|].
      apply Forall_cons in H2 as [Hk H2]. destruct (IH H2) as (ps & -> & Hps).
      rewrite union_empty_r_L, elem_of_list_to_set in Hk.
      apply list_elem_of_fmap in Hk as (p & -> & Hp). exists (p :: ps). split; [done|].
      constructor; [by apply elem_of_rev|done]. }
    exists ps. split_and!; [|apply NoDup_fmap_1 with package_ident; by rewrite map_map in H3|done].
    clear H2 H3. revert ps Hps H1. induction (l_Install l) as [|e es IH]; intros [|p ps] Hps H1; try by inversion H1.
    apply Forall_cons in Hps as [Hp Hps]. apply Forall2_cons in H1 as [He H1]. cbn [map]. f_equal; [|auto].
    by apply parseInstallEntry_Some in He as [-> _].
  - intros (ps & -> & Hnd & Hps). exists (map package_key ps). split_and!.
    + clear Hnd. induction Hps as [|p ps Hp Hps IH]; constructor; [|done]. apply package_entry_parse; auto.
    + rewrite Forall_forall in Hps. apply Forall_forall. intros k (p & -> & Hp)%list_elem_of_fmap.
      rewrite union_empty_r_L, elem_of_list_to_set. apply (list_elem_of_fmap_2 package_key).
      apply elem_of_rev; auto.
    + rewrite map_map. cbn [fst]. apply NoDup_map_on; [|done]. rewrite Forall_forall in Hps.
      intros x y Hx Hy E. apply (NoDup_map_inj package_ident (l_Packages l)); auto.
    + apply Forall_true. intros k. apply lookup_empty.
Qed.

Lemma Validate_None (l : Lock) : Validate l = None ↔ lock_wf l.
Proof.
  unfold Validate. split.
  - intros H. destruct (streq (l_SchemaVersion l) SchemaVersion) eqn:E1; [|done].
    destruct (streq (r_Backend _) _) eqn:E2; [done|]. destruct (streq (t_Arch _) _) eqn:E3; [done|].
    destruct (containsString _ _) eqn:E4; [|done]. simpl in H.
    destruct (checkLoadSafety l) eqn:E5; [done|]. destruct (packages_loop _ _ _ _) eqn:E6; [|done].
    apply packages_loop_Ok in E6 as (Hwf & Hid & _ & ->). apply checkLoadSafety_None in E5 as [_ Hfn].
    apply streq_true in E1. apply streq_false_iff in E2, E3. apply containsString_spec in E4.
    split; try done. by apply install_entries.
  - intros [H1 H2 H3 H4 H5 H6 H7 H8]. rewrite H1, streq_refl. cbn [negb].
    rewrite !streq_false, (proj2 (containsString_spec _ _) H4) by done. cbn [negb].
    rewrite (proj2 (checkLoadSafety_None l)).
    + rewrite (proj2 (packages_loop_Ok _ _ _ _ (list_to_set (map package_key (rev (l_Packages l))) ∪ ∅))).
      * by apply install_entries.
      * by split_and!.
    + split; [|done]. eapply Forall_impl; [exact H5|]. by intros p [].
Qed.

(** (C31) [Validate] returns nil exactly on well-formed locks: schema, backend,
    architecture and closed-world result in range, every package field in its
    grammar, no shared filename, one version per (name, arch), and an install
    list that names each of its packages once and only packages of the lock. *)
Theorem Validate_spec (l : Lock) : Validate l = None ↔ lock_wf l.
Proof. apply Validate_None. Qed.

(** ** The install set *)

Lemma Find_complete l p :
  NoDup (map package_ident (l_Packages l)) → p ∈ l_Packages l → Find l (p_Name p) (p_Arch p) = Some p.
Proof.
  unfold Find. induction (l_Packages l) as [|q qs IH]; cbn [map find]; [by intros _ ?%elem_of_nil|].
  intros [Hq Hnd]%NoDup_cons [->|Hp]%elem_of_cons; [by rewrite !streq_refl|].
  destruct (streq (p_Name q) (p_Name p) && streq (p_Arch q) (p_Arch p)) eqn:E; [|auto].
  apply andb_true_iff in E as [E1%streq_true E2%streq_true]. exfalso. apply Hq.
  rewrite E1, E2. by apply (list_elem_of_fmap_2 package_ident).
Qed.

Lemma install_set_loop_sound l entries p :
  p ∈ install_set_loop l entries → p ∈ l_Packages l ∧
    ∃ entry, entry ∈ entries ∧ parseInstallEntry entry = Some (package_key p).
Proof.
  induction entries as [|e es IH]; cbn [install_set_loop]; [by intros ?%elem_of_nil|].
  destruct (parseInstallEntry e) as [[[n a] v]|] eqn:Ee; [|set_solver].
  destruct (Find l n a) as [q|] eqn:Ef; [|set_solver].
  destruct (streq (p_Version q) v) eqn:Ev; [|set_solver]. apply streq_true in Ev.
  intros [->|H]%elem_of_cons; [|set_solver].
  unfold Find in Ef. apply find_some in Ef as [Hin E]. apply list_elem_of_In in Hin.
  apply andb_true_iff in E as [E1%streq_true E2%streq_true]. subst. split; [done|].
  exists e. split; [by left|done].
Qed.

(** The install set only ever holds packages of the lock that an install
    entry names at their exact version, and on a lock [Validate] accepts it
    loses none: one package per entry, in the entries' order, none twice. *)
Theorem InstallSet_complete (l : Lock) :
  (∀ p, p ∈ InstallSet l → p ∈ l_Packages l ∧
     ∃ entry, entry ∈ l_Install l ∧ parseInstallEntry entry = Some (package_key p)) ∧
  (Validate l = None → map package_entry (InstallSet l) = l_Install l ∧ NoDup (InstallSet l)).
Proof.
  split; [apply install_set_loop_sound|]. intros H. apply Validate_None in H as [_ _ _ _ Hwf _ Hid (ps & Hi & Hnd & Hps)].
  enough (InstallSet l = ps) as -> by done. unfold InstallSet. rewrite Hi. clear Hi Hnd.
  rewrite Forall_forall in Hwf. induction Hps as [|p ps Hp Hps IH]; cbn [map install_set_loop]; [done|].
  rewrite package_entry_parse by auto. by rewrite Find_complete, streq_refl, IH by done.
Qed.

(** A two-package lock with one install entry. *)
Definition sample_package (name filename : gostring) : Package :=
  mkPackage name "amd64" "1.0-1" [] filename 12 (Bytes "abc") (mkOrigin [] [] [] [] [] [])
    ReasonRequested VerifiedAPTSigned [] false.
Definition sample_lock : Lock :=
  mkLock SchemaVersion [] [] [] (mkTarget "ubuntu" "24.04" "noble" "amd64" [] [] [])
    (mkResolver BackendLocal [] [] [] [] [] [] false [])
    [sample_package "curl" "pool/c/curl.deb"; sample_package "hello" "pool/h/hello.deb"]
    [bytes_of "hello:amd64=1.0-1"] (mkClosedWorld ClosedWorldOK [] [] []) [] []
    (mkStats 2 0 0 24 24).

Lemma InstallSet_complete_witness :
  Validate sample_lock = None ∧ map package_entry (InstallSet sample_lock) = l_Install sample_lock.
Proof.
  assert (Validate sample_lock = None) as H by (by vm_compute).
  exact (conj H (proj1 (proj2 (InstallSet_complete sample_lock) H))).
Defined.
