(* ===== verification/LockDoc.v ===== *)
(** * core/lock: the lock document on disk (checkDocumentShape, Save, Load). *)
From S2P Require Export Lock.
#[local] Open Scope Z_scope.

(** ** The declared shape *)

(** What [checkJSONValue] asks of a [reflect.Type]; a struct is its JSON field
    names with their types ([jsonFieldsOf]). *)
#[warnings="-register-all"]
Inductive gotype :=
| TScalar
| TSlice (elem : gotype)
| TStruct (fields : list (gostring * gotype)).

Definition scalars (l : list string) : list (gostring * gotype) := map (λ s, (bytes_of s, TScalar)) l.
Definition field (name : string) (t : gotype) : gostring * gotype := (bytes_of name, t).

(** [jsonFieldsOf] of the structs of types.go. *)
Definition target_fields : list (gostring * gotype) :=
  scalars ["distro_id"; "version_id"; "codename"; "arch"]%string ++
  [field "foreign_archs" (TSlice TScalar)] ++ scalars ["apt_version"; "dpkg_version"]%string.
Definition resolver_fields : list (gostring * gotype) :=
  scalars ["backend"; "image"; "image_digest"; "apt_version"; "dpkg_version"]%string ++
  [field "apt_options" (TSlice TScalar)] ++
  scalars ["phased_updates"; "install_recommends"; "solver_divergence"]%string.
Definition origin_fields : list (gostring * gotype) :=
  scalars ["uri"; "local_path"; "suite"; "component"; "release_digest"; "key_fingerprint"]%string.
Definition package_fields : list (gostring * gotype) :=
  scalars ["name"; "arch"; "version"; "source_package"; "filename"; "size"; "sha256"]%string ++
  [field "origin" (TStruct origin_fields)] ++ scalars ["reason"; "publisher_verification"]%string ++
  [field "flags" (TSlice TScalar)] ++ scalars ["essential"]%string.
Definition closed_world_fields : list (gostring * gotype) :=
  scalars ["result"; "command_digest"; "output_digest"; "detail"]%string.
Definition warning_fields : list (gostring * gotype) :=
  scalars ["code"; "message"]%string ++ [field "packages" (TSlice TScalar)].
Definition unresolved_fields : list (gostring * gotype) :=
  scalars ["input"; "kind"; "detail"]%string ++ [field "missing" (TSlice TScalar)].
Definition stats_fields : list (gostring * gotype) :=
  scalars ["added"; "removed"; "unchanged"; "bytes"; "downloaded_bytes"]%string.
Definition lock_fields : list (gostring * gotype) :=
  scalars ["schema_version"; "created_at"; "snapshot_digest"; "request_digest"]%string ++
  [field "target" (TStruct target_fields); field "resolver" (TStruct resolver_fields);
   field "packages" (TSlice (TStruct package_fields)); field "install" (TSlice TScalar);
   field "closed_world_check" (TStruct closed_world_fields);
   field "warnings" (TSlice (TStruct warning_fields));
   field "unresolved" (TSlice (TStruct unresolved_fields)); field "stats" (TStruct stats_fields)].
Definition lock_type : gotype := TStruct lock_fields.

Inductive shape_error :=
| NotJSON
| UnknownField (path name : gostring) (declared : list gostring)
| DuplicateField (path name : gostring)
| TrailingContent.

Definition joinPath (path name : gostring) : gostring :=
  match path with [] => name | _ => path ++ "." ++ name end.
Definition sortedFieldNames (fields : list (gostring * gotype)) : list gostring := sort_strings (map fst fields).

(** The member loop of [checkJSONObject], [check_value] being the recursive call. *)
Section object.
Context (check_value : json → gotype → gostring → option shape_error).
Context (fields : list (gostring * gotype)) (path : gostring).
Fixpoint checkJSONObject (seen : list gostring) (members : list (gostring * json)) : option shape_error :=
  match members with
  | [] => None
  | (name, value) :: rest =>
      match member name fields with
      | None => Some (UnknownField path name (sortedFieldNames fields))
      | Some ft =>
          if containsString seen name then Some (DuplicateField path name)
          else match check_value value ft (joinPath path name) with
               | Some e => Some e
               | None => checkJSONObject (name :: seen) rest
               end
      end
  end.
End object.

Section items.
Context (check_value : json → gotype → gostring → option shape_error) (elem : gotype) (path : gostring).
Fixpoint check_items (i : Z) (items : list json) : option shape_error :=
  match items with
  | [] => None
  | item :: rest =>
      match check_value item elem (path ++ "[" ++ itoa i ++ "]") with
      | Some e => Some e
      | None => check_items (i + 1) rest
      end
  end.
End items.

(** Scalars, [null] and values of another kind than the type are left to the
    decoder. *)
Fixpoint checkJSONValue (v : json) (t : gotype) (path : gostring) : option shape_error :=
  match v, t with
  | JObj members, TStruct fields => checkJSONObject checkJSONValue fields path [] members
  | JArr items, TSlice elem => check_items checkJSONValue elem path 0 items
  | _, _ => None
  end.

Definition checkDocumentShape (raw : gostring) : result shape_error json :=
  match decode_value raw with
  | None => Err NotJSON
  | Some (doc, rest) =>
      match checkJSONValue doc lock_type "" with
      | Some e => Err e
      | None => match skip_ws rest with [] => Ok doc | _ => Err TrailingContent end
      end
  end.

(** ** Save and Load *)

Definition maxLockBytes : Z := 64 * 2 ^ 20.

Inductive load_error :=
| StatFailed | ReadFailed
| TooLarge (size : Z)
| Shape (e : shape_error)
| Undecodable
| UnsupportedSchema (version : gostring)
| Unsafe (e : lock_error).

(** [stat] is the size [os.Stat] reports and [read] what [os.ReadFile] returns;
    [checkDocumentShape] has left exact, unique member names, so the decoder's
    case folding and last-member rule never apply. *)
Definition Load (stat : option Z) (read : option gostring) : result load_error Lock :=
  match stat with
  | None => Err StatFailed
  | Some size =>
      if maxLockBytes <? size then Err (TooLarge size)
      else match read with
      | None => Err ReadFailed
      | Some raw =>
          if maxLockBytes <? Z.of_nat (length raw) then Err (TooLarge (Z.of_nat (length raw)))
          else match checkDocumentShape raw with
          | Err e => Err (Shape e)
          | Ok doc =>
              match dec_Lock (Some doc) with
              | Err _ => Err Undecodable
              | Ok l =>
                  if negb (streq (l_SchemaVersion l) SchemaVersion) then Err (UnsupportedSchema (l_SchemaVersion l))
                  else match checkLoadSafety l with
                  | Some e => Err (Unsafe e)
                  | None => Ok l
                  end
              end
          end
      end
  end.

Inductive save_error :=
| SaveSchema (version : gostring)
| SaveUnsafe (e : lock_error)
| SaveDigest (e : canonical_error)
| SaveMarshal (e : canonical_error)
| WriteFailed.

(** [Save]: the digest it returns and the bytes it writes to [lock.json];
    [write_ok] is the outcome of [os.WriteFile]. *)
Definition Save `{JCS} (write_ok : bool) (l : Lock) : result save_error (gostring * gostring) :=
  if negb (streq (l_SchemaVersion l) SchemaVersion) then Err (SaveSchema (l_SchemaVersion l))
  else match checkLoadSafety l with
  | Some e => Err (SaveUnsafe e)
  | None =>
      match Canonical.Digest (enc_Lock l) with
      | Err e => Err (SaveDigest e)
      | Ok d =>
          match MarshalIndent (enc_Lock l) with
          | Err e => Err (SaveMarshal e)
          | Ok out => if write_ok then Ok (d, out) else Err WriteFailed
          end
      end
  end.

(** ** Strictness *)

(** The documents that say nothing a decoder would drop: every member declared
    and given once, at every depth where the kinds agree. *)
#[warnings="-register-all"]
Inductive strict : gotype → json → Prop :=
| strict_struct fields members :
    NoDup (map fst members) →
    (∀ name v, (name, v) ∈ members → ∃ t, member name fields = Some t ∧ strict t v) →
    strict (TStruct fields) (JObj members)
| strict_slice elem items : (∀ v, v ∈ items → strict elem v) → strict (TSlice elem) (JArr items)
| strict_other t v :
    match t, v with TStruct _, JObj _ | TSlice _, JArr _ => False | _, _ => True end → strict t v.

Lemma checkJSONObject_None fields path members :
  (∀ kv, In kv members → ∀ t path, checkJSONValue kv.2 t path = None ↔ strict t kv.2) →
  ∀ seen, checkJSONObject checkJSONValue fields path seen members = None ↔
    NoDup (map fst members) ∧ (∀ name v, (name, v) ∈ members → name ∉ seen) ∧
    (∀ name v, (name, v) ∈ members → ∃ t, member name fields = Some t ∧ strict t v).
Proof.
  induction members as [|[name v] members IHm]; intros IH seen; cbn [checkJSONObject map fst].
  - split; [|done]. intros _. split_and!; [constructor|by intros ?? ?%elem_of_nil|by intros ?? ?%elem_of_nil].
  - destruct (member name fields) as [ft|] eqn:Ea.
    2: { split; [done|]. intros (_ & _ & H). destruct (H name v) as (t & ? & _); [by left|congruence]. }
    destruct (containsString seen name) eqn:Es.
    { apply containsString_spec in Es. split; [done|]. intros (_ & H & _). by destruct (H name v (list_elem_of_here _ _)). }
    assert (name ∉ seen) as Hns by (intros H; apply containsString_spec in H; congruence).
    pose proof (IH (name, v) (or_introl eq_refl) ft (joinPath path name)) as Hv. cbn [snd] in Hv.
    destruct (checkJSONValue v ft _) eqn:Ev.
    { split; [done|]. intros (_ & _ & H). destruct (H name v) as (t & Ht & Hst); [by left|].
      rewrite Ea in Ht. simplify_eq. by apply Hv in Hst. }
    rewrite IHm by (intros kv Hkv; apply IH; by right). split.
    + intros (H1 & H2 & H3). split_and!.
      * constructor; [|done]. intros ([n' v'] & E & Hin)%list_elem_of_fmap. simpl in E. subst. apply (H2 _ _ Hin). by left.
      * intros n' v' [[= -> ->]|Hin]%elem_of_cons; [done|]. intros Hs. apply (H2 _ _ Hin). by right.
      * intros n' v' [[= -> ->]|Hin]%elem_of_cons; [|auto]. exists ft. split; [done|]. by apply Hv.
    + intros ([H0 H1]%NoDup_cons & H2 & H3). split_and!; [done| |].
      * intros n' v' Hin [->|Hs]%elem_of_cons; [|by apply (H2 n' v'); [right|]].
        apply H0. by apply (list_elem_of_fmap_2 fst) in Hin.
      * intros n' v' Hin. apply H3. by right.
Qed.

Lemma check_items_None elem path items :
  (∀ v, In v items → ∀ t path, checkJSONValue v t path = None ↔ strict t v) →
  ∀ i, check_items checkJSONValue elem path i items = None ↔ ∀ v, v ∈ items → strict elem v.
Proof.
  induction items as [|v items IHi]; intros IH i; cbn [check_items].
  - split; [|done]. by intros _ v ?%elem_of_nil.
  - pose proof (IH v (or_introl eq_refl) elem (path ++ "[" ++ itoa i ++ "]")) as Hv.
    destruct (checkJSONValue v elem _) eqn:Ev.
    { split; [done|]. intros H. specialize (H v (list_elem_of_here _ _)). by apply Hv in H. }
    rewrite IHi by (intros w Hw; apply IH; by right). split.
    + intros H w [->|Hw]%elem_of_cons; [by apply Hv|auto].
    + intros H w Hw. apply H. by right.
Qed.

Lemma checkJSONValue_None v : ∀ t path, checkJSONValue v t path = None ↔ strict t v.
Proof.
  induction v as [|b|lit|s|l IH|l IH] using json_full_ind; intros t path;
    try (split; [intros _; apply strict_other; by destruct t|done]).
  - cbn [checkJSONValue]. destruct t as [|elem|fields].
    + split; [intros _; by apply strict_other|done].
    + rewrite check_items_None by done. split.
      * intros H. by apply strict_slice.
      * intros H. inversion H; subst; done.
    + split; [intros _; by apply strict_other|done].
  - cbn [checkJSONValue]. destruct t as [|elem|fields].
    + split; [intros _; by apply strict_other|done].
    + split; [intros _; by apply strict_other|done].
    + rewrite checkJSONObject_None by done. split.
      * intros (H1 & _ & H3). by apply strict_struct.
      * intros H. inversion H; subst; [|done]. split_and!; try done. by intros n' v' _ ?%elem_of_nil.
Qed.

(** ** The encoder stays inside the shape *)

Lemma strict_enc_struct fields fs :
  NoDup (map fst fs) →
  Forall (λ ko, ∀ v, snd ko = Some v → ∃ t, member (fst ko) fields = Some t ∧ strict t v) fs →
  strict (TStruct fields) (enc_struct fs).
Proof.
  intros Hnd H. apply strict_struct; [by apply NoDup_present|].
  by apply (present_Forall (λ k v, ∃ t, member k fields = Some t ∧ strict t v)).
Qed.
Lemma strict_scalar v : strict TScalar v.
Proof. by apply strict_other. Qed.
Lemma strict_slice_enc {A} t (e : A → json) l v :
  enc_slice e l = Some v ∨ omit_slice e l = Some v → (∀ x, x ∈ l → strict t (e x)) → strict (TSlice t) v.
Proof.
  intros H Hl. assert (v = JArr (map e l)) as -> by (unfold enc_slice, omit_slice in H; destruct l; destruct H as [H|H]; by simplify_eq).
  apply strict_slice. intros w (x & -> & Hx)%list_elem_of_fmap. auto.
Qed.

Ltac names_distinct := cbn [map fst]; apply (bool_decide_unpack _); vm_compute; exact I.
Ltac strict_leaf :=
  eexists; split; [reflexivity|];
  first [ apply strict_scalar
        | eapply strict_slice_enc; [match goal with H : _ = Some _ |- _ => first [left; exact H | right; exact H] end
                                 |intros; apply strict_scalar] ].
Ltac strict_leaves := apply strict_enc_struct; [names_distinct|each_field strict_leaf].

Lemma strict_Target t : strict (TStruct target_fields) (enc_Target t).
Proof. strict_leaves. Qed.
Lemma strict_Resolver r : strict (TStruct resolver_fields) (enc_Resolver r).
Proof. strict_leaves. Qed.
Lemma strict_Origin o : strict (TStruct origin_fields) (enc_Origin o).
Proof. strict_leaves. Qed.
Lemma strict_ClosedWorld c : strict (TStruct closed_world_fields) (enc_ClosedWorld c).
Proof. strict_leaves. Qed.
Lemma strict_Warning w : strict (TStruct warning_fields) (enc_Warning w).
Proof. strict_leaves. Qed.
Lemma strict_Unresolved u : strict (TStruct unresolved_fields) (enc_Unresolved u).
Proof. strict_leaves. Qed.
Lemma strict_Stats s : strict (TStruct stats_fields) (enc_Stats s).
Proof. strict_leaves. Qed.
Lemma strict_Package p : strict (TStruct package_fields) (enc_Package p).
Proof.
  apply strict_enc_struct; [names_distinct|].
  each_field ltac:(eexists; split; [reflexivity|];
    first [match goal with H : Some (enc_Origin _) = Some _ |- _ => injection H as <-; apply strict_Origin end
          |apply strict_scalar|eapply strict_slice_enc; [right; exact Hv|intros; apply strict_scalar]]).
Qed.

Lemma strict_Lock l : strict lock_type (enc_Lock l).
Proof.
  apply strict_enc_struct; [names_distinct|].
  each_field ltac:(eexists; split; [reflexivity|];
    first [ match goal with H : Some (enc_Target _) = Some _ |- _ => injection H as <-; apply strict_Target end
          | match goal with H : Some (enc_Resolver _) = Some _ |- _ => injection H as <-; apply strict_Resolver end
          | match goal with H : Some (enc_ClosedWorld _) = Some _ |- _ => injection H as <-; apply strict_ClosedWorld end
          | match goal with H : Some (enc_Stats _) = Some _ |- _ => injection H as <-; apply strict_Stats end
          | eapply strict_slice_enc; [left; exact Hv|intros; apply strict_Package]
          | eapply strict_slice_enc; [right; exact Hv|intros; apply strict_Warning]
          | eapply strict_slice_enc; [right; exact Hv|intros; apply strict_Unresolved]
          | eapply strict_slice_enc; [left; exact Hv|intros; apply strict_scalar]
          | apply strict_scalar ]).
Qed.

(** The nesting of a lock document. *)
Lemma small_Target t : small_value 2 (enc_Target t).
Proof. small_leaves. Qed.
Lemma small_Resolver r : small_value 2 (enc_Resolver r).
Proof. small_leaves. Qed.
Lemma small_Origin o : small_value 1 (enc_Origin o).
Proof. small_leaves. Qed.
Lemma small_ClosedWorld c : small_value 1 (enc_ClosedWorld c).
Proof. small_leaves. Qed.
Lemma small_Warning w : small_value 2 (enc_Warning w).
Proof. small_leaves. Qed.
Lemma small_Unresolved u : small_value 2 (enc_Unresolved u).
Proof. small_leaves. Qed.
Lemma small_Stats s : Stats_int64 s → small_value 1 (enc_Stats s).
Proof. intros (?&?&?&?&?). small_leaves. Qed.
Lemma small_Package p : int64 (p_Size p) → small_value 2 (enc_Package p).
Proof.
  intros Hsz. apply small_struct.
  each_field ltac:(first [small_leaf|split; [reflexivity|]; injection Hv as <-; apply small_Origin]).
Qed.

Lemma small_mono n m v : small_value n v → (n ≤ m)%nat → small_value m v.
Proof. intros [Hg Hd] Hnm. split; [done|lia]. Qed.

Lemma small_Lock l : Lock_int64 l → small_value 4 (enc_Lock l).
Proof.
  intros [Hp Hs]. rewrite Forall_forall in Hp. apply small_struct.
  each_field ltac:(first
    [ small_leaf
    | split; [reflexivity|];
      first
      [ injection Hv as <-; eapply small_mono; [first [apply small_Target|apply small_Resolver|apply small_ClosedWorld|by apply small_Stats]|lia]
      | eapply small_slice; [first [left; exact Hv|right; exact Hv]|];
        intros; first [by apply small_Package, Hp|apply small_Warning|apply small_Unresolved] ]]).
Qed.

(** ** Load and Save: the specification *)

Lemma checkDocumentShape_Ok raw doc :
  checkDocumentShape raw = Ok doc ↔ json_parse raw = Some doc ∧ strict lock_type doc.
Proof.
  unfold checkDocumentShape, json_parse. destruct (decode_value raw) as [[v rest]|]; [|naive_solver].
  rewrite <- (checkJSONValue_None doc lock_type "").
  destruct (checkJSONValue v lock_type "") eqn:E; destruct (skip_ws rest); try naive_solver.
Qed.

(** (C32) Load accepts a file exactly when both size readings are at most
    64 MiB, its text is one JSON document that declares only the schema's
    fields, each once at every depth, which decodes to the lock, carries the
    supported schema version, and whose filenames are distinct bundle paths. *)
Theorem Load_spec (size : Z) (raw : gostring) (l : Lock) :
  Load (Some size) (Some raw) = Ok l ↔
  size ≤ maxLockBytes ∧ Z.of_nat (length raw) ≤ maxLockBytes ∧
  (∃ doc, json_parse raw = Some doc ∧ strict lock_type doc ∧ dec_Lock (Some doc) = Ok l) ∧
  l_SchemaVersion l = SchemaVersion ∧
  Forall (λ p, bundle_path (p_Filename p)) (l_Packages l) ∧ NoDup (map p_Filename (l_Packages l)).
Proof.
  rewrite <- checkLoadSafety_None. unfold Load.
  destruct (Z.ltb_spec maxLockBytes size); [split; [done|intros [? _]; lia]|].
  destruct (Z.ltb_spec maxLockBytes (Z.of_nat (length raw))); [split; [done|intros (_ & ? & _); lia]|].
  split.
  - intros Hl. destruct (checkDocumentShape raw) as [doc|] eqn:E; [|done].
    apply checkDocumentShape_Ok in E as [E1 E2]. destruct (dec_Lock (Some doc)) as [l'|] eqn:E3; [|done].
    destruct (streq (l_SchemaVersion l') SchemaVersion) eqn:E4; [|done]. simpl in Hl.
    destruct (checkLoadSafety l') eqn:E5; [done|]. simplify_eq. apply streq_true in E4. eauto 10.
  - intros (_ & _ & (doc & H1 & H2 & H3) & H4 & H5).
    rewrite (proj2 (checkDocumentShape_Ok raw doc)), H3 by done.
    rewrite (proj2 (streq_true _ _) H4). simpl. by rewrite H5.
Qed.

(** (C19) A lock that Save writes is a lock Load reads back unchanged: the
    encoder, the indented text, the strict shape check, the decoder and the
    load-time checks agree on every lock (64-bit integers, file within the
    size bound). *)
Theorem Lock_roundtrip `{JCS} (l : Lock) (d out : gostring) :
  Lock_int64 l → Save true l = Ok (d, out) → Z.of_nat (length out) ≤ maxLockBytes →
  Load (Some (Z.of_nat (length out))) (Some out) = Ok l.
Proof.
  intros Hi Hs Hlen. unfold Save in Hs. destruct (streq (l_SchemaVersion l) SchemaVersion) eqn:E1; [|done].
  simpl in Hs. destruct (checkLoadSafety l) eqn:E2; [done|].
  destruct (Canonical.Digest (enc_Lock l)); [|done].
  destruct (MarshalIndent (enc_Lock l)) as [out'|] eqn:E3; [|done]. simplify_eq.
  destruct (small_Lock l Hi) as [Hg Hd].
  assert (json_parse out = Some (enc_Lock l)) as Hp
    by (apply MarshalIndent_parse; [done|unfold max_depth; lia|done]).
  unfold Load. rewrite (proj2 (Z.ltb_ge _ _) Hlen).
  rewrite (proj2 (checkDocumentShape_Ok out (enc_Lock l))) by (split; [done|apply strict_Lock]).
  by rewrite dec_enc_Lock, E1, E2 by done.
Qed.

Definition sample_jcs : JCS := {| jcs_Transform := λ raw, Ok raw |}.
Definition sample_saved : gostring * gostring :=
  match @Save sample_jcs true sample_lock with Ok p => p | Err _ => ([], []) end.

Lemma Lock_roundtrip_witness :
  @Save sample_jcs true sample_lock = Ok (sample_saved.1, sample_saved.2) ∧
  Load (Some (Z.of_nat (length sample_saved.2))) (Some sample_saved.2) = Ok sample_lock.
Proof.
  assert (Lock_int64 sample_lock) as H1.
  { unfold Lock_int64, Stats_int64, int64. cbn. repeat constructor; by vm_compute. }
  assert (@Save sample_jcs true sample_lock = Ok (sample_saved.1, sample_saved.2)) as H2 by (by vm_compute).
  assert (Z.of_nat (length sample_saved.2) ≤ maxLockBytes) as H3 by (by vm_compute).
  exact (conj H2 (@Lock_roundtrip sample_jcs sample_lock _ _ H1 H2 H3)).
Defined.

(** A repeated member, an unknown one and trailing text are refused. *)
Example shape_duplicate :
  checkDocumentShape ("{" ++ quote "install" ++ ":[]," ++ quote "install" ++ ":[]}") = Err (DuplicateField [] "install").
Proof. by vm_compute. Qed.
Example shape_unknown :
  is_ok (checkDocumentShape ("{" ++ quote "stats" ++ ":{" ++ quote "Added" ++ ":1}}")) = false.
Proof. by vm_compute. Qed.
