(* ===== verification/Resolve.v ===== *)
(** * core/resolve: resolved selections and the attribution of reasons. *)
From S2P Require Export LockTypes.

(** ** types.go *)

Record Selection := mkSelection {
  Name : gostring; Arch : gostring; Version : gostring; SourcePackage : gostring; Section_ : gostring;
  Filename : gostring; Size : Z; SHA256 : gostring; URI : gostring; Origin_ : Origin; Reason : gostring;
  PublisherVerification : gostring; Essential : bool; Flags : list gostring;
  StagedPath : gostring; UserSupplied : bool
}.
Definition with_reason (r : gostring) (s : Selection) : Selection :=
  mkSelection (Name s) (Arch s) (Version s) (SourcePackage s) (Section_ s) (Filename s) (Size s) (SHA256 s)
    (URI s) (Origin_ s) r (PublisherVerification s) (Essential s) (Flags s) (StagedPath s) (UserSupplied s).

Definition Key (s : Selection) : gostring := Name s ++ ":" ++ Arch s.
Definition NameVersion (s : Selection) : gostring := Name s ++ "=" ++ Version s.
Definition DependencyOf (pkg : gostring) : gostring := ReasonDependencyOfPrefix ++ pkg.
Definition IsDependency (reason : gostring) : option gostring := cut_prefix ReasonDependencyOfPrefix reason.

(** The comparison of [SortSelections]. *)
Definition selection_less (a b : Selection) : bool :=
  if negb (streq (Name a) (Name b)) then str_ltb (Name a) (Name b)
  else if negb (streq (Arch a) (Arch b)) then str_ltb (Arch a) (Arch b)
  else str_ltb (Version a) (Version b).
Definition SortSelections : list Selection → list Selection := sort_by (λ a b, negb (selection_less b a)).

(** ** attribute.go *)

Section attribute.
Context (known : gset gostring) (deps : gmap gostring (list gostring)).

(** [deps[name]]; a missing key is the nil slice. *)
Definition deps_of (name : gostring) : list gostring := default [] (deps !! name).

(** [dist] and [via] as one map; a name's distance and root. *)
Abbreviation marks := (gmap gostring (nat * gostring)).

(** Both inner loops: mark and enqueue the known names not marked yet. *)
Fixpoint enqueue (mark : gostring → nat * gostring) (names : list gostring) (m : marks) (queue : list gostring)
    : marks * list gostring :=
  match names with
  | [] => (m, queue)
  | n :: names' =>
      if negb (bool_decide (n ∈ known)) then enqueue mark names' m queue
      else match m !! n with
           | Some _ => enqueue mark names' m queue
           | None => enqueue mark names' (<[n := mark n]> m) (queue ++ [n])
           end
  end.
(** Seeding from the roots; the dependencies of a name marked [(d, r)]. *)
Definition seed : list gostring → marks → list gostring → marks * list gostring := enqueue (λ r, (O, r)).
Definition expand (d : nat) (r : gostring) : list gostring → marks → list gostring → marks * list gostring :=
  enqueue (λ _, (S d, r)).

(** The loop over the queue; [pending] is the part not visited yet. *)
Fixpoint bfs (fuel : nat) (m : marks) (pending : list gostring) : marks :=
  match fuel with
  | O => m
  | S fuel' =>
      match pending with
      | [] => m
      | cur :: rest =>
          let '(d, r) := default (O, []) (m !! cur) in
          let '(m', pending') := expand d r (sort_strings (deps_of cur)) m rest in
          bfs fuel' m' pending'
      end
  end.

(** Every known name is enqueued at most once. *)
Definition search (roots : list gostring) : marks :=
  let '(m, queue) := seed (sort_strings roots) ∅ [] in bfs (size known) m queue.

(** The representative of selections [deps] cannot explain. *)
Definition fallback (roots : list gostring) : gostring :=
  let sorted := sort_strings roots in
  let f := default [] (find (λ r, bool_decide (r ∈ known)) sorted) in
  match f, sorted with
  | [], r :: _ => r
  | _, _ => f
  end.

Definition attribute (via : gmap gostring (nat * gostring)) (fb : gostring) (s : Selection) : Selection :=
  if negb (streq (Reason s) "") then s
  else match via !! Name s with
       | Some (_, origin) => if negb (streq origin (Name s)) then with_reason (DependencyOf origin) s else s
       | None => if negb (streq fb "") && negb (streq fb (Name s)) then with_reason (DependencyOf fb) s else s
       end.
End attribute.

Definition AttributeReasons (roots : list gostring) (selections : list Selection)
    (deps : gmap gostring (list gostring)) : list Selection :=
  let known := list_to_set (map Name selections) in
  map (attribute (search known deps roots) (fallback known roots)) selections.

(** ** The search: nearest roots *)

Section bfs.
Context (known : gset gostring) (deps : gmap gostring (list gostring)) (roots : list gostring).

(** A declared dependency between known names. *)
Definition edge (x y : gostring) : Prop := y ∈ deps_of deps x ∧ y ∈ known.

(** [reach d r x]: a walk of [d] edges from the root [r] to [x]. *)
Inductive reach : nat → gostring → gostring → Prop :=
| reach_root r : r ∈ roots → r ∈ known → reach O r r
| reach_edge d r x y : reach d r x → edge x y → reach (S d) r y.

(** Fewer hops first, then the smaller root. *)
Definition mark_le (a b : nat * gostring) : Prop := a.1 < b.1 ∨ (a.1 = b.1 ∧ str_leb a.2 b.2 = true).
Definition mark_succ (a : nat * gostring) : nat * gostring := (S a.1, a.2).
Definition nearest (a : nat * gostring) (x : gostring) : Prop :=
  reach a.1 a.2 x ∧ ∀ d r, reach d r x → mark_le a (d, r).

Lemma reach_source d r x : reach d r x → r ∈ roots ∧ r ∈ known.
Proof. by induction 1. Qed.

Lemma mark_le_refl a : mark_le a a.
Proof. right. split; [done|]. unfold str_leb. by rewrite str_cmp_refl. Qed.
Lemma mark_le_trans a b c : mark_le a b → mark_le b c → mark_le a c.
Proof.
  unfold mark_le. intros [H1|[H1 H1']] [H2|[H2 H2']]; [left; lia..|].
  right. split; [lia|]. eapply str_leb_trans; eassumption.
Qed.
Lemma mark_le_succ a b : mark_le a b → mark_le (mark_succ a) (mark_succ b).
Proof. unfold mark_le, mark_succ. simpl. intros [?|[??]]; [left; lia|right; split; [lia|done]]. Qed.
Lemma mark_succ_le a : mark_le a (mark_succ a).
Proof. left. simpl. lia. Qed.
#[local] Hint Resolve mark_le_refl mark_le_succ mark_succ_le : core.

(** The invariant of the queue loop. *)
Record bfs_inv (visited pending : list gostring) (m : gmap gostring (nat * gostring)) : Prop := {
  inv_nodup : NoDup (visited ++ pending);
  inv_known x : x ∈ visited ++ pending → x ∈ known;
  inv_dom x : x ∈ visited ++ pending ↔ is_Some (m !! x);
  inv_reach x a : m !! x = Some a → reach a.1 a.2 x;
  inv_root r : r ∈ roots → r ∈ known → m !! r = Some (O, r);
  inv_closed x y a : x ∈ visited → m !! x = Some a → edge x y → ∃ b, m !! y = Some b ∧ mark_le b (mark_succ a);
  inv_bound x c a b : m !! x = Some a → c ∈ pending → m !! c = Some b → mark_le a (mark_succ b);
  inv_sorted l1 x l2 y l3 a b :
    pending = l1 ++ x :: l2 ++ y :: l3 → m !! x = Some a → m !! y = Some b → mark_le a b
}.

Lemma bfs_inv_reach visited m d r y :
  bfs_inv visited [] m → reach d r y → ∃ b, m !! y = Some b ∧ mark_le b (d, r).
Proof.
  intros Hinv. induction 1 as [r Hr Hk|d r y z H IH He].
  - exists (O, r). split; [|done]. by eapply inv_root.
  - destruct IH as (b & Hb & Hbd).
    destruct (inv_closed _ _ _ Hinv y z b) as (c & Hc & Hcb); [|done|done|].
    + rewrite <- (app_nil_r visited). eapply inv_dom; eauto.
    + exists c. split; [done|]. eapply mark_le_trans; [exact Hcb|]. by apply (mark_le_succ b (d, r)).
Qed.

(** A finished search knows the nearest root of every name it can reach. *)
Lemma bfs_inv_nearest visited m x :
  bfs_inv visited [] m → (∀ a, m !! x = Some a ↔ nearest a x) ∧ (∀ d r, reach d r x → is_Some (m !! x)).
Proof.
  intros Hinv. split; [|intros d r Hr; destruct (bfs_inv_reach visited m d r x Hinv Hr) as (b & ? & _); eauto].
  intros a. split.
  - intros Ha. split; [by eapply inv_reach|]. intros d r Hr.
    destruct (bfs_inv_reach visited m d r x Hinv Hr) as (b & Hb & Hbd). by simplify_eq.
  - intros [Hr Hmin]. destruct (bfs_inv_reach visited m _ _ x Hinv Hr) as ([d r] & Hb & Hbd). rewrite Hb. f_equal.
    apply (inv_reach _ _ _ Hinv) in Hb. apply Hmin in Hb.
    destruct a as [d' r']. unfold mark_le in *. simpl in *.
    destruct Hb as [?|[? ?]], Hbd as [?|[? ?]]; try lia. f_equal; [lia|]. by apply str_leb_antisym.
Qed.
End bfs.

(** An element of [l ++ k] that is not in [k] lies in [l]. *)
Lemma app_split_one {A} (l k l2 : list A) y l3 :
  l ++ k = l2 ++ y :: l3 → y ∉ k → ∃ l3', l = l2 ++ y :: l3'.
Proof.
  revert l. induction l2 as [|w l2 IH]; intros [|z l] E Hy; simplify_eq/=.
  - exfalso. apply Hy. by left.
  - by exists l.
  - exfalso. apply Hy. rewrite elem_of_cons, elem_of_app, elem_of_cons. auto.
  - destruct (IH l) as (l3' & ->); [done..|]. by exists l3'.
Qed.
Lemma app_split_before {A} (l k l1 : list A) x l2 y l3 :
  l ++ k = l1 ++ x :: l2 ++ y :: l3 → y ∉ k → ∃ l3', l = l1 ++ x :: l2 ++ y :: l3'.
Proof.
  intros E Hy. destruct (app_split_one l k (l1 ++ x :: l2) y l3) as (l3' & ->).
  - rewrite E. by rewrite <- !app_assoc.
  - done.
  - exists l3'. by rewrite <- !app_assoc.
Qed.

Section bfs_run.
Context (known : gset gostring) (deps : gmap gostring (list gostring)) (roots : list gostring).

Lemma enqueue_spec mark names : ∀ m queue,
  ∃ m' added, enqueue known mark names m queue = (m', queue ++ added) ∧ NoDup added ∧
    (∀ y, y ∈ added ↔ y ∈ names ∧ y ∈ known ∧ m !! y = None) ∧
    (∀ y, m' !! y = if decide (y ∈ added) then Some (mark y) else m !! y).
Proof.
  induction names as [|n names IH]; intros m queue; cbn [enqueue].
  - exists m, []. rewrite app_nil_r. split_and!; [done|constructor|set_solver|done].
  - case_bool_decide as Hk; simpl.
    2: { destruct (IH m queue) as (m' & added & -> & Hnd & Hin & Hm).
         exists m', added. split_and!; try done. intros y. rewrite Hin, elem_of_cons. naive_solver. }
    destruct (m !! n) as [a|] eqn:En.
    { destruct (IH m queue) as (m' & added & -> & Hnd & Hin & Hm).
      exists m', added. split_and!; try done. intros y. rewrite Hin, elem_of_cons. naive_solver. }
    destruct (IH (<[n := mark n]> m) (queue ++ [n])) as (m' & added & -> & Hnd & Hin & Hm).
    exists m', (n :: added). rewrite <- app_assoc. split_and!; [done| | |].
    + constructor; [|done]. rewrite Hin, lookup_insert_eq. naive_solver.
    + intros y. rewrite !elem_of_cons, Hin. destruct (decide (y = n)) as [->|Hne]; [naive_solver|].
      rewrite lookup_insert_ne by done. naive_solver.
    + intros y. rewrite Hm. destruct (decide (y = n)) as [->|Hne].
      * rewrite lookup_insert_eq, (decide_True (P := n ∈ n :: added)) by (by left). by case_decide.
      * rewrite lookup_insert_ne by done.
        destruct (decide (y ∈ added)); [rewrite decide_True by (by right)|rewrite decide_False by (rewrite elem_of_cons; naive_solver)]; done.
Qed.

(** From sorted names, what is enqueued is sorted. *)
Lemma enqueue_sorted mark names m queue m' added :
  StronglySorted (leR str_leb) names → enqueue known mark names m queue = (m', queue ++ added) →
  ∀ l1 x l2 y l3, added = l1 ++ x :: l2 ++ y :: l3 → str_leb x y = true.
Proof.
  intros Hs. revert m queue m' added.
  induction Hs as [|n names Hs IH Hn]; intros m queue m' added; cbn [enqueue].
  - intros [= _ E] l1 x l2 y l3 ->. exfalso. destruct l1; by apply (f_equal length) in E; rewrite length_app in E; simpl in E; lia.
  - destruct (negb _); [by apply IH|]. destruct (m !! n); [by apply IH|].
    destruct (enqueue_spec mark names (<[n := mark n]> m) (queue ++ [n])) as (m1 & a1 & E1 & _ & Hin & _).
    rewrite E1. rewrite <- app_assoc. intros [= _ E]. apply app_inv_head in E as <-.
    intros l1 x l2 y l3 E. destruct l1 as [|z l1]; simplify_eq/=.
    + rewrite Forall_forall in Hn. apply Hn. apply (Hin y). set_solver.
    + by apply (IH _ _ _ _ E1 l1 x l2 y l3).
Qed.

Lemma NoDup_length_known (l : list gostring) : NoDup l → (∀ x, x ∈ l → x ∈ known) → (length l ≤ size known)%nat.
Proof.
  intros Hnd Hin. rewrite <- (size_list_to_set (C := gset gostring) l) by done.
  apply subseteq_size. intros x. rewrite elem_of_list_to_set. auto.
Qed.

Abbreviation inv := (bfs_inv known deps roots).

(** The next name of the queue, after its dependencies were enqueued. *)
Lemma bfs_inv_step visited cur rest m d r m' added :
  inv visited (cur :: rest) m → m !! cur = Some (d, r) → NoDup added →
  (∀ y, y ∈ added ↔ edge known deps cur y ∧ m !! y = None) →
  (∀ y, m' !! y = if decide (y ∈ added) then Some (S d, r) else m !! y) →
  inv (visited ++ [cur]) (rest ++ added) m'.
Proof.
  intros Hinv Hcur Hnd Hadd Hm.
  assert (∀ y a, m !! y = Some a → m' !! y = Some a) as Hold.
  { intros y a Hy. rewrite Hm, decide_False; [done|]. rewrite Hadd, Hy. naive_solver. }
  assert (∀ y a, m' !! y = Some a → m !! y = Some a ∨ y ∈ added ∧ a = (S d, r)) as Hnew.
  { intros y a. rewrite Hm. case_decide; [intros [= <-]; auto|auto]. }
  assert (∀ y a, m !! y = Some a → mark_le a (S d, r)) as Hle.
  { intros y a Hy. apply (inv_bound _ _ _ _ _ _ Hinv y cur a (d, r)); [done|by left|done]. }
  assert (∀ x, x ∈ (visited ++ [cur]) ++ rest ++ added ↔ x ∈ visited ++ cur :: rest ∨ x ∈ added) as Hset by set_solver.
  assert (∀ c b, c ∈ rest → m !! c = Some b → mark_le (d, r) b) as Hhead.
  { intros c b (l2 & l3 & ->)%list_elem_of_split Hb.
    by apply (inv_sorted _ _ _ _ _ _ Hinv [] cur l2 c l3 (d, r) b). }
  split.
  - replace ((visited ++ [cur]) ++ rest ++ added) with ((visited ++ cur :: rest) ++ added) by (by rewrite <- !app_assoc).
    apply NoDup_app. split_and!; [apply Hinv| |done].
    intros x Hx Ha. apply (inv_dom _ _ _ _ _ _ Hinv) in Hx as [a Hx]. apply Hadd in Ha as [_ Ha]. congruence.
  - intros x [Hx|Hx]%Hset; [by eapply inv_known|]. apply Hadd in Hx as [[_ Hx] _]. done.
  - intros x. rewrite Hset, (inv_dom _ _ _ _ _ _ Hinv), Hm. case_decide; [naive_solver|]. naive_solver.
  - intros x a [Hx|[Hx ->]]%Hnew; [by eapply inv_reach|]. apply Hadd in Hx as [He _]. simpl.
    eapply reach_edge; [|exact He]. by apply (inv_reach _ _ _ _ _ _ Hinv cur (d, r)).
  - intros r' H1 H2. apply Hold. by eapply inv_root.
  - intros x y a Hx Ha He. destruct (decide (x = cur)) as [->|Hne].
    + rewrite (Hold _ _ Hcur) in Ha. injection Ha as <-.
      destruct (m !! y) as [b|] eqn:Hy; [exists b; eauto|].
      exists (S d, r). split; [|apply mark_le_refl]. rewrite Hm, decide_True; [done|]. by apply Hadd.
    + apply elem_of_app in Hx as [Hx|Hx]; [|set_solver].
      destruct (Hnew _ _ Ha) as [Ha'|[Ha' _]].
      * destruct (inv_closed _ _ _ _ _ _ Hinv x y a) as (b & Hb & Hba); eauto.
      * assert (is_Some (m !! x)) as [? ?] by (eapply inv_dom; [done|set_solver]).
        apply Hadd in Ha' as [_ ?]. congruence.
  - intros x c a b [Hx|[Hx ->]]%Hnew Hc Hb.
    + apply (mark_le_trans _ (S d, r)); [eauto|].
      destruct (Hnew _ _ Hb) as [Hb'|[_ ->]]; [|by left; simpl; lia].
      apply (mark_le_succ (d, r) b). apply elem_of_app in Hc as [Hc|Hc]; [eauto|].
      apply Hadd in Hc as [_ Hc]. congruence.
    + destruct (Hnew _ _ Hb) as [Hb'|[_ ->]]; [|by left; simpl; lia].
      apply (mark_le_succ (d, r) b). apply elem_of_app in Hc as [Hc|Hc]; [eauto|].
      apply Hadd in Hc as [_ Hc]. congruence.
  - intros l1 x l2 y l3 a b E Ha Hb.
    destruct (Hnew _ _ Hb) as [Hb'|[Hyadd ->]].
    + assert (∃ l3', rest = l1 ++ x :: l2 ++ y :: l3') as (l3' & ->).
      { apply (app_split_before rest added l1 x l2 y l3 E). rewrite Hadd, Hb'. naive_solver. }
      destruct (Hnew _ _ Ha) as [Ha'|[Hxadd ->]].
      * by apply (inv_sorted _ _ _ _ _ _ Hinv (cur :: l1) x l2 y l3' a b).
      * assert (is_Some (m !! x)) as [? ?] by (eapply inv_dom; [done|set_solver]).
        apply Hadd in Hxadd as [_ ?]. congruence.
    + destruct (Hnew _ _ Ha) as [Ha'|[_ ->]]; [eauto|apply mark_le_refl].
Qed.

Lemma bfs_inv_seed m queue :
  seed known (sort_strings roots) ∅ [] = (m, queue) → inv [] queue m.
Proof.
  intros E. destruct (enqueue_spec (λ r, (O, r)) (sort_strings roots) ∅ []) as (m' & added & E' & Hnd & Hadd & Hm).
  unfold seed in E. rewrite E' in E. injection E as <- <-. cbn [app].
  assert (∀ y a, m' !! y = Some a → y ∈ added ∧ a = (O, y)) as Hnew.
  { intros y a. rewrite Hm. case_decide; [by intros [= <-]|by rewrite lookup_empty]. }
  assert (∀ y, y ∈ added ↔ y ∈ roots ∧ y ∈ known) as Hadd'.
  { intros y. rewrite Hadd, elem_of_sort_strings, lookup_empty. naive_solver. }
  split; cbn [app].
  - done.
  - intros x Hx. by apply Hadd' in Hx as [_ ?].
  - intros x. rewrite Hm. case_decide; [naive_solver|]. rewrite lookup_empty. split; [done|by intros [? ?]].
  - intros x a [Hx ->]%Hnew. apply Hadd' in Hx as [? ?]. by apply reach_root.
  - intros r H1 H2. rewrite Hm, decide_True; [done|]. by apply Hadd'.
  - intros x y a Hx. by apply elem_of_nil in Hx.
  - intros x c a b [_ ->]%Hnew _ [_ ->]%Hnew. left. simpl. lia.
  - intros l1 x l2 y l3 a b -> [_ ->]%Hnew [_ ->]%Hnew. right. split; [done|].
    apply (enqueue_sorted (λ r, (O, r)) (sort_strings roots) ∅ [] m' (l1 ++ x :: l2 ++ y :: l3)
      (sort_strings_sorted roots) E' l1 x l2 y l3 eq_refl).
Qed.

Lemma bfs_nearest fuel : ∀ visited pending m,
  inv visited pending m → (size known ≤ fuel + length visited)%nat →
  ∀ x, (∀ a, bfs known deps fuel m pending !! x = Some a ↔ nearest known deps roots a x) ∧
    (∀ d r, reach known deps roots d r x → is_Some (bfs known deps fuel m pending !! x)).
Proof.
  induction fuel as [|fuel IH]; intros visited pending m Hinv Hf x.
  - destruct pending as [|c rest]; [by eapply bfs_inv_nearest|]. exfalso.
    pose proof (inv_nodup _ _ _ _ _ _ Hinv) as Hnd. apply NoDup_length_known in Hnd; [|apply Hinv].
    rewrite length_app in Hnd. simpl in *. lia.
  - cbn [bfs]. destruct pending as [|cur rest]; [by eapply bfs_inv_nearest|].
    assert (is_Some (m !! cur)) as [[d r] Hcur] by (eapply inv_dom; [done|set_solver]).
    rewrite Hcur. simpl.
    destruct (enqueue_spec (λ _, (S d, r)) (sort_strings (deps_of deps cur)) m rest) as (m' & added & E & Hnd & Hadd & Hm).
    unfold expand. rewrite E. apply (IH (visited ++ [cur])).
    + apply (bfs_inv_step visited cur rest m d r m' added); try done.
      intros y. rewrite Hadd, elem_of_sort_strings. unfold edge. naive_solver.
    + rewrite length_app. simpl. lia.
Qed.

(** The search ends with the nearest root of every reachable name. *)
Lemma search_nearest x :
  (∀ a, search known deps roots !! x = Some a ↔ nearest known deps roots a x) ∧
  (∀ d r, reach known deps roots d r x → is_Some (search known deps roots !! x)).
Proof.
  unfold search. destruct (seed known (sort_strings roots) ∅ []) as [m queue] eqn:E.
  apply (bfs_nearest _ [] queue); [by apply bfs_inv_seed|simpl; lia].
Qed.
End bfs_run.

(** ** Attribution *)

Lemma fallback_spec known roots :
  (roots = [] ∧ fallback known roots = []) ∨
  (fallback known roots ∈ roots ∧
   ((∃ r, r ∈ roots ∧ r ∈ known) → fallback known roots ∈ known) ∧
   (∀ r, r ∈ roots → (r ∈ known ∨ ∀ r', r' ∈ roots → r' ∉ known) → str_leb (fallback known roots) r = true)).
Proof.
  unfold fallback. pose proof (sort_strings_sorted roots) as Hs. pose proof (λ x, elem_of_sort_strings x roots) as Hin.
  assert (∀ r, str_leb r r = true) as Hrefl by (intros r; unfold str_leb; by rewrite str_cmp_refl).
  destruct (sort_strings roots) as [|w ws].
  - left. assert (roots = []) as -> by (apply elem_of_nil_inv; intros x Hx; apply Hin in Hx; by apply elem_of_nil in Hx).
    done.
  - right.
    assert (∀ r, r ∈ roots → str_leb w r = true) as Hw.
    { intros r Hr. apply Hin in Hr. apply elem_of_cons in Hr as [->|Hr]; [done|].
      apply StronglySorted_inv in Hs as [_ Hs]. rewrite Forall_forall in Hs. by apply Hs. }
    assert (w ∈ roots) as Hwr by (apply Hin; by left).
    destruct (find (λ r, bool_decide (r ∈ known)) (w :: ws)) as [f|] eqn:Ef.
    + pose proof (find_some _ _ Ef) as [Hf Hk]. apply list_elem_of_In, Hin in Hf. bsplit.
      assert (∀ r, r ∈ roots → r ∈ known → str_leb f r = true) as Hmin.
      { intros r Hr Hrk. apply Hin in Hr. clear -Ef Hs Hr Hrk Hrefl.
        revert Hr Ef. induction Hs as [|z zs Hs IH Hz]; intros Hr Ef; [done|]. cbn [find] in Ef. case_bool_decide as E.
        - injection Ef as <-. apply elem_of_cons in Hr as [->|Hr]; [done|]. rewrite Forall_forall in Hz. by apply Hz.
        - apply elem_of_cons in Hr as [->|Hr]; [done|auto]. }
      cbn [default from_option id]. destruct f as [|c f'].
      * assert (w = []) as -> by (apply str_leb_antisym; [auto|by destruct w]). naive_solver.
      * naive_solver.
    + assert (∀ r, r ∈ roots → r ∉ known) as Hnone.
      { intros r Hr Hk. apply Hin, list_elem_of_In in Hr.
        apply (find_none _ _ Ef) in Hr. by rewrite bool_decide_eq_true_2 in Hr. }
      cbn [default from_option]. split_and!; [done|naive_solver|auto].
Qed.

(** Attribution changes nothing but blank reasons. A blank one of a
    selection that dependencies reach names the root with the fewest hops, the
    smallest name among equals (and stays blank on a root itself); one they do
    not reach gets the first root, and a parent recorded here is always a root
    other than the selection, and one that is itself selected whenever any is. *)
Theorem AttributeReasons_spec (roots : list gostring) (selections : list Selection)
    (deps : gmap gostring (list gostring)) :
  let known := list_to_set (map Name selections) in
  length (AttributeReasons roots selections deps) = length selections ∧
  ∀ i s, selections !! i = Some s → ∃ s',
    AttributeReasons roots selections deps !! i = Some s' ∧ s' = with_reason (Reason s') s ∧
    (Reason s ≠ [] → s' = s) ∧
    (Reason s = [] →
      (∀ d r, nearest known deps roots (d, r) (Name s) →
         Reason s' = if decide (r = Name s) then [] else DependencyOf r) ∧
      ((∀ d r, ¬ reach known deps roots d r (Name s)) →
         Reason s' = if decide (fallback known roots = [] ∨ fallback known roots = Name s) then []
                     else DependencyOf (fallback known roots)) ∧
      (∀ parent, Reason s' = DependencyOf parent →
         parent ∈ roots ∧ parent ≠ Name s ∧ ((∃ r, r ∈ roots ∧ r ∈ known) → parent ∈ known))).
Proof.
  intros known. unfold AttributeReasons. rewrite length_map. split; [done|]. intros i s Hi.
  exists (attribute (search known deps roots) (fallback known roots) s).
  split; [by rewrite list_lookup_fmap, Hi|].
  destruct (search_nearest known deps roots (Name s)) as [Hn Hr].
  unfold attribute. destruct (streq (Reason s) "") eqn:Eb; cbn [negb].
  2: { split; [by destruct s|]. split; [done|]. intros E. rewrite E in Eb. done. }
  unfold streq in *. bsplit. change (bytes_of "") with (@nil ascii) in *.
  assert (with_reason [] s = s) as Hs by (destruct s; simpl in *; by subst).
  destruct (search known deps roots !! Name s) as [[d r]|].
  - pose proof (proj1 (Hn _) eq_refl) as Hnear.
    split_and!; [case_bool_decide; by destruct s|by rewrite Eb|]. intros _. split_and!.
    + intros d' r' H. apply Hn in H. simplify_eq. case_bool_decide; [by rewrite decide_True|by rewrite decide_False].
    + intros H. destruct Hnear as [H' _]. by apply H in H'.
    + case_bool_decide; cbn [negb]; [by rewrite Eb|]. intros parent Hp. apply app_inv_head in Hp as <-.
      destruct Hnear as [H' _]. apply reach_source in H' as [? ?]. done.
  - split_and!; [do 2 case_bool_decide; by destruct s|by rewrite Eb|]. intros _. split_and!.
    + intros d r H. by apply Hn in H.
    + intros _. do 2 case_bool_decide; cbn [negb andb]; first [rewrite decide_True by tauto|rewrite decide_False by tauto]; done.
    + do 2 case_bool_decide; cbn [negb andb]; rewrite ?Eb; try done. intros parent Hp. apply app_inv_head in Hp as <-.
      destruct (fallback_spec known roots) as [[_ ?]|(? & ? & _)]; [done|auto].
Qed.
