(* ===== verification/DigestAll.v ===== *)
(** * core/digest: the other two digests of an index, MD5 and SHA-1.

    apt's index format carries them beside SHA-256. Modules [Md5] and [Sha1] are
    RFC 1321 and FIPS 180-4 on byte lists, over the word operations of
    [Sha256]; [AllReader] is the set for one file. *)
From S2P Require Export Digest.
#[local] Open Scope Z_scope.

Definition rotl (n x : Z) : Z := Z.lor (Sha256.mask (Z.shiftl x n)) (Z.shiftr x (32 - n)).
Definition not32 (x : Z) : Z := 4294967295 - x.
(** The blocks of 64 bytes of a padded message, folded into a state. *)
Fixpoint fold_blocks {A : Type} (f : A → gostring → A) (fuel : nat) (s : A) (m : gostring) : A :=
  match fuel, m with
  | S fuel', _ :: _ => fold_blocks f fuel' (f s (firstn 64 m)) (skipn 64 m)
  | _, _ => s
  end.

Module Sha1.
Definition state : Type := Z * Z * Z * Z * Z.
Definition initial : state := (1732584193, 4023233417, 2562383102, 271733878, 3285377520).
Definition round (s : state) (tw : Z * Z) : state :=
  let '(t, w) := tw in
  let '(a, b, c, d, e) := s in
  let '(f, k) :=
    if t <? 20 then (Z.lor (Z.land b c) (Z.land (not32 b) d), 1518500249)
    else if t <? 40 then (Sha256.xor3 b c d, 1859775393)
    else if t <? 60 then (Z.lor (Z.land b c) (Z.lor (Z.land b d) (Z.land c d)), 2400959708)
    else (Sha256.xor3 b c d, 3395469782) in
  (Sha256.add32 (rotl 5 a + f) (e + k + w), a, rotl 30 b, c, d).
(** Sixteen message words extended to eighty; the list is newest first. *)
Fixpoint extend (n : nat) (ws : list Z) : list Z :=
  match n with
  | O => ws
  | S n' => extend n' (rotl 1 (Z.lxor (nth 2 ws 0) (Sha256.xor3 (nth 7 ws 0) (nth 13 ws 0) (nth 15 ws 0))) :: ws)
  end.
Definition block (s : state) (m : gostring) : state :=
  let ws := rev (extend 64 (rev (Sha256.words m))) in
  let '(a, b, c, d, e) := fold_left round (combine (map Z.of_nat (seq 0 80)) ws) s in
  let '(a0, b0, c0, d0, e0) := s in
  (Sha256.add32 a0 a, Sha256.add32 b0 b, Sha256.add32 c0 c, Sha256.add32 d0 d, Sha256.add32 e0 e).
Definition sum (m : gostring) : gostring :=
  let p := Sha256.pad m in
  let '(a, b, c, d, e) := fold_blocks block (length p) initial p in
  concat (map (Sha256.be_bytes 4) [a; b; c; d; e]).
Lemma length_sha1 m : length (sum m) = 20%nat.
Proof. unfold sum. destruct (fold_blocks _ _ _ _) as [[[[a b] c] d] e]. cbn [map concat]. by rewrite !length_app. Qed.
End Sha1.

Module Md5.
Definition state : Type := Z * Z * Z * Z.
Definition initial : state := (1732584193, 4023233417, 2562383102, 271733878).
(** The integer parts of 2^32 times the sines of 1 to 64. *)
Definition sines : list Z := [
   3614090360; 3905402710; 606105819; 3250441966; 4118548399; 1200080426; 2821735955; 4249261313;
   1770035416; 2336552879; 4294925233; 2304563134; 1804603682; 4254626195; 2792965006; 1236535329;
   4129170786; 3225465664; 643717713; 3921069994; 3593408605; 38016083; 3634488961; 3889429448;
   568446438; 3275163606; 4107603335; 1163531501; 2850285829; 4243563512; 1735328473; 2368359562;
   4294588738; 2272392833; 1839030562; 4259657740; 2763975236; 1272893353; 4139469664; 3200236656;
   681279174; 3936430074; 3572445317; 76029189; 3654602809; 3873151461; 530742520; 3299628645;
   4096336452; 1126891415; 2878612391; 4237533241; 1700485571; 2399980690; 4293915773; 2240044497;
   1873313359; 4264355552; 2734768916; 1309151649; 4149444226; 3174756917; 718787259; 3951481745].
Definition shifts : list Z :=
  concat (map (λ r : list Z, r ++ r ++ r ++ r) [[7; 12; 17; 22]; [5; 9; 14; 20]; [4; 11; 16; 23]; [6; 10; 15; 21]]).
Fixpoint words_le (s : gostring) : list Z :=
  match s with
  | a :: b :: c :: d :: s' => (ord d * 16777216 + ord c * 65536 + ord b * 256 + ord a) :: words_le s'
  | _ => []
  end.
Definition round (ws : list Z) (s : state) (step : Z * (Z * Z)) : state :=
  let '(i, (k, r)) := step in
  let '(a, b, c, d) := s in
  let '(f, g) :=
    if i <? 16 then (Z.lor (Z.land b c) (Z.land (not32 b) d), i)
    else if i <? 32 then (Z.lor (Z.land d b) (Z.land (not32 d) c), (5 * i + 1) mod 16)
    else if i <? 48 then (Sha256.xor3 b c d, (3 * i + 5) mod 16)
    else (Z.lxor c (Z.lor b (not32 d)), (7 * i) mod 16) in
  (d, Sha256.add32 b (rotl r (Sha256.add32 (a + f) (k + nth (Z.to_nat g) ws 0))), b, c).
Definition block (s : state) (m : gostring) : state :=
  let '(a, b, c, d) := fold_left (round (words_le m)) (combine (map Z.of_nat (seq 0 64)) (combine sines shifts)) s in
  let '(a0, b0, c0, d0) := s in
  (Sha256.add32 a0 a, Sha256.add32 b0 b, Sha256.add32 c0 c, Sha256.add32 d0 d).
Definition le_bytes (n : nat) (x : Z) : gostring := rev (Sha256.be_bytes n x).
Definition pad (m : gostring) : gostring :=
  let len := Z.of_nat (length m) in
  m ++ chr 128 :: replicate (Z.to_nat ((55 - len) mod 64)) (chr 0) ++ le_bytes 8 (8 * len).
Definition sum (m : gostring) : gostring :=
  let p := pad m in
  let '(a, b, c, d) := fold_blocks block (length p) initial p in
  concat (map (le_bytes 4) [a; b; c; d]).
Lemma length_md5 m : length (sum m) = 16%nat.
Proof.
  unfold sum. destruct (fold_blocks _ _ _ _) as [[[a b] c] d]. cbn [map concat]. unfold le_bytes.
  by rewrite !length_app, !length_rev.
Qed.
End Md5.

Example sha1_abc : hex_encode (Sha1.sum "abc") = bytes_of "a9993e364706816aba3e25717850c26c9cd0d89d".
Proof. vm_compute. reflexivity. Qed.
Example sha1_two_blocks : hex_encode (Sha1.sum "abcdbcdecdefdefgefghfghighijhijkijkljklmklmnlmnomnopnopq")
  = bytes_of "84983e441c3bd26ebaae4aa1f95129e5e54670f1".
Proof. vm_compute. reflexivity. Qed.
Example md5_digest : hex_encode (Md5.sum "message digest") = bytes_of "f96b697d7cb7938d525a2f31aaf161d0".
Proof. vm_compute. reflexivity. Qed.
Example md5_two_blocks : hex_encode (Md5.sum "12345678901234567890123456789012345678901234567890123456789012345678901234567890")
  = bytes_of "57edf4a22be3c955ac49da2e2107b67a".
Proof. vm_compute. reflexivity. Qed.
#[global] Opaque Sha1.sum Md5.sum.

(** [AllReader], [AllFile] on a file that is read without an error. *)
Definition AllReader (content : gostring) : FileHashes :=
  mkFileHashes (Z.of_nat (length content)) (hex_encode (Md5.sum content)) (hex_encode (Sha1.sum content)) (Bytes content).
