(* ===== verification/Repository.v ===== *)
(** * core/repository: the index of a bundle's repository.

    iface.go and api.go: pool paths, the stanza of a .deb, [Packages],
    [Packages.gz] and [Release]. The directory is a map from paths to bytes;
    which files of it can be written is an argument. Reading a .deb is the
    library pault.ag/go/debian ([DebReader]): a control paragraph is the order
    of its keys and a map of its values. The bytes compress/gzip writes are a
    parameter ([Gzip]). After an error the tree is not described. *)
From stdpp Require Export gmap.
From S2P Require Export PathJoin Dferr DigestAll.
#[local] Open Scope Z_scope.

Record paragraph := mkParagraph { Order : list gostring; Values : gmap gostring gostring }.
(** [deb.LoadFile] on the bytes of a file. *)
Class DebReader := { LoadFile : gostring → option paragraph }.
(** [gzip.NewWriterLevel] with an empty header, and reading it back. *)
Class Gzip := { gzipBytes : gostring → gostring; gunzip : gostring → option gostring; gunzip_gzip data : gunzip (gzipBytes data) = Some data }.

Record PoolFile := mkPoolFile { pf_Path : gostring; pf_Hashes : FileHashes }.
Definition zero_hashes : FileHashes := mkFileHashes 0 [] [] [].
Record ReleaseFields := mkRelease {
  rf_Origin : gostring; rf_Label : gostring; rf_Suite : gostring; rf_Codename : gostring;
  rf_Architectures : list gostring; rf_Components : list gostring; rf_Description : gostring; rf_Date : gostring;
  rf_NotAutomatic : bool; rf_ButAutomaticUpgrades : bool; rf_ExtraFields : gmap gostring gostring
}.
Record Input := mkInput { in_Dir : gostring; in_Files : list PoolFile; in_Release : ReleaseFields; in_Compress : bool }.
Record Result := mkResult {
  re_PackagesPath : gostring; re_PackagesGzPath : gostring; re_ReleasePath : gostring;
  re_PackagesSHA256 : gostring; re_PackagesGzSHA256 : gostring; re_ReleaseSHA256 : gostring;
  re_PackageCount : Z; re_PoolBytes : Z
}.

Inductive repo_error :=
| DirRequired
| EmptyPath
| BadPoolPath (path why : gostring)
| UnreadableDeb (path : gostring)
| NoPackageField (path : gostring)
| IllegalFieldName (path key : gostring)
| DuplicateField (path key : gostring)
| ControlByte (path key : gostring)
| WriteFailed (name : gostring)
| IllegalReleaseName (key : gostring)
| ReleaseLeadingSpace (key : gostring)
| ReleaseControlByte (key : gostring).
Definition repo_class (e : repo_error) : Class :=
  match e with
  | IllegalFieldName _ _ | DuplicateField _ _ | ControlByte _ _ => Verification
  | WriteFailed _ => Environment
  | _ => Usage
  end.

(** ** iface.go *)

Definition isLowerAlnum (c : ascii) : bool := is_lower c || is_digit c.
Definition ValidPackageName (s : gostring) : bool :=
  match s with
  | [] => false
  | c :: _ =>
      (Z.of_nat (length s) <=? 255) && isLowerAlnum c
      && forallb (λ c, isLowerAlnum c || beq c "+" || beq c "-" || beq c ".") s
  end.
Definition ValidFilename (s : gostring) : bool :=
  match s with
  | [] => false
  | c :: _ =>
      (Z.of_nat (length s) <=? 255) && negb (streq s "." || streq s ".." || beq c ".") && has_suffix ".deb" s
      && forallb (λ c, negb (beq c "/" || beq c "\" || beq c ":" || is_control c)) s
  end.
Definition poolPrefix (pkg : gostring) : gostring :=
  if (4 <=? Z.of_nat (length pkg)) && has_prefix "lib" pkg then take 4 pkg
  else if streq pkg "" then bytes_of "_" else take 1 pkg.
Definition PoolPath (pkg filename : gostring) : gostring :=
  if negb (ValidPackageName pkg) || negb (ValidFilename filename) then []
  else "pool/" ++ poolPrefix pkg ++ "/" ++ pkg ++ "/" ++ filename.

(** ** Control fields *)

Definition isASCIIAlnum (c : ascii) : bool := is_lower c || is_upper c || is_digit c.
Definition validFieldName (s : gostring) : bool :=
  match s with
  | [] => false
  | c :: rest => (Z.of_nat (length s) <=? 255) && isASCIIAlnum c && forallb (λ c, isASCIIAlnum c || beq c "-") rest
  end.
Definition owned_fields : list gostring := map bytes_of ["filename"; "size"; "md5sum"; "sha1"; "sha256"; "sha512"]%string.
Definition aptOwnsField (lower : gostring) : bool := bool_decide (lower ∈ owned_fields).
Definition checkFieldValue (value : gostring) : bool :=
  forallb (λ c, beq c newline || beq c (chr 9) || negb (is_control c)) value.

Section writer.
Context {unicode : UnicodeTables}.

Record kept := mkKept { ke_Order : list gostring; ke_Values : gmap gostring gostring; ke_Seen : gset gostring }.
Definition keep (poolPath : gostring) (values : gmap gostring gostring) (key : gostring) (st : kept) : result repo_error kept :=
  let lower := to_lower key in
  let value := default [] (values !! key) in
  let seen := {[lower]} ∪ ke_Seen st in
  if negb (validFieldName key) then Err (IllegalFieldName poolPath key)
  else if bool_decide (lower ∈ ke_Seen st) then Err (DuplicateField poolPath key)
  else if aptOwnsField lower then Ok (mkKept (ke_Order st) (ke_Values st) seen)
  else if negb (checkFieldValue value) then Err (ControlByte poolPath key)
  else Ok (mkKept (ke_Order st ++ [key]) (<[key := value]> (ke_Values st)) seen).
Fixpoint keep_all (poolPath : gostring) (values : gmap gostring gostring) (keys : list gostring) (st : kept) : result repo_error kept :=
  match keys with
  | [] => Ok st
  | key :: rest => st' ← keep poolPath values key st; keep_all poolPath values rest st'
  end.
Definition is_package (key : gostring) : bool := streq key "Package".
Definition controlFields (poolPath : gostring) (order : list gostring) (values : gmap gostring gostring)
    : result repo_error (list gostring * gmap gostring gostring) :=
  let first := if existsb is_package order then [bytes_of "Package"] else [] in
  st ← keep_all poolPath values first (mkKept [] ∅ ∅);
  st ← keep_all poolPath values (List.filter (λ k, negb (is_package k)) order) st;
  Ok (ke_Order st, ke_Values st).

(** ** A stanza *)

Definition continuation (line : gostring) : gostring := " " ++ (if streq line "" then bytes_of "." else line) ++ [newline].
Definition writeControlField (key value : gostring) : gostring :=
  match split newline (trim_suffix [newline] value) with
  | [] => key ++ ": " ++ [newline]
  | l :: ls => key ++ ": " ++ l ++ newline :: concat (map continuation ls)
  end.
Definition renderStanza (order : list gostring) (values : gmap gostring gostring) : gostring :=
  concat (map (λ key, writeControlField key (default [] (values !! key))) order).

Definition checkPoolPath (p : gostring) : option repo_error :=
  if 4096 <? Z.of_nat (length p) then Some (BadPoolPath p "is longer than 4096 bytes")
  else if negb (utf8_valid p) then Some (BadPoolPath p "is not valid UTF-8")
  else if negb (plain_bytes p) then Some (BadPoolPath p "contains a backslash or a control byte")
  else if has_prefix "/" p then Some (BadPoolPath p "is absolute")
  else if drive_letter p then Some (BadPoolPath p "names a drive letter")
  else if negb (streq (path_clean p) p) then Some (BadPoolPath p "is not in cleaned form")
  else if streq p "." || streq p ".." || has_prefix "../" p then Some (BadPoolPath p "escapes the repository root")
  else None.

Record stanza := mkStanza { st_name : gostring; st_arch : gostring; st_version : gostring; st_text : gostring; st_hashes : FileHashes }.
Definition stanza_leb (a b : stanza) : bool :=
  if negb (streq (st_name a) (st_name b)) then str_leb (st_name a) (st_name b)
  else if negb (streq (st_arch a) (st_arch b)) then str_leb (st_arch a) (st_arch b)
  else str_leb (st_version a) (st_version b).

Context {deb : DebReader} {gz : Gzip}.
Abbreviation files := (gmap gostring gostring) (only parsing).

Definition hash_fields : list gostring := map bytes_of ["Filename"; "Size"; "MD5sum"; "SHA1"; "SHA256"]%string.
Definition with_hashes (path : gostring) (h : FileHashes) (values : gmap gostring gostring) : gmap gostring gostring :=
  <[bytes_of "SHA256" := SHA256 h]> (<[bytes_of "SHA1" := SHA1 h]> (<[bytes_of "MD5sum" := MD5 h]>
    (<[bytes_of "Size" := itoa (Size h)]> (<[bytes_of "Filename" := path]> values)))).
Definition readStanza (dir : gostring) (fs : files) (pf : PoolFile) : result repo_error stanza :=
  if streq (pf_Path pf) "" then Err EmptyPath
  else match checkPoolPath (pf_Path pf) with
  | Some e => Err e
  | None =>
      match fs !! filepath_join [dir; pf_Path pf] with
      | None => Err (UnreadableDeb (pf_Path pf))
      | Some data =>
          match LoadFile data with
          | None => Err (UnreadableDeb (pf_Path pf))
          | Some para =>
              let value key := default [] (Values para !! bytes_of key) in
              if streq (value "Package") "" then Err (NoPackageField (pf_Path pf))
              else
                let h := if bool_decide (pf_Hashes pf = zero_hashes) then AllReader data else pf_Hashes pf in
                '(order, values) ← controlFields (pf_Path pf) (Order para) (Values para);
                Ok (mkStanza (value "Package") (value "Architecture") (value "Version")
                      (renderStanza (order ++ hash_fields) (with_hashes (pf_Path pf) h values)) h)
          end
      end
  end.
Fixpoint read_stanzas (dir : gostring) (fs : files) (pfs : list PoolFile) : result repo_error (list stanza) :=
  match pfs with
  | [] => Ok []
  | pf :: rest => st ← readStanza dir fs pf; sts ← read_stanzas dir fs rest; Ok (st :: sts)
  end.

(** ** Release *)

Definition checkReleaseField (key value : gostring) : option repo_error :=
  if negb (validFieldName key) then Some (IllegalReleaseName key)
  else if has_prefix " " value || has_prefix [chr 9] value then Some (ReleaseLeadingSpace key)
  else if existsb is_control value then Some (ReleaseControlByte key)
  else None.
Fixpoint release_text (kvs : list (gostring * gostring)) : result repo_error gostring :=
  match kvs with
  | [] => Ok []
  | (key, value) :: rest =>
      if streq value "" then release_text rest
      else match checkReleaseField key value with
      | Some e => Err e
      | None => text ← release_text rest; Ok (key ++ ": " ++ value ++ newline :: text)
      end
  end.
Definition named (key : String.string) (value : gostring) : gostring * gostring := (bytes_of key, value).
Definition release_fields (f : ReleaseFields) : list (gostring * gostring) :=
  [named "Origin" (rf_Origin f); named "Label" (rf_Label f); named "Suite" (rf_Suite f); named "Codename" (rf_Codename f);
   named "Architectures" (join " " (rf_Architectures f)); named "Components" (join " " (rf_Components f));
   named "Date" (rf_Date f); named "Description" (rf_Description f);
   named "NotAutomatic" (if rf_NotAutomatic f then bytes_of "yes" else []);
   named "ButAutomaticUpgrades" (if rf_ButAutomaticUpgrades f then bytes_of "yes" else [])]
  ++ map (λ k, (k, default [] (rf_ExtraFields f !! k))) (sort_strings (map fst (map_to_list (rf_ExtraFields f)))).
Definition hash_line (digest : FileHashes → gostring) (e : gostring * FileHashes) : gostring :=
  " " ++ digest e.2 ++ " " ++ itoa (Size e.2) ++ " " ++ e.1 ++ [newline].
Definition hash_block (name : gostring) (digest : FileHashes → gostring) (entries : list (gostring * FileHashes)) : gostring :=
  name ++ ":" ++ newline :: concat (map (hash_line digest) entries).
Definition hashed_entries (pkgHashes gzHashes : FileHashes) (compress : bool) : list (gostring * FileHashes) :=
  (bytes_of "Packages", pkgHashes) :: if compress then [(bytes_of "Packages.gz", gzHashes)] else [].
Definition renderRelease (f : ReleaseFields) (pkgHashes gzHashes : FileHashes) (compress : bool) : result repo_error gostring :=
  text ← release_text (release_fields f);
  let entries := hashed_entries pkgHashes gzHashes compress in
  Ok (text ++ hash_block "MD5Sum" MD5 entries ++ hash_block "SHA1" SHA1 entries ++ hash_block "SHA256" SHA256 entries).

(** ** Write *)

Definition write_file (can_write : gostring → bool) (dir name data : gostring) (fs : files) : result repo_error files :=
  if can_write (filepath_join [dir; name]) then Ok (<[filepath_join [dir; name] := data]> fs) else Err (WriteFailed name).
Definition Write (can_write : gostring → bool) (inp : Input) (fs : files) : result repo_error (Result * files) :=
  if streq (in_Dir inp) "" then Err DirRequired
  else
    let dir := in_Dir inp in
    sts ← read_stanzas dir fs (in_Files inp);
    let packages := join [newline] (map st_text (sort_by stanza_leb sts)) in
    fs ← write_file can_write dir "Packages" packages fs;
    fs ← (if in_Compress inp then write_file can_write dir "Packages.gz" (gzipBytes packages) fs else Ok fs);
    let pkgHashes := AllReader packages in
    let gzHashes := if in_Compress inp then AllReader (gzipBytes packages) else zero_hashes in
    release ← renderRelease (in_Release inp) pkgHashes gzHashes (in_Compress inp);
    fs ← write_file can_write dir "Release" release fs;
    Ok (mkResult "Packages" (if in_Compress inp then bytes_of "Packages.gz" else []) "Release"
          (SHA256 pkgHashes) (SHA256 gzHashes) (Bytes release)
          (Z.of_nat (length sts)) (foldr Z.add 0 (map (λ st, Size (st_hashes st)) sts)), fs).
End writer.
