(* ===== verification/RepositorySafe.v ===== *)
(** * core/repository: what a reader of the index is told.

    [read_index] is the format as apt reads it: paragraphs between empty lines,
    a field a name and a value, a line that begins with a blank belonging to the
    field above it, names compared without case. [Write_indexed] says what that
    reader gets from what [Write] leaves. *)
From S2P Require Export Repository.
#[local] Open Scope Z_scope.
#[local] Set Default Proof Using "Type*".

(** ** A reader of the format *)

Definition blanks : gostring := bytes_of " " ++ [chr 9].
Definition trim_blanks (s : gostring) : gostring := trim_right blanks (drop_in blanks s).
Definition continues (line : gostring) : bool := match line with c :: _ => beq c " " || beq c (chr 9) | [] => false end.
Definition undot (line : gostring) : gostring := if streq line "." then [] else line.

(** Lines into paragraphs. *)
Fixpoint paragraphs (lines : list gostring) : list (list gostring) :=
  match lines with
  | [] => [[]]
  | l :: rest =>
      match paragraphs rest with
      | p :: ps => if streq l "" then [] :: p :: ps else (l :: p) :: ps
      | [] => []
      end
  end.
(** The lines of a paragraph into fields; first the lines that continue a field
    before them. *)
Fixpoint read_fields (lines : list gostring) : list gostring * list (gostring * list gostring) :=
  match lines with
  | [] => ([], [])
  | l :: rest =>
      let '(more, fields) := read_fields rest in
      if continues l then (undot (tail l) :: more, fields)
      else match cut ":" l with
      | Some (key, value) => ([], (key, trim_blanks value :: more) :: fields)
      | None => ([], fields)
      end
  end.
Definition nonempty {A : Type} (l : list A) : bool := match l with [] => false | _ => true end.
Definition read_index (text : gostring) : list (list (gostring * list gostring)) :=
  map (λ p, (read_fields p).2) (List.filter nonempty (paragraphs (split newline text))).
(** The lines of a value: the first trimmed, the others as they are. *)
Definition read_value (value : gostring) : list gostring :=
  match split newline (trim_suffix [newline] value) with
  | l :: ls => trim_blanks l :: map undot ls
  | [] => []
  end.

(** ** Written lines read back *)

Definition unlines (ls : list gostring) : gostring := concat (map (λ l, l ++ [newline]) ls).
Definition dotted (line : gostring) : gostring := " " ++ (if streq line "" then bytes_of "." else line).
Definition field_lines (kv : gostring * gostring) : list gostring :=
  match split newline (trim_suffix [newline] kv.2) with
  | l :: ls => (kv.1 ++ ": " ++ l) :: map dotted ls
  | [] => []
  end.
Definition clean_line (l : gostring) : Prop := l ≠ [] ∧ newline ∉ l.

Lemma unlines_app a b : unlines (a ++ b) = unlines a ++ unlines b.
Proof. unfold unlines. by rewrite map_app, concat_app. Qed.
Lemma unlines_concat ls : unlines (concat ls) = concat (map unlines ls).
Proof. induction ls as [|l ls IH]; [done|]. cbn [map concat]. by rewrite unlines_app, IH. Qed.

Lemma writeControlField_lines key value : writeControlField key value = unlines (field_lines (key, value)).
Proof.
  unfold writeControlField, field_lines. cbn [fst snd]. destruct (split_hd newline (trim_suffix [newline] value)) as (l & ls & ->).
  assert (concat (map continuation ls) = unlines (map dotted ls)) as ->.
  { unfold unlines. by rewrite map_map. }
  unfold unlines. cbn [map concat]. by rewrite <- !app_assoc.
Qed.

Lemma split_sep c s : split c (c :: s) = [] :: split c s.
Proof. exact (split_app_sep c [] s (not_elem_of_nil _)). Qed.
Lemma split_written ls rest : (∀ l, l ∈ ls → newline ∉ l) → split newline (unlines ls ++ rest) = ls ++ split newline rest.
Proof.
  induction ls as [|l ls IH]; intros H; [done|]. unfold unlines. cbn [map concat app].
  rewrite <- !app_assoc. cbn [app]. rewrite split_app_sep by (apply H; left). f_equal.
  apply IH. intros x Hx. apply H. by right.
Qed.

Lemma paragraphs_cons ls : ∃ p ps, paragraphs ls = p :: ps.
Proof.
  induction ls as [|l ls (p & ps & IH)]; [by do 2 eexists|]. cbn [paragraphs]. rewrite IH.
  destruct (streq l ""); by do 2 eexists.
Qed.
Lemma paragraphs_app ls rest : Forall clean_line ls → paragraphs (ls ++ [] :: rest) = ls :: paragraphs rest.
Proof.
  induction 1 as [|l ls [Hl _] _ IH]; cbn [app paragraphs].
  - by destruct (paragraphs_cons rest) as (p & ps & ->).
  - rewrite IH. by rewrite streq_false.
Qed.

Lemma read_index_unlines Ls : Forall (λ ls, ls ≠ [] ∧ Forall clean_line ls) Ls →
  read_index (join [newline] (map unlines Ls)) = map (λ ls, (read_fields ls).2) Ls.
Proof.
  intros H. unfold read_index. f_equal.
  assert (∀ ls, Forall clean_line ls → ∀ l, l ∈ ls → newline ∉ l) as Hnl.
  { intros ls Hls l Hl. by apply (proj1 (Forall_forall _ _) Hls). }
  induction H as [|ls Ls [Hne Hc] H IH]; [done|]. destruct Ls as [|ls' Ls].
  - cbn [map join]. rewrite <- (app_nil_r (unlines ls)), split_written by (by apply Hnl). cbn [split].
    rewrite paragraphs_app by done. by destruct ls.
  - cbn [map join] in *. rewrite split_written by (by apply Hnl). cbn [app]. rewrite split_sep.
    rewrite paragraphs_app by done. cbn [List.filter]. destruct ls; [done|]. cbn [nonempty]. f_equal. exact IH.
Qed.

Lemma forallb_elem {A : Type} (f : A → bool) l x : forallb f l = true → x ∈ l → f x = true.
Proof. rewrite forallb_forall. intros H Hx%list_elem_of_In. by apply H. Qed.

(** A field's lines, then those of other fields: the reader gets it. *)
Definition named_ok (key : gostring) : Prop := (":"%char ∉ key) ∧ (newline ∉ key) ∧ continues key = false ∧ key ≠ [].
Lemma validFieldName_ok key : validFieldName key = true → named_ok key.
Proof.
  destruct key as [|c key]; [done|]. unfold validFieldName. intros H. bsplit.
  assert (∀ x, x ∈ c :: key → isASCIIAlnum x || beq x "-" = true) as Hx.
  { intros x [->|Hx]%elem_of_cons; [by apply orb_true_iff; left|]. exact (forallb_elem _ _ _ H0 Hx). }
  assert (∀ b, isASCIIAlnum b || beq b "-" = false → b ∉ c :: key) as Hn by (intros b Hb ?%Hx; congruence).
  split_and!; [by apply Hn|by apply Hn| |done].
  cbn [continues]. apply orb_false_iff. split; apply bool_decide_eq_false; intros ->; by vm_compute in H1.
Qed.
Lemma field_lines_clean kv : named_ok kv.1 → Forall clean_line (field_lines kv) ∧ field_lines kv ≠ [].
Proof.
  intros (Hc & Hn & Hk & Hne). unfold field_lines.
  destruct (split newline (trim_suffix [newline] kv.2)) as [|l ls] eqn:E; [by apply split_nonempty in E|].
  assert (∀ w, w ∈ l :: ls → newline ∉ w) as Hw by (intros w Hw; rewrite <- E in Hw; by apply split_no_sep in Hw).
  split; [|done]. constructor.
  - split; [by destruct kv.1|]. rewrite !elem_of_app. specialize (Hw l ltac:(left)). set_solver.
  - apply Forall_map, Forall_forall. intros w Hin. specialize (Hw w ltac:(by right)).
    split; [done|]. unfold dotted. destruct (streq w ""); set_solver.
Qed.
Lemma read_fields_dotted ls rest : (read_fields rest).1 = [] →
  read_fields (map dotted ls ++ rest) = (map undot ls, (read_fields rest).2).
Proof.
  intros H. induction ls as [|l ls IH]; cbn [map app]; [by destruct (read_fields rest); cbn in *; subst|].
  cbn [read_fields]. rewrite IH. unfold dotted at 1. cbn [app continues tail]. change (beq " " " ") with true. cbn [orb].
  do 2 f_equal. unfold dotted. cbn [app tail]. unfold undot. destruct (streq l "") eqn:E; [|done].
  apply streq_true in E as ->. done.
Qed.
Lemma read_fields_app kvs rest : Forall (λ kv, named_ok kv.1) kvs → (read_fields rest).1 = [] →
  read_fields (concat (map field_lines kvs) ++ rest) = ([], map (λ kv, (kv.1, read_value kv.2)) kvs ++ (read_fields rest).2).
Proof.
  intros Hk Hr. induction Hk as [|[key value] kvs (Hc & Hn & Hk & Hne) _ IH]; [cbn [map concat app]; by destruct (read_fields rest); cbn in *; subst|].
  cbn [map concat fst snd] in *. rewrite <- app_assoc. unfold field_lines at 1, read_value at 1. cbn [fst snd].
  destruct (split newline (trim_suffix [newline] value)) as [|l ls] eqn:E; [by apply split_nonempty in E|].
  cbn [app read_fields]. rewrite read_fields_dotted by (by rewrite IH). rewrite IH. cbn [snd].
  assert (continues (key ++ ": " ++ l) = false) as -> by (by destruct key).
  change (": " ++ l) with (":"%char :: " " ++ l). rewrite cut_app by done. done.
Qed.
Lemma read_fields_lines kvs : Forall (λ kv, named_ok kv.1) kvs →
  read_fields (concat (map field_lines kvs)) = ([], map (λ kv, (kv.1, read_value kv.2)) kvs).
Proof. intros H. pose proof (read_fields_app kvs [] H eq_refl) as R. by rewrite !app_nil_r in R. Qed.

(** ** The control fields that are kept *)

Section index.
Context {unicode : UnicodeTables} {deb : DebReader} {gz : Gzip}.

Definition ordinary (key : gostring) : Prop := validFieldName key = true ∧ to_lower key ∉ owned_fields.
Record kept_ok (values : gmap gostring gostring) (st : kept) : Prop := {
  ko_values k : k ∈ ke_Order st → ke_Values st !! k = Some (default [] (values !! k));
  ko_fields : Forall ordinary (ke_Order st);
  ko_nodup : NoDup (map to_lower (ke_Order st));
  ko_seen k : k ∈ ke_Order st → to_lower k ∈ ke_Seen st
}.
(** [st'] has the fields of [st] and those of [keys] that are not the writer's. *)
Definition keeps (keys : list gostring) (st st' : kept) : Prop :=
  (∀ k, k ∈ keys → k ∈ ke_Order st' ∨ to_lower k ∈ owned_fields)
  ∧ ∃ new, ke_Order st' = ke_Order st ++ new ∧ ∀ k, k ∈ new → k ∈ keys.

Lemma package_free : to_lower (bytes_of "Package") ∉ owned_fields.
Proof. apply (proj1 (bool_decide_eq_false _)). vm_compute. reflexivity. Qed.
Lemma none_new (l keys : list gostring) : ∃ new, l = l ++ new ∧ ∀ k, k ∈ new → k ∈ keys.
Proof. exists []. split; [by rewrite app_nil_r|by intros k ?%not_elem_of_nil]. Qed.
Lemma keep_spec path values key st st' : kept_ok values st → keep path values key st = Ok st' →
  kept_ok values st' ∧ keeps [key] st st'.
Proof.
  intros [H1 H2 H3 H4]. unfold keep. destruct (validFieldName key) eqn:Ev; [cbn [negb]|done].
  destruct (bool_decide (to_lower key ∈ ke_Seen st)) eqn:Es; [done|]. apply bool_decide_eq_false in Es.
  unfold aptOwnsField. destruct (bool_decide (to_lower key ∈ owned_fields)) eqn:Eo.
  { apply bool_decide_eq_true in Eo. intros [= <-]. split; [split; cbn; try done; intros k Hin%H4; by apply elem_of_union_r|].
    split; [intros k ->%list_elem_of_singleton; by right|]. apply none_new. }
  apply bool_decide_eq_false in Eo. destruct (checkFieldValue _); [cbn [negb]|done]. intros [= <-].
  assert (key ∉ ke_Order st) as Hk by (by intros ?%H4). split.
  - split; cbn.
    + intros k [Hin| ->%list_elem_of_singleton]%elem_of_app; [|by rewrite lookup_insert_eq].
      rewrite lookup_insert_ne by congruence. by apply H1.
    + apply Forall_app. split; [done|]. by repeat constructor.
    + rewrite map_app. apply NoDup_app. split_and!; [done| |apply NoDup_singleton].
      intros x (k & -> & Hin)%list_elem_of_fmap Heq%list_elem_of_singleton. rewrite <- Heq in Es. by apply H4 in Hin.
    + intros k [Hin| ->%list_elem_of_singleton]%elem_of_app; [|set_solver]. apply elem_of_union_r. by apply H4.
  - split; [intros k ->%list_elem_of_singleton; left; cbn; set_solver|]. exists [key]. by split.
Qed.

Lemma keep_all_spec path values keys st st' : kept_ok values st → keep_all path values keys st = Ok st' →
  kept_ok values st' ∧ keeps keys st st'.
Proof.
  revert st. induction keys as [|key keys IH]; intros st Hst; cbn [keep_all].
  { intros [= <-]. split; [done|]. split; [by intros k ?%not_elem_of_nil|]. apply none_new. }
  rewrite bind_Ok. intros (st1 & H1 & H2). destruct (keep_spec _ _ _ _ _ Hst H1) as [Hk1 [Ha1 (n1 & E1 & Hn1)]].
  destruct (IH _ Hk1 H2) as [Hk2 [Ha2 (n2 & E2 & Hn2)]]. split; [done|]. split.
  - intros k [->|Hin]%elem_of_cons; [|by apply Ha2]. destruct (Ha1 key ltac:(left)) as [Ho|]; [left|by right].
    rewrite E2. apply elem_of_app. by left.
  - exists (n1 ++ n2). split; [by rewrite E2, E1, app_assoc|].
    intros k [Hin|Hin]%elem_of_app; [apply Hn1, list_elem_of_singleton in Hin as ->; left|right; by apply Hn2].
Qed.

Lemma controlFields_spec path order values order' values' :
  controlFields path order values = Ok (order', values') →
  kept_ok values (mkKept order' values' (list_to_set (map to_lower order')))
  ∧ (∀ k, k ∈ order → k ∈ order' ∨ to_lower k ∈ owned_fields)
  ∧ (∀ k, k ∈ order' → k ∈ order)
  ∧ (bytes_of "Package" ∈ order → ∃ rest, order' = bytes_of "Package" :: rest).
Proof.
  unfold controlFields. rewrite bind_Ok. intros (st1 & H1 & H2). apply bind_Ok in H2 as (st2 & H2 & [= <- <-]).
  assert (kept_ok values (mkKept [] ∅ ∅)) as H0 by (split; cbn; [set_solver|constructor|constructor|set_solver]).
  destruct (keep_all_spec _ _ _ _ _ H0 H1) as [Hk1 [Ha1 (n1 & E1 & Hn1)]].
  destruct (keep_all_spec _ _ _ _ _ Hk1 H2) as [[K1 K2 K3 K4] [Ha2 (n2 & E2 & Hn2)]]. cbn [ke_Order app] in E1. subst n1.
  assert (∀ k, is_package k = true ↔ k = bytes_of "Package") as Hp by (intros k; unfold is_package; apply streq_true).
  assert (bytes_of "Package" ∈ order ↔ existsb is_package order = true) as Hpo.
  { rewrite existsb_exists. split; [intros Hin; exists (bytes_of "Package"); by rewrite <- list_elem_of_In|].
    intros (k & Hin%list_elem_of_In & ->%Hp). done. }
  split_and!.
  - split; cbn; try done. intros k Hk. apply elem_of_list_to_set, list_elem_of_fmap. by exists k.
  - intros k Hk. destruct (is_package k) eqn:Ek.
    + apply Hp in Ek as ->. apply Hpo in Hk. rewrite Hk in Ha1. destruct (Ha1 (bytes_of "Package") ltac:(left)) as [Ho|]; [left|by right].
      rewrite E2. apply elem_of_app. by left.
    + apply Ha2, elem_of_lfilter. by rewrite Ek.
  - intros k. rewrite E2. intros [Hin%Hn1|Hin%Hn2]%elem_of_app; [|by apply elem_of_lfilter in Hin as [? _]].
    destruct (existsb is_package order) eqn:Ex; [|by apply not_elem_of_nil in Hin].
    apply list_elem_of_singleton in Hin as ->. by apply Hpo.
  - intros Hin%Hpo. rewrite Hin in *. destruct (Ha1 (bytes_of "Package") ltac:(left)) as [Ho|Ho]; [|by apply package_free in Ho].
    rewrite E2. destruct (ke_Order st1) as [|x l] eqn:Ex; [by apply not_elem_of_nil in Ho|].
    specialize (Hn1 x ltac:(left)). apply list_elem_of_singleton in Hn1 as ->. by eexists.
Qed.

(** ** Values of one line *)

Lemma trim_suffix_absent c s : c ∉ s → trim_suffix [c] s = s.
Proof.
  intros H. unfold trim_suffix. destruct (cut_suffix [c] s) as [r|] eqn:E; [|done].
  apply cut_suffix_Some in E as ->. set_solver.
Qed.
Lemma read_value_line v : newline ∉ v → read_value v = [trim_blanks v].
Proof. intros H. unfold read_value. by rewrite trim_suffix_absent, split_no_occur. Qed.
Definition solid_byte (c : ascii) : bool := negb (beq c newline || beq c " " || beq c (chr 9)).
Lemma drop_in_solid s : forallb solid_byte s = true → drop_in blanks s = s.
Proof.
  destruct s as [|c s]; [done|]. cbn [forallb]. intros [Hc _]%andb_true_iff. unfold solid_byte in Hc. bsplit.
  cbn [drop_in]. assert (contains_byte c blanks = false) as ->; [|done].
  change (contains_byte c blanks) with (beq c " " || (beq c (chr 9) || false)). by rewrite H1, H0.
Qed.
Lemma trim_blanks_solid s : forallb solid_byte s = true → trim_blanks s = s.
Proof.
  intros H. unfold trim_blanks, trim_right. rewrite (drop_in_solid s) by done.
  rewrite drop_in_solid; [by rewrite rev_involutive|]. apply forallb_forall. intros c Hc%in_rev. by apply (proj1 (forallb_forall _ _) H).
Qed.
Lemma read_value_solid s : forallb solid_byte s = true → read_value s = [s].
Proof.
  intros H. rewrite read_value_line; [by rewrite trim_blanks_solid|]. intros Hn.
  by pose proof (forallb_elem _ _ _ H Hn).
Qed.
Lemma hex_solid s : forallb solid_byte (hex_encode s) = true.
Proof.
  apply forallb_forall. intros c Hc. pose proof (proj1 (forallb_forall _ _) (hex_encode_ok s) c Hc) as Hh.
  unfold solid_byte. unfold beq. apply negb_true_iff, orb_false_iff; split; [apply orb_false_iff; split|];
    apply bool_decide_eq_false; intros ->; by vm_compute in Hh.
Qed.
Lemma itoa_solid n : 0 ≤ n → forallb solid_byte (itoa n) = true.
Proof.
  intros Hn. unfold itoa. rewrite (proj2 (Z.ltb_ge _ _)) by lia. destruct (udigits_spec n Hn) as (_ & H & _).
  apply forallb_forall. intros c Hc. pose proof (proj1 (forallb_forall _ _) H c Hc) as Hh.
  unfold solid_byte. unfold beq. apply negb_true_iff, orb_false_iff; split; [apply orb_false_iff; split|];
    apply bool_decide_eq_false; intros ->; by vm_compute in Hh.
Qed.

(** ** Stanzas *)

Abbreviation fields := (list (gostring * list gostring)).
(** What the fields of a paragraph say under a name, in lower case. *)
Definition said (name : String.string) (fs : fields) : list (list gostring) :=
  map snd (List.filter (λ f : gostring * list gostring, streq (to_lower f.1) (bytes_of name)) fs).

Definition key_values (order : list gostring) (values : gmap gostring gostring) : list (gostring * gostring) :=
  map (λ k, (k, default [] (values !! k))) order.
Lemma renderStanza_lines order values : renderStanza order values = unlines (concat (map field_lines (key_values order values))).
Proof.
  unfold renderStanza, key_values. rewrite map_map, unlines_concat, map_map. f_equal. apply map_ext. intros k.
  by rewrite writeControlField_lines.
Qed.
Lemma key_values_app a b values : key_values (a ++ b) values = key_values a values ++ key_values b values.
Proof. apply map_app. Qed.

Lemma hash_field_owned k : k ∈ hash_fields → to_lower k ∈ owned_fields.
Proof.
  assert (Forall (λ k, to_lower k ∈ owned_fields) hash_fields) as H
    by (apply (proj1 (bool_decide_eq_true _)); vm_compute; reflexivity).
  apply (proj1 (Forall_forall _ _) H).
Qed.
Lemma with_hashes_other path h values k : to_lower k ∉ owned_fields → with_hashes path h values !! k = values !! k.
Proof.
  intros H. assert (∀ x, x ∈ hash_fields → x ≠ k) as Hx by (intros x Hx%hash_field_owned ->; done).
  unfold with_hashes. rewrite !lookup_insert_ne by (apply Hx, list_elem_of_In; unfold hash_fields; cbn [map In]; auto 6). done.
Qed.
Lemma key_values_hashes path h values :
  key_values hash_fields (with_hashes path h values)
  = [(bytes_of "Filename", path); (bytes_of "Size", itoa (Size h)); (bytes_of "MD5sum", MD5 h); (bytes_of "SHA1", SHA1 h); (bytes_of "SHA256", SHA256 h)].
Proof.
  unfold key_values, hash_fields, with_hashes. cbn [map].
  repeat (rewrite lookup_insert_eq || rewrite lookup_insert_ne by done). done.
Qed.

(** What [read_index] tells of a file of the pool: the control fields of the
    .deb, at most once each and none about the file itself, and then where the
    file is, how long and with what digests. *)
Record indexed (dir : gostring) (fs : gmap gostring gostring) (pf : PoolFile) (told : fields) : Prop := {
  ix_path : safe_path (pf_Path pf);
  ix_file : ∃ data para, fs !! filepath_join [dir; pf_Path pf] = Some data ∧ LoadFile data = Some para
    ∧ (∃ kept, told = kept ++ [(bytes_of "Filename", [trim_blanks (pf_Path pf)]); (bytes_of "Size", [itoa (Z.of_nat (length data))]);
          (bytes_of "MD5sum", [hex_encode (Md5.sum data)]); (bytes_of "SHA1", [hex_encode (Sha1.sum data)]); (bytes_of "SHA256", [Bytes data])]
        ∧ Forall (λ f, f.1 ∈ Order para ∧ ordinary f.1 ∧ f.2 = read_value (default [] (Values para !! f.1))) kept
        ∧ NoDup (map (λ f, to_lower f.1) kept)
        ∧ (∀ k, k ∈ Order para → k ∈ map fst kept ∨ to_lower k ∈ owned_fields))
    ∧ said "filename" told = [[trim_blanks (pf_Path pf)]] ∧ said "size" told = [[itoa (Z.of_nat (length data))]]
    ∧ said "md5sum" told = [[hex_encode (Md5.sum data)]] ∧ said "sha1" told = [[hex_encode (Sha1.sum data)]]
    ∧ said "sha256" told = [[Bytes data]] ∧ said "sha512" told = []
}.

Lemma checkPoolPath_safe p : p ≠ [] → checkPoolPath p = None → safe_path p ∧ plain_bytes p = true.
Proof.
  intros Hp. unfold checkPoolPath. destruct (4096 <? _); [done|]. destruct (utf8_valid p); [cbn [negb]|done].
  destruct (plain_bytes p); [cbn [negb]|done]. destruct (has_prefix "/" p) eqn:E1; [done|]. destruct (drive_letter p); [done|].
  destruct (streq (path_clean p) p) eqn:E2; [cbn [negb]|done]. destruct (_ || _) eqn:E3; [done|]. intros _. bsplit.
  split; [|done]. apply streq_true in E2. apply streq_false_iff in H, H1. by apply clean_safe_path.
Qed.
Lemma plain_no_newline p : plain_bytes p = true → newline ∉ p.
Proof. intros H Hin. by pose proof (forallb_elem _ _ _ H Hin). Qed.

(** What is kept of a .deb's control fields, as the reader is told it. *)
Lemma kept_told order values order' values' path : controlFields path order values = Ok (order', values') →
  Forall (λ f, f.1 ∈ order ∧ ordinary f.1 ∧ f.2 = read_value (default [] (values !! f.1)))
    (map (λ kv, (kv.1, read_value kv.2)) (key_values order' values'))
  ∧ NoDup (map (λ f, to_lower f.1) (map (λ kv, (kv.1, read_value kv.2)) (key_values order' values')))
  ∧ (∀ k, k ∈ order → k ∈ map fst (map (λ kv, (kv.1, read_value kv.2)) (key_values order' values')) ∨ to_lower k ∈ owned_fields).
Proof.
  intros H. destruct (controlFields_spec _ _ _ _ _ H) as ([K1 K2 K3 _] & Hall & Hin & _). cbn in *.
  unfold key_values. rewrite !map_map. cbn [fst snd]. rewrite map_id. split_and!; [|done|done].
  apply Forall_map, Forall_forall. intros k Hk. cbn. rewrite K1 by done. split_and!; [by apply Hin| |done].
  by apply (proj1 (Forall_forall _ _) K2).
Qed.
Lemma key_values_with order path h values : Forall ordinary order → key_values order (with_hashes path h values) = key_values order values.
Proof.
  intros H. unfold key_values. apply map_ext_in. intros k Hk%list_elem_of_In. rewrite with_hashes_other; [done|].
  by apply (proj1 (Forall_forall _ _) H).
Qed.
Lemma said_ordinary name (l : fields) : bytes_of name ∈ owned_fields → Forall (λ f, ordinary f.1) l → said name l = [].
Proof.
  intros Hn H. unfold said. induction H as [|f l [_ Hf] _ IH]; [done|]. cbn [List.filter].
  rewrite streq_false; [done|]. by intros Heq; rewrite Heq in Hf.
Qed.
Lemma said_app name (l k : fields) : said name (l ++ k) = said name l ++ said name k.
Proof. unfold said. by rewrite List.filter_app, map_app. Qed.

Lemma readStanza_told dir fs pf st : pf_Hashes pf = zero_hashes → readStanza dir fs pf = Ok st →
  ∃ ls, st_text st = unlines ls ∧ ls ≠ [] ∧ Forall clean_line ls ∧ indexed dir fs pf (read_fields ls).2
    ∧ ∃ data, fs !! filepath_join [dir; pf_Path pf] = Some data ∧ Size (st_hashes st) = Z.of_nat (length data).
Proof.
  intros Hz. unfold readStanza. destruct (streq (pf_Path pf) "") eqn:Ep; [done|]. apply streq_false_iff in Ep.
  destruct (checkPoolPath (pf_Path pf)) eqn:Ec; [done|]. destruct (checkPoolPath_safe _ Ep Ec) as [Hsafe Hplain].
  destruct (fs !! _) as [data|] eqn:Ef; [|done]. destruct (LoadFile data) as [para|] eqn:El; [|done].
  destruct (streq (default [] (Values para !! bytes_of "Package")) ""); [done|]. rewrite Hz.
  rewrite bool_decide_eq_true_2 by done. rewrite bind_Ok. intros ([order values] & Hc & [= <-]).
  destruct (kept_told _ _ _ _ _ Hc) as (T1 & T2 & T3). destruct (controlFields_spec _ _ _ _ _ Hc) as ([_ K2 _ _] & _). cbn in K2.
  set (kvs := key_values order values) in *.
  set (digests := [(bytes_of "Filename", pf_Path pf); (bytes_of "Size", itoa (Size (AllReader data))); (bytes_of "MD5sum", MD5 (AllReader data));
    (bytes_of "SHA1", SHA1 (AllReader data)); (bytes_of "SHA256", SHA256 (AllReader data))]).
  assert (Forall (λ kv, named_ok kv.1) (kvs ++ digests)) as Hnames.
  { apply Forall_app. split.
    - apply Forall_map, Forall_forall. intros k Hk. apply validFieldName_ok. by apply (proj1 (Forall_forall _ _) K2 k Hk).
    - repeat constructor; cbn [fst]; by apply validFieldName_ok. }
  exists (concat (map field_lines (kvs ++ digests))). cbn [st_text st_hashes].
  rewrite renderStanza_lines, key_values_app, key_values_with, key_values_hashes by done. fold kvs digests. split; [done|].
  split; [|split; [|split]].
  - rewrite map_app, concat_app. intros H%app_eq_nil. destruct H as [_ H]. unfold digests in H. cbn [map concat] in H.
    apply app_eq_nil in H as [H _]. exact (proj2 (field_lines_clean (bytes_of "Filename", pf_Path pf) (validFieldName_ok (bytes_of "Filename") eq_refl)) H).
  - apply Forall_concat, Forall_map. eapply Forall_impl; [exact Hnames|]. intros kv Hkv. by apply field_lines_clean.
  - rewrite read_fields_lines by done. cbn [snd]. rewrite map_app.
    assert (map (λ kv, (kv.1, read_value kv.2)) digests
      = [(bytes_of "Filename", [trim_blanks (pf_Path pf)]); (bytes_of "Size", [itoa (Z.of_nat (length data))]);
          (bytes_of "MD5sum", [hex_encode (Md5.sum data)]); (bytes_of "SHA1", [hex_encode (Sha1.sum data)]); (bytes_of "SHA256", [Bytes data])]) as ->.
    { unfold digests, AllReader. cbn [map fst snd Size MD5 SHA1 SHA256]. unfold Bytes.
      rewrite !(read_value_solid (hex_encode _)) by apply hex_solid. rewrite read_value_line by (by apply plain_no_newline).
      by rewrite read_value_solid by (apply itoa_solid; lia). }
    split; [done|]. exists data, para. split_and!; try done; [by eexists|..];
      (rewrite said_app, said_ordinary; [done|by apply (proj1 (bool_decide_eq_true _)); vm_compute|]);
      (eapply Forall_impl; [exact T1|]; by intros f (_ & ? & _)).
  - by exists data.
Qed.

(** ** Release *)

Definition filled (kv : gostring * gostring) : bool := negb (streq kv.2 "").
Definition release_field (kv : gostring * gostring) : gostring * list gostring := (kv.1, [trim_blanks kv.2]).
Definition hash_told (name : String.string) (digest : FileHashes → gostring) (entries : list (gostring * FileHashes)) : gostring * list gostring :=
  (bytes_of name, [] :: map (λ e, digest e.2 ++ " " ++ itoa (Size e.2) ++ " " ++ e.1) entries).
Definition hash_block_lines (name : gostring) (digest : FileHashes → gostring) (entries : list (gostring * FileHashes)) : list gostring :=
  (name ++ ":") :: map (λ e, " " ++ digest e.2 ++ " " ++ itoa (Size e.2) ++ " " ++ e.1) entries.

Lemma hash_block_unlines name digest entries : hash_block name digest entries = unlines (hash_block_lines name digest entries).
Proof.
  unfold hash_block, hash_block_lines. unfold unlines. cbn [map concat]. rewrite map_map, <- !app_assoc. do 2 f_equal.
  cbn [app]. do 2 f_equal. apply map_ext. intros e. unfold hash_line. by rewrite <- !app_assoc.
Qed.
Lemma control_no_newline v : existsb is_control v = false → newline ∉ v.
Proof.
  intros H Hin%list_elem_of_In. assert (existsb is_control v = true) as E; [|congruence].
  apply existsb_exists. by exists newline.
Qed.
Lemma release_text_told kvs text : release_text kvs = Ok text →
  let fs := List.filter filled kvs in
  text = unlines (concat (map field_lines fs)) ∧ Forall (λ kv, named_ok kv.1) fs
  ∧ map (λ kv, (kv.1, read_value kv.2)) fs = map release_field fs.
Proof.
  revert text. induction kvs as [|[key value] kvs IH]; intros text; cbn [release_text].
  { intros [= <-]. by repeat split. }
  cbn [List.filter]. change (filled (key, value)) with (negb (streq value "")). destruct (streq value "") eqn:Ev; cbn [negb]; [by apply IH|].
  unfold checkReleaseField. destruct (validFieldName key) eqn:Ek; [cbn [negb]|done].
  destruct (_ || _); [done|]. destruct (existsb is_control value) eqn:Ec; [done|]. apply control_no_newline in Ec.
  rewrite bind_Ok. intros (text' & H & [= <-]). destruct (IH _ H) as (-> & H2 & H3). cbn [map concat fst snd]. split_and!.
  - rewrite unlines_app. unfold field_lines at 2. cbn [fst snd]. rewrite trim_suffix_absent, split_no_occur by done.
    unfold unlines at 2. cbn [map concat]. by rewrite app_nil_r, <- !app_assoc.
  - constructor; [by apply validFieldName_ok|done].
  - by rewrite read_value_line, H3.
Qed.

Definition clean_entries (entries : list (gostring * FileHashes)) : Prop :=
  Forall (λ e, forallb solid_byte (MD5 e.2) = true ∧ forallb solid_byte (SHA1 e.2) = true ∧ forallb solid_byte (SHA256 e.2) = true
    ∧ 0 ≤ Size e.2 ∧ (newline ∉ e.1) ∧ e.1 ≠ []) entries.
Lemma solid_no_newline s : forallb solid_byte s = true → newline ∉ s.
Proof. intros H Hin. by pose proof (forallb_elem _ _ _ H Hin). Qed.
Lemma hash_block_clean name digest entries : newline ∉ name →
  Forall (λ e, forallb solid_byte (digest e.2) = true ∧ 0 ≤ Size e.2 ∧ newline ∉ e.1) entries →
  Forall clean_line (hash_block_lines name digest entries).
Proof.
  intros Hn H. constructor.
  - split; [by destruct name|]. set_solver.
  - apply Forall_map. eapply Forall_impl; [exact H|]. intros e (H1 & H2 & H3). cbn beta. split; [done|].
    pose proof (solid_no_newline _ H1). pose proof (solid_no_newline _ (itoa_solid _ H2)). rewrite !elem_of_app. set_solver.
Qed.
Lemma read_hash_block name digest entries rest : (read_fields rest).1 = [] →
  (∀ e, e ∈ entries → Z.of_nat (length (digest e.2)) ≠ 0) → ":"%char ∉ bytes_of name → continues (bytes_of name ++ ":") = false →
  read_fields (hash_block_lines (bytes_of name) digest entries ++ rest) = ([], hash_told name digest entries :: (read_fields rest).2).
Proof.
  intros Hr He Hn Hc. unfold hash_block_lines, hash_told. cbn [app read_fields].
  assert (∀ es, (∀ e, e ∈ es → e ∈ entries) → read_fields (map (λ e, " " ++ digest e.2 ++ " " ++ itoa (Size e.2) ++ " " ++ e.1) es ++ rest)
    = (map (λ e, digest e.2 ++ " " ++ itoa (Size e.2) ++ " " ++ e.1) es, (read_fields rest).2)) as Hes.
  { induction es as [|e es IH]; intros Hin; cbn [map app]; [by destruct (read_fields rest); cbn in *; subst|].
    cbn [read_fields]. rewrite IH by (intros x Hx; apply Hin; by right). cbn [app continues tail]. change (beq " " " ") with true. cbn [orb].
    do 2 f_equal. unfold undot. rewrite streq_false; [done|]. intros Hd. apply (f_equal length) in Hd. simpl in Hd. rewrite !length_app in Hd.
    specialize (He e (Hin e ltac:(left))). simpl in Hd. lia. }
  rewrite Hes by done. rewrite Hc. change (bytes_of name ++ ":") with (bytes_of name ++ ":"%char :: []). by rewrite cut_app.
Qed.

Lemma Ok_eq {E A : Type} (a b : A) : @Ok E A a = Ok b → a = b.
Proof. congruence. Qed.
Lemma renderRelease_told f entries_p entries_g (compress : bool) text :
  renderRelease f (AllReader entries_p) (if compress then AllReader entries_g else zero_hashes) compress = Ok text →
  let entries := hashed_entries (AllReader entries_p) (if compress then AllReader entries_g else zero_hashes) compress in
  read_index text = [map release_field (List.filter filled (release_fields f))
    ++ [hash_told "MD5Sum" MD5 entries; hash_told "SHA1" SHA1 entries; hash_told "SHA256" SHA256 entries]].
Proof.
  unfold renderRelease. rewrite bind_Ok. intros (t & Ht & E). apply Ok_eq in E as <-. destruct (release_text_told _ _ Ht) as (-> & Hn & Hr).
  set (fs := List.filter filled (release_fields f)) in *.
  set (entries := hashed_entries _ _ compress).
  assert (∀ digest, digest = MD5 ∨ digest = SHA1 ∨ digest = SHA256 →
    Forall (λ e : gostring * FileHashes, forallb solid_byte (digest e.2) = true ∧ 0 ≤ Size e.2 ∧ newline ∉ e.1) entries
    ∧ ∀ e, e ∈ entries → Z.of_nat (length (digest e.2)) ≠ 0) as He.
  { assert (∀ data digest, digest = MD5 ∨ digest = SHA1 ∨ digest = SHA256 →
      forallb solid_byte (digest (AllReader data)) = true ∧ Z.of_nat (length (digest (AllReader data))) ≠ 0) as Ha.
    { intros data digest [->|[->| ->]]; cbn [MD5 SHA1 SHA256 AllReader]; unfold Bytes; (split; [apply hex_solid|]);
        rewrite length_hex_encode, ?Md5.length_md5, ?Sha1.length_sha1, ?Sha256.length_sum; lia. }
    intros digest Hd. unfold entries, hashed_entries. split.
    - constructor; [cbn [fst snd]; split_and!; [by apply Ha|cbn; lia|by apply contains_byte_false]|].
      destruct compress; [|constructor]. repeat constructor; cbn [fst snd]; [by apply Ha|cbn; lia|by apply contains_byte_false].
    - intros e [->|Hin]%elem_of_cons; [by apply Ha|]. destruct compress; [|by apply not_elem_of_nil in Hin].
      apply list_elem_of_singleton in Hin as ->. by apply Ha. }
  destruct (He MD5) as [C1 L1], (He SHA1) as [C2 L2], (He SHA256) as [C3 L3]; [auto..|].
  rewrite !hash_block_unlines, <- !unlines_app. set (ls := concat (map field_lines fs) ++ _).
  pose proof (read_index_unlines [ls]) as H. cbn [map join] in H. rewrite H; clear H.
  - do 2 f_equal. unfold ls.
    rewrite <- (app_nil_r (hash_block_lines "SHA256" _ _)).
    pose proof (read_hash_block "SHA256" SHA256 entries [] eq_refl L3 ltac:(by apply contains_byte_false) eq_refl) as R3.
    pose proof (read_hash_block "SHA1" SHA1 entries _ (f_equal fst R3) L2 ltac:(by apply contains_byte_false) eq_refl) as R2.
    pose proof (read_hash_block "MD5Sum" MD5 entries _ (f_equal fst R2) L1 ltac:(by apply contains_byte_false) eq_refl) as R1.
    rewrite (read_fields_app _ _ Hn (f_equal fst R1)). cbn [snd]. by rewrite R1, R2, R3, Hr.
  - repeat constructor.
    + unfold ls. intros [_ H]%app_eq_nil. by apply app_eq_nil in H as [H _].
    + unfold ls. rewrite !Forall_app. split_and!; try (apply hash_block_clean; [by apply contains_byte_false|done]).
      apply Forall_concat, Forall_map. eapply Forall_impl; [exact Hn|]. intros kv Hkv. by apply field_lines_clean.
Qed.

(** ** The whole *)

Lemma read_stanzas_told dir fs pfs sts : Forall (λ pf, pf_Hashes pf = zero_hashes) pfs → read_stanzas dir fs pfs = Ok sts →
  Forall2 (λ pf st, ∃ ls, st_text st = unlines ls ∧ ls ≠ [] ∧ Forall clean_line ls ∧ indexed dir fs pf (read_fields ls).2
    ∧ ∃ data, fs !! filepath_join [dir; pf_Path pf] = Some data ∧ Size (st_hashes st) = Z.of_nat (length data)) pfs sts.
Proof.
  intros Hz. revert sts. induction Hz as [|pf pfs Hpf _ IH]; intros sts; cbn [read_stanzas]; [by intros [= <-]|].
  rewrite bind_Ok. intros (st & H1 & H2). apply bind_Ok in H2 as (sts' & H2 & [= <-]).
  constructor; [by apply readStanza_told|by apply IH].
Qed.
Lemma texts_told (R : PoolFile → list (gostring * list gostring) → Prop) pfs sts :
  Forall2 (λ pf st, ∃ ls, st_text st = unlines ls ∧ ls ≠ [] ∧ Forall clean_line ls ∧ R pf (read_fields ls).2) pfs sts →
  Forall2 R pfs (read_index (join [newline] (map st_text sts))).
Proof.
  intros H. assert (∃ Ls, map st_text sts = map unlines Ls ∧ Forall (λ ls, ls ≠ [] ∧ Forall clean_line ls) Ls
    ∧ Forall2 (λ pf ls, R pf (read_fields ls).2) pfs Ls) as (Ls & -> & H2 & H3).
  { induction H as [|pf st pfs sts (ls & H1 & H2 & H3 & H4) _ (Ls & H5 & H6 & H7)]; [by exists []; repeat split|].
    exists (ls :: Ls). cbn [map]. rewrite H1, H5. by repeat split; constructor. }
  rewrite read_index_unlines by done. by apply Forall2_fmap_r.
Qed.

Definition output (dir : gostring) (name : String.string) : gostring := filepath_join [dir; bytes_of name].
Lemma output_ne dir a b : dir ≠ [] → plain_segb (bytes_of a) = true → plain_segb (bytes_of b) = true →
  a ≠ b → output dir a ≠ output dir b.
Proof.
  intros Hd Ha%plain_segb_spec Hb%plain_segb_spec Hne. unfold output. rewrite !Join_under by (done || by constructor).
  intros H. apply under_inj in H; [|by constructor|by constructor|done|done]. injection H as H. apply Hne.
  rewrite <- (String.string_of_list_ascii_of_string a), H. apply String.string_of_list_ascii_of_string.
Qed.

Lemma write_file_Ok can_write dir (name : String.string) data fs fs' : write_file can_write dir (bytes_of name) data fs = Ok fs' → fs' = <[output dir name := data]> fs.
Proof. unfold write_file, output. destruct (can_write _); [congruence|done]. Qed.

(** What Release is asked to say, field by field. *)
Definition asked_fields (f : ReleaseFields) : list (gostring * gostring) :=
  let yes (b : bool) : gostring := if b then bytes_of "yes" else [] in
  [(bytes_of "Origin", rf_Origin f); (bytes_of "Label", rf_Label f); (bytes_of "Suite", rf_Suite f); (bytes_of "Codename", rf_Codename f);
   (bytes_of "Architectures", join " " (rf_Architectures f)); (bytes_of "Components", join " " (rf_Components f));
   (bytes_of "Date", rf_Date f); (bytes_of "Description", rf_Description f);
   (bytes_of "NotAutomatic", yes (rf_NotAutomatic f)); (bytes_of "ButAutomaticUpgrades", yes (rf_ButAutomaticUpgrades f))]
  ++ map (λ k, (k, default [] (rf_ExtraFields f !! k))) (sort_strings (map fst (map_to_list (rf_ExtraFields f)))).
(** A digest block: for each file its digest, length and name. *)
Definition block (name : String.string) (digest : gostring → gostring) (files : list (gostring * gostring)) : gostring * list gostring :=
  (bytes_of name, [] :: map (λ e : gostring * gostring, digest e.2 ++ " " ++ itoa (Z.of_nat (length e.2)) ++ " " ++ e.1) files).
Definition blocks (files : list (gostring * gostring)) : fields :=
  [block "MD5Sum" (λ d, hex_encode (Md5.sum d)) files; block "SHA1" (λ d, hex_encode (Sha1.sum d)) files; block "SHA256" Bytes files].
Lemma said_asked f name : name ∈ (["md5sum"; "sha1"; "sha256"]%string : list String.string) →
  (∀ k, is_Some (rf_ExtraFields f !! k) → to_lower k ≠ bytes_of name) → said name (map release_field (List.filter filled (asked_fields f))) = [].
Proof.
  intros Hname Hextra. unfold said. assert (∀ l, (∀ kv, kv ∈ l → to_lower kv.1 ≠ bytes_of name) →
    map snd (List.filter (λ f, streq (to_lower f.1) (bytes_of name)) (map release_field (List.filter filled l))) = []) as H.
  { induction l as [|kv l IH]; intros Hl; [done|]. cbn [List.filter]. assert (∀ kv, kv ∈ l → to_lower kv.1 ≠ bytes_of name) as Hl' by (intros x Hx; apply Hl; by right).
    destruct (filled kv); [|auto]. cbn [map List.filter release_field fst]. rewrite streq_false by (apply Hl; by left). auto. }
  apply H. intros kv Hin. unfold asked_fields in Hin. apply elem_of_app in Hin as [Hin|(k & -> & Hk)%list_elem_of_fmap].
  - assert (kv.1 ∈ map bytes_of ["Origin"; "Label"; "Suite"; "Codename"; "Architectures"; "Components"; "Date"; "Description"; "NotAutomatic";
      "ButAutomaticUpgrades"]%string) as Hk by (apply (list_elem_of_fmap_2 fst) in Hin; exact Hin).
    clear Hin H Hextra. revert Hk. generalize kv.1 as k. intros k Hk.
    repeat (apply elem_of_cons in Hname as [->|Hname]; [repeat (apply elem_of_cons in Hk as [->|Hk]; [by vm_compute|]); by apply elem_of_nil in Hk|]).
    by apply elem_of_nil in Hname.
  - cbn [fst]. apply Hextra. rewrite sort_strings_perm in Hk. apply list_elem_of_fmap in Hk as ([k' v] & -> & Hk%elem_of_map_to_list). by exists v.
Qed.

(** (C22) The index of a bundle's repository tells the truth and nothing else.
    Whatever the control data of the packages (a vendor's is not to be
    trusted), a reader of [Packages] is told of exactly the files of the pool,
    one paragraph each: where the file is (but for blanks at the ends of its path,
    which a reader drops), its size and its three digests, each said exactly once,
    under any spelling of the name, as they are of the file's bytes; no SHA-512;
    and otherwise only fields of that .deb, none twice. The digests are of the
    file where the caller gave none of its own. A reader of [Release] is told the
    fields that were asked for, blanks dropped, and then the digests of [Packages]
    as written, and of [Packages.gz], which decompresses to it; it is told each
    digest once unless an extra field was asked for under a name of theirs, which
    nothing refuses ([extra_field_forges]). No other file changes. *)
Theorem Write_indexed can_write inp fs res fs' :
  Write can_write inp fs = Ok (res, fs') → Forall (λ pf, pf_Hashes pf = zero_hashes) (in_Files inp) →
  ∃ packages release order,
    fs' !! output (in_Dir inp) "Packages" = Some packages ∧ fs' !! output (in_Dir inp) "Release" = Some release
    ∧ (in_Compress inp = true → fs' !! output (in_Dir inp) "Packages.gz" = Some (gzipBytes packages))
    ∧ order ≡ₚ in_Files inp ∧ Forall2 (indexed (in_Dir inp) fs) order (read_index packages)
    ∧ (let listed := (bytes_of "Packages", packages) :: if in_Compress inp then [(bytes_of "Packages.gz", gzipBytes packages)] else [] in
       let asked := map (λ kv : gostring * gostring, (kv.1, [trim_blanks kv.2]))
         (List.filter (λ kv : gostring * gostring, negb (streq kv.2 "")) (asked_fields (in_Release inp))) in
       read_index release = [asked ++ blocks listed]
       ∧ ∀ name, name ∈ (["md5sum"; "sha1"; "sha256"]%string : list String.string) →
           (∀ k, is_Some (rf_ExtraFields (in_Release inp) !! k) → to_lower k ≠ bytes_of name) →
           said name (asked ++ blocks listed) = said name (blocks listed))
    ∧ (∀ p, p ≠ output (in_Dir inp) "Packages" → p ≠ output (in_Dir inp) "Packages.gz" → p ≠ output (in_Dir inp) "Release" → fs' !! p = fs !! p)
    ∧ re_PackagesSHA256 res = Bytes packages ∧ re_ReleaseSHA256 res = Bytes release
    ∧ re_PackageCount res = Z.of_nat (length (in_Files inp)).
Proof.
  unfold Write. destruct (streq (in_Dir inp) "") eqn:Ed; [done|]. apply streq_false_iff in Ed. set (dir := in_Dir inp) in *.
  intros H Hz. apply bind_Ok in H as (sts & Hs & H). set (packages := join [newline] (map st_text (sort_by stanza_leb sts))) in *.
  apply bind_Ok in H as (fs1 & H1%write_file_Ok & H). apply bind_Ok in H as (fs2 & H2 & H).
  apply bind_Ok in H as (release & Hr & H). apply bind_Ok in H as (fs3 & H3%write_file_Ok & [= <- <-]).
  pose proof (read_stanzas_told _ _ _ _ Hz Hs) as Htold.
  assert (length sts = length (in_Files inp)) as Hlen by (by apply Forall2_length in Htold).
  destruct (Permutation_Forall2 (symmetry (sort_by_perm stanza_leb sts)) (proj2 (Forall2_flip _ _ _) Htold)) as (order & Hperm & Horder%Forall2_flip).
  assert (fs2 !! output dir "Packages" = Some packages ∧ (in_Compress inp = true → fs2 !! output dir "Packages.gz" = Some (gzipBytes packages))
    ∧ ∀ p, p ≠ output dir "Packages" → p ≠ output dir "Packages.gz" → fs2 !! p = fs !! p) as (F1 & F2 & F3).
  { destruct (in_Compress inp); [apply write_file_Ok in H2 as ->|injection H2 as <-]; subst fs1.
    - split_and!; [rewrite lookup_insert_ne by (by apply output_ne); by rewrite lookup_insert_eq|by rewrite lookup_insert_eq|].
      intros p Hp1 Hp2. by rewrite !lookup_insert_ne.
    - split_and!; [by rewrite lookup_insert_eq|done|]. intros p Hp _. by rewrite lookup_insert_ne. }
  exists packages, release, order. subst fs3. split_and!; try done.
  - rewrite lookup_insert_ne by (by apply output_ne). done.
  - by rewrite lookup_insert_eq.
  - intros Hc. rewrite lookup_insert_ne by (by apply output_ne). by apply F2.
  - apply texts_told. eapply Forall2_impl; [exact Horder|]. intros pf st (ls & L1 & L2 & L3 & L4 & _). by exists ls.
  - apply renderRelease_told in Hr. rewrite Hr. by destruct (in_Compress inp).
  - intros name Hname Hextra. rewrite said_app.
    exact (f_equal (λ x, x ++ said name _) (said_asked (in_Release inp) name Hname Hextra)).
  - intros p P1 P2 P3. rewrite lookup_insert_ne by congruence. by apply F3.
  - cbn. by rewrite Hlen.
Qed.
End index.

(** ** Pool paths *)

Definition plain_name (s : gostring) : Prop := plain_seg s ∧ plain_bytes s = true ∧ ":"%char ∉ s.
Lemma plain_name_chars c s : (∀ x, x ∈ c :: s → x ≠ slash ∧ x ≠ ":"%char ∧ x ≠ "\"%char ∧ is_control x = false) →
  c ≠ "."%char → plain_name (c :: s).
Proof.
  intros H Hc. split_and!.
  - split; [split_and!; [done|by intros [=]|by intros [=]]|]. intros Hin. by destruct (H _ Hin).
  - apply plain_bytes_spec. split; [intros Hin; by destruct (H _ Hin) as (_ & _ & ? & _)|].
    apply Forall_forall. intros x Hx. by destruct (H x Hx) as (_ & _ & _ & ?).
  - intros Hin. by destruct (H _ Hin) as (_ & ? & _).
Qed.
Lemma alnum_plain c : isLowerAlnum c || beq c "+" || beq c "-" || beq c "." = true →
  c ≠ slash ∧ c ≠ ":"%char ∧ c ≠ "\"%char ∧ is_control c = false.
Proof.
  intros H. split_and!; try (by intros ->). apply not_true_iff_false. intros Hc. unfold is_control in Hc.
  assert (is_digit c = true ∨ is_lower c = true ∨ c = "+"%char ∨ c = "-"%char ∨ c = "."%char) as Hd.
  { unfold isLowerAlnum in H. rewrite !orb_true_iff in H. unfold beq in H. rewrite !bool_decide_eq_true in H. tauto. }
  apply orb_true_iff in Hc. destruct Hd as [Hd|[Hd|[->|[->| ->]]]]; [| |by destruct Hc..];
    unfold is_digit, is_lower, between in Hd; byte_cases; bsplit; destruct Hc as [Hc|Hc]; bsplit; lia.
Qed.
Lemma package_name_plain s : ValidPackageName s = true → plain_name s ∧ plain_name (poolPrefix s).
Proof.
  destruct s as [|c s]; [done|]. unfold ValidPackageName. intros H. bsplit.
  assert (∀ x, x ∈ c :: s → x ≠ slash ∧ x ≠ ":"%char ∧ x ≠ "\"%char ∧ is_control x = false) as Hx.
  { intros x Hin. apply alnum_plain. exact (forallb_elem _ _ _ H0 Hin). }
  assert (c ≠ "."%char) as Hdot by (by intros ->).
  split; [by apply plain_name_chars|]. unfold poolPrefix. destruct (_ && _).
  - change (take 4 (c :: s)) with (c :: take 3 s). apply plain_name_chars; [|done].
    intros x [->|Hin]%elem_of_cons; [apply Hx; left|]. apply Hx. right. by eapply elem_of_take in Hin as (? & ? & _); eapply list_elem_of_lookup_2.
  - rewrite streq_false by done. change (take 1 (c :: s)) with (c :: take 0 s). rewrite take_0. apply plain_name_chars; [|done].
    intros x ->%list_elem_of_singleton. apply Hx. left.
Qed.
Lemma filename_plain s : ValidFilename s = true → plain_name s.
Proof.
  destruct s as [|c s]; [done|]. unfold ValidFilename. intros H. bsplit. apply plain_name_chars; [|by intros ->].
  intros x Hin. pose proof (forallb_elem _ _ _ H0 Hin) as Hf. cbn beta in Hf. bsplit. split_and!; try (intros ->; done). done.
Qed.

(** A pool path cannot leave the pool and says what it is of: it is given
    exactly for a legal package name and a legal file name, as pool, prefix,
    package, file, four plain segments, so it is a path the lock and the
    manifest accept and no two packages or files share one. *)
Theorem PoolPath_safe pkg filename :
  if ValidPackageName pkg && ValidFilename filename
  then bundle_path (PoolPath pkg filename)
    ∧ split slash (PoolPath pkg filename) = [bytes_of "pool"; poolPrefix pkg; pkg; filename]
    ∧ ∀ pkg' filename', PoolPath pkg' filename' = PoolPath pkg filename → pkg' = pkg ∧ filename' = filename
  else PoolPath pkg filename = [].
Proof.
  destruct (ValidPackageName pkg && ValidFilename filename) eqn:E; [|unfold PoolPath; by rewrite <- negb_andb, E].
  assert (∀ p f, ValidPackageName p && ValidFilename f = true →
    PoolPath p f = join [slash] [bytes_of "pool"; poolPrefix p; p; f] ∧ Forall plain_name [bytes_of "pool"; poolPrefix p; p; f]) as Hj.
  { intros p f H. unfold PoolPath. rewrite <- negb_andb, H. split; [done|]. bsplit.
    destruct (package_name_plain p) as [? ?]; [done|]. rewrite !Forall_cons. split_and!; try done; [exact (proj1 (package_name_plain (bytes_of "pool") eq_refl))|by apply filename_plain]. }
  assert (∀ p f, ValidPackageName p && ValidFilename f = true → split slash (PoolPath p f) = [bytes_of "pool"; poolPrefix p; p; f]) as Hs.
  { intros p f [-> H]%Hj. apply split_join; [done|]. intros w Hw. by destruct (proj1 (Forall_forall _ _) H w Hw) as [[_ ?] _]. }
  split_and!; [|by apply Hs|].
  - destruct (Hj pkg filename E) as [Hp Hn]. split_and!.
    + unfold safe_path. rewrite Hs by done. eapply Forall_impl; [exact Hn|]. by intros w [[? _] _].
    + rewrite Hp. cbn [join]. unfold plain_bytes. rewrite !forallb_app. rewrite Forall_forall in Hn.
      repeat (apply andb_true_iff; split); try done; by apply Hn; set_solver.
    + by rewrite Hp.
  - intros p f H. destruct (ValidPackageName p && ValidFilename f) eqn:E'.
    + assert (split slash (PoolPath p f) = split slash (PoolPath pkg filename)) as Hsp by (by rewrite H).
      rewrite !Hs in Hsp by done. by injection Hsp.
    + assert (PoolPath p f = []) as Hnil by (unfold PoolPath; by rewrite <- negb_andb, E').
      rewrite Hnil in H. destruct (Hj pkg filename E) as [Hp _]. by rewrite Hp in H.
Qed.

(** ** A vendor's package that lies about itself *)

Definition lying_control : paragraph :=
  mkParagraph (map bytes_of ["Version"; "Package"; "SHA512"; "filename"; "Architecture"; "Description"]%string)
    (list_to_map [(bytes_of "Version", bytes_of "1.0"); (bytes_of "Package", bytes_of "app"); (bytes_of "SHA512", bytes_of "00");
       (bytes_of "filename", bytes_of "../../evil.deb"); (bytes_of "Architecture", bytes_of "amd64");
       (bytes_of "Description", "An app" ++ newline :: "SHA256: 00" ++ [newline])]).
Definition lying_deb : DebReader := {| LoadFile _ := Some lying_control |}.
Definition plain_gzip : Gzip := {| gzipBytes s := s; gunzip := Some; gunzip_gzip _ := eq_refl |}.
Definition pool_input : Input :=
  mkInput "/b/repo" [mkPoolFile "pool/a/app/app_1.0_amd64.deb" zero_hashes]
    (mkRelease "debark" "debark bundle" "bundle" "noble" [bytes_of "amd64"] [bytes_of "main"] "debark offline bundle"
       "Thu, 02 Jan 2025 03:04:05 UTC" false false ∅) true.
Definition pool_tree : gmap gostring gostring := {[ bytes_of "/b/repo/pool/a/app/app_1.0_amd64.deb" := bytes_of "the package" ]}.

Lemma Write_indexed_witness :
  ∃ res fs', Write (deb := lying_deb) (gz := plain_gzip) (λ _, true) pool_input pool_tree = Ok (res, fs')
  ∧ ∃ packages release order, fs' !! output "/b/repo" "Packages" = Some packages ∧ fs' !! output "/b/repo" "Release" = Some release
    ∧ Forall2 (indexed (deb := lying_deb) "/b/repo" pool_tree) order (read_index packages).
Proof.
  assert (is_ok (Write (deb := lying_deb) (gz := plain_gzip) (λ _, true) pool_input pool_tree) = true) as Hok by (vm_compute; reflexivity).
  destruct (Write (deb := lying_deb) (gz := plain_gzip) (λ _, true) pool_input pool_tree) as [[res fs']|e] eqn:E.
  - destruct (Write_indexed (deb := lying_deb) (gz := plain_gzip) _ _ _ _ _ E ltac:(repeat constructor))
      as (packages & release & order & H1 & H2 & _ & _ & H3 & _).
    exists res, fs'. split; [reflexivity|]. exists packages, release, order. split; [exact H1|]. split; [exact H2|exact H3].
  - discriminate Hok.
Defined.

(** What a reader is told of it: nothing of the lies. *)
Example lies_untold : match Write (deb := lying_deb) (gz := plain_gzip) (λ _, true) pool_input pool_tree with
  | Ok (_, fs') => match fs' !! output "/b/repo" "Packages" with
      | Some packages => match read_index packages with
          | [told] => said "filename" told = [[bytes_of "pool/a/app/app_1.0_amd64.deb"]] ∧ said "sha512" told = []
              ∧ said "sha256" told = [[Bytes (bytes_of "the package")]] ∧ said "description" told = [[bytes_of "An app"; bytes_of "SHA256: 00"]]
          | _ => False
          end
      | None => False
      end
  | Err _ => False
  end.
Proof. vm_compute. by split_and!. Qed.

(** An extra field of Release may have the name of a digest block, and then
    comes before it. *)
Example extra_field_forges :
  let f := mkRelease [] [] [] [] [] [] [] [] false false {[ bytes_of "SHA256" := bytes_of "00 1 Packages" ]} in
  match renderRelease f zero_hashes zero_hashes false with
  | Ok text => match read_index text with
      | [told] => map (@hd_error _) (said "sha256" told) = [Some (bytes_of "00 1 Packages"); Some []]
      | _ => False
      end
  | Err _ => False
  end.
Proof. vm_compute. reflexivity. Qed.
