(* ===== verification/Redact.v ===== *)
(** * core/fetch/redact.go: URLs that may be written down.

    net/url's [Parse] and [URL.String] as far as the source uses them. Which
    hosts are legal, and how they are written, changes between releases of
    net/url and is a parameter ([Hosts]); everything else is written out. A
    user name and a password are only looked at to be checked, so a parsed URL
    records that they were there. *)
From S2P Require Export GoText.
#[local] Open Scope Z_scope.

(** ** net/url *)

Class Hosts := { parseHost : gostring → option gostring; escapeHost : gostring → gostring }.

Definition is_alpha (c : ascii) : bool := is_lower c || is_upper c.
Definition byte_in (s : String.string) (c : ascii) : bool := contains_byte c (bytes_of s).

(** Escapes: [unescape] fails on one that is not two hexadecimal digits. *)
Definition unhex (c : ascii) : Z :=
  if is_digit c then ord c - 48 else if is_lower c then ord c - 87 else ord c - 55.
Fixpoint unescape (s : gostring) : option gostring :=
  match s with
  | [] => Some []
  | c :: s' =>
      if beq c "%" then
        match s' with
        | a :: b :: s'' => if is_hex a && is_hex b then cons (chr (16 * unhex a + unhex b)) <$> unescape s'' else None
        | _ => None
        end
      else cons c <$> unescape s'
  end.
Definition unreserved (c : ascii) : bool := is_alpha c || is_digit c || byte_in "-_.~" c.
(** [shouldEscape(c, encodePath)] *)
Definition should_escape (c : ascii) : bool := negb (unreserved c || byte_in "$&+,/:;=@" c).
Definition hex_upper (n : Z) : ascii := nth (Z.to_nat n) (bytes_of "0123456789ABCDEF") "0"%char.
Definition escape (s : gostring) : gostring :=
  concat (map (λ c, if should_escape c then ["%"%char; hex_upper (ord c / 16); hex_upper (ord c mod 16)] else [c]) s).
Definition valid_encoded (s : gostring) : bool := forallb (λ c, byte_in "!$&'()*+,;=:@[]%" c || negb (should_escape c)) s.
Definition valid_userinfo (s : gostring) : bool := forallb (λ c, is_alpha c || is_digit c || byte_in "-._:~!$&'()*+,;=%@" c) s.

(** [setPath] and then [EscapedPath]. *)
Definition escaped_path (p : gostring) : option gostring :=
  path ← unescape p;
  Some (if streq (escape path) p || valid_encoded p then p else escape path).

Definition scheme_byte (c : ascii) : bool := is_alpha c || is_digit c || byte_in "+-." c.
(** [getScheme]: the scheme and what follows its colon; [None] is the error. *)
Fixpoint scheme_span (raw : gostring) : option (gostring * gostring) :=
  match raw with
  | [] => None
  | c :: s => if beq c ":" then Some ([], s) else if scheme_byte c then '(a, b) ← scheme_span s; Some (c :: a, b) else None
  end.
Definition getScheme (raw : gostring) : option (gostring * gostring) :=
  match raw with
  | c :: _ => if beq c ":" then None else if is_alpha c then Some (default ([], raw) (scheme_span raw)) else Some ([], raw)
  | [] => Some ([], raw)
  end.

(** What comes after the last [c], if there is one. *)
Fixpoint cut_last (c : ascii) (s : gostring) : option (gostring * gostring) :=
  match s with
  | [] => None
  | x :: s' => match cut_last c s' with
      | Some (l, r) => Some (x :: l, r)
      | None => if beq x c then Some ([], s') else None
      end
  end.
Definition parse_user (info : gostring) : option () :=
  if negb (valid_userinfo info) then None
  else match cut ":" info with
  | None => _ ← unescape info; Some tt
  | Some (user, password) => _ ← unescape user; _ ← unescape password; Some tt
  end.

Record URL := mkURL { u_Scheme : gostring; u_User : bool; u_Host : gostring; u_Path : gostring; u_ForceQuery : bool; u_RawQuery : gostring; u_Fragment : gostring }.

Section url.
Context {unicode : UnicodeTables} {hosts : Hosts}.

Definition parse_authority (authority : gostring) : option (bool * gostring) :=
  match cut_last "@" authority with
  | None => host ← parseHost authority; Some (false, host)
  | Some (info, h) => host ← parseHost h; _ ← parse_user info; Some (true, host)
  end.
(** The text before the first byte of [stops], and the rest from there on. *)
Fixpoint span_until (stops : gostring) (s : gostring) : gostring * gostring :=
  match s with
  | [] => ([], [])
  | c :: s' => if contains_byte c stops then ([], s) else let '(a, b) := span_until stops s' in (c :: a, b)
  end.
Definition cut_query (rest : gostring) : bool * gostring * gostring :=
  match cut "?" rest with
  | None => (false, rest, [])
  | Some (l, []) => (true, l, [])
  | Some (l, r) => (false, l, r)
  end.
(** [parse], without the fragment. An opaque URL and one without an authority
    have no host. *)
Definition parse_url (raw : gostring) : option URL :=
  if existsb is_control raw then None
  else if streq raw "*" then Some (mkURL [] false [] raw false [] [])
  else
    '(scheme, rest) ← getScheme raw;
    let scheme := to_lower scheme in
    let '(force, rest, query) := cut_query rest in
    let '(seg, _) := span_until "/" rest in
    if negb (has_prefix "/" rest) && negb (streq scheme "") then Some (mkURL scheme false [] [] force query [])
    else if negb (has_prefix "/" rest) && contains_byte ":" seg then None
    else if (negb (streq scheme "") || negb (has_prefix "///" rest)) && has_prefix "//" rest then
      let '(authority, path) := span_until "/" (skipn 2 rest) in
      '(user, host) ← parse_authority authority;
      path ← escaped_path path;
      Some (mkURL scheme user host path force query [])
    else
      path ← escaped_path rest;
      Some (mkURL scheme false [] path force query []).
Definition Parse (raw : gostring) : option URL :=
  let '(u, frag) := default (raw, []) (cut "#" raw) in
  url ← parse_url u;
  match frag with
  | [] => Some url
  | _ => frag ← unescape frag; Some (mkURL (u_Scheme url) (u_User url) (u_Host url) (u_Path url) (u_ForceQuery url) (u_RawQuery url) frag)
  end.
(** [URL.String] of a URL with a host, a redacted user and no fragment; the path
    is already as [EscapedPath] gives it. *)
Definition url_string (u : URL) : gostring :=
  (if streq (u_Scheme u) "" then [] else u_Scheme u ++ ":")
  ++ "//" ++ (if u_User u then bytes_of "REDACTED@" else []) ++ escapeHost (u_Host u) ++ u_Path u
  ++ (if u_ForceQuery u || negb (streq (u_RawQuery u) "") then "?" ++ u_RawQuery u else []).

(** ** RedactURL *)

Definition isASCIILetter (b : ascii) : bool := is_lower b || is_upper b.
Definition isASCIIDigit (b : ascii) : bool := is_digit b.
Definition isSchemeByte (b : ascii) : bool := isASCIILetter b || isASCIIDigit b || beq b "+" || beq b "-" || beq b ".".

Fixpoint scheme_loop (i : Z) (s : gostring) : Z :=
  match s with
  | [] => 0
  | c :: s' =>
      if beq c ":" then if i <? 2 then 0 else i + 1
      else if (i =? 0) && negb (isASCIILetter c) then 0
      else if negb (isSchemeByte c) then 0
      else scheme_loop (i + 1) s'
  end.
Definition schemePrefixLen (raw : gostring) : Z := scheme_loop 0 raw.

(** What is before the first ["://"] with it, and what is after. *)
Fixpoint cut_sep (s : gostring) : option (gostring * gostring) :=
  match cut_prefix "://" s with
  | Some r => Some (bytes_of "://", r)
  | None => match s with [] => None | c :: s' => '(l, r) ← cut_sep s'; Some (c :: l, r) end
  end.
Definition redact_auth (auth : gostring) : gostring :=
  match cut_last "@" auth with Some (_, host) => "REDACTED@" ++ host | None => auth end.
Definition redact_rest (rest : gostring) : gostring :=
  let rest := match cut "#" rest with Some (l, _) => l | None => rest end in
  match cut "?" rest with Some (l, _) => l ++ "?REDACTED" | None => rest end.
Definition redactUnparsed (raw : gostring) : gostring :=
  match cut_sep raw with
  | None =>
      let n := schemePrefixLen raw in
      if (0 <? n) && contains_byte "@" (skipn (Z.to_nat n) raw) then firstn (Z.to_nat n) raw ++ "REDACTED" else raw
  | Some (out, after) =>
      let '(auth, rest) := span_until "/?#" after in
      out ++ redact_auth auth ++ redact_rest rest
  end.
Definition RedactURL (raw : gostring) : gostring :=
  if streq raw "" then raw
  else match Parse raw with
  | None => redactUnparsed raw
  | Some u =>
      if streq (u_Host u) "" then redactUnparsed raw
      else if u_User u || negb (streq (u_RawQuery u) "") || negb (streq (u_Fragment u) "") then
        url_string (mkURL (u_Scheme u) (u_User u) (u_Host u) (u_Path u) (u_ForceQuery u)
          (if streq (u_RawQuery u) "" then [] else bytes_of "REDACTED") [])
      else raw
  end.

(** ** RedactMessage *)

Definition isURLBoundary (b : ascii) : bool :=
  in_range 9 13 b || byte_in " '`<>\^|{}" b || (ord b =? 34).
(** The scheme at the end of a text, from its first letter on, and what is
    before it. *)
Fixpoint drop_nonletters (s : gostring) : gostring * gostring :=
  match s with
  | [] => ([], [])
  | c :: s' => if isASCIILetter c then ([], s) else let '(a, b) := drop_nonletters s' in (c :: a, b)
  end.
Fixpoint span_scheme (s : gostring) : gostring * gostring :=
  match s with
  | [] => ([], [])
  | c :: s' => if isSchemeByte c then let '(a, b) := span_scheme s' in (c :: a, b) else ([], s)
  end.
Definition trailing_scheme (text : gostring) : gostring * gostring :=
  let '(run, before) := span_scheme (rev text) in
  let '(junk, scheme) := drop_nonletters (rev run) in
  (rev before ++ junk, scheme).
Fixpoint span_url (s : gostring) : gostring * gostring :=
  match s with
  | [] => ([], [])
  | c :: s' => if isURLBoundary c then ([], s) else let '(a, b) := span_url s' in (c :: a, b)
  end.
Fixpoint message_loop (fuel : nat) (msg : gostring) : gostring :=
  match fuel with
  | O => []
  | S fuel =>
      match cut_sep msg with
      | None => msg
      | Some (head, after) =>
          let '(before, scheme) := trailing_scheme (take (length head - 3) head) in
          if streq scheme "" then head ++ message_loop fuel after
          else let '(tail, rest) := span_url after in
            before ++ RedactURL (scheme ++ "://" ++ tail) ++ message_loop fuel rest
      end
  end.
Definition RedactMessage (msg : gostring) : gostring := message_loop (S (length msg)) msg.
End url.
