(* ===== verification/HostText.v ===== *)
(** * Paths of the host, replaced in a text.

    What core/engine and core/apt do to the strings they record: a list of paths,
    each replaced by a placeholder, one after the other. No path is left in the
    result, whatever the order ([scrub_text_gone]). *)
From S2P Require Export Canonical RedactSafe.
#[local] Open Scope Z_scope.

Definition replacements : Type := list (gostring * gostring).
Definition scrub_text (repl : replacements) (s : gostring) : gostring := fold_left (λ s r, replace_all r.1 r.2 s) repl s.

(** ** Replaced text *)

(** A path that no placeholder can hold or be confused with. *)
Definition host_path (p : gostring) : Prop := has_prefix "/" p = true ∧ "<"%char ∉ p.
Definition placeholder (new : gostring) : Prop := (∃ rest, new = "<"%char :: rest) ∧ slash ∉ new.

Lemma replace_go_prefix old new q s : placeholder new → "<"%char ∉ q →
  has_prefix q (replace_go old new 0 s) = true → has_prefix q s = true.
Proof.
  intros [[rest ->] _]. revert q. induction s as [|a s IH]; intros q Hq; cbn [replace_go]; [done|].
  destruct (has_prefix old (a :: s)).
  - destruct q as [|c q]; [done|]. rewrite has_prefix_spec. intros [r [= <- _]]. exfalso. apply Hq. left.
  - destruct q as [|c q]; [done|]. rewrite !has_prefix_spec. intros [r [= <- Hr]].
    destruct (proj1 (has_prefix_spec q s) (IH q ltac:(set_solver) (proj2 (has_prefix_spec _ _) (ex_intro _ r Hr)))) as [r' ->]. by exists r'.
Qed.
Lemma occurs_cons_inv p c s : occurs p (c :: s) → has_prefix p (c :: s) = true ∨ occurs p s.
Proof.
  intros ([|d a] & b & H); [left; rewrite has_prefix_spec; by exists b|]. right. injection H as -> ->. by exists a, b.
Qed.
Lemma occurs_placeholder p new s : host_path p → slash ∉ new → occurs p (new ++ s) → occurs p s.
Proof.
  intros [Hp _]. apply has_prefix_spec in Hp as [q ->]. induction new as [|c new IH]; intros Hn; cbn [app]; [done|].
  intros [H|H]%occurs_cons_inv; [|apply IH; [set_solver|done]].
  rewrite has_prefix_spec in H. destruct H as [r [= -> _]]. exfalso. apply Hn. left.
Qed.
(** Putting a placeholder in makes no path that was not there. *)
Lemma replace_go_keeps old new p : host_path p → placeholder new → ∀ s skip, ¬ occurs p s → ¬ occurs p (replace_go old new skip s).
Proof.
  intros Hp Hn. induction s as [|a s IH]; intros skip Hs; cbn [replace_go]; [done|].
  assert (¬ occurs p s) as Hs' by (intros H; by apply Hs, occurs_cons). destruct skip as [|k]; [|by apply IH].
  destruct (has_prefix old (a :: s)).
  - intros H. apply (IH (length old - 1)%nat Hs'). eapply occurs_placeholder; [done|exact (proj2 Hn)|exact H].
  - intros [H|H]%occurs_cons_inv; [|by eapply IH]. apply Hs.
    assert (has_prefix p (a :: s) = true) as [r ->]%has_prefix_spec; [|by exists [], r].
    destruct Hp as [_ Hp]. destruct p as [|c q]; [done|]. rewrite has_prefix_spec in H. destruct H as [r [= <- Hr]].
    destruct (proj1 (has_prefix_spec q s)) as [r' ->]; [|rewrite has_prefix_spec; by exists r'].
    eapply (replace_go_prefix old new); [done|set_solver|]. rewrite has_prefix_spec. by exists r.
Qed.
Lemma replace_go_gone new p : host_path p → placeholder new → ∀ s skip, ¬ occurs p (replace_go p new skip s).
Proof.
  intros Hp Hn. induction s as [|a s IH]; intros skip; cbn [replace_go].
  { intros (x & y & H). destruct Hp as [Hp _]. destruct p; [done|]. by destruct x. }
  destruct skip as [|k]; [|by apply IH]. destruct (has_prefix p (a :: s)) eqn:E.
  - intros H. eapply (IH (length p - 1)%nat), occurs_placeholder; [done|exact (proj2 Hn)|exact H].
  - intros [H|H]%occurs_cons_inv; [|by eapply IH]. rewrite <- not_true_iff_false in E. apply E.
    destruct Hp as [_ Hp]. destruct p as [|c q]; [done|]. rewrite has_prefix_spec in H. destruct H as [r [= <- Hr]].
    destruct (proj1 (has_prefix_spec q s)) as [r' ->]; [|rewrite has_prefix_spec; by exists r'].
    eapply (replace_go_prefix (a :: q) new); [done|set_solver|]. rewrite has_prefix_spec. by exists r.
Qed.
Lemma replace_go_id old new s : ¬ occurs old s → replace_go old new 0 s = s.
Proof.
  induction s as [|a s IH]; intros H; cbn [replace_go]; [done|]. destruct (has_prefix old (a :: s)) eqn:E.
  - apply has_prefix_spec in E as [r E]. exfalso. apply H. by exists [], r.
  - rewrite IH; [done|]. intros Ho. by apply H, occurs_cons.
Qed.

Lemma scrub_text_keeps repl p s : host_path p → Forall (λ r, placeholder r.2) repl → ¬ occurs p s → ¬ occurs p (scrub_text repl s).
Proof.
  intros Hp Hr. revert s. induction Hr as [|[old new] repl H _ IH]; intros s Hs; [done|].
  change (¬ occurs p (scrub_text repl (replace_all old new s))). apply IH. by apply replace_go_keeps.
Qed.
Lemma scrub_text_gone repl p s : host_path p → Forall (λ r, placeholder r.2) repl → p ∈ map fst repl → ¬ occurs p (scrub_text repl s).
Proof.
  intros Hp Hr Hin. revert s. induction Hr as [|[old new] repl H Hr IH]; intros s; [by apply elem_of_nil in Hin|].
  change (¬ occurs p (scrub_text repl (replace_all old new s))). apply elem_of_cons in Hin as [->|Hin]; [|by apply IH].
  apply scrub_text_keeps; [done..|]. by apply replace_go_gone.
Qed.
Lemma scrub_text_id repl s : (∀ p, p ∈ map fst repl → ¬ occurs p s) → scrub_text repl s = s.
Proof.
  induction repl as [|[old new] repl IH]; intros H; [done|]. cbn [scrub_text fold_left fst snd]. unfold replace_all.
  rewrite replace_go_id by (apply H; left). apply IH. intros p Hp. apply H. by right.
Qed.

