(* ===== verification/FetchList.v ===== *)
(** * core/fetch/list.go: the list of packages, URLs and files.

    A line is a word and, for a URL, a digest. What a line asks for is decided
    by [classifyEntry]; a file is read once, in order, and the first bad line
    refuses it. *)
From S2P Require Export RedactSafe Digest PathJoin Dferr.
#[local] Open Scope Z_scope.
#[local] Set Default Proof Using "Type*".

Inductive lineKind := kindApt | kindURL | kindFile | kindReject.
Record URLInput := mkURLInput { ui_URL : gostring; ui_SHA256 : gostring }.
Record Inputs := mkInputs { in_Packages : list gostring; in_URLs : list URLInput; in_Files : list gostring; in_LocalDirs : list gostring; in_ListFiles : list gostring }.
Inductive list_error :=
| NotFound
| Unreadable
| BadPackage (line : Z) (name : gostring)
| NoValue (line : Z) (entry : gostring)
| ExtraText (line : Z) (entry : gostring)
| BadDigest (line : Z) (token : gostring)
| BadURL (line : Z) (url : gostring).

Definition classifyPackage (name : gostring) : lineKind * gostring :=
  if has_prefix "-" name then (kindReject, name)
  else if existsb (λ r, (r <? 32) || (r =? 127)) (runes name) then (kindReject, name)
  else (kindApt, name).
Definition classifyEntry (entry : gostring) : lineKind * gostring :=
  if has_prefix "https://" entry || has_prefix "http://" entry then (kindURL, entry)
  else if has_prefix "url:" entry then (kindURL, trim_prefix "url:" entry)
  else if has_prefix "file:" entry then (kindFile, trim_prefix "file:" entry)
  else if has_prefix "apt:" entry then classifyPackage (trim_prefix "apt:" entry)
  else if has_suffix ".deb" entry then (kindFile, entry)
  else classifyPackage entry.

Definition looksAbsolute (p : gostring) : bool :=
  has_prefix "/" p || has_prefix "\\" p
  || match p with c :: d :: _ => beq d ":" && isASCIILetter c | _ => false end.

Section list.
Context {unicode : UnicodeTables} {hosts : Hosts}.

Inductive entry := Package (name : gostring) | Url (u : URLInput) | LocalFile (path : gostring).

Definition strip_comment (line : gostring) : gostring := before "#" line.
Definition line_digest (lineNo : Z) (kind : lineKind) (word : gostring) (extra : list gostring) : result list_error gostring :=
  match extra with
  | [] => Ok []
  | token :: more =>
      match kind, more with
      | kindURL, [] =>
          match cut_prefix "sha256=" token with
          | Some hex => if Valid (to_lower hex) then Ok (to_lower hex) else Err (BadDigest lineNo token)
          | None => Err (BadDigest lineNo token)
          end
      | _, _ => Err (ExtraText lineNo word)
      end
  end.
Definition http_url (payload : gostring) : bool :=
  match Parse payload with
  | Some u => negb (streq (u_Host u) "") && (streq (u_Scheme u) "http" || streq (u_Scheme u) "https")
  | None => false
  end.
Definition list_line (listDir : gostring) (lineNo : Z) (line : gostring) : result list_error (option entry) :=
  match fields (strip_comment line) with
  | [] => Ok None
  | word :: extra =>
      let '(kind, payload) := classifyEntry word in
      match kind with
      | kindReject => Err (BadPackage lineNo payload)
      | _ =>
          if streq payload "" then Err (NoValue lineNo word)
          else
            sha ← line_digest lineNo kind word extra;
            match kind with
            | kindURL => if http_url payload then Ok (Some (Url (mkURLInput payload sha))) else Err (BadURL lineNo payload)
            | kindFile => Ok (Some (LocalFile (if looksAbsolute payload then payload else filepath_join [listDir; payload])))
            | _ => Ok (Some (Package payload))
            end
      end
  end.
Definition add_entry (e : option entry) (i : Inputs) : Inputs :=
  match e with
  | None => i
  | Some (Package p) => mkInputs (in_Packages i ++ [p]) (in_URLs i) (in_Files i) (in_LocalDirs i) (in_ListFiles i)
  | Some (Url u) => mkInputs (in_Packages i) (in_URLs i ++ [u]) (in_Files i) (in_LocalDirs i) (in_ListFiles i)
  | Some (LocalFile f) => mkInputs (in_Packages i) (in_URLs i) (in_Files i ++ [f]) (in_LocalDirs i) (in_ListFiles i)
  end.
Fixpoint list_loop (listDir : gostring) (lineNo : Z) (lines : list gostring) (i : Inputs) : result list_error Inputs :=
  match lines with
  | [] => Ok i
  | line :: rest => e ← list_line listDir lineNo line; list_loop listDir (lineNo + 1) rest (add_entry e i)
  end.
Definition delete_cr (s : gostring) : gostring := List.filter (λ c, negb (beq c (chr 13))) s.
(** [raw] is what [os.ReadFile] gave. *)
Definition parseListFile (path : gostring) (raw : result bool gostring) : result list_error Inputs :=
  match raw with
  | Err absent => Err (if absent then NotFound else Unreadable)
  | Ok raw =>
      i ← list_loop (filepath_dir path) 1 (split newline (delete_cr raw)) (mkInputs [] [] [] [] []);
      Ok (mkInputs (in_Packages i) (in_URLs i) (in_Files i) (in_LocalDirs i) [path])
  end.

(** ** What comes of a list *)

(** An operand apt cannot take for an option. *)
Definition safe_operand (p : gostring) : Prop := p ≠ [] ∧ has_prefix "-" p = false ∧ Forall (λ c, is_control c = false) p.
Definition fetchable (u : URLInput) : Prop :=
  (ui_SHA256 u = [] ∨ Valid (ui_SHA256 u) = true) ∧ ∃ url, Parse (ui_URL u) = Some url ∧ u_Host url ≠ []
    ∧ (u_Scheme url = bytes_of "http" ∨ u_Scheme url = bytes_of "https").
Definition entry_ok (e : entry) : Prop :=
  match e with Package p => safe_operand p | Url u => fetchable u | LocalFile f => f ≠ [] end.
Definition inputs_ok (i : Inputs) : Prop :=
  Forall safe_operand (in_Packages i) ∧ Forall fetchable (in_URLs i) ∧ Forall (λ f, f ≠ []) (in_Files i).
Definition speaks (line : gostring) : bool := match fields (strip_comment line) with [] => false | _ => true end.
Definition input_count (i : Inputs) : nat := length (in_Packages i) + length (in_URLs i) + length (in_Files i).

Lemma classifyPackage_safe name kind payload : classifyPackage name = (kind, payload) → kind ≠ kindReject → payload ≠ [] → safe_operand payload.
Proof.
  unfold classifyPackage. destruct (has_prefix "-" name) eqn:E1; [by intros [= <- _]|].
  destruct (existsb _ (runes name)) eqn:E2; [by intros [= <- _]|]. intros [= <- <-] _ Hne. split_and!; try done.
  apply Forall_forall. intros c Hc. unfold is_control.
  rewrite (existsb_runes (λ r, (r <? 32) || (r =? 127))) in E2 by (intros r Hr; apply orb_false_iff; rewrite Z.ltb_ge, Z.eqb_neq; lia).
  apply not_true_iff_false. intros Hn. apply not_true_iff_false in E2. apply E2, existsb_exists. exists c. by rewrite <- list_elem_of_In.
Qed.

Lemma classifyEntry_safe word kind payload : classifyEntry word = (kind, payload) → kind = kindApt → payload ≠ [] → safe_operand payload.
Proof.
  unfold classifyEntry. destruct (_ || _); [by intros [= <- _]|]. destruct (has_prefix "url:" word); [by intros [= <- _]|].
  destruct (has_prefix "file:" word); [by intros [= <- _]|].
  destruct (has_prefix "apt:" word); [intros H ->; by eapply classifyPackage_safe|].
  destruct (has_suffix ".deb" word); [by intros [= <- _]|]. intros H ->. by eapply classifyPackage_safe.
Qed.
Lemma line_digest_ok n kind word extra sha : line_digest n kind word extra = Ok sha → sha = [] ∨ Valid sha = true.
Proof.
  unfold line_digest. destruct extra as [|token more]; [intros [= <-]; by left|]. destruct kind, more; try done.
  destruct (cut_prefix "sha256=" token) as [hex|]; [|done]. destruct (Valid (to_lower hex)) eqn:E; [|done].
  intros [= <-]. by right.
Qed.
Lemma http_url_ok p : http_url p = true → ∃ url, Parse p = Some url ∧ u_Host url ≠ [] ∧ (u_Scheme url = bytes_of "http" ∨ u_Scheme url = bytes_of "https").
Proof.
  unfold http_url. destruct (Parse p) as [url|]; [|done]. intros H. bsplit. exists url. split_and!; [done|by apply streq_false_iff|].
  by match goal with H : _ || _ = true |- _ => apply orb_true_iff in H as [?%streq_true|?%streq_true] end; [left|right].
Qed.
Lemma filepath_join_nonempty l : filepath_join l ≠ [].
Proof.
  unfold filepath_join, path_clean. set (p := join [slash] l). destruct (has_prefix [slash] p); [done|].
  pose proof (clean_segs_nonempty false (split slash p)) as H. destruct (clean_segs false (split slash p)) as [|w ws]; [done|].
  specialize (H w ltac:(left)). by destruct w, ws.
Qed.

Lemma list_line_ok dir n line e : list_line dir n line = Ok e →
  match e with None => speaks line = false | Some e => speaks line = true ∧ entry_ok e end.
Proof.
  unfold list_line, speaks. destruct (fields (strip_comment line)) as [|word extra]; [by intros [= <-]|].
  destruct (classifyEntry word) as [kind payload] eqn:Ec.
  assert (kind = kindReject ∨ kind ≠ kindReject) as [->|Hk] by (destruct kind; auto); [done|].
  destruct (streq payload "") eqn:Ep; [by destruct kind|]. apply streq_false_iff in Ep.
  destruct (line_digest n kind word extra) as [sha|] eqn:Es; [|by destruct kind].
  pose proof (line_digest_ok _ _ _ _ _ Es) as Hs. destruct kind; cbn [mbind result_bind]; try done.
  - intros [= <-]. split; [done|]. by eapply classifyEntry_safe.
  - destruct (http_url payload) eqn:Eu; [|done]. intros [= <-]. split; [done|]. split; [done|]. by apply http_url_ok.
  - intros [= <-]. split; [done|]. cbn. destruct (looksAbsolute payload); [done|]. apply filepath_join_nonempty.
Qed.
Lemma list_loop_ok dir n lines i j : inputs_ok i → list_loop dir n lines i = Ok j →
  inputs_ok j ∧ (input_count j = input_count i + length (List.filter speaks lines))%nat.
Proof.
  revert n i. induction lines as [|line lines IH]; intros n i Hi; cbn [list_loop List.filter]; [intros [= <-]; cbn; split; [done|lia]|].
  rewrite bind_Ok. intros (e & H1 & H2). apply list_line_ok in H1. destruct e as [e|]; cbn [add_entry] in H2.
  - destruct H1 as [-> He]. assert (inputs_ok (add_entry (Some e) i) ∧ input_count (add_entry (Some e) i) = S (input_count i)) as [Ha Hc].
    { destruct i as [ps us fs ds ls], Hi as (H3 & H4 & H5). unfold inputs_ok, input_count. cbn in *.
      destruct e; cbn; rewrite !Forall_app, !Forall_singleton || rewrite Forall_app, Forall_singleton; rewrite !length_app; cbn; (split; [by split_and!|lia]). }
    destruct (IH _ _ Ha H2) as [Hj Hcj]. split; [done|]. rewrite Hcj, Hc. cbn [length]. lia.
  - rewrite H1. by apply (IH (n + 1)).
Qed.

(** A list that is accepted asks for what its lines say and for nothing an
    option could be smuggled in with: every package name is an operand (not
    empty, no leading dash, no control byte), every URL parses as http or https
    with a host, and has the digest of its line or none, and every line that is
    not blank or a comment is one of the inputs. *)
Theorem parseListFile_sound path raw i : parseListFile path (Ok raw) = Ok i →
  inputs_ok i ∧ in_ListFiles i = [path]
  ∧ input_count i = length (List.filter speaks (split newline (delete_cr raw))).
Proof.
  cbn [parseListFile]. rewrite bind_Ok. intros (j & H & [= <-]).
  assert (inputs_ok (mkInputs [] [] [] [] [])) as H0 by (by repeat split; constructor).
  by destruct (list_loop_ok _ _ _ _ _ H0 H) as [? ?].
Qed.
End list.

Lemma parseListFile_sound_witness : ∃ i,
  parseListFile "/work/packages.txt" (Ok ("vlc # player" ++ newline :: bytes_of "https://h.example/a.deb" ++ newline :: bytes_of "./b.deb")) = Ok i
  ∧ inputs_ok i.
Proof.
  destruct (parseListFile "/work/packages.txt" (Ok ("vlc # player" ++ newline :: bytes_of "https://h.example/a.deb" ++ newline :: bytes_of "./b.deb"))) as [i|] eqn:E.
  - exists i. split; [reflexivity|]. exact (proj1 (parseListFile_sound _ _ _ E)).
  - vm_compute in E. discriminate E.
Defined.
Example option_refused : parseListFile "/work/l" (Ok (bytes_of "--allow-unauthenticated")) = Err (BadPackage 1 (bytes_of "--allow-unauthenticated")).
Proof. vm_compute. reflexivity. Qed.
