(* ===== verification/FetchDeb.v ===== *)
(** * core/fetch: what a download must be, and what it may be called.

    debsniff.go, control.go, reason.go and the file names of fetcher.go and
    local.go. The reader of ar archives works on the bytes that are left; the
    third-party reader of a .deb's members is an argument of [readControlInfo].
    [ParseMediaType] stands for Go's mime package, whose results the source looks
    at by two names; [is_print] is [unicode.IsPrint]. *)
From S2P Require Export GoQuote Redact PathJoin Dferr.
From stdpp Require Export gmap.
#[local] Open Scope Z_scope.

(** ** Why a download failed (reason.go, api/buildjob) *)

Definition ReasonUnreachable : gostring := "unreachable".
Definition ReasonTLSUntrusted : gostring := "tls-untrusted".
Definition ReasonHTTPStatus : gostring := "http-status".
Definition ReasonDigestMismatch : gostring := "digest-mismatch".
Definition ReasonNotADeb : gostring := "not-a-deb".
Definition ReasonTooLarge : gostring := "too-large".
Definition ReasonRefusedRedirect : gostring := "refused-redirect".
Definition ReasonUnreadable : gostring := "unreadable".
Definition ReasonBadInput : gostring := "bad-input".
Definition ReasonLocalStorage : gostring := "local-storage".
Definition ReasonOther : gostring := "other".
(** An error with its tag, as [because] makes it and [ReasonOf] reads it. *)
Record fetch_error := mkFetchError { fe_err : goerror; fe_reason : gostring }.
Definition because (reason : gostring) (err : goerror) : fetch_error := mkFetchError err reason.

(** [Fetched] *)
Record Fetched := mkFetched {
  ft_URL : gostring; ft_Filename : gostring; ft_Digest : gostring; ft_Size : Z; ft_StorePath : gostring; ft_Verification : gostring
}.

Section deb.
Context (is_print : Z → bool).
Abbreviation q := (Quote is_print).

(** ** The ar container (debsniff.go) *)

Definition arMagic : gostring := "!<arch>" ++ [newline].
Definition arHeaderLen : nat := 60.
Record arMember := mkArMember { am_Name : gostring; am_Size : Z }.
(** [arReader]: what is left to read, and where in the current member it is. *)
Record arReader := mkArReader { ar_rest : gostring; ar_pos : Z; ar_size : Z }.
(** [io.EOF] is kept apart: it ends the archive. *)
Inductive ar_error := ArEOF | ArError (text : gostring).
Definition ar_text (e : ar_error) : gostring := match e with ArEOF => "EOF" | ArError t => t end.

(** What [io.ReadFull] says of a short text. *)
Definition short_read (s : gostring) : gostring := match s with [] => "EOF" | _ => "unexpected EOF" end.
Definition newArReader (data : gostring) : result gostring arReader :=
  let magic := firstn (length arMagic) data in
  if Nat.ltb (length magic) (length arMagic) then Err ("not an ar archive (" ++ short_read magic ++ ")")
  else if negb (streq magic arMagic) then Err (bytes_of "not an ar archive: bad magic")
  else Ok (mkArReader (skipn (length arMagic) data) 0 0).

(** The error of [strconv.ParseInt]: a number out of range, or no number. *)
Definition parse_int_error (s : gostring) : gostring :=
  let ds := match s with a :: s' => if beq a "-" || beq a "+" then s' else s | [] => s end in
  "strconv.ParseInt: parsing " ++ q s ++ ": "
  ++ (if bool_decide (ds = []) || negb (forallb is_digit ds) then bytes_of "invalid syntax" else bytes_of "value out of range").
Definition parseArHeader (h : gostring) : result gostring arMember :=
  if negb (Nat.eqb (length h) arHeaderLen) then Err (bytes_of "ar: short header")
  else if negb (streq (skipn 58 h) [chr 96; newline]) then Err (bytes_of "ar: bad header terminator")
  else
    let name := trim_suffix "/" (trim_right " " (firstn 16 h)) in
    let sizeField := trim_space (firstn 10 (skipn 48 h)) in
    match parse_int64 sizeField with
    | None => Err ("ar: bad size field " ++ q sizeField ++ ": " ++ parse_int_error sizeField)
    | Some size => if size <? 0 then Err ("ar: negative size field " ++ q sizeField) else Ok (mkArMember name size)
    end.

(** [io.CopyN(io.Discard, r, n)] *)
Definition discard (n : Z) (s : gostring) : option gostring :=
  if Z.of_nat (length s) <? n then None else Some (skipn (Z.to_nat n) s).
Definition Next (a : arReader) : result ar_error (arMember * arReader) :=
  match (if ar_pos a <? ar_size a then discard (ar_size a - ar_pos a) (ar_rest a) else Some (ar_rest a)) with
  | None => Err (ArError "ar: skipping member content: EOF")
  | Some rest =>
      match (if ar_size a mod 2 =? 1 then discard 1 rest else Some rest) with
      | None => Err (ArError "ar: reading pad byte: EOF")
      | Some rest =>
          let header := firstn arHeaderLen rest in
          if Nat.ltb (length header) arHeaderLen then Err ArEOF
          else match parseArHeader header with
          | Err e => Err (ArError e)
          | Ok m => Ok (m, mkArReader (skipn arHeaderLen rest) 0 (am_Size m))
          end
      end
  end.
(** What [io.ReadFull] gets of the next [n] bytes of the current member. *)
Definition read_member (n : nat) (a : arReader) : gostring :=
  firstn (Z.to_nat (Z.min (Z.of_nat n) (ar_size a - ar_pos a))) (ar_rest a).

Definition not_a_deb : gostring := "does not look like a .deb file".
Definition SniffDeb (data : gostring) : option goerror :=
  match newArReader data with
  | Err e => Wrap Incomplete (Some (Plain e)) (not_a_deb ++ " (not an ar archive; a download error page saved as a .deb is a common cause)")
  | Ok a =>
      match Next a with
      | Err e => Wrap Incomplete (Some (Plain (ar_text e))) (not_a_deb ++ " (empty or truncated ar archive)")
      | Ok (m, a) =>
          if negb (streq (am_Name m) "debian-binary") then
            Some (New Incomplete (not_a_deb ++ " (first ar member is " ++ q (am_Name m) ++ ", expected " ++ q "debian-binary" ++ ")"))
          else
            let version := trim_right [chr 0] (read_member 32 a) in
            if negb (has_prefix ("2.0" ++ [newline]) version) && negb (has_prefix "2.0" version) then
              Some (New Incomplete (not_a_deb ++ " (unrecognised debian-binary version " ++ q (trim_space version) ++ ")"))
            else None
      end
  end.
End deb.

(** ** The control paragraph (control.go) *)

Record ControlInfo := mkControlInfo {
  ci_Package : gostring; ci_Source : gostring; ci_Version : gostring; ci_Architecture : gostring; ci_MultiArch : gostring;
  ci_Depends : gostring; ci_PreDepends : gostring; ci_Recommends : gostring; ci_Suggests : gostring; ci_Breaks : gostring;
  ci_Conflicts : gostring; ci_Replaces : gostring; ci_Provides : gostring
}.
Definition SourceName (c : ControlInfo) : gostring :=
  if streq (ci_Source c) "" then ci_Package c
  else match cut " " (ci_Source c) with Some (name, _) => name | None => ci_Source c end.

Section control.
Context {unicode : UnicodeTables}.

Abbreviation fields_map := (gmap gostring gostring).
(** One line of the paragraph: a continuation goes to [curKey]. *)
Definition control_line (line : gostring) (fields : fields_map) (curKey : gostring) : fields_map * gostring :=
  if match line with c :: _ => beq c " " || beq c (chr 9) | [] => false end then
    if streq curKey "" then (fields, curKey)
    else
      let cont := drop_in (" " ++ [chr 9]) line in
      if streq cont "." then (fields, curKey)
      else
        let old := default [] (fields !! curKey) in
        (<[curKey := if streq old "" then cont else old ++ " " ++ cont]> fields, curKey)
  else match cut ":" line with
  | None => (fields, curKey)
  | Some (k, v) => let key := to_lower (trim_space k) in (<[key := trim_space v]> fields, key)
  end.
Fixpoint control_loop (lines : list gostring) (fields : fields_map) (curKey : gostring) : fields_map :=
  match lines with
  | [] => fields
  | line :: lines =>
      let line := trim_right [chr 13] line in
      if streq line "" then fields
      else let '(fields, curKey) := control_line line fields curKey in control_loop lines fields curKey
  end.
Definition control_info (fields : fields_map) : ControlInfo :=
  let get (k : String.string) := default [] (fields !! bytes_of k) in
  mkControlInfo (get "package"%string) (get "source"%string) (get "version"%string) (get "architecture"%string)
    (get "multi-arch"%string) (get "depends"%string) (get "pre-depends"%string) (get "recommends"%string) (get "suggests"%string)
    (get "breaks"%string) (get "conflicts"%string) (get "replaces"%string) (get "provides"%string).
Definition missing_fields (info : ControlInfo) : list gostring :=
  (if streq (ci_Package info) "" then [bytes_of "Package"] else [])
  ++ (if streq (ci_Version info) "" then [bytes_of "Version"] else [])
  ++ (if streq (ci_Architecture info) "" then [bytes_of "Architecture"] else []).
Definition parseControlStanza (text : gostring) : result goerror ControlInfo :=
  let info := control_info (control_loop (GoStrings.split newline text) ∅ []) in
  match missing_fields info with
  | [] => Ok info
  | missing => Err (New Incomplete ("control file is missing required field(s): " ++ GoStrings.join ", " missing))
  end.

(** The members of a .deb, as the third-party reader gives them: the steps of its
    iterators, each an error or an entry. *)
Record tar_entry := mkTarEntry { te_Name : gostring; te_Body : result goerror gostring }.
Record ArEntry := mkArEntry { ae_Name : gostring; ae_IsTarfile : bool; ae_Tarfile : result goerror (list (result goerror tar_entry)) }.
Definition maxControlSize : Z := 8388608.

Fixpoint control_entry (member : gostring) (entries : list (result goerror tar_entry)) : result goerror ControlInfo :=
  match entries with
  | [] => Err (New Incomplete (member ++ " has no control file inside it"))
  | Err e :: _ => Err (DfError Incomplete ("reading " ++ member) "" (Some e))
  | Ok hdr :: rest =>
      if negb (streq (path_clean ("/" ++ te_Name hdr)) "/control") then control_entry member rest
      else match te_Body hdr with
      | Err e => Err (DfError Incomplete ("reading control file inside " ++ member) "" (Some e))
      | Ok body =>
          if maxControlSize <? Z.of_nat (length body) then
            Err (New Incomplete ("control file inside " ++ member ++ " exceeds the " ++ itoa maxControlSize
              ++ "-byte limit (decompresses to far more data than a real control file ever does; refusing rather than silently truncating it)"))
          else parseControlStanza body
      end
  end.
Definition readControlMember (m : ArEntry) : result goerror ControlInfo :=
  if negb (ae_IsTarfile m) then Err (New Incomplete (ae_Name m ++ " is not a tar archive"))
  else match ae_Tarfile m with
  | Err e => Err (DfError Incomplete ("decompressing " ++ ae_Name m) "" (Some e))
  | Ok entries => control_entry (ae_Name m) entries
  end.
Fixpoint control_member (members : list (result goerror ArEntry)) : result goerror ControlInfo :=
  match members with
  | [] => Err (New Incomplete "missing control member (checked every ar member, found none named control.*)")
  | Err e :: _ => Err (DfError Incomplete "reading ar members" "" (Some e))
  | Ok m :: rest => if negb (has_prefix "control." (ae_Name m)) then control_member rest else readControlMember m
  end.
Definition readControlInfo (is_print : Z → bool) (ar : result goerror (list (result goerror ArEntry))) : result goerror ControlInfo :=
  match ar with
  | Err e => Err (DfError Incomplete not_a_deb "" (Some e))
  | Ok [] => Err (DfError Incomplete (not_a_deb ++ " (empty archive)") "" (Some (Plain "EOF")))
  | Ok (Err e :: _) => Err (DfError Incomplete (not_a_deb ++ " (empty archive)") "" (Some e))
  | Ok (Ok first :: rest) =>
      if negb (streq (ae_Name first) "debian-binary") then
        Err (New Incomplete (not_a_deb ++ " (first ar member is " ++ Quote is_print (ae_Name first) ++ ", expected "
          ++ Quote is_print "debian-binary" ++ ")"))
      else control_member rest
  end.
End control.

(** ** File names (fetcher.go, local.go) *)

Definition maxFilenameLen : Z := 255.
Definition reservedDeviceNames : list gostring :=
  map bytes_of ["con"; "prn"; "aux"; "nul"; "com0"; "com1"; "com2"; "com3"; "com4"; "com5"; "com6"; "com7"; "com8"; "com9";
    "lpt0"; "lpt1"; "lpt2"; "lpt3"; "lpt4"; "lpt5"; "lpt6"; "lpt7"; "lpt8"; "lpt9"]%string.

(** [mime.ParseMediaType]: the parameters of a header; [None] is an error. *)
Class MediaTypes := { ParseMediaType : gostring → option (gmap gostring gostring) }.

Section names.
Context {unicode : UnicodeTables} {media : MediaTypes}.

Definition isReservedDeviceName (name : gostring) : bool :=
  let stem := match cut "." name with Some (s, _) => s | None => name end in
  bool_decide (to_lower (trim_right " " stem) ∈ reservedDeviceNames).
Definition sanitizeFilename (name : gostring) : gostring :=
  let name := trim_space name in
  if streq name "" || streq name "." || streq name ".." then []
  else if contains_byte "/" name || contains_byte "\" name then []
  else if existsb (λ r, (r <? 32) || (r =? 127)) (runes name) then []
  else if has_prefix "/" name then []
  else if contains_byte ":" name then []
  else if has_suffix "." name then []
  else if maxFilenameLen <? Z.of_nat (length name) then []
  else if isReservedDeviceName name then []
  else name.

(** [strings.SplitN(v, "'", 3)]: decoded when both quotes are there. *)
Definition decodeExtValue (v : gostring) : option gostring :=
  match cut (chr 39) v with
  | Some (_, rest) => match cut (chr 39) rest with Some (_, value) => unescape value | None => Some v end
  | None => Some v
  end.
Definition safeFilenameFromContentDisposition (header : gostring) : gostring :=
  let header := trim_space header in
  if streq header "" then []
  else match ParseMediaType header with
  | None => []
  | Some params =>
      let ext := default [] (params !! bytes_of "filename*") in
      if negb (streq ext "") then match decodeExtValue ext with Some decoded => sanitizeFilename decoded | None => [] end
      else sanitizeFilename (default [] (params !! bytes_of "filename"))
  end.
Definition safeFilenameFromURL (u : URL) : gostring :=
  let base := Base (u_Path u) in
  let safe := sanitizeFilename (default base (unescape base)) in
  if streq safe "" then bytes_of "download.deb" else safe.
Definition filenameFor (u : URL) (contentDisposition : gostring) : gostring :=
  let name := safeFilenameFromContentDisposition contentDisposition in
  if streq name "" then safeFilenameFromURL u else name.
Definition poolFilenameForLocal (path : gostring) : result goerror gostring :=
  let name := sanitizeFilename (Base path) in
  if streq name "" then
    Err (New Usage ("fetch: " ++ path ++ ": the file's own name cannot be used as a package filename (no separators, control characters, drive or device names, and at most 255 bytes)"))
  else Ok name.

(** ** What the names are good for *)

(** One path component that every system stores under that name. *)
Record pool_name (n : gostring) : Prop := {
  pl_seg : plain_seg n;
  pl_bytes : Forall (λ c, is_control c = false ∧ c ≠ "\"%char ∧ c ≠ ":"%char) n;
  pl_length : (length n ≤ 255)%nat;
  pl_dot : has_suffix "." n = false;
  pl_device : isReservedDeviceName n = false
}.

Lemma sanitizeFilename_safe name : sanitizeFilename name ≠ [] → pool_name (sanitizeFilename name).
Proof.
  unfold sanitizeFilename. cbv zeta. set (n := trim_space name).
  destruct (streq n "") eqn:E1; [done|]. destruct (streq n ".") eqn:E2; [done|]. destruct (streq n "..") eqn:E3; [done|].
  destruct (contains_byte "/" n) eqn:E4; [done|]. destruct (contains_byte "\" n) eqn:E5; [done|]. cbn [orb].
  destruct (existsb _ (runes n)) eqn:E6; [done|]. destruct (has_prefix "/" n); [done|].
  destruct (contains_byte ":" n) eqn:E7; [done|]. destruct (has_suffix "." n) eqn:E8; [done|].
  destruct (_ <? _) eqn:E9; [done|]. destruct (isReservedDeviceName n) eqn:E10; [done|]. intros _.
  apply streq_false_iff in E1, E2, E3. apply contains_byte_false in E4, E5, E7. apply Z.ltb_ge in E9. unfold maxFilenameLen in E9.
  constructor; [|..].
  - split; [by split_and!|done].
  - rewrite existsb_runes in E6. 2: { intros r Hr. lia. }
    apply Forall_forall. intros c Hc. split_and!.
    + destruct (is_control c) eqn:Ec; [|done]. exfalso. assert (existsb (λ c, (ord c <? 32) || (ord c =? 127)) n = true) as Hx; [|congruence].
      apply existsb_exists. exists c. split; [by apply list_elem_of_In|exact Ec].
    + by intros ->.
    + by intros ->.
  - lia.
  - done.
  - done.
Qed.
Lemma download_deb_safe : pool_name "download.deb".
Proof.
  constructor; [split; [by vm_compute|by apply contains_byte_false]| |vm_compute; lia|done|by vm_compute].
  repeat constructor; done.
Qed.
Lemma filenameFor_safe u header : pool_name (filenameFor u header).
Proof.
  unfold filenameFor. destruct (streq _ "") eqn:E.
  - unfold safeFilenameFromURL. destruct (streq (sanitizeFilename _) "") eqn:E'.
    + exact download_deb_safe.
    + apply sanitizeFilename_safe. by apply streq_false_iff in E'.
  - apply streq_false_iff in E. revert E. unfold safeFilenameFromContentDisposition.
    destruct (streq _ ""); [done|]. destruct (ParseMediaType _) as [params|]; [|done].
    destruct (negb _); [destruct (decodeExtValue _); [apply sanitizeFilename_safe|done]|apply sanitizeFilename_safe].
Qed.
Lemma poolFilenameForLocal_safe path name : poolFilenameForLocal path = Ok name → pool_name name.
Proof.
  unfold poolFilenameForLocal. destruct (streq _ "") eqn:E; [done|]. intros [= <-]. apply sanitizeFilename_safe. by apply streq_false_iff in E.
Qed.
End names.
