(* ===== verification/Fetcher.v ===== *)
(** * core/fetch: downloads.

    fetcher.go, local.go and the parts of api.go that call them. What the network,
    the disk and the store answer may depend on everything done before, so they
    are a record of functions ([host]) of the list of [act]s so far. A body is the
    bytes a server sends, which may break off or never end. The store is known by
    the bytes it took in; the digest it returns is theirs (Store). A context is
    never cancelled, and the events that tell of progress within a download are
    left out. *)
From S2P Require Export FetchDeb FetchList RunMonad.
From S2P Require Import LockTypes.
#[local] Open Scope Z_scope.

(** ** The host *)

Inductive body := Ends (b : gostring) | Breaks (b : gostring) (err : goerror) | Endless (b : nat → ascii).
Record response := mkResponse {
  rs_StatusCode : Z; rs_Status : gostring; rs_ContentLength : Z; rs_Disposition : gostring; rs_Body : body
}.
(** One exchange: a redirect, its target resolved; a response; or an error, and
    whether it is about a certificate. *)
Inductive answer := Redirects (to : URL) | Responds (r : response) | NoAnswer (tls : bool) (err : goerror).
Inductive file_stat := NoFile | NoStat (err : goerror) | ADirectory | AFile.

#[warnings="-register-all"]
Inductive act :=
| Asked (u : URL) | Said (warn : bool) (msg : gostring) | Slept (ns : Z)
| Created (path : gostring) | Wrote (path data : gostring) | Looked (path : gostring) | Removed (path : gostring) (gone : bool)
| Ingested (path content : gostring) (moveOK gone : bool).
Abbreviation acts := (list act).

Record host := mkHost {
  h_request : acts → URL → option goerror;                       (* http.NewRequest, of the URL's text *)
  h_answer : acts → URL → answer;
  h_create : acts → result goerror gostring;                     (* os.CreateTemp *)
  h_copy : acts → gostring → option (Z * goerror);               (* writing fails, after so many bytes *)
  h_close : acts → option goerror;
  h_stat : acts → gostring → file_stat;
  h_read : acts → gostring → result goerror gostring;            (* the bytes a path yields now *)
  h_put : acts → gostring → result goerror gostring;             (* the bytes the store takes in *)
  h_remove : acts → gostring → bool;                             (* unlinking takes: its error is ignored *)
  h_path : gostring → gostring;                                  (* Store.Path *)
  h_string : URL → gostring;                                     (* URL.String, with the user a URL here lacks *)
  h_url_error : acts → gostring → gostring                       (* how a *url.Error around a text prints *)
}.

(** [Options], as far as they decide something. *)
Record Options := mkOptions { op_Retries : Z; op_Store : bool }.
Definition defaultRetries : Z := 3.
Definition New_ (o : Options) : Options := mkOptions (if op_Retries o <=? 0 then defaultRetries else op_Retries o) (op_Store o).

Definition backoffBase : Z := 200000000.
Definition backoffCap : Z := 5000000000.
Definition default_maxDownloadSize : Z := Z.shiftl 8 30.

Section fetch.
Context {unicode : UnicodeTables} {hosts : Hosts} {media : MediaTypes} (is_print : Z → bool) (maxDownloadSize : Z) (h : host) (opts : Options).
Abbreviation q := (Quote is_print).

(** A failure, and whether trying again could help. *)
Definition failure : Type := fetch_error * bool.
Definition fetching := run acts failure.
Definition tell (a : act) : fetching unit := modify (λ s, s ++ [a]).
Definition fail_fetch {A} (retryable : bool) (reason : gostring) (err : goerror) : fetching A := fail_with (because reason err, retryable).
Definition wrap (c : Class) (cause : goerror) (msg : gostring) : goerror := DfError c msg "" (Some cause).
(** What the host answers, an error tagged. *)
Definition ask {A} (f : acts → result goerror A) (tag : goerror → failure) : fetching A :=
  λ s, (match f s with Ok a => Ok a | Err e => Err (tag e) end, s).
(** What a path yields when it is opened and read. *)
Definition read_file (path : gostring) (tag : goerror → failure) : fetching gostring :=
  _ ← tell (Looked path); ask (λ s, h_read h s path) tag.
(** [defer] of a removal, unless the computation succeeds. *)
Definition or_remove {A} (path : gostring) (m : fetching A) : fetching A :=
  r ← attempt m;
  match r with
  | Ok a => mret a
  | Err e => gone ← gets (λ s, h_remove h s path); _ ← tell (Removed path gone); fail_with e
  end.

(** ** Redirects *)

Inductive refusal := TooMany | SchemeDowngrade (from to why : gostring).
Definition refusal_text (r : refusal) : gostring :=
  match r with
  | TooMany => bytes_of "stopped after 10 redirects"
  | SchemeDowngrade from to why => "refusing redirect from " ++ from ++ " to " ++ to ++ ": " ++ why
  end.
Definition redacted (u : URL) : gostring := RedactURL (h_string h u).
Definition checkRedirect (req : URL) (via : list URL) : option refusal :=
  match via with
  | [] => None
  | orig :: _ =>
      if (10 <=? length via)%nat then Some TooMany
      else if streq (u_Scheme orig) "https" && negb (streq (u_Scheme req) "https") then
        Some (SchemeDowngrade (redacted orig) (redacted req) "would downgrade from https to plaintext")
      else if negb (streq (u_Scheme req) "https") && negb (streq (u_Scheme req) "http") then
        Some (SchemeDowngrade (redacted orig) (redacted req) ("only http and https are fetched, not " ++ q (u_Scheme req)))
      else None
  end.

(** [Client.Do]: the exchange after the requests [via]. The fuel is for the ten
    requests [checkRedirect] lets happen. *)
Inductive do_error := Refused (r : refusal) | Failed (tls : bool) (err : goerror).
Fixpoint do_request (fuel : nat) (via : list URL) (u : URL) : fetching (result do_error (URL * response)) :=
  match fuel with
  | O => mret (Err (Refused TooMany))
  | S fuel =>
      _ ← tell (Asked u);
      a ← gets (λ s, h_answer h s u);
      match a with
      | NoAnswer tls err => mret (Err (Failed tls err))
      | Responds r => mret (Ok (u, r))
      | Redirects to =>
          match checkRedirect to (via ++ [u]) with
          | Some r => mret (Err (Refused r))
          | None => do_request fuel (via ++ [u]) to
          end
      end
  end.

(** ** One attempt *)

(** What [io.LimitReader(resp.Body, n)] yields, and the error it ends with. *)
Definition read_limited (n : Z) (b : body) : gostring * option goerror :=
  match b with
  | Ends s => (if Z.of_nat (length s) <=? n then s else firstn (Z.to_nat n) s, None)
  | Breaks s e => if Z.of_nat (length s) <? n then (s, Some e) else (firstn (Z.to_nat n) s, None)
  | Endless f => (map f (seq 0 (Z.to_nat n)), None)
  end.
(** [io.Copy] into the scratch file: what went wrong, and after how many bytes. *)
Definition copy_body (path : gostring) (b : body) : fetching (Z * option (Z * goerror)) :=
  let '(data, broken) := read_limited (maxDownloadSize + 1) b in
  full ← gets (λ s, h_copy h s data);
  match full with
  | Some (n, e) => _ ← tell (Wrote path (firstn (Z.to_nat n) data)); mret (n, Some (n, e))
  | None => _ ← tell (Wrote path data); let n := Z.of_nat (length data) in mret (n, (λ e, (n, e)) <$> broken)
  end.
Definition fails_if (c : bool) (retryable : bool) (reason : gostring) (err : goerror) : fetching unit :=
  guard_with c (because reason err, retryable).
Definition no_error (e : option goerror) (tag : goerror → failure) : fetching unit :=
  match e with Some e => fail_with (tag e) | None => mret tt end.
Definition tagged (retryable : bool) (reason : gostring) (c : Class) (msg : gostring) (e : goerror) : failure :=
  (because reason (wrap c e msg), retryable).

Definition want_digest (i : URLInput) : gostring := to_lower (trim_space (ui_SHA256 i)).
Definition mismatch (want got : gostring) : bool := negb (streq want "") && negb (Equal got want).
Definition verification (want : gostring) : gostring := if streq want "" then VerifiedURLUnverified else VerifiedUserDigest.

(** The scratch file as it is when it is looked at. *)
Definition ingest_scratch (at_url : gostring) (path want : gostring) : fetching (gostring * gostring) :=
  seen ← read_file path (tagged false ReasonLocalStorage Environment (at_url ++ "reopening scratch file"));
  _ ← no_error (SniffDeb is_print seen) (λ e, (because ReasonNotADeb (Wrapped (at_url ++ error_text e) e), false));
  got ← read_file path (tagged false ReasonLocalStorage Environment (at_url ++ "hashing download"));
  let gotDigest := Bytes got in
  _ ← fails_if (mismatch want gotDigest) false ReasonDigestMismatch
        (New Verification (at_url ++ "sha256 mismatch: expected " ++ want ++ ", got " ++ gotDigest));
  _ ← fails_if (negb (op_Store opts)) false ReasonLocalStorage (New Usage (at_url ++ "no Store configured"));
  content ← ask (λ s, h_put h s path) (tagged true ReasonLocalStorage Environment (at_url ++ "storing download"));
  gone ← gets (λ s, h_remove h s path);
  _ ← tell (Ingested path content true gone);
  mret (gotDigest, content).
Definition fill_scratch (at_url : gostring) (path : gostring) (resp : response) (want : gostring) : fetching (gostring * gostring) :=
  '(written, copyErr) ← copy_body path (rs_Body resp);
  closeErr ← gets (h_close h);
  _ ← match copyErr with
      | Some (n, e) => fail_with (tagged true ReasonUnreachable Incomplete (at_url ++ "download failed after " ++ itoa n ++ " bytes") e)
      | None => mret tt
      end;
  _ ← no_error closeErr (tagged true ReasonLocalStorage Environment (at_url ++ "writing scratch file"));
  _ ← fails_if (maxDownloadSize <? written) false ReasonTooLarge
        (New Incomplete (at_url ++ "response exceeds the " ++ itoa maxDownloadSize ++ "-byte download limit"));
  ingest_scratch at_url path want.
Definition download (i : URLInput) (resp : response) (filename want : gostring) : fetching Fetched :=
  let safeURL := RedactURL (ui_URL i) in
  let at_url := "fetch: " ++ safeURL ++ ": " in
  tmp ← ask (h_create h) (tagged false ReasonLocalStorage Environment (at_url ++ "creating scratch file"));
  _ ← tell (Created tmp);
  '(gotDigest, content) ← or_remove tmp (fill_scratch at_url tmp resp want);
  let storeDigest := Bytes content in
  _ ← fails_if (negb (Equal storeDigest gotDigest)) false ReasonDigestMismatch
        (New Verification (at_url ++ "stored bytes hash to " ++ storeDigest ++ " but the download hashed to " ++ gotDigest));
  mret (mkFetched safeURL filename storeDigest (Z.of_nat (length content)) (h_path h storeDigest) (verification want)).

Definition attempt_url (i : URLInput) (u : URL) (want : gostring) : fetching Fetched :=
  let safeURL := RedactURL (ui_URL i) in
  let at_url := "fetch: " ++ safeURL ++ ": " in
  bad ← gets (λ s, h_request h s u);
  _ ← no_error bad (tagged false ReasonBadInput Usage (at_url ++ "building request"));
  answered ← do_request 10 [] u;
  match answered with
  | Err (Refused (SchemeDowngrade from to why)) =>
      fail_fetch false ReasonRefusedRedirect (New Incomplete (at_url ++ refusal_text (SchemeDowngrade from to why)))
  | Err (Refused TooMany) =>
      text ← gets (λ s, h_url_error h s (refusal_text TooMany));
      fail_with (tagged true ReasonUnreachable Incomplete (at_url ++ "request failed") (Wrapped text (Plain (refusal_text TooMany))))
  | Err (Failed true e) => fail_with (tagged false ReasonTLSUntrusted Incomplete (at_url ++ "request failed") e)
  | Err (Failed false e) => fail_with (tagged true ReasonUnreachable Incomplete (at_url ++ "request failed") e)
  | Ok (last, resp) =>
      _ ← (if negb (equal_fold (u_Host last) (u_Host u))
           then tell (Said true (safeURL ++ " redirected to a different host: " ++ u_Host last)) else mret tt);
      _ ← fails_if (negb (rs_StatusCode resp =? 200)) (500 <=? rs_StatusCode resp) ReasonHTTPStatus
            (New Incomplete (at_url ++ "server returned " ++ rs_Status resp));
      _ ← fails_if (maxDownloadSize <? rs_ContentLength resp) false ReasonTooLarge
            (New Incomplete (at_url ++ "server declared " ++ itoa (rs_ContentLength resp) ++ " bytes, over the "
              ++ itoa maxDownloadSize ++ "-byte download limit"));
      let filename := filenameFor u (rs_Disposition resp) in
      fetched ← download i resp filename want;
      _ ← tell (Said false ("fetched " ++ filename));
      mret fetched
  end.

(** ** All attempts *)

(** The [time.Duration] [backoffBase << uint(attempt-1)], with its overflow: a
    shift by 64 or more is zero. *)
Definition backoff (attempt : Z) : Z :=
  let d := wrap_int64 (Z.shiftl backoffBase (attempt - 1)) in
  if (backoffCap <? d) || (d <=? 0) then backoffCap else d.
Fixpoint attempts_loop (more : nat) (attempt attempts : Z) (i : URLInput) (u : URL) (want : gostring) : fetching Fetched :=
  r ← RunMonad.attempt (attempt_url i u want);
  match r, more with
  | Ok f, _ => mret f
  | Err e, O => fail_with e
  | Err (e, retryable), S more =>
      if negb retryable || (attempt =? attempts) then fail_with (e, retryable)
      else
        _ ← tell (Said false ("retrying " ++ RedactURL (ui_URL i) ++ " (attempt " ++ itoa (attempt + 1) ++ "/" ++ itoa attempts ++ ")"));
        _ ← tell (Slept (backoff attempt));
        attempts_loop more (attempt + 1) attempts i u want
  end.
Definition fetch_from (i : URLInput) (u : URL) : fetching Fetched :=
  let want := want_digest i in
  _ ← fails_if (negb (streq want "") && negb (Valid want)) false ReasonBadInput
        (New Usage ("fetch: " ++ RedactURL (ui_URL i) ++ ": malformed sha256 (want 64 lowercase hex characters)"));
  let attempts := if op_Retries opts <? 1 then 1 else op_Retries opts in
  attempts_loop (Z.to_nat (attempts - 1)) 1 attempts i u want.
Definition fetch (i : URLInput) : fetching Fetched :=
  match Parse (ui_URL i) with
  | None => fail_fetch false ReasonBadInput (New Usage ("fetch: invalid URL " ++ q (RedactURL (ui_URL i))))
  | Some u =>
      let safeURL := RedactURL (ui_URL i) in
      _ ← fails_if (streq (u_Host u) "") false ReasonBadInput (New Usage ("fetch: invalid URL " ++ q safeURL));
      _ ← (if streq (u_Scheme u) "https" then mret tt
           else if streq (u_Scheme u) "http" then
             tell (Said true ("fetching " ++ safeURL ++ " over plaintext HTTP: no transport confidentiality or integrity"))
           else fail_fetch false ReasonBadInput (New Usage ("fetch: unsupported URL scheme " ++ q (u_Scheme u) ++ " in " ++ q safeURL
             ++ " (only https:// is fetched by default; http:// is honoured, with a warning)")));
      fetch_from i u
  end.

(** [redactErrorMessage] *)
Definition redactErrorMessage (e : goerror) : goerror :=
  let safe := RedactMessage (error_text e) in if streq safe (error_text e) then e else Wrapped safe e.
Definition Fetch (i : URLInput) (s : acts) : result fetch_error Fetched * acts :=
  let '(r, s) := fetch i s in
  (match r with Ok f => Ok f | Err (e, _) => Err (mkFetchError (redactErrorMessage (fe_err e)) (fe_reason e)) end, s).

(** ** A local file (local.go) *)

Definition local_digest (path want : gostring) : fetching unit :=
  if streq want "" then mret tt
  else
    let at_path := "fetch: " ++ path ++ ": " in
    _ ← fails_if (negb (Valid want)) false ReasonBadInput (New Usage (at_path ++ "malformed sha256 (want 64 lowercase hex characters)"));
    got ← read_file path (tagged false ReasonLocalStorage Environment (at_path ++ "hashing"));
    fails_if (negb (Equal (Bytes got) want)) false ReasonDigestMismatch
      (New Verification (at_path ++ "sha256 mismatch: expected " ++ want ++ ", got " ++ Bytes got)).
Definition fromLocalFile (path expectedSHA256 : gostring) : fetching Fetched :=
  let at_path := "fetch: " ++ path ++ ": " in
  _ ← fails_if (negb (op_Store opts)) false ReasonLocalStorage (New Usage (at_path ++ "no Store configured"));
  st ← gets (λ s, h_stat h s path);
  _ ← match st with
      | NoFile => fail_fetch false ReasonUnreadable (New Usage ("fetch: local .deb not found: " ++ path))
      | NoStat e => fail_fetch false ReasonUnreadable (wrap Usage e ("fetch: " ++ path))
      | ADirectory => fail_fetch false ReasonUnreadable (New Usage (at_path ++ "is a directory, not a .deb file"))
      | AFile => mret tt
      end;
  seen ← read_file path (tagged false ReasonUnreadable Usage ("fetch: opening " ++ path));
  closeErr ← gets (h_close h);
  _ ← no_error (SniffDeb is_print seen) (λ e, (because ReasonNotADeb (Wrapped (at_path ++ error_text e) e), false));
  _ ← no_error closeErr (tagged false ReasonLocalStorage Environment ("fetch: " ++ path));
  filename ← lift_result (match poolFilenameForLocal path with Ok f => Ok f | Err e => Err (because ReasonBadInput e, false) end);
  let want := to_lower (trim_space expectedSHA256) in
  _ ← local_digest path want;
  content ← ask (λ s, h_put h s path) (tagged false ReasonLocalStorage Environment (at_path ++ "storing"));
  _ ← tell (Ingested path content false false);
  let storeDigest := Bytes content in
  _ ← fails_if (mismatch want storeDigest) false ReasonDigestMismatch
        (New Verification (at_path ++ "sha256 mismatch: expected " ++ want ++ ", but the stored bytes hash to " ++ storeDigest
          ++ " (the file changed while it was being ingested)"));
  mret (mkFetched path filename storeDigest (Z.of_nat (length content)) (h_path h storeDigest) (verification want)).
End fetch.

(** [FetchAll]: each download has its own slot of the result and its own course,
    which covers whatever the others do meanwhile. *)
Definition FetchAll `{UnicodeTables, Hosts, MediaTypes} (is_print : Z → bool) (maxDownloadSize : Z) (course : nat → host) (opts : Options)
    (ins : list URLInput) : list (URLInput * result fetch_error Fetched) :=
  imap (λ n i, (i, (Fetch is_print maxDownloadSize (course n) opts i []).1)) ins.

(** [ScanDir], of the entries of a directory in their order: a name, and whether
    it is a regular file. *)
Definition ScanDir (dir : gostring) (entries : list (gostring * bool)) : list gostring :=
  map (λ e, filepath_join [dir; e.1]) (List.filter (λ e : gostring * bool, e.2 && has_suffix ".deb" e.1) entries).
