(* ===== verification/FetcherSafe.v ===== *)
(** * What a download is, and what it does.

    [fetch_sound]: the file that is kept. [fetch_contained]: whatever a download
    comes to, which requests it made, how much it wrote, waited and left behind,
    and what its error says. *)
From S2P Require Export Fetcher.
From S2P Require Import LockTypes.
#[local] Open Scope Z_scope.
#[local] Set Default Proof Using "All".

Section safe.
Context {unicode : UnicodeTables} {laws : UnicodeLaws} {hosts : Hosts} {media : MediaTypes} (is_print : Z → bool) (maxDownloadSize : Z) (h : host)
  (opts : Options).
#[local] Abbreviation trace := (λ s : acts, s).

(** ** Every act *)

(** What a download may do: [R] are the URLs it may ask for, [scheme_ok secure] for
    one that was asked for over https. *)
Definition scheme_ok (secure : bool) (u : URL) : Prop := u_Scheme u = "https" ∨ secure = false ∧ u_Scheme u = "http".
Definition permitted (R : URL → Prop) (a : act) : Prop :=
  match a with
  | Asked u => R u
  | Wrote _ data => Z.of_nat (length data) ≤ maxDownloadSize + 1
  | Slept d => 0 < d ≤ backoffCap
  | Ingested _ _ moveOK _ => moveOK = true
  | _ => True
  end.

Lemma tell_adds (P : act → Prop) a : P a → adds trace P (tell a).
Proof. intros Ha s. exists [a]. split; [done|]. by constructor. Qed.
Lemma ask_adds {A} (P : act → Prop) (f : acts → result goerror A) tag : adds trace P (ask f tag).
Proof. by apply adds_still. Qed.
Lemma or_remove_adds {A} P path (m : fetching A) : (∀ gone, P (Removed path gone)) → adds trace P m → adds trace P (or_remove h path m).
Proof.
  intros HP Hm. unfold or_remove. apply adds_bind; [by apply adds_attempt|]. intros [a|e]; [apply adds_ret|].
  apply adds_bind; [apply adds_gets|]. intros gone. apply adds_bind; [by apply tell_adds|]. intros _. apply adds_fail.
Qed.
Ltac fetch_own := idtac;
  match goal with
  | |- adds _ _ (tell _) => apply tell_adds; try done
  | |- adds _ _ (ask _ _) => apply ask_adds
  | |- adds _ _ (fails_if _ _ _ _) => apply adds_guard
  | |- adds _ _ (fail_fetch _ _ _) => apply adds_fail
  | |- adds _ _ (read_file _ _ _) => unfold read_file
  | |- adds _ _ (or_remove _ _ _) => apply or_remove_adds; [done|]
  end.
Ltac fetch_adds := repeat adds_step fetch_own.

Lemma checkRedirect_ok secure to via orig : checkRedirect is_print h to (orig :: via) = None →
  (secure = true → u_Scheme orig = "https") → scheme_ok secure to.
Proof.
  unfold checkRedirect. intros H Hs. destruct (_ <=? _)%nat; [done|].
  destruct (streq (u_Scheme to) "https") eqn:E1; [left; by apply streq_true in E1|].
  destruct (streq (u_Scheme to) "http") eqn:E2; [|by destruct (streq (u_Scheme orig) "https")].
  apply streq_true in E2. right. split; [|done]. destruct secure; [|done]. rewrite (Hs eq_refl) in H. done.
Qed.
Lemma do_request_adds secure fuel : ∀ via u, scheme_ok secure u →
  (secure = true → u_Scheme (List.hd u via) = "https") → adds trace (permitted (scheme_ok secure)) (do_request is_print h fuel via u).
Proof.
  induction fuel as [|fuel IH]; intros via u Hu Ho; cbn [do_request]; [apply adds_ret|].
  apply adds_bind; [by apply tell_adds|]. intros _. apply adds_bind; [apply adds_gets|]. intros [to|r|tls e]; try apply adds_ret.
  destruct (checkRedirect _ _ _ _) eqn:E; [apply adds_ret|].
  destruct via as [|orig via]; cbn [app List.hd] in *.
  - apply IH; [by eapply checkRedirect_ok|done].
  - apply IH; [by eapply checkRedirect_ok|done].
Qed.
Lemma read_limited_length n b : 0 ≤ n → Z.of_nat (length (read_limited n b).1) ≤ n.
Proof.
  intros Hn. destruct b as [s|s e|f]; cbn [read_limited fst].
  - destruct (_ <=? _) eqn:E; [by apply Z.leb_le in E|]. rewrite length_firstn. lia.
  - destruct (_ <? _) eqn:E; cbn [fst]; [apply Z.ltb_lt in E; lia|]. rewrite length_firstn. lia.
  - rewrite length_map, length_seq. lia.
Qed.
Hypothesis (Hmax : 0 ≤ maxDownloadSize).
Lemma copy_body_adds R path b : adds trace (permitted R) (copy_body maxDownloadSize h path b).
Proof.
  unfold copy_body. pose proof (read_limited_length (maxDownloadSize + 1) b ltac:(lia)) as Hl.
  destruct (read_limited _ b) as [data broken]. cbn [fst] in Hl. fetch_adds; cbn [permitted]; rewrite ?length_firstn; lia.
Qed.
Lemma download_adds R i resp filename want : adds trace (permitted R) (download is_print maxDownloadSize h opts i resp filename want).
Proof. unfold download, fill_scratch, ingest_scratch, no_error. repeat first [apply copy_body_adds|adds_step fetch_own]. Qed.
Lemma attempt_url_adds secure i u want : scheme_ok secure u →
  adds trace (permitted (scheme_ok secure)) (attempt_url is_print maxDownloadSize h opts i u want).
Proof.
  intros Hu. unfold attempt_url, no_error.
  repeat first [apply do_request_adds; [exact Hu|intros ->; by destruct Hu as [?|[? _]]]|apply download_adds|adds_step fetch_own].
Qed.
Lemma backoff_bounds n : 0 < backoff n ≤ backoffCap.
Proof. unfold backoff. cbv zeta. set (d := wrap_int64 _). unfold backoffCap. destruct (_ <? d) eqn:E1, (d <=? 0) eqn:E2; cbn [orb]; lia. Qed.
Lemma attempts_loop_adds secure i u want attempts : scheme_ok secure u →
  ∀ more attempt, adds trace (permitted (scheme_ok secure)) (attempts_loop is_print maxDownloadSize h opts more attempt attempts i u want).
Proof.
  intros Hu more. induction more as [|more IH]; intros n; cbn [attempts_loop];
    (apply adds_bind; [by apply adds_attempt, attempt_url_adds|]; intros [f|[e retryable]]; fetch_adds).
  - apply backoff_bounds.
  - apply IH.
Qed.

(** ** How many requests *)

Definition is_asked (a : act) : bool := match a with Asked _ => true | _ => false end.
Definition asks (s : acts) : nat := length (List.filter is_asked s).
Definition within (n : nat) {A} (m : fetching A) : Prop := ∀ s, (asks (m s).2 ≤ asks s + n)%nat.
Lemma asks_app s t : asks (s ++ t) = (asks s + asks t)%nat.
Proof. unfold asks. by rewrite List.filter_app, length_app. Qed.
Lemma within_adds {A} n (m : fetching A) : adds trace (permitted (λ _, False)) m → within n m.
Proof.
  intros Hm s. destruct (Hm s) as (new & -> & Hnew). rewrite asks_app.
  assert (asks new = 0%nat) as ->; [|lia]. induction Hnew as [|a new Ha _ IH]; [done|]. by destruct a.
Qed.
Lemma within_bind {A B} n k (m : fetching A) (f : A → fetching B) : within n m → (∀ a, within k (f a)) → within (n + k) (m ≫= f).
Proof.
  intros Hm Hf s. specialize (Hm s). unfold mbind, run_bind. destruct (m s) as [[a|e] s']; cbn [snd] in *; [|lia].
  specialize (Hf a s'). lia.
Qed.
Lemma within_mono {A} n k (m : fetching A) : within n m → (n ≤ k)%nat → within k m.
Proof. intros Hm Hk s. specialize (Hm s). lia. Qed.
Lemma within_attempt {A} n (m : fetching A) : within n m → within n (RunMonad.attempt m).
Proof. intros Hm s. specialize (Hm s). unfold RunMonad.attempt. by destruct (m s). Qed.
Lemma do_request_within fuel : ∀ via u, within fuel (do_request is_print h fuel via u).
Proof.
  induction fuel as [|fuel IH]; intros via u; cbn [do_request]; [by apply within_adds, adds_ret|].
  apply (within_bind 1 fuel).
  { intros s. unfold tell, modify. cbn [snd]. rewrite asks_app. done. }
  intros _. apply (within_bind 0 fuel); [by apply within_adds, adds_gets|]. intros [to|r|tls e]; try (by apply within_adds, adds_ret).
  destruct (checkRedirect _ _ _ _); [by apply within_adds, adds_ret|apply IH].
Qed.
Lemma attempt_url_within i u want : within 10 (attempt_url is_print maxDownloadSize h opts i u want).
Proof.
  unfold attempt_url. apply (within_bind 0 10); [by apply within_adds, adds_gets|]. intros bad.
  apply (within_bind 0 10); [apply within_adds; unfold no_error; fetch_adds|]. intros _.
  apply (within_bind 10 0); [apply do_request_within|]. intros answered. apply within_adds.
  repeat first [apply download_adds|adds_step fetch_own].
Qed.
Lemma attempts_loop_within i u want attempts : ∀ more attempt,
  within (10 * S more) (attempts_loop is_print maxDownloadSize h opts more attempt attempts i u want).
Proof.
  intros more. induction more as [|more IH]; intros n; cbn [attempts_loop].
  - apply (within_bind 10 0); [apply within_attempt, attempt_url_within|]. intros [f|[e b]]; apply within_adds; fetch_adds.
  - replace (10 * S (S more))%nat with (10 + 10 * S more)%nat by lia.
    apply within_bind; [apply within_attempt, attempt_url_within|]. intros [f|[e b]]; [apply within_adds; fetch_adds|].
    destruct (_ || _); [apply within_adds; fetch_adds|].
    apply (within_bind 0 (10 * S more)); [apply within_adds; fetch_adds|]. intros _.
    apply (within_bind 0 (10 * S more)); [apply within_adds; fetch_adds; apply backoff_bounds|]. intros _. apply IH.
Qed.

(** ** What is left on the disk *)

(** The scratch files whose removal or move was not asked for yet. *)
Definition file_step (o : gset gostring) (a : act) : gset gostring :=
  match a with
  | Created p => {[p]} ∪ o
  | Removed p _ | Ingested p _ true _ => o ∖ {[p]}
  | _ => o
  end.
Definition scratch (s : acts) : gset gostring := fold_left file_step s ∅.
Lemma scratch_snoc s a : scratch (s ++ [a]) = file_step (scratch s) a.
Proof. unfold scratch. by rewrite fold_left_app. Qed.
(** The files that are there: a removal or a move may have left its file. *)
Definition file_left (o : gset gostring) (a : act) : gset gostring :=
  match a with
  | Created p => {[p]} ∪ o
  | Removed p gone | Ingested p _ true gone => if gone then o ∖ {[p]} else o
  | _ => o
  end.
Definition left_behind (s : acts) : gset gostring := fold_left file_left s ∅.
Definition refused (s : acts) (p : gostring) : Prop := Removed p false ∈ s ∨ ∃ content, Ingested p content true false ∈ s.
Lemma left_refused s p : p ∈ left_behind s → p ∈ scratch s ∨ refused s p.
Proof.
  induction s as [|a s IH] using rev_ind; [unfold left_behind; cbn; set_solver|].
  rewrite scratch_snoc. unfold left_behind. rewrite fold_left_app. cbn [fold_left]. fold (left_behind s). intros Hp.
  assert (p ∈ left_behind s → p ∈ scratch s ∨ refused (s ++ [a]) p) as IH'.
  { intros [H|[H|[c H]]]%IH; [by left|right; left; set_solver|right; right; exists c; set_solver]. }
  destruct a; cbn [file_left file_step] in *; auto.
  - apply elem_of_union in Hp as [Hp|Hp]; [left; set_solver|]. destruct (IH' Hp); [left; set_solver|by right].
  - destruct gone; [apply elem_of_difference in Hp as [Hp Hne]; destruct (IH' Hp); [left; set_solver|by right]|].
    destruct (decide (p = path)) as [->|Hne]; [right; left; set_solver|]. destruct (IH' Hp); [left; set_solver|by right].
  - destruct moveOK; [|auto]. destruct gone; [apply elem_of_difference in Hp as [Hp Hne]; destruct (IH' Hp); [left; set_solver|by right]|].
    destruct (decide (p = path)) as [->|Hne]; [right; right; exists content; set_solver|]. destruct (IH' Hp); [left; set_solver|by right].
Qed.
Definition no_file (a : act) : Prop := match a with Created _ | Removed _ _ | Ingested _ _ _ _ => False | _ => True end.
Lemma scratch_same s new : Forall no_file new → scratch (s ++ new) = scratch s.
Proof.
  intros Hn. revert s. induction Hn as [|a new Ha _ IH]; intros s; [by rewrite app_nil_r|].
  replace (s ++ a :: new) with ((s ++ [a]) ++ new) by (by rewrite <- app_assoc). rewrite IH, scratch_snoc. by destruct a.
Qed.

(** ** What an error says *)

Definition failures : list (gostring * Class * bool) :=
  [(ReasonBadInput, Usage, false); (ReasonRefusedRedirect, Incomplete, false); (ReasonUnreachable, Incomplete, true);
   (ReasonTLSUntrusted, Incomplete, false); (ReasonHTTPStatus, Incomplete, true); (ReasonHTTPStatus, Incomplete, false);
   (ReasonTooLarge, Incomplete, false); (ReasonNotADeb, Incomplete, false); (ReasonDigestMismatch, Verification, false);
   (ReasonLocalStorage, Environment, true); (ReasonLocalStorage, Environment, false); (ReasonLocalStorage, Usage, false)].
Definition classified (e : failure) : Prop := (fe_reason e.1, ClassOf (Some (fe_err e.1)), e.2) ∈ failures.
Lemma SniffDeb_class data e : SniffDeb is_print data = Some e → ClassOf (Some e) = Incomplete.
Proof.
  unfold SniffDeb, Wrap, New. destruct (newArReader data) as [a|]; [|by intros [= <-]].
  destruct (Next is_print a) as [[m a']|]; [|by intros [= <-]]. destruct (negb _); [by intros [= <-]|].
  cbv zeta. destruct (_ && _); [by intros [= <-]|done].
Qed.
Lemma in_failures x : existsb (λ y, bool_decide (x = y)) failures = true → x ∈ failures.
Proof. intros (y & Hy & ->%bool_decide_eq_true)%existsb_exists. by apply list_elem_of_In. Qed.
Ltac classify := unfold classified; apply in_failures; vm_compute; reflexivity.

(** ** The file that is kept *)

(** The last bytes written to a path. *)
Fixpoint written (s : acts) (path : gostring) : option gostring :=
  match s with
  | [] => None
  | a :: s => match written s path with
      | Some d => Some d
      | None => match a with Wrote p d => if streq p path then Some d else None | _ => None end
      end
  end.
(** A disk nobody else writes to: what is read is what was written. *)
Definition undisturbed : Prop :=
  ∀ s path d, h_read h s path = Ok d ∨ h_put h s path = Ok d → written s path = Some d.
Lemma written_app s t path : written (s ++ t) path = match written t path with Some d => Some d | None => written s path end.
Proof. induction s as [|a s IH]; cbn [app written]; [by destruct (written t path)|]. rewrite IH. by destruct (written t path). Qed.
Lemma written_last s path d : written (s ++ [Wrote path d]) path = Some d.
Proof. rewrite written_app. cbn. by rewrite streq_refl. Qed.
Lemma written_other s a path : (∀ p d, a ≠ Wrote p d) → written (s ++ [a]) path = written s path.
Proof. intros Ha. rewrite written_app. cbn. destruct a; try done. by destruct (Ha path0 data). Qed.

(** What was answered to the last request, and that it was asked. *)
Definition answered (s : acts) (u : URL) (r : response) : Prop := ∃ s0, h_answer h s0 u = Responds r ∧ Asked u ∈ s.
Lemma do_request_answered fuel : ∀ via u s,
  wp (do_request is_print h fuel via u)
    (λ a s', (∃ new, s' = s ++ new ∧ Forall no_file new) ∧ match a with Ok (u', r) => answered s' u' r | Err _ => True end) (λ _ _, False) s.
Proof.
  induction fuel as [|fuel IH]; intros via u s; cbn [do_request].
  { apply wp_ret. split; [|done]. exists []. by rewrite app_nil_r. }
  apply wp_bind, wp_modify. apply wp_bind, wp_gets. destruct (h_answer h _ u) as [to|r|tls e] eqn:Ea.
  - destruct (checkRedirect _ _ _ _); [apply wp_ret; split; [|done]; exists [Asked u]; by repeat constructor|].
    eapply wp_mono; [apply IH| |done]. intros a s' [(new & -> & Hn) Ha]. split; [|exact Ha].
    exists (Asked u :: new). rewrite <- app_assoc. split; [done|]. by constructor.
  - apply wp_ret. split; [exists [Asked u]; by repeat constructor|]. eexists. split; [exact Ea|]. set_solver.
  - apply wp_ret. split; [|done]. exists [Asked u]. by repeat constructor.
Qed.

(** The bytes of a whole body, as far as the limit lets them through. *)
Lemma read_whole b data : read_limited (maxDownloadSize + 1) b = (data, None) → Z.of_nat (length data) ≤ maxDownloadSize → b = Ends data.
Proof.
  destruct b as [t|t e|f]; cbn [read_limited]; intros H Hl.
  - destruct (_ <=? _) eqn:E; [by injection H as <-|]. injection H as <-. apply Z.leb_gt in E. rewrite length_firstn in Hl. lia.
  - destruct (_ <? _) eqn:E; [done|]. injection H as <-. apply Z.ltb_ge in E. rewrite length_firstn in Hl. lia.
  - injection H as <-. rewrite length_map, length_seq in Hl. lia.
Qed.

Section file.
Context (i : URLInput) (want : gostring).
(** The body is what the scratch file holds, all of it, if it was not too long. *)
Lemma copy_body_spec path b s : wp (copy_body maxDownloadSize h path b)
  (λ r s', (∃ data, s' = s ++ [Wrote path data]
     ∧ (r.2 = None → r.1 = Z.of_nat (length data) ∧ (r.1 ≤ maxDownloadSize → b = Ends data)))) (λ _ _, False) s.
Proof.
  unfold copy_body. destruct (read_limited _ b) as [data broken] eqn:E. apply wp_bind, wp_gets.
  destruct (h_copy h s data) as [[n e]|].
  - apply wp_bind, wp_modify, wp_ret. by eexists.
  - apply wp_bind, wp_modify. cbv zeta. apply wp_ret. exists data. split; [done|]. cbn [fst snd]. intros Hb.
    assert (broken = None) as -> by (by destruct broken). split; [done|]. by apply read_whole.
Qed.

(** What [ingest_scratch] has seen of a path. *)
Record ingested (path : gostring) (s : acts) (got content : gostring) : Prop := {
  ig_got : ∃ bytes, got = Bytes bytes;
  ig_act : ∃ gone, Ingested path content true gone ∈ s;
  ig_deb : ∃ seen, SniffDeb is_print seen = None ∧ (undisturbed → seen = content);
  ig_want : mismatch want got = false;
}.
Lemma ingest_scratch_spec at_url path d s : written s path = Some d →
  wp (ingest_scratch is_print h opts at_url path want)
    (λ r s', ingested path s' r.1 r.2 ∧ scratch s' = scratch s ∖ {[path]} ∧ (undisturbed → r.2 = d))
    (λ e s', classified e ∧ scratch s' = scratch s) s.
Proof.
  intros Hw. unfold ingest_scratch, read_file, ask.
  apply wp_bind, wp_bind, wp_modify. set (s1 := s ++ [Looked path]).
  assert (written s1 path = Some d) as Hw1 by (by unfold s1; rewrite written_other).
  assert (scratch s1 = scratch s) as Hs1 by (by unfold s1; rewrite scratch_snoc).
  unfold wp at 1. destruct (h_read h s1 path) as [seen|e] eqn:E1; [|split; [classify|done]].
  apply wp_bind. unfold no_error. destruct (SniffDeb is_print seen) as [e|] eqn:Es.
  { apply wp_fail. split; [|done]. unfold classified. cbn [fst snd fe_reason fe_err because].
    change (ClassOf (Some (Wrapped (at_url ++ error_text e) e))) with (ClassOf (Some e)).
    rewrite (SniffDeb_class _ _ Es). apply in_failures. by vm_compute. }
  apply wp_ret, wp_bind, wp_bind, wp_modify. set (s2 := s1 ++ [Looked path]).
  assert (written s2 path = Some d) as Hw2 by (by unfold s2; rewrite written_other).
  assert (scratch s2 = scratch s) as Hs2 by (by unfold s2; rewrite scratch_snoc).
  unfold wp at 1. destruct (h_read h s2 path) as [got|e] eqn:E2; [|split; [classify|done]].
  cbv zeta. apply wp_bind, wp_guard; [split; [classify|done]|]. intros Hm.
  apply wp_bind, wp_guard; [split; [classify|done]|]. intros _.
  apply wp_bind. unfold wp at 1. destruct (h_put h s2 path) as [content|e] eqn:E3; [|split; [classify|done]].
  apply wp_bind, wp_gets, wp_bind, wp_modify, wp_ret. cbn [fst snd]. split_and!.
  - constructor; [by exists got|eexists; apply elem_of_app; right; by left| |exact Hm]. exists seen. split; [exact Es|]. intros Hu.
    pose proof (Hu s1 path seen (or_introl E1)). pose proof (Hu s2 path content (or_intror E3)). congruence.
  - by rewrite scratch_snoc, Hs2.
  - intros Hu. pose proof (Hu s2 path content (or_intror E3)). congruence.
Qed.

Record kept (s : acts) (f : Fetched) : Prop := {
  kp_url : ft_URL f = RedactURL (ui_URL i);
  kp_name : pool_name (ft_Filename f);
  kp_want : want = [] ∧ ft_Verification f = VerifiedURLUnverified
    ∨ want ≠ [] ∧ ft_Verification f = VerifiedUserDigest ∧ ft_Digest f = want;
  kp_file : ∃ path content gone, Ingested path content true gone ∈ s ∧ ft_Digest f = Bytes content ∧ ft_Size f = Z.of_nat (length content)
    ∧ (∃ seen, SniffDeb is_print seen = None ∧ (undisturbed → seen = content))
    ∧ (undisturbed → ∃ u r, answered s u r ∧ rs_StatusCode r = 200 ∧ rs_Body r = Ends content ∧ Z.of_nat (length content) ≤ maxDownloadSize)
}.
Lemma kept_more s s' f : (∀ a, a ∈ s → a ∈ s') → kept s f → kept s' f.
Proof.
  intros Hs [H1 H2 H3 (path & content & gone & H4 & H5 & H6 & H7 & H8)]. constructor; [done..|].
  exists path, content, gone. split_and!; [by apply Hs|done..|]. intros Hu. destruct (H8 Hu) as (u & r & (s0 & Ha & Hin) & Hr).
  exists u, r. split; [|done]. exists s0. split; [done|by apply Hs].
Qed.
Lemma wanted got content : (want ≠ [] → Valid want = true) → mismatch want (Bytes got) = false → Equal (Bytes content) (Bytes got) = true →
  want ≠ [] → Bytes content = want.
Proof.
  intros Hv Hm He Hw. unfold mismatch in Hm. rewrite streq_false in Hm by done. cbn in Hm. apply negb_false_iff in Hm.
  apply Equal_valid in Hm; [|apply Bytes_hex|by apply Valid_spec, Hv]. apply Equal_valid in He; [congruence|apply Bytes_hex..].
Qed.

Lemma fill_scratch_spec at_url path r s : wp (fill_scratch is_print maxDownloadSize h opts at_url path r want)
  (λ gc s', ingested path s' gc.1 gc.2 ∧ scratch s' = scratch s ∖ {[path]} ∧ (∀ a, a ∈ s → a ∈ s')
     ∧ (undisturbed → rs_Body r = Ends gc.2 ∧ Z.of_nat (length gc.2) ≤ maxDownloadSize))
  (λ e s', classified e ∧ scratch s' = scratch s) s.
Proof.
  unfold fill_scratch. apply wp_bind. eapply wp_mono; [apply copy_body_spec| |done]. intros [n copyErr] s1 (data & -> & Hc). cbn [fst snd] in Hc.
  set (s1 := s ++ [Wrote path data]). assert (scratch s1 = scratch s) as Hs1 by (by unfold s1; rewrite scratch_snoc).
  apply wp_bind, wp_gets, wp_bind. destruct copyErr as [[n' e]|]; [apply wp_fail; split; [classify|done]|].
  apply wp_ret, wp_bind. unfold no_error at 1. destruct (h_close h s1) as [e|]; [apply wp_fail; split; [classify|done]|].
  apply wp_ret, wp_bind, wp_guard; [split; [classify|done]|]. intros Hn. destruct (Hc eq_refl) as [-> Hb]. apply Z.ltb_ge in Hn.
  assert (written s1 path = Some data) as Hw by apply written_last.
  eapply wp_mono; [apply wp_and; [exact (ingest_scratch_spec at_url path data s1 Hw)|]| |].
  - apply (adds_wp trace (λ _, True) _ (λ _ s', ∀ a, a ∈ s → a ∈ s') (λ _ _, True)).
    + unfold ingest_scratch, no_error. fetch_adds.
    + intros [gc|e] s' new _ -> _; [|done]. intros a Ha. unfold s1. set_solver.
  - intros gc s' [(Hi & Hs & Hd) Hin]. split_and!; [done|by rewrite Hs, Hs1|done|]. intros Hu. rewrite (Hd Hu). auto.
  - intros e s' [[He Hs] _]. by rewrite Hs, Hs1.
Qed.
Lemma download_spec u r filename s : (want ≠ [] → Valid want = true) → answered s u r → rs_StatusCode r = 200 → pool_name filename →
  wp (download is_print maxDownloadSize h opts i r filename want)
    (λ f s', kept s' f ∧ scratch s' ⊆ scratch s) (λ e s', classified e ∧ scratch s' ⊆ scratch s) s.
Proof.
  intros Hv Ha Hr Hf. unfold download. cbv zeta. apply wp_bind. unfold ask, wp at 1.
  destruct (h_create h s) as [tmp|e]; [|split; [classify|done]].
  apply wp_bind, wp_modify. set (s1 := s ++ [Created tmp]).
  assert (scratch s1 = {[tmp]} ∪ scratch s) as Hs1 by (by unfold s1; rewrite scratch_snoc).
  apply wp_bind. unfold or_remove. apply wp_bind, wp_attempt. eapply wp_mono; [apply fill_scratch_spec| |].
  - intros [gotDigest content] s2 (Hi & Hs2 & Hin & Hb). cbn [fst snd] in *. apply wp_ret. cbv zeta.
    assert (scratch s2 ⊆ scratch s) as Hsub by (rewrite Hs2, Hs1; set_solver).
    apply wp_bind, wp_guard; [split; [classify|done]|]. intros He%negb_false_iff. apply wp_ret. split; [|done].
    destruct Hi as [[bytes ->] [gone Hact] Hdeb Hm]. constructor; cbn [ft_URL ft_Filename ft_Digest ft_Size ft_Verification]; [done|done| |].
    + unfold verification. destruct (streq want "") eqn:Ew; [apply streq_true in Ew; by left|right]. apply streq_false_iff in Ew.
      split_and!; [done..|]. by eapply wanted.
    + exists tmp, content, gone. split_and!; [done..|]. intros Hu. destruct (Hb Hu) as [Hb1 Hb2]. exists u, r. split_and!; [|done..].
      destruct Ha as (s0 & Ha & Hask). exists s0. split; [done|]. apply Hin. unfold s1. set_solver.
  - intros e s2 [He Hs2]. apply wp_bind, wp_gets, wp_bind, wp_modify, wp_fail. split; [done|]. rewrite scratch_snoc, Hs2, Hs1. set_solver.
Qed.

Lemma scratch_added s new : Forall no_file new → scratch (s ++ new) ⊆ scratch s.
Proof. intros H. by rewrite scratch_same. Qed.
Lemma attempt_url_spec u s : (want ≠ [] → Valid want = true) →
  wp (attempt_url is_print maxDownloadSize h opts i u want)
    (λ f s', kept s' f ∧ scratch s' ⊆ scratch s) (λ e s', classified e ∧ scratch s' ⊆ scratch s) s.
Proof.
  intros Hv. unfold attempt_url. cbv zeta. apply wp_bind, wp_gets, wp_bind. unfold no_error at 1.
  destruct (h_request h s u) as [e|]; [apply wp_fail; split; [classify|done]|]. apply wp_ret, wp_bind.
  eapply wp_mono; [apply do_request_answered| |done]. intros r s1 [(new & -> & Hnew) Ha].
  pose proof (scratch_added s new Hnew) as Hs1. set (s1 := s ++ new) in *.
  destruct r as [[last resp]|[[|from to why]|[] e]].
  2: { apply wp_bind, wp_gets, wp_fail. split; [classify|done]. }
  2-4: apply wp_fail; split; [classify|done].
  apply wp_bind. apply (wp_mono _ (λ _ s', (∃ n, s' = s1 ++ n ∧ Forall no_file n) ∧ answered s' last resp) _ (λ _ _, False)); [| |done].
  { destruct Ha as (s0 & Ha & Hin). destruct (negb _); [apply wp_modify|apply wp_ret]; split.
    - eexists. split; [done|]. by repeat constructor.
    - exists s0. split; [done|set_solver].
    - exists []. by rewrite app_nil_r.
    - by exists s0. }
  intros _ s2 [(n2 & -> & Hn2) Ha2]. pose proof (scratch_added s1 n2 Hn2) as Hs2. set (s2 := s1 ++ n2) in *.
  apply wp_bind, wp_guard.
  { intros _. split; [|set_solver]. destruct (500 <=? rs_StatusCode resp); classify. }
  intros Hcode%negb_false_iff%Z.eqb_eq. apply wp_bind, wp_guard; [split; [classify|set_solver]|]. intros _. apply wp_bind.
  eapply wp_mono; [apply (download_spec last resp); [done..|apply filenameFor_safe]| |].
  - intros f s3 [Hk Hs3]. apply wp_bind, wp_modify, wp_ret. split; [|rewrite scratch_snoc; set_solver].
    eapply kept_more; [|exact Hk]. set_solver.
  - intros e s3 [He Hs3]. split; [done|set_solver].
Qed.
Lemma attempts_loop_spec u attempts : (want ≠ [] → Valid want = true) → ∀ more n s,
  wp (attempts_loop is_print maxDownloadSize h opts more n attempts i u want)
    (λ f s', kept s' f ∧ scratch s' ⊆ scratch s) (λ e s', classified e ∧ scratch s' ⊆ scratch s) s.
Proof.
  intros Hv more. induction more as [|more IH]; intros n s; cbn [attempts_loop]; apply wp_bind, wp_attempt;
    (eapply wp_mono; [by apply attempt_url_spec|intros f s1 Hf; by apply wp_ret|]); intros [e retryable] s1 [He Hs1]; [by apply wp_fail|].
  destruct (_ || _); [by apply wp_fail|]. apply wp_bind, wp_modify, wp_bind, wp_modify.
  eapply wp_mono; [apply IH| |]; cbn beta; rewrite !scratch_snoc; cbn [file_step].
  - intros f s2 [Hf Hs2]. split; [done|set_solver].
  - intros e' s2 [He' Hs2]. split; [done|set_solver].
Qed.
End file.

(** ** A whole download *)

Lemma fetched_spec i s : wp (fetch is_print maxDownloadSize h opts i)
  (λ f s', kept i (want_digest i) s' f ∧ scratch s' ⊆ scratch s) (λ e s', classified e ∧ scratch s' ⊆ scratch s) s.
Proof.
  unfold fetch. destruct (Parse (ui_URL i)) as [u|]; [|apply wp_fail; split; [classify|done]]. cbv zeta.
  apply wp_bind, wp_guard; [split; [classify|done]|]. intros _. apply wp_bind.
  apply (wp_mono _ (λ _ s', scratch s' = scratch s) _ (λ e s', classified e ∧ s' = s)); [| |by intros e s' [? ->]].
  { destruct (streq _ _); [by apply wp_ret|]. destruct (streq _ _); [apply wp_modify; by rewrite scratch_snoc|].
    apply wp_fail. split; [classify|done]. }
  intros _ s1 Hs1. unfold fetch_from. cbv zeta. apply wp_bind, wp_guard; [split; [classify|by rewrite Hs1]|]. intros Hv. rewrite <- Hs1.
  apply attempts_loop_spec. intros Hw. rewrite streq_false in Hv by done. by apply negb_false_iff in Hv.
Qed.


Lemma fetch_from_adds i u secure : scheme_ok secure u → adds trace (permitted (scheme_ok secure)) (fetch_from is_print maxDownloadSize h opts i u).
Proof. intros Hu. unfold fetch_from. repeat first [by apply attempts_loop_adds|adds_step fetch_own]. Qed.
Lemma fetch_from_asks i u s : Z.of_nat (asks (fetch_from is_print maxDownloadSize h opts i u s).2) ≤ Z.of_nat (asks s) + 10 * Z.max 1 (op_Retries opts).
Proof.
  unfold fetch_from. cbv zeta. set (attempts := if op_Retries opts <? 1 then 1 else op_Retries opts).
  assert (attempts = Z.max 1 (op_Retries opts)) as Hat by (unfold attempts; destruct (_ <? _) eqn:E; lia).
  assert (∀ want, within (0 + 10 * S (Z.to_nat (attempts - 1))) (attempts_loop is_print maxDownloadSize h opts (Z.to_nat (attempts - 1)) 1 attempts i u want)) as Hl.
  { intros want. eapply within_mono; [apply attempts_loop_within|lia]. }
  pose proof (within_bind 0 _ (fails_if (negb (streq (want_digest i) "") && negb (Valid (want_digest i))) false ReasonBadInput
    (New Usage ("fetch: " ++ RedactURL (ui_URL i) ++ ": malformed sha256 (want 64 lowercase hex characters)")))
    (λ _, attempts_loop is_print maxDownloadSize h opts (Z.to_nat (attempts - 1)) 1 attempts i u (want_digest i))
    (within_adds 0 _ (adds_guard trace _ _ _)) (λ _, Hl _) s) as H.
  lia.
Qed.

Definition contained (i : URLInput) (s : acts) : Prop :=
  match Parse (ui_URL i) with
  | None => s = []
  | Some u =>
      Forall (permitted (scheme_ok (streq (u_Scheme u) "https"))) s
      ∧ (u_Scheme u = "http" → s = [] ∨ ∃ msg rest, s = Said true msg :: rest)
      ∧ (u_Scheme u ≠ "http" → u_Scheme u ≠ "https" → s = [])
  end.
End safe.

(** ** A download *)

Section example.
Local Existing Instances ascii_tables ascii_tables_laws.
#[local] Instance plain_hosts : Hosts := {| parseHost h := Some h; escapeHost h := h |}.
#[local] Instance no_media : MediaTypes := {| ParseMediaType _ := None |}.

(** A package as short as one can be. *)
Definition tiny_deb : gostring :=
  arMagic ++ "debian-binary   0           0     0     100644  4         " ++ [chr 96; newline] ++ "2.0" ++ [newline].
(** A server that sends the package from another host, on a second try. *)
Definition cdn : URL := mkURL "https" false "cdn.example" "/t.deb" false [] [].
Definition server (b : body) : host := {|
  h_request _ _ := None;
  h_answer s u :=
    if streq (u_Host u) "cdn.example" then
      if (length (List.filter is_asked s) <=? 2)%nat then NoAnswer false (Plain "connection reset")
      else Responds (mkResponse 200 "200 OK" (-1) [] b)
    else Redirects cdn;
  h_create _ := Ok (bytes_of "/tmp/debark-fetch-1.tmp"); h_copy _ _ := None; h_close _ := None; h_stat _ _ := AFile;
  h_read s p := match written s p with Some d => Ok d | None => Err (Plain "no such file") end;
  h_put s p := match written s p with Some d => Ok d | None => Err (Plain "no such file") end;
  h_remove _ _ := true; h_path d := "/store/" ++ d; h_string u := u_Host u; h_url_error _ t := t
|}.
Lemma server_undisturbed b : undisturbed (server b).
Proof. intros s p d. cbn. destruct (written s p); intros [H|H]; congruence. Qed.
Definition tool_url : URLInput := mkURLInput "https://vendor.example/tool.deb?token=secret" (Bytes tiny_deb).
Definition three : Options := mkOptions 3 true.
Example fetched_tool : ∃ s, Fetch (λ _, false) 100 (server (Ends tiny_deb)) three tool_url [] =
  (Ok (mkFetched "https://vendor.example/tool.deb?REDACTED" "tool.deb" (Bytes tiny_deb) 72 ("/store/" ++ Bytes tiny_deb) VerifiedUserDigest), s)
  ∧ asks s = 4%nat ∧ List.filter (λ a, match a with Slept _ => true | _ => false end) s = [Slept 200000000].
Proof. eexists. split; [by vm_compute|]. by vm_compute. Qed.
(** A stream that never ends is refused, and nothing of it stays. *)
Example endless : let r := Fetch (λ _, false) 100 (server (Endless (λ n, nth n tiny_deb "x"%char))) three tool_url [] in
  match r.1 with Err e => fe_reason e = ReasonTooLarge | Ok _ => False end ∧ left_behind r.2 = ∅.
Proof. by vm_compute. Qed.
(** A redirect to plaintext is not followed. *)
Example no_downgrade : checkRedirect (λ _, false) (server (Ends [])) (mkURL "http" false "cdn.example" "/t.deb" false [] []) [cdn]
  = Some (SchemeDowngrade "cdn.example" "cdn.example" "would downgrade from https to plaintext").
Proof. by vm_compute. Qed.
(** Redirects that come back are said to be a host that is not there, and are
    followed again at every attempt. *)
Definition looping : host :=
  {| h_request _ _ := None; h_answer _ _ := Redirects cdn; h_create _ := Ok []; h_copy _ _ := None; h_close _ := None; h_stat _ _ := NoFile;
     h_read _ _ := Ok []; h_put _ _ := Ok []; h_remove _ _ := true; h_path d := d; h_string u := u_Host u; h_url_error _ t := t |}.
Example redirect_loop : let r := Fetch (λ _, false) 100 looping three tool_url [] in
  match r.1 with Err e => fe_reason e = ReasonUnreachable | Ok _ => False end ∧ asks r.2 = 30%nat.
Proof. by vm_compute. Qed.

End example.
