(* ===== verification/Assemble.v ===== *)
(** * core/bundle: assembling the pool of a bundle.

    assemble.go, prune.go and unreferenced.go: the plan's files are placed in the
    pool, superseded ones are pruned, and what is left is compared with what the
    index will say. The tree is the map of the files below the repository's
    directory, by their path from it with slashes; a walk of the pool is its keys
    below ["pool/"], in order; how the walk goes only decides which of several
    unreadable packages is named. The store is what a client is promised of one
    ([ContentStore]), and nothing is assumed of it: the code checks what it gave. *)
From S2P Require Export Repository Redact.
From S2P Require Export Resolve.
#[local] Open Scope Z_scope.

(** core/store, as the assembler calls it: an object's bytes, a staged file taken
    in, an object placed, and the entries of the index, each a digest and whether
    a user supplied it. An error is its class. *)
Class ContentStore (store : Type) := {
  Has : store → gostring → bool;
  PutFile : store → gostring → result Class (store * gostring);
  OpenObject : store → gostring → result Class gostring;
  Materialise : store → gostring → result Class gostring;
  Index : store → result Class (list (gostring * bool))
}.

Inductive assemble_error :=
| NoName (name : gostring)
| UnsafeName (name filename : gostring)
| OutsidePool (path : gostring)
| Contested (path : gostring)
| NoDigestNorPath (name : gostring)
| NotInStore (name digest : gostring)
| BadObject (name : gostring)
| IngestFailed (name : gostring) (c : Class)
| StagedMismatch (name got want : gostring)
| PlaceFailed (path : gostring) (c : Class)
| PoolMismatch (path digest : gostring)
| UnreadablePackage (path : gostring)
| RemoveFailed (path : gostring).
Definition assemble_class (e : assemble_error) : Class :=
  match e with
  | NoName _ | UnsafeName _ _ | OutsidePool _ | Contested _ | NoDigestNorPath _ => Usage
  | NotInStore _ _ | RemoveFailed _ | UnreadablePackage _ => Environment
  | BadObject _ | StagedMismatch _ _ _ | PoolMismatch _ _ => Verification
  | IngestFailed _ c | PlaceFailed _ c => c
  end.

Record PoolEntry := mkPoolEntry {
  pe_Name : gostring; pe_Arch : gostring; pe_Version : gostring; pe_Path : gostring; pe_UserSupplied : bool; pe_LockReferenced : bool
}.
Record outcome := mkOutcome { mo_poolFiles : list PoolFile; mo_stats : Stats; mo_added : list gostring; mo_unchanged : list gostring }.
Definition WarnUnreferenced : gostring := "pool.unreferenced".
Definition UnreferencedFile : gostring := "last-run-unreferenced.txt".
Definition maxUnreferencedNamed : nat := 5.

Definition isInside (root path : gostring) : bool :=
  match Rel (path_clean root) (path_clean path) with
  | Some rel => negb (streq rel "..") && negb (has_prefix "../" rel)
  | None => false
  end.

Section assemble.
Context {unicode : UnicodeTables} {deb : DebReader} {store : Type} {ops : ContentStore store}.
Context {version : Type} (parse : gostring → option version) (vcompare : version → version → Z).
Abbreviation pool := (gmap gostring gostring) (only parsing).

(** ** Placing the plan's files *)

Definition fileDigestMatches (t : pool) (path want : gostring) : bool :=
  if streq want "" then false else match t !! path with Some data => Equal (Bytes data) want | None => false end.
Definition verifyStoreObject (st : store) (want : gostring) : bool :=
  match OpenObject st want with Ok data => Equal (Bytes data) want | Err _ => false end.
Definition ensureInStore (st : store) (sel : Selection) : result assemble_error (store * gostring) :=
  if streq (StagedPath sel) "" then
    if streq (Resolve.SHA256 sel) "" then Err (NoDigestNorPath (Name sel))
    else if negb (Has st (Resolve.SHA256 sel)) then Err (NotInStore (Name sel) (Resolve.SHA256 sel))
    else if negb (verifyStoreObject st (Resolve.SHA256 sel)) then Err (BadObject (Name sel))
    else Ok (st, Resolve.SHA256 sel)
  else match PutFile st (StagedPath sel) with
  | Err c => Err (IngestFailed (Name sel) c)
  | Ok (st, got) =>
      if negb (streq (Resolve.SHA256 sel) "") && negb (Equal got (Resolve.SHA256 sel))
      then Err (StagedMismatch (Name sel) got (Resolve.SHA256 sel)) else Ok (st, got)
  end.

Record materialised := mkMat { ma_out : outcome; ma_claimed : gset gostring; ma_store : store; ma_tree : pool }.
Definition count (added unchanged bytes downloaded : Z) (s : Stats) : Stats :=
  mkStats (s_Added s + added) (s_Removed s) (s_Unchanged s + unchanged) (s_Bytes s + bytes) (s_DownloadedBytes s + downloaded).
Definition place (repoDir : gostring) (sel : Selection) (m : materialised) : result assemble_error materialised :=
  let rel := PoolPath (Name sel) (Filename sel) in
  if streq (Name sel) "" || streq (Filename sel) "" then Err (NoName (Name sel))
  else if streq rel "" then Err (UnsafeName (Name sel) (Filename sel))
  else if negb (isInside (filepath_join [repoDir; bytes_of "pool"]) (filepath_join [repoDir; rel])) then Err (OutsidePool rel)
  else if bool_decide (rel ∈ ma_claimed m) then Err (Contested rel)
  else
    let out := ma_out m in
    let claimed := {[rel]} ∪ ma_claimed m in
    let files := mo_poolFiles out ++ [mkPoolFile rel zero_hashes] in
    if fileDigestMatches (ma_tree m) rel (Resolve.SHA256 sel) then
      Ok (mkMat (mkOutcome files (count 0 1 (Resolve.Size sel) 0 (mo_stats out)) (mo_added out) (mo_unchanged out ++ [rel])) claimed (ma_store m) (ma_tree m))
    else
      let alreadyInStore := negb (streq (Resolve.SHA256 sel) "") && Has (ma_store m) (Resolve.SHA256 sel) in
      '(st, useDigest) ← ensureInStore (ma_store m) sel;
      match Materialise st useDigest with
      | Err c => Err (PlaceFailed rel c)
      | Ok data =>
          let t := <[rel := data]> (ma_tree m) in
          if negb (fileDigestMatches t rel useDigest) then Err (PoolMismatch rel useDigest)
          else Ok (mkMat (mkOutcome files (count 1 0 (Resolve.Size sel) (if alreadyInStore then 0 else Resolve.Size sel) (mo_stats out))
                            (mo_added out ++ [rel]) (mo_unchanged out)) claimed st t)
      end.
Fixpoint place_all (repoDir : gostring) (sels : list Selection) (m : materialised) : result assemble_error materialised :=
  match sels with
  | [] => Ok m
  | sel :: rest => m ← place repoDir sel m; place_all repoDir rest m
  end.
Definition sorted_outcome (o : outcome) : outcome :=
  mkOutcome (mo_poolFiles o) (mo_stats o) (sort_strings (mo_added o)) (sort_strings (mo_unchanged o)).
Definition materialiseSelections (repoDir : gostring) (sels : list Selection) (st : store) (t : pool)
    : result assemble_error (outcome * store * pool) :=
  m ← place_all repoDir sels (mkMat (mkOutcome [] (mkStats 0 0 0 0 0) [] []) ∅ st t);
  Ok (sorted_outcome (ma_out m), ma_store m, ma_tree m).

(** ** Pruning *)

Definition pruneKey (f : PoolEntry) : gostring * gostring := (pe_Name f, pe_Arch f).
Definition best_step (best : gmap (gostring * gostring) version) (f : PoolEntry) : gmap (gostring * gostring) version :=
  match parse (pe_Version f) with
  | None => best
  | Some v =>
      match best !! pruneKey f with
      | Some cur => if 0 <? vcompare v cur then <[pruneKey f := v]> best else best
      | None => <[pruneKey f := v]> best
      end
  end.
Definition superseded (best : gmap (gostring * gostring) version) (f : PoolEntry) : bool :=
  match parse (pe_Version f) with
  | None => false
  | Some v => negb (pe_UserSupplied f) && negb (pe_LockReferenced f)
      && match best !! pruneKey f with Some b => vcompare v b <? 0 | None => false end
  end.
Definition pruneDecide (files : list PoolEntry) : list PoolEntry :=
  List.filter (superseded (fold_left best_step files ∅)) files.

Definition pool_paths (t : pool) : list gostring := List.filter (has_prefix "pool/") (sort_strings (map fst (map_to_list t))).
Definition by_path (sels : list Selection) : gmap gostring Selection :=
  fold_left (λ (m : gmap gostring Selection) sel, <[PoolPath (Name sel) (Filename sel) := sel]> m) sels ∅.
Definition pool_entry (sels : gmap gostring Selection) (user : gset gostring) (t : pool) (p : gostring) : result assemble_error PoolEntry :=
  match sels !! p with
  | Some sel => Ok (mkPoolEntry (Name sel) (Arch sel) (Version sel) p (UserSupplied sel) true)
  | None =>
      let data := default [] (t !! p) in
      match LoadFile data with
      | None => Err (UnreadablePackage p)
      | Some para =>
          let value key := default [] (Values para !! bytes_of key) in
          Ok (mkPoolEntry (value "Package") (value "Architecture") (value "Version") p (bool_decide (Bytes data ∈ user)) false)
      end
  end.
Fixpoint pool_entries (sels : gmap gostring Selection) (user : gset gostring) (t : pool) (ps : list gostring) : result assemble_error (list PoolEntry) :=
  match ps with
  | [] => Ok []
  | p :: rest =>
      if has_suffix ".deb" p then e ← pool_entry sels user t p; es ← pool_entries sels user t rest; Ok (e :: es)
      else pool_entries sels user t rest
  end.
(** What the index says a user supplied; nothing, when it cannot be read. *)
Definition userSuppliedByDigest (st : store) : gset gostring :=
  match Index st with
  | Ok entries => list_to_set (map fst (List.filter (λ e : gostring * bool, e.2) entries))
  | Err _ => ∅
  end.
Definition collectPoolEntries (st : store) (t : pool) (sels : list Selection) : result assemble_error (list PoolEntry) :=
  pool_entries (by_path sels) (userSuppliedByDigest st) t (pool_paths t).
Fixpoint remove_all (can_remove : gostring → bool) (ps : list gostring) (t : pool) : result assemble_error pool :=
  match ps with
  | [] => Ok t
  | p :: rest => if can_remove p then remove_all can_remove rest (delete p t) else Err (RemoveFailed p)
  end.
Definition pruneExistingPool (can_remove : gostring → bool) (st : store) (t : pool) (sels : list Selection)
    : result assemble_error (list gostring * pool) :=
  entries ← collectPoolEntries st t sels;
  let removed := sort_strings (map pe_Path (pruneDecide entries)) in
  t ← remove_all can_remove removed t;
  Ok (removed, t).

(** ** What the index does not name *)

Definition unreferencedPoolFiles (t : pool) (indexed : list PoolFile) : list gostring :=
  List.filter (λ p, negb (bool_decide (p ∈ map pf_Path indexed))) (pool_paths t).

Definition by_dir (sels : list Selection) (d : gostring) : list Selection :=
  List.filter (λ sel, let p := PoolPath (Name sel) (Filename sel) in negb (streq p "") && streq (filepath_dir p) d) sels.
Definition unreferenced_part (sels : list Selection) (rel : gostring) : gostring :=
  match by_dir sels (filepath_dir rel) with
  | [] => rel ++ " (Packages indexes no version of this package)"
  | sel :: _ as siblings => rel ++ " (Packages indexes " ++ Name sel ++ " " ++ join ", " (sort_strings (map Version siblings)) ++ ")"
  end.
Definition unreferenced_parts (sels : list Selection) (unreferenced : list gostring) : list gostring :=
  map (unreferenced_part sels) (take maxUnreferencedNamed unreferenced)
  ++ if (Z.of_nat maxUnreferencedNamed <? Z.of_nat (length unreferenced)) then
       ["and " ++ itoa (Z.of_nat (length unreferenced - maxUnreferencedNamed)) ++ " more"] else [].
Definition unreferenced_names (sels : list Selection) (unreferenced : list gostring) : list gostring :=
  sort_strings (elements (list_to_set (concat (map (λ rel, map Name (by_dir sels (filepath_dir rel))) unreferenced)) : gset gostring)).
Definition unreferencedWarning (unreferenced : list gostring) (sels : list Selection) : option Warning :=
  match unreferenced with
  | [] => None
  | _ => Some (mkWarning WarnUnreferenced
      (itoa (Z.of_nat (length unreferenced)) ++ " file(s) in repo/pool are not indexed by repo/Packages: they are on the media and covered by the manifest and its signature, but apt on the target cannot see or install them. "
        ++ join "; " (unreferenced_parts sels unreferenced) ++ ". The complete list is in " ++ UnreferencedFile ++ ".")
      (unreferenced_names sels unreferenced))
  end.

(** The part of [assemble] up to the index: the pool, and what the reports say. *)
Definition assemble_pool (can_remove : gostring → bool) (prune : bool) (repoDir : gostring) (plan : list Selection) (st : store) (t : pool)
    : result assemble_error (outcome * list gostring * list gostring * pool) :=
  let sels := SortSelections plan in
  '(out, st, t) ← materialiseSelections repoDir sels st t;
  '(removed, t) ← (if prune then pruneExistingPool can_remove st t sels else Ok ([], t));
  Ok (out, removed, unreferencedPoolFiles t (mo_poolFiles out), t).

(** ** The lock *)

Definition lock_package (sel : Selection) : Package :=
  mkPackage (Name sel) (Arch sel) (Version sel) (SourcePackage sel) (PoolPath (Name sel) (Filename sel)) (Resolve.Size sel)
    (Resolve.SHA256 sel) (Origin_ sel) (Reason sel) (PublisherVerification sel) (Flags sel) (Essential sel).
Definition package_leb (a b : Package) : bool :=
  if negb (streq (p_Name a) (p_Name b)) then str_leb (p_Name a) (p_Name b)
  else if negb (streq (p_Arch a) (p_Arch b)) then str_leb (p_Arch a) (p_Arch b)
  else str_leb (p_Version a) (p_Version b).
Definition buildLock (tmpl : Lock) (sels : list Selection) (planInstall : list gostring) (stats : Stats) (extra : option Warning) : Lock :=
  mkLock (l_SchemaVersion tmpl) (l_CreatedAt tmpl) (l_SnapshotDigest tmpl) (l_RequestDigest tmpl) (l_Target tmpl) (l_Resolver tmpl)
    (sort_by package_leb (map lock_package sels)) (sort_strings planInstall) (l_ClosedWorld tmpl)
    (l_Warnings tmpl ++ match extra with Some w => [w] | None => [] end) (l_Unresolved tmpl) stats.
Context {hosts : Hosts}.
Definition redact_origin (p : Package) : Package :=
  mkPackage (p_Name p) (p_Arch p) (p_Version p) (p_SourcePackage p) (p_Filename p) (p_Size p) (p_SHA256 p)
    (let o := p_Origin p in mkOrigin (RedactURL (o_URI o)) (o_LocalPath o) (o_Suite o) (o_Component o) (o_ReleaseDigest o) (o_KeyFingerprint o))
    (p_Reason p) (p_PublisherVerification p) (p_Flags p) (p_Essential p).
Definition redactLockOrigins (l : Lock) : Lock :=
  mkLock (l_SchemaVersion l) (l_CreatedAt l) (l_SnapshotDigest l) (l_RequestDigest l) (l_Target l) (l_Resolver l)
    (map redact_origin (l_Packages l)) (l_Install l) (l_ClosedWorld l) (l_Warnings l) (l_Unresolved l) (l_Stats l).
Definition writeLines (lines : list gostring) : gostring := concat (map (λ l, l ++ [newline]) (sort_strings lines)).
End assemble.
