(* ===== verification/AssembleSafe.v ===== *)
(** * core/bundle: what an assembled pool holds. *)
From S2P Require Export Assemble RepositorySafe.
From S2P Require Import Resolve.
#[local] Open Scope Z_scope.
#[local] Set Default Proof Using "All".

Section assembled.
Context {unicode : UnicodeTables} {deb : DebReader} {store : Type} {ops : ContentStore store}.
Context {version : Type} (parse : gostring → option version) (vcompare : version → version → Z).
Abbreviation pool := (gmap gostring gostring) (only parsing).

Definition sel_path (s : Selection) : gostring := PoolPath (Name s) (Filename s).
(** The file of a selection is in the pool, with the digest the plan gives. *)
Definition in_pool (t : pool) (s : Selection) : Prop :=
  ∃ data, t !! sel_path s = Some data ∧ (Resolve.SHA256 s ≠ [] → Equal (Bytes data) (Resolve.SHA256 s) = true).

Lemma fileDigestMatches_spec (t : pool) p want : fileDigestMatches t p want = true → (want ≠ []) ∧ ∃ data, t !! p = Some data ∧ Equal (Bytes data) want = true.
Proof.
  unfold fileDigestMatches. destruct (streq want "") eqn:E; [done|]. apply streq_false_iff in E.
  destruct (t !! p) as [data|]; [|done]. intros H. split; [done|]. by exists data.
Qed.
Lemma ensureInStore_digest st sel st' got : ensureInStore st sel = Ok (st', got) →
  Resolve.SHA256 sel ≠ [] → Equal got (Resolve.SHA256 sel) = true.
Proof.
  unfold ensureInStore. destruct (streq (StagedPath sel) "").
  - destruct (streq (Resolve.SHA256 sel) ""); [done|]. destruct (Has st _); [cbn [negb]|done].
    destruct (verifyStoreObject st _); [cbn [negb]|done]. intros [= _ <-] _. apply equal_fold_refl.
  - destruct (PutFile st (StagedPath sel)) as [[st1 g]|]; [|done]. intros H Hne. apply streq_false in Hne. revert H.
    change (streq (Resolve.SHA256 sel) []) with (streq (Resolve.SHA256 sel) "") in Hne. rewrite Hne. cbn [negb andb].
    destruct (Equal g (Resolve.SHA256 sel)) eqn:E; [cbn [negb]|done]. by intros [= _ <-].
Qed.

Lemma place_spec repoDir sel m m' : place repoDir sel m = Ok m' →
  (sel_path sel ≠ []) ∧ (sel_path sel ∉ ma_claimed m) ∧ ma_claimed m' = {[sel_path sel]} ∪ ma_claimed m
  ∧ mo_poolFiles (ma_out m') = mo_poolFiles (ma_out m) ++ [mkPoolFile (sel_path sel) zero_hashes]
  ∧ in_pool (ma_tree m') sel ∧ (∀ p, p ≠ sel_path sel → ma_tree m' !! p = ma_tree m !! p).
Proof.
  unfold place. fold (sel_path sel). destruct (_ || _); [done|].
  destruct (streq (sel_path sel) "") eqn:Ep; [done|]. apply streq_false_iff in Ep.
  destruct (isInside _ _); [cbn [negb]|done]. destruct (bool_decide _) eqn:Ec; [done|]. apply bool_decide_eq_false in Ec.
  destruct (fileDigestMatches (ma_tree m) _ _) eqn:Ef.
  { intros [= <-]. cbn. split_and!; try done. destruct (fileDigestMatches_spec _ _ _ Ef) as (_ & data & ? & ?). by exists data. }
  destruct (ensureInStore (ma_store m) sel) as [[st got]|] eqn:Ee; [cbn [mbind result_bind]|done].
  destruct (Materialise st got) as [data|]; [|done].
  destruct (fileDigestMatches (<[sel_path sel:=data]> (ma_tree m)) (sel_path sel) got) eqn:Em; [cbn [negb]|done].
  intros [= <-]. cbn. split_and!; try done.
  - exists data. rewrite lookup_insert_eq. split; [done|]. intros Hne.
    destruct (fileDigestMatches_spec _ _ _ Em) as (_ & data' & Hd & Heq). rewrite lookup_insert_eq in Hd. injection Hd as <-.
    eapply equal_fold_trans; [exact Heq|]. by eapply ensureInStore_digest.
  - intros p Hp. by rewrite lookup_insert_ne.
Qed.

Lemma place_all_spec repoDir sels m m' : place_all repoDir sels m = Ok m' →
  mo_poolFiles (ma_out m') = mo_poolFiles (ma_out m) ++ map (λ s, mkPoolFile (sel_path s) zero_hashes) sels
  ∧ NoDup (map sel_path sels) ∧ Forall (λ s, (sel_path s ≠ []) ∧ (sel_path s ∉ ma_claimed m) ∧ in_pool (ma_tree m') s) sels
  ∧ (∀ p, p ∉ map sel_path sels → ma_tree m' !! p = ma_tree m !! p).
Proof.
  revert m. induction sels as [|sel sels IH]; intros m; cbn [place_all map].
  { intros [= <-]. rewrite app_nil_r. split_and!; try done; constructor. }
  rewrite bind_Ok. intros (m1 & H1 & H2). destruct (place_spec _ _ _ _ H1) as (P1 & P2 & P3 & P4 & P5 & P6).
  destruct (IH _ H2) as (Q1 & Q2 & Q3 & Q4). rewrite Forall_forall in Q3.
  assert (sel_path sel ∉ map sel_path sels) as Hn.
  { intros (s & Heq & Hin)%list_elem_of_fmap. destruct (Q3 s Hin) as (_ & Hc & _). rewrite P3 in Hc. set_solver. }
  split_and!.
  - by rewrite Q1, P4, <- app_assoc.
  - by constructor.
  - apply Forall_forall. intros s [->|Hin]%elem_of_cons.
    + split_and!; [done|done|]. destruct P5 as (data & Hd & He). exists data. by rewrite Q4.
    + destruct (Q3 s Hin) as (? & Hc & ?). split_and!; [done| |done]. rewrite P3 in Hc. set_solver.
  - intros p Hp. rewrite Q4 by set_solver. apply P6. set_solver.
Qed.

(** ** Pruning *)

Definition entry_of (user : gset gostring) (t : pool) (sels : list Selection) (p : gostring) (e : PoolEntry) : Prop :=
  pool_entry (by_path sels) user t p = Ok e.
Lemma pool_entry_path sels user t p e : pool_entry sels user t p = Ok e → pe_Path e = p.
Proof.
  unfold pool_entry. destruct (sels !! p); [by intros [= <-]|]. destruct (LoadFile _); [by intros [= <-]|done].
Qed.
Lemma pool_entries_spec sels user t ps es : pool_entries sels user t ps = Ok es → NoDup ps →
  NoDup (map pe_Path es) ∧ ∀ e, e ∈ es → pe_Path e ∈ ps ∧ pool_entry sels user t (pe_Path e) = Ok e.
Proof.
  revert es. induction ps as [|p ps IH]; intros es; cbn [pool_entries].
  { intros [= <-] _. split; [constructor|by intros e ?%not_elem_of_nil]. }
  intros H [Hp Hps]%NoDup_cons. destruct (has_suffix ".deb" p).
  - apply bind_Ok in H as (e & He & H). apply bind_Ok in H as (es' & Hes & [= <-]). destruct (IH _ Hes Hps) as [H1 H2].
    pose proof (pool_entry_path _ _ _ _ _ He) as Hpath. split.
    + cbn [map]. rewrite Hpath. constructor; [|done]. intros (e' & Heq & Hin)%list_elem_of_fmap. destruct (H2 e' Hin) as [Hin' _].
      by rewrite <- Heq in Hin'.
    + intros e' [->|Hin]%elem_of_cons; [rewrite Hpath; by split; [left|]|]. destruct (H2 e' Hin). split; [by right|done].
  - destruct (IH _ H Hps) as [H1 H2]. split; [done|]. intros e Hin. destruct (H2 e Hin). split; [by right|done].
Qed.
Lemma by_path_in sels p s : by_path sels !! p = Some s → s ∈ sels ∧ sel_path s = p.
Proof.
  unfold by_path. assert (∀ m : gmap gostring Selection,
    fold_left (λ (m : gmap gostring Selection) sel, <[PoolPath (Name sel) (Filename sel) := sel]> m) sels m !! p = Some s →
    m !! p = Some s ∨ s ∈ sels ∧ sel_path s = p) as H.
  { induction sels as [|x sels IH]; intros m; cbn [fold_left]; [by left|]. intros [Hm|[? ?]]%IH; [|right; split; [by right|done]].
    fold (sel_path x) in Hm. destruct (decide (sel_path x = p)) as [<-|Hne]; [|rewrite lookup_insert_ne in Hm by done; by left].
    rewrite lookup_insert_eq in Hm. injection Hm as <-. right. split; [by left|done]. }
  intros Hs. destruct (H ∅ Hs) as [Hn|?]; [by rewrite lookup_empty in Hn|done].
Qed.
Lemma by_path_some sels s : s ∈ sels → ∃ s', by_path sels !! sel_path s = Some s'.
Proof.
  unfold by_path. assert (∀ m : gmap gostring Selection, (s ∈ sels ∨ ∃ s', m !! sel_path s = Some s') →
    ∃ s', fold_left (λ (m : gmap gostring Selection) sel, <[PoolPath (Name sel) (Filename sel) := sel]> m) sels m !! sel_path s = Some s') as H.
  { induction sels as [|x sels IH]; intros m Hor; cbn [fold_left]; [destruct Hor as [?%not_elem_of_nil|]; done|].
    apply IH. destruct Hor as [[->|Hin]%elem_of_cons|[s' Hs']]; [right; exists x; by rewrite lookup_insert_eq|by left|right].
    fold (sel_path x). destruct (decide (sel_path x = sel_path s)) as [->|Hne]; [exists x; by rewrite lookup_insert_eq|].
    exists s'. by rewrite lookup_insert_ne. }
  intros Hin. apply H. by left.
Qed.
Lemma best_from files k b : fold_left (best_step parse vcompare) files ∅ !! k = Some b →
  ∃ f, f ∈ files ∧ pruneKey f = k ∧ parse (pe_Version f) = Some b.
Proof.
  assert (∀ best : gmap (gostring * gostring) version, fold_left (best_step parse vcompare) files best !! k = Some b →
    best !! k = Some b ∨ ∃ f, f ∈ files ∧ pruneKey f = k ∧ parse (pe_Version f) = Some b) as H.
  { induction files as [|f files IH]; intros best; cbn [fold_left]; [by left|]. intros [Hb|(f' & ? & ?)]%IH; [|right; exists f'; by split; [right|]].
    unfold best_step in Hb. destruct (parse (pe_Version f)) as [v|] eqn:Ev; [|by left].
    assert (best !! k = Some b ∨ <[pruneKey f := v]> best !! k = Some b) as [?|Hi].
    { destruct (best !! pruneKey f) as [cur|]; [|by right]. destruct (0 <? vcompare v cur); [by right|by left]. }
    - by left.
    - destruct (decide (pruneKey f = k)) as [<-|Hne]; [|rewrite lookup_insert_ne in Hi by done; by left].
      rewrite lookup_insert_eq in Hi. injection Hi as ->. right. exists f. by split; [left|]. }
  intros Hb. destruct (H ∅ Hb) as [Hn|?]; [by rewrite lookup_empty in Hn|done].
Qed.
Lemma remove_all_spec can_remove ps t t' : remove_all can_remove ps t = Ok t' →
  ∀ p, t' !! p = if bool_decide (p ∈ ps) then None else t !! p.
Proof.
  revert t. induction ps as [|q ps IH]; intros t; cbn [remove_all]; [intros [= <-] p; by rewrite bool_decide_eq_false_2 by apply not_elem_of_nil|].
  destruct (can_remove q); [|done]. intros H p. rewrite (IH _ H p). destruct (decide (p ∈ ps)).
  - rewrite !bool_decide_eq_true_2 by set_solver. done.
  - rewrite bool_decide_eq_false_2 by done. destruct (decide (p = q)) as [->|Hne].
    + rewrite bool_decide_eq_true_2 by set_solver. by rewrite lookup_delete_eq.
    + rewrite bool_decide_eq_false_2 by set_solver. by rewrite lookup_delete_ne.
Qed.
Lemma pool_paths_spec t p : p ∈ pool_paths t ↔ has_prefix "pool/" p = true ∧ is_Some (t !! p).
Proof.
  unfold pool_paths. rewrite elem_of_lfilter, elem_of_sort_strings, list_elem_of_fmap. split.
  - intros [((q & d) & -> & Hin%elem_of_map_to_list) Hp]. by split; [|exists d].
  - intros [Hp [d Hd]]. split; [|done]. exists (p, d). by split; [|apply elem_of_map_to_list].
Qed.
Lemma pool_paths_NoDup t : NoDup (pool_paths t).
Proof.
  apply NoDup_lfilter. rewrite sort_strings_perm. apply NoDup_fst_map_to_list.
Qed.

(** What a file of the pool is: what the plan says, or else its control data. *)
Definition identity (sels : list Selection) (t : pool) (p name arch version : gostring) : Prop :=
  (∃ s, s ∈ sels ∧ sel_path s = p ∧ Name s = name ∧ Resolve.Arch s = arch ∧ Version s = version)
  ∨ (p ∉ map sel_path sels) ∧ ∃ para, LoadFile (default [] (t !! p)) = Some para
      ∧ default [] (Values para !! bytes_of "Package") = name ∧ default [] (Values para !! bytes_of "Architecture") = arch
      ∧ default [] (Values para !! bytes_of "Version") = version.
(** What pruning removed: superseded by a file that stays, and neither chosen by
    the plan nor supplied by the user, as far as the store's index can be read. *)
Definition pruned (index : result Class (list (gostring * bool))) (sels : list Selection) (t t' : pool) (p : gostring) : Prop :=
  (p ∉ map sel_path sels) ∧ t' !! p = None
  ∧ (∀ data entries, t !! p = Some data → index = Ok entries → (Bytes data, true) ∉ entries)
  ∧ ∃ p' name arch v v' parsed parsed', identity sels t p name arch v ∧ identity sels t p' name arch v'
    ∧ parse v = Some parsed ∧ parse v' = Some parsed' ∧ vcompare parsed parsed' < 0 ∧ is_Some (t' !! p').
Lemma entry_identity user t sels p e : entry_of user t sels p e → identity sels t p (pe_Name e) (pe_Arch e) (pe_Version e).
Proof.
  unfold entry_of, pool_entry, identity. destruct (by_path sels !! p) as [s|] eqn:Eb.
  - intros [= <-]. apply by_path_in in Eb as [Hs Hp]. left. by exists s.
  - destruct (LoadFile (default [] (t !! p))) as [para|] eqn:El; [|done]. intros [= <-]. right. split; [|by exists para].
    intros (s & -> & Hs)%list_elem_of_fmap. destruct (by_path_some _ _ Hs) as [s' Hs']. congruence.
Qed.

Lemma prune_spec can_remove st t sels removed t' : (∀ v, vcompare v v = 0) →
  pruneExistingPool parse vcompare can_remove st t sels = Ok (removed, t') →
  (∀ p, t' !! p = if bool_decide (p ∈ removed) then None else t !! p) ∧ ∀ p, p ∈ removed → pruned (Index st) sels t t' p.
Proof.
  intros Hrefl. unfold pruneExistingPool. rewrite bind_Ok. intros (es & He & H). apply bind_Ok in H as (t1 & Hr & [= <- <-]).
  destruct (pool_entries_spec _ _ _ _ _ He (pool_paths_NoDup t)) as [Hnd Hes].
  pose proof (remove_all_spec _ _ _ _ Hr) as Ht. split; [done|].
  intros p Hp. pose proof Hp as Hp'. rewrite elem_of_sort_strings, list_elem_of_fmap in Hp'. destruct Hp' as (e & -> & Hin).
  unfold pruneDecide in Hin. apply elem_of_lfilter in Hin as [Hin Hs]. unfold superseded in Hs.
  destruct (parse (pe_Version e)) as [v|] eqn:Ev; [|done]. destruct (fold_left _ es ∅ !! pruneKey e) as [b|] eqn:Eb; [|by rewrite andb_false_r in Hs].
  apply andb_true_iff in Hs as [[Hu%negb_true_iff Hl%negb_true_iff]%andb_true_iff Hv%Z.ltb_lt].
  destruct (best_from _ _ _ Eb) as (e' & Hin' & Hk & Hb). destruct (Hes e Hin) as [_ He1]. destruct (Hes e' Hin') as [Hpp He2].
  split_and!.
  - intros (s & Heq & Hsin)%list_elem_of_fmap. destruct (by_path_some _ _ Hsin) as [s' Hs']. unfold pool_entry in He1.
    rewrite Heq, Hs' in He1. injection He1 as <-. done.
  - rewrite Ht. by rewrite bool_decide_eq_true_2.
  - intros data entries Hd Hi Hent. unfold pool_entry in He1. destruct (by_path sels !! pe_Path e) as [s|].
    { apply (f_equal (λ r, match r with Ok x => pe_LockReferenced x | Err _ => false end)) in He1. cbn in He1. congruence. }
    destruct (LoadFile _) as [para|]; [|done]. apply (f_equal (λ r, match r with Ok x => pe_UserSupplied x | Err _ => false end)) in He1.
    cbn in He1. rewrite Hu, Hd in He1. cbn in He1. apply bool_decide_eq_false in He1. apply He1.
    unfold userSuppliedByDigest. rewrite Hi. apply elem_of_list_to_set, list_elem_of_fmap. exists (Bytes data, true). split; [done|].
    by apply elem_of_lfilter.
  - pose proof (entry_identity _ _ _ _ _ He1) as I1. pose proof (entry_identity _ _ _ _ _ He2) as I2. injection Hk as Hk1 Hk2.
    rewrite Hk1, Hk2 in I2. exists (pe_Path e'), (pe_Name e), (pe_Arch e), (pe_Version e), (pe_Version e'), v, b. split_and!; try done.
    rewrite Ht. rewrite bool_decide_eq_false_2; [by apply pool_paths_spec in Hpp as [_ ?]|].
    rewrite elem_of_sort_strings, list_elem_of_fmap. intros (f & Heq & [Hf Hsf]%elem_of_lfilter).
    assert (f = e') as -> by (symmetry; by eapply (NoDup_map_inj pe_Path)).
    unfold superseded, pruneKey in Hsf. rewrite Hb, Hk1, Hk2 in Hsf. unfold pruneKey in Eb. rewrite Eb, Hrefl in Hsf. by rewrite andb_false_r in Hsf.
Qed.
(** ** The whole step *)

Lemma sel_path_pool s : sel_path s ≠ [] → has_prefix "pool/" (sel_path s) = true.
Proof. unfold sel_path, PoolPath. by destruct (_ || _). Qed.
Lemma SortSelections_perm sels : SortSelections sels ≡ₚ sels.
Proof. apply sort_by_perm. Qed.
Lemma unreferenced_spec (t : pool) (indexed : list PoolFile) p :
  p ∈ unreferencedPoolFiles t indexed ↔ (has_prefix "pool/" p = true) ∧ is_Some (t !! p) ∧ (p ∉ map pf_Path indexed).
Proof.
  unfold unreferencedPoolFiles. rewrite elem_of_lfilter, pool_paths_spec, negb_true_iff, bool_decide_eq_false. tauto.
Qed.
Lemma in_pool_kept (t t' : pool) s : t' !! sel_path s = t !! sel_path s → in_pool t s → in_pool t' s.
Proof. intros H (data & Hd & He). exists data. by rewrite H. Qed.

(** (C21) A pool that was assembled holds the plan and nothing unexplained. The
    files handed to the index are the plan's, one path each, and each is in the
    final tree with the digest the plan gives it, whatever the store claimed. A
    file of the pool is either indexed or reported as unreferenced, and not both.
    Outside the plan a file was left as it was, or pruned: only where pruning was
    asked for, only where a file of the same name and architecture and a higher
    version, by the plan or its own control data, stays in the pool, and never one
    whose bytes the store's index has as a user's, if that index can be read: when
    it cannot, nothing counts as a user's ([index_unreadable]). *)
Theorem assembled_pool (can_remove : gostring → bool) (prune : bool) (repoDir : gostring) (plan : list Selection) (st : store) (t : pool) (out : outcome) (removed unref : list gostring) (t' : pool)
  (Hrefl : ∀ v, vcompare v v = 0)
  (H : assemble_pool parse vcompare can_remove prune repoDir plan st t = Ok (out, removed, unref, t')) :
  (map pf_Path (mo_poolFiles out) = map sel_path (SortSelections plan) ∧ NoDup (map sel_path plan))
  ∧ (∀ s, s ∈ plan → in_pool t' s)
  ∧ (∀ p, has_prefix "pool/" p = true → is_Some (t' !! p) →
       (p ∈ map pf_Path (mo_poolFiles out) ∧ p ∉ unref) ∨ (p ∈ unref ∧ p ∉ map pf_Path (mo_poolFiles out)))
  ∧ (∀ p, p ∉ map sel_path plan → p ∉ removed → t' !! p = t !! p)
  ∧ ∃ st1 (t1 : pool), materialiseSelections repoDir (SortSelections plan) st t = Ok (out, st1, t1)
      ∧ ∀ p, p ∈ removed → prune = true ∧ pruned (Index st1) (SortSelections plan) t1 t' p ∧ t1 !! p = t !! p.
Proof.
  revert H. unfold assemble_pool. rewrite bind_Ok. intros ([[out1 st1] t1] & Hmat & H).
  pose proof Hmat as Hm. unfold materialiseSelections in Hm. apply bind_Ok in Hm as (m & Hm & Heq).
  apply bind_Ok in H as ([removed1 t2] & Hp & [= <- <- <- <-]). injection Heq as <- <- <-.
  destruct (place_all_spec _ _ _ _ Hm) as (P1 & P2 & P3 & P4). cbn in P1, P4. rewrite Forall_forall in P3.
  assert (map pf_Path (mo_poolFiles (ma_out m)) = map sel_path (SortSelections plan)) as Hpaths by (rewrite P1, map_map; done).
  assert ((∀ p, t2 !! p = if bool_decide (p ∈ removed1) then None else ma_tree m !! p)
    ∧ ∀ p, p ∈ removed1 → prune = true ∧ pruned (Index (ma_store m)) (SortSelections plan) (ma_tree m) t2 p) as [Ht Hr].
  { destruct prune.
    - destruct (prune_spec _ _ _ _ _ _ Hrefl Hp) as [? ?]. split; [done|]. by auto.
    - injection Hp as <- <-. split; [|by intros p ?%not_elem_of_nil]. intros p. by rewrite bool_decide_eq_false_2 by apply not_elem_of_nil. }
  assert (∀ p, p ∈ removed1 → p ∉ map sel_path plan) as Hout.
  { intros p Hin. destruct (Hr p Hin) as (_ & Hn & _). by rewrite SortSelections_perm in Hn. }
  cbn [sorted_outcome mo_poolFiles]. split_and!.
  - done.
  - by rewrite <- SortSelections_perm.
  - intros s Hs. eapply in_pool_kept; [|apply P3; by rewrite SortSelections_perm]. rewrite Ht, bool_decide_eq_false_2; [done|].
    intros Hin. apply (Hout _ Hin). apply list_elem_of_fmap. by exists s.
  - intros p Hpre Hp'. rewrite unreferenced_spec. destruct (decide (p ∈ map pf_Path (mo_poolFiles (ma_out m)))); [left|right]; tauto.
  - intros p Hn Hnr. rewrite Ht, bool_decide_eq_false_2 by done. apply P4. by rewrite SortSelections_perm.
  - exists (ma_store m), (ma_tree m). split; [done|]. intros p Hin. destruct (Hr p Hin) as [Hpr Hpd]. split_and!; [done..|].
    apply P4. rewrite SortSelections_perm. by apply Hout.
Qed.
End assembled.

(** ** On a pool that was there before *)

(** A store of what was staged, which answers with the wrong digest for nothing;
    versions are the first byte; a package's version is its content. *)
Definition toy_store (index : result Class (list (gostring * bool))) : ContentStore unit := {|
  Has _ _ := false;
  PutFile st path := Ok (st, Bytes path);
  OpenObject _ _ := Err Environment;
  Materialise _ digest := if streq digest (Bytes (bytes_of "2")) then Ok (bytes_of "2") else Err Environment;
  Index _ := index
|}.
Definition content_deb : DebReader := {|
  LoadFile data := Some {| Order := []; Values := {[ bytes_of "Package" := bytes_of "app"; bytes_of "Architecture" := bytes_of "amd64"; bytes_of "Version" := data ]} |}
|}.
Definition first_byte (v : gostring) : option Z := match v with c :: _ => Some (ord c) | [] => None end.
Definition app_two : Selection :=
  mkSelection "app" "amd64" "2" "app" "" "app_2.deb" 1 (Bytes (bytes_of "2")) "" (mkOrigin [] [] [] [] [] []) ReasonRequested "" false [] "2" false.
Definition old_pool : gmap gostring gostring := list_to_map (map (λ f : string * string, (bytes_of f.1, bytes_of f.2))
  [("pool/a/app/app_0.deb", "0"); ("pool/a/app/app_1.deb", "1 by the user"); ("pool/a/app/notes.txt", "notes")]%string).
Definition users_index : list (gostring * bool) := [(Bytes (bytes_of "0"), false); (Bytes (bytes_of "1 by the user"), true)].
Definition assembled_with (index : result Class (list (gostring * bool))) :=
  assemble_pool (ops := toy_store index) (deb := content_deb) first_byte Z.sub (λ _, true) true "/b/repo" [app_two] tt old_pool.
Definition assembled_toy := assembled_with (Ok users_index).

Lemma assembled_pool_witness : ∃ out removed unref t', assembled_toy = Ok (out, removed, unref, t')
  ∧ ∀ s, s ∈ [app_two] → in_pool t' s.
Proof.
  assert (is_ok assembled_toy = true) as Hok by (vm_compute; reflexivity).
  destruct assembled_toy as [[[[out removed] unref] t']|e] eqn:E; [|discriminate Hok].
  exists out, removed, unref, t'. split; [reflexivity|]. unfold assembled_toy, assembled_with in E.
  destruct (assembled_pool (ops := toy_store (Ok users_index)) (deb := content_deb) _ _ _ _ _ _ _ _ _ _ _ _ Z.sub_diag E) as (_ & Hin & _). exact Hin.
Defined.

(** The old package goes, the user's stays and is reported, with the notes. *)
Example old_pool_pruned : match assembled_toy with
  | Ok (out, removed, unref, t') => map pf_Path (mo_poolFiles out) = [bytes_of "pool/a/app/app_2.deb"]
      ∧ removed = [bytes_of "pool/a/app/app_0.deb"] ∧ unref = [bytes_of "pool/a/app/app_1.deb"; bytes_of "pool/a/app/notes.txt"]
      ∧ t' !! bytes_of "pool/a/app/app_2.deb" = Some (bytes_of "2")
  | Err _ => False
  end.
Proof. vm_compute. by split_and!. Qed.
(** An index that cannot be read is an index in which nothing is a user's: the
    user's package is removed, and nothing is said. *)
Example index_unreadable : match assembled_with (Err Environment) with
  | Ok (_, removed, _, _) => removed = [bytes_of "pool/a/app/app_0.deb"; bytes_of "pool/a/app/app_1.deb"]
  | Err _ => False
  end.
Proof. by vm_compute. Qed.
