(* ===== verification/GoGlob.v ===== *)
(** * Go's [path.Match]: shell patterns on one path segment.

    The matcher of the standard library as it is written, chunk by chunk with no
    backtracking between chunks, and the language of a pattern as one would say
    it: [Match] refuses exactly the malformed patterns, whatever the name, and on
    an ASCII name with no slash it accepts exactly that language. (With a slash
    it may not: [*[^x][^x]/*] does not match [ab//].) *)
From S2P Require Export GoText.
#[local] Open Scope Z_scope.

(** ** The code *)

(** [utf8.DecodeRuneInString]: the rune and the rest. *)
Definition decode_rune (s : gostring) : Z * gostring :=
  match decode s with (r, w) :: _ => (r, drop (length w) s) | [] => (RuneError, []) end.

(** [getEsc]; [None] is [ErrBadPattern]. *)
Definition esc_rune (c : gostring) : option (Z * gostring) :=
  match decode c with
  | [] => None
  | (r, w) :: _ =>
      if valid_rune (r, w) then match drop (length w) c with [] => None | rest => Some (r, rest) end else None
  end.
Definition getEsc (chunk : gostring) : option (Z * gostring) :=
  let unescaped :=
    match chunk with
    | [] => None
    | c :: rest =>
        if beq c "-" || beq c "]" then None
        else if beq c "\" then match rest with [] => None | _ => Some rest end
        else Some chunk
    end in
  c ← unescaped; esc_rune c.

(** The ranges of a character class, after the [^]: whether [r] is in one, and
    what follows the [\]]. *)
Fixpoint class_loop (fuel : nat) (r : Z) (found first : bool) (chunk : gostring) : option (bool * gostring) :=
  match fuel with
  | O => None
  | S fuel =>
      match chunk with
      | c :: rest =>
          if beq c "]" && negb first then Some (found, rest)
          else
            '(lo, chunk) ← getEsc chunk;
            '(hi, chunk) ← match chunk with d :: rest => if beq d "-" then getEsc rest else Some (lo, chunk) | [] => None end;
            class_loop fuel r (found || ((lo <=? r) && (r <=? hi))) false chunk
      | [] => None
      end
  end.
Definition class_match (r : Z) (chunk : gostring) : option (bool * gostring) :=
  let '(negated, chunk) := match chunk with c :: rest => if beq c "^" then (true, rest) else (false, chunk) | [] => (false, []) end in
  '(found, rest) ← class_loop (S (length chunk)) r false true chunk;
  Some (negb (Bool.eqb found negated), rest).

(** [matchChunk]: [None] for a bad pattern, otherwise the rest of the text if
    it matched. The text is [None] once the match has failed. *)
Fixpoint chunk_loop (fuel : nat) (chunk : gostring) (s : option gostring) : option (option gostring) :=
  match fuel with
  | O => None
  | S fuel =>
      match chunk with
      | [] => Some s
      | c :: rest =>
          let s := match s with Some [] => None | _ => s end in
          let literal (c : ascii) (rest : gostring) :=
            chunk_loop fuel rest (match s with Some (d :: s') => if beq c d then Some s' else None | _ => None end) in
          if beq c "[" then
            let r := match s with Some s => fst (decode_rune s) | None => 0 end in
            let s' := (λ s, snd (decode_rune s)) <$> s in
            m ← class_match r rest;
            let '(ok, rest) := (m : bool * gostring) in
            chunk_loop fuel rest (if ok then s' else None)
          else if beq c "?" then
            chunk_loop fuel rest
              (match s with Some (d :: s') => if beq d "/" then None else Some (snd (decode_rune (d :: s'))) | _ => None end)
          else if beq c "\" then match rest with [] => None | c :: rest => literal c rest end
          else literal c rest
      end
  end.
Definition matchChunk (chunk s : gostring) : option (option gostring) := chunk_loop (S (length chunk)) chunk (Some s).

(** [scanChunk]: the stars dropped, and the chunk cut at the next one outside a
    class. *)
Fixpoint skip_stars (pattern : gostring) : bool * gostring :=
  match pattern with
  | c :: rest => if beq c "*" then (true, snd (skip_stars rest)) else (false, pattern)
  | [] => (false, [])
  end.
Fixpoint scan (inrange escaped : bool) (pattern : gostring) : gostring * gostring :=
  match pattern with
  | [] => ([], [])
  | c :: rest =>
      if negb escaped && beq c "*" && negb inrange then ([], pattern)
      else
        let escapes := negb escaped && beq c "\" in
        let inrange := if escaped then inrange else if beq c "[" then true else if beq c "]" then false else inrange in
        let '(chunk, rest) := scan inrange escapes rest in (c :: chunk, rest)
  end.
Definition scanChunk (pattern : gostring) : bool * gostring * gostring :=
  let '(star, p) := skip_stars pattern in let '(chunk, rest) := scan false false p in (star, chunk, rest).

(** The tail of [Match]: is the rest of the pattern well formed? *)
Fixpoint rest_ok (fuel : nat) (pattern : gostring) : bool :=
  match pattern, fuel with
  | [], _ => true
  | _, O => false
  | _, S fuel => let '(_, chunk, rest) := scanChunk pattern in
      match matchChunk chunk [] with None => false | Some _ => rest_ok fuel rest end
  end.
(** Trying the chunk after each byte a star may take: a place where it matches,
    [None] for a bad pattern. *)
Fixpoint try_after (chunk : gostring) (last : bool) (name : gostring) : option (option gostring) :=
  match name with
  | [] => Some None
  | c :: name' =>
      if beq c "/" then Some None
      else match matchChunk chunk name' with
      | None => None
      | Some (Some t) => if last && negb (streq t "") then try_after chunk last name' else Some (Some t)
      | Some None => try_after chunk last name'
      end
  end.
Fixpoint match_loop (fuel : nat) (pattern name : gostring) : option bool :=
  match pattern, fuel with
  | [], _ => Some (streq name "")
  | _, O => None
  | _, S fuel =>
      let '(star, chunk, rest) := scanChunk pattern in
      let last := streq rest "" in
      if star && streq chunk "" then Some (negb (contains_byte "/" name))
      else
        m ← matchChunk chunk name;
        let here := match m with Some t => if streq t "" || negb last then Some t else None | None => None end in
        match here with
        | Some t => match_loop fuel rest t
        | None =>
            after ← (if star then try_after chunk last name else Some None);
            match after with
            | Some t => match_loop fuel rest t
            | None => if rest_ok fuel rest then Some false else None
            end
        end
  end.
(** [path.Match]; [None] is [ErrBadPattern]. *)
Definition Match (pattern name : gostring) : option bool := match_loop (length pattern) pattern name.

(** ** The language of a pattern *)

Inductive tok :=
| TStar
| TAny
| TByte (c : ascii)
| TClass (negated : bool) (ranges : list (Z * Z)).

Definition in_ranges (r : Z) (ranges : list (Z * Z)) : bool := existsb (λ lh, (lh.1 <=? r) && (r <=? lh.2)) ranges.
(** One byte of an ASCII name. *)
Definition tok_byte (t : tok) (c : ascii) : bool :=
  match t with
  | TStar => false
  | TAny => negb (beq c "/")
  | TByte d => beq d c
  | TClass negated ranges => negb (Bool.eqb (in_ranges (ord c) ranges) negated)
  end.
Fixpoint glob (ts : list tok) (s : gostring) : Prop :=
  match ts with
  | [] => s = []
  | TStar :: ts => ∃ p q, s = p ++ q ∧ ("/"%char ∉ p) ∧ glob ts q
  | t :: ts => ∃ c q, s = c :: q ∧ tok_byte t c = true ∧ glob ts q
  end.

(** The tokens of a pattern; in a chunk ([lit]) a star is a literal. *)
Fixpoint ranges_loop (fuel : nat) (first : bool) (chunk : gostring) : option (list (Z * Z) * gostring) :=
  match fuel with
  | O => None
  | S fuel =>
      match chunk with
      | c :: rest =>
          if beq c "]" && negb first then Some ([], rest)
          else
            '(lo, chunk) ← getEsc chunk;
            '(hi, chunk) ← match chunk with d :: rest => if beq d "-" then getEsc rest else Some (lo, chunk) | [] => None end;
            '(rs, rest) ← ranges_loop fuel false chunk;
            Some ((lo, hi) :: rs, rest)
      | [] => None
      end
  end.
Definition negation (chunk : gostring) : bool * gostring :=
  match chunk with c :: rest => if beq c "^" then (true, rest) else (false, chunk) | [] => (false, []) end.
Definition class_tok (chunk : gostring) : option (tok * gostring) :=
  let '(negated, chunk) := negation chunk in
  '(rs, rest) ← ranges_loop (S (length chunk)) true chunk; Some (TClass negated rs, rest).
Definition tok1 (lit : bool) (c : ascii) (rest : gostring) : option (tok * gostring) :=
  if beq c "*" && negb lit then Some (TStar, rest)
  else if beq c "[" then class_tok rest
  else if beq c "?" then Some (TAny, rest)
  else if beq c "\" then match rest with [] => None | c :: rest => Some (TByte c, rest) end
  else Some (TByte c, rest).
Fixpoint tokens_go (lit : bool) (fuel : nat) (p : gostring) : option (list tok) :=
  match p, fuel with
  | [], _ => Some []
  | _, O => None
  | c :: rest, S fuel => '(t, rest) ← tok1 lit c rest; ts ← tokens_go lit fuel rest; Some (t :: ts)
  end.
Definition tokens (lit : bool) (p : gostring) : option (list tok) := tokens_go lit (length p) p.

(** *** Reading tokens *)

Lemma beq_true c d : beq c d = true ↔ c = d.
Proof. unfold beq. by rewrite bool_decide_eq_true. Qed.
Lemma beq_false c d : beq c d = false ↔ c ≠ d.
Proof. unfold beq. by rewrite bool_decide_eq_false. Qed.

(** Inside a class, text goes into the chunk up to the closing bracket. *)
Definition kept (p : gostring) (from to : bool) : Prop :=
  ∀ u, scan from false (p ++ u) = let '(a, b) := scan to false u in (p ++ a, b).
Lemma kept_app p q a b c : kept p a b → kept q b c → kept (p ++ q) a c.
Proof. intros H1 H2 u. rewrite <- app_assoc, H1, H2. destruct (scan c false u). by rewrite app_assoc. Qed.
Lemma kept_plain w : Forall (λ c, c ≠ "\"%char ∧ c ≠ "]"%char) w → kept w true true.
Proof.
  induction 1 as [|c w [H1 H2] _ IH]; intros u; [cbn [app]; by destruct (scan true false u)|]. cbn [app scan negb andb].
  rewrite andb_false_r. apply beq_false in H1, H2. rewrite H1, H2.
  destruct (beq c "["); rewrite (IH u); by destruct (scan true false u).
Qed.
Lemma kept_escaped c w : Forall (λ c, c ≠ "\"%char ∧ c ≠ "]"%char) w → kept ("\"%char :: c :: w) true true.
Proof.
  intros Hw u. change (("\"%char :: c :: w) ++ u) with ("\"%char :: c :: (w ++ u)). cbn [scan negb andb].
  change (beq "\" "*") with false. change (beq "\" "[") with false. change (beq "\" "]") with false. change (beq "\" "\") with true.
  cbn [andb negb]. rewrite (kept_plain w Hw u). by destruct (scan true false u).
Qed.

Lemma kept_close : kept ["]"%char] true false.
Proof.
  intros u. cbn [app scan negb andb]. change (beq "]" "*") with false. change (beq "]" "[") with false.
  change (beq "]" "]") with true. change (beq "]" "\") with false. cbn [andb]. by destruct (scan false false u).
Qed.

(** The first rune of a text, its bytes, and the rest. *)
Lemma decode_first s r w l : decode s = (r, w) :: l → s = w ++ drop (length w) s ∧ w ≠ [].
Proof.
  apply (decode_ind (λ s d, d = (r, w) :: l → s = w ++ drop (length w) s ∧ w ≠ [])); [done|..];
    intros; simplify_eq/=; done.
Qed.
Lemma decode_first_local s r w l u : decode s = (r, w) :: l → valid_rune (r, w) = true → decode (w ++ u) = (r, w) :: decode u.
Proof. intros E Hv. eapply decode_chunk; [|exact Hv]. rewrite E. by left. Qed.
Lemma high_plain w : Forall (λ c, 128 ≤ ord c) w → Forall (λ c, c ≠ "\"%char ∧ c ≠ "]"%char) w.
Proof. intros H. eapply Forall_impl; [exact H|]. intros c Hc. split; intros ->; by vm_compute in Hc. Qed.
Lemma decode_first_shape s r w l : decode s = (r, w) :: l → ∃ c w', w = c :: w' ∧ Forall (λ c, c ≠ "\"%char ∧ c ≠ "]"%char) w' ∧
  (128 ≤ ord c ∨ w' = []).
Proof.
  intros E. destruct (decode_chunk_shape s r w) as [[_ ->]|[_ Hw]]; [rewrite E; by left|by eexists _, []; split_and!; auto|].
  destruct w as [|c w]; [by apply decode_first in E as [_ ?]|]. apply Forall_cons in Hw as [Hc Hw].
  exists c, w. split_and!; [done|by apply high_plain|by left].
Qed.

Lemma esc_rune_local s r t : esc_rune s = Some (r, t) →
  ∃ c w, s = c :: w ++ t ∧ t ≠ [] ∧ Forall (λ c, c ≠ "\"%char ∧ c ≠ "]"%char) w ∧
  ∀ u, u ≠ [] → esc_rune (c :: w ++ u) = Some (r, u).
Proof.
  unfold esc_rune. destruct (decode s) as [|[r' w] l] eqn:Ed; [done|]. destruct (valid_rune (r', w)) eqn:Ev; [|done].
  destruct (drop (length w) s) as [|t0 ts] eqn:Et; [done|]. intros [= -> <-].
  destruct (decode_first _ _ _ _ Ed) as [Hs Hw]. destruct (decode_first_shape _ _ _ _ Ed) as (d & w' & -> & Hw' & Hd).
  rewrite Et in Hs. exists d, w'. split_and!; [done|done|done|]. intros u Hu.
  change (d :: w' ++ u) with ((d :: w') ++ u). rewrite (decode_first_local _ _ _ _ u Ed Ev), Ev, drop_app_length. by destruct u.
Qed.
Lemma getEsc_local s r t : getEsc s = Some (r, t) →
  ∃ p, s = p ++ t ∧ p ≠ [] ∧ t ≠ [] ∧ kept p true true ∧ ∀ u, u ≠ [] → getEsc (p ++ u) = Some (r, u).
Proof.
  unfold getEsc. destruct s as [|c s]; [done|]. destruct (beq c "-" || beq c "]") eqn:Ec; [done|].
  destruct (beq c "\") eqn:Eb.
  - apply beq_true in Eb as ->. destruct s as [|c0 s0] eqn:Es; [done|]. rewrite <- Es. cbn [mbind option_bind].
    intros (d & w & E & Ht & Hw & Hu)%esc_rune_local. exists ("\"%char :: d :: w).
    split_and!; [by rewrite E|done|done|by apply kept_escaped|]. intros u Hn. cbn [app]. rewrite Ec.
    change (beq "\" "\") with true. cbn [mbind option_bind]. by apply Hu.
  - cbn [mbind option_bind]. intros (d & w & E & Ht & Hw & Hu)%esc_rune_local. injection E as <- E.
    exists (c :: w). split_and!; [by rewrite E|done|done| |].
    + apply kept_plain. constructor; [|done]. apply orb_false_iff in Ec as [_ E2]. by apply beq_false in Eb, E2.
    + intros u Hn. cbn [app]. rewrite Ec, Eb. by apply Hu.
Qed.

(** One round of a class. *)
Definition range1 (chunk : gostring) : option (Z * Z * gostring) :=
  '(lo, chunk) ← getEsc chunk;
  '(hi, chunk) ← match chunk with d :: rest => if beq d "-" then getEsc rest else Some (lo, chunk) | [] => None end;
  Some (lo, hi, chunk).
Definition same_head (t u : gostring) : Prop := ∃ c t' u', t = c :: t' ∧ u = c :: u'.
Lemma range1_local s lo hi t : range1 s = Some (lo, hi, t) →
  ∃ p, s = p ++ t ∧ p ≠ [] ∧ t ≠ [] ∧ kept p true true ∧ ∀ u, same_head t u → range1 (p ++ u) = Some (lo, hi, u).
Proof.
  unfold range1. destruct (getEsc s) as [[lo' t1]|] eqn:E1; [|done]. cbn [mbind option_bind].
  apply getEsc_local in E1 as (p1 & -> & Hp1 & Ht1 & Hk1 & Hl1). destruct t1 as [|d rest]; [done|].
  destruct (beq d "-") eqn:Ed.
  - destruct (getEsc rest) as [[hi' t2]|] eqn:E2; [|done]. cbn [mbind option_bind]. intros [= -> -> ->].
    apply getEsc_local in E2 as (p2 & -> & Hp2 & Ht2 & Hk2 & Hl2). apply beq_true in Ed as ->.
    exists (p1 ++ "-"%char :: p2). split_and!; [by rewrite <- app_assoc|by destruct p1|done| |].
    + apply (kept_app _ _ _ true); [done|]. apply (kept_app ["-"%char] p2 true true true); [|done].
      apply kept_plain. by repeat constructor.
    + intros u (c & t' & u' & -> & ->). rewrite <- app_assoc. cbn [app]. rewrite Hl1 by done.
      change (beq "-" "-") with true. cbn [mbind option_bind]. by rewrite Hl2.
  - cbn [mbind option_bind]. intros [= -> -> <-]. exists p1. split_and!; [done|done|done|done|].
    intros u (c & t' & u' & E & ->). injection E as -> ->. rewrite Hl1 by done. cbn [mbind option_bind]. by rewrite Ed.
Qed.

Lemma ranges_loop_eq n first chunk :
  ranges_loop (S n) first chunk =
    match chunk with
    | c :: rest => if beq c "]" && negb first then Some ([], rest)
        else '(lo, hi, chunk) ← range1 chunk; '(rs, rest) ← ranges_loop n false chunk; Some ((lo, hi) :: rs, rest)
    | [] => None
    end.
Proof.
  destruct chunk as [|c rest]; [done|]. cbn [ranges_loop]. destruct (_ && _); [done|]. unfold range1.
  destruct (getEsc _) as [[lo [|d t]]|]; [done| |done]. cbn [mbind option_bind].
  destruct (beq d "-"); [|done]. by destruct (getEsc t) as [[hi t']|].
Qed.
(** A class that closes is read the same whatever follows, and text goes into
    the chunk up to its end. *)
Lemma ranges_local n : ∀ first s rs t, ranges_loop n first s = Some (rs, t) →
  ∃ p, s = p ++ t ∧ p ≠ [] ∧ kept p true false ∧ ∀ u, ranges_loop n first (p ++ u) = Some (rs, u).
Proof.
  induction n as [|n IH]; intros first s rs t; [done|]. rewrite ranges_loop_eq. destruct s as [|c s]; [done|].
  destruct (beq c "]" && negb first) eqn:Ec.
  - intros [= <- <-]. exists [c]. split_and!; [done|done| |].
    + apply andb_true_iff in Ec as [->%beq_true _]. apply kept_close.
    + intros u. rewrite ranges_loop_eq. cbn [app]. by rewrite Ec.
  - destruct (range1 (c :: s)) as [[[lo hi] t1]|] eqn:E1; [|done]. cbn [mbind option_bind].
    destruct (ranges_loop n false t1) as [[rs' t2]|] eqn:E2; [|done]. cbn [mbind option_bind]. intros [= <- <-].
    apply range1_local in E1 as (p1 & Hs & Hp1 & Ht1 & Hk1 & Hl1). apply IH in E2 as (p2 & -> & Hp2 & Hk2 & Hl2).
    exists (p1 ++ p2). split_and!; [by rewrite Hs, <- app_assoc|by destruct p1|by eapply kept_app|].
    intros u. rewrite ranges_loop_eq, <- app_assoc. destruct p1 as [|c1 p1]; [done|]. cbn [app] in *. injection Hs as <- Hs.
    rewrite Ec, Hl1; [|destruct p2 as [|c2 p2]; [done|]; by exists c2, (p2 ++ t2), (p2 ++ u)].
    cbn [mbind option_bind]. by rewrite Hl2.
Qed.
Lemma ranges_fuel n : ∀ m first s, (length s < n)%nat → (length s < m)%nat → ranges_loop n first s = ranges_loop m first s.
Proof.
  induction n as [|n IH]; intros [|m] first s Hn Hm; try lia. rewrite !ranges_loop_eq. destruct s as [|c s]; [done|].
  destruct (_ && _); [done|]. destruct (range1 (c :: s)) as [[[lo hi] t1]|] eqn:E1; [|done]. cbn [mbind option_bind].
  apply range1_local in E1 as (p1 & Hs & Hp1 & _). apply (f_equal length) in Hs. rewrite length_app in Hs.
  destruct p1; [done|]. cbn [length] in *. by rewrite (IH m) by lia.
Qed.

Lemma ranges_local_fueled n s rs t : ranges_loop n true s = Some (rs, t) → (length s < n)%nat →
  ∃ p, s = p ++ t ∧ p ≠ [] ∧ kept p true false ∧ ∀ u, ranges_loop (S (length (p ++ u))) true (p ++ u) = Some (rs, u).
Proof.
  intros Hr Hn. destruct (ranges_local _ _ _ _ _ Hr) as (p & -> & Hp & Hk & _). exists p. split_and!; [done|done|done|]. intros u.
  rewrite (ranges_fuel _ (n + S (length (p ++ u)))) by lia. rewrite (ranges_fuel _ (n + S (length (p ++ u)))) in Hr by lia.
  destruct (ranges_local _ _ _ _ _ Hr) as (p' & E & _ & _ & Hl). by apply app_inv_tail in E as <-.
Qed.
Lemma class_tok_local s t rest : class_tok s = Some (t, rest) →
  ∃ p, s = p ++ rest ∧ p ≠ [] ∧ kept p true false ∧ ∀ u, class_tok (p ++ u) = Some (t, u).
Proof.
  unfold class_tok, negation. destruct s as [|c s]; [done|]. destruct (beq c "^") eqn:Ec.
  - destruct (ranges_loop _ true s) as [[rs r]|] eqn:Er; [|done]. cbn [mbind option_bind]. intros [= <- <-].
    apply ranges_local_fueled in Er as (p & -> & Hp & Hk & Hl); [|lia]. exists (c :: p). split_and!; [done|done| |].
    + apply beq_true in Ec as ->. apply (kept_app ["^"%char] p true true); [|done]. apply kept_plain. by repeat constructor.
    + intros u. cbn [app]. by rewrite Ec, Hl.
  - destruct (ranges_loop _ true (c :: s)) as [[rs r]|] eqn:Er; [|done]. cbn [mbind option_bind]. intros [= <- <-].
    apply ranges_local_fueled in Er as (p & Hs & Hp & Hk & Hl); [|lia]. exists p. split_and!; [done|done|done|]. intros u.
    destruct p as [|c' p]; [done|]. cbn [app] in *. injection Hs as <- Hs. by rewrite Ec, Hl.
Qed.
Lemma tok1_shorter lit c rest t rest' : tok1 lit c rest = Some (t, rest') → (length rest' ≤ length rest)%nat.
Proof.
  unfold tok1. destruct (_ && _); [by intros [= <- <-]|]. destruct (beq c "[").
  { intros (p & -> & _)%class_tok_local. rewrite length_app. lia. }
  destruct (beq c "?"); [by intros [= <- <-]|]. destruct (beq c "\"); [|by intros [= <- <-]].
  destruct rest; [done|]. intros [= <- <-]. cbn. lia.
Qed.
Lemma tokens_fuel lit n : ∀ m p, (length p ≤ n)%nat → (length p ≤ m)%nat → tokens_go lit n p = tokens_go lit m p.
Proof.
  induction n as [|n IH]; intros [|m] [|c p] Hn Hm; cbn [length] in *; try lia; try done. cbn [tokens_go].
  destruct (tok1 lit c p) as [[t rest]|] eqn:Et; [|done]. cbn [mbind option_bind]. apply tok1_shorter in Et. by rewrite (IH m) by lia.
Qed.
Lemma tokens_cons lit c p : tokens lit (c :: p) = '(t, rest) ← tok1 lit c p; ts ← tokens lit rest; Some (t :: ts).
Proof.
  unfold tokens. cbn [length tokens_go]. destruct (tok1 lit c p) as [[t rest]|] eqn:Et; [|done]. cbn [mbind option_bind].
  apply tok1_shorter in Et. by rewrite (tokens_fuel lit _ (length rest)) by lia.
Qed.

(** *** Chunks and tokens *)

Lemma scan_split p : ∀ inr esc, let '(chunk, rest) := scan inr esc p in
  p = chunk ++ rest ∧ (rest = [] ∨ ∃ r, rest = "*"%char :: r).
Proof.
  induction p as [|c p IH]; intros inr esc; cbn [scan]; [by split; [|left]|].
  destruct (negb esc && beq c "*" && negb inr) eqn:Ec.
  { split; [done|right]. exists p. f_equal. apply andb_true_iff in Ec as [[_ ->%beq_true]%andb_true_iff _]. done. }
  match goal with |- context [scan ?a ?b p] => specialize (IH a b); destruct (scan a b p) as [chunk rest] end.
  destruct IH as [-> Hr]. done.
Qed.
Lemma scan_tokens n : ∀ p, (length p ≤ n)%nat → let '(chunk, rest) := scan false false p in
  tokens false p = (a ← tokens true chunk; b ← tokens false rest; Some (a ++ b)).
Proof.
  induction n as [|n IH]; intros [|c p] Hn; cbn [length] in Hn; try lia; try done.
  cbn [scan negb andb]. rewrite andb_true_r. destruct (beq c "*") eqn:Es; cbn [andb].
  { destruct (tokens false (c :: p)) eqn:E; cbn; by rewrite ?E. }
  rewrite tokens_cons. assert (∀ q, tok1 false c q = tok1 true c q) as Hlit by (intros q; unfold tok1; by rewrite Es).
  destruct (beq c "[") eqn:Eb.
  - apply beq_true in Eb as ->. change (beq "[" "\") with false. pose proof (scan_split p true false) as Hsplit.
    change (tok1 false "[" p) with (class_tok p). destruct (class_tok p) as [[t r]|] eqn:Et.
    + apply class_tok_local in Et as (q & -> & Hq & Hk & Hl). rewrite (Hk r). specialize (IH r ltac:(rewrite length_app in Hn; lia)).
      destruct (scan false false r) as [a b]. rewrite tokens_cons. change (tok1 true "[" (q ++ a)) with (class_tok (q ++ a)).
      rewrite Hl. cbn [mbind option_bind]. rewrite IH. destruct (tokens true a); [|done]. cbn. by destruct (tokens false b).
    + destruct (scan true false p) as [a b]. destruct Hsplit as [-> _]. rewrite tokens_cons.
      change (tok1 true "[" a) with (class_tok a). destruct (class_tok a) as [[t r]|] eqn:Ea; [|done].
      apply class_tok_local in Ea as (q & -> & _ & _ & Hl). rewrite <- app_assoc, Hl in Et. done.
  - assert ((if beq c "]" then false else false) = false) as -> by (by destruct (beq c "]")).
    rewrite Hlit. destruct (beq c "\") eqn:Ebs.
    + apply beq_true in Ebs as ->. destruct p as [|d p]; [done|]. cbn [scan negb andb]. cbn [length] in Hn.
      specialize (IH p ltac:(lia)). destruct (scan false false p) as [a b]. rewrite tokens_cons.
      change (tok1 true "\" (d :: p)) with (Some (TByte d, p)). change (tok1 true "\" (d :: a)) with (Some (TByte d, a)).
      cbn [mbind option_bind]. rewrite IH. destruct (tokens true a); [|done]. cbn. by destruct (tokens false b).
    + specialize (IH p ltac:(lia)). destruct (scan false false p) as [a b]. rewrite tokens_cons.
      assert (∃ t, ∀ q, tok1 true c q = Some (t, q)) as [t Ht].
      { unfold tok1. rewrite Es, Eb, Ebs. cbn. destruct (beq c "?"); by eexists. }
      rewrite !Ht. cbn [mbind option_bind]. rewrite IH. destruct (tokens true a); [|done]. cbn. by destruct (tokens false b).
Qed.

(** What a token takes from a text; [None] when it does not match. *)
Definition tok_step (t : tok) (s : gostring) : option gostring :=
  match s with
  | [] => None
  | d :: s' =>
      match t with
      | TStar => None
      | TAny => if beq d "/" then None else Some (snd (decode_rune s))
      | TByte c => if beq c d then Some s' else None
      | TClass negated rs => if negb (Bool.eqb (in_ranges (fst (decode_rune s)) rs) negated) then Some (snd (decode_rune s)) else None
      end
  end.
Fixpoint run_toks (ts : list tok) (s : option gostring) : option gostring :=
  match ts with [] => s | t :: ts => run_toks ts (s ≫= tok_step t) end.
Lemma run_none ts : run_toks ts None = None.
Proof. by induction ts. Qed.

Lemma class_loop_ranges n : ∀ r found first chunk,
  class_loop n r found first chunk = (λ x, (found || in_ranges r x.1, x.2)) <$> ranges_loop n first chunk.
Proof.
  induction n as [|n IH]; intros r found first chunk; [done|]. cbn [class_loop ranges_loop]. destruct chunk as [|c chunk]; [done|].
  destruct (_ && _); [cbn; by rewrite orb_false_r|]. destruct (getEsc _) as [[lo [|d t]]|]; [done| |done]. cbn [mbind option_bind].
  destruct (beq d "-").
  - destruct (getEsc t) as [[hi t']|]; [|done]. cbn [mbind option_bind]. rewrite IH.
    destruct (ranges_loop n false t') as [[rs r']|]; [|done]. cbn. by rewrite orb_assoc.
  - cbn [mbind option_bind]. rewrite IH. destruct (ranges_loop n false (d :: t)) as [[rs r']|]; [|done]. cbn. by rewrite orb_assoc.
Qed.
Lemma class_match_tok r chunk :
  class_match r chunk = match class_tok chunk with
    | Some (TClass negated rs, rest) => Some (negb (Bool.eqb (in_ranges r rs) negated), rest)
    | _ => None end.
Proof.
  unfold class_match, class_tok, negation. destruct chunk as [|c chunk]; [done|].
  destruct (beq c "^"); rewrite class_loop_ranges; by destruct (ranges_loop _ _ _) as [[rs r']|].
Qed.

Lemma chunk_loop_run n : ∀ chunk s, (length chunk < n)%nat →
  chunk_loop n chunk s = (λ ts, run_toks ts s) <$> tokens true chunk.
Proof.
  induction n as [|n IH]; intros [|c chunk] s Hn; cbn [length] in Hn; try lia; [done|]. rewrite tokens_cons. cbn [chunk_loop].
  assert (∀ t r, tok1 true c chunk = Some (t, r) → (length r < n)%nat) as Hlen by (intros t r Ht%tok1_shorter; lia).
  unfold tok1 in *. rewrite andb_false_r in *.
  destruct (beq c "[").
  { rewrite class_match_tok. destruct (class_tok chunk) as [[t r]|] eqn:Et; [|done]. cbn [mbind option_bind].
    specialize (Hlen _ _ eq_refl).
    assert (∃ neg rs, t = TClass neg rs) as (neg & rs & ->).
    { unfold class_tok in Et. destruct (negation chunk) as [neg c']. destruct (ranges_loop _ _ _) as [[rs r']|]; [|done].
      injection Et as <- _. by exists neg, rs. }
    cbn [mbind option_bind]. rewrite IH by done. destruct s as [[|d s]|]; cbn [fmap option_fmap option_map mbind option_bind tok_step].
    all: destruct (tokens true r); [|by destruct (negb _)].
    all: cbn [mbind option_bind fmap option_fmap option_map run_toks tok_step]; by destruct (negb _). }
  destruct (beq c "?").
  { cbn [mbind option_bind]. rewrite IH by (by eapply Hlen). destruct s as [[|d s]|]; cbn [mbind option_bind tok_step]; by destruct (tokens true chunk). }
  destruct (beq c "\").
  { destruct chunk as [|d chunk]; [done|]. cbn [mbind option_bind]. rewrite IH by (by eapply Hlen).
    destruct s as [[|e s]|]; cbn [mbind option_bind tok_step]; by destruct (tokens true chunk). }
  cbn [mbind option_bind]. rewrite IH by (by eapply Hlen).
  destruct s as [[|e s]|]; cbn [mbind option_bind tok_step]; by destruct (tokens true chunk).
Qed.
Lemma matchChunk_run chunk s : matchChunk chunk s = (λ ts, run_toks ts (Some s)) <$> tokens true chunk.
Proof. apply chunk_loop_run. lia. Qed.

(** ** ASCII names without a slash *)

Definition plain (s : gostring) : Prop := Forall (λ c, ord c < 128 ∧ c ≠ "/"%char) s.
Lemma plain_app s t : plain (s ++ t) ↔ plain s ∧ plain t.
Proof. apply Forall_app. Qed.
Lemma plain_decode d s : plain (d :: s) → decode_rune (d :: s) = (ord d, s).
Proof.
  intros [[Hd _] _]%Forall_cons. unfold decode_rune. cbn [decode]. by rewrite (proj2 (Z.ltb_lt _ _) Hd).
Qed.
Lemma plain_step t s : plain s → tok_step t s = match s with d :: s' => if tok_byte t d then Some s' else None | [] => None end.
Proof.
  intros Hs. destruct s as [|d s]; [done|]. cbn [tok_step]. rewrite plain_decode by done. cbn [fst snd].
  destruct t; cbn [tok_byte]; [done|by destruct (beq d "/")|done|done].
Qed.
(** Matching a chunk takes one byte for each token. *)
Lemma run_plain ts : ∀ s t, plain s →
  run_toks ts (Some s) = Some t ↔ ∃ m, s = m ++ t ∧ Forall2 (λ t c, tok_byte t c = true) ts m.
Proof.
  induction ts as [|tk ts IH]; intros s t Hs; cbn [run_toks].
  { split; [intros [= ->]; by exists []|]. by intros (m & -> & ->%Forall2_nil_inv_l). }
  cbn [mbind option_bind]. rewrite plain_step by done. destruct s as [|d s].
  { rewrite run_none. split; [done|]. intros (m & E & Hm). destruct m; [by apply Forall2_nil_inv_r in Hm|done]. }
  destruct (tok_byte tk d) eqn:Et.
  - apply Forall_cons in Hs as [_ Hs]. rewrite IH by done. split.
    + intros (m & -> & Hm). exists (d :: m). split; [done|by constructor].
    + intros (m & E & Hm). destruct m as [|d' m]; [by apply Forall2_nil_inv_r in Hm|]. injection E as <- ->.
      apply Forall2_cons in Hm as [_ Hm]. by exists m.
  - rewrite run_none. split; [done|]. intros (m & E & Hm). destruct m as [|d' m]; [by apply Forall2_nil_inv_r in Hm|].
    injection E as <- ->. apply Forall2_cons in Hm as [Hc _]. congruence.
Qed.
Definition starless (ts : list tok) : Prop := TStar ∉ ts.
Lemma glob_starless ts ts' s : starless ts → plain s →
  glob (ts ++ ts') s ↔ ∃ t, run_toks ts (Some s) = Some t ∧ glob ts' t.
Proof.
  revert s. induction ts as [|tk ts IH]; intros s Hts Hs; cbn [app run_toks].
  { split; [by exists s|by intros (t & [= <-] & ?)]. }
  apply not_elem_of_cons in Hts as [Hne Hts]. cbn [mbind option_bind]. rewrite plain_step by done.
  assert (glob (tk :: ts ++ ts') s ↔ ∃ c q, s = c :: q ∧ tok_byte tk c = true ∧ glob (ts ++ ts') q) as -> by (by destruct tk).
  split.
  - intros (c & q & -> & Hc & Hq). rewrite Hc. apply Forall_cons in Hs as [_ Hs]. by apply IH.
  - destruct s as [|d s]; [rewrite run_none; by intros (t & ? & _)|]. apply Forall_cons in Hs as [Hd Hs].
    destruct (tok_byte tk d) eqn:Et; [|rewrite run_none; by intros (t & ? & _)].
    intros H. exists d, s. split_and!; [done|done|]. by apply IH.
Qed.
Lemma tokens_starless n : ∀ p ts, (length p ≤ n)%nat → tokens true p = Some ts → starless ts.
Proof.
  induction n as [|n IH]; intros [|c p] ts Hn; cbn [length] in Hn; try lia; try (intros [= <-]; by intros ?%elem_of_nil).
  rewrite tokens_cons. destruct (tok1 true c p) as [[t r]|] eqn:Et; [|done]. cbn [mbind option_bind].
  destruct (tokens true r) as [ts'|] eqn:Er; [|done]. cbn. intros [= <-]. apply not_elem_of_cons. split.
  - unfold tok1 in Et. rewrite andb_false_r in Et. unfold class_tok in Et. destruct (beq c "[").
    + destruct (negation p). destruct (ranges_loop _ _ _) as [[? ?]|]; [|done]. by injection Et as <- _.
    + destruct (beq c "?"); [by injection Et as <- _|]. destruct (beq c "\"); [destruct p; [done|]|]; by injection Et as <- _.
  - apply (IH r); [|done]. apply tok1_shorter in Et. lia.
Qed.

(** ** The matcher and the language *)

Lemma skip_stars_spec p star p' : skip_stars p = (star, p') →
  ∃ k, tokens false p = (λ ts, replicate k TStar ++ ts) <$> tokens false p' ∧ (star = true ↔ k ≠ O) ∧
    (length p' + k = length p)%nat ∧ ∀ r, p' ≠ "*"%char :: r.
Proof.
  revert star p'. induction p as [|c p IH]; intros star p'; cbn [skip_stars].
  { intros [= <- <-]. exists O. by split_and!. }
  destruct (beq c "*") eqn:Ec.
  - destruct (skip_stars p) as [star' q] eqn:Eq. cbn [snd]. intros [= <- <-]. destruct (IH _ _ eq_refl) as (k & Ht & _ & Hl & Hne).
    exists (S k). cbn [length]. split_and!; [|done|lia|done]. rewrite tokens_cons. unfold tok1. rewrite Ec. cbn [negb andb mbind option_bind].
    rewrite Ht. by destruct (tokens false q).
  - intros [= <- <-]. exists O. split_and!; [by destruct (tokens false (c :: p))|done|cbn [length]; lia|].
    intros r [= -> ->]. by vm_compute in Ec.
Qed.
Lemma scan_empty p rest : scan false false p = ([], rest) → (∀ r, p ≠ "*"%char :: r) → p = [].
Proof.
  destruct p as [|c p]; [done|]. cbn [scan negb andb]. rewrite andb_true_r. destruct (beq c "*") eqn:Ec.
  - apply beq_true in Ec as ->. intros _ H. by destruct (H p).
  - cbn [andb]. by destruct (scan _ _ p).
Qed.
(** What [scanChunk] cuts off a pattern. *)
Lemma scanChunk_spec p star chunk rest : scanChunk p = (star, chunk, rest) →
  ∃ k, tokens false p = (a ← tokens true chunk; b ← tokens false rest; Some (replicate k TStar ++ a ++ b)) ∧
    (star = true ↔ k ≠ O) ∧ (p ≠ [] → (length rest < length p)%nat) ∧ (rest = [] ∨ ∃ r, rest = "*"%char :: r) ∧
    (chunk = [] → rest = []).
Proof.
  unfold scanChunk. destruct (skip_stars p) as [star' q] eqn:Es. destruct (scan false false q) as [c r] eqn:Ec.
  intros [= <- <- <-]. apply skip_stars_spec in Es as (k & Ht & Hk & Hl & Hne). exists k.
  pose proof (scan_split q false false) as Hsp. pose proof (scan_tokens (length q) q ltac:(lia)) as Htk. rewrite Ec in Hsp, Htk.
  destruct Hsp as [Hq Hr]. split_and!; [|done| |done|].
  - rewrite Ht, Htk. destruct (tokens true c); [|done]. cbn. by destruct (tokens false r).
  - intros Hp. rewrite Hq, length_app in Hl. destruct c as [|c0 c]; cbn [length] in Hl; [|lia].
    apply scan_empty in Ec; [|done]. subst q. destruct r; [|done]. cbn in *. destruct p; [done|]. cbn. lia.
  - intros ->. apply scan_empty in Ec; [|done]. subst q. by destruct r.
Qed.

Lemma rest_ok_spec n : ∀ p, (length p ≤ n)%nat → rest_ok n p = match tokens false p with Some _ => true | None => false end.
Proof.
  induction n as [|n IH]; intros [|c p] Hn; cbn [length] in Hn; try lia; try done.
  cbn [rest_ok]. destruct (scanChunk (c :: p)) as [[star chunk] rest] eqn:Es.
  destruct (scanChunk_spec _ _ _ _ Es) as (k & Ht & _ & Hl & _). specialize (Hl ltac:(done)). cbn [length] in Hl.
  rewrite matchChunk_run, Ht. destruct (tokens true chunk); [|done]. cbn. rewrite IH by lia. by destruct (tokens false rest).
Qed.

Lemma glob_stars k ts s : k ≠ O → glob (replicate k TStar ++ ts) s ↔ glob (TStar :: ts) s.
Proof.
  destruct k as [|k]; [done|intros _]. revert s. induction k as [|k IH]; intros s; [done|].
  cbn [replicate app]. change (TStar :: TStar :: replicate k TStar ++ ts) with (TStar :: (replicate (S k) TStar ++ ts)). split.
  - intros (p & q & -> & Hp & Hq). apply IH in Hq as (p' & q' & -> & Hp' & Hq'). exists (p ++ p'), q'.
    split_and!; [by rewrite app_assoc| |done]. by rewrite not_elem_of_app.
  - intros H. exists [], s. split_and!; [done|by intros ?%elem_of_nil|by apply IH].
Qed.
Lemma glob_absorb ts d t : plain d → glob (TStar :: ts) t → glob (TStar :: ts) (d ++ t).
Proof.
  intros Hd (p & q & -> & Hp & Hq). exists (d ++ p), q. split_and!; [by rewrite app_assoc| |done].
  rewrite not_elem_of_app. split; [|done]. intros Hin. unfold plain in Hd. rewrite Forall_forall in Hd. by destruct (Hd _ Hin).
Qed.
Lemma app_longer {A : Type} (a b c e : list A) : a ++ b = c ++ e → (length a ≤ length c)%nat → ∃ d, b = d ++ e.
Proof.
  intros E Hl. exists (drop (length a) c). apply (f_equal (drop (length a))) in E.
  rewrite drop_app_length in E. rewrite E, drop_app_le by done. done.
Qed.
(** A match further left leaves more of the text. *)
Lemma run_leaves ts s p q t t' : plain s → s = p ++ q → run_toks ts (Some s) = Some t → run_toks ts (Some q) = Some t' →
  ∃ d, t = d ++ t'.
Proof.
  intros Hs -> H1 H2. assert (plain q) as Hq by (by apply plain_app in Hs as [_ ?]).
  apply run_plain in H1 as (m & E1 & Hm); [|done]. apply run_plain in H2 as (m' & -> & Hm'); [|done].
  rewrite app_assoc in E1. apply (app_longer m t (p ++ m') t'); [done|]. rewrite length_app.
  apply Forall2_length in Hm, Hm'. lia.
Qed.

(** A place where a chunk matches, given that a longer rest is no worse: the
    first one. *)
Definition fits (last : bool) (t : gostring) : Prop := last = true → t = [].
Definition places (toks : list tok) (last strict : bool) (name : gostring) (o : option gostring) : Prop :=
  match o with
  | Some t => fits last t ∧ (∃ p q, name = p ++ q ∧ run_toks toks (Some q) = Some t) ∧
      ∀ p q t', name = p ++ q → (strict = true → p ≠ []) → run_toks toks (Some q) = Some t' → fits last t' → ∃ d, t = d ++ t'
  | None => ∀ p q t', name = p ++ q → (strict = true → p ≠ []) → run_toks toks (Some q) = Some t' → ¬ fits last t'
  end.
Lemma fits_dec last t : (if streq t "" || negb last then fits last t else ¬ fits last t).
Proof.
  unfold fits. destruct (streq t "") eqn:Et; cbn.
  - apply bool_decide_eq_true in Et. done.
  - apply bool_decide_eq_false in Et. destruct last; cbn; [|done]. intros H. by apply Et, H.
Qed.
Lemma try_after_total chunk toks last : tokens true chunk = Some toks → ∀ name, ∃ o, try_after chunk last name = Some o.
Proof.
  intros Ht. induction name as [|c name [o IH]]; cbn [try_after]; [by eexists|]. destruct (beq c "/"); [by eexists|].
  rewrite matchChunk_run, Ht. cbn. destruct (run_toks toks (Some name)); [|by eexists]. destruct (last && _); by eexists.
Qed.
Lemma try_after_places chunk toks last : tokens true chunk = Some toks → ∀ name o, plain name →
  try_after chunk last name = Some o → places toks last true name o.
Proof.
  intros Ht. induction name as [|c name IH]; intros o Hp; cbn [try_after].
  { intros [= <-] p q t' E Hne. destruct p; [by destruct Hne|done]. }
  apply Forall_cons in Hp as [[_ Hc] Hp]. apply beq_false in Hc. rewrite Hc, matchChunk_run, Ht. cbn [fmap option_fmap option_map].
  assert (∀ o, places toks last true name o → (∀ t, run_toks toks (Some name) = Some t → ¬ fits last t) →
    places toks last true (c :: name) o) as Hshift.
  { intros [t|]; unfold places.
    - intros (Hf & (p & q & -> & Hr) & Hbest) Hno. split_and!; [done|by exists (c :: p), q|].
      intros p' q' t' E Hne Hr' Hf'. destruct p' as [|c' p']; [by destruct Hne|]. injection E as <- E.
      destruct p' as [|d p']; [exfalso; cbn [app] in E; rewrite <- E in Hr'; by apply (Hno _ Hr')|]. by apply (Hbest (d :: p') q').
    - intros Hbest Hno p' q' t' E Hne Hr'. destruct p' as [|c' p']; [by destruct Hne|]. injection E as <- E.
      destruct p' as [|d p']; [cbn [app] in E; rewrite <- E in Hr'; by apply Hno|]. by apply (Hbest (d :: p') q'). }
  destruct (run_toks toks (Some name)) as [t|] eqn:Er.
  - pose proof (fits_dec last t) as Hf. destruct (last && negb (streq t "")) eqn:El.
    + intros Ho. apply Hshift; [by apply IH|]. intros t0 [= <-]. apply andb_true_iff in El as [-> E%negb_true_iff]. rewrite E in Hf. done.
    + intros [= <-]. assert (streq t "" || negb last = true) as E by (by destruct last, (streq t "")). rewrite E in Hf.
      split_and!; [done|by exists [c], name|]. intros p' q' t' E' Hne Hr' _. destruct p' as [|c' p']; [by destruct Hne|].
      injection E' as <- E'. by eapply run_leaves.
  - intros Ho. apply Hshift; [by apply IH|done].
Qed.

(** A star, then a chunk: the first place does for the whole. *)
Lemma star_place toks last ts name o : plain name → starless toks → (last = true → ts = []) →
  (last = false → ∃ ts', ts = TStar :: ts') → places toks last false name o →
  glob (TStar :: toks ++ ts) name ↔ match o with Some t => glob ts t | None => False end.
Proof.
  intros Hn Hs Hlast Hmore Ho. split.
  - intros (p & q & -> & Hp & Hq). apply plain_app in Hn as [Hpp Hpq]. apply glob_starless in Hq as (t' & Hr & Hg); [|done|done].
    assert (fits last t') as Hf by (intros Hl; rewrite Hlast in Hg by done; exact Hg).
    destruct o as [t|]; [|by apply (Ho p q t')]. destruct Ho as (Hft & (p0 & q0 & E0 & Hr0) & Hbest).
    destruct (Hbest p q t') as [d Ed]; [done|done|done|done|]. destruct last.
    + by rewrite (Hf eq_refl) in Hg; rewrite (Hft eq_refl).
    + destruct Hmore as [ts' ->]; [done|]. rewrite Ed. apply glob_absorb; [|done].
      assert (plain q0) as Hq0 by (apply (plain_app p0 q0); rewrite <- E0; by apply plain_app).
      apply run_plain in Hr0 as (m & E1 & _); [|done]. rewrite E1, Ed in Hq0. apply plain_app in Hq0 as [_ Hq0]. by apply plain_app in Hq0 as [? _].
  - destruct o as [t|]; [|done]. destruct Ho as (_ & (p & q & -> & Hr) & _). intros Hg. apply plain_app in Hn as [Hpp Hpq].
    exists p, q. split_and!; [done| |].
    + intros Hin. unfold plain in Hpp. rewrite Forall_forall in Hpp. by destruct (Hpp _ Hin).
    + apply glob_starless; [done|done|]. by exists t.
Qed.

(** The match at the current position, when it will do. *)
Definition here (toks : list tok) (last : bool) (name : gostring) : option gostring :=
  match run_toks toks (Some name) with Some t => if streq t "" || negb last then Some t else None | None => None end.
Lemma here_places toks last name t : plain name → here toks last name = Some t → places toks last false name (Some t).
Proof.
  intros Hn. unfold here. destruct (run_toks toks (Some name)) as [t'|] eqn:Er; [|done]. pose proof (fits_dec last t') as Hf.
  destruct (_ || _); [|done]. intros [= ->]. split_and!; [done|by exists [], name|]. intros p q t' E _ Hr _. by eapply run_leaves.
Qed.
Lemma after_places toks last name o : here toks last name = None → places toks last true name o → places toks last false name o.
Proof.
  unfold here. intros Hh. assert (∀ t, run_toks toks (Some name) = Some t → ¬ fits last t) as Hno.
  { intros t Er. rewrite Er in Hh. pose proof (fits_dec last t) as Hf. by destruct (_ || _). }
  destruct o as [t|]; unfold places.
  - intros (Hf & Hx & Hbest). split_and!; [done|done|]. intros p q t' E _ Hr Hf'.
    destruct p as [|c p]; [exfalso; cbn [app] in E; rewrite E in Hno; by apply (Hno t')|]. by apply (Hbest (c :: p) q).
  - intros Hbest p q t' E _ Hr. destruct p as [|c p]; [cbn [app] in E; rewrite E in Hno; by apply Hno|]. by apply (Hbest (c :: p) q).
Qed.
Lemma here_no_star toks last ts name : plain name → starless toks → (last = true → ts = []) →
  glob (toks ++ ts) name ↔ match here toks last name with Some t => glob ts t | None => False end.
Proof.
  intros Hn Hs Hlast. rewrite glob_starless by done. unfold here. destruct (run_toks toks (Some name)) as [t|].
  - destruct (streq t "" || negb last) eqn:E; [split; [by intros (? & [= <-] & ?)|by exists t]|]. split; [|done].
    intros (t' & [= <-] & Hg). apply orb_false_iff in E as [E El%negb_false_iff]. rewrite (Hlast El) in Hg.
    apply bool_decide_eq_false in E. by apply E.
  - split; [|done]. by intros (? & ? & _).
Qed.
Lemma run_rest_plain toks name p q t : plain name → name = p ++ q → run_toks toks (Some q) = Some t → plain t.
Proof.
  intros Hn ->. apply plain_app in Hn as [_ Hq]. intros (m & -> & _)%run_plain; [|done]. by apply plain_app in Hq as [_ ?].
Qed.

Lemma match_loop_spec n : ∀ p name, (length p ≤ n)%nat →
  match tokens false p with
  | None => match_loop n p name = None
  | Some ts => ∃ b, match_loop n p name = Some b ∧ (plain name → (b = true ↔ glob ts name))
  end.
Proof.
  induction n as [|n IH]; intros [|c p] name Hn; cbn [length] in Hn; try lia.
  1, 2: exists (streq name ""); (split; [done|]); intros _; apply bool_decide_eq_true.
  cbn [match_loop]. destruct (scanChunk (c :: p)) as [[star chunk] rest] eqn:Es.
  destruct (scanChunk_spec _ _ _ _ Es) as (k & Ht & Hk & Hl & Hr & Hce). specialize (Hl ltac:(done)). cbn [length] in Hl.
  rewrite Ht. destruct (star && streq chunk "") eqn:Estar.
  { apply andb_true_iff in Estar as [-> ->%bool_decide_eq_true]. rewrite (Hce eq_refl). cbn [tokens tokens_go length mbind option_bind app].
    exists (negb (contains_byte "/" name)). split; [done|]. intros _. rewrite glob_stars by (by apply Hk).
    rewrite negb_true_iff, contains_byte_false. split.
    - intros H. exists name, []. by rewrite app_nil_r.
    - by intros (q & r & -> & Hq & ->); rewrite app_nil_r. }
  rewrite matchChunk_run. destruct (tokens true chunk) as [toks|] eqn:Etoks; [|done].
  cbn [fmap option_fmap option_map mbind option_bind]. set (last := streq rest "").
  change (match run_toks toks (Some name) with Some t => _ | None => None end) with (here toks last name).
  assert (starless toks) as Hstar by (by eapply tokens_starless).
  destruct (tokens false rest) as [ts|] eqn:Erest.
  - assert (last = true → ts = []) as Hlast by (intros ->%bool_decide_eq_true; by injection Erest).
    assert (last = false → ∃ ts', ts = TStar :: ts') as Hmore.
    { intros Hne%bool_decide_eq_false. destruct Hr as [->|[r ->]]; [done|]. rewrite tokens_cons in Erest.
      cbn [tok1] in Erest. change (tok1 false "*" r) with (Some (TStar, r)) in Erest. cbn [mbind option_bind] in Erest.
      destruct (tokens false r) as [ts'|]; [|done]. injection Erest as <-. by exists ts'. }
    assert (∀ t, ∃ b, match_loop n rest t = Some b ∧ (plain t → (b = true ↔ glob ts t))) as IH'.
    { intros t. specialize (IH rest t ltac:(lia)). by rewrite Erest in IH. }
    cbn [app mbind option_bind]. destruct star.
    + assert (k ≠ O) as Hk' by (by apply Hk). assert (∀ o t, plain name → places toks last false name (Some t) → o = Some t → plain t) as Hplain.
      { intros o t Hp (_ & (q & r & Eq & Hrun) & _) _. by eapply run_rest_plain. }
      assert (∀ o, plain name → places toks last false name o →
        (glob (replicate k TStar ++ toks ++ ts) name ↔ match o with Some t => glob ts t | None => False end)) as Hplace.
      { intros o Hp Ho. rewrite glob_stars by done. by apply (star_place toks last). }
      destruct (here toks last name) as [t|] eqn:Eh.
      * destruct (IH' t) as (b & -> & Hb). exists b. split; [done|]. intros Hp. pose proof (here_places _ _ _ _ Hp Eh) as Ho.
        rewrite (Hplace _ Hp Ho). by apply Hb, (Hplain (Some t)).
      * destruct (try_after_total chunk toks last Etoks name) as [o Eo]. rewrite Eo. cbn [mbind option_bind].
        assert (plain name → places toks last false name o) as Ho by (intros Hp; by eapply after_places, try_after_places).
        destruct o as [t|].
        -- destruct (IH' t) as (b & -> & Hb). exists b. split; [done|]. intros Hp. rewrite (Hplace _ Hp (Ho Hp)).
           by apply Hb, (Hplain (Some t)); [|apply Ho|].
        -- rewrite rest_ok_spec, Erest by lia. exists false. split; [done|]. intros Hp. by rewrite (Hplace _ Hp (Ho Hp)).
    + assert (k = O) as -> by (destruct k; [done|]; exfalso; assert (false = true); [by apply Hk|done]). cbn [replicate app].
      destruct (here toks last name) as [t|] eqn:Eh.
      * destruct (IH' t) as (b & -> & Hb). exists b. split; [done|]. intros Hp. rewrite (here_no_star _ last), Eh by done. apply Hb.
        pose proof (here_places _ _ _ _ Hp Eh) as (_ & (q & r & Eq & Hrun) & _). by eapply run_rest_plain.
      * rewrite rest_ok_spec, Erest by lia. exists false. split; [done|]. intros Hp. by rewrite (here_no_star _ last), Eh by done.
  - cbn [app mbind option_bind]. assert (∀ t, match_loop n rest t = None) as IH'.
    { intros t. specialize (IH rest t ltac:(lia)). by rewrite Erest in IH. }
    destruct (here toks last name); [done|]. destruct star.
    + destruct (try_after_total chunk toks last Etoks name) as [[t|] ->]; cbn [mbind option_bind]; [done|].
      by rewrite rest_ok_spec, Erest by lia.
    + by rewrite rest_ok_spec, Erest by lia.
Qed.

Lemma Match_bad pattern name : Match pattern name = None ↔ tokens false pattern = None.
Proof.
  pose proof (match_loop_spec (length pattern) pattern name ltac:(lia)) as H. unfold Match.
  destruct (tokens false pattern); [destruct H as (b & -> & _); done|by rewrite H].
Qed.

(** A pattern is refused exactly when it cannot be read as stars, single
    characters, literal bytes and classes, whatever the name it is tried on; one
    that can be read accepts, of the ASCII names without a slash, exactly those
    of its language, although the matcher never goes back on the place of a
    chunk. *)
Lemma Match_language pattern :
  (∀ name, Match pattern name = None ↔ tokens false pattern = None) ∧
  ∀ ts name, tokens false pattern = Some ts → plain name → (Match pattern name = Some true ↔ glob ts name).
Proof.
  split; [apply Match_bad|]. intros ts name Ht Hp.
  pose proof (match_loop_spec (length pattern) pattern name ltac:(lia)) as H. rewrite Ht in H.
  destruct H as (b & Hb & Hg). unfold Match. rewrite Hb, <- Hg by done. split; [by intros [= ->]|by intros ->].
Qed.

Example Match_slash : Match "*[^x][^x]/*" "ab//" = Some false ∧ tokens false "*[^x][^x]/*" =
  Some [TStar; TClass true [(120, 120)]; TClass true [(120, 120)]; TByte "/"; TStar] ∧ glob [TStar; TByte "b"; TByte "/"; TByte "/"; TStar] "ab//".
Proof.
  split_and!; [by vm_compute..|]. exists (bytes_of "a"), (bytes_of "b//"). split_and!; [done|by apply contains_byte_false|].
  eexists _, _. split_and!; [done|done|]. eexists _, _. split_and!; [done|done|]. eexists _, _. split_and!; [done|done|].
  exists [], []. split_and!; [done|by intros ?%elem_of_nil|done].
Qed.
