(* ===== verification/Policy.v ===== *)
(** * core/policy: what a policy finds in a plan (iface.go, evaluate.go).

    The rules of a policy over the selections of a plan, and the fingerprints
    they are compared with. The messages of findings are left out; the redaction
    of a URL (core/fetch) is the parameter [RedactURL], and a context is never
    cancelled. *)
From S2P Require Export GoGlob Resolve.
#[local] Open Scope Z_scope.

(** ** iface.go *)

Definition SchemaVersion : gostring := "debark.policy/v1".
Definition SeverityInfo : gostring := "info".
Definition SeverityWarn : gostring := "warn".
Definition SeverityDeny : gostring := "deny".
Record Finding := mkFinding {
  fd_Rule : gostring; fd_Severity : gostring; fd_Packages : list gostring; fd_Detail : list (gostring * gostring)
}.
Record Policy := mkPolicy {
  pl_SchemaVersion : gostring; pl_AllowComponents : list gostring; pl_DenyComponents : list gostring;
  pl_AllowPackages : list gostring; pl_DenyPackages : list gostring; pl_RequireSignedPublisher : bool;
  pl_AllowURLInputs : option bool; pl_ApprovedKeys : list gostring; pl_DenyFlags : list gostring;
  pl_DefaultSeverity : gostring
}.
Definition Deniable (findings : list Finding) : bool := existsb (λ f, streq (fd_Severity f) SeverityDeny) findings.

(** ** validate.go: fingerprints *)

Definition hex_upper_rune (c : ascii) : option ascii :=
  if is_digit c || between "A" "F" c then Some c else if between "a" "f" c then Some (upper_byte c) else None.
Fixpoint fingerprint_loop (s : gostring) : option gostring :=
  match s with
  | [] => Some []
  | c :: s =>
      if existsb (beq c) [" "%char; chr 9; chr 10; chr 13] then fingerprint_loop s
      else d ← hex_upper_rune c; ds ← fingerprint_loop s; Some (d :: ds)
  end.
(** A rune above the ASCII ones is none of those accepted, so that bytes do. *)
Definition normalizeFingerprint (s : gostring) : option gostring :=
  let s := trim_space s in
  let s := if (2 <? length s)%nat && (has_prefix "0x" s || has_prefix "0X" s) then drop 2 s else s in
  out ← fingerprint_loop s;
  if (length out =? 40)%nat || (length out =? 64)%nat then Some out else None.

(** ** evaluate.go *)

Section evaluate.
Context `{UnicodeTables} (RedactURL : gostring → gostring).

Definition signedPublisherClaim : list gostring := [VerifiedAPTSigned; VerifiedUserDigest; VerifiedUserSignature].
Definition componentOf (s : Selection) : gostring :=
  if negb (streq (o_Component (Origin_ s)) "") then o_Component (Origin_ s)
  else match cut "/" (Section_ s) with Some (c, _) => c | None => Section_ s end.
Definition isHTTPURL (uri : gostring) : bool :=
  match cut ":" uri with
  | None => false
  | Some (scheme, rest) =>
      negb (streq scheme "") && (streq (to_lower scheme) "http" || streq (to_lower scheme) "https") && has_prefix "//" rest
  end.
Definition matchesAnyFold (l : list gostring) (val : gostring) : bool := existsb (λ v, equal_fold v val) l.
Definition globMatchesAny (patterns : list gostring) (name : gostring) : bool :=
  existsb (λ pat, match Match pat name with Some ok => ok | None => false end) patterns.

(** The usable fingerprints, and how many entries were supplied. *)
Definition approved_step (acc : gset gostring * nat) (k : gostring) : gset gostring * nat :=
  if streq (trim_space k) "" then acc
  else (match normalizeFingerprint k with Some fp => {[fp]} ∪ acc.1 | None => acc.1 end, S acc.2).
Definition approvedKeySet (a b : list gostring) : gset gostring * nat := fold_left approved_step (a ++ b) (∅, O).

Definition found (sev rule : gostring) (s : Selection) (detail : list (gostring * gostring)) : Finding :=
  mkFinding rule sev [Name s] detail.

Definition component_deny (p : Policy) (sev : gostring) (s : Selection) : option Finding :=
  let comp := componentOf s in
  if negb (streq comp "") && matchesAnyFold (pl_DenyComponents p) comp
  then Some (found sev "component-deny" s [(bytes_of "component", comp)]) else None.
Definition component_allow (p : Policy) (sev : gostring) (s : Selection) : option Finding :=
  let comp := componentOf s in
  if streq comp "" || negb (matchesAnyFold (pl_AllowComponents p) comp)
  then Some (found sev "component-allow" s [(bytes_of "component", comp)]) else None.
Definition package_deny (p : Policy) (sev : gostring) (s : Selection) : option Finding :=
  if globMatchesAny (pl_DenyPackages p) (Name s) then Some (found sev "package-deny" s []) else None.
Definition package_allow (p : Policy) (sev : gostring) (s : Selection) : option Finding :=
  if negb (globMatchesAny (pl_AllowPackages p) (Name s)) then Some (found sev "package-allow" s []) else None.
Definition require_signed_publisher (sev : gostring) (s : Selection) : option Finding :=
  if bool_decide (PublisherVerification s ∈ signedPublisherClaim) then None
  else Some (found sev "require-signed-publisher" s [(bytes_of "publisher_verification", PublisherVerification s)]).
Definition allow_url_inputs (sev : gostring) (s : Selection) : option Finding :=
  if streq (Reason s) ReasonExternal && isHTTPURL (URI s)
  then Some (found sev "allow-url-inputs" s [(bytes_of "url", RedactURL (URI s))]) else None.
Definition deny_flags (p : Policy) (sev : gostring) (s : Selection) : option Finding :=
  match List.filter (matchesAnyFold (pl_DenyFlags p)) (Flags s) with
  | [] => None
  | matched => Some (found sev "deny-flags" s [(bytes_of "flags", join "," (sort_strings matched))])
  end.
Definition approved_keys (approved : gset gostring) (sev : gostring) (s : Selection) : option Finding :=
  let raw := trim_space (o_KeyFingerprint (Origin_ s)) in
  if streq raw "" then Some (found sev "approved-keys" s [])
  else match normalizeFingerprint raw with
  | None => Some (found sev "approved-keys" s [(bytes_of "fingerprint", raw)])
  | Some fp => if bool_decide (fp ∈ approved) then None else Some (found sev "approved-keys" s [(bytes_of "fingerprint", fp)])
  end.

Definition rule (on : bool) (check : Selection → option Finding) (sels : list Selection) : list Finding :=
  if on then omap check sels else [].
Definition nonempty {A : Type} (l : list A) : bool := match l with [] => false | _ => true end.
Definition severity (p : Policy) : gostring := if streq (pl_DefaultSeverity p) "" then SeverityWarn else pl_DefaultSeverity p.
Definition evaluate (p : Policy) (selections : list Selection) (approvedKeys : list gostring) : list Finding :=
  let sels := SortSelections selections in
  let sev := severity p in
  let '(approved, supplied) := approvedKeySet (pl_ApprovedKeys p) approvedKeys in
  rule (nonempty (pl_DenyComponents p)) (component_deny p sev) sels ++
  rule (nonempty (pl_AllowComponents p)) (component_allow p sev) sels ++
  rule (nonempty (pl_DenyPackages p)) (package_deny p sev) sels ++
  rule (nonempty (pl_AllowPackages p)) (package_allow p sev) sels ++
  rule (pl_RequireSignedPublisher p) (require_signed_publisher sev) sels ++
  rule (match pl_AllowURLInputs p with Some b => negb b | None => false end) (allow_url_inputs sev) sels ++
  rule (nonempty (pl_DenyFlags p)) (deny_flags p sev) sels ++
  rule (0 <? supplied)%nat (approved_keys approved sev) sels.
(** [Evaluate]; the policy of [Empty] and a plan that is nil find nothing. *)
Definition Evaluate (p : option Policy) (plan : option (list Selection)) (approvedKeys : list gostring) : list Finding :=
  match p, plan with
  | Some p, Some selections => if nonempty selections then evaluate p selections approvedKeys else []
  | _, _ => []
  end.
End evaluate.

(** ** What a policy forbids *)

Section meaning.
Context `{UnicodeTables} (RedactURL : gostring → gostring).

Definition accepts (pattern name : gostring) : Prop := ∃ ts, tokens false pattern = Some ts ∧ glob ts name.
(** The archive component: of the origin, or the first segment of the section. *)
Definition component (s : Selection) (c : gostring) : Prop :=
  (o_Component (Origin_ s) ≠ "" ∧ c = o_Component (Origin_ s)) ∨
  (o_Component (Origin_ s) = "" ∧ ("/"%char ∉ c) ∧ (Section_ s = c ∨ ∃ r, Section_ s = c ++ "/"%char :: r)).
Definition http_url (uri : gostring) : Prop :=
  ∃ scheme rest, uri = scheme ++ "://" ++ rest ∧ (":"%char ∉ scheme) ∧ (to_lower scheme = "http" ∨ to_lower scheme = "https").
(** The key a package's origin claims is one of those supplied, as fingerprints. *)
Definition approved (keys : list gostring) (claim : gostring) : Prop :=
  ∃ k fp, k ∈ keys ∧ normalizeFingerprint k = Some fp ∧ normalizeFingerprint claim = Some fp.

(** The rules, and their names in a finding. *)
Inductive rule_id := ComponentDeny | ComponentAllow | PackageDeny | PackageAllow | SignedPublisher | URLInputs | FlagDeny | KeyAllow.
Definition rule_name (r : rule_id) : gostring :=
  match r with
  | ComponentDeny => "component-deny" | ComponentAllow => "component-allow" | PackageDeny => "package-deny"
  | PackageAllow => "package-allow" | SignedPublisher => "require-signed-publisher" | URLInputs => "allow-url-inputs"
  | FlagDeny => "deny-flags" | KeyAllow => "approved-keys"
  end.
(** A selection breaks a rule of the policy. *)
Inductive violation (p : Policy) (keys : list gostring) (s : Selection) : rule_id → Prop :=
| denied_component c d : component s c → c ≠ "" → d ∈ pl_DenyComponents p → equal_fold d c = true → violation p keys s ComponentDeny
| other_component c : component s c → pl_AllowComponents p ≠ [] →
    (c = "" ∨ ∀ a, a ∈ pl_AllowComponents p → equal_fold a c = false) → violation p keys s ComponentAllow
| denied_package pat : pat ∈ pl_DenyPackages p → accepts pat (Name s) → violation p keys s PackageDeny
| other_package : pl_AllowPackages p ≠ [] → (∀ pat, pat ∈ pl_AllowPackages p → ¬ accepts pat (Name s)) → violation p keys s PackageAllow
| unsigned : pl_RequireSignedPublisher p = true → PublisherVerification s ≠ VerifiedAPTSigned →
    PublisherVerification s ≠ VerifiedUserDigest → PublisherVerification s ≠ VerifiedUserSignature → violation p keys s SignedPublisher
| url_input : pl_AllowURLInputs p = Some false → Reason s = ReasonExternal → http_url (URI s) → violation p keys s URLInputs
| denied_flag f d : f ∈ Flags s → d ∈ pl_DenyFlags p → equal_fold d f = true → violation p keys s FlagDeny
| other_key : (∃ k, k ∈ pl_ApprovedKeys p ++ keys ∧ trim_space k ≠ "") →
    ¬ approved (pl_ApprovedKeys p ++ keys) (o_KeyFingerprint (Origin_ s)) → violation p keys s KeyAllow.

Lemma nonempty_true {A : Type} (l : list A) : nonempty l = true ↔ l ≠ [].
Proof. by destruct l. Qed.
Lemma existsb_elem {A : Type} (f : A → bool) l : existsb f l = true ↔ ∃ x, x ∈ l ∧ f x = true.
Proof. rewrite existsb_exists. by setoid_rewrite list_elem_of_In. Qed.
Lemma elem_of_rule on check sels f : f ∈ rule on check sels ↔ on = true ∧ ∃ s, s ∈ sels ∧ check s = Some f.
Proof. unfold rule. destruct on; [|by rewrite elem_of_nil; naive_solver]. rewrite list_elem_of_omap. naive_solver. Qed.

Lemma componentOf_spec s c : component s c ↔ c = componentOf s.
Proof.
  unfold component, componentOf, streq. case_bool_decide as E; cbn [negb]; [|naive_solver].
  assert (∀ r, Section_ s = c ++ "/"%char :: r → ("/"%char ∉ c) → cut "/" (Section_ s) = Some (c, r)) as Hcut.
  { intros r -> Hc. by apply cut_app. }
  destruct (cut "/" (Section_ s)) as [[a r]|] eqn:Ec.
  - apply cut_Some in Ec as [Es Ha]. split; [|intros ->; right; split_and!; [done|done|right; by exists r]].
    intros [[? _]|(_ & Hc & [Hsec|(r' & E')])]; [done| |by injection (Hcut r' E' Hc)].
    exfalso. apply Hc. rewrite <- Hsec, Es. apply elem_of_app. right. by left.
  - apply cut_None in Ec. split; [|intros ->; right; split_and!; [done|done|by left]].
    intros [[? _]|(_ & Hc & [Hsec|(r' & E')])]; [done|done|by specialize (Hcut r' E' Hc)].
Qed.
Lemma isHTTPURL_spec uri : isHTTPURL uri = true ↔ http_url uri.
Proof.
  unfold isHTTPURL, http_url. split.
  - destruct (cut ":" uri) as [[scheme rest]|] eqn:Ec; [|done]. apply cut_Some in Ec as [-> Hs].
    intros [[_ Hl]%andb_true_iff [r ->]%has_prefix_spec]%andb_true_iff. exists scheme, r. split_and!; [done|done|].
    apply orb_true_iff in Hl as [?%bool_decide_eq_true|?%bool_decide_eq_true]; auto.
  - intros (scheme & rest & -> & Hs & Hl).
    change (scheme ++ "://" ++ rest) with (scheme ++ ":"%char :: ("//" ++ rest)). rewrite cut_app, has_prefix_app, andb_true_r by done.
    destruct scheme; [by destruct Hl|]. destruct Hl as [-> | ->]; done.
Qed.
Lemma globMatchesAny_spec pats name : plain name → globMatchesAny pats name = true ↔ ∃ pat, pat ∈ pats ∧ accepts pat name.
Proof.
  intros Hp. unfold globMatchesAny. rewrite existsb_elem. f_equiv. intros pat. apply and_iff_compat_l. unfold accepts.
  destruct (Match_language pat) as [Hbad Hgood]. destruct (tokens false pat) as [ts|] eqn:Et.
  - specialize (Hgood ts name eq_refl Hp). destruct (Match pat name) as [b|] eqn:Em.
    + split; [intros ->; exists ts; split; [done|]; by apply Hgood|]. intros (ts' & [= <-] & Hg). apply Hgood in Hg. by injection Hg.
    + apply Hbad in Em. done.
  - rewrite (proj2 (Hbad name) eq_refl). split; [done|]. by intros (ts & ? & _).
Qed.
Lemma blank_fingerprint k : trim_space k = "" → normalizeFingerprint k = None.
Proof. unfold normalizeFingerprint. by intros ->. Qed.
Lemma approvedKeySet_spec a b : let '(set, n) := approvedKeySet a b in
  (∀ fp, fp ∈ set ↔ ∃ k, k ∈ a ++ b ∧ normalizeFingerprint k = Some fp) ∧ ((0 <? n)%nat = true ↔ ∃ k, k ∈ a ++ b ∧ trim_space k ≠ "").
Proof.
  unfold approvedKeySet. assert (∀ l acc, let '(set, n) := fold_left approved_step l acc in
    (∀ fp, fp ∈ set ↔ fp ∈ acc.1 ∨ ∃ k, k ∈ l ∧ normalizeFingerprint k = Some fp) ∧
    ((0 <? n)%nat = true ↔ (0 <? acc.2)%nat = true ∨ ∃ k, k ∈ l ∧ trim_space k ≠ "")) as Hgen.
  { induction l as [|k l IH]; intros acc; cbn [fold_left].
    { destruct acc as [set n]. cbn. setoid_rewrite elem_of_nil. naive_solver. }
    specialize (IH (approved_step acc k)). destruct (fold_left approved_step l (approved_step acc k)) as [set n].
    destruct IH as [IH1 IH2]. unfold approved_step in *. setoid_rewrite elem_of_cons.
    unfold streq in *. case_bool_decide as Eb.
    - apply blank_fingerprint in Eb as Hb. split; [intros fp; rewrite IH1|rewrite IH2]; naive_solver.
    - cbn [fst snd] in *. split.
      + intros fp. rewrite IH1. destruct (normalizeFingerprint k) as [fp'|] eqn:En; [rewrite elem_of_union, elem_of_singleton|]; naive_solver.
      + rewrite IH2. split; [intros _; right; exists k; split; [by left|done]|]. intros _. by left. }
  specialize (Hgen (a ++ b) (∅, O)). destruct (fold_left _ _ _) as [set n]. cbn [fst snd] in Hgen. destruct Hgen as [H1 H2].
  split; [intros fp; rewrite H1; set_solver|rewrite H2; naive_solver].
Qed.

(** A rule of the code says what it should: its findings carry the rule's name
    and the package's, and it has one exactly on a violation. *)
Definition sound_rule (p : Policy) (keys : list gostring) (r : rule_id) (on : bool) (check : Selection → option Finding) : Prop :=
  (∀ s f, check s = Some f → fd_Rule f = rule_name r ∧ fd_Packages f = [Name s] ∧ fd_Severity f = severity p) ∧
  (∀ s, plain (Name s) → (on = true ∧ is_Some (check s) ↔ violation p keys s r)).

Lemma matchesAnyFold_spec l v : matchesAnyFold l v = true ↔ ∃ d, d ∈ l ∧ equal_fold d v = true.
Proof. apply existsb_elem. Qed.
Lemma matchesAnyFold_false l v : matchesAnyFold l v = false ↔ ∀ d, d ∈ l → equal_fold d v = false.
Proof.
  rewrite <- not_true_iff_false, matchesAnyFold_spec. setoid_rewrite <- not_true_iff_false. naive_solver.
Qed.
Lemma if_some {A : Type} (b : bool) (x : A) : is_Some (if b then Some x else None) ↔ b = true.
Proof. destruct b; split; [done|by eexists|by intros [? ?]|done]. Qed.

Ltac shape := intros ? ? ; repeat case_match; intros ?; simplify_eq; done.
Lemma component_deny_sound p keys : sound_rule p keys ComponentDeny (nonempty (pl_DenyComponents p)) (component_deny p (severity p)).
Proof.
  split; [unfold component_deny; shape|]. intros s _. unfold component_deny. cbv zeta. rewrite if_some, nonempty_true, andb_true_iff, negb_true_iff, matchesAnyFold_spec.
  split.
  - intros (_ & Hc%bool_decide_eq_false & d & Hd & He). by apply (denied_component _ _ _ (componentOf s) d); [apply componentOf_spec|..].
  - inversion 1 as [c d Hc Hne Hd He| | | | | | |]. apply componentOf_spec in Hc as ->.
    split_and!; [by intros E; rewrite E in Hd; apply elem_of_nil in Hd|by apply bool_decide_eq_false|by exists d].
Qed.
Lemma component_allow_sound p keys : sound_rule p keys ComponentAllow (nonempty (pl_AllowComponents p)) (component_allow p (severity p)).
Proof.
  split; [unfold component_allow; shape|]. intros s _. unfold component_allow. cbv zeta. rewrite if_some, nonempty_true, orb_true_iff, negb_true_iff, matchesAnyFold_false.
  unfold streq. rewrite bool_decide_eq_true. split.
  - intros (Hon & Hc). by apply (other_component _ _ _ (componentOf s)); [apply componentOf_spec|..].
  - inversion 1 as [|c Hc Hon Hor| | | | | |]. by apply componentOf_spec in Hc as ->.
Qed.
Lemma package_deny_sound p keys : sound_rule p keys PackageDeny (nonempty (pl_DenyPackages p)) (package_deny p (severity p)).
Proof.
  split; [unfold package_deny; shape|]. intros s Hp. unfold package_deny. rewrite if_some, nonempty_true, globMatchesAny_spec by done. split.
  - intros (_ & pat & Hin & Ha). by eapply denied_package.
  - inversion 1 as [| |pat Hin Ha| | | | |]. split; [by intros E; rewrite E in Hin; apply elem_of_nil in Hin|by exists pat].
Qed.
Lemma package_allow_sound p keys : sound_rule p keys PackageAllow (nonempty (pl_AllowPackages p)) (package_allow p (severity p)).
Proof.
  split; [unfold package_allow; shape|]. intros s Hp. unfold package_allow.
  rewrite if_some, nonempty_true, negb_true_iff, <- not_true_iff_false, globMatchesAny_spec by done. split.
  - intros (Hon & Hno). apply other_package; [done|]. intros pat Hin Ha. apply Hno. by exists pat.
  - inversion 1 as [| | |Hon Hno| | | |]. split; [done|]. intros (pat & Hin & Ha). by eapply Hno.
Qed.
Lemma signed_sound p keys : sound_rule p keys SignedPublisher (pl_RequireSignedPublisher p) (require_signed_publisher (severity p)).
Proof.
  split; [unfold require_signed_publisher; shape|]. intros s _. unfold require_signed_publisher, signedPublisherClaim. case_bool_decide as Hin.
  - split; [by intros [_ [? ?]]|]. inversion 1. rewrite !elem_of_cons in Hin. by destruct Hin as [?|[?|[?|?%elem_of_nil]]].
  - rewrite !elem_of_cons in Hin. split; [intros [Hon _]; apply unsigned; tauto|]. inversion 1. split; [done|by eexists].
Qed.
Lemma url_sound p keys :
  sound_rule p keys URLInputs (match pl_AllowURLInputs p with Some b => negb b | None => false end) (allow_url_inputs RedactURL (severity p)).
Proof.
  split; [unfold allow_url_inputs; shape|]. intros s _. unfold allow_url_inputs. rewrite if_some, andb_true_iff, isHTTPURL_spec. unfold streq.
  rewrite bool_decide_eq_true. split.
  - intros (Hon & Hr & Hu). apply url_input; [|done|done]. destruct (pl_AllowURLInputs p) as [[]|]; done.
  - inversion 1 as [| | | | |Hon Hr Hu| |]. by rewrite Hon.
Qed.
Lemma flags_sound p keys : sound_rule p keys FlagDeny (nonempty (pl_DenyFlags p)) (deny_flags p (severity p)).
Proof.
  split; [unfold deny_flags; shape|]. intros s _. unfold deny_flags. rewrite nonempty_true.
  assert (List.filter (matchesAnyFold (pl_DenyFlags p)) (Flags s) ≠ [] ↔ ∃ f d, f ∈ Flags s ∧ d ∈ pl_DenyFlags p ∧ equal_fold d f = true) as Hf.
  { split.
    - destruct (List.filter _ _) as [|f l] eqn:El; [done|]. intros _.
      assert (f ∈ List.filter (matchesAnyFold (pl_DenyFlags p)) (Flags s)) as Hin by (rewrite El; by left).
      apply elem_of_lfilter in Hin as [Hin (d & Hd & He)%matchesAnyFold_spec]. by exists f, d.
    - intros (f & d & Hin & Hd & He) E. assert (f ∈ List.filter (matchesAnyFold (pl_DenyFlags p)) (Flags s)) as Hx.
      { apply elem_of_lfilter. split; [done|]. apply matchesAnyFold_spec. by exists d. }
      rewrite E in Hx. by apply elem_of_nil in Hx. }
  split.
  - intros (_ & Hs). assert (List.filter (matchesAnyFold (pl_DenyFlags p)) (Flags s) ≠ []) as Hne by (intros E; rewrite E in Hs; by destruct Hs).
    apply Hf in Hne as (f & d & Hin & Hd & He). by apply (denied_flag _ _ _ f d).
  - inversion 1 as [| | | | | |f d Hin Hd He|]. split; [by intros E; rewrite E in Hd; apply elem_of_nil in Hd|].
    assert (List.filter (matchesAnyFold (pl_DenyFlags p)) (Flags s) ≠ []) as Hne by (apply Hf; by exists f, d).
    destruct (List.filter _ _); [done|by eexists].
Qed.
Lemma keys_sound p keys : let '(set, n) := approvedKeySet (pl_ApprovedKeys p) keys in
  sound_rule p keys KeyAllow (0 <? n)%nat (approved_keys set (severity p)).
Proof.
  pose proof (approvedKeySet_spec (pl_ApprovedKeys p) keys) as Hk. destruct (approvedKeySet _ _) as [set n]. destruct Hk as [Hset Hn].
  split; [unfold approved_keys; shape|]. intros s _. rewrite Hn.
  assert (is_Some (approved_keys set (severity p) s) ↔ ¬ approved (pl_ApprovedKeys p ++ keys) (o_KeyFingerprint (Origin_ s))) as ->.
  { unfold approved_keys, approved. cbv zeta. unfold streq.
    assert (normalizeFingerprint (trim_space (o_KeyFingerprint (Origin_ s))) = normalizeFingerprint (o_KeyFingerprint (Origin_ s))) as Etrim.
    { unfold normalizeFingerprint. by rewrite trim_space_idem. }
    case_bool_decide as Eb.
    - apply blank_fingerprint in Eb. rewrite Eb. split; [|by eexists]. intros _ (k & fp & _ & _ & ?). done.
    - rewrite Etrim. destruct (normalizeFingerprint (o_KeyFingerprint (Origin_ s))) as [fp|].
      + case_bool_decide as Hin; rewrite Hset in Hin.
        * split; [by intros [? ?]|]. intros Hno. exfalso. apply Hno. destruct Hin as (k & ? & ?). by exists k, fp.
        * split; [|by eexists]. intros _ (k & fp' & ? & ? & [= <-]). apply Hin. by exists k.
      + split; [|by eexists]. intros _ (k & fp & _ & _ & ?). done. }
  split; [intros [H1 H2]; by apply other_key|]. inversion 1. split; done.
Qed.

(** Every finding of an evaluation is of a violation, and the other way round. *)
Lemma evaluate_hits p sels keys : Forall (λ s, plain (Name s)) sels →
  (∀ f, f ∈ evaluate RedactURL p sels keys → fd_Severity f = severity p ∧
     ∃ s r, s ∈ sels ∧ violation p keys s r ∧ fd_Rule f = rule_name r ∧ fd_Packages f = [Name s]) ∧
  (∀ s r, s ∈ sels → violation p keys s r → ∃ f, f ∈ evaluate RedactURL p sels keys ∧ fd_Rule f = rule_name r ∧ fd_Packages f = [Name s]).
Proof.
  intros Hplain. rewrite Forall_forall in Hplain. unfold evaluate. pose proof (keys_sound p keys) as Hkeys.
  destruct (approvedKeySet (pl_ApprovedKeys p) keys) as [set n].
  assert (∀ s, s ∈ SortSelections sels ↔ s ∈ sels) as Hsort by (intros s; unfold SortSelections; by rewrite elem_of_sort_by).
  assert (∀ r on check, sound_rule p keys r on check → (∀ f, f ∈ rule on check (SortSelections sels) → fd_Severity f = severity p ∧
     ∃ s r, s ∈ sels ∧ violation p keys s r ∧ fd_Rule f = rule_name r ∧ fd_Packages f = [Name s])) as Hto.
  { intros r on check [Hshape Hiff] f (Hon & s & Hs%Hsort & Hc)%elem_of_rule. destruct (Hshape s f Hc) as (H1 & H2 & H3). split; [done|].
    exists s, r. split_and!; [done| |done|done]. apply Hiff; [by apply Hplain|]. split; [done|by eexists]. }
  assert (∀ s r on check, s ∈ sels → violation p keys s r → sound_rule p keys r on check →
    ∃ f, f ∈ rule on check (SortSelections sels) ∧ fd_Rule f = rule_name r ∧ fd_Packages f = [Name s]) as Hfrom.
  { intros s r on check Hs Hv [Hshape Hiff]. apply Hiff in Hv as [Hon [f Hc]]; [|by apply Hplain]. destruct (Hshape s f Hc) as (H1 & H2 & _).
    exists f. split_and!; [|done|done]. apply elem_of_rule. split; [done|]. exists s. split; [by apply Hsort|done]. }
  split.
  - intros f Hf. rewrite !elem_of_app in Hf.
    destruct Hf as [Hf|[Hf|[Hf|[Hf|[Hf|[Hf|[Hf|Hf]]]]]]]; (eapply Hto; [|exact Hf]); eauto using component_deny_sound, component_allow_sound, package_deny_sound, package_allow_sound, signed_sound, url_sound, flags_sound.
  - intros s r Hs Hv.
    destruct r;
      [pose proof (component_deny_sound p keys) as Hr|pose proof (component_allow_sound p keys) as Hr|pose proof (package_deny_sound p keys) as Hr
      |pose proof (package_allow_sound p keys) as Hr|pose proof (signed_sound p keys) as Hr|pose proof (url_sound p keys) as Hr
      |pose proof (flags_sound p keys) as Hr|pose proof Hkeys as Hr];
      destruct (Hfrom _ _ _ _ Hs Hv Hr) as (f & Hf & Hshape); exists f; (split; [|exact Hshape]); rewrite !elem_of_app; tauto.
Qed.

(** (C37) A policy denies exactly what it says: with plain package names, an
    evaluation finds each violation of each rule, under the rule's name and the
    package's, and nothing else, all at the policy's severity; so that the
    plan is denied exactly when that severity is [deny] and some selection
    breaks some rule. The rules are allow-lists where they can be: a component,
    name, publisher claim or archive key that is not recognised is a
    violation, and a supplied list of keys none of which is usable approves
    no package. *)
Theorem Evaluate_spec p sels keys : Forall (λ s, plain (Name s)) sels →
  let fs := Evaluate RedactURL (Some p) (Some sels) keys in
  (∀ f, f ∈ fs → fd_Severity f = severity p ∧
     ∃ s r, s ∈ sels ∧ violation p keys s r ∧ fd_Rule f = rule_name r ∧ fd_Packages f = [Name s]) ∧
  (∀ s r, s ∈ sels → violation p keys s r → ∃ f, f ∈ fs ∧ fd_Rule f = rule_name r ∧ fd_Packages f = [Name s]) ∧
  (Deniable fs = true ↔ severity p = SeverityDeny ∧ ∃ s r, s ∈ sels ∧ violation p keys s r).
Proof.
  intros Hp. cbv zeta. assert (Evaluate RedactURL (Some p) (Some sels) keys = evaluate RedactURL p sels keys ∨ sels = []) as [-> | ->].
  { destruct sels; [by right|by left]. }
  - destruct (evaluate_hits p sels keys Hp) as [H1 H2]. split_and!; [done|done|]. unfold Deniable. rewrite existsb_elem. split.
    + intros (f & Hf & Hs%bool_decide_eq_true). destruct (H1 f Hf) as (Hsev & s & r & Hin & Hv & _). split; [by rewrite <- Hsev|by exists s, r].
    + intros (Hsev & s & r & Hin & Hv). destruct (H2 s r Hin Hv) as (f & Hf & _). exists f. split; [done|].
      apply bool_decide_eq_true. destruct (H1 f Hf) as [-> _]. done.
  - cbn. split_and!; [by intros f ?%elem_of_nil|by intros s r ?%elem_of_nil|]. split; [done|]. by intros (_ & s & r & ?%elem_of_nil & _).
Qed.
End meaning.

Definition sample_policy : Policy :=
  mkPolicy SchemaVersion [bytes_of "main"] [] [bytes_of "lib*"; bytes_of "nginx"] [bytes_of "*-dbg"] true (Some false)
    [bytes_of "0x6ed0 e7b8 2643 e131 78de 8fd6 0be7 a1f2 d4c3 b5a6"] [] SeverityDeny.
Definition sample_selection (name component fingerprint : gostring) : Selection :=
  mkSelection name "amd64" "1" [] [] [] 0 [] [] (mkOrigin [] [] [] component [] fingerprint) [] VerifiedAPTSigned false [] [] false.
Definition sample_plan : list Selection :=
  [sample_selection "nginx" "main" "6ED0E7B82643E13178DE8FD60BE7A1F2D4C3B5A6"; sample_selection "libc6-dbg" "universe" "6ED0E7B8"].
Example sample_findings :
  map (λ f, (fd_Rule f, fd_Packages f)) (@Evaluate ascii_tables id (Some sample_policy) (Some sample_plan) []) =
    [(bytes_of "component-allow", [bytes_of "libc6-dbg"]); (bytes_of "package-deny", [bytes_of "libc6-dbg"]);
     (bytes_of "approved-keys", [bytes_of "libc6-dbg"])].
Proof. by vm_compute. Qed.

Lemma Evaluate_spec_witness :
  @Deniable (@Evaluate ascii_tables id (Some sample_policy) (Some sample_plan) []) = true ∧
  ∃ s r, s ∈ sample_plan ∧ @violation ascii_tables sample_policy [] s r.
Proof.
  assert (Forall (λ s, plain (Name s)) sample_plan) as Hp.
  { repeat apply Forall_cons_2; [..|apply Forall_nil_2]; apply (bool_decide_unpack _); vm_compute; exact I. }
  assert (Deniable (@Evaluate ascii_tables id (Some sample_policy) (Some sample_plan) []) = true) as Hd by (vm_compute; reflexivity).
  destruct (@Evaluate_spec ascii_tables id sample_policy sample_plan [] Hp) as (_ & _ & H). exact (conj Hd (proj2 (proj1 H Hd))).
Defined.
