(* ===== verification/JsonFold.v ===== *)
(** * [json.Unmarshal] into a struct without a prior shape check.

    Member names match a field up to letter case, every matching member is
    decoded into the field in document order ([null] leaves it, an array
    reuses the elements already there), other members are ignored. *)
From S2P Require Export JsonText.
#[local] Open Scope Z_scope.

Section unmarshal.
Context `{UnicodeTables}.

(** Decoding into an existing value. *)
Definition into (A : Type) : Type := json → A → result decode_error A.

Definition into_string : into gostring := λ v old,
  match v with JNull => Ok old | JStr s => Ok s | _ => Err UnmarshalTypeError end.
Definition into_int64 : into Z := λ v old,
  match v with
  | JNull => Ok old
  | JNum lit => match parse_int64 lit with Some n => Ok n | None => Err UnmarshalTypeError end
  | _ => Err UnmarshalTypeError
  end.
Fixpoint into_items {A} (f : into A) (zero : A) (items : list json) (old : list A) : result decode_error (list A) :=
  match items with
  | [] => Ok []
  | v :: rest =>
      x ← f v (match old with o :: _ => o | [] => zero end);
      xs ← into_items f zero rest (match old with _ :: os => os | [] => [] end);
      Ok (x :: xs)
  end.
Definition into_slice {A} (f : into A) (zero : A) : into (list A) := λ v old,
  match v with
  | JNull => Ok []
  | JArr items => into_items f zero items old
  | _ => Err UnmarshalTypeError
  end.

(** The values of the members that name the field [k], in document order. *)
Definition values (k : gostring) (members : list (gostring * json)) : list json :=
  map snd (List.filter (λ kv, equal_fold kv.1 k) members).
Fixpoint into_all {A} (f : into A) (vs : list json) (old : A) : result decode_error A :=
  match vs with
  | [] => Ok old
  | v :: rest => x ← f v old; into_all f rest x
  end.
(** A struct: [f] reads the members. *)
Definition into_struct {A} (f : list (gostring * json) → A → result decode_error A) : into A := λ v old,
  match v with JNull => Ok old | JObj members => f members old | _ => Err UnmarshalTypeError end.
(** One field. *)
Definition into_field {A} (f : into A) (members : list (gostring * json)) (k : gostring) (old : A) : result decode_error A :=
  into_all f (values k members) old.

(** ** Reading an encoded struct *)

Fixpoint only_match (n : nat) (k : gostring) (names : list gostring) : bool :=
  match names, n with
  | [], _ => true
  | k' :: names', O => equal_fold k' k && forallb (λ k', negb (equal_fold k' k)) names'
  | k' :: names', S n' => negb (equal_fold k' k) && only_match n' k names'
  end.

Lemma values_none k fs : forallb (λ k', negb (equal_fold k' k)) (map fst fs) = true → values k (present fs) = [].
Proof.
  unfold values. induction fs as [|[k' [v|]] fs IH]; cbn [map fst forallb present List.filter]; [done|..];
    intros [E%negb_true_iff Hf]%andb_true_iff; [rewrite E|]; auto.
Qed.

Lemma values_present fs n k o :
  fs !! n = Some (k, o) → only_match n k (map fst fs) = true →
  values k (present fs) = match o with Some v => [v] | None => [] end.
Proof.
  revert n. induction fs as [|[k' o'] fs IH]; intros n Hn; [done|].
  destruct n as [|n]; simpl in Hn; cbn [map fst only_match]; intros [Hk Hf]%andb_true_iff.
  - simplify_eq. destruct o as [v|]; cbn [present].
    + unfold values. cbn [List.filter fst]. rewrite Hk. cbn [map snd]. f_equal. by apply values_none.
    + by apply values_none.
  - apply negb_true_iff in Hk. destruct o' as [v|]; cbn [present]; [|by eapply IH].
    unfold values. cbn [List.filter fst]. rewrite Hk. by eapply IH.
Qed.

Lemma into_enc_string s old : into_all into_string (match enc_string s with Some v => [v] | None => [] end) old = Ok s.
Proof. done. Qed.
Lemma into_omit_string s : into_all into_string (match omit_string s with Some v => [v] | None => [] end) [] = Ok s.
Proof. by destruct s. Qed.
Lemma into_enc_int n old :
  min_int64 ≤ n ≤ max_int64 → into_all into_int64 (match enc_int n with Some v => [v] | None => [] end) old = Ok n.
Proof. intros Hn. simpl. by rewrite parse_itoa. Qed.
Lemma into_items_map {A} (f : into A) zero (e : A → json) l :
  (∀ x, x ∈ l → f (e x) zero = Ok x) → into_items f zero (map e l) [] = Ok l.
Proof.
  induction l as [|x l IH]; intros Hl; cbn [map into_items]; [done|].
  rewrite Hl by (by left). simpl. rewrite IH; [done|]. intros y Hy. apply Hl. by right.
Qed.
Lemma into_enc_slice {A} (f : into A) zero (e : A → json) l :
  (∀ x, x ∈ l → f (e x) zero = Ok x) →
  into_all (into_slice f zero) (match enc_slice e l with Some v => [v] | None => [] end) [] = Ok l.
Proof. intros Hl. simpl. by rewrite into_items_map. Qed.
Lemma into_omit_slice {A} (f : into A) zero (e : A → json) l :
  (∀ x, x ∈ l → f (e x) zero = Ok x) →
  into_all (into_slice f zero) (match omit_slice e l with Some v => [v] | None => [] end) [] = Ok l.
Proof. intros Hl. destruct l; [done|]. cbn [omit_slice into_all into_slice]. by rewrite into_items_map. Qed.
Lemma into_omit_strings l :
  into_all (into_slice into_string []) (match omit_slice JStr l with Some v => [v] | None => [] end) [] = Ok l.
Proof. by apply into_omit_slice. Qed.
End unmarshal.

(** Rewrite every field of an encoded struct with its value. *)
Ltac fold_fields :=
  repeat match goal with
  | |- context [into_field ?f (present ?fs) ?k ?old] =>
      let n := json_find k fs in
      unfold into_field at 1;
      erewrite (values_present fs n k) by
        first [reflexivity | cbn [map fst]; vm_compute; reflexivity]
  end.
