(* ===== verification/Clock.v ===== *)
(** * core/canonical/canonical.go: the artefact clock.

    [Time], [EffectiveTime] and [ParseTime] over Go's [time] package: an instant
    is its Unix seconds, the calendar the proleptic Gregorian one, and
    [time.Parse] with the RFC 3339 layout as lenient as Go's (an hour of one
    digit, a fraction after a comma, an offset of up to 24:60). *)
From S2P Require Export GoText Dferr.
#[local] Open Scope Z_scope.

(** ** The calendar *)

(** The number of the day, from 1970-01-01: the year starts in March, eras of 400
    years have 146097 days. *)
Definition days_from_civil (y m d : Z) : Z :=
  let y := if m <=? 2 then y - 1 else y in
  let era := y / 400 in
  let yoe := y mod 400 in
  let doy := (153 * (if 2 <? m then m - 3 else m + 9) + 2) / 5 + d - 1 in
  era * 146097 + (yoe * 365 + yoe / 4 - yoe / 100 + doy) - 719468.
Definition civil_from_days (n : Z) : Z * Z * Z :=
  let z := n + 719468 in
  let era := z / 146097 in
  let doe := z mod 146097 in
  let yoe := (doe - doe / 1460 + doe / 36524 - doe / 146096) / 365 in
  let doy := doe - (365 * yoe + yoe / 4 - yoe / 100) in
  let mp := (5 * doy + 2) / 153 in
  let d := doy - (153 * mp + 2) / 5 + 1 in
  let m := if mp <? 10 then mp + 3 else mp - 9 in
  (yoe + era * 400 + (if m <=? 2 then 1 else 0), m, d).
Definition is_leap (y : Z) : bool := (y mod 4 =? 0) && (negb (y mod 100 =? 0) || (y mod 400 =? 0)).
Definition days_in (m y : Z) : Z :=
  if m =? 2 then (if is_leap y then 29 else 28)
  else if (m =? 4) || (m =? 6) || (m =? 9) || (m =? 11) then 30 else 31.

(** ** Formatting: [2006-01-02T15:04:05Z] *)

(** [appendInt]: at least [width] digits, the sign before the padding. *)
Definition pad_int (width : nat) (n : Z) : gostring :=
  let ds := udigits (Z.abs n) in
  (if n <? 0 then ["-"%char] else []) ++ replicate (width - length ds) "0"%char ++ ds.
Definition format_utc (sec : Z) : gostring :=
  let '(y, m, d) := civil_from_days (sec / 86400) in
  let s := sec mod 86400 in
  pad_int 4 y ++ "-" ++ pad_int 2 m ++ "-" ++ pad_int 2 d ++ "T"
  ++ pad_int 2 (s / 3600) ++ ":" ++ pad_int 2 (s / 60 mod 60) ++ ":" ++ pad_int 2 (s mod 60) ++ "Z".

(** ** [time.Parse(time.RFC3339, s)] *)

(** [getnum]: two digits, or one when the field is not fixed. *)
Definition getnum (fixed : bool) (s : gostring) : option (Z * gostring) :=
  match s with
  | a :: r =>
      if negb (is_digit a) then None
      else match r with
      | b :: r' => if is_digit b then Some (digit_val a * 10 + digit_val b, r')
                   else if fixed then None else Some (digit_val a, r)
      | [] => if fixed then None else Some (digit_val a, [])
      end
  | [] => None
  end.
Definition skip_byte (c : ascii) (s : gostring) : option gostring := cut_prefix [c] s.
Definition in_bounds (lo hi : Z) (p : Z * gostring) : option (Z * gostring) :=
  if (lo <=? p.1) && (p.1 <=? hi) then Some p else None.
Definition getfield (fixed : bool) (lo hi : Z) (s : gostring) : option (Z * gostring) := getnum fixed s ≫= in_bounds lo hi.
Definition parse_year (s : gostring) : option (Z * gostring) :=
  if Nat.leb 4 (length s) && forallb is_digit (take 4 s) then Some (decimal (take 4 s), drop 4 s) else None.
(** A fraction of the second, with its digits dropped. *)
Fixpoint skip_digits (s : gostring) : gostring :=
  match s with c :: r => if is_digit c then skip_digits r else s | [] => [] end.
Definition skip_fraction (s : gostring) : gostring :=
  match s with
  | p :: d :: r => if (beq p "." || beq p ",") && is_digit d then skip_digits r else s
  | _ => s
  end.
(** The offset from UTC in seconds; the text must end here. *)
Definition parse_zone (s : gostring) : option Z :=
  match s with
  | z :: r =>
      if beq z "Z" then match r with [] => Some 0 | _ => None end
      else match r with
      | [h1; h2; c; m1; m2] =>
          if negb (beq c ":") then None
          else '(h, _) ← getnum true [h1; h2]; '(m, _) ← getnum true [m1; m2];
            if (24 <? h) || (60 <? m) then None
            else let off := (h * 60 + m) * 60 in
              if beq z "+" then Some off else if beq z "-" then Some (- off) else None
      | _ => None
      end
  | [] => None
  end.
Definition parse_rfc3339 (s : gostring) : option Z :=
  '(y, s) ← parse_year s; s ← skip_byte "-" s;
  '(mo, s) ← getfield true 1 12 s; s ← skip_byte "-" s;
  '(d, s) ← getnum true s; s ← skip_byte "T" s;
  '(h, s) ← getfield false 0 23 s; s ← skip_byte ":" s;
  '(mi, s) ← getfield true 0 59 s; s ← skip_byte ":" s;
  '(sec, s) ← getfield true 0 59 s;
  off ← parse_zone (skip_fraction s);
  if (1 <=? d) && (d <=? days_in mo y)
  then Some (days_from_civil y mo d * 86400 + h * 3600 + mi * 60 + sec - off) else None.

(** ** The functions of the package *)

(** A time's nanoseconds are cut off: an instant here is whole seconds. *)
Definition Time (sec : Z) : gostring := format_utc sec.
Definition ParseTime (s : gostring) : option Z := parse_rfc3339 s.
Definition SourceDateEpochVar : gostring := "SOURCE_DATE_EPOCH".
(** [raw] is the value of the variable, [now] the clock. *)
Definition EffectiveTime (raw : gostring) (now : Z) : result goerror gostring :=
  if streq raw "" then Ok (Time now)
  else match parse_int64 raw with
  | Some sec => if sec <? 0 then Err (New Usage (SourceDateEpochVar ++ "=" ++ raw ++ " is not a valid Unix timestamp")) else Ok (Time sec)
  | None => Err (New Usage (SourceDateEpochVar ++ "=" ++ raw ++ " is not a valid Unix timestamp"))
  end.

(** ** The calendar is a bijection *)

Ltac divmod := Z.div_mod_to_equations; lia.

(** [f] on [k] numbers from [n], by computation. *)
Fixpoint all_from (f : Z → bool) (k : nat) (n : Z) : bool :=
  match k with O => true | S k' => f n && all_from f k' (n + 1) end.
Lemma all_from_spec f k : ∀ n, all_from f k n = true → ∀ i, n ≤ i < n + Z.of_nat k → f i = true.
Proof.
  induction k as [|k IH]; intros n Hk i Hi; [lia|]. apply andb_true_iff in Hk as [H1 H2].
  destruct (decide (i = n)) as [->|]; [done|]. apply (IH (n + 1)); [done|lia].
Qed.
(** The year of a day of an era, and the first day of a year of it. *)
Definition year_of (doe : Z) : Z := (doe - doe / 1460 + doe / 36524 - doe / 146096) / 365.
Definition first_day (y : Z) : Z := 365 * y + y / 4 - y / 100 + y / 400.
Lemma year_of_mono a b : 0 ≤ a ≤ b → b < 146097 → year_of a ≤ year_of b.
Proof. intros H1 H2. unfold year_of. apply Z.div_le_mono; [lia|]. divmod. Qed.
Definition year_table (y : Z) : bool :=
  (year_of (first_day y) =? y) && (year_of (first_day (y + 1) - 1) =? y)
  && (is_leap (y + 1) || (first_day (y + 1) - first_day y <=? 365)) && (first_day (y + 1) - first_day y <=? 366).
Lemma years_ok y : 0 ≤ y < 400 → year_table y = true.
Proof. intros H. apply (all_from_spec year_table 400 0); [vm_compute; reflexivity|lia]. Qed.
Lemma year_of_spec doe : 0 ≤ doe < 146097 → 0 ≤ year_of doe < 400 ∧ first_day (year_of doe) ≤ doe < first_day (year_of doe + 1).
Proof.
  intros H. pose proof (year_of_mono 0 doe ltac:(lia) ltac:(lia)) as H0. change (year_of 0) with 0 in H0.
  pose proof (year_of_mono doe 146096 ltac:(lia) ltac:(lia)) as H1. change (year_of 146096) with 399 in H1.
  set (y := year_of doe) in *. split; [lia|]. split; apply Z.nlt_ge || apply Z.nle_gt; intros Hc.
  - destruct (decide (y = 0)) as [E|]; [rewrite E in Hc; change (first_day 0) with 0 in Hc; lia|].
    pose proof (years_ok (y - 1) ltac:(lia)) as Hy. unfold year_table in Hy. bsplit. replace (y - 1 + 1) with y in * by lia.
    assert (first_day y ≤ 146097) by (unfold first_day; divmod).
    pose proof (year_of_mono doe (first_day y - 1) ltac:(lia) ltac:(lia)). fold y in H. lia.
  - destruct (decide (y = 399)) as [E|]; [rewrite E in Hc; change (first_day (399 + 1)) with 146097 in Hc; lia|].
    pose proof (years_ok (y + 1) ltac:(lia)) as Hy. unfold year_table in Hy. bsplit.
    assert (0 ≤ first_day (y + 1)) by (unfold first_day; divmod).
    pose proof (year_of_mono (first_day (y + 1)) doe ltac:(lia) ltac:(lia)). fold y in H. lia.
Qed.
(** The month and the day of a day of the year. *)
Definition month_table (doy : Z) : bool :=
  let mp := (5 * doy + 2) / 153 in let d := doy - (153 * mp + 2) / 5 + 1 in let m := if mp <? 10 then mp + 3 else mp - 9 in
  ((153 * (if 2 <? m then m - 3 else m + 9) + 2) / 5 + d - 1 =? doy) && (1 <=? m) && (m <=? 12) && (1 <=? d)
  && (if m =? 2 then (d <=? 28) || ((d =? 29) && (doy =? 365)) else d <=? days_in m 0).
Lemma months_ok doy : 0 ≤ doy < 366 → month_table doy = true.
Proof. intros H. apply (all_from_spec month_table 366 0); [vm_compute; reflexivity|lia]. Qed.
Lemma era_spec i : 0 ≤ i + 719468 < 146097 → let '(y, m, d) := civil_from_days i in
  days_from_civil y m d = i ∧ 1 ≤ m ≤ 12 ∧ 1 ≤ d ≤ days_in m y.
Proof.
  intros H. unfold civil_from_days. cbv zeta. rewrite (Z.div_small (i + 719468)), (Z.mod_small (i + 719468)) by done. set (doe := i + 719468) in *.
  fold (year_of doe). destruct (year_of_spec doe H) as [Hy Hd]. set (y := year_of doe) in *.
  assert (y / 400 = 0) as Hy0 by divmod. pose proof (years_ok y Hy) as Hyo. unfold year_table in Hyo. bsplit.
  assert (365 * y + y / 4 - y / 100 = first_day y) as -> by (unfold first_day; lia).
  set (doy := doe - first_day y). pose proof (months_ok doy ltac:(unfold doy; lia)) as Hm. unfold month_table in Hm.
  set (mp := (5 * doy + 2) / 153) in *. set (d := doy - (153 * mp + 2) / 5 + 1) in *. set (m := if mp <? 10 then mp + 3 else mp - 9) in *.
  cbv zeta in Hm. bsplit. split_and!; [|lia..|].
  - unfold days_from_civil. cbv zeta.
    replace (if m <=? 2 then y + 0 * 400 + (if m <=? 2 then 1 else 0) - 1 else y + 0 * 400 + (if m <=? 2 then 1 else 0)) with y
      by (destruct (m <=? 2); lia).
    rewrite Hy0, (Z.mod_small y) by done. unfold doy, first_day in *. lia.
  - unfold days_in in *. destruct (m =? 2) eqn:E; [|by bsplit].
    apply Z.eqb_eq in E. rewrite E. change (2 <=? 2) with true. cbv iota. replace (y + 0 * 400 + 1) with (y + 1) by lia.
    destruct (is_leap (y + 1)); cbn [orb] in *; repeat match goal with H : (_ || _)%bool = true |- _ => apply orb_true_iff in H; destruct H end; bsplit; lia.
Qed.

Lemma civil_shift n e : civil_from_days (n + e * 146097) =
  let '(y, m, d) := civil_from_days n in (y + e * 400, m, d).
Proof.
  unfold civil_from_days.
  replace (n + e * 146097 + 719468) with (n + 719468 + e * 146097) by lia.
  rewrite Z.div_add, Z.mod_add by lia. cbv zeta. f_equal. f_equal. lia.
Qed.
Lemma days_shift y m d e : days_from_civil (y + e * 400) m d = days_from_civil y m d + e * 146097.
Proof.
  unfold days_from_civil.
  replace (if m <=? 2 then y + e * 400 - 1 else y + e * 400) with ((if m <=? 2 then y - 1 else y) + e * 400)
    by (destruct (m <=? 2); lia).
  rewrite Z.div_add, Z.mod_add by lia. cbv zeta. lia.
Qed.
Lemma days_in_shift y m e : days_in m (y + e * 400) = days_in m y.
Proof.
  unfold days_in, is_leap.
  replace (y + e * 400) with (y + (e * 100) * 4) at 1 by lia. rewrite Z.mod_add by lia.
  replace (y + e * 400) with (y + (e * 4) * 100) at 1 by lia. rewrite Z.mod_add by lia.
  by rewrite Z.mod_add by lia.
Qed.

Lemma civil_spec n : let '(y, m, d) := civil_from_days n in
  days_from_civil y m d = n ∧ 1 ≤ m ≤ 12 ∧ 1 ≤ d ≤ days_in m y.
Proof.
  pose proof (Z.div_mod (n + 719468) 146097 ltac:(lia)) as Hn. pose proof (Z.mod_pos_bound (n + 719468) 146097 ltac:(lia)) as Hb.
  set (e := (n + 719468) / 146097) in *. set (r := (n + 719468) mod 146097) in *.
  replace n with ((r - 719468) + e * 146097) by lia.
  pose proof (era_spec (r - 719468) ltac:(lia)) as Hi. clear Hn Hb. generalize dependent (r - 719468). intros i Hi.
  rewrite civil_shift. destruct (civil_from_days i) as [[y m] d]. rewrite days_shift, days_in_shift. lia.
Qed.

(** The first day of a year, and the days of the year. *)
Lemma year_bounds n : let '(y, m, d) := civil_from_days n in
  days_from_civil y 1 1 ≤ n < days_from_civil (y + 1) 1 1.
Proof.
  pose proof (civil_spec n) as H. destruct (civil_from_days n) as [[y m] d]. destruct H as (<- & Hm & Hd).
  unfold days_from_civil. change (1 <=? 2) with true. change (2 <? 1) with false. cbv zeta iota.
  unfold days_in, is_leap in Hd.
  destruct (m <=? 2) eqn:H2; [apply Z.leb_le in H2|apply Z.leb_gt in H2].
  - replace (2 <? m) with false by (symmetry; apply Z.ltb_ge; lia).
    assert (m = 1 ∨ m = 2) as [-> | ->] by lia; simpl in Hd; repeat case_match; bsplit; divmod.
  - replace (2 <? m) with true by (symmetry; apply Z.ltb_lt; lia).
    assert (d ≤ 31) by (repeat case_match; lia). divmod.
Qed.
Lemma years_mono y z : y ≤ z → days_from_civil y 1 1 ≤ days_from_civil z 1 1.
Proof. intros H. unfold days_from_civil. change (1 <=? 2) with true. change (2 <? 1) with false. cbv zeta iota. divmod. Qed.

(** ** Reading back what is written *)

(** The fields of a time of day and a year of four digits, by computation. *)
Definition two_ok (n : Z) : bool :=
  match pad_int 2 n with
  | [a; b] => is_digit a && is_digit b && (digit_val a * 10 + digit_val b =? n)
  | _ => false
  end.
Lemma two_all : forallb two_ok (map Z.of_nat (seq 0 100)) = true.
Proof. vm_compute. reflexivity. Qed.
Lemma forallb_below (f : Z → bool) k n : forallb f (map Z.of_nat (seq 0 k)) = true → 0 ≤ n < Z.of_nat k → f n = true.
Proof.
  intros Hf Hn. rewrite forallb_forall in Hf. apply Hf, in_map_iff. exists (Z.to_nat n). split; [lia|].
  apply in_seq. lia.
Qed.
Lemma getnum_pad fixed n s : 0 ≤ n < 100 → getnum fixed (pad_int 2 n ++ s) = Some (n, s).
Proof.
  intros Hn. pose proof (forallb_below two_ok 100 n two_all Hn) as H. unfold two_ok in H.
  destruct (pad_int 2 n) as [|a [|b [|]]]; try done. bsplit. cbn [app getnum].
  match goal with H1 : is_digit a = true, H2 : is_digit b = true |- _ => rewrite H1, H2 end.
  cbn [negb]. congruence.
Qed.
Lemma field_pad fixed lo hi n s : 0 ≤ n < 100 → lo ≤ n ≤ hi → getfield fixed lo hi (pad_int 2 n ++ s) = Some (n, s).
Proof.
  intros Hn Hb. unfold getfield. rewrite getnum_pad by done. cbn. unfold in_bounds. cbn [fst].
  by rewrite (proj2 (Z.leb_le lo n)), (proj2 (Z.leb_le n hi)) by lia.
Qed.

Definition year_ok (y : Z) : bool :=
  Nat.eqb (length (pad_int 4 y)) 4 && forallb is_digit (pad_int 4 y) && (decimal (pad_int 4 y) =? y).
Definition ten_thousand : nat := Z.to_nat 10000.
Lemma year_all : forallb year_ok (map Z.of_nat (seq 0 ten_thousand)) = true.
Proof. vm_compute. reflexivity. Qed.
Lemma parse_year_pad y s : 0 ≤ y ≤ 9999 → parse_year (pad_int 4 y ++ s) = Some (y, s).
Proof.
  intros Hy. pose proof (forallb_below year_ok ten_thousand y year_all ltac:(unfold ten_thousand; lia)) as H.
  unfold year_ok in H. bsplit. unfold parse_year.
  match goal with H : Nat.eqb _ _ = true |- _ => apply Nat.eqb_eq in H as Hl end.
  rewrite take_app_length', drop_app_length' by done. rewrite length_app, Hl.
  match goal with H : forallb _ _ = true |- _ => rewrite H end. cbn. congruence.
Qed.

Lemma dec_from_bound ds : ∀ v, 0 ≤ v → forallb is_digit ds = true →
  dec_from v ds < (v + 1) * 10 ^ Z.of_nat (length ds).
Proof.
  induction ds as [|c ds IH]; intros v Hv Hd; [unfold dec_from; cbn; lia|].
  apply andb_true_iff in Hd as [Hc Hd]. cbn [length]. rewrite Nat2Z.inj_succ, Z.pow_succ_r by lia.
  assert (0 ≤ digit_val c ≤ 9) as Hb.
  { unfold is_digit, between in Hc. unfold digit_val. bsplit.
    change (ord "0") with 48 in *. change (ord "9") with 57 in *. lia. }
  unfold dec_from in *. cbn [fold_left]. specialize (IH (10 * v + digit_val c) ltac:(lia) Hd).
  pose proof (Z.pow_pos_nonneg 10 (Z.of_nat (length ds)) ltac:(lia) ltac:(lia)). nia.
Qed.
Lemma long_year y s : 10000 ≤ y → ∃ ds, forallb is_digit ds = true ∧ (5 ≤ length ds)%nat ∧ pad_int 4 y ++ s = ds ++ s.
Proof.
  intros Hy. destruct (udigits_spec y ltac:(lia)) as (Hv & Hd & _).
  assert (5 ≤ length (udigits y))%nat as Hl.
  { pose proof (dec_from_bound (udigits y) 0 ltac:(lia) Hd) as Hb. rewrite Hv in Hb.
    destruct (decide (5 ≤ length (udigits y))%nat); [done|].
    assert (10 ^ Z.of_nat (length (udigits y)) ≤ 10 ^ 4) by (apply Z.pow_le_mono_r; lia). lia. }
  exists (udigits y). split_and!; [done..|]. unfold pad_int. rewrite Z.abs_eq by lia.
  rewrite (proj2 (Z.ltb_ge y 0)) by lia. by replace (4 - length (udigits y))%nat with 0%nat by lia.
Qed.

Lemma skip_byte_app c s : skip_byte c (c :: s) = Some s.
Proof. apply (cut_prefix_app [c] s). Qed.

Definition last_second : Z := 253402300799.

Lemma civil_year n : (0 ≤ n → 1970 ≤ (civil_from_days n).1.1) ∧ (n ≤ 2932896 ↔ (civil_from_days n).1.1 ≤ 9999).
Proof.
  pose proof (year_bounds n) as H. destruct (civil_from_days n) as [[y m] d]. cbn.
  change 2932896 with (days_from_civil 10000 1 1 - 1).
  assert (days_from_civil 1970 1 1 = 0) as E0 by done. split; [intros Hn|split; intros Hn].
  - destruct (decide (1970 ≤ y)); [done|]. pose proof (years_mono (y + 1) 1970 ltac:(lia)). lia.
  - destruct (decide (y ≤ 9999)); [done|]. pose proof (years_mono 10000 y ltac:(lia)). lia.
  - pose proof (years_mono (y + 1) 10000 ltac:(lia)). lia.
Qed.

Lemma parse_format sec : 0 ≤ sec → parse_rfc3339 (format_utc sec) = if sec <=? last_second then Some sec else None.
Proof.
  intros Hs. unfold format_utc. pose proof (civil_spec (sec / 86400)) as Hc. pose proof (civil_year (sec / 86400)) as Hy.
  destruct (civil_from_days (sec / 86400)) as [[y m] d]. destruct Hc as (Hn & Hm & Hd). cbn [fst] in Hy.
  assert (0 ≤ sec / 86400) as H0 by (apply Z.div_pos; lia). specialize (proj1 Hy H0) as Hy0.
  assert (sec <= last_second ↔ y ≤ 9999) as Hlast.
  { rewrite <- (proj2 Hy). unfold last_second. divmod. }
  assert (d < 100) as Hd2 by (unfold days_in in Hd; repeat case_match; lia).
  destruct (Z.leb_spec sec last_second) as [Hle|Hgt].
  - pose proof (Z.mod_pos_bound sec 86400 ltac:(lia)) as Hsec. set (s := sec mod 86400) in *.
    unfold parse_rfc3339. rewrite parse_year_pad by lia. cbn [mbind option_bind].
    change (bytes_of "-") with ["-"%char]. change (bytes_of "T") with ["T"%char]. change (bytes_of ":") with [":"%char].
    repeat (cbn [app mbind option_bind]; rewrite ?skip_byte_app; cbn [app mbind option_bind];
      first [rewrite getnum_pad by lia | rewrite field_pad by divmod]).
    cbn [app mbind option_bind].
    change (parse_zone (skip_fraction (bytes_of "Z"))) with (Some 0).
    cbn [mbind option_bind]. rewrite (proj2 (Z.leb_le 1 d)), (proj2 (Z.leb_le d (days_in m y))) by lia. cbn [andb]. f_equal. rewrite Hn. subst s. divmod.
  - assert (¬ y ≤ 9999) by (rewrite <- Hlast; lia). unfold parse_rfc3339. destruct (long_year y (bytes_of "-" ++ pad_int 2 m ++ bytes_of "-" ++ pad_int 2 d ++ bytes_of "T"
      ++ pad_int 2 (sec mod 86400 / 3600) ++ bytes_of ":" ++ pad_int 2 (sec mod 86400 / 60 mod 60) ++ bytes_of ":"
      ++ pad_int 2 (sec mod 86400 mod 60) ++ bytes_of "Z")) as (ds & Hds & Hl & ->); [lia|].
    destruct ds as [|c1 [|c2 [|c3 [|c4 [|c5 ds]]]]]; try (cbn in Hl; lia).
    unfold parse_year. cbn [app length Nat.leb take drop andb]. destruct (forallb is_digit [c1; c2; c3; c4]); [|done].
    cbn [mbind option_bind]. unfold skip_byte. cbn [cut_prefix]. destruct (beq "-" c5) eqn:Hc; [|done].
    apply bool_decide_eq_true in Hc as <-. cbn [forallb] in Hds. rewrite !andb_true_iff in Hds.
    destruct Hds as (_ & _ & _ & _ & Hds & _). by vm_compute in Hds.
Qed.

(** The clock of an artefact: with the variable unset it is the time now;
    otherwise it is accepted exactly when it is a decimal integer of 64 bits
    that is not negative, and its timestamp reads back as the same instant up to
    the end of the year 9999 and is refused by the readers of documents from
    there on. *)
Theorem EffectiveTime_spec raw now :
  match EffectiveTime raw now with
  | Ok t => (raw = [] ∧ t = Time now)
      ∨ ∃ sec, parse_int64 raw = Some sec ∧ 0 ≤ sec ∧ t = Time sec
          ∧ ParseTime t = if sec <=? last_second then Some sec else None
  | Err e => raw ≠ [] ∧ ClassOf (Some e) = Usage ∧ ∀ sec, parse_int64 raw = Some sec → sec < 0
  end.
Proof.
  unfold EffectiveTime. destruct (streq raw "") eqn:Hr.
  { apply bool_decide_eq_true in Hr. by left. }
  apply bool_decide_eq_false in Hr. destruct (parse_int64 raw) as [sec|] eqn:Hp; [|by split_and!].
  destruct (Z.ltb_spec sec 0); [split_and!; [done|done|congruence]|]. right. exists sec. split_and!; [done..|].
  by apply parse_format.
Qed.
