(* ===== verification/SnapshotTypes.v ===== *)
(** * core/snapshot/types.go: the snapshot document.

    What a target's apt looked like, with its JSON: the encoder that the digest
    of a document is computed over and the decoder [json.Unmarshal] is. A nil
    pointer is [None]; the labels, a Go map, are a finite map. *)
From S2P Require Export JsonFold.
#[local] Open Scope Z_scope.

Definition SchemaVersion : gostring := "debark.snapshot/v1".
Definition DocumentName : gostring := "snapshot.json".
Definition FilesDir : gostring := "files".

Record Tool := mkTool { to_Name : gostring; to_Version : gostring; to_Edition : gostring }.
Record File := mkFile {
  fi_Path : gostring; fi_ArchivePath : gostring; fi_Size : Z; fi_SHA256 : gostring; fi_Mode : gostring; fi_Redacted : bool
}.
Record Target := mkTarget {
  ta_DistroID : gostring; ta_VersionID : gostring; ta_Codename : gostring; ta_PrettyName : gostring; ta_Arch : gostring;
  ta_ForeignArchs : list gostring; ta_APTVersion : gostring; ta_DpkgVersion : gostring; ta_MachineID : gostring;
  ta_OSRelease : option File
}.
Record APT := mkAPT {
  ap_Sources : list File; ap_Preferences : list File; ap_Conf : list File; ap_Trusted : list File; ap_Keyrings : list File
}.
Record Origin := mkOrigin {
  or_Kind : gostring; or_BaseID : gostring; or_Source : gostring; or_SourceDigest : gostring;
  or_AssumedInstalled : list gostring
}.
Record KeyFingerprint := mkKeyFingerprint {
  kf_Fingerprint : gostring; kf_KeyID : gostring; kf_UserIDs : list gostring; kf_Keyring : gostring;
  kf_SignedBy : list gostring
}.
Record Snapshot := mkSnapshot {
  sn_SchemaVersion : gostring; sn_CreatedAt : gostring; sn_Tool : Tool; sn_Target : Target; sn_APT : APT;
  sn_DpkgStatus : File; sn_Origin : Origin; sn_InstalledCount : Z; sn_KeyringFingerprints : list KeyFingerprint;
  sn_Labels : gmap gostring gostring; sn_Redactions : list gostring; sn_Warnings : list gostring
}.

Definition OriginCaptured : gostring := "captured".
Definition OriginSynthesized : gostring := "synthesized".
Definition Synthesized (s : Snapshot) : bool := streq (or_Kind (sn_Origin s)) OriginSynthesized.
Definition RedactMachineID : gostring := "machine-id".
Definition RedactProxies : gostring := "proxies".
Definition RedactLabels : gostring := "labels".
Definition PhasedTargetMachineID : gostring := "target-machine-id".
Definition PhasedNeverInclude : gostring := "never-include".
Definition PhasedPolicyFor (s : Snapshot) : gostring :=
  if streq (ta_MachineID (sn_Target s)) "" then PhasedNeverInclude else PhasedTargetMachineID.

Definition Files (s : Snapshot) : list File :=
  sn_DpkgStatus s :: match ta_OSRelease (sn_Target s) with Some f => [f] | None => [] end
  ++ ap_Sources (sn_APT s) ++ ap_Preferences (sn_APT s) ++ ap_Conf (sn_APT s) ++ ap_Trusted (sn_APT s)
  ++ ap_Keyrings (sn_APT s).

(** ** The encoder *)

Definition enc_Tool (t : Tool) : json := enc_struct [
  (bytes_of "name", enc_string (to_Name t)); (bytes_of "version", enc_string (to_Version t));
  (bytes_of "edition", omit_string (to_Edition t))].
Definition enc_File (f : File) : json := enc_struct [
  (bytes_of "path", enc_string (fi_Path f)); (bytes_of "archive_path", enc_string (fi_ArchivePath f));
  (bytes_of "size", enc_int (fi_Size f)); (bytes_of "sha256", enc_string (fi_SHA256 f));
  (bytes_of "mode", omit_string (fi_Mode f)); (bytes_of "redacted", omit_bool (fi_Redacted f))].
Definition enc_Target (t : Target) : json := enc_struct [
  (bytes_of "distro_id", enc_string (ta_DistroID t)); (bytes_of "version_id", enc_string (ta_VersionID t));
  (bytes_of "codename", enc_string (ta_Codename t)); (bytes_of "pretty_name", omit_string (ta_PrettyName t));
  (bytes_of "arch", enc_string (ta_Arch t)); (bytes_of "foreign_archs", omit_slice JStr (ta_ForeignArchs t));
  (bytes_of "apt_version", enc_string (ta_APTVersion t)); (bytes_of "dpkg_version", enc_string (ta_DpkgVersion t));
  (bytes_of "machine_id", omit_string (ta_MachineID t)); (bytes_of "os_release", enc_File <$> ta_OSRelease t)].
Definition enc_APT (a : APT) : json := enc_struct [
  (bytes_of "sources", omit_slice enc_File (ap_Sources a)); (bytes_of "preferences", omit_slice enc_File (ap_Preferences a));
  (bytes_of "conf", omit_slice enc_File (ap_Conf a)); (bytes_of "trusted", omit_slice enc_File (ap_Trusted a));
  (bytes_of "keyrings", omit_slice enc_File (ap_Keyrings a))].
Definition enc_Origin (o : Origin) : json := enc_struct [
  (bytes_of "kind", enc_string (or_Kind o)); (bytes_of "base_id", omit_string (or_BaseID o));
  (bytes_of "source", omit_string (or_Source o)); (bytes_of "source_digest", omit_string (or_SourceDigest o));
  (bytes_of "assumed_installed", omit_slice JStr (or_AssumedInstalled o))].
Definition enc_KeyFingerprint (k : KeyFingerprint) : json := enc_struct [
  (bytes_of "fingerprint", enc_string (kf_Fingerprint k)); (bytes_of "key_id", omit_string (kf_KeyID k));
  (bytes_of "user_ids", omit_slice JStr (kf_UserIDs k)); (bytes_of "keyring", enc_string (kf_Keyring k));
  (bytes_of "signed_by", omit_slice JStr (kf_SignedBy k))].
(** A map is written with its keys in order. *)
Definition sorted_keys {A} (m : gmap gostring A) : list gostring := sort_strings (map fst (map_to_list m)).
Definition enc_labels (m : gmap gostring gostring) : option json :=
  match sorted_keys m with
  | [] => None
  | keys => Some (JObj (map (λ k, (k, JStr (default [] (m !! k)))) keys))
  end.
Definition omit_int (n : Z) : option json := if n =? 0 then None else enc_int n.
Definition enc_Snapshot (s : Snapshot) : json := enc_struct [
  (bytes_of "schema_version", enc_string (sn_SchemaVersion s)); (bytes_of "created_at", enc_string (sn_CreatedAt s));
  (bytes_of "tool", Some (enc_Tool (sn_Tool s))); (bytes_of "target", Some (enc_Target (sn_Target s)));
  (bytes_of "apt", Some (enc_APT (sn_APT s))); (bytes_of "dpkg_status", Some (enc_File (sn_DpkgStatus s)));
  (bytes_of "origin", Some (enc_Origin (sn_Origin s))); (bytes_of "installed_count", omit_int (sn_InstalledCount s));
  (bytes_of "keyring_fingerprints", omit_slice enc_KeyFingerprint (sn_KeyringFingerprints s));
  (bytes_of "labels", enc_labels (sn_Labels s)); (bytes_of "redactions", omit_slice JStr (sn_Redactions s));
  (bytes_of "warnings", omit_slice JStr (sn_Warnings s))].

(** ** [json.Unmarshal] *)

Section decode.
Context {unicode : UnicodeTables}.
Definition into_bool : into bool := λ v old,
  match v with JNull => Ok old | JBool b => Ok b | _ => Err UnmarshalTypeError end.
Abbreviation into_strings := (into_slice into_string []).
Definition into_pointer {A} (f : into A) (zero : A) : into (option A) := λ v old,
  match v with JNull => Ok None | _ => Some <$> f v (default zero old) end.
Fixpoint into_members (ms : list (gostring * json)) (old : gmap gostring gostring) : result decode_error (gmap gostring gostring) :=
  match ms with
  | [] => Ok old
  | (k, v) :: ms => x ← into_string v []; into_members ms (<[k := x]> old)
  end.
Definition into_labels : into (gmap gostring gostring) := λ v old,
  match v with JNull => Ok ∅ | JObj ms => into_members ms old | _ => Err UnmarshalTypeError end.

Definition into_Tool : into Tool := into_struct (λ m t,
  a ← into_field into_string m "name" (to_Name t); b ← into_field into_string m "version" (to_Version t);
  c ← into_field into_string m "edition" (to_Edition t); Ok (mkTool a b c)).
Definition zero_File : File := mkFile [] [] 0 [] [] false.
Definition into_File : into File := into_struct (λ m f,
  a ← into_field into_string m "path" (fi_Path f); b ← into_field into_string m "archive_path" (fi_ArchivePath f);
  c ← into_field into_int64 m "size" (fi_Size f); d ← into_field into_string m "sha256" (fi_SHA256 f);
  e ← into_field into_string m "mode" (fi_Mode f); g ← into_field into_bool m "redacted" (fi_Redacted f);
  Ok (mkFile a b c d e g)).
Definition into_Target : into Target := into_struct (λ m t,
  a ← into_field into_string m "distro_id" (ta_DistroID t); b ← into_field into_string m "version_id" (ta_VersionID t);
  c ← into_field into_string m "codename" (ta_Codename t); d ← into_field into_string m "pretty_name" (ta_PrettyName t);
  e ← into_field into_string m "arch" (ta_Arch t); f ← into_field into_strings m "foreign_archs" (ta_ForeignArchs t);
  g ← into_field into_string m "apt_version" (ta_APTVersion t); h ← into_field into_string m "dpkg_version" (ta_DpkgVersion t);
  i ← into_field into_string m "machine_id" (ta_MachineID t);
  j ← into_field (into_pointer into_File zero_File) m "os_release" (ta_OSRelease t);
  Ok (mkTarget a b c d e f g h i j)).
Abbreviation into_files := (into_slice into_File zero_File).
Definition into_APT : into APT := into_struct (λ m t,
  a ← into_field into_files m "sources" (ap_Sources t); b ← into_field into_files m "preferences" (ap_Preferences t);
  c ← into_field into_files m "conf" (ap_Conf t); d ← into_field into_files m "trusted" (ap_Trusted t);
  e ← into_field into_files m "keyrings" (ap_Keyrings t); Ok (mkAPT a b c d e)).
Definition into_Origin : into Origin := into_struct (λ m o,
  a ← into_field into_string m "kind" (or_Kind o); b ← into_field into_string m "base_id" (or_BaseID o);
  c ← into_field into_string m "source" (or_Source o); d ← into_field into_string m "source_digest" (or_SourceDigest o);
  e ← into_field into_strings m "assumed_installed" (or_AssumedInstalled o); Ok (mkOrigin a b c d e)).
Definition zero_KeyFingerprint : KeyFingerprint := mkKeyFingerprint [] [] [] [] [].
Definition into_KeyFingerprint : into KeyFingerprint := into_struct (λ m k,
  a ← into_field into_string m "fingerprint" (kf_Fingerprint k); b ← into_field into_string m "key_id" (kf_KeyID k);
  c ← into_field into_strings m "user_ids" (kf_UserIDs k); d ← into_field into_string m "keyring" (kf_Keyring k);
  e ← into_field into_strings m "signed_by" (kf_SignedBy k); Ok (mkKeyFingerprint a b c d e)).
Definition into_Snapshot : into Snapshot := into_struct (λ m s,
  a ← into_field into_string m "schema_version" (sn_SchemaVersion s); b ← into_field into_string m "created_at" (sn_CreatedAt s);
  c ← into_field into_Tool m "tool" (sn_Tool s); d ← into_field into_Target m "target" (sn_Target s);
  e ← into_field into_APT m "apt" (sn_APT s); f ← into_field into_File m "dpkg_status" (sn_DpkgStatus s);
  g ← into_field into_Origin m "origin" (sn_Origin s); h ← into_field into_int64 m "installed_count" (sn_InstalledCount s);
  i ← into_field (into_slice into_KeyFingerprint zero_KeyFingerprint) m "keyring_fingerprints" (sn_KeyringFingerprints s);
  j ← into_field into_labels m "labels" (sn_Labels s); k ← into_field into_strings m "redactions" (sn_Redactions s);
  l ← into_field into_strings m "warnings" (sn_Warnings s); Ok (mkSnapshot a b c d e f g h i j k l)).
Definition zero_Target : Target := mkTarget [] [] [] [] [] [] [] [] [] None.
Definition zero_Snapshot : Snapshot :=
  mkSnapshot [] [] (mkTool [] [] []) zero_Target (mkAPT [] [] [] [] []) zero_File (mkOrigin [] [] [] [] []) 0 [] ∅ [] [].
Definition unmarshal_snapshot (text : gostring) : option Snapshot :=
  v ← json_parse text;
  match into_Snapshot v zero_Snapshot with Ok s => Some s | Err _ => None end.
End decode.
