(* ===== verification/Keyring.v ===== *)
(** * core/snapshot: pgp.go, deb822.go, aptsources.go, keyringverify.go.

    The keys in a captured keyring, the keys embedded in captured sources, and
    the check that a document records exactly the fingerprints of the key
    material it carries. The OpenPGP parser is a library ([OpenPGP]): an entity
    list, of which a key is its fingerprint and its key id. *)
From S2P Require Export SnapshotTypes.
#[local] Open Scope Z_scope.

Definition pgp_key : Type := gostring * gostring.
Record Entity := mkEntity {
  en_PrimaryKey : option pgp_key; en_Identities : list gostring; en_Subkeys : list (option pgp_key)
}.
Class OpenPGP := {
  ReadKeyRing : gostring → result gostring (list (option Entity));
  ReadArmoredKeyRing : gostring → result gostring (list (option Entity))
}.

Record parsedKey := mkParsed { pk_Fingerprint : gostring; pk_KeyID : gostring; pk_UserIDs : list gostring }.

(** [hex.EncodeToString] in upper case. *)
Fixpoint hex_upper_text (s : gostring) : gostring :=
  match s with
  | [] => []
  | c :: s' =>
      let digit n := nth (Z.to_nat n) (bytes_of "0123456789ABCDEF") "0"%char in
      digit (ord c / 16) :: digit (ord c mod 16) :: hex_upper_text s'
  end.
Definition fingerprintHex (fp : gostring) : gostring := hex_upper_text fp.

Definition keysFromEntity (e : option Entity) : list parsedKey :=
  match e with
  | Some (mkEntity (Some (fp, id)) names subkeys) =>
      mkParsed (fingerprintHex fp) id (sort_strings names)
      :: omap (λ sk : option pgp_key, '(fp, id) ← sk; Some (mkParsed (fingerprintHex fp) id [])) subkeys
  | _ => []
  end.
Definition keysFromEntities (el : list (option Entity)) : list parsedKey := concat (map keysFromEntity el).

Definition armor_spaces : gostring := bytes_of " " ++ [chr 9; chr 13; chr 10].
Definition looksArmored (data : gostring) : bool := has_prefix (bytes_of "-----BEGIN PGP") (drop_in armor_spaces data).

Section keyring.
Context {pgp : OpenPGP} {unicode : UnicodeTables}.

Definition readEntityList (data : gostring) : result gostring (list (option Entity)) :=
  if looksArmored data then ReadArmoredKeyRing data else ReadKeyRing data.
Definition parseKeyringFile (data : gostring) : result gostring (list parsedKey) :=
  el ← readEntityList data; Ok (keysFromEntities el).
Definition parseInlineArmoredKey (armored : gostring) : result gostring (list parsedKey) :=
  el ← ReadArmoredKeyRing armored; Ok (keysFromEntities el).

Fixpoint distinct_fingerprints (seen : gset gostring) (keys : list parsedKey) : list gostring :=
  match keys with
  | [] => []
  | k :: keys =>
      if bool_decide (pk_Fingerprint k ∈ seen) then distinct_fingerprints seen keys
      else pk_Fingerprint k :: distinct_fingerprints ({[pk_Fingerprint k]} ∪ seen) keys
  end.
Definition doFingerprintsIn (data : gostring) : result gostring (list gostring) :=
  keys ← parseKeyringFile data; Ok (sort_strings (distinct_fingerprints ∅ keys)).

(** ** deb822.go *)

Definition deb822Stanza : Type := list (gostring * gostring).
Definition Get (s : deb822Stanza) (name : gostring) : option gostring :=
  snd <$> find (λ f : gostring * gostring, equal_fold f.1 name) s.

Definition append_value (cont : gostring) (s : deb822Stanza) : deb822Stanza :=
  match rev s with (n, v) :: r => rev r ++ [(n, v ++ newline :: cont)] | [] => [] end.
Definition flush_stanza (st : list deb822Stanza * deb822Stanza) : list deb822Stanza * deb822Stanza :=
  (match st.2 with [] => st.1 | cur => st.1 ++ [cur] end, []).
Definition deb822_field_line (st : list deb822Stanza * deb822Stanza) (line : gostring) : list deb822Stanza * deb822Stanza :=
  if streq (trim_space line) "" then flush_stanza st
  else if has_prefix "#" line then st
  else match line, st.2 with
  | c :: _, _ :: _ =>
      if beq c " " || beq c (chr 9) then
        let cont := trim_prefix " " (trim_prefix [chr 9] line) in
        (st.1, append_value (if streq cont "." then [] else cont) st.2)
      else match cut ":" line with
      | Some (name, value) => (st.1, st.2 ++ [(trim_space name, trim_space value)])
      | None => st
      end
  | _, _ =>
      match cut ":" line with
      | Some (name, value) => (st.1, st.2 ++ [(trim_space name, trim_space value)])
      | None => st
      end
  end.
Definition deb822_max_line : Z := 16 * 1024 * 1024.
Definition parseDeb822 (data : gostring) : list deb822Stanza :=
  (flush_stanza (fold_left deb822_field_line (scan_lines deb822_max_line data).1 ([], []))).1.

(** ** aptsources.go *)

Inductive signedByRef := RefPath (p : gostring) | RefArmored (text : gostring).

Definition default_max_line : Z := 64 * 1024.
Definition option_refs (tok : gostring) : option signedByRef :=
  '(key, val) ← cut "=" tok;
  if equal_fold key (bytes_of "signed-by") && negb (streq (trim_space val) "") then Some (RefPath (trim_space val)) else None.
Definition one_line_refs (raw : gostring) : list signedByRef :=
  let line := trim_space raw in
  if streq line "" || has_prefix "#" line then []
  else match fields line with
  | f :: _ =>
      if negb (streq f "deb") && negb (streq f "deb-src") then []
      else match cut "[" line with
      | None => []
      | Some (_, rest) =>
          match cut "]" rest with None => [] | Some (opts, _) => omap option_refs (fields opts) end
      end
  | [] => []
  end.
Definition extractOneLineSignedBy (data : gostring) : list signedByRef :=
  concat (map one_line_refs (scan_lines default_max_line data).1).

(** [strings.Trim(s, cutset)] *)
Definition trim_set (cutset s : gostring) : gostring := trim_right cutset (drop_in cutset s).
Definition stanza_ref (stz : deb822Stanza) : option signedByRef :=
  val ← Get stz (bytes_of "Signed-By");
  let val := trim_set [newline] val in
  let trimmed := trim_space val in
  if contains_byte newline val || has_prefix (bytes_of "-----BEGIN PGP") trimmed then
    if streq trimmed "" then None else Some (RefArmored val)
  else if streq trimmed "" then None else Some (RefPath trimmed).
Definition extractDeb822SignedBy (data : gostring) : list signedByRef := omap stanza_ref (parseDeb822 data).
Definition extractSignedBy (data : gostring) : list signedByRef := extractOneLineSignedBy data ++ extractDeb822SignedBy data.

(** ** keyringverify.go *)

Record derivedKeyring := mkDerived {
  dk_keys : gmap gostring parsedKey; dk_archivePath : gostring; dk_parseErr : option gostring
}.
Inductive keyring_error :=
| TwoKeyrings (path first second : gostring)
| UnreadableKeyring (path : gostring)
| UnreadableSource (path : gostring)
| NoSuchKeyring (fingerprint keyring : gostring)
| UnparseableKeyring (fingerprint keyring why : gostring)
| NoSuchKey (fingerprint keyring : gostring)
| WrongKeyID (fingerprint keyring : gostring)
| WrongUserIDs (fingerprint keyring : gostring)
| Unrecorded (keyring fingerprint : gostring).

Abbreviation derived := (gmap gostring derivedKeyring).
Definition add_keys (keys : list parsedKey) (m : gmap gostring parsedKey) : gmap gostring parsedKey :=
  fold_left (λ (m : gmap gostring parsedKey) k, <[pk_Fingerprint k := k]> m) keys m.
Definition add_material (path archivePath : gostring) (parsed : result gostring (list parsedKey)) (out : derived)
    : result keyring_error derived :=
  let dk := default (mkDerived ∅ archivePath None) (out !! path) in
  if negb (streq (dk_archivePath dk) archivePath) then Err (TwoKeyrings path (dk_archivePath dk) archivePath)
  else match parsed with
  | Err e => Ok (<[path := mkDerived (dk_keys dk) (dk_archivePath dk) (Some e)]> out)
  | Ok keys => Ok (<[path := mkDerived (add_keys keys (dk_keys dk)) (dk_archivePath dk) (dk_parseErr dk)]> out)
  end.

Section derive.
(** The bytes at an archive path under the directory of files. *)
Variable read : gostring → option gostring.

Fixpoint derive_keyrings (files : list File) (out : derived) : result keyring_error derived :=
  match files with
  | [] => Ok out
  | f :: rest =>
      if streq (fi_Path f) "" && streq (fi_ArchivePath f) "" then derive_keyrings rest out
      else match read (fi_ArchivePath f) with
      | None => Err (UnreadableKeyring (fi_Path f))
      | Some data => out ← add_material (fi_Path f) (fi_ArchivePath f) (parseKeyringFile data) out; derive_keyrings rest out
      end
  end.
Fixpoint derive_refs (f : File) (refs : list signedByRef) (out : derived) : result keyring_error derived :=
  match refs with
  | [] => Ok out
  | RefArmored text :: rest =>
      match parseInlineArmoredKey text with
      | Err _ => derive_refs f rest out
      | Ok keys => out ← add_material (fi_Path f) (fi_ArchivePath f) (Ok keys) out; derive_refs f rest out
      end
  | RefPath _ :: rest => derive_refs f rest out
  end.
Fixpoint derive_inline (files : list File) (out : derived) : result keyring_error derived :=
  match files with
  | [] => Ok out
  | f :: rest =>
      if streq (fi_ArchivePath f) "" then derive_inline rest out
      else match read (fi_ArchivePath f) with
      | None => Err (UnreadableSource (fi_Path f))
      | Some data => out ← derive_refs f (extractSignedBy data) out; derive_inline rest out
      end
  end.
Definition deriveKeyMaterial (s : Snapshot) : result keyring_error derived :=
  out ← derive_keyrings (ap_Keyrings (sn_APT s) ++ ap_Trusted (sn_APT s)) ∅; derive_inline (ap_Sources (sn_APT s)) out.

Definition check_claim (m : derived) (kf : KeyFingerprint) : option keyring_error :=
  let fp := kf_Fingerprint kf in
  let kr := kf_Keyring kf in
  match m !! kr with
  | None => Some (NoSuchKeyring fp kr)
  | Some dk =>
      match dk_keys dk !! fp with
      | None => Some (match dk_parseErr dk with Some e => UnparseableKeyring fp kr e | None => NoSuchKey fp kr end)
      | Some key =>
          if negb (streq (kf_KeyID kf) "") && negb (streq (kf_KeyID kf) (pk_KeyID key)) then Some (WrongKeyID fp kr)
          else if negb (bool_decide (kf_UserIDs kf = pk_UserIDs key)) then Some (WrongUserIDs fp kr) else None
      end
  end.
Definition claims (kfs : list KeyFingerprint) (path fp : gostring) : bool :=
  existsb (λ kf, streq (kf_Keyring kf) path && streq (kf_Fingerprint kf) fp) kfs.
Definition unrecorded (m : derived) (kfs : list KeyFingerprint) : option keyring_error :=
  first_err (λ path, match m !! path with
    | Some dk => first_err (λ fp, if claims kfs path fp then None else Some (Unrecorded path fp)) (sorted_keys (dk_keys dk))
    | None => None
    end) (sorted_keys m).
Definition verifyKeyringFingerprints (s : Snapshot) : result keyring_error () :=
  match sn_KeyringFingerprints s, ap_Keyrings (sn_APT s), ap_Trusted (sn_APT s) with
  | [], [], [] => Ok tt
  | kfs, _, _ =>
      m ← deriveKeyMaterial s;
      match first_err (check_claim m) kfs with
      | Some e => Err e
      | None => match unrecorded m kfs with Some e => Err e | None => Ok tt end
      end
  end.

(** ** What an accepted document records *)

(** The key material a snapshot carries, by the name a fingerprint is recorded
    under. *)
Inductive material (s : Snapshot) : gostring → parsedKey → Prop :=
| material_file f data keys k :
    f ∈ ap_Keyrings (sn_APT s) ++ ap_Trusted (sn_APT s) → fi_Path f ≠ [] ∨ fi_ArchivePath f ≠ [] →
    read (fi_ArchivePath f) = Some data → parseKeyringFile data = Ok keys → k ∈ keys → material s (fi_Path f) k
| material_inline f data text keys k :
    f ∈ ap_Sources (sn_APT s) → fi_ArchivePath f ≠ [] → read (fi_ArchivePath f) = Some data →
    RefArmored text ∈ extractSignedBy data → parseInlineArmoredKey text = Ok keys → k ∈ keys → material s (fi_Path f) k.

(** [out] has keys of [M] only, and for every key of [N] its fingerprint. *)
Definition holds_key (out : derived) (path : gostring) (k : parsedKey) : Prop :=
  ∃ dk, out !! path = Some dk ∧ dk_keys dk !! pk_Fingerprint k = Some k.
Definition holds_fingerprint (out : derived) (path fp : gostring) : Prop :=
  ∃ dk, out !! path = Some dk ∧ is_Some (dk_keys dk !! fp).
Definition keyed (out : derived) : Prop :=
  ∀ path dk fp k, out !! path = Some dk → dk_keys dk !! fp = Some k → fp = pk_Fingerprint k.

Lemma add_keys_lookup keys : ∀ (m : gmap gostring parsedKey) fp,
  (∀ k, add_keys keys m !! fp = Some k → (k ∈ keys ∧ fp = pk_Fingerprint k) ∨ m !! fp = Some k) ∧
  (is_Some (m !! fp) ∨ fp ∈ map pk_Fingerprint keys → is_Some (add_keys keys m !! fp)).
Proof.
  unfold add_keys. induction keys as [|k0 keys IH]; intros m fp; cbn [fold_left map].
  - split; [by right|]. by intros [?|?%elem_of_nil].
  - destruct (IH (<[pk_Fingerprint k0 := k0]> m) fp) as [H1 H2]. split.
    + intros k Hk. destruct (H1 k Hk) as [[Hin Hf]|Hm]; [left; split; [by right|done]|].
      destruct (decide (fp = pk_Fingerprint k0)) as [->|Hne].
      * rewrite lookup_insert_eq in Hm. simplify_eq. left. split; [by left|done].
      * rewrite lookup_insert_ne in Hm by done. by right.
    + intros Hi. apply H2. destruct (decide (fp = pk_Fingerprint k0)) as [->|Hne].
      * left. rewrite lookup_insert_eq. by eexists.
      * rewrite lookup_insert_ne by done. destruct Hi as [?|[?|?]%elem_of_cons]; auto. congruence.
Qed.

Lemma add_material_spec path ap parsed out out' : keyed out → add_material path ap parsed out = Ok out' →
  keyed out' ∧
  (∀ p k, holds_key out' p k → holds_key out p k ∨ (p = path ∧ ∃ keys, parsed = Ok keys ∧ k ∈ keys)) ∧
  (∀ p fp, holds_fingerprint out p fp ∨ (p = path ∧ ∃ keys, parsed = Ok keys ∧ fp ∈ map pk_Fingerprint keys) →
    holds_fingerprint out' p fp).
Proof.
  intros Hk. unfold add_material. set (dk := default (mkDerived ∅ ap None) (out !! path)).
  assert (∀ fp k, dk_keys dk !! fp = Some k → ∃ dk0, out !! path = Some dk0 ∧ dk_keys dk0 !! fp = Some k) as Hdk.
  { subst dk. destruct (out !! path) as [d|]; cbn; [by eauto|]. intros fp k Hf. by rewrite lookup_empty in Hf. }
  assert (∀ fp dk0, out !! path = Some dk0 → is_Some (dk_keys dk0 !! fp) → is_Some (dk_keys dk !! fp)) as Hdk2.
  { intros fp dk0 Ho Hs. subst dk. by rewrite Ho. }
  case_match; [done|]. set (keys := match parsed with Ok keys => keys | Err _ => [] end). intros E.
  assert (∃ e, out' = <[path := mkDerived (add_keys keys (dk_keys dk)) (dk_archivePath dk) e]> out) as [e ->].
  { subst keys. destruct parsed; simplify_eq; by eexists. }
  assert (∀ k, k ∈ keys → ∃ ks, parsed = Ok ks ∧ k ∈ ks) as Hks.
  { subst keys. destruct parsed; [eauto|]. by intros k ?%elem_of_nil. }
  clear E. split_and!.
  - intros p dk' fp k Hp Hf. destruct (decide (p = path)) as [->|Hne].
    + rewrite lookup_insert_eq in Hp. simplify_eq. cbn in Hf.
      apply add_keys_lookup in Hf as [[? ?]|Hf]; [done|]. apply Hdk in Hf as (dk0 & ? & ?). by eapply Hk.
    + rewrite lookup_insert_ne in Hp by done. by eapply Hk.
  - intros p k (dk' & Hp & Hf). destruct (decide (p = path)) as [->|Hne].
    + rewrite lookup_insert_eq in Hp. simplify_eq. cbn in Hf.
      apply add_keys_lookup in Hf as [[? ?]|Hf]; [right; auto|left]. apply Hdk in Hf as (dk0 & ? & ?). by exists dk0.
    + rewrite lookup_insert_ne in Hp by done. left. by exists dk'.
  - intros p fp Hh. destruct (decide (p = path)) as [->|Hne].
    + eexists. rewrite lookup_insert_eq. split; [done|]. cbn. apply add_keys_lookup.
      destruct Hh as [(dk0 & ? & ?)|[_ (ks & Hp & Hin)]]; [left; by eapply Hdk2|right]. subst keys. by rewrite Hp.
    + destruct Hh as [(dk0 & ? & ?)|[? _]]; [|done]. exists dk0. by rewrite lookup_insert_ne.
Qed.

(** One more source of key material [N], added to [out]. *)
Definition extends (N : gostring → parsedKey → Prop) (out out' : derived) : Prop :=
  keyed out' ∧ (∀ p k, holds_key out' p k → holds_key out p k ∨ N p k) ∧
  (∀ p fp, holds_fingerprint out p fp ∨ (∃ k, N p k ∧ fp = pk_Fingerprint k) → holds_fingerprint out' p fp).

Lemma extends_trans N1 N2 out1 out2 out3 :
  extends N1 out1 out2 → extends N2 out2 out3 → extends (λ p k, N1 p k ∨ N2 p k) out1 out3.
Proof.
  intros (H1 & H2 & H3) (H4 & H5 & H6). split_and!; [done|..].
  - intros p k Hh. apply H5 in Hh as [Hh|?]; [|by right; right]. apply H2 in Hh as [?|?]; auto.
  - intros p fp [Hh|(k & [Hn|Hn] & ->)]; apply H6; eauto 10.
Qed.
Lemma extends_iff (N1 N2 : gostring → parsedKey → Prop) out out' :
  (∀ p k, N1 p k ↔ N2 p k) → extends N1 out out' → extends N2 out out'.
Proof.
  intros HN (H1 & H2 & H3). split_and!; [done|..].
  - intros p k Hh. rewrite <- HN. by apply H2.
  - intros p fp [?|(k & Hn & ->)]; apply H3; [by left|right]. exists k. by rewrite HN.
Qed.
Lemma extends_refl (N : gostring → parsedKey → Prop) out : keyed out → (∀ p k, ¬ N p k) → extends N out out.
Proof. intros Hk Hn. split_and!; [done|auto|]. intros p fp [?|(k & ? & _)]; [done|]. by edestruct Hn. Qed.

Lemma add_material_extends path ap parsed out out' : keyed out → add_material path ap parsed out = Ok out' →
  extends (λ p k, p = path ∧ ∃ keys, parsed = Ok keys ∧ k ∈ keys) out out'.
Proof.
  intros Hk Ha. destruct (add_material_spec _ _ _ _ _ Hk Ha) as (H1 & H2 & H3). split_and!; [done..|].
  intros p fp [?|(k & (-> & keys & ? & Hin) & ->)]; apply H3; [by left|right]. split; [done|]. exists keys.
  split; [done|]. apply list_elem_of_In, in_map, list_elem_of_In, Hin.
Qed.

Definition file_material (files : list File) (p : gostring) (k : parsedKey) : Prop :=
  ∃ f data keys, f ∈ files ∧ (fi_Path f ≠ [] ∨ fi_ArchivePath f ≠ []) ∧ read (fi_ArchivePath f) = Some data
    ∧ parseKeyringFile data = Ok keys ∧ k ∈ keys ∧ p = fi_Path f.
Lemma derive_keyrings_extends files : ∀ out out', keyed out → derive_keyrings files out = Ok out' →
  extends (file_material files) out out'.
Proof.
  induction files as [|f files IH]; intros out out' Hk; cbn [derive_keyrings].
  { intros [= <-]. apply extends_refl; [done|]. intros p k (f & ? & ? & ?%elem_of_nil & _). done. }
  destruct (streq (fi_Path f) "" && streq (fi_ArchivePath f) "") eqn:E.
  - intros H. eapply extends_iff; [|by apply IH]. intros p k. split; intros (g & data & keys & Hg & Hrest).
    + exists g, data, keys. split; [by right|done].
    + exists g, data, keys. apply elem_of_cons in Hg as [->|Hg]; [|done]. exfalso.
      apply andb_true_iff in E as [E1%bool_decide_eq_true E2%bool_decide_eq_true]. by destruct Hrest as [[?|?] _].
  - destruct (read (fi_ArchivePath f)) as [data|] eqn:Hr; [|done]. rewrite bind_Ok. intros (o1 & Ha & Hd).
    pose proof (add_material_extends _ _ _ _ _ Hk Ha) as He. pose proof (IH _ _ (proj1 He) Hd) as He2.
    eapply extends_iff; [|by eapply extends_trans]. intros p k. split.
    + intros [(-> & keys & ? & ?)|(g & d & keys & Hg & Hrest)].
      * exists f, data, keys. split_and!; try done; [by left|]. apply andb_false_iff in E as [E|E];
          apply bool_decide_eq_false in E; auto.
      * exists g, d, keys. split; [by right|done].
    + intros (g & d & keys & [->|Hg]%elem_of_cons & Hrest).
      * left. destruct Hrest as (_ & Hr' & Hp & Hin & ->). split; [done|]. exists keys. split; [|done]. congruence.
      * right. by exists g, d, keys.
Qed.

Lemma derive_refs_extends f refs : ∀ out out', keyed out → derive_refs f refs out = Ok out' →
  extends (λ p k, p = fi_Path f ∧ ∃ text keys, RefArmored text ∈ refs ∧ parseInlineArmoredKey text = Ok keys ∧ k ∈ keys) out out'.
Proof.
  induction refs as [|r refs IH]; intros out out' Hk; cbn [derive_refs].
  { intros [= <-]. apply extends_refl; [done|]. intros p k (_ & ? & ? & ?%elem_of_nil & _). done. }
  destruct r as [path|text].
  { intros H. eapply extends_iff; [|by apply IH]. intros p k. set_solver. }
  destruct (parseInlineArmoredKey text) as [keys|] eqn:Ep.
  - rewrite bind_Ok. intros (o1 & Ha & Hd). pose proof (add_material_extends _ _ _ _ _ Hk Ha) as He.
    pose proof (IH _ _ (proj1 He) Hd) as He2. eapply extends_iff; [|by eapply extends_trans].
    intros p k. split.
    + intros [(-> & ks & [= <-] & ?)|(-> & t & ks & ? & ? & ?)]; (split; [done|]).
      * exists text, keys. split; [by left|done].
      * exists t, ks. split; [by right|done].
    + intros (-> & t & ks & [[= ->]|Ht]%elem_of_cons & Hp & Hin); [left|right]; (split; [done|]); [|by exists t, ks].
      exists ks. split; [congruence|done].
  - intros H. eapply extends_iff; [|by apply IH]. intros p k. split.
    + intros (-> & t & ks & ? & ?). split; [done|]. exists t, ks. split; [by right|done].
    + intros (-> & t & ks & [[= ->]|Ht]%elem_of_cons & Hp & Hin); [congruence|]. split; [done|]. by exists t, ks.
Qed.

Definition inline_material (files : list File) (p : gostring) (k : parsedKey) : Prop :=
  ∃ f data text keys, f ∈ files ∧ fi_ArchivePath f ≠ [] ∧ read (fi_ArchivePath f) = Some data ∧
    RefArmored text ∈ extractSignedBy data ∧ parseInlineArmoredKey text = Ok keys ∧ k ∈ keys ∧ p = fi_Path f.
Lemma derive_inline_extends files : ∀ out out', keyed out → derive_inline files out = Ok out' →
  extends (inline_material files) out out'.
Proof.
  induction files as [|f files IH]; intros out out' Hk; cbn [derive_inline].
  { intros [= <-]. apply extends_refl; [done|]. intros p k (f & ? & ? & ? & ?%elem_of_nil & _). done. }
  destruct (streq (fi_ArchivePath f) "") eqn:E.
  - apply bool_decide_eq_true in E. intros H. eapply extends_iff; [|by apply IH]. intros p k.
    split; intros (g & data & text & keys & Hg & Hrest).
    + exists g, data, text, keys. split; [by right|done].
    + exists g, data, text, keys. apply elem_of_cons in Hg as [->|Hg]; [|done]. by destruct Hrest as [? _].
  - apply bool_decide_eq_false in E. destruct (read (fi_ArchivePath f)) as [data|] eqn:Hr; [|done].
    rewrite bind_Ok. intros (o1 & Ha & Hd). pose proof (derive_refs_extends _ _ _ _ Hk Ha) as He.
    pose proof (IH _ _ (proj1 He) Hd) as He2. eapply extends_iff; [|by eapply extends_trans]. intros p k. split.
    + intros [(-> & text & keys & ? & ? & ?)|(g & d & text & keys & Hg & Hrest)].
      * exists f, data, text, keys. split_and!; try done. by left.
      * exists g, d, text, keys. split; [by right|done].
    + intros (g & d & text & keys & [->|Hg]%elem_of_cons & Hrest).
      * left. destruct Hrest as (_ & Hr' & Ht & Hp & Hin & ->). split; [done|]. exists text, keys.
        rewrite Hr in Hr'. by simplify_eq.
      * right. by exists g, d, text, keys.
Qed.

Lemma material_split s p k : material s p k ↔
  file_material (ap_Keyrings (sn_APT s) ++ ap_Trusted (sn_APT s)) p k ∨ inline_material (ap_Sources (sn_APT s)) p k.
Proof.
  split.
  - destruct 1; [left; by exists f, data, keys|right; by exists f, data, text, keys].
  - intros [(f & data & keys & ? & ? & ? & ? & ? & ->)|(f & data & text & keys & ? & ? & ? & ? & ? & ? & ->)];
      [by eapply material_file|by eapply material_inline].
Qed.

Lemma derive_extends s m : deriveKeyMaterial s = Ok m → extends (material s) ∅ m.
Proof.
  unfold deriveKeyMaterial. rewrite bind_Ok. intros (o & H1 & H2).
  assert (keyed ∅) as Hk by (intros ? ? ? ? E; by rewrite lookup_empty in E).
  pose proof (derive_keyrings_extends _ _ _ Hk H1) as He. pose proof (derive_inline_extends _ _ _ (proj1 He) H2) as He2.
  eapply extends_iff; [|by eapply extends_trans]. intros p k. by rewrite material_split.
Qed.

Lemma sorted_keys_elem {A} (m : gmap gostring A) k : k ∈ sorted_keys m ↔ is_Some (m !! k).
Proof.
  unfold sorted_keys. rewrite elem_of_sort_strings, list_elem_of_In, in_map_iff. split.
  - intros ([k' v] & <- & Hin). apply list_elem_of_In, elem_of_map_to_list in Hin. by exists v.
  - intros [v Hv]. exists (k, v). split; [done|]. by apply list_elem_of_In, elem_of_map_to_list.
Qed.

End derive.

(** (C29) A document whose keyring check passes records the whole truth about
    the key material it carries and nothing else: every recorded fingerprint is
    that of a key in the bytes of the keyring (or the source with the inline
    key) it names, with that key's id, if one is recorded, and its user ids; and
    every key in those bytes is recorded. Only a document with neither
    fingerprints nor keyrings is not checked. *)
Theorem keyrings_told_truly read s :
  verifyKeyringFingerprints read s = Ok tt →
  (sn_KeyringFingerprints s = [] ∧ ap_Keyrings (sn_APT s) = [] ∧ ap_Trusted (sn_APT s) = [])
  ∨ (∀ kf, kf ∈ sn_KeyringFingerprints s → ∃ k, material read s (kf_Keyring kf) k ∧ pk_Fingerprint k = kf_Fingerprint kf
       ∧ (kf_KeyID kf = [] ∨ kf_KeyID kf = pk_KeyID k) ∧ kf_UserIDs kf = pk_UserIDs k)
  ∧ (∀ path k, material read s path k → ∃ kf, kf ∈ sn_KeyringFingerprints s ∧ kf_Keyring kf = path
       ∧ kf_Fingerprint kf = pk_Fingerprint k).
Proof.
  unfold verifyKeyringFingerprints. intros Hv.
  assert ((sn_KeyringFingerprints s = [] ∧ ap_Keyrings (sn_APT s) = [] ∧ ap_Trusted (sn_APT s) = []) ∨
    ∃ m, deriveKeyMaterial read s = Ok m ∧ first_err (check_claim m) (sn_KeyringFingerprints s) = None
      ∧ unrecorded m (sn_KeyringFingerprints s) = None) as [?|(m & Hm & Hc & Hu)].
  { destruct (sn_KeyringFingerprints s), (ap_Keyrings (sn_APT s)), (ap_Trusted (sn_APT s)); [by left|..]; right;
      apply bind_Ok in Hv as (m & Hm & Hv); exists m; (split; [done|]);
      (destruct (first_err (check_claim m) _); [done|]); (destruct (unrecorded m _); [done|]); done. }
  { by left. }
  right. destruct (derive_extends _ _ _ Hm) as (Hk & Hs & Hf). split.
  - intros kf Hkf. pose proof (proj1 (first_err_None _ _) Hc kf Hkf) as Hkf'. unfold check_claim in Hkf'.
    destruct (m !! kf_Keyring kf) as [dk|] eqn:Hdk; [|done].
    destruct (dk_keys dk !! kf_Fingerprint kf) as [k|] eqn:Hfp; [|done]. exists k.
    pose proof (Hk _ _ _ _ Hdk Hfp) as Heq.
    destruct (negb (streq (kf_KeyID kf) "") && negb (streq (kf_KeyID kf) (pk_KeyID k))) eqn:Hid; [done|].
    destruct (negb (bool_decide (kf_UserIDs kf = pk_UserIDs k))) eqn:Hus; [done|]. split_and!; [|done| |].
    + destruct (Hs (kf_Keyring kf) k) as [(d & E & _)|?]; [exists dk; by rewrite <- Heq|by rewrite lookup_empty in E|done].
    + apply andb_false_iff in Hid as [Hid|Hid]; apply negb_false_iff, bool_decide_eq_true in Hid; auto.
    + by apply negb_false_iff, bool_decide_eq_true in Hus.
  - intros path k Hmat. destruct (Hf path (pk_Fingerprint k)) as (dk & Hdk & Hfp); [right; by exists k|].
    pose proof (proj1 (first_err_None _ _) Hu path (proj2 (sorted_keys_elem _ _) (ex_intro _ dk Hdk))) as Hp.
    cbn beta in Hp. rewrite Hdk in Hp.
    pose proof (proj1 (first_err_None _ _) Hp (pk_Fingerprint k) (proj2 (sorted_keys_elem _ _) Hfp)) as Hr. cbn beta in Hr.
    destruct (claims (sn_KeyringFingerprints s) path (pk_Fingerprint k)) eqn:Hcl; [|done].
    apply existsb_exists in Hcl as (kf & Hin & [H1%bool_decide_eq_true H2%bool_decide_eq_true]%andb_true_iff).
    exists kf. by rewrite list_elem_of_In.
Qed.

End keyring.

(** A parser for which a keyring is one key, whose fingerprint is the text. *)
#[export] Instance toy_pgp : OpenPGP := {|
  ReadKeyRing data := if streq data "" then Err (bytes_of "empty") else Ok [Some (mkEntity (Some (data, bytes_of "id")) [] [])];
  ReadArmoredKeyRing data := Err (bytes_of "no armour")
|}.
Definition captured_file (path ap : gostring) : File := mkFile path ap 0 [] [] false.
Definition keyring_snapshot : Snapshot :=
  mkSnapshot [] [] (mkTool [] [] []) zero_Target
    (mkAPT [] [] [] [] [captured_file "/usr/share/keyrings/a.gpg" "k/a.gpg"]) zero_File (mkOrigin [] [] [] [] []) 0
    [mkKeyFingerprint (fingerprintHex "KEY") [] [] "/usr/share/keyrings/a.gpg" []] ∅ [] [].
Definition keyring_bytes (p : gostring) : option gostring := if streq p "k/a.gpg" then Some (bytes_of "KEY") else None.
Lemma keyrings_told_truly_witness : verifyKeyringFingerprints keyring_bytes keyring_snapshot = Ok tt
  ∧ ∃ k, material keyring_bytes keyring_snapshot "/usr/share/keyrings/a.gpg" k ∧ pk_Fingerprint k = fingerprintHex "KEY".
Proof.
  assert (verifyKeyringFingerprints keyring_bytes keyring_snapshot = Ok tt) as H by (vm_compute; reflexivity).
  split; [exact H|]. destruct (keyrings_told_truly keyring_bytes keyring_snapshot H) as [(_ & E & _)|[Hk _]]; [discriminate E|].
  destruct (Hk (mkKeyFingerprint (fingerprintHex "KEY") [] [] "/usr/share/keyrings/a.gpg" [])) as (k & Hm & Hf & _); [by left|].
  exact (ex_intro _ k (conj Hm Hf)).
Defined.
