(* ===== verification/Snapshot.v ===== *)
(** * core/snapshot: paths.go, displaystrings.go, validate.go, redact.go.

    Which documents are accepted, the strings a person will see made safe, and
    what redaction takes out. *)
From S2P Require Export SnapshotTypes Clock GoPath Digest GoRegexp.
#[local] Open Scope Z_scope.

(** The [Bytes] of a [FileSet]. *)
Abbreviation fileset := (gmap gostring gostring).

Section snapshot.
Context {unicode : UnicodeTables}.

(** ** displaystrings.go *)

Definition maxWarnings : Z := 256.
Definition maxWarningLen : Z := 4096.
Definition maxLabels : Z := 64.
Definition maxLabelKeyLen : Z := 128.
Definition maxLabelValueLen : Z := 1024.
Definition maxDisplayStringLen : Z := 256.
Definition maxAssumedInstalled : Z := 65536.
Definition maxAssumedInstalledLength : Z := 256.

Definition hasControlChars (s : gostring) : bool :=
  existsb (λ c, (ord c <? 32) || (ord c =? 127)) s || existsb (λ r, (128 <=? r) && (r <=? 159)) (runes s).

(** Why a document is refused; every refusal is of the class [Verification]. *)
Inductive invalid :=
| UnknownSchema (v : gostring) | BadTime (v : gostring) | MissingField (f : gostring) | BadArch (v : gostring)
| MisplacedOrigin | BadOriginKind (v : gostring) | BadSourceDigest (v : gostring)
| TooManyAssumed | BadAssumed (v : gostring)
| TooLong (field : gostring) | HasControl (field : gostring) | TooManyWarnings | TooManyLabels
| BadPath (v : gostring) | BadFileDigest (path : gostring) | UnsafeArchivePath (path ap : gostring)
| ContestedArchivePath (ap : gostring) | BadFingerprint (v : gostring).

Definition checkDisplayString (field value : gostring) (limit : Z) : option invalid :=
  if limit <? Z.of_nat (length value) then Some (TooLong field)
  else if hasControlChars value then Some (HasControl field) else None.
Definition single_fields (s : Snapshot) : list (gostring * gostring) :=
  let t := sn_Target s in [
  (bytes_of "tool.name", to_Name (sn_Tool s)); (bytes_of "tool.version", to_Version (sn_Tool s));
  (bytes_of "tool.edition", to_Edition (sn_Tool s)); (bytes_of "target.distro_id", ta_DistroID t);
  (bytes_of "target.version_id", ta_VersionID t); (bytes_of "target.codename", ta_Codename t);
  (bytes_of "target.pretty_name", ta_PrettyName t); (bytes_of "target.apt_version", ta_APTVersion t);
  (bytes_of "target.dpkg_version", ta_DpkgVersion t); (bytes_of "target.machine_id", ta_MachineID t)].
Definition or_else {A} (a b : option A) : option A := match a with Some x => Some x | None => b end.
Fixpoint warnings_loop (i : Z) (ws : list gostring) : option invalid :=
  match ws with
  | [] => None
  | w :: ws => or_else (checkDisplayString ("warnings[" ++ itoa i ++ "]") w maxWarningLen) (warnings_loop (i + 1) ws)
  end.
Definition label_check (s : Snapshot) (k : gostring) : option invalid :=
  or_else (checkDisplayString "labels key" k maxLabelKeyLen)
    (checkDisplayString ("labels[" ++ k ++ "]") (default [] (sn_Labels s !! k)) maxLabelValueLen).
Definition checkDisplayStrings (s : Snapshot) : option invalid :=
  or_else (first_err (λ f, checkDisplayString f.1 f.2 maxDisplayStringLen) (single_fields s))
  (or_else (first_err (λ r, checkDisplayString "redactions" r maxDisplayStringLen) (sn_Redactions s))
  (if maxWarnings <? Z.of_nat (length (sn_Warnings s)) then Some TooManyWarnings
   else or_else (warnings_loop 0 (sn_Warnings s))
   (if maxLabels <? Z.of_nat (size (sn_Labels s)) then Some TooManyLabels
    else first_err (label_check s) (sorted_keys (sn_Labels s))))).
Definition checkAssumedInstalled (names : list gostring) : option invalid :=
  if maxAssumedInstalled <? Z.of_nat (length names) then Some TooManyAssumed
  else first_err (λ n, if maxAssumedInstalledLength <? Z.of_nat (length n) then Some (BadAssumed n)
                       else if hasControlChars n then Some (BadAssumed n) else None) names.

(** [sanitizeCaptured]: a rune at a time, then whole runes off the end. *)
Definition control_rune (r : Z) : bool := (r <? 32) || (r =? 127) || ((128 <=? r) && (r <=? 159)).
Definition blank_control (s : gostring) : gostring :=
  concat (map (λ r, if control_rune r then bytes_of " " else encode_rune r) (runes s)).
(** The bytes of the last rune, as [utf8.DecodeLastRuneInString] finds it. *)
Definition last_rune_size (s : gostring) : nat :=
  let n := length s in
  let fits k := match decode (drop (n - k) s) with [(r, w)] => Nat.eqb (length w) k && valid_rune (r, w) | _ => false end in
  if fits 1%nat then 1 else if Nat.leb 2 n && fits 2%nat then 2 else if Nat.leb 3 n && fits 3%nat then 3
  else if Nat.leb 4 n && fits 4%nat then 4 else 1.
Fixpoint truncate (fuel : nat) (limit : Z) (s : gostring) : gostring :=
  match fuel with
  | O => s
  | S fuel => if limit <? Z.of_nat (length s) then truncate fuel limit (take (length s - last_rune_size s) s) else s
  end.
Definition sanitizeCaptured (s : gostring) (limit : Z) : gostring :=
  let s := if hasControlChars s then trim_space (blank_control s) else s in truncate (length s) limit s.

(** [sanitizeSnapshotStrings]; the labels are read in [order], which Go leaves
    open: when two keys become one, the later value stays. *)
Definition sanitize_field (s : gostring) : gostring := sanitizeCaptured s maxDisplayStringLen.
Definition sanitize_tool (t : Tool) : Tool :=
  mkTool (sanitize_field (to_Name t)) (sanitize_field (to_Version t)) (sanitize_field (to_Edition t)).
Definition sanitize_target (t : Target) : Target :=
  mkTarget (sanitize_field (ta_DistroID t)) (sanitize_field (ta_VersionID t)) (sanitize_field (ta_Codename t))
    (sanitize_field (ta_PrettyName t)) (ta_Arch t) (ta_ForeignArchs t) (sanitize_field (ta_APTVersion t))
    (sanitize_field (ta_DpkgVersion t)) (sanitize_field (ta_MachineID t)) (ta_OSRelease t).
Definition bound_warnings (ws : list gostring) : list gostring :=
  if maxWarnings <? Z.of_nat (length ws) then
    take (Z.to_nat (maxWarnings - 1)) ws
    ++ ["snapshot: " ++ itoa (Z.of_nat (length ws) - (maxWarnings - 1)) ++ " further warnings were dropped to keep the document bounded"]
  else ws.
Definition sanitize_label (labels : gmap gostring gostring) (out : gmap gostring gostring) (k : gostring) : gmap gostring gostring :=
  <[sanitizeCaptured k maxLabelKeyLen := sanitizeCaptured (default [] (labels !! k)) maxLabelValueLen]> out.
Definition sanitizeSnapshotStrings (order : list gostring) (s : Snapshot) : Snapshot :=
  mkSnapshot (sn_SchemaVersion s) (sn_CreatedAt s) (sanitize_tool (sn_Tool s)) (sanitize_target (sn_Target s)) (sn_APT s)
    (sn_DpkgStatus s) (sn_Origin s) (sn_InstalledCount s) (sn_KeyringFingerprints s)
    (fold_left (sanitize_label (sn_Labels s)) order ∅) (sn_Redactions s)
    (map (λ w, sanitizeCaptured w maxWarningLen) (bound_warnings (sn_Warnings s))).

(** ** paths.go *)

Definition toArchivePath (targetPath : gostring) : gostring := trim_prefix "/" (path_clean ("/" ++ targetPath)).
Definition safeArchivePath (p : gostring) : bool :=
  if streq p "" || streq p "." || negb (streq p (path_clean p)) then false
  else if has_prefix "/" p then false
  else if contains_byte "\" p || contains_byte ":" p then false
  else if hasControlChars p then false
  else forallb (λ seg, negb (streq seg ".." || streq seg "." || streq seg "")) (split slash p).

(** ** validate.go *)

Definition arch_byte (i : nat) (r : Z) : bool :=
  ((97 <=? r) && (r <=? 122)) || ((48 <=? r) && (r <=? 57) && Nat.ltb 0 i) || ((r =? 45) && Nat.ltb 0 i).
Fixpoint arch_runes (i : nat) (rs : list Z) : bool :=
  match rs with [] => true | r :: rs => arch_byte i r && arch_runes (S i) rs end.
Definition plausibleArch (a : gostring) : bool :=
  negb (streq a "") && Nat.leb (length a) 32 && arch_runes 0 (runes a).
Definition plausibleFingerprint (fp : gostring) : bool :=
  (Nat.eqb (length fp) 40 || Nat.eqb (length fp) 64)
  && forallb (λ r, ((48 <=? r) && (r <=? 57)) || ((65 <=? r) && (r <=? 70))) (runes fp).

Definition check_origin (o : Origin) : option invalid :=
  if streq (or_Kind o) OriginCaptured then
    if negb (streq (or_BaseID o) "") || negb (streq (or_Source o) "") || negb (streq (or_SourceDigest o) "")
    then Some MisplacedOrigin
    else match or_AssumedInstalled o with [] => None | _ => Some MisplacedOrigin end
  else if streq (or_Kind o) OriginSynthesized then
    if streq (trim_space (or_BaseID o)) "" then Some (MissingField "origin.base_id")
    else if negb (streq (or_SourceDigest o) "") && negb (Digest.Valid (or_SourceDigest o))
    then Some (BadSourceDigest (or_SourceDigest o))
    else checkAssumedInstalled (or_AssumedInstalled o)
  else if streq (or_Kind o) "" then Some (MissingField "origin.kind") else Some (BadOriginKind (or_Kind o)).

Definition contested (prior : option File) (f : File) : bool :=
  match prior with
  | Some p => negb (streq (fi_Path p) (fi_Path f)) || negb (streq (fi_SHA256 p) (fi_SHA256 f))
  | None => false
  end.
Fixpoint files_loop (seen : gmap gostring File) (files : list File) : option invalid :=
  match files with
  | [] => None
  | f :: rest =>
      if streq (fi_Path f) "" && streq (fi_ArchivePath f) "" then files_loop seen rest
      else if hasControlChars (fi_Path f) then Some (BadPath (fi_Path f))
      else if negb (Digest.Valid (fi_SHA256 f)) then Some (BadFileDigest (fi_Path f))
      else if negb (safeArchivePath (fi_ArchivePath f)) then Some (UnsafeArchivePath (fi_Path f) (fi_ArchivePath f))
      else if contested (seen !! fi_ArchivePath f) f then Some (ContestedArchivePath (fi_ArchivePath f))
      else files_loop (<[fi_ArchivePath f := f]> seen) rest
  end.
Definition doValidate (s : Snapshot) : option invalid :=
  let t := sn_Target s in
  if negb (streq (sn_SchemaVersion s) SchemaVersion) then Some (UnknownSchema (sn_SchemaVersion s))
  else match ParseTime (sn_CreatedAt s) with
  | None => Some (BadTime (sn_CreatedAt s))
  | Some _ =>
      if streq (trim_space (ta_DistroID t)) "" then Some (MissingField "target.distro_id")
      else if streq (trim_space (ta_VersionID t)) "" then Some (MissingField "target.version_id")
      else if negb (plausibleArch (ta_Arch t)) then Some (BadArch (ta_Arch t))
      else or_else (first_err (λ a, if plausibleArch a then None else Some (BadArch a)) (ta_ForeignArchs t))
        (if streq (fi_Path (sn_DpkgStatus s)) "" || streq (fi_ArchivePath (sn_DpkgStatus s)) ""
         then Some (MissingField "dpkg_status")
         else or_else (check_origin (sn_Origin s))
           (or_else (checkDisplayStrings s)
             (or_else (files_loop ∅ (Files s))
               (first_err (λ kf, if plausibleFingerprint (kf_Fingerprint kf) then None
                                 else Some (BadFingerprint (kf_Fingerprint kf))) (sn_KeyringFingerprints s)))))
  end.

(** ** redact.go *)

Definition blank_re : re := Cls (λ c, beq c " " || beq c (chr 9)).
(** A class of word bytes under [(?i)], with the two runes that fold into it. *)
Definition scheme_char : re :=
  alts [Cls (λ c, is_digit c || is_lower c || is_upper c || beq c "_"); Lit [chr 197; chr 191]; Lit [chr 226; chr 132; chr 170]].
Definition not_bytes (l : gostring) : re := Cls (λ c, negb (contains_byte c l)).
Definition quote_byte : ascii := chr 34.
Definition host_stops : gostring := [chr 9; chr 10; chr 12; chr 13; " "; quote_byte; "{"; "}"; ";"]%char.
(** The expression has [^] and [$] at the ends of a line and nothing in it matches
    a newline, so it is applied to one line. *)
Definition proxyDirectiveRE : re :=
  cats [Bol; Cap 1 (cats [any blank_re; lit_fold "Acquire::"; Cap 2 (many scheme_char); lit_fold "::Proxy"]);
        Opt (Cap 3 (cats [Lit "::"; many (not_bytes host_stops)])); Cap 4 (many blank_re); Cap 5 (Opt (Lit [quote_byte]));
        Cap 6 (Star false (not_bytes [";"%char; quote_byte; chr 13; chr 10])); Cap 7 (Opt (Lit [quote_byte]));
        Cap 8 (cats [any blank_re; Lit ";"; any dot]); Eol].
Definition is_alnum (c : ascii) : bool := is_digit c || is_lower c || is_upper c.
Definition credentialValueRE : re :=
  cats [Lit [quote_byte];
        Cap 1 (cats [Cls (λ c, is_lower c || is_upper c); any (Cls (λ c, is_alnum c || beq c "+" || beq c "." || beq c "-"));
                     Lit "://"; any (not_bytes [quote_byte; "@"%char]); Lit "@"; any (not_bytes [quote_byte])]);
        Lit [quote_byte]].

Fixpoint cut_str (p s : gostring) : option (gostring * gostring) :=
  match cut_prefix p s with
  | Some r => Some ([], r)
  | None => match s with c :: s' => '(a, b) ← cut_str p s'; Some (c :: a, b) | [] => None end
  end.
Definition redactCredentials (v : gostring) : option gostring :=
  '(scheme, rest) ← cut_str (bytes_of "://") v;
  '(user, host) ← cut "@" rest;
  match user with [] => None | _ => Some (scheme ++ "://" ++ "REDACTED@" ++ host) end.
Definition joinProxyLine (prefix hostSuffix ws openq value closeq tail : gostring) : gostring :=
  prefix ++ hostSuffix ++ ws ++ openq ++ value ++ closeq ++ tail.
(** A line that is a proxy directive, rewritten; [None] leaves it. *)
Definition redact_line (line : gostring) : option gostring :=
  m ← find_submatch proxyDirectiveRE line;
  let joined value := joinProxyLine (group 1 m) (group 3 m) (group 4 m) (group 5 m) value (group 7 m) (group 8 m) in
  if streq (group 3 m) "" && (equal_fold (group 2 m) (bytes_of "http") || equal_fold (group 2 m) (bytes_of "https")) then
    let t := trim_space (group 6 m) in
    if equal_fold t (bytes_of "DIRECT") || streq t "" then None else Some (joined (bytes_of "REDACTED"))
  else joined <$> redactCredentials (group 6 m).
Definition redact_value (whole : gostring) (gs : groups) : gostring :=
  match redactCredentials (group 1 gs) with Some nv => [quote_byte] ++ nv ++ [quote_byte] | None => whole end.
(** A replacement that changes nothing counts as a change in the source; it is
    recorded by [redacts]. *)
Definition redact_lines (data : gostring) : gostring :=
  join [newline] (map (λ l, default l (redact_line l)) (split newline data)).
Definition line_redacts (data : gostring) : bool :=
  existsb (λ l, match redact_line l with Some _ => true | None => false end) (split newline data).
Definition value_redacts (data : gostring) : bool :=
  existsb (λ gs, match redactCredentials (group 1 gs) with Some _ => true | None => false end) (find_all credentialValueRE data).
Definition redactProxyBytes (data : gostring) : gostring * bool :=
  let out := redact_lines data in
  (replace_all_func credentialValueRE redact_value out, line_redacts data || value_redacts out).

(** A snapshot and the bytes of its captured files. *)
Definition redact_conf (fs : gmap gostring gostring) (f : File) : File * gmap gostring gostring :=
  match fs !! fi_ArchivePath f with
  | None => (f, fs)
  | Some data =>
      let '(out, changed) := redactProxyBytes data in
      if negb changed then (f, fs)
      else (mkFile (fi_Path f) (fi_ArchivePath f) (Z.of_nat (length out)) (Digest.Bytes out) (fi_Mode f) true,
            <[fi_ArchivePath f := out]> fs)
  end.
Fixpoint redact_confs (fs : gmap gostring gostring) (files : list File) : list File * gmap gostring gostring :=
  match files with
  | [] => ([], fs)
  | f :: rest =>
      let '(f', fs') := redact_conf fs f in
      let '(rest', fs'') := redact_confs fs' rest in (f' :: rest', fs'')
  end.
Definition with_machine_id (id : gostring) (t : Target) : Target :=
  mkTarget (ta_DistroID t) (ta_VersionID t) (ta_Codename t) (ta_PrettyName t) (ta_Arch t) (ta_ForeignArchs t)
    (ta_APTVersion t) (ta_DpkgVersion t) id (ta_OSRelease t).
Definition with_conf (l : list File) (a : APT) : APT := mkAPT (ap_Sources a) (ap_Preferences a) l (ap_Trusted a) (ap_Keyrings a).
Definition set_target (t : Target) (s : Snapshot) : Snapshot :=
  mkSnapshot (sn_SchemaVersion s) (sn_CreatedAt s) (sn_Tool s) t (sn_APT s) (sn_DpkgStatus s) (sn_Origin s)
    (sn_InstalledCount s) (sn_KeyringFingerprints s) (sn_Labels s) (sn_Redactions s) (sn_Warnings s).
Definition set_apt (a : APT) (s : Snapshot) : Snapshot :=
  mkSnapshot (sn_SchemaVersion s) (sn_CreatedAt s) (sn_Tool s) (sn_Target s) a (sn_DpkgStatus s) (sn_Origin s)
    (sn_InstalledCount s) (sn_KeyringFingerprints s) (sn_Labels s) (sn_Redactions s) (sn_Warnings s).
Definition set_labels (m : gmap gostring gostring) (s : Snapshot) : Snapshot :=
  mkSnapshot (sn_SchemaVersion s) (sn_CreatedAt s) (sn_Tool s) (sn_Target s) (sn_APT s) (sn_DpkgStatus s) (sn_Origin s)
    (sn_InstalledCount s) (sn_KeyringFingerprints s) m (sn_Redactions s) (sn_Warnings s).
Definition set_redactions (l : list gostring) (s : Snapshot) : Snapshot :=
  mkSnapshot (sn_SchemaVersion s) (sn_CreatedAt s) (sn_Tool s) (sn_Target s) (sn_APT s) (sn_DpkgStatus s) (sn_Origin s)
    (sn_InstalledCount s) (sn_KeyringFingerprints s) (sn_Labels s) l (sn_Warnings s).
Definition set_warnings (l : list gostring) (s : Snapshot) : Snapshot :=
  mkSnapshot (sn_SchemaVersion s) (sn_CreatedAt s) (sn_Tool s) (sn_Target s) (sn_APT s) (sn_DpkgStatus s) (sn_Origin s)
    (sn_InstalledCount s) (sn_KeyringFingerprints s) (sn_Labels s) (sn_Redactions s) l.

Definition redactProxies (s : Snapshot) (fs : fileset) : Snapshot * fileset :=
  let '(conf, fs') := redact_confs fs (ap_Conf (sn_APT s)) in (set_apt (with_conf conf (sn_APT s)) s, fs').
(** [None] for the files is the nil [FileSet]. *)
Definition redact_kind (st : Snapshot * option fileset) (kind : gostring) : Snapshot * option fileset :=
  let '(s, fs) := st in
  if streq kind RedactMachineID then (set_target (with_machine_id [] (sn_Target s)) s, fs)
  else if streq kind RedactLabels then (set_labels ∅ s, fs)
  else if streq kind RedactProxies then
    match fs with Some m => let '(s', m') := redactProxies s m in (s', Some m') | None => (s, fs) end
  else (s, fs).
Definition known_kind (kind : gostring) : bool :=
  streq kind RedactMachineID || streq kind RedactLabels || streq kind RedactProxies.
Fixpoint dedup (seen : gset gostring) (l : list gostring) : list gostring :=
  match l with
  | [] => []
  | x :: l => if bool_decide (x ∈ seen) then dedup seen l else x :: dedup ({[x]} ∪ seen) l
  end.
Definition doRedact (s : Snapshot) (fs : option fileset) (kinds : list gostring) : Snapshot * option fileset :=
  match kinds with
  | [] => (s, fs)
  | _ =>
      let '(s', fs') := fold_left redact_kind kinds (s, fs) in
      (set_redactions (sort_strings (dedup ∅ (sn_Redactions s ++ List.filter known_kind kinds))) s', fs')
  end.
End snapshot.
