(* ===== verification/Base.v ===== *)
(** * core/base: definitions of a stock release.

    base.go, builtin.go, parse.go and list.go. The YAML library is a parameter
    ([YAML]): what the first document of a text is under [KnownFields], and
    whether the stream ends there. A file is what [os.Stat] and [os.ReadFile] say
    of it. Of errors only the class is kept. *)
From S2P Require Export Distro Canonical PathJoin Snapshot.
#[local] Open Scope Z_scope.

Definition SchemaVersion : gostring := "debark.base/v1".
Definition DefaultVariant : gostring := "minimal".
(** [Definition] *)
Record BaseDefinition := mkBase {
  bd_SchemaVersion : gostring; bd_ID : gostring; bd_Description : gostring; bd_DistroID : gostring; bd_VersionID : gostring;
  bd_Codename : gostring; bd_Variant : gostring; bd_Arch : gostring; bd_Seeds : list gostring; bd_Recommends : bool;
  bd_Sources : gostring; bd_Excludes : list gostring; bd_Keyrings : list gostring
}.
Definition enc_BaseDefinition (d : BaseDefinition) : json := enc_struct [
  (bytes_of "schema_version", enc_string (bd_SchemaVersion d)); (bytes_of "id", enc_string (bd_ID d));
  (bytes_of "description", omit_string (bd_Description d)); (bytes_of "distro_id", enc_string (bd_DistroID d));
  (bytes_of "version_id", enc_string (bd_VersionID d)); (bytes_of "codename", enc_string (bd_Codename d));
  (bytes_of "variant", omit_string (bd_Variant d)); (bytes_of "arch", enc_string (bd_Arch d));
  (bytes_of "seeds", enc_slice JStr (bd_Seeds d)); (bytes_of "recommends", enc_bool (bd_Recommends d));
  (bytes_of "sources", enc_string (bd_Sources d)); (bytes_of "excludes", omit_slice JStr (bd_Excludes d));
  (bytes_of "keyrings", omit_slice JStr (bd_Keyrings d))].

(** ** Placeholders *)

(** [strings.Replacer] of the three names: one pass, from the left. *)
Definition placeholders (d : BaseDefinition) : list (gostring * gostring) :=
  [(bytes_of "${codename}", bd_Codename d); (bytes_of "${version_id}", bd_VersionID d); (bytes_of "${arch}", bd_Arch d)].
Fixpoint replace_pass (pairs : list (gostring * gostring)) (skip : nat) (s : gostring) : gostring :=
  match s with
  | [] => []
  | c :: s' =>
      match skip with
      | S skip => replace_pass pairs skip s'
      | O => match find (λ p, has_prefix p.1 s) pairs with
          | Some (old, new) => new ++ replace_pass pairs (length old - 1) s'
          | None => c :: replace_pass pairs 0 s'
          end
      end
  end.
Definition Expand (d : BaseDefinition) (s : gostring) : gostring := replace_pass (placeholders d) 0 s.
Definition Materialise (d : BaseDefinition) (arch : gostring) : BaseDefinition :=
  let arch := if streq arch "" then bd_Arch d else arch in
  let out := mkBase (bd_SchemaVersion d) (bd_ID d) (bd_Description d) (bd_DistroID d) (bd_VersionID d) (bd_Codename d) (bd_Variant d)
    arch (bd_Seeds d) (bd_Recommends d) (bd_Sources d) (bd_Excludes d) (bd_Keyrings d) in
  mkBase (bd_SchemaVersion d) (bd_ID d) (bd_Description d) (bd_DistroID d) (bd_VersionID d) (bd_Codename d) (bd_Variant d)
    arch (map (Expand out) (bd_Seeds d)) (bd_Recommends d) (Expand out (bd_Sources d)) (map (Expand out) (bd_Excludes d))
    (map (Expand out) (bd_Keyrings d)).
Definition Digest_ `{JCS} (d : BaseDefinition) : result canonical_error gostring := Canonical.Digest (enc_BaseDefinition d).

(** ** Validate *)

Definition maxDisplayString : Z := 256.
Definition display_ok (s : gostring) : bool :=
  (Z.of_nat (length s) <=? maxDisplayString)
  && negb (existsb (λ r, (r <? 32) || (r =? 127) || ((128 <=? r) && (r <=? 159))) (runes s)).

Section base.
Context {unicode : UnicodeTables}.

Definition blank (s : gostring) : bool := streq (trim_space s) "".
Definition usage (c : bool) : option goerror := if c then Some (New Usage []) else None.
Definition Validate (d : BaseDefinition) : option goerror :=
  first_err usage [
    negb (streq (bd_SchemaVersion d) SchemaVersion); blank (bd_ID d);
    negb (display_ok (bd_ID d)); negb (display_ok (bd_Description d)); negb (display_ok (bd_Variant d));
    blank (bd_DistroID d); blank (bd_VersionID d); blank (bd_Codename d); blank (bd_Arch d);
    bool_decide (bd_Seeds d = []); existsb blank (bd_Seeds d);
    existsb (λ e, blank e || contains_byte ":" e) (bd_Excludes d);
    blank (bd_Sources d); contains_str "${" (bd_Sources d);
    existsb (λ k, negb (has_prefix "/" k)) (bd_Keyrings d)].

(** ** The builtin table (builtin.go) *)

Record variant := mkVariant { va_name : gostring; va_description : gostring; va_debianSeeds : list gostring; va_ubuntuSeeds : list gostring }.
#[export] Instance variant_eq_dec : EqDecision variant.
Proof. solve_decision. Defined.
Definition variants : list variant :=
  [mkVariant "minimal" "a minimal install: the base system and apt, nothing chosen by an installer profile"
     (map bytes_of ["apt"; "init"]%string) [bytes_of "ubuntu-minimal"];
   mkVariant "server" "a server install: the minimal system plus the standard server set"
     (map bytes_of ["apt"; "init"; "openssh-server"]%string) [bytes_of "ubuntu-server-minimal"];
   mkVariant "desktop" "a desktop install: the minimal system plus the default desktop environment"
     (map bytes_of ["apt"; "init"; "task-gnome-desktop"]%string) [bytes_of "ubuntu-desktop-minimal"]].
Definition builtinReleases : list (gostring * gostring) :=
  [(Debian, bytes_of "12"); (Debian, bytes_of "13"); (Ubuntu, bytes_of "22.04"); (Ubuntu, bytes_of "24.04"); (Ubuntu, bytes_of "26.04")].

Definition ubuntuArchive : gostring := "http://archive.ubuntu.com/ubuntu".
Definition ubuntuSecurity : gostring := "http://security.ubuntu.com/ubuntu".
Definition ubuntuPortsArchive : gostring := "http://ports.ubuntu.com/ubuntu-ports".
Definition debianArchive : gostring := "http://deb.debian.org/debian".
Definition debianSecurity : gostring := "http://security.debian.org/debian-security".
Definition ubuntuExcludes : list gostring := [bytes_of "lsb-base"].
Definition ubuntuKeyring : gostring := "/usr/share/keyrings/ubuntu-archive-keyring.gpg".
Definition debianKeyring : gostring := "/usr/share/keyrings/debian-archive-keyring.gpg".
Definition ubuntuPortsArches : list gostring := map bytes_of ["arm64"; "armhf"; "ppc64el"; "s390x"; "riscv64"]%string.
Definition ubuntuComponents : gostring := "main restricted universe multiverse".
Definition debianComponents : gostring := "main contrib non-free non-free-firmware".

(** One stanza of the deb822 text. *)
Definition source_stanza (uri suites components keyring : gostring) : gostring :=
  "Types: deb" ++ [newline] ++ "URIs: " ++ uri ++ [newline] ++ "Suites: " ++ suites ++ [newline] ++ "Components: " ++ components
  ++ [newline] ++ "Signed-By: " ++ keyring ++ [newline].
Definition ubuntuSources (arch : gostring) : gostring :=
  if bool_decide (arch ∈ ubuntuPortsArches) then
    source_stanza ubuntuPortsArchive "${codename} ${codename}-updates ${codename}-backports ${codename}-security" ubuntuComponents ubuntuKeyring
  else
    source_stanza ubuntuArchive "${codename} ${codename}-updates ${codename}-backports" ubuntuComponents ubuntuKeyring ++ [newline]
    ++ source_stanza ubuntuSecurity "${codename}-security" ubuntuComponents ubuntuKeyring.
Definition debianSources : gostring :=
  source_stanza debianArchive "${codename} ${codename}-updates" debianComponents debianKeyring ++ [newline]
  ++ source_stanza debianSecurity "${codename}-security" debianComponents debianKeyring.

Definition BuiltinID (distroID versionID variantName : gostring) : gostring := distroID ++ ":" ++ versionID ++ "/" ++ variantName.
Definition ParseID (id : gostring) : option (gostring * gostring * gostring) :=
  let '(rest, variantName) := default (id, DefaultVariant) (cut "/" id) in
  match cut ":" rest with
  | None => None
  | Some (distroID, versionID) =>
      if blank distroID || blank versionID || blank variantName then None else Some (to_lower distroID, versionID, to_lower variantName)
  end.
Definition displayDistro (distroID : gostring) : gostring :=
  if streq distroID Debian then bytes_of "Debian" else if streq distroID Ubuntu then bytes_of "Ubuntu" else distroID.
Definition checkArch (arch : gostring) : option goerror :=
  usage (streq arch "" || bool_decide (Platform arch = None)).
Definition buildBuiltin (distroID versionID : gostring) (v : variant) (arch : gostring) : result goerror BaseDefinition :=
  match Distro.Lookup distroID versionID with
  | None => Err (New Usage [])
  | Some rel =>
      let layout :=
        if streq distroID Debian then Some (va_debianSeeds v, debianSources, debianKeyring, [])
        else if streq distroID Ubuntu then Some (va_ubuntuSeeds v, ubuntuSources arch, ubuntuKeyring, ubuntuExcludes)
        else None in
      match layout with
      | None => Err (New Usage [])
      | Some (seeds, sources, keyring, excludes) =>
          let d := Materialise (mkBase SchemaVersion (BuiltinID distroID versionID (va_name v))
            (displayDistro distroID ++ " " ++ versionID ++ " (" ++ rl_Codename rel ++ ") — " ++ va_description v)
            distroID versionID (rl_Codename rel) (va_name v) [] seeds false sources excludes [keyring]) arch in
          match Validate d with Some e => Err e | None => Ok d end
      end
  end.
Definition table : list (gostring * gostring * variant) := r ← builtinReleases; v ← variants; [(r.1, r.2, v)].
Definition BuiltinIDs : list gostring := sort_strings (map (λ x : gostring * gostring * variant, BuiltinID x.1.1 x.1.2 (va_name x.2)) table).
Fixpoint build_all (rows : list (gostring * gostring * variant)) (arch : gostring) : result goerror (list BaseDefinition) :=
  match rows with
  | [] => Ok []
  | (d, v, va) :: rows => b ← buildBuiltin d v va arch; bs ← build_all rows arch; Ok (b :: bs)
  end.
Definition Builtin (arch : gostring) : result goerror (list BaseDefinition) :=
  match checkArch arch with Some e => Err e | None => build_all table arch end.
Definition variantNames : list gostring := map va_name variants.
Definition VariantDescription (name : gostring) : gostring :=
  match find (λ v, streq (va_name v) name) variants with Some v => va_description v | None => [] end.
Definition ReleaseIDs (distroID : gostring) : list gostring :=
  map (λ r : gostring * gostring, r.1 ++ ":" ++ r.2) (List.filter (λ r : gostring * gostring, streq r.1 distroID) builtinReleases).
(** The row an id names. *)
Definition table_row (id : gostring) : option (gostring * gostring * option variant) :=
  '(d, v, name) ← ParseID id;
  r ← find (λ r : gostring * gostring, streq r.1 d && streq r.2 v) builtinReleases;
  Some (r.1, r.2, find (λ va, streq (va_name va) name) variants).
Definition Lookup (id arch : gostring) : result goerror BaseDefinition :=
  match ParseID id with
  | None => Err (New Usage [])
  | Some _ =>
      match checkArch arch with
      | Some e => Err e
      | None => match table_row id with
          | Some (d, v, Some va) => buildBuiltin d v va arch
          | _ => Err (New Usage [])
          end
      end
  end.
Definition IsBuiltinID (id : gostring) : bool := match table_row id with Some (_, _, Some _) => true | _ => false end.
Definition HostArch (goarch : gostring) : gostring :=
  default (bytes_of "amd64") (snd <$> find (λ p : gostring * gostring, streq p.1 goarch)
    [(bytes_of "amd64", bytes_of "amd64"); (bytes_of "arm64", bytes_of "arm64"); (bytes_of "386", bytes_of "i386");
     (bytes_of "arm", bytes_of "armhf"); (bytes_of "ppc64le", bytes_of "ppc64el"); (bytes_of "s390x", bytes_of "s390x");
     (bytes_of "riscv64", bytes_of "riscv64")]).
Definition DistroIDs : list gostring := dedup ∅ (map fst builtinReleases).
End base.

(** ** Files and names (parse.go) *)

(** gopkg.in/yaml.v3: the first document, unknown fields refused, and whether the
    stream ends after it. *)
Class YAML := { yaml_first : gostring → result goerror BaseDefinition; yaml_ends : gostring → bool }.
Definition maxDefinitionSize : Z := 1048576.
Record Resolved := mkResolved { re_Definition : BaseDefinition; re_Builtin : bool; re_Source : gostring; re_Digest : gostring }.
Definition OriginSourceBuiltin : gostring := "builtin".
Inductive base_stat := NoBase | BaseDir | BaseFile (size : Z) (data : result goerror gostring).

Section resolve.
Context {unicode : UnicodeTables} {yaml : YAML} {jcs : JCS}.

Definition LoadFile (st : base_stat) (arch : gostring) : result goerror BaseDefinition :=
  match st with
  | NoBase | BaseDir => Err (New Usage [])
  | BaseFile size data =>
      if maxDefinitionSize <? size then Err (New Usage [])
      else match data with
      | Err e => Err (New Usage [])
      | Ok text => match yaml_first text with
          | Err e => Err (New Usage [])
          | Ok d =>
              if negb (yaml_ends text) then Err (New Usage [])
              else if negb (streq (bd_Arch d) "") && negb (streq arch "") && negb (streq (bd_Arch d) arch) then Err (New Usage [])
              else
                let d := Materialise d arch in
                match Validate d with
                | Some e => Err e
                | None => match checkArch (bd_Arch d) with Some e => Err e | None => Ok d end
                end
          end
      end
  end.
(** An error of core/canonical has the class of its own. *)
Definition digested (d : BaseDefinition) (builtin : bool) (source : gostring) : result goerror Resolved :=
  match Digest_ d with Ok dg => Ok (mkResolved d builtin source dg) | Err e => Err (New errClass []) end.
Definition Resolve (st : base_stat) (idOrPath arch : gostring) : result goerror Resolved :=
  if IsBuiltinID idOrPath then
    d ← Lookup idOrPath arch; digested d true OriginSourceBuiltin
  else match st with
  | NoBase => Err (New Usage [])
  | _ =>
      if streq (Base idOrPath) OriginSourceBuiltin then Err (New Usage [])
      else d ← LoadFile st arch; digested d false (Base idOrPath)
  end.

(** [NewList] (list.go) *)
Record ListEntry := mkListEntry { le_Definition : BaseDefinition; le_Digest : gostring }.
Fixpoint NewList (defs : list BaseDefinition) : result goerror (list ListEntry) :=
  match defs with
  | [] => Ok []
  | d :: defs =>
      match Digest_ d with
      | Err e => Err (New errClass [])
      | Ok dg => es ← NewList defs; Ok (mkListEntry (mkBase [] (bd_ID d) (bd_Description d) (bd_DistroID d) (bd_VersionID d)
          (bd_Codename d) (bd_Variant d) (bd_Arch d) (bd_Seeds d) (bd_Recommends d) [] (bd_Excludes d) []) dg :: es)
      end
  end.
End resolve.

(** ** The table, checked *)

Section table.
Context {unicode : UnicodeTables}.

Lemma archs_checked : forallb (λ arch, bool_decide (checkArch arch = None)) Architectures = true.
Proof. vm_compute. reflexivity. Qed.

Lemma in_table d v va : (d, v) ∈ builtinReleases → va ∈ variants → (d, v, va) ∈ table.
Proof. intros Hr Hv. unfold table. apply list_elem_of_bind. exists (d, v). split; [|done]. apply list_elem_of_bind. exists va. split; [set_solver|done]. Qed.
Lemma BuiltinIDs_row id : id ∈ BuiltinIDs ↔ ∃ row, row ∈ table ∧ id = BuiltinID row.1.1 row.1.2 (va_name row.2).
Proof.
  unfold BuiltinIDs. rewrite (elem_of_Permutation_proper _ _ _ (sort_strings_perm _)), list_elem_of_fmap. split; intros (row & H1 & H2); eauto.
Qed.
Lemma checkArch_known arch : checkArch arch = None ↔ arch ∈ Architectures.
Proof.
  split.
  - unfold checkArch, usage, Platform. destruct (streq arch ""); [done|]. cbn [orb]. destruct (find _ _) as [[a p]|] eqn:E; [|done]. intros _.
    apply find_some in E as [Hin E%streq_true]. cbn [fst] in E. subst a. unfold Architectures.
    rewrite (elem_of_Permutation_proper _ _ _ (sort_strings_perm _)). apply list_elem_of_fmap. exists (arch, p).
    split; [done|by apply list_elem_of_In].
  - intros Hin. pose proof archs_checked as H. rewrite forallb_forall in H. apply list_elem_of_In in Hin. exact (proj1 (bool_decide_eq_true _) (H _ Hin)).
Qed.
Lemma table_row_in id d v va : table_row id = Some (d, v, Some va) → (d, v, va) ∈ table.
Proof.
  unfold table_row. intros ([[d' v'] name] & _ & (r & Hr & Hrow)%bind_Some)%bind_Some.
  pose proof (f_equal (λ x, match x with Some (y, _) => y | None => (d, v) end) Hrow) as Hdv.
  pose proof (f_equal (λ x, match x with Some (_, y) => y | None => None end) Hrow) as Hva.
  cbv beta iota in Hdv, Hva. rewrite <- surjective_pairing in Hdv. subst r.
  apply find_some in Hr as [Hr _]. apply find_some in Hva as [Hva _]. apply in_table; by apply list_elem_of_In.
Qed.
Lemma Lookup_inv id arch d : Lookup id arch = Ok d →
  arch ∈ Architectures ∧ ∃ row, row ∈ table ∧ table_row id = Some (row.1.1, row.1.2, Some row.2) ∧ buildBuiltin row.1.1 row.1.2 row.2 arch = Ok d.
Proof.
  unfold Lookup. destruct (ParseID id); [|done]. destruct (checkArch arch) eqn:Ea; [done|]. apply checkArch_known in Ea.
  destruct (table_row id) as [[[r v] [va|]]|] eqn:E; [|done..]. intros Hd. split; [done|]. exists (r, v, va). split_and!; [by eapply table_row_in|done..].
Qed.

(** ** The table, written out *)

Definition stock_releases : list (gostring * gostring * gostring) := map (λ '(d, v, c), (bytes_of d, bytes_of v, bytes_of c))
  [("debian", "12", "bookworm"); ("debian", "13", "trixie"); ("ubuntu", "22.04", "jammy"); ("ubuntu", "24.04", "noble");
   ("ubuntu", "26.04", "resolute")]%string.
Definition stock_profiles : list gostring := map bytes_of ["minimal"; "server"; "desktop"]%string.
Definition stock_archs : list gostring := map bytes_of ["amd64"; "arm64"; "armel"; "armhf"; "i386"; "ppc64el"; "riscv64"; "s390x"]%string.
Definition stock_seeds (distro profile : gostring) : list gostring := map bytes_of
  (if bool_decide (distro = "ubuntu") then
     (if bool_decide (profile = "minimal") then ["ubuntu-minimal"] else if bool_decide (profile = "server") then ["ubuntu-server-minimal"]
      else ["ubuntu-desktop-minimal"])
   else
     (if bool_decide (profile = "minimal") then ["apt"; "init"] else if bool_decide (profile = "server") then ["apt"; "init"; "openssh-server"]
      else ["apt"; "init"; "task-gnome-desktop"]))%string.
Definition stock_lines (lines : list gostring) : gostring := concat (map (λ l, l ++ [newline]) lines).
Definition stock_sources (distro codename arch : gostring) : gostring := stock_lines
  (if bool_decide (distro = "debian") then
     [bytes_of "Types: deb"; bytes_of "URIs: http://deb.debian.org/debian"; "Suites: " ++ codename ++ " " ++ codename ++ "-updates";
      bytes_of "Components: main contrib non-free non-free-firmware"; bytes_of "Signed-By: /usr/share/keyrings/debian-archive-keyring.gpg"; [];
      bytes_of "Types: deb"; bytes_of "URIs: http://security.debian.org/debian-security"; "Suites: " ++ codename ++ "-security";
      bytes_of "Components: main contrib non-free non-free-firmware"; bytes_of "Signed-By: /usr/share/keyrings/debian-archive-keyring.gpg"]
   else if bool_decide (arch = "amd64" ∨ arch = "armel" ∨ arch = "i386") then
     [bytes_of "Types: deb"; bytes_of "URIs: http://archive.ubuntu.com/ubuntu";
      "Suites: " ++ codename ++ " " ++ codename ++ "-updates " ++ codename ++ "-backports";
      bytes_of "Components: main restricted universe multiverse"; bytes_of "Signed-By: /usr/share/keyrings/ubuntu-archive-keyring.gpg"; [];
      bytes_of "Types: deb"; bytes_of "URIs: http://security.ubuntu.com/ubuntu"; "Suites: " ++ codename ++ "-security";
      bytes_of "Components: main restricted universe multiverse"; bytes_of "Signed-By: /usr/share/keyrings/ubuntu-archive-keyring.gpg"]
   else
     [bytes_of "Types: deb"; bytes_of "URIs: http://ports.ubuntu.com/ubuntu-ports";
      "Suites: " ++ codename ++ " " ++ codename ++ "-updates " ++ codename ++ "-backports " ++ codename ++ "-security";
      bytes_of "Components: main restricted universe multiverse"; bytes_of "Signed-By: /usr/share/keyrings/ubuntu-archive-keyring.gpg"]).

(** The definition of a row: all of it but the sentence that describes it. *)
Record stock (distro version codename profile arch : gostring) (d : BaseDefinition) : Prop := {
  st_schema : bd_SchemaVersion d = "debark.base/v1";
  st_id : bd_ID d = distro ++ ":" ++ version ++ "/" ++ profile;
  st_release : bd_DistroID d = distro ∧ bd_VersionID d = version ∧ bd_Codename d = codename;
  st_profile : bd_Variant d = profile ∧ bd_Arch d = arch ∧ bd_Recommends d = false;
  st_seeds : bd_Seeds d = stock_seeds distro profile;
  st_sources : bd_Sources d = stock_sources distro codename arch;
  st_excludes : bd_Excludes d = if bool_decide (distro = "ubuntu") then [bytes_of "lsb-base"] else [];
  st_keyrings : bd_Keyrings d = ["/usr/share/keyrings/" ++ distro ++ "-archive-keyring.gpg"];
  st_valid : Validate d = None
}.
(** How a text names a row: [<distro>:<version>/<profile>], or without a profile
    for the minimal one, the distribution and the profile in any case. *)
Definition spells (id distro version profile : gostring) : Prop :=
  ∃ d, (":"%char ∉ d) ∧ ("/"%char ∉ d ++ ":" ++ version) ∧ trim_space d ≠ [] ∧ to_lower d = distro
    ∧ ((id = d ++ ":" ++ version ∧ profile = "minimal")
       ∨ (∃ p, id = d ++ ":" ++ version ++ "/" ++ p ∧ trim_space p ≠ [] ∧ to_lower p = profile)).
Definition stock_row (distro version codename profile : gostring) : Prop :=
  (distro, version, codename) ∈ stock_releases ∧ profile ∈ stock_profiles.

Lemma blank_false s : blank s = false ↔ trim_space s ≠ [].
Proof. unfold blank. by rewrite streq_false_iff. Qed.
Lemma minimal_named : blank DefaultVariant = false ∧ to_lower DefaultVariant = "minimal".
Proof. by split; vm_compute. Qed.
Lemma ParseID_spelled id d v p : ParseID id = Some (d, v, p) → spells id d v p.
Proof.
  unfold ParseID, spells. destruct minimal_named as [Hm1 Hm2]. destruct (cut "/" id) as [[rest var]|] eqn:E; cbn [from_option Datatypes.id].
  - apply cut_Some in E as [-> Hr]. destruct (cut ":" rest) as [[dd vv]|] eqn:E2; [|done]. apply cut_Some in E2 as [-> Hd].
    destruct (blank dd || blank vv || blank var) eqn:Eb; [done|]. rewrite !orb_false_iff in Eb. destruct Eb as [[B1 _] B3].
    apply blank_false in B1, B3. intros [= <- <- <-]. exists dd.
    split_and!; [done|exact Hr|done|done|]. right. exists var. by rewrite <- !app_assoc.
  - apply cut_None in E. destruct (cut ":" id) as [[dd vv]|] eqn:E2; [|done]. apply cut_Some in E2 as [-> Hd].
    rewrite Hm1, orb_false_r, Hm2. destruct (blank dd || blank vv) eqn:Eb; [done|].
    apply orb_false_iff in Eb as [B1 _]. apply blank_false in B1. intros [= <- <- <-]. exists dd.
    split_and!; [done|exact E|done|done|]. by left.
Qed.
Lemma spelled_ParseID id d v p : blank v = false → spells id d v p → ParseID id = Some (d, v, p).
Proof.
  intros Hv (dd & Hd & Hr & Hb & <- & Hid). unfold ParseID. destruct minimal_named as [Hm1 Hm2]. apply blank_false in Hb.
  destruct Hid as [[-> ->]|(q & -> & Hq & <-)].
  - rewrite (proj2 (cut_None "/" _)) by done. cbn [from_option Datatypes.id]. change (dd ++ ":" ++ v) with (dd ++ ":"%char :: v).
    rewrite cut_app by done. by rewrite Hb, Hv, Hm1, Hm2.
  - replace (dd ++ ":" ++ v ++ "/" ++ q) with ((dd ++ ":" ++ v) ++ "/"%char :: q) by (by rewrite <- !app_assoc).
    rewrite cut_app by done. cbn [from_option Datatypes.id]. change (dd ++ ":" ++ v) with (dd ++ ":"%char :: v). rewrite cut_app by done.
    apply blank_false in Hq. by rewrite Hb, Hv, Hq.
Qed.

(** Every row is one of the table as it is written out, and is built as written. *)
Definition code_of (d v : gostring) : gostring :=
  match find (λ r : gostring * gostring * gostring, streq r.1.1 d && streq r.1.2 v) stock_releases with Some r => r.2 | None => [] end.
Definition stock_ok (distro version codename profile arch : gostring) (d : BaseDefinition) : bool :=
  bool_decide (bd_SchemaVersion d = "debark.base/v1") && bool_decide (bd_ID d = distro ++ ":" ++ version ++ "/" ++ profile)
  && bool_decide (bd_DistroID d = distro) && bool_decide (bd_VersionID d = version) && bool_decide (bd_Codename d = codename)
  && bool_decide (bd_Variant d = profile) && bool_decide (bd_Arch d = arch) && negb (bd_Recommends d)
  && bool_decide (bd_Seeds d = stock_seeds distro profile) && bool_decide (bd_Sources d = stock_sources distro codename arch)
  && bool_decide (bd_Excludes d = if bool_decide (distro = "ubuntu") then [bytes_of "lsb-base"] else [])
  && bool_decide (bd_Keyrings d = ["/usr/share/keyrings/" ++ distro ++ "-archive-keyring.gpg"]) && bool_decide (Validate d = None).
Definition row_ok (row : gostring * gostring * variant) : bool :=
  let '(d, v, va) := row in
  bool_decide ((d, v, code_of d v) ∈ stock_releases) && bool_decide (va_name va ∈ stock_profiles) && negb (blank v)
  && bool_decide (find (λ r : gostring * gostring, streq r.1 d && streq r.2 v) builtinReleases = Some (d, v))
  && bool_decide (find (λ x, streq (va_name x) (va_name va)) variants = Some va)
  && forallb (λ arch, match buildBuiltin d v va arch with Ok b => stock_ok d v (code_of d v) (va_name va) arch b | Err _ => false end) Architectures.
Definition stock_listed (r : gostring * gostring * gostring) (profile : gostring) : bool :=
  bool_decide (code_of r.1.1 r.1.2 = r.2) && existsb (λ row : gostring * gostring * variant,
    bool_decide (row.1.1 = r.1.1) && bool_decide (row.1.2 = r.1.2) && bool_decide (va_name row.2 = profile)) table.
Lemma rows_ok : forallb row_ok table = true.
Proof. vm_compute. reflexivity. Qed.
Lemma rows_listed : forallb (λ r, forallb (stock_listed r) stock_profiles) stock_releases = true.
Proof. vm_compute. reflexivity. Qed.
Lemma archs_listed : Architectures = stock_archs.
Proof. vm_compute. reflexivity. Qed.

Lemma stock_ok_spec distro version codename profile arch d : stock_ok distro version codename profile arch d = true →
  stock distro version codename profile arch d.
Proof. unfold stock_ok. rewrite !andb_true_iff, !bool_decide_eq_true, negb_true_iff. intros H. destruct_and! H. by constructor. Qed.
Lemma table_stock d v va : (d, v, va) ∈ table →
  stock_row d v (code_of d v) (va_name va) ∧ blank v = false
  ∧ (∀ id, ParseID id = Some (d, v, va_name va) → table_row id = Some (d, v, Some va))
  ∧ ∀ arch, arch ∈ stock_archs → ∃ b, buildBuiltin d v va arch = Ok b ∧ stock d v (code_of d v) (va_name va) arch b.
Proof.
  intros Hin. pose proof rows_ok as H. rewrite forallb_forall in H. apply list_elem_of_In, H in Hin. unfold row_ok in Hin.
  rewrite !andb_true_iff, !bool_decide_eq_true, negb_true_iff in Hin. destruct Hin as [[[[[H1 H2] H3] H4] H5] H6]. split_and!; [by split|done|..].
  - intros id Hid. unfold table_row. rewrite Hid. cbn [mbind option_bind]. rewrite H4. cbn [mbind option_bind fst snd]. by rewrite H5.
  - intros arch Ha. rewrite <- archs_listed in Ha. rewrite forallb_forall in H6. apply list_elem_of_In, H6 in Ha.
    destruct (buildBuiltin d v va arch) as [b|]; [|done]. exists b. split; [done|by apply stock_ok_spec].
Qed.
Lemma stock_table d v c p : stock_row d v c p → ∃ va, (d, v, va) ∈ table ∧ va_name va = p ∧ code_of d v = c.
Proof.
  intros [Hr Hp]. pose proof rows_listed as H. rewrite forallb_forall in H. apply list_elem_of_In, H in Hr.
  rewrite forallb_forall in Hr. apply list_elem_of_In, Hr in Hp. unfold stock_listed in Hp. cbn [fst snd] in Hp.
  apply andb_true_iff in Hp as [Hc%bool_decide_eq_true (row & Hin & Hrow)%existsb_exists].
  rewrite !andb_true_iff, !bool_decide_eq_true in Hrow. destruct row as [[d' v'] va]. cbn [fst snd] in Hrow. destruct Hrow as [[-> ->] Hn].
  exists va. split_and!; [by apply list_elem_of_In|done..].
Qed.
Lemma table_row_parse id d v va : table_row id = Some (d, v, Some va) → (d, v, va) ∈ table ∧ ParseID id = Some (d, v, va_name va).
Proof.
  intros H. split; [by apply (table_row_in id)|]. unfold table_row in H. apply bind_Some in H as ([[d' v'] name] & -> & (r & Hr & Hrow)%bind_Some).
  apply find_some in Hr as [_ Hr]. bsplit. rewrite !streq_true in *. subst d' v'.
  pose proof (f_equal (λ x, match x with Some (y, _) => y | None => (d, v) end) Hrow) as Hdv.
  pose proof (f_equal (λ x, match x with Some (_, y) => y | None => None end) Hrow) as Hva.
  cbv beta iota in Hdv, Hva. rewrite <- surjective_pairing in Hdv. subst r. apply find_some in Hva as [_ Hva]. apply streq_true in Hva. by subst name.
Qed.
Lemma IsBuiltinID_spells id : IsBuiltinID id = true ↔ ∃ d v c p, stock_row d v c p ∧ spells id d v p.
Proof.
  unfold IsBuiltinID. split.
  - destruct (table_row id) as [[[d v] [va|]]|] eqn:E; [|done..]. intros _. apply table_row_parse in E as [Hin Hp].
    exists d, v, (code_of d v), (va_name va). split; [by apply table_stock|by apply ParseID_spelled].
  - intros (d & v & c & p & (va & Hin & <- & _)%stock_table & Hs). apply table_stock in Hin as (_ & Hb & Ht & _).
    by rewrite (Ht id (spelled_ParseID _ _ _ _ Hb Hs)).
Qed.

(** (C35) The builtin bases are a closed table. A text is taken for an id, never
    for a file, exactly when it spells a row of it: [distro:version/profile] or,
    for the minimal profile, [distro:version], with the version as it is listed
    and the other two in any case. Looking one up succeeds exactly for such a
    text and an architecture there is a platform for, and gives that row's
    definition: its id, release and code name, seeds, sources, exclusions and
    keyring as they are written out in [stock], valid, and with no placeholder
    left. The ids that are listed are the rows' own. *)
Theorem builtin_closed :
  (∀ id, IsBuiltinID id = true ↔ ∃ d v c p, stock_row d v c p ∧ spells id d v p)
  ∧ (∀ id arch, (∃ b, Lookup id arch = Ok b) ↔ (∃ d v c p, stock_row d v c p ∧ spells id d v p) ∧ arch ∈ stock_archs)
  ∧ (∀ id arch b, Lookup id arch = Ok b → ∃ d v c p, stock_row d v c p ∧ spells id d v p ∧ stock d v c p arch b)
  ∧ (∀ id, id ∈ BuiltinIDs ↔ ∃ d v c p, stock_row d v c p ∧ id = d ++ ":" ++ v ++ "/" ++ p).
Proof.
  split_and!.
  - apply IsBuiltinID_spells.
  - intros id arch. rewrite <- IsBuiltinID_spells, <- archs_listed. split.
    + intros (b & (Ha & row & _ & Hr & _)%Lookup_inv). split; [|done]. unfold IsBuiltinID. by rewrite Hr.
    + unfold IsBuiltinID. intros [H Ha]. destruct (table_row id) as [[[d v] [va|]]|] eqn:E; [|done..].
      apply table_row_parse in E as Hin. destruct Hin as [Hin Hp]. apply table_stock in Hin as (_ & _ & _ & Hb).
      rewrite archs_listed in Ha. destruct (Hb arch Ha) as (b & Hb' & _). exists b. unfold Lookup. rewrite Hp, E.
      rewrite <- archs_listed in Ha. by rewrite (proj2 (checkArch_known arch) Ha).
  - intros id arch b (Ha & [[d v] va] & Hin & Hr & Hb)%Lookup_inv. cbn [fst snd] in *. apply table_row_parse in Hr as [_ Hp].
    apply table_stock in Hin as (H1 & _ & _ & H2). rewrite archs_listed in Ha. destruct (H2 arch Ha) as (b' & Hb' & Hs).
    rewrite Hb in Hb'. injection Hb' as <-. exists d, v, (code_of d v), (va_name va). split_and!; [done|by apply ParseID_spelled|done].
  - intros id. rewrite BuiltinIDs_row. split.
    + intros ([[d v] va] & Hin & ->). exists d, v, (code_of d v), (va_name va). split; [by apply table_stock|done].
    + intros (d & v & c & p & (va & Hin & <- & _)%stock_table & ->). exists (d, v, va). by split.
Qed.
End table.

(** A version is compared as it is written, and only whole. *)
Example spellings : @IsBuiltinID ascii_tables "ubuntu:24.04" = true ∧ @IsBuiltinID ascii_tables "Ubuntu:24.04/DESKTOP" = true
  ∧ @IsBuiltinID ascii_tables "debian:1" = false ∧ @IsBuiltinID ascii_tables "debian:12/" = false.
Proof. by vm_compute. Qed.
