(* ===== verification/SnapshotArchive.v ===== *)
(** * core/snapshot/archive.go, zstd.go: opening and writing a snapshot.

    Opening an archive or a directory: what is extracted, what is checked before
    anything is believed, and the redactions applied again. The zstd and tar
    codecs are libraries ([Codecs]): a decompressor with its memory limit, and
    the list of entries a tar yields, which an error may end. The files of a
    snapshot are a map from archive path to bytes; [disk] says which files can
    be written. The temporary directory and cancellation are not modelled. *)
From S2P Require Export Snapshot Keyring Canonical.
#[local] Open Scope Z_scope.

Record tar_entry := mkEntry { te_Name : gostring; te_Regular : bool; te_Data : gostring }.
Class Codecs := {
  zstd_decode : Z → gostring → result gostring gostring;
  zstd_encode : gostring → gostring;
  tar_read : gostring → list tar_entry * option gostring;
  tar_write : list tar_entry → gostring
}.
(** What the source relies on of them. *)
Class CodecLaws `{Codecs} : Prop := {
  zstd_roundtrip limit b : Z.of_nat (length b) ≤ limit → zstd_decode limit (zstd_encode b) = Ok b;
  zstd_magic b : has_prefix (map chr [40; 181; 47; 253]) (zstd_encode b) = true;
  tar_roundtrip es : Forall (λ e, te_Regular e = true) es → tar_read (tar_write es) = (es, None)
}.

Section archive.
Context {unicode : UnicodeTables} {jcs : JCS} {pgp : OpenPGP} {codecs : Codecs}.
(** Whether a file can be written at an archive path. *)
Variable disk : gostring → bool.

Inductive open_error :=
| NotASnapshot (why : gostring)
| CannotRead (what : gostring)
| Damaged (what : gostring)
| Refused (why : invalid)
| RefusedKeys (why : keyring_error)
| NoDigest (why : canonical_error).
Definition open_class (e : open_error) : Class :=
  match e with NotASnapshot _ | CannotRead _ | NoDigest _ => Usage | _ => Verification end.

(** ** zstd.go *)

Definition maxSnapshotDecompressedSize : Z := 536870912.
Definition zstdMagic : gostring := map chr [40; 181; 47; 253].
Definition looksLikeZstd (data : gostring) : bool := has_prefix zstdMagic data.
Definition zstdDecompress (data : gostring) : result gostring gostring := zstd_decode maxSnapshotDecompressedSize data.

(** ** Extraction *)

Definition maxSnapshotDocumentSize : Z := 67108864.
Definition readCappedDocument (data label : gostring) : result open_error gostring :=
  if maxSnapshotDocumentSize <? Z.of_nat (length data) then Err (Damaged (label ++ " exceeds the limit")) else Ok data.

(** A path below a file, or a directory another file is below. *)
Definition below (p q : gostring) : bool := has_prefix (p ++ "/") q.
Definition blocked (fs : fileset) (member : gostring) : bool :=
  existsb (λ k, below k member || below member k) (sorted_keys fs).
Definition extractRegularFile (fs : fileset) (member data : gostring) : result open_error fileset :=
  if blocked fs member || negb (disk member) then Err (Damaged ("extract " ++ member)) else Ok (<[member := data]> fs).

Fixpoint extract_loop (entries : list tar_entry) (doc : option gostring) (fs : fileset)
    : result open_error (option gostring * fileset) :=
  match entries with
  | [] => Ok (doc, fs)
  | e :: rest =>
      if negb (te_Regular e) then extract_loop rest doc fs
      else if streq (te_Name e) DocumentName then
        match doc with
        | Some _ => Err (Damaged "the document is contained more than once")
        | None => data ← readCappedDocument (te_Data e) DocumentName; extract_loop rest (Some data) fs
        end
      else match cut_prefix (FilesDir ++ "/") (te_Name e) with
      | Some member =>
          if negb (safeArchivePath member) then Err (Damaged (te_Name e))
          else fs' ← extractRegularFile fs member (te_Data e); extract_loop rest doc fs'
      | None => extract_loop rest doc fs
      end
  end.
Definition extractTar (tarBytes : gostring) : result open_error (gostring * fileset) :=
  let '(entries, err) := tar_read tarBytes in
  '(doc, fs) ← extract_loop entries None ∅;
  match err, doc with
  | Some why, _ => Err (Damaged why)
  | None, None => Err (NotASnapshot ("the archive contains no " ++ DocumentName))
  | None, Some d => Ok (d, fs)
  end.

(** ** Checks of what was extracted *)

Definition check_file (fs : fileset) (f : File) : option open_error :=
  if streq (fi_Path f) "" && streq (fi_ArchivePath f) "" then None
  else match fs !! fi_ArchivePath f with
  | None => Some (Damaged (fi_Path f ++ ": missing from archive"))
  | Some data => if Digest.Equal (Digest.Bytes data) (fi_SHA256 f) then None
                 else Some (Damaged (fi_Path f ++ ": digest mismatch"))
  end.
Definition verifyExtractedFiles (s : Snapshot) (fs : fileset) : option open_error := first_err (check_file fs) (Files s).

(** ** Redactions again *)

Fixpoint read_confs (fs : fileset) (confs : list File) (scratch : fileset) : result open_error fileset :=
  match confs with
  | [] => Ok scratch
  | f :: rest =>
      match fs !! fi_ArchivePath f with
      | None => Err (Damaged (fi_Path f ++ ": re-reading for redaction"))
      | Some data => read_confs fs rest (<[fi_ArchivePath f := data]> scratch)
      end
  end.
Fixpoint write_confs (fs scratch : fileset) (confs : list File) : result open_error (list gostring * fileset) :=
  match confs with
  | [] => Ok ([], fs)
  | f :: rest =>
      let data := default [] (scratch !! fi_ArchivePath f) in
      if bool_decide (fs !! fi_ArchivePath f = Some data) then write_confs fs scratch rest
      else if negb (disk (fi_ArchivePath f)) then Err (Damaged (fi_Path f ++ ": rewriting after redaction"))
      else '(names, fs') ← write_confs (<[fi_ArchivePath f := data]> fs) scratch rest; Ok (fi_Path f :: names, fs')
  end.
Definition reapplyRedactions (s : Snapshot) (fs : fileset) : result open_error (list gostring * Snapshot * fileset) :=
  match sn_Redactions s with
  | [] => Ok ([], s, fs)
  | _ =>
      scratch ← read_confs fs (ap_Conf (sn_APT s)) ∅;
      let '(s', scratch') := doRedact s (Some scratch) (sn_Redactions s) in
      let gone (had has : bool) (what : gostring) := if had && negb has then [what] else [] in
      let stripped :=
        gone (negb (streq (ta_MachineID (sn_Target s)) "")) (negb (streq (ta_MachineID (sn_Target s')) "")) (bytes_of "target.machine_id")
        ++ gone (Nat.ltb 0 (size (sn_Labels s))) (Nat.ltb 0 (size (sn_Labels s'))) (bytes_of "labels") in
      '(names, fs') ← write_confs fs (default ∅ scratch') (ap_Conf (sn_APT s'));
      Ok (stripped ++ names, s', fs')
  end.
Definition restrip_warning (stripped : list gostring) : gostring :=
  "snapshot: this document claimed redactions it had not applied; " ++ join (bytes_of ", ") stripped
  ++ " re-stripped on load. An honest snapshot never needs this: treat the document as hand-edited or tampered with.".
Definition warn_restripped (stripped : list gostring) (s : Snapshot) : Snapshot :=
  match stripped with
  | [] => s
  | _ =>
      let ws := if maxWarnings <=? Z.of_nat (length (sn_Warnings s))
                then take (Z.to_nat (maxWarnings - 1)) (sn_Warnings s) else sn_Warnings s in
      set_warnings (ws ++ [restrip_warning stripped]) s
  end.

(** ** Open *)

(** What is at the path given: nothing that can be looked at, a directory with
    the outcome of reading its document and its tree of files, or a file. *)
Inductive doc_read := DocMissing | DocUnreadable | DocBytes (b : gostring).
Inductive located :=
| Nowhere
| Directory (doc : doc_read) (tree : option (result gostring fileset))
| Regular (raw : result gostring gostring).

Record Archive := mkArchive { ar_Snapshot : Snapshot; ar_Digest : gostring; ar_Files : fileset }.

Definition delivered (at_path : located) : result open_error (gostring * fileset) :=
  match at_path with
  | Nowhere => Err (CannotRead "open")
  | Directory doc tree =>
      match doc with
      | DocMissing => Err (NotASnapshot ("it is a directory with no " ++ DocumentName ++ " in it"))
      | DocUnreadable => Err (Damaged ("read " ++ DocumentName))
      | DocBytes b =>
          match tree with
          | None => Err (Damaged ("there is no " ++ FilesDir ++ " directory"))
          | Some (Err why) => Err (Damaged why)
          | Some (Ok fs) => Ok (b, fs)
          end
      end
  | Regular (Err why) => Err (CannotRead why)
  | Regular (Ok raw) =>
      if negb (looksLikeZstd raw) then Err (NotASnapshot "it does not begin with a zstd frame header")
      else match zstdDecompress raw with Err why => Err (Damaged why) | Ok tarBytes => extractTar tarBytes end
  end.
Definition doDigest (s : Snapshot) : result open_error gostring := map_err NoDigest (Canonical.Digest (enc_Snapshot s)).
Definition accept (docBytes : gostring) (fs : fileset) : result open_error Archive :=
  match unmarshal_snapshot docBytes with
  | None => Err (Damaged ("decode " ++ DocumentName))
  | Some s =>
      match doValidate s with
      | Some why => Err (Refused why)
      | None =>
          match verifyExtractedFiles s fs with
          | Some e => Err e
          | None =>
              _ ← map_err RefusedKeys (verifyKeyringFingerprints (λ p, fs !! p) s);
              d ← doDigest s;
              '(stripped, s', fs') ← reapplyRedactions s fs;
              Ok (mkArchive (warn_restripped stripped s') d fs')
          end
      end
  end.
Definition doOpen (at_path : located) : result open_error Archive :=
  '(docBytes, fs) ← delivered at_path; accept docBytes fs.

(** [doOpenDocument]: the document alone, from a file or a directory. *)
Definition doOpenDocument (doc : option doc_read) : result open_error Snapshot :=
  match doc with
  | None => Err (CannotRead "open")
  | Some DocMissing => Err (NotASnapshot ("there is no " ++ DocumentName ++ " to read"))
  | Some DocUnreadable => Err (Damaged ("read " ++ DocumentName))
  | Some (DocBytes b) =>
      data ← readCappedDocument b DocumentName;
      match unmarshal_snapshot data with
      | None => Err (Damaged ("decode " ++ DocumentName))
      | Some s =>
          match doValidate s with
          | Some why => Err (Refused why)
          | None => Ok (doRedact s None (sn_Redactions s)).1
          end
      end
  end.

(** ** WriteArchive *)

Inductive write_error := Incomplete (path : gostring) | CannotEncode (e : canonical_error) | UnsafeMember (name : gostring).
Definition missing_bytes (fs : fileset) (f : File) : option write_error :=
  if streq (fi_Path f) "" && streq (fi_ArchivePath f) "" then None
  else match fs !! fi_ArchivePath f with None => Some (Incomplete (fi_Path f)) | Some _ => None end.
Definition checkFileSetComplete (s : Snapshot) (fs : fileset) : option write_error := first_err (missing_bytes fs) (Files s).
Definition writeTarEntry (name data : gostring) : tar_entry := mkEntry name true data.
Definition archive_entries (doc : gostring) (fs : fileset) : list tar_entry :=
  writeTarEntry DocumentName doc
  :: map (λ name, writeTarEntry (FilesDir ++ "/" ++ name) (default [] (fs !! name))) (sorted_keys fs).
(** The bytes of the archive. *)
Definition doWriteArchive (s : Snapshot) (fs : fileset) : result write_error gostring :=
  match checkFileSetComplete s fs with
  | Some e => Err e
  | None =>
      doc ← map_err CannotEncode (MarshalIndent (enc_Snapshot s));
      match first_err (λ name, if safeArchivePath name then None else Some (UnsafeMember name)) (sorted_keys fs) with
      | Some e => Err e
      | None => Ok (zstd_encode (tar_write (archive_entries doc fs)))
      end
  end.
End archive.
