(* ===== verification/SnapshotSafe.v ===== *)
(** * core/snapshot: accepted documents and safe strings.

    The control characters of a string are bytes below 0x20 or 0x7f and the pairs
    of bytes that encode U+0080 to U+009F ([has_c1]), so no part of a string has
    any the whole does not. From that, what capture sanitises a document's
    strings to is what opening it accepts; and an accepted document is exactly a
    well-formed one. *)
From S2P Require Export SnapshotArchive.
#[local] Open Scope Z_scope.
#[local] Set Default Proof Using "Type*".

(** ** Control characters, byte by byte *)

Definition ctl (c : ascii) : bool := (ord c <? 32) || (ord c =? 127).
Definition c1_pair (a b : ascii) : bool := (ord a =? 194) && in_range 128 159 b.
Fixpoint has_c1 (s : gostring) : bool :=
  match s with
  | a :: s' => match s' with b :: _ => c1_pair a b | [] => false end || has_c1 s'
  | [] => false
  end.
Definition c1_rune (r : Z) : bool := (128 <=? r) && (r <=? 159).
Definition clean (s : gostring) : Prop := existsb ctl s = false ∧ has_c1 s = false.

Lemma c1_low a b : 194 ≠ ord a → c1_pair a b = false.
Proof. intros H. unfold c1_pair. by rewrite (proj2 (Z.eqb_neq _ _)). Qed.
Lemma has_c1_cons a s : 194 ≠ ord a → has_c1 (a :: s) = has_c1 s.
Proof. intros H. cbn [has_c1]. destruct s as [|b s]; [done|]. by rewrite c1_low. Qed.

Lemma c1_runes s : existsb c1_rune (runes s) = has_c1 s.
Proof.
  remember (length s) as n eqn:Hn. assert (length s ≤ n)%nat as Hle by lia. clear Hn. revert s Hle. unfold runes.
  induction n as [|n IH]; intros s Hle; [by destruct s; [|simpl in Hle; lia]|].
  destruct s as [|a s1]; [done|]. cbn [decode]. simpl in Hle.
  destruct (ord a <? 128) eqn:Ha.
  { apply Z.ltb_lt in Ha. rewrite has_c1_cons by lia. cbn [map existsb fst]. rewrite IH by lia.
    unfold c1_rune. by rewrite (proj2 (Z.leb_gt 128 (ord a))) by lia. }
  apply Z.ltb_ge in Ha.
  assert (∀ t, (length t ≤ n)%nat → t = s1 → (∀ b t', t = b :: t' → c1_pair a b = false) →
    existsb c1_rune (map fst ((RuneError, [a]) :: decode t)) = has_c1 (a :: t)) as Herr.
  { intros t Ht _ Hp. cbn [map existsb fst has_c1]. rewrite IH by done. destruct t as [|b t]; [done|]. by rewrite (Hp b t). }
  destruct s1 as [|b s2]; [apply Herr; [simpl; lia|done|by intros]|]. simpl in Hle.
  destruct (in_range 194 223 a && is_cont b) eqn:E2.
  { bsplit. cbn [map existsb fst has_c1]. rewrite IH by lia.
    assert (has_c1 (b :: s2) = has_c1 s2) as Hb by (apply has_c1_cons; rune_cases). cbn [has_c1] in Hb. rewrite Hb. f_equal.
    destruct (c1_rune (rune2 a b)) eqn:E1, (c1_pair a b) eqn:E3; try done; exfalso; unfold c1_rune, c1_pair in *; rune_cases. }
  assert (c1_pair a b = false) as Hab.
  { unfold c1_pair. destruct (ord a =? 194) eqn:E; [|done]. cbn [andb]. rune_cases. }
  assert (∀ b' t', b :: s2 = b' :: t' → c1_pair a b' = false) as Hab' by (intros b' t' [= <- _]; done).
  destruct s2 as [|c s3]; [apply Herr; [simpl; lia|done|done]|]. simpl in Hle.
  destruct (second3 a b && is_cont c) eqn:E3.
  { bsplit. cbn [map existsb fst]. rewrite IH by lia. rewrite !has_c1_cons by rune_cases.
    assert (c1_rune (rune3 a b c) = false) as ->; [|done]. unfold c1_rune. rune_cases. }
  destruct s3 as [|d s4]; [apply Herr; [simpl; lia|done|done]|]. simpl in Hle.
  destruct (second4 a b && is_cont c && is_cont d) eqn:E4; [|apply Herr; [simpl; lia|done|done]].
  bsplit. cbn [map existsb fst]. rewrite IH by lia. rewrite !has_c1_cons by rune_cases.
  assert (c1_rune (rune4 a b c d) = false) as ->; [|done]. unfold c1_rune. rune_cases.
Qed.

Lemma hasControlChars_spec s : hasControlChars s = false ↔ clean s.
Proof.
  unfold hasControlChars, clean. change (existsb (λ r, (128 <=? r) && (r <=? 159)) (runes s)) with (existsb c1_rune (runes s)).
  rewrite c1_runes, orb_false_iff. done.
Qed.

Lemma has_c1_app s t : has_c1 (s ++ t) = false → has_c1 s = false ∧ has_c1 t = false.
Proof.
  induction s as [|a s IH]; [done|]. cbn [app has_c1]. intros [H1 H2]%orb_false_iff. apply IH in H2 as [H2 H3].
  split; [|done]. apply orb_false_iff. split; [|done]. by destruct s.
Qed.
Lemma clean_app s t : clean (s ++ t) → clean s ∧ clean t.
Proof.
  intros [H1 H2]. rewrite existsb_app, orb_false_iff in H1. apply has_c1_app in H2. by destruct H1, H2.
Qed.
(** A part of a string has no control character the string has not. *)
Lemma clean_take n s : clean s → clean (take n s).
Proof. rewrite <- (take_drop n s) at 1. by intros [? _]%clean_app. Qed.
Lemma clean_trim s : clean s → clean (trim_space s).
Proof.
  intros Hs. unfold trim_space, trim_space_right.
  destruct (trim_spaces_suffix_len is_space1 is_space2 is_space3 (length s) s) as [p Hp]; [lia|].
  assert (clean (trim_space_left s)) as Hl by (unfold trim_space_left; rewrite Hp in Hs; by apply clean_app in Hs as [_ ?]).
  set (t := trim_space_left s) in *. clearbody t.
  destruct (trim_spaces_suffix_len is_space1 (λ a b, is_space2 b a) (λ a b c, is_space3 c b a) (length (rev t)) (rev t)) as [q Hq]; [lia|].
  apply (f_equal (@rev ascii)) in Hq. rewrite rev_involutive, rev_app_distr in Hq. rewrite Hq in Hl. by apply clean_app in Hl as [? _].
Qed.

(** The encoding of one rune that is no control character: nothing in it starts a
    pair, and its own pair is none. *)
Definition piece (w : gostring) : Prop :=
  (∃ c, w = [c] ∧ ord c < 128 ∧ ctl c = false)
  ∨ ∃ a b t, w = a :: b :: t ∧ 128 ≤ ord a ∧ c1_pair a b = false ∧ Forall (λ c, 128 ≤ ord c < 192) (b :: t).
Lemma piece_front w s : piece w → clean s → clean (w ++ s).
Proof.
  intros [(c & -> & Hc & Hctl)|(a & b & t & -> & Ha & Hp & Ht)] [H1 H2].
  - split; cbn [app existsb]; [by rewrite Hctl|]. rewrite has_c1_cons by lia. done.
  - assert (∀ u, Forall (λ c, 128 ≤ ord c < 192) u → clean (u ++ s)) as Hu.
    { induction 1 as [|c u Hc Hu [IH1 IH2]]; [done|]. split; cbn [app existsb].
      - rewrite IH1. unfold ctl. rewrite (proj2 (Z.ltb_ge _ _)), (proj2 (Z.eqb_neq _ _)) by lia. done.
      - by rewrite has_c1_cons by lia. }
    destruct (Hu (b :: t) Ht) as [H3 H4]. split; cbn [app].
    + cbn [existsb] in *. change (existsb ctl ((b :: t) ++ s)) with (ctl b || existsb ctl (t ++ s)) in H3. rewrite H3.
      unfold ctl. rewrite (proj2 (Z.ltb_ge _ _)), (proj2 (Z.eqb_neq _ _)) by lia. done.
    + change (has_c1 (a :: (b :: t) ++ s) = false). cbn [has_c1 app] in *. by rewrite Hp.
Qed.
Lemma chunk_piece s : ∀ r w, (r, w) ∈ decode s → control_rune r = false → valid_rune (r, w) = true → piece w.
Proof.
  apply (decode_ind (λ s l, ∀ r w, (r, w) ∈ l → control_rune r = false → valid_rune (r, w) = true → piece w)).
  - intros r w H. by apply elem_of_nil in H.
  - intros a t l Ha IH r w [[= -> ->]|H]%elem_of_cons Hc Hv; [left|eauto]. exists a. split_and!; [done..|].
    unfold control_rune in Hc. by apply orb_false_iff in Hc as [? _].
  - intros a t l Ha IH r w [[= -> ->]|H]%elem_of_cons Hc Hv; [done|eauto].
  - intros a b t l Ha Hb IH r w [[= -> ->]|H]%elem_of_cons Hc Hv; [right|eauto]. exists a, b, []. split_and!; [done|rune_cases| |].
    + unfold control_rune in Hc. destruct (c1_pair a b) eqn:E; [|done]. exfalso. apply orb_false_iff in Hc as [_ Hc].
      unfold c1_pair in E. rune_cases.
    + repeat constructor; rune_cases.
  - intros a b c t l Ha Hb Hd IH r w [[= -> ->]|H]%elem_of_cons Hc Hv; [right|eauto].
    exists a, b, [c]. split_and!; [done|done|apply c1_low; rune_cases|]. repeat constructor; rune_cases.
  - intros a b c d t l Ha Hb Hd He IH r w [[= -> ->]|H]%elem_of_cons Hc Hv; [right|eauto].
    exists a, b, [c; d]. split_and!; [done|done|apply c1_low; rune_cases|]. repeat constructor; rune_cases.
Qed.
Lemma clean_nil : clean [].
Proof. done. Qed.
Lemma blank_clean s : clean (blank_control s).
Proof.
  unfold blank_control, runes. assert (∀ l, (∀ r w, (r, w) ∈ l → (r, w) ∈ decode s) →
    clean (concat (map (λ r, if control_rune r then bytes_of " " else encode_rune r) (map fst l)))) as H; [|by apply H].
  induction l as [|[r w] l IH]; intros Hl; [apply clean_nil|]. cbn [map concat fst].
  apply piece_front; [|apply IH; intros r' w' Hin; apply Hl; by right].
  destruct (control_rune r) eqn:Hc.
  - left. by exists " "%char.
  - destruct (valid_rune (r, w)) eqn:Hv.
    + rewrite (encode_decode s r w) by (try done; apply Hl; by left). eapply chunk_piece; [apply Hl; by left|done..].
    + unfold valid_rune in Hv. apply negb_false_iff, andb_true_iff in Hv as [Hr%Z.eqb_eq _]. cbn [fst] in Hr. subst r.
      right. exists (chr 239), (chr 191), [chr 189]. repeat constructor; vm_compute; congruence.
Qed.

Lemma last_rune_size_pos s : (1 ≤ last_rune_size s)%nat.
Proof. unfold last_rune_size. repeat case_match; lia. Qed.
Lemma truncate_spec limit fuel : 0 ≤ limit → ∀ s, (length s ≤ fuel)%nat →
  Z.of_nat (length (truncate fuel limit s)) ≤ limit ∧ ∃ n, truncate fuel limit s = take n s.
Proof.
  intros Hl. induction fuel as [|fuel IH]; intros s Hs; cbn [truncate].
  { destruct s; [|simpl in Hs; lia]. split; [done|]. by exists 0%nat. }
  destruct (limit <? Z.of_nat (length s)) eqn:E; bsplit.
  - pose proof (last_rune_size_pos s). destruct (IH (take (length s - last_rune_size s) s)) as [H1 [n H2]].
    { rewrite length_take. lia. }
    split; [done|]. exists (n `min` (length s - last_rune_size s))%nat. by rewrite H2, take_take.
  - split; [lia|]. exists (length s). by rewrite firstn_all.
Qed.
Lemma sanitizeCaptured_spec s limit : 0 ≤ limit →
  Z.of_nat (length (sanitizeCaptured s limit)) ≤ limit ∧ clean (sanitizeCaptured s limit).
Proof.
  intros Hl. unfold sanitizeCaptured. set (t := if hasControlChars s then _ else _).
  assert (clean t) as Ht.
  { subst t. destruct (hasControlChars s) eqn:E; [apply clean_trim, blank_clean|by apply hasControlChars_spec]. }
  destruct (truncate_spec limit (length t) Hl t) as [H1 [n H2]]; [lia|]. split; [done|]. rewrite H2. by apply clean_take.
Qed.
Lemma sanitized_accepted field s limit : 0 ≤ limit → checkDisplayString field (sanitizeCaptured s limit) limit = None.
Proof.
  intros Hl. destruct (sanitizeCaptured_spec s limit Hl) as [H1 H2]. unfold checkDisplayString.
  rewrite (proj2 (Z.ltb_ge _ _)) by done. by rewrite (proj2 (hasControlChars_spec _)).
Qed.

(** ** What capture writes is accepted *)

Lemma first_err_all {A E} (f : A → option E) l : Forall (λ x, f x = None) l → first_err f l = None.
Proof. intros H. apply first_err_None. by apply Forall_forall. Qed.
Lemma warnings_accepted ws : ∀ i, warnings_loop i (map (λ w, sanitizeCaptured w maxWarningLen) ws) = None.
Proof.
  induction ws as [|w ws IH]; intros i; cbn [map warnings_loop]; [done|]. rewrite sanitized_accepted by done. apply IH.
Qed.
Lemma bound_warnings_length ws : Z.of_nat (length (bound_warnings ws)) ≤ maxWarnings.
Proof.
  unfold bound_warnings. destruct (maxWarnings <? Z.of_nat (length ws)) eqn:E; bsplit; [|done].
  rewrite length_app, length_take. cbn [length]. unfold maxWarnings in *. lia.
Qed.
Lemma labels_sanitized labels order : ∀ out,
  (∀ k v, out !! k = Some v → Forall (λ r, r = None) [checkDisplayString (bytes_of "labels key") k maxLabelKeyLen;
     checkDisplayString ("labels[" ++ k ++ "]") v maxLabelValueLen]) →
  let m := fold_left (sanitize_label labels) order out in
  (size m ≤ length order + size out)%nat
  ∧ ∀ k v, m !! k = Some v → checkDisplayString (bytes_of "labels key") k maxLabelKeyLen = None
      ∧ checkDisplayString ("labels[" ++ k ++ "]") v maxLabelValueLen = None.
Proof.
  induction order as [|k0 order IH]; intros out Hout; cbn [fold_left length].
  - split; [lia|]. intros k v Hk. specialize (Hout k v Hk). by repeat apply Forall_cons in Hout as [? Hout].
  - destruct (IH (sanitize_label labels out k0)) as [H1 H2].
    + unfold sanitize_label. intros k v Hk. destruct (decide (k = sanitizeCaptured k0 maxLabelKeyLen)) as [->|Hne].
      * rewrite lookup_insert_eq in Hk. injection Hk as <-. rewrite !sanitized_accepted by done. by repeat constructor.
      * rewrite lookup_insert_ne in Hk by done. by apply Hout.
    + split; [|done]. etrans; [exact H1|]. unfold sanitize_label.
      destruct (out !! sanitizeCaptured k0 maxLabelKeyLen) eqn:E.
      * rewrite map_size_insert_Some by (by eexists). lia.
      * rewrite map_size_insert_None by done. lia.
Qed.

(** What capture records passes the check every reader of a snapshot makes
    of strings a person will see: after [sanitizeSnapshotStrings], whatever
    order the labels are read in, every display string is within its bound and
    has no control character a terminal would act on (C0, DEL, or C1 in UTF-8,
    also in text that is not valid UTF-8), and the warnings are within their
    number, unless the operator gave more labels than the format admits or a
    redaction was recorded under a bad name. *)
Theorem sanitized_document_accepted s order :
  Z.of_nat (length order) ≤ maxLabels →
  Forall (λ r, checkDisplayString (bytes_of "redactions") r maxDisplayStringLen = None) (sn_Redactions s) →
  checkDisplayStrings (sanitizeSnapshotStrings order s) = None.
Proof.
  intros Ho Hr. unfold checkDisplayStrings. rewrite first_err_all.
  2: { unfold single_fields, sanitize_field. cbn. unfold sanitize_field. repeat (constructor; [by apply sanitized_accepted|]). constructor. }
  cbn [or_else]. rewrite first_err_all by done. cbn [or_else].
  change (sn_Warnings (sanitizeSnapshotStrings order s)) with (map (λ w, sanitizeCaptured w maxWarningLen) (bound_warnings (sn_Warnings s))).
  rewrite length_map, (proj2 (Z.ltb_ge _ _)) by apply bound_warnings_length. rewrite warnings_accepted. cbn [or_else].
  change (sn_Labels (sanitizeSnapshotStrings order s)) with (fold_left (sanitize_label (sn_Labels s)) order ∅).
  destruct (labels_sanitized (sn_Labels s) order ∅) as [H1 H2]; [intros k v Hk; by rewrite lookup_empty in Hk|].
  cbv zeta in H1, H2. rewrite map_size_empty in H1.
  rewrite (proj2 (Z.ltb_ge _ _)) by lia. apply first_err_None. intros k Hk. unfold label_check.
  change (sn_Labels (sanitizeSnapshotStrings order s)) with (fold_left (sanitize_label (sn_Labels s)) order ∅).
  unfold sorted_keys in Hk. rewrite elem_of_sort_strings, list_elem_of_In, in_map_iff in Hk.
  destruct Hk as ([k' v] & <- & Hin). apply list_elem_of_In, elem_of_map_to_list in Hin. cbn [fst].
  rewrite Hin. destruct (H2 k' v Hin) as [-> H4]. cbn [or_else default]. exact H4.
Qed.

(** A document whose warning and label rewrite a terminal's title. *)
Definition esc : ascii := chr 27.
Definition escaping_snapshot : Snapshot :=
  mkSnapshot SchemaVersion (bytes_of "2025-01-02T03:04:05Z") (mkTool (bytes_of "debark") (bytes_of "1.0") []) zero_Target
    (mkAPT [] [] [] [] []) zero_File (mkOrigin [] [] [] [] []) 1 []
    (<[bytes_of "site" := esc :: bytes_of "]0;gotcha"]> ∅) [bytes_of "proxy-credentials"] [esc :: bytes_of "[2Jall clear"].
Example escaping_refused : checkDisplayStrings escaping_snapshot ≠ None.
Proof. vm_compute. by intros [=]. Qed.

Lemma sanitized_document_accepted_witness :
  checkDisplayStrings (sanitizeSnapshotStrings [bytes_of "site"] escaping_snapshot) = None.
Proof.
  apply (sanitized_document_accepted escaping_snapshot [bytes_of "site"]).
  - vm_compute. by intros [=].
  - constructor; [vm_compute; reflexivity|constructor].
Defined.

(** ** Accepted documents *)

Definition member_path (p : gostring) : Prop := safe_path p ∧ ("\"%char ∉ p) ∧ (":"%char ∉ p) ∧ clean p.
Lemma safeArchivePath_spec p : safeArchivePath p = true ↔ member_path p.
Proof.
  unfold safeArchivePath, member_path. change (has_prefix "/" p) with (has_prefix [slash] p). split.
  - intros H. destruct (streq p "" || streq p "." || negb (streq p (path_clean p))) eqn:E1; [done|].
    destruct (has_prefix [slash] p) eqn:E2; [done|]. destruct (contains_byte "\" p || contains_byte ":" p) eqn:E3; [done|].
    destruct (hasControlChars p) eqn:E4; [done|]. apply orb_false_iff in E3 as [E3%contains_byte_false E5%contains_byte_false].
    split_and!; [|done..|by apply hasControlChars_spec]. unfold safe_path. apply Forall_forall. intros w Hw.
    rewrite forallb_forall in H. specialize (H w (proj1 (list_elem_of_In _ _) Hw)).
    apply negb_true_iff in H. rewrite !orb_false_iff, !streq_false_iff in H. by destruct H as [[? ?] ?].
  - intros (Hs & H1%contains_byte_false & H2%contains_byte_false & H3%hasControlChars_spec).
    pose proof (safe_path_clean p Hs) as Hc. pose proof (safe_path_not_rooted p Hs) as Hr. rewrite Hc, streq_refl, Hr, H1, H2, H3.
    rewrite (streq_false p "") by (by apply safe_path_nonempty). cbn [orb negb].
    rewrite streq_false by (intros ->; by apply Forall_inv in Hs as (_ & ? & _)). apply forallb_forall. intros w Hw%list_elem_of_In.
    destruct (proj1 (Forall_forall _ _) Hs w Hw) as (? & ? & ?). by rewrite !streq_false.
Qed.

Definition arch_rest (c : ascii) : bool := is_lower c || is_digit c || beq c "-".
Definition arch_name (a : gostring) : Prop :=
  (length a ≤ 32)%nat ∧ ∃ c t, a = c :: t ∧ is_lower c = true ∧ forallb arch_rest t = true.
Lemma arch_byte_small i r : arch_byte i r = true → r < 128.
Proof. unfold arch_byte. rewrite !orb_true_iff, !andb_true_iff, !Z.leb_le, Z.eqb_eq. lia. Qed.
Lemma arch_runes_small rs : ∀ i, arch_runes i rs = true → Forall (λ r, r < 128) rs.
Proof. induction rs as [|r rs IH]; intros i; cbn [arch_runes]; [constructor|]. intros [H1%arch_byte_small H2%IH]%andb_true_iff. by constructor. Qed.
Lemma arch_rest_runes t : ∀ i, (0 < i)%nat → is_ascii t = true → arch_runes i (map ord t) = forallb arch_rest t.
Proof.
  induction t as [|c t IH]; intros i Hi; [done|]. cbn [is_ascii forallb map arch_runes]. intros [Hc Ht]%andb_true_iff.
  rewrite IH by (try done; lia). f_equal. unfold arch_byte, arch_rest, is_lower, is_digit, between. rewrite !(proj2 (Nat.ltb_lt 0 i) Hi), !andb_true_r.
  assert ((ord c =? 45) = beq c "-") as ->; [|done]. unfold beq. destruct (Z.eqb_spec (ord c) 45) as [E|E].
  - symmetry. apply bool_decide_eq_true. apply ord_inj. exact E.
  - symmetry. apply bool_decide_eq_false. by intros ->.
Qed.
Lemma ascii_of_rest t : forallb arch_rest t = true → is_ascii t = true.
Proof.
  intros H. apply forallb_forall. intros c Hc. apply forallb_forall with (x := c) in H; [|done]. apply Z.ltb_lt.
  unfold arch_rest, is_lower, is_digit, between, beq in H. rewrite !orb_true_iff, !andb_true_iff, !Z.leb_le, bool_decide_eq_true in H.
  destruct H as [[[_ H]|[_ H]]| ->]; [change (ord "z") with 122 in H; lia|change (ord "9") with 57 in H; lia|done].
Qed.
Lemma plausibleArch_spec a : plausibleArch a = true ↔ arch_name a.
Proof.
  unfold plausibleArch, arch_name. rewrite !andb_true_iff, negb_true_iff, streq_false_iff, Nat.leb_le. split.
  - intros [[Hne Hl] Hr]. split; [done|]. pose proof (arch_runes_small _ _ Hr) as Hs. pose proof (runes_all_small a Hs) as Ea.
    assert (is_ascii a = true) as Hasc.
    { unfold is_ascii. apply forallb_forall. intros c Hc. rewrite Ea in Hc. apply in_map_iff in Hc as (r & <- & Hin).
      rewrite Forall_forall in Hs. specialize (Hs r (proj2 (list_elem_of_In _ _) Hin)).
      apply Z.ltb_lt. destruct (Z_lt_le_dec r 0) as [Hn|Hn]; [|rewrite ord_chr; lia]. destruct r; try lia. by vm_compute. }
    rewrite runes_ascii in Hr by done. destruct a as [|c t]; [done|]. exists c, t. split; [done|].
    cbn [map arch_runes is_ascii forallb] in Hr, Hasc. apply andb_true_iff in Hr as [H1 H2]. apply andb_true_iff in Hasc as [_ Ht].
    rewrite arch_rest_runes in H2 by (try done; lia). split; [|done]. unfold arch_byte in H1. cbn [Nat.ltb Nat.leb] in H1.
    rewrite !andb_false_r, !orb_false_r in H1. exact H1.
  - intros [Hl (c & t & -> & Hc & Ht)]. split_and!; [done|done|]. pose proof (ascii_of_rest t Ht) as Hta.
    assert (is_ascii (c :: t) = true) as Hasc.
    { cbn [is_ascii forallb]. apply andb_true_iff. split; [|done]. apply Z.ltb_lt. unfold is_lower, between in Hc.
      apply andb_true_iff in Hc as [_ Hc%Z.leb_le]. change (ord "z") with 122 in Hc. lia. }
    rewrite runes_ascii by done. cbn [map arch_runes]. rewrite arch_rest_runes, Ht by (try done; lia). unfold arch_byte.
    change ((97 <=? ord c) && (ord c <=? 122)) with (is_lower c). by rewrite Hc.
Qed.

Definition no_file (f : File) : bool := streq (fi_Path f) "" && streq (fi_ArchivePath f) "".
Definition file_ok (f : File) : Prop :=
  clean (fi_Path f) ∧ Digest.Valid (fi_SHA256 f) = true ∧ member_path (fi_ArchivePath f).
Definition agree (f g : File) : Prop :=
  fi_ArchivePath f = fi_ArchivePath g → fi_Path f = fi_Path g ∧ fi_SHA256 f = fi_SHA256 g.
Lemma contested_agree p f : fi_ArchivePath p = fi_ArchivePath f → contested (Some p) f = false ↔ agree p f.
Proof. intros E. cbn [contested]. rewrite orb_false_iff, !negb_false_iff, !streq_true. unfold agree. tauto. Qed.

Lemma files_loop_spec files : ∀ seen, (∀ ap p, seen !! ap = Some p → fi_ArchivePath p = ap) →
  files_loop seen files = None ↔
  (∀ f, f ∈ files → no_file f = false → file_ok f ∧ ∀ p, seen !! fi_ArchivePath f = Some p → agree p f)
  ∧ (∀ f g, f ∈ files → g ∈ files → no_file f = false → no_file g = false → agree f g).
Proof.
  induction files as [|f files IH]; intros seen Hseen; cbn [files_loop].
  { split; [|done]. split; [by intros f ?%elem_of_nil|by intros f g ?%elem_of_nil]. }
  change (streq (fi_Path f) "" && streq (fi_ArchivePath f) "") with (no_file f). destruct (no_file f) eqn:Hn.
  { rewrite IH by done. split; intros [H1 H2]; split.
    - intros g [->|Hg]%elem_of_cons Hgn; [congruence|by apply H1].
    - intros g h [->|Hg]%elem_of_cons [->|Hh]%elem_of_cons ? ?; try congruence. by apply H2.
    - intros g Hg. apply H1. by right.
    - intros g h Hg Hh. apply H2; by right. }
  assert (∀ ap p, <[fi_ArchivePath f:=f]> seen !! ap = Some p → fi_ArchivePath p = ap) as Hseen'.
  { intros ap p. destruct (decide (ap = fi_ArchivePath f)) as [->|Hne].
    - rewrite lookup_insert_eq. by intros [= <-].
    - rewrite lookup_insert_ne by done. apply Hseen. }
  assert (contested (seen !! fi_ArchivePath f) f = false ↔ ∀ p, seen !! fi_ArchivePath f = Some p → agree p f) as Hc.
  { destruct (seen !! fi_ArchivePath f) as [p|] eqn:E; [|done]. rewrite contested_agree by (by apply Hseen).
    split; [by intros ? q [= <-]|auto]. }
  split.
  - intros H. destruct (hasControlChars (fi_Path f)) eqn:E1; [done|]. destruct (Digest.Valid (fi_SHA256 f)) eqn:E2; [|done].
    destruct (safeArchivePath (fi_ArchivePath f)) eqn:E3; [|done]. destruct (contested _ f) eqn:E4; [done|]. cbn [negb] in H.
    clear E4. pose proof (proj1 Hc eq_refl) as E4. apply (IH _ Hseen') in H as [H1 H2].
    assert (∀ g, g ∈ files → no_file g = false → agree f g) as Hfg.
    { intros g Hg Hgn Ea. apply (H1 g Hg Hgn); [|done]. by rewrite <- Ea, lookup_insert_eq. }
    assert (∀ g, g ∈ files → no_file g = false → agree g f) as Hgf.
    { intros g Hg Hgn Ea. destruct (Hfg g Hg Hgn) as [? ?]; [by symmetry|]. by split. }
    split.
    + intros g [->|Hg]%elem_of_cons Hgn.
      * split; [|done]. split_and!; [by apply hasControlChars_spec|done|by apply safeArchivePath_spec].
      * destruct (H1 g Hg Hgn) as [Hok Hs]. split; [done|]. intros p Hp Ea.
        destruct (decide (fi_ArchivePath g = fi_ArchivePath f)) as [E|Hne].
        -- destruct (Hfg g Hg Hgn) as [? ?]; [by symmetry|]. rewrite E in Hp.
           destruct (E4 p Hp) as [? ?]; [congruence|]. split; congruence.
        -- apply Hs; [by rewrite lookup_insert_ne|done].
    + intros g h [->|Hg]%elem_of_cons [->|Hh]%elem_of_cons Hgn Hhn; [by intros _|by apply Hfg|by apply Hgf|by apply H2].
  - intros [H1 H2]. destruct (H1 f ltac:(by left) Hn) as [(Hp & Hd & Hm) Hs].
    rewrite (proj2 (hasControlChars_spec _) Hp), Hd, (proj2 (safeArchivePath_spec _) Hm), (proj2 Hc Hs). cbn [negb].
    apply (IH _ Hseen'). split; [|intros g h Hg Hh; apply H2; by right].
    intros g Hg Hgn. destruct (H1 g ltac:(by right) Hgn) as [Hok Hsg]. split; [done|]. intros p.
    destruct (decide (fi_ArchivePath g = fi_ArchivePath f)) as [E|Hne].
    + rewrite E, lookup_insert_eq. intros [= <-]. apply H2; [by left|by right|done..].
    + rewrite lookup_insert_ne by done. apply Hsg.
Qed.

Lemma or_else_None {A} (a b : option A) : or_else a b = None ↔ a = None ∧ b = None.
Proof. destruct a; cbn; split; [done|by intros [? _]|done|by intros [_ ?]]. Qed.
Lemma first_err_guard {A E} (ok : A → bool) (e : A → E) l :
  first_err (λ x, if ok x then None else Some (e x)) l = None ↔ ∀ x, x ∈ l → ok x = true.
Proof.
  rewrite first_err_None. split; intros H x Hx; specialize (H x Hx); [by destruct (ok x)|by rewrite H].
Qed.

Definition within (limit : Z) (s : gostring) : Prop := Z.of_nat (length s) ≤ limit ∧ clean s.
Lemma display_ok field s limit : checkDisplayString field s limit = None ↔ within limit s.
Proof.
  unfold checkDisplayString, within. rewrite <- hasControlChars_spec. destruct (limit <? Z.of_nat (length s)) eqn:E; bsplit.
  - split; [done|]. intros [? _]. lia.
  - destruct (hasControlChars s); split; try done. by intros [_ ?].
Qed.
Definition strings_ok (s : Snapshot) : Prop :=
  Forall (λ f, within maxDisplayStringLen f.2) (single_fields s) ∧ Forall (within maxDisplayStringLen) (sn_Redactions s)
  ∧ Z.of_nat (length (sn_Warnings s)) ≤ maxWarnings ∧ Forall (within maxWarningLen) (sn_Warnings s)
  ∧ Z.of_nat (size (sn_Labels s)) ≤ maxLabels
  ∧ map_Forall (λ k v, within maxLabelKeyLen k ∧ within maxLabelValueLen v) (sn_Labels s).
Lemma warnings_loop_spec ws : ∀ i, warnings_loop i ws = None ↔ Forall (within maxWarningLen) ws.
Proof.
  induction ws as [|w ws IH]; intros i; cbn [warnings_loop]; [by split|].
  by rewrite or_else_None, display_ok, IH, Forall_cons.
Qed.
Lemma checkDisplayStrings_spec s : checkDisplayStrings s = None ↔ strings_ok s.
Proof.
  unfold checkDisplayStrings, strings_ok. rewrite !or_else_None, !first_err_None, !Forall_forall.
  setoid_rewrite display_ok. destruct (maxWarnings <? Z.of_nat (length (sn_Warnings s))) eqn:E1; bsplit.
  { split; [by intros (_ & _ & ?)|]. intros (_ & _ & ? & _). lia. }
  rewrite or_else_None, warnings_loop_spec, Forall_forall. destruct (maxLabels <? Z.of_nat (size (sn_Labels s))) eqn:E2; bsplit.
  { split; [by intros (_ & _ & _ & ?)|]. intros (_ & _ & _ & _ & ? & _). lia. }
  assert (first_err (label_check s) (sorted_keys (sn_Labels s)) = None
    ↔ map_Forall (λ k v, within maxLabelKeyLen k ∧ within maxLabelValueLen v) (sn_Labels s)) as ->; [|tauto].
  rewrite first_err_None. unfold label_check. setoid_rewrite or_else_None. setoid_rewrite display_ok. split.
  - intros H k v Hk. specialize (H k). rewrite Hk in H. apply H.
    unfold sorted_keys. rewrite elem_of_sort_strings, list_elem_of_In, in_map_iff. exists (k, v). split; [done|].
    by apply list_elem_of_In, elem_of_map_to_list.
  - intros H k Hk. unfold sorted_keys in Hk. rewrite elem_of_sort_strings, list_elem_of_In, in_map_iff in Hk.
    destruct Hk as ([k' v] & <- & Hin). apply list_elem_of_In, elem_of_map_to_list in Hin. cbn [fst]. rewrite Hin. by apply H.
Qed.

Section accepted.
Context {unicode : UnicodeTables}.
Definition origin_ok (o : Origin) : Prop :=
  (or_Kind o = OriginCaptured ∧ or_BaseID o = [] ∧ or_Source o = [] ∧ or_SourceDigest o = [] ∧ or_AssumedInstalled o = [])
  ∨ (or_Kind o = OriginSynthesized ∧ trim_space (or_BaseID o) ≠ [] ∧ (or_SourceDigest o = [] ∨ Digest.Valid (or_SourceDigest o) = true)
     ∧ Z.of_nat (length (or_AssumedInstalled o)) ≤ maxAssumedInstalled
     ∧ Forall (within maxAssumedInstalledLength) (or_AssumedInstalled o)).
Lemma assumed_ok names : checkAssumedInstalled names = None ↔
  Z.of_nat (length names) ≤ maxAssumedInstalled ∧ Forall (within maxAssumedInstalledLength) names.
Proof.
  unfold checkAssumedInstalled. destruct (maxAssumedInstalled <? Z.of_nat (length names)) eqn:E; bsplit.
  { split; [done|]. intros [? _]. lia. }
  rewrite first_err_None, Forall_forall. split; [intros H; split; [done|]|intros [_ H]]; intros n Hn; specialize (H n Hn).
  - destruct (maxAssumedInstalledLength <? Z.of_nat (length n)) eqn:E1; [done|]. destruct (hasControlChars n) eqn:E2; [done|].
    bsplit. split; [done|by apply hasControlChars_spec].
  - destruct H as [H1 H2%hasControlChars_spec]. by rewrite (proj2 (Z.ltb_ge _ _) H1), H2.
Qed.
Lemma check_origin_spec o : check_origin o = None ↔ origin_ok o.
Proof.
  unfold check_origin, origin_ok. destruct (streq (or_Kind o) OriginCaptured) eqn:E1.
  { apply streq_true in E1. rewrite E1.
    destruct (negb (streq (or_BaseID o) "") || negb (streq (or_Source o) "") || negb (streq (or_SourceDigest o) "")) eqn:E2.
    - split; [done|]. intros [(_ & H1 & H2 & H3 & _)|(? & _)]; [by rewrite H1, H2, H3 in E2|done].
    - rewrite !orb_false_iff, !negb_false_iff, !streq_true in E2. destruct E2 as [[E2 E3] E4].
      destruct (or_AssumedInstalled o); (split; [|done||by intros [(_ & _ & _ & _ & ?)|(? & _)]]); [by left|done]. }
  apply streq_false_iff in E1. destruct (streq (or_Kind o) OriginSynthesized) eqn:E2.
  { apply streq_true in E2. destruct (streq (trim_space (or_BaseID o)) "") eqn:E3.
    { apply streq_true in E3. split; [done|]. intros [(? & _)|(_ & ? & _)]; done. }
    apply streq_false_iff in E3. destruct (negb (streq (or_SourceDigest o) "") && negb (Digest.Valid (or_SourceDigest o))) eqn:E4.
    { split; [done|]. apply andb_true_iff in E4 as [E4%negb_true_iff%streq_false_iff E5%negb_true_iff].
      intros [(? & _)|(_ & _ & [Hd|Hd] & _)]; [congruence|by rewrite Hd in E4|by rewrite Hd in E5]. }
    rewrite assumed_ok. apply andb_false_iff in E4. rewrite !negb_false_iff, streq_true in E4.
    split; [intros [? ?]; right; done|]. intros [(? & _)|(_ & _ & _ & ?)]; done. }
  apply streq_false_iff in E2. split; [by case_match|]. intros [(? & _)|(? & _)]; done.
Qed.

Definition fingerprint_ok (fp : gostring) : Prop :=
  (length fp = 40 ∨ length fp = 64)%nat ∧ Forall (λ c, is_digit c = true ∨ between "A" "F" c = true) fp.
Lemma runes_all_bytes f s : (∀ r, f r = true → 0 ≤ r < 128) → forallb f (runes s) = true ↔ forallb (λ c, f (ord c)) s = true.
Proof.
  intros Hf. split; intros H.
  - assert (Forall (λ r, f r = true) (runes s)) as Ha by (by apply Forall_forall; intros r Hr%list_elem_of_In; eapply forallb_forall in H).
    assert (s = map chr (runes s)) as E.
    { apply runes_all_small. eapply Forall_impl; [exact Ha|]. intros r Hr. by apply Hf. }
    rewrite E. rewrite forallb_forall. intros c Hc. apply in_map_iff in Hc as (r & <- & Hr%list_elem_of_In).
    rewrite Forall_forall in Ha. specialize (Ha r Hr). rewrite ord_chr; [done|]. apply Hf in Ha. lia.
  - rewrite runes_ascii; [apply forallb_forall; intros r (c & <- & Hc)%in_map_iff; by eapply forallb_forall in H|]. apply forallb_forall. intros c Hc. apply Z.ltb_lt.
    eapply forallb_forall in H; [|exact Hc]. apply Hf in H. lia.
Qed.
Lemma plausibleFingerprint_spec fp : plausibleFingerprint fp = true ↔ fingerprint_ok fp.
Proof.
  unfold plausibleFingerprint, fingerprint_ok. rewrite andb_true_iff, orb_true_iff, !Nat.eqb_eq.
  rewrite runes_all_bytes by (intros r; rewrite orb_true_iff, !andb_true_iff, !Z.leb_le; lia).
  rewrite forallb_forall, Forall_forall. setoid_rewrite <- list_elem_of_In. setoid_rewrite orb_true_iff. done.
Qed.

(** A well-formed document. *)
Record valid (s : Snapshot) : Prop := {
  valid_schema : sn_SchemaVersion s = SchemaVersion;
  valid_time : is_Some (ParseTime (sn_CreatedAt s));
  valid_release : trim_space (ta_DistroID (sn_Target s)) ≠ [] ∧ trim_space (ta_VersionID (sn_Target s)) ≠ [];
  valid_archs : Forall arch_name (ta_Arch (sn_Target s) :: ta_ForeignArchs (sn_Target s));
  valid_status : fi_Path (sn_DpkgStatus s) ≠ [] ∧ fi_ArchivePath (sn_DpkgStatus s) ≠ [];
  valid_origin : origin_ok (sn_Origin s);
  valid_strings : strings_ok s;
  valid_files : ∀ f, f ∈ Files s → no_file f = false → file_ok f;
  valid_claims : ∀ f g, f ∈ Files s → g ∈ Files s → no_file f = false → no_file g = false → agree f g;
  valid_keys : Forall (λ kf, fingerprint_ok (kf_Fingerprint kf)) (sn_KeyringFingerprints s)
}.

(** [doValidate] accepts exactly the well-formed documents: of the schema
    and time this program writes, for a named release and plausible
    architectures, with a status, of one of the two origins and none of the
    other's fields, with bounded display strings free of control characters,
    every file under a relative path of ordinary segments with a well-formed
    digest, no archive path claimed for two contents or by two paths, and
    fingerprints that are fingerprints. *)
Theorem doValidate_spec s : doValidate s = None ↔ valid s.
Proof.
  unfold doValidate. destruct (streq (sn_SchemaVersion s) SchemaVersion) eqn:E1; cbn [negb].
  2: { split; [done|]. intros []. by apply streq_false_iff in E1. }
  apply streq_true in E1. destruct (ParseTime (sn_CreatedAt s)) as [tm|] eqn:E2.
  2: { split; [done|]. intros [_ [? ?]]. congruence. }
  destruct (streq (trim_space (ta_DistroID (sn_Target s))) "") eqn:E3.
  { split; [done|]. intros [_ _ [H _]]. by apply streq_true in E3. }
  destruct (streq (trim_space (ta_VersionID (sn_Target s))) "") eqn:E4.
  { split; [done|]. intros [_ _ [_ H]]. by apply streq_true in E4. }
  apply streq_false_iff in E3, E4. destruct (plausibleArch (ta_Arch (sn_Target s))) eqn:E5; cbn [negb].
  2: { split; [done|]. intros [_ _ _ H%Forall_inv]. apply plausibleArch_spec in H. congruence. }
  rewrite or_else_None. rewrite (first_err_guard plausibleArch BadArch).
  destruct (streq (fi_Path (sn_DpkgStatus s)) "" || streq (fi_ArchivePath (sn_DpkgStatus s)) "") eqn:E6.
  { split; [by intros [_ ?]|]. intros [_ _ _ _ [H1 H2]]. apply orb_true_iff in E6 as [E6|E6]; by apply streq_true in E6. }
  apply orb_false_iff in E6 as [E6%streq_false_iff E7%streq_false_iff].
  rewrite !or_else_None, check_origin_spec, checkDisplayStrings_spec, files_loop_spec by (intros ap p Hp; by rewrite lookup_empty in Hp).
  rewrite (first_err_guard (λ kf, plausibleFingerprint (kf_Fingerprint kf)) (λ kf, BadFingerprint (kf_Fingerprint kf))).
  setoid_rewrite plausibleFingerprint_spec. setoid_rewrite plausibleArch_spec. split.
  - intros (Ha & Ho & Hs & [Hf Hc] & Hk). split; try done.
    + constructor; [by apply plausibleArch_spec|by apply Forall_forall].
    + intros f Hin Hn. by apply Hf.
    + by apply Forall_forall.
  - intros [_ _ _ Ha _ Ho Hs Hf Hc Hk]. split_and!; try done.
    + apply Forall_cons in Ha as [_ Ha]. by apply Forall_forall.
    + intros f Hin Hn. split; [by apply Hf|]. intros p Hp. by rewrite lookup_empty in Hp.
    + by apply Forall_forall.
Qed.
End accepted.
