(* ===== verification/PolicyLoad.v ===== *)
(** * core/policy: the policy file (api.go, validate.go, miniyaml.go).

    A policy file is JSON or a small part of YAML; both end in the decoder of
    encoding/json, after the names of the fields were checked and before the
    values are. [LoadApprovedKeys] reads a list of fingerprints. The texts of
    errors are left out; of two bad globs in different fields, which one a Go map
    reports first is not determined, and here it is that of [allow_packages]. *)
From S2P Require Export Policy JsonFold.
#[local] Open Scope Z_scope.

(** ** validate.go *)

Inductive policy_error :=
| Unreadable | NotJSON | NotYAML | BadValue
| UnknownField (name : gostring) | RepeatedField (name : gostring)
| BadSchema (version : gostring) | BadSeverity (s : gostring) | UnknownFlag (f : gostring)
| BadGlob (pattern : gostring) | NotFingerprint (k : gostring) | NoFingerprints.

Definition policyFields : list gostring :=
  [bytes_of "schema_version"; bytes_of "allow_components"; bytes_of "deny_components"; bytes_of "allow_packages";
   bytes_of "deny_packages"; bytes_of "require_signed_publisher"; bytes_of "allow_url_inputs"; bytes_of "approved_keys";
   bytes_of "deny_flags"; bytes_of "default_severity"].
Definition knownFlags : list gostring :=
  [bytes_of "multiverse"; bytes_of "restricted"; bytes_of "non-free"; bytes_of "non-free-firmware"; bytes_of "network-postinst";
   bytes_of "snap-shim"; bytes_of "dkms"; bytes_of "user-supplied"].

Fixpoint keys_loop (seen : gset gostring) (keys : list gostring) : option policy_error :=
  match keys with
  | [] => None
  | k :: rest =>
      if negb (bool_decide (k ∈ policyFields)) then Some (UnknownField k)
      else if bool_decide (k ∈ seen) then Some (RepeatedField k)
      else keys_loop ({[k]} ∪ seen) rest
  end.
Definition checkPolicyKeys (keys : list gostring) : option policy_error := keys_loop ∅ keys.

(** [jsonObjectKeys]: the names in the order of the file, repeated ones included.
    Text that has an object only at its front is refused here, and by the decoder
    that follows in the source. *)
Definition jsonObjectKeys (data : gostring) : result policy_error (list gostring) :=
  match json_parse data with Some (JObj members) => Ok (map fst members) | _ => Err NotJSON end.

Fixpoint normalize_keys (ks : list gostring) : result policy_error (list gostring) :=
  match ks with
  | [] => Ok []
  | k :: rest =>
      match normalizeFingerprint k with
      | None => Err (NotFingerprint k)
      | Some fp => fps ← normalize_keys rest; Ok (fp :: fps)
      end
  end.
Definition bad_glob (pats : list gostring) : option gostring :=
  find (λ pat, match Match pat [] with None => true | Some _ => false end) pats.

Section load.
Context {unicode : UnicodeTables}.

Definition validatePolicy (p : Policy) : result policy_error Policy :=
  if negb (streq (pl_SchemaVersion p) SchemaVersion) then Err (BadSchema (pl_SchemaVersion p))
  else if negb (bool_decide (pl_DefaultSeverity p ∈ [[]; SeverityInfo; SeverityWarn; SeverityDeny])) then Err (BadSeverity (pl_DefaultSeverity p))
  else match find (λ f, negb (matchesAnyFold knownFlags f)) (pl_DenyFlags p) with
  | Some f => Err (UnknownFlag f)
  | None =>
      match bad_glob (pl_AllowPackages p ++ pl_DenyPackages p) with
      | Some pat => Err (BadGlob pat)
      | None =>
          fps ← normalize_keys (pl_ApprovedKeys p);
          Ok (mkPolicy (pl_SchemaVersion p) (pl_AllowComponents p) (pl_DenyComponents p) (pl_AllowPackages p) (pl_DenyPackages p)
                (pl_RequireSignedPublisher p) (pl_AllowURLInputs p) fps (pl_DenyFlags p) (pl_DefaultSeverity p))
      end
  end.

(** [json.Unmarshal] into a [Policy]. *)
Definition into_bool : into bool := λ v old,
  match v with JNull => Ok old | JBool b => Ok b | _ => Err UnmarshalTypeError end.
Definition into_boolp : into (option bool) := λ v _,
  match v with JNull => Ok None | JBool b => Ok (Some b) | _ => Err UnmarshalTypeError end.
Definition into_strings : into (list gostring) := into_slice into_string [].
Definition into_Policy : into Policy := into_struct (λ m p,
  a ← into_field into_string m "schema_version" (pl_SchemaVersion p);
  b ← into_field into_strings m "allow_components" (pl_AllowComponents p);
  c ← into_field into_strings m "deny_components" (pl_DenyComponents p);
  d ← into_field into_strings m "allow_packages" (pl_AllowPackages p);
  e ← into_field into_strings m "deny_packages" (pl_DenyPackages p);
  f ← into_field into_bool m "require_signed_publisher" (pl_RequireSignedPublisher p);
  g ← into_field into_boolp m "allow_url_inputs" (pl_AllowURLInputs p);
  h ← into_field into_strings m "approved_keys" (pl_ApprovedKeys p);
  i ← into_field into_strings m "deny_flags" (pl_DenyFlags p);
  j ← into_field into_string m "default_severity" (pl_DefaultSeverity p);
  Ok (mkPolicy a b c d e f g h i j)).
Definition zero_Policy : Policy := mkPolicy [] [] [] [] [] false None [] [] [].
Definition unmarshal_policy (v : json) : result policy_error Policy := map_err (λ _, BadValue) (into_Policy v zero_Policy).
End load.

(** ** miniyaml.go *)

#[warnings="-register-all"]
Inductive yaml := YNull | YBool (b : bool) | YStr (s : gostring) | YList (items : list yaml).
Definition is_blank (c : ascii) : bool := beq c " " || beq c (chr 9).
Definition blanks : gostring := [" "%char; chr 9].
Definition squote : ascii := chr 39.
Definition dquote : ascii := chr 34.
(** The quotes one byte opens or closes. *)
Definition in_quotes (c : ascii) (q : bool * bool) : bool * bool :=
  let '(inSingle, inDouble) := q in
  if beq c squote && negb inDouble then (negb inSingle, inDouble)
  else if beq c dquote && negb inSingle then (inSingle, negb inDouble) else q.
Definition unquoted (q : bool * bool) : bool := negb q.1 && negb q.2.

(** [strconv.Unquote] of a text in double quotes, after the first one. *)
Definition hex_value (c : ascii) : option Z :=
  if is_digit c then Some (ord c - 48) else if between "a" "f" c then Some (ord c - 87)
  else if between "A" "F" c then Some (ord c - 55) else None.
Fixpoint hex_number (n : nat) (v : Z) (s : gostring) : option (Z * gostring) :=
  match n, s with
  | O, _ => Some (v, s)
  | S n, c :: s => x ← hex_value c; hex_number n (v * 16 + x) s
  | S _, [] => None
  end.
Definition valid_code (r : Z) : bool := ((0 <=? r) && (r <? 55296)) || ((57343 <? r) && (r <=? 1114111)).
Definition octal (c : ascii) : option Z := if between "0" "7" c then Some (ord c - 48) else None.
(** An escape after its backslash: the bytes it stands for. *)
Definition unescape (c : ascii) (s : gostring) : option (gostring * gostring) :=
  if beq c "a" then Some ([chr 7], s) else if beq c "b" then Some ([chr 8], s) else if beq c "f" then Some ([chr 12], s)
  else if beq c "n" then Some ([chr 10], s) else if beq c "r" then Some ([chr 13], s) else if beq c "t" then Some ([chr 9], s)
  else if beq c "v" then Some ([chr 11], s)
  else if beq c "x" then '(v, s) ← hex_number 2 0 s; Some ([chr v], s)
  else if beq c "u" || beq c "U" then
    '(v, s) ← hex_number (if beq c "u" then 4 else 8) 0 s;
    if valid_code v then Some (encode_rune v, s) else None
  else match octal c with
  | Some v =>
      match s with
      | d :: e :: s => x ← octal d; y ← octal e; let v := v * 64 + x * 8 + y in if 255 <? v then None else Some ([chr v], s)
      | _ => None
      end
  | None => if beq c "\" || beq c dquote then Some ([c], s) else None
  end.
Fixpoint unquote_loop (fuel : nat) (s : gostring) : option gostring :=
  match fuel, s with
  | O, _ | _, [] => None
  | S fuel, c :: rest =>
      if beq c dquote then match rest with [] => Some [] | _ => None end
      else if beq c newline then None
      else if beq c "\" then
        match rest with
        | [] => None
        | d :: rest => '(out, rest) ← unescape d rest; (out ++.) <$> unquote_loop fuel rest
        end
      else if ord c <? 128 then (c ::.) <$> unquote_loop fuel rest
      else let '(r, rest) := decode_rune s in (encode_rune r ++.) <$> unquote_loop fuel rest
  end.
Definition go_unquote (s : gostring) : option gostring :=
  match s with c :: rest => if beq c dquote then unquote_loop (S (length rest)) rest else None | [] => None end.

Definition between_quotes (q : ascii) (s : gostring) : option gostring :=
  match cut_prefix [q] s with Some t => if has_suffix [q] t then Some (trim_suffix [q] t) else None | None => None end.
Definition parseYAMLScalar (s : gostring) : yaml :=
  let s := trim_space s in
  match between_quotes dquote s with
  | Some inner => YStr (default inner (go_unquote s))
  | None =>
      match between_quotes squote s with
      | Some inner => YStr (replace_all [squote; squote] [squote] inner)
      | None =>
          if bool_decide (s ∈ [bytes_of "true"; bytes_of "True"; bytes_of "TRUE"]) then YBool true
          else if bool_decide (s ∈ [bytes_of "false"; bytes_of "False"; bytes_of "FALSE"]) then YBool false
          else if bool_decide (s ∈ [bytes_of "null"; bytes_of "Null"; bytes_of "NULL"; bytes_of "~"; []]) then YNull
          else YStr s
      end
  end.

Fixpoint strip_loop (q : bool * bool) (starts : bool) (s : gostring) : gostring :=
  match s with
  | [] => []
  | c :: rest =>
      if negb (bool_decide (in_quotes c q = q)) then c :: strip_loop (in_quotes c q) (is_blank c) rest
      else if beq c "#" && unquoted q && starts then []
      else c :: strip_loop q (is_blank c) rest
  end.
Definition stripYAMLComment (s : gostring) : gostring := strip_loop (false, false) true s.
(** Whether a line is indented, and its content. *)
Fixpoint splitIndent (line : gostring) : nat * gostring :=
  match line with
  | c :: rest => if is_blank c then let '(n, content) := splitIndent rest in (S n, content) else (O, line)
  | [] => (O, [])
  end.
Definition line_content (line : gostring) : nat * gostring :=
  let '(n, content) := splitIndent line in (n, trim_right blanks (stripYAMLComment content)).

Fixpoint key_loop (q : bool * bool) (pre s : gostring) : option (gostring * gostring) :=
  match s with
  | [] => None
  | c :: rest =>
      if negb (bool_decide (in_quotes c q = q)) then key_loop (in_quotes c q) (pre ++ [c]) rest
      else if beq c ":" && unquoted q then
        match rest with
        | [] => Some (trim_space pre, [])
        | d :: _ => if is_blank d then Some (trim_space pre, rest) else key_loop q (pre ++ [c]) rest
        end
      else key_loop q (pre ++ [c]) rest
  end.
Definition splitYAMLKey (content : gostring) : option (gostring * gostring) := key_loop (false, false) [] content.
Definition splitYAMLListItem (content : gostring) : option gostring :=
  match content with
  | [c] => if beq c "-" then Some [] else None
  | c :: d :: rest => if beq c "-" && is_blank d then Some rest else None
  | [] => None
  end.
Fixpoint items_loop (q : bool * bool) (cur s : gostring) : list gostring :=
  match s with
  | [] => [cur]
  | c :: rest =>
      if negb (bool_decide (in_quotes c q = q)) then items_loop (in_quotes c q) (cur ++ [c]) rest
      else if beq c "," && unquoted q then cur :: items_loop q [] rest
      else items_loop q (cur ++ [c]) rest
  end.
Definition splitFlowItems (s : gostring) : list gostring := items_loop (false, false) [] s.
Definition parseYAMLFlowSeq (s : gostring) : option (list yaml) :=
  match cut_prefix "[" (trim_space s) with
  | None => None
  | Some t =>
      match cut_suffix "]" t with
      | None => None
      | Some inner => let inner := trim_space inner in if streq inner "" then Some [] else Some (map parseYAMLScalar (splitFlowItems inner))
      end
  end.

(** The items of a block sequence, and the lines after it. *)
Fixpoint collect (items : list yaml) (lines : list gostring) : list yaml * list gostring :=
  match lines with
  | [] => (items, [])
  | line :: rest =>
      let '(indent, content) := line_content line in
      if streq content "" then collect items rest
      else if (indent =? 0)%nat then (items, lines)
      else match splitYAMLListItem content with
      | None => (items, lines)
      | Some item => collect (items ++ [parseYAMLScalar item]) rest
      end
  end.
Definition collectBlockSequence (lines : list gostring) : option (list yaml) * list gostring :=
  match collect [] lines with ([], _) => (None, lines) | (items, rest) => (Some items, rest) end.

Fixpoint yaml_loop (fuel : nat) (m : list (gostring * yaml)) (lines : list gostring) : result policy_error (list (gostring * yaml)) :=
  match fuel, lines with
  | _, [] => Ok m
  | O, _ => Err NotYAML
  | S fuel, line :: rest =>
      let '(indent, content) := line_content line in
      if bool_decide (content ∈ [[]; bytes_of "---"; bytes_of "..."]) then yaml_loop fuel m rest
      else if negb (indent =? 0)%nat then Err NotYAML
      else match splitYAMLKey content with
      | None => Err NotYAML
      | Some (key, value) =>
          if bool_decide (key ∈ map fst m) then Err (RepeatedField key)
          else
            let value := trim_space value in
            if streq value "" then
              match collectBlockSequence rest with
              | (Some items, rest) => yaml_loop fuel (m ++ [(key, YList items)]) rest
              | (None, _) => yaml_loop fuel (m ++ [(key, YNull)]) rest
              end
            else if has_prefix "[" value then
              match parseYAMLFlowSeq value with
              | Some items => yaml_loop fuel (m ++ [(key, YList items)]) rest
              | None => Err NotYAML
              end
            else yaml_loop fuel (m ++ [(key, parseYAMLScalar value)]) rest
      end
  end.
Definition normalizeNewlines (s : gostring) : gostring := replace_all [chr 13] [newline] (replace_all [chr 13; newline] [newline] s).
Definition parseMiniYAML (data : gostring) : result policy_error (list (gostring * yaml)) :=
  let lines := split newline (normalizeNewlines data) in yaml_loop (length lines) [] lines.

(** [json.Marshal] of the parsed map, its keys sorted. *)
Fixpoint yaml_json (y : yaml) : json :=
  match y with YNull => JNull | YBool b => JBool b | YStr s => JStr s | YList items => JArr (map yaml_json items) end.
Definition by_key (a b : gostring * json) : bool := str_leb a.1 b.1.
Definition marshal_map (m : list (gostring * yaml)) : gostring :=
  json_marshal (JObj (sort_by by_key (map (λ kv, (kv.1, yaml_json kv.2)) m))).

(** ** api.go *)

Section api.
Context {unicode : UnicodeTables}.

Definition looksLikeJSON (path data : gostring) : bool :=
  let lower := to_lower path in
  if has_suffix ".json" lower then true
  else if has_suffix ".yaml" lower || has_suffix ".yml" lower then false
  else match trim_space data with c :: _ => beq c "{" || beq c "[" | [] => false end.
Definition decode_policy (text : gostring) : result policy_error Policy :=
  match json_parse text with Some v => q ← unmarshal_policy v; validatePolicy q | None => Err NotJSON end.
Definition parsePolicyFile (path data : gostring) : result policy_error Policy :=
  if looksLikeJSON path data then
    keys ← jsonObjectKeys data;
    match checkPolicyKeys keys with Some e => Err e | None => decode_policy data end
  else
    m ← parseMiniYAML data;
    match checkPolicyKeys (sort_strings (map fst m)) with Some e => Err e | None => decode_policy (marshal_map m) end.
(** [Load]; [None] is the evaluator of [Empty]. [read] is what reading the file
    gives. *)
Definition Load (path : gostring) (read : option gostring) : result policy_error (option Policy) :=
  if streq path "" then Ok None
  else match read with
  | None => Err Unreadable
  | Some data => Some <$> parsePolicyFile path data
  end.

Definition key_line (line : gostring) : gostring := trim_space (match cut "#" line with Some (l, _) => l | None => line end).
Fixpoint approved_loop (lines : list gostring) : result policy_error (list gostring) :=
  match lines with
  | [] => Ok []
  | line :: rest =>
      let line := key_line line in
      if streq line "" then approved_loop rest
      else match normalizeFingerprint line with
      | None => Err (NotFingerprint line)
      | Some fp => fps ← approved_loop rest; Ok (fp :: fps)
      end
  end.
Definition LoadApprovedKeys (read : option gostring) : result policy_error (list gostring) :=
  match read with
  | None => Err Unreadable
  | Some data =>
      out ← approved_loop (split newline (replace_all [chr 13; newline] [newline] data));
      match out with [] => Err NoFingerprints | _ => Ok out end
  end.

(** ** What is accepted *)

(** The values of a policy file: its schema, its severity, and every entry that
    a rule could never match refused; the keys as fingerprints. *)
Record acceptable (q p : Policy) : Prop := {
  ac_schema : pl_SchemaVersion q = SchemaVersion;
  ac_severity : pl_DefaultSeverity q = [] ∨ pl_DefaultSeverity q = SeverityInfo ∨ pl_DefaultSeverity q = SeverityWarn ∨ pl_DefaultSeverity q = SeverityDeny;
  ac_flags : ∀ f, f ∈ pl_DenyFlags q → ∃ k, k ∈ knownFlags ∧ equal_fold k f = true;
  ac_globs : ∀ pat name, pat ∈ pl_AllowPackages q ++ pl_DenyPackages q → is_Some (Match pat name);
  ac_keys : Forall2 (λ k fp, normalizeFingerprint k = Some fp) (pl_ApprovedKeys q) (pl_ApprovedKeys p);
  ac_rest : p = mkPolicy (pl_SchemaVersion q) (pl_AllowComponents q) (pl_DenyComponents q) (pl_AllowPackages q) (pl_DenyPackages q)
    (pl_RequireSignedPublisher q) (pl_AllowURLInputs q) (pl_ApprovedKeys p) (pl_DenyFlags q) (pl_DefaultSeverity q)
}.

Lemma find_none {A : Type} (f : A → bool) l : find f l = None ↔ ∀ x, x ∈ l → f x = false.
Proof.
  split; [intros H x Hx; eapply find_none; [exact H|by apply list_elem_of_In]|].
  induction l as [|x l IH]; intros H; [done|]. cbn. rewrite H by (by left). apply IH. intros y Hy. apply H. by right.
Qed.
Lemma normalize_keys_Ok ks fps : normalize_keys ks = Ok fps ↔ Forall2 (λ k fp, normalizeFingerprint k = Some fp) ks fps.
Proof.
  revert fps. induction ks as [|k ks IH]; intros fps; cbn [normalize_keys].
  { split; [by intros [= <-]|by intros ->%Forall2_nil_inv_l]. }
  destruct (normalizeFingerprint k) as [fp|] eqn:Ek.
  - rewrite bind_Ok. setoid_rewrite IH. split.
    + intros (fps' & Hf & [= <-]). by constructor.
    + intros (fp' & fps' & E & Hf & ->)%Forall2_cons_inv_l. exists fps'. split; [done|]. congruence.
  - split; [done|]. intros (fp' & fps' & E & _)%Forall2_cons_inv_l. congruence.
Qed.
Lemma bad_glob_None pats : bad_glob pats = None ↔ ∀ pat name, pat ∈ pats → is_Some (Match pat name).
Proof.
  unfold bad_glob. rewrite find_none. split.
  - intros H pat name Hin. specialize (H pat Hin). destruct (Match pat name) eqn:Em; [by eexists|].
    apply Match_bad in Em. assert (Match pat [] = None) as E by (by apply Match_bad). by rewrite E in H.
  - intros H pat Hin. by destruct (H pat [] Hin) as [b ->].
Qed.
Lemma validatePolicy_Ok q p : validatePolicy q = Ok p ↔ acceptable q p.
Proof.
  unfold validatePolicy. unfold streq. split.
  - case_bool_decide as Es; [|done]. cbn [negb]. case_bool_decide as Hsev; [|done]. cbn [negb].
    destruct (find _ (pl_DenyFlags q)) eqn:Ef; [done|]. destruct (bad_glob _) eqn:Eg; [done|].
    rewrite bind_Ok. intros (fps & Hk%normalize_keys_Ok & [= <-]). constructor; try done.
    + rewrite !elem_of_cons in Hsev. destruct Hsev as [?|[?|[?|[?|?%elem_of_nil]]]]; tauto.
    + intros f Hf. rewrite find_none in Ef. apply Ef, negb_false_iff, matchesAnyFold_spec in Hf. done.
    + by apply bad_glob_None.
  - intros [H1 H2 H3 H4 H5 H6]. rewrite bool_decide_eq_true_2 by done. cbn [negb]. rewrite bool_decide_eq_true_2.
    2: { rewrite !elem_of_cons. tauto. }
    cbn [negb]. assert (find (λ f, negb (matchesAnyFold knownFlags f)) (pl_DenyFlags q) = None) as ->.
    { apply find_none. intros f Hf. by apply negb_false_iff, matchesAnyFold_spec, H3. }
    apply bad_glob_None in H4 as ->. apply normalize_keys_Ok in H5. rewrite H5. cbn. by rewrite <- H6.
Qed.
Lemma keys_loop_None ks : ∀ seen, keys_loop seen ks = None ↔
  NoDup ks ∧ ∀ k, k ∈ ks → k ∈ policyFields ∧ k ∉ seen.
Proof.
  induction ks as [|k ks IH]; intros seen; cbn [keys_loop].
  { split; [|done]. intros _. split; [constructor|by intros k ?%elem_of_nil]. }
  case_bool_decide as Hk; cbn [negb]; [|split; [done|]; intros [_ H]; by destruct (H k) as [? _]; [left|]].
  case_bool_decide as Hs; [split; [done|]; intros [_ H]; by destruct (H k) as [_ ?]; [left|]|]. rewrite IH, NoDup_cons. split.
  - intros [Hn H]. split_and!; [intros Hin; by destruct (H k Hin) as [_ ?]; set_solver|done|].
    intros k' [->|Hin]%elem_of_cons; [done|]. destruct (H k' Hin) as [? ?]. set_solver.
  - intros [[Hin Hn] H]. split; [done|]. intros k' Hk'. destruct (H k') as [? ?]; [by right|]. set_solver.
Qed.

(** The names in a policy file, and the text that is decoded. *)
Definition policy_file (path data : gostring) (names : list gostring) (text : gostring) : Prop :=
  if looksLikeJSON path data then ∃ members, json_parse data = Some (JObj members) ∧ names = map fst members ∧ text = data
  else ∃ m, parseMiniYAML data = Ok m ∧ names = map fst m ∧ text = marshal_map m.
Lemma decode_policy_Ok text p : decode_policy text = Ok p ↔
  ∃ v q, json_parse text = Some v ∧ unmarshal_policy v = Ok q ∧ acceptable q p.
Proof.
  unfold decode_policy. destruct (json_parse text) as [v|]; [|naive_solver]. rewrite bind_Ok. setoid_rewrite validatePolicy_Ok. naive_solver.
Qed.
Lemma parsePolicyFile_Ok path data p : parsePolicyFile path data = Ok p ↔
  ∃ names text v q, policy_file path data names text ∧ NoDup names ∧ (∀ k, k ∈ names → k ∈ policyFields) ∧
    json_parse text = Some v ∧ unmarshal_policy v = Ok q ∧ acceptable q p.
Proof.
  unfold parsePolicyFile, policy_file. destruct (looksLikeJSON path data).
  - rewrite bind_Ok. unfold jsonObjectKeys. split.
    + intros (keys & Hkeys & Hd). destruct (checkPolicyKeys keys) eqn:Ec; [done|]. apply keys_loop_None in Ec as [Hn Hk].
      apply decode_policy_Ok in Hd as (v & q & Hv & Hq & Ha). exists keys, data, v, q. split_and!; try done; [|naive_solver].
      destruct (json_parse data) as [[| | | | |members]|]; try done. injection Hkeys as <-. by exists members.
    + intros (names & text & v & q & (members & Hm & -> & ->) & Hn & Hk & Hv & Hq & Ha). exists (map fst members). split; [by rewrite Hm|].
      assert (checkPolicyKeys (map fst members) = None) as -> by (apply keys_loop_None; split; [done|]; intros k Hin; split; [by apply Hk|set_solver]).
      apply decode_policy_Ok. by exists v, q.
  - rewrite bind_Ok. assert (∀ m : list (gostring * yaml), checkPolicyKeys (sort_strings (map fst m)) = None ↔
      NoDup (map fst m) ∧ ∀ k, k ∈ map fst m → k ∈ policyFields) as Hcheck.
    { intros m. unfold checkPolicyKeys. rewrite keys_loop_None, sort_strings_perm. f_equiv. split.
      - intros H k Hk. apply H. by rewrite sort_strings_perm.
      - intros H k Hk. rewrite sort_strings_perm in Hk. split; [by apply H|]. by apply not_elem_of_empty. }
    split.
    + intros (m & Hm & Hd). destruct (checkPolicyKeys _) eqn:Ec; [done|]. apply Hcheck in Ec as [Hn Hk].
      apply decode_policy_Ok in Hd as (v & q & Hv & Hq & Ha). exists (map fst m), (marshal_map m), v, q. split_and!; try done. by exists m.
    + intros (names & text & v & q & (m & Hm & -> & ->) & Hn & Hk & Hv & Hq & Ha). exists m. split; [done|].
      rewrite (proj2 (Hcheck m)) by done. apply decode_policy_Ok. by exists v, q.
Qed.
Lemma approved_loop_Ok lines fps : approved_loop lines = Ok fps ↔
  Forall2 (λ k fp, normalizeFingerprint k = Some fp) (List.filter (λ k, negb (streq k "")) (map key_line lines)) fps.
Proof.
  revert fps. induction lines as [|l lines IH]; intros fps; cbn [approved_loop map List.filter].
  { split; [by intros [= <-]|by intros ->%Forall2_nil_inv_l]. }
  destruct (streq (key_line l) ""); cbn [negb]; [apply IH|].
  destruct (normalizeFingerprint (key_line l)) as [fp|] eqn:Ek.
  - rewrite bind_Ok. setoid_rewrite IH. split.
    + intros (fps' & Hf & [= <-]). by constructor.
    + intros (fp' & fps' & E & Hf & ->)%Forall2_cons_inv_l. exists fps'. split; [done|]. congruence.
  - split; [done|]. intros (fp' & fps' & E & _)%Forall2_cons_inv_l. congruence.
Qed.

(** A policy file is applied as written or refused: Load accepts one
    exactly when it can be read as JSON or in the small YAML, every field is one
    of the schema's and given once, the values decode, the schema and the
    severity are known, each denied flag and name pattern can match something,
    and the keys are full fingerprints; the policy has exactly these values. No
    path is the empty policy, and an approved-keys file is its nonempty list of
    full fingerprints or an error. *)
Theorem Load_exact path read :
  (∀ p, Load path read = Ok (Some p) ↔ path ≠ "" ∧ ∃ data names text v q,
     read = Some data ∧ policy_file path data names text ∧ NoDup names ∧ (∀ k, k ∈ names → k ∈ policyFields) ∧
     json_parse text = Some v ∧ unmarshal_policy v = Ok q ∧ acceptable q p) ∧
  (Load path read = Ok None ↔ path = "") ∧
  (∀ fps, LoadApprovedKeys read = Ok fps ↔ fps ≠ [] ∧ ∃ data, read = Some data ∧
     Forall2 (λ k fp, normalizeFingerprint k = Some fp)
       (List.filter (λ k, negb (streq k "")) (map key_line (split newline (replace_all [chr 13; newline] [newline] data)))) fps).
Proof.
  unfold Load, LoadApprovedKeys, streq. split_and!.
  - intros p. case_bool_decide as Ep; [naive_solver|]. destruct read as [data|]; [|naive_solver].
    destruct (parsePolicyFile path data) as [p'|e] eqn:Eparse; cbn.
    + pose proof (parsePolicyFile_Ok path data p) as Hp. rewrite Eparse in Hp. naive_solver.
    + split; [done|]. intros (_ & d & names & text & v & q & [= <-] & H). assert (parsePolicyFile path data = Ok p) by (apply parsePolicyFile_Ok; eauto 10).
      congruence.
  - case_bool_decide as Ep; [done|]. split; [|done]. destruct read as [data|]; [|done]. by destruct (parsePolicyFile path data).
  - intros fps. destruct read as [data|]; [|naive_solver]. rewrite bind_Ok. setoid_rewrite approved_loop_Ok. split.
    + intros (out & Ho & E). destruct out as [|x out]; [done|]. injection E as <-. split; [done|]. by exists data.
    + intros (Hne & d & [= <-] & Ho). exists fps. split; [done|]. by destruct fps.
Qed.
End api.

(** Name patterns mean what they say: of patterns a policy may have, each
    can be read, and the matcher, which never goes back on the place of a chunk
    and would take a malformed pattern for one that matches nothing, accepts a
    plain package name exactly when it is in the language of one of them. *)
Theorem globs_decided pats name : bad_glob pats = None → plain name →
  (∀ pat, pat ∈ pats → ∃ ts, tokens false pat = Some ts) ∧
  (globMatchesAny pats name = true ↔ ∃ pat ts, pat ∈ pats ∧ tokens false pat = Some ts ∧ glob ts name).
Proof.
  intros Hn Hp. pose proof (proj1 (bad_glob_None pats) Hn) as Hb. split.
  - intros pat Hin. destruct (tokens false pat) as [ts|] eqn:Et; [by exists ts|]. apply (Match_bad pat []) in Et.
    destruct (Hb pat [] Hin) as [b Hm]. congruence.
  - rewrite globMatchesAny_spec by done. unfold accepts. naive_solver.
Qed.
Lemma globs_decided_witness :
  let pats := [bytes_of "linux-image-[0-9]*"; bytes_of "lib?*-dev"] in
  (∀ pat, pat ∈ pats → ∃ ts, tokens false pat = Some ts) ∧
  (globMatchesAny pats "libc6-dev" = true ↔ ∃ pat ts, pat ∈ pats ∧ tokens false pat = Some ts ∧ glob ts "libc6-dev").
Proof.
  cbv zeta. apply globs_decided; [vm_compute; reflexivity|]. apply (bool_decide_unpack _). vm_compute. exact I.
Defined.

(** A policy in YAML, with comments, quotes and both kinds of sequences. *)
Definition sample_yaml : gostring := join [newline]
  [bytes_of "# policy"; bytes_of "schema_version: debark.policy/v1"; bytes_of "deny_packages:"; bytes_of "  - '*-dbg' # debug";
   bytes_of "  # none of these"; bytes_of "  - linux-*"; []; bytes_of "allow_components: [main, 'it''s']";
   bytes_of "require_signed_publisher: true"; bytes_of "allow_url_inputs: False"; bytes_of "default_severity: deny"].
Example sample_yaml_loads : @Load ascii_tables "policy.yml" (Some sample_yaml) =
  Ok (Some (mkPolicy SchemaVersion [bytes_of "main"; bytes_of "it's"] [] [] [bytes_of "*-dbg"; bytes_of "linux-*"] true (Some false) [] [] SeverityDeny)).
Proof. by vm_compute. Qed.
Example repeated_field_refused :
  @Load ascii_tables "policy.yaml" (Some (sample_yaml ++ newline :: "deny_packages: []")) = Err (RepeatedField "deny_packages").
Proof. by vm_compute. Qed.
(** A sequence in a sequence is text, which a pattern list takes for a class. *)
Example nested_sequence : parseMiniYAML "deny_packages: [curl, [wget]]" =
  Ok [(bytes_of "deny_packages", YList [YStr "curl"; YStr "[wget]"])].
Proof. by vm_compute. Qed.
