(* ===== verification/FsTree.v ===== *)
(** * The bundle directory as a tree, and [filepath.WalkDir] over it.

    The tree does not change while it is read. A file carries what the calls of
    the source return for it: the [Type] text of its directory entry (empty for
    a regular file), the size [Info] reports and the bytes reading it gives,
    following a link, or an error text. A directory carries the error of
    [ReadDir], if any, and its entries in [ReadDir]'s order. *)
From S2P Require Export GoPath Digest.
#[local] Open Scope Z_scope.

#[warnings="-register-all"]
Inductive fsnode :=
| FFile (mode : gostring) (info : result gostring Z) (content : result gostring gostring)
| FDir (fail : option gostring) (entries : list (gostring * fsnode)).

(** One call of the walk function, with the slash path relative to the root. *)
Inductive visit :=
| VDir (rel : gostring)
| VError (rel err : gostring)
| VFile (rel mode : gostring) (info : result gostring Z) (content : result gostring gostring).

(** [filepath.Rel] of a child of [rel]. *)
Definition join_rel (rel name : gostring) : gostring :=
  match rel with [] => name | _ => rel ++ "/" ++ name end.

(** [filepath.WalkDir] with a function that never stops it. *)
Fixpoint walk (rel : gostring) (n : fsnode) : list visit :=
  match n with
  | FFile mode info content => [VFile rel mode info content]
  | FDir fail entries =>
      VDir rel :: match fail with Some e => [VError rel e] | None => [] end ++
      flat_map (λ ne, walk (join_rel rel ne.1) ne.2) entries
  end.

(** The node at a path, by segments. *)
Fixpoint fs_get (segs : list gostring) (n : fsnode) : option fsnode :=
  match segs with
  | [] => Some n
  | s :: rest =>
      match n with
      | FFile _ _ _ => None
      | FDir _ entries =>
          match find (λ ne, streq ne.1 s) entries with
          | Some (_, c) => fs_get rest c
          | None => None
          end
      end
  end.

(** [os.ReadFile] of [root/name]. *)
Definition read_file (root : fsnode) (path : gostring) : option (result gostring gostring) :=
  match fs_get (split slash path) root with
  | Some (FFile _ _ content) => Some content
  | _ => None
  end.

(** [digest.SHA256File]: hex digest and byte count of the whole content. *)
Definition SHA256File (content : result gostring gostring) : result gostring (gostring * Z) :=
  match content with
  | Ok b => Ok (Bytes b, Z.of_nat (length b))
  | Err e => Err e
  end.

(** Names a directory can hold; sibling names are distinct. *)
Inductive fs_wf : fsnode → Prop :=
| wf_file mode info content : fs_wf (FFile mode info content)
| wf_dir fail entries :
    NoDup (map fst entries) →
    Forall (λ ne, safe_seg ne.1 ∧ (slash ∉ ne.1)) entries →
    (∀ ne, ne ∈ entries → fs_wf ne.2) → fs_wf (FDir fail entries).

Section fs_ind.
Context (P : fsnode → Prop).
Context (Hfile : ∀ m i c, P (FFile m i c)).
Context (Hdir : ∀ fail entries, (∀ ne, In ne entries → P ne.2) → P (FDir fail entries)).
Fixpoint fs_full_ind (n : fsnode) : P n :=
  match n with
  | FFile m i c => Hfile m i c
  | FDir fail entries => Hdir fail entries (proj1 (List.Forall_forall (λ ne, P ne.2) entries)
      ((fix go l : @List.Forall (gostring * fsnode) (λ ne, P ne.2) l :=
          match l with
          | [] => @List.Forall_nil _ _
          | (k, x) :: l' => @List.Forall_cons _ (λ ne, P ne.2) (k, x) l' (fs_full_ind x) (go l')
          end) entries))
  end.
End fs_ind.

(** The relative path of the segments [segs] below [rel]. *)
Definition rel_path (rel : gostring) (segs : list gostring) : gostring := fold_left join_rel segs rel.

Lemma join_rel_join l s : l ≠ [] → Forall safe_seg l → join_rel (join [slash] l) s = join [slash] (l ++ [s]).
Proof.
  intros Hl Hs. unfold join_rel. destruct (join [slash] l) as [|c r] eqn:E.
  - exfalso. destruct l as [|x [|y l]]; [done|..]; apply Forall_cons in Hs as [(Hx & _) _]; simpl in E.
    + done.
    + by destruct x.
  - rewrite <- E. clear E. induction l as [|x [|y l] IH]; [done|done|].
    apply Forall_cons in Hs as [_ Hs]. cbn [app join] in *. rewrite <- IH by done. by rewrite <- !app_assoc.
Qed.

(** Every file of a walk sits where its path says. *)
Lemma walk_file_get n : fs_wf n → ∀ pre rel m i c,
  rel = join [slash] pre → Forall safe_seg pre → Forall (λ s, slash ∉ s) pre →
  ∀ p, VFile p m i c ∈ walk rel n →
  ∃ segs, fs_get segs n = Some (FFile m i c) ∧ p = join [slash] (pre ++ segs) ∧
    Forall safe_seg segs ∧ Forall (λ s, slash ∉ s) segs.
Proof.
  induction n as [m' i' c'|fail entries IH] using fs_full_ind; intros Hwf pre rel m i c Hrel Hpre Hsl p Hin.
  - cbn [walk] in Hin. apply list_elem_of_singleton in Hin. simplify_eq.
    exists []. rewrite app_nil_r. split_and!; [done|done|constructor|constructor].
  - cbn [walk] in Hin. apply elem_of_cons in Hin as [Hin|Hin]; [done|].
    apply elem_of_app in Hin as [Hin|Hin]; [destruct fail; [apply list_elem_of_singleton in Hin; done|by apply elem_of_nil in Hin]|].
    apply list_elem_of_In, in_flat_map in Hin as ([nm x] & Hx & Hin). apply list_elem_of_In in Hin.
    inversion Hwf as [|? ? Hnd Hnames Hsub]; subst.
    pose proof (proj1 (Forall_forall _ _) Hnames (nm, x) (proj2 (list_elem_of_In _ _) Hx)) as [Hsafe Hns].
    assert (join_rel (join [slash] pre) nm = join [slash] (pre ++ [nm])) as Hj.
    { destruct pre as [|s pre]; [done|]. by apply join_rel_join. }
    destruct (IH (nm, x) Hx (Hsub _ (proj2 (list_elem_of_In _ _) Hx)) (pre ++ [nm]) _ m i c Hj) with (p := p)
      as (segs & Hget & -> & Hs1 & Hs2); [by apply Forall_app; split; [|constructor]..|done|].
    exists (nm :: segs). split_and!.
    + cbn [fs_get]. assert (find (λ ne, streq ne.1 nm) entries = Some (nm, x)) as ->; [|done].
      clear -Hnd Hx. induction entries as [|[k y] l IHl]; [done|]. cbn [map fst find] in *.
      apply NoDup_cons in Hnd as [Hk Hnd]. destruct Hx as [[= -> ->]|Hx]; [by rewrite streq_refl|].
      rewrite streq_false; [by apply IHl|]. intros ->. apply Hk. apply list_elem_of_In in Hx.
      by apply (list_elem_of_fmap_2 fst) in Hx.
    + by rewrite <- app_assoc.
    + by constructor.
    + by constructor.
Qed.

Lemma walk_get_file n : ∀ pre rel segs m i c,
  rel = join [slash] pre → Forall safe_seg pre → Forall safe_seg segs →
  fs_get segs n = Some (FFile m i c) → VFile (join [slash] (pre ++ segs)) m i c ∈ walk rel n.
Proof.
  induction n as [m' i' c'|fail entries IH] using fs_full_ind; intros pre rel segs m i c Hrel Hpre Hsegs Hget.
  - destruct segs; [|done]. simpl in Hget. simplify_eq. rewrite app_nil_r. by left.
  - destruct segs as [|s segs]; [done|]. cbn [fs_get] in Hget.
    destruct (find (λ ne, streq ne.1 s) entries) as [[nm x]|] eqn:Ef; [|done].
    apply find_some in Ef as [Hx Hnm]. apply streq_true in Hnm. simpl in Hnm. subst nm.
    apply Forall_cons in Hsegs as [Hs Hsegs].
    cbn [walk]. right. apply elem_of_app. right. apply list_elem_of_In, in_flat_map.
    exists (s, x). split; [done|]. apply list_elem_of_In. cbn [fst snd].
    replace (pre ++ s :: segs) with ((pre ++ [s]) ++ segs) by (by rewrite <- app_assoc).
    apply (IH (s, x)); [done| |by apply Forall_app; split; [|constructor]|done|done].
    rewrite Hrel. destruct pre as [|t pre]; [done|]. by apply join_rel_join.
Qed.

(** The files of a walk, in order. *)
Definition file_paths (l : list visit) : list gostring :=
  omap (λ v, match v with VFile rel _ _ _ => Some rel | _ => None end) l.

Lemma file_paths_elem p l : p ∈ file_paths l ↔ ∃ m i c, VFile p m i c ∈ l.
Proof.
  unfold file_paths. rewrite list_elem_of_omap. split.
  - intros ([| |rel m i c] & Hv & E); simplify_eq. eauto.
  - intros (m & i & c & H). by exists (VFile p m i c).
Qed.

Lemma NoDup_flat_map {A B} (f : A → list B) l :
  NoDup l → (∀ x, x ∈ l → NoDup (f x)) →
  (∀ x y b, x ∈ l → y ∈ l → b ∈ f x → b ∈ f y → x = y) → NoDup (flat_map f l).
Proof.
  induction l as [|x l IH]; cbn [flat_map]; intros Hnd Hf Hd; [constructor|].
  apply NoDup_cons in Hnd as [Hx Hnd]. apply NoDup_app. split_and!.
  - apply Hf. by left.
  - intros b Hb Hb'. apply list_elem_of_In, in_flat_map in Hb' as (y & Hy & Hyb).
    apply list_elem_of_In in Hy, Hyb. apply Hx. rewrite (Hd x y b); [done|by left|by right|done|done].
  - apply IH; [done|..].
    + intros y Hy. apply Hf. by right.
    + intros y z b Hy Hz. apply Hd; by right.
Qed.

Lemma file_paths_flat_map {A} (f : A → list visit) l : file_paths (flat_map f l) = flat_map (λ x, file_paths (f x)) l.
Proof.
  induction l as [|x l IH]; [done|]. cbn [flat_map]. unfold file_paths in *.
  by rewrite omap_app, IH.
Qed.

Lemma join_inj l k :
  l ≠ [] → k ≠ [] → Forall (λ s, slash ∉ s) l → Forall (λ s, slash ∉ s) k →
  join [slash] l = join [slash] k → l = k.
Proof.
  intros Hl Hk Hl' Hk' E. rewrite Forall_forall in Hl', Hk'.
  rewrite <- (split_join slash l), <- (split_join slash k) by done. by rewrite E.
Qed.

(** No file is visited twice. *)
Lemma walk_NoDup n : ∀ pre rel, fs_wf n →
  rel = join [slash] pre → Forall safe_seg pre → Forall (λ s, slash ∉ s) pre → NoDup (file_paths (walk rel n)).
Proof.
  induction n as [m i c|fail entries IH] using fs_full_ind; intros pre rel Hwf Hrel Hpre Hsl.
  - cbn. apply NoDup_singleton.
  - inversion Hwf as [|? ? Hnd Hnames Hsub]; subst. rewrite Forall_forall in Hnames.
    assert (file_paths (walk (join [slash] pre) (FDir fail entries)) =
      flat_map (λ ne, file_paths (walk (join_rel (join [slash] pre) ne.1) ne.2)) entries) as ->.
    { rewrite <- file_paths_flat_map. cbn [walk]. unfold file_paths. by destruct fail. }
    assert (∀ nm, join_rel (join [slash] pre) nm = join [slash] (pre ++ [nm])) as Hj.
    { intros nm. destruct pre as [|s pre]; [done|]. by apply join_rel_join. }
    assert (∀ ne, ne ∈ entries → Forall safe_seg (pre ++ [ne.1]) ∧ Forall (λ s, slash ∉ s) (pre ++ [ne.1])) as Hpre'.
    { intros ne Hne. apply Hnames in Hne as [? ?]. split; apply Forall_app; split; try done; by constructor. }
    apply NoDup_flat_map.
    + by apply NoDup_fmap_1 in Hnd.
    + intros ne Hne. destruct (Hpre' ne Hne) as [H1 H2]. rewrite Hj.
      apply (IH ne (proj1 (list_elem_of_In _ _) Hne) (pre ++ [ne.1])); [by apply Hsub|done..].
    + intros x y p Hx Hy. rewrite !file_paths_elem. intros (m1 & i1 & c1 & H1) (m2 & i2 & c2 & H2).
      destruct (Hpre' x Hx) as [Hx1 Hx2], (Hpre' y Hy) as [Hy1 Hy2].
      destruct (walk_file_get x.2 (Hsub _ Hx) _ _ _ _ _ (Hj x.1) Hx1 Hx2 _ H1) as (s1 & _ & E1 & Hs1 & Hs1').
      destruct (walk_file_get y.2 (Hsub _ Hy) _ _ _ _ _ (Hj y.1) Hy1 Hy2 _ H2) as (s2 & _ & E2 & Hs2 & Hs2').
      rewrite E1 in E2. apply join_inj in E2; [|by destruct pre..|by apply Forall_app|by apply Forall_app].
      rewrite <- !app_assoc in E2. apply app_inv_head in E2. simplify_eq/=.
      by apply (NoDup_map_inj fst entries).
Qed.

Lemma fs_get_safe n : ∀ segs x, fs_wf n → fs_get segs n = Some x →
  Forall safe_seg segs ∧ Forall (λ s, slash ∉ s) segs.
Proof.
  induction n as [m i c|fail entries IH] using fs_full_ind; intros segs x Hwf Hget.
  - destruct segs; [by split|done].
  - destruct segs as [|s segs]; [by split|]. cbn [fs_get] in Hget.
    destruct (find (λ ne, streq ne.1 s) entries) as [[nm y]|] eqn:Ef; [|done].
    apply find_some in Ef as [Hx Hnm]. apply streq_true in Hnm. simpl in Hnm. subst nm.
    inversion Hwf as [|? ? _ Hnames Hsub]; subst. rewrite Forall_forall in Hnames.
    pose proof (proj2 (list_elem_of_In _ _) Hx) as Hx'.
    destruct (Hnames _ Hx') as [? ?]. destruct (IH _ Hx segs x (Hsub _ Hx') Hget) as [? ?].
    split; by constructor.
Qed.

(** On a directory, the files a walk visits are the files its paths read. *)
Lemma walk_read_file fail entries p c :
  fs_wf (FDir fail entries) →
  (∃ m i, VFile p m i c ∈ walk [] (FDir fail entries)) ↔ read_file (FDir fail entries) p = Some c.
Proof.
  intros Hwf. unfold read_file. split.
  - intros (m & i & Hin).
    destruct (walk_file_get _ Hwf [] [] m i c eq_refl (List.Forall_nil _) (List.Forall_nil _) p Hin)
      as (segs & Hget & -> & _ & Hsl).
    destruct segs as [|s segs]; [done|]. cbn [app]. rewrite split_join; [by rewrite Hget|done|].
    by rewrite Forall_forall in Hsl.
  - destruct (fs_get (split slash p) (FDir fail entries)) as [[m i c'|]|] eqn:E; [|done|done].
    intros [= ->]. exists m, i. pose proof (fs_get_safe _ _ _ Hwf E) as [Hs _].
    rewrite <- (join_split slash p) at 1. apply (walk_get_file _ [] [] (split slash p)); try done; constructor.
Qed.
Lemma walk_paths_safe fail entries p m i c :
  fs_wf (FDir fail entries) → VFile p m i c ∈ walk [] (FDir fail entries) → safe_path p.
Proof.
  intros Hwf Hin. destruct (walk_file_get _ Hwf [] [] m i c eq_refl (List.Forall_nil _) (List.Forall_nil _) p Hin)
    as (segs & Hget & -> & Hs & Hsl).
  destruct segs as [|s segs]; [done|]. unfold safe_path. cbn [app]. rewrite split_join; [done|done|].
  by rewrite Forall_forall in Hsl.
Qed.

(** Opening [root/name] and reading it: [None] when it does not exist. *)
Definition open_file (root : fsnode) (path : gostring) : option (result gostring gostring) :=
  match fs_get (split slash path) root with
  | None => None
  | Some (FFile _ _ content) => Some content
  | Some (FDir _ _) => Some (Err (bytes_of "is a directory"))
  end.
Definition exists_at (root : fsnode) (path : gostring) : bool :=
  match fs_get (split slash path) root with Some _ => true | None => false end.
