(* ===== verification/Tar.v ===== *)
(** * core/bundle/tar.go: the archive a bundle crosses the gap in.

    The export of a directory tree as archive entries, and the import of an
    untrusted archive. archive/tar and zstd are the list of entries their reader
    yields, each with the bytes its body delivers; the target file system is a
    map from absolute paths (as segments) to nodes, holds no symbolic link, and
    refuses only what its shape refuses (a file where a directory is needed, a
    directory where a file is). *)
From S2P Require Export FsTree Dferr.
#[local] Open Scope Z_scope.

(** ** Entries *)

Inductive typeflag := TypeDir | TypeReg | TypeRegA | TypeSymlink | TypeLink | TypeOther (n : Z).
Record header := mkHeader {
  h_Name : gostring; h_Typeflag : typeflag; h_Mode : Z; h_Body : gostring; h_BodyErr : option gostring
}.
Definition maxImportEntrySize : Z := Z.shiftl 8 30.
Definition maxImportEntries : Z := 50000.
Definition maxImportTotalSize : Z := Z.shiftl 64 30.
Definition maxImportEntryNameLen : nat := Z.to_nat 1024.
Definition maxImportNameComponentLen : nat := 255.

(** ** safeRelPath, collisionKey *)

Inductive rel_error :=
| EmptyName | NameTooLong | HasNUL | HasBackslash | Absolute | DriveLetter | EmptyAfterCleaning | Traversal
| AbsoluteAfterCleaning | ComponentTooLong.
Definition safeRelPath (name : gostring) : result rel_error gostring :=
  if streq name "" then Err EmptyName
  else if (maxImportEntryNameLen <? length name)%nat then Err NameTooLong
  else if contains_byte (chr 0) name then Err HasNUL
  else if contains_byte "\" name then Err HasBackslash
  else if has_prefix "/" name then Err Absolute
  else if drive_letter name then Err DriveLetter
  else
    let cleaned := path_clean name in
    if streq cleaned "." then Err EmptyAfterCleaning
    else if streq cleaned ".." || has_prefix "../" cleaned then Err Traversal
    else if has_prefix "/" cleaned then Err AbsoluteAfterCleaning
    else if existsb (λ part, (maxImportNameComponentLen <? length part)%nat) (split slash cleaned) then Err ComponentTooLong
    else Ok cleaned.

Section collision.
Context `{UnicodeTables}.
Definition collisionKey (rel : gostring) : gostring :=
  join "/" (map (λ p, to_lower (trim_right ". " p)) (split slash rel)).
End collision.

(** ** The target *)

Inductive node := NDir | NFile (content : gostring) (exec : bool).
Abbreviation tree := (gmap (list gostring) node).

(** [os.MkdirAll] of [pre ++ segs], [pre] done; [false] when a file is in the way. *)
Fixpoint mkdir_from (t : tree) (pre segs : list gostring) : tree * bool :=
  match segs with
  | [] => (t, true)
  | s :: rest =>
      let p := pre ++ [s] in
      match t !! p with
      | Some (NFile _ _) => (t, false)
      | Some NDir => mkdir_from t p rest
      | None => mkdir_from (<[p := NDir]> t) p rest
      end
  end.
Definition MkdirAll (t : tree) (segs : list gostring) : tree * bool := mkdir_from t [] segs.

(** [os.OpenFile] with O_CREATE and O_TRUNC, then the bytes: an existing file
    keeps its mode. *)
Definition write_file (t : tree) (dest : list gostring) (content : gostring) (exec : bool) : option tree :=
  match t !! dest with
  | Some NDir => None
  | Some (NFile _ e) => Some (<[dest := NFile content e]> t)
  | None => Some (<[dest := NFile content exec]> t)
  end.

(** At most [n] bytes: what [io.LimitedReader] delivers. *)
Definition at_most (n : Z) (s : gostring) : gostring :=
  if Z.of_nat (length s) <=? n then s else take (Z.to_nat n) s.
Lemma at_most_take n s : at_most n s = take (Z.to_nat n) s.
Proof. unfold at_most. destruct (Z.leb_spec (Z.of_nat (length s)) n); [|done]. by rewrite take_ge by lia. Qed.

Inductive extract_error := EntryTooLarge | IOError.
(** The bytes written, and the error. *)
Definition extractRegularFile (t : tree) (dest : list gostring) (h : header) (limit : Z) : tree * Z * option extract_error :=
  match MkdirAll t (removelast dest) with
  | (t, false) => (t, 0, Some IOError)
  | (t, true) =>
      let exec := negb (Z.land (h_Mode h) 73 =? 0) in
      let written := at_most (limit + 1) (h_Body h) in
      match write_file t dest written exec with
      | None => (t, 0, Some IOError)
      | Some t =>
          let n := Z.of_nat (length written) in
          (t, n,
           if n =? limit + 1 then Some EntryTooLarge
           else match h_BodyErr h with Some _ => Some IOError | None => None end)
      end
  end.

Inductive import_error :=
| ReadError (err : gostring) | TooManyEntries | UnsafeName (name : gostring) (e : rel_error)
| DuplicateEntry (name prev : gostring) | DirFailed (rel : gostring) | ArchiveTooLarge (rel : gostring)
| EntryRefused (rel : gostring) | WriteFailed (rel : gostring) | LinkEntry (name : gostring)
| UnsupportedType (name : gostring) (tf : typeflag).
Definition import_class (e : import_error) : Class :=
  match e with DirFailed _ | WriteFailed _ => Environment | _ => Verification end.

Section import.
Context `{UnicodeTables} (dir : list gostring).

(** [filepath.Join(absDir, rel)]. *)
Definition dest_of (rel : gostring) : list gostring := resolve dir rel.

Fixpoint import_loop (hs : list header) (at_end : option gostring) (entries remaining : Z) (seen : gmap gostring gostring)
    (t : tree) : tree * option import_error :=
  match hs with
  | [] => (t, ReadError <$> at_end)
  | h :: rest =>
      let entries := entries + 1 in
      if maxImportEntries <? entries then (t, Some TooManyEntries)
      else match safeRelPath (h_Name h) with
      | Err e => (t, Some (UnsafeName (h_Name h) e))
      | Ok rel =>
          let key := collisionKey rel in
          match seen !! key with
          | Some prev => (t, Some (DuplicateEntry (h_Name h) prev))
          | None =>
              let seen := <[key := h_Name h]> seen in
              match h_Typeflag h with
              | TypeDir =>
                  match MkdirAll t (dest_of rel) with
                  | (t, false) => (t, Some (DirFailed rel))
                  | (t, true) => import_loop rest at_end entries remaining seen t
                  end
              | TypeReg | TypeRegA =>
                  let overTotal := remaining <? maxImportEntrySize in
                  let allow := if overTotal then remaining else maxImportEntrySize in
                  match extractRegularFile t (dest_of rel) h allow with
                  | (t, n, Some EntryTooLarge) => (t, Some (if overTotal then ArchiveTooLarge rel else EntryRefused rel))
                  | (t, n, Some IOError) => (t, Some (WriteFailed rel))
                  | (t, n, None) => import_loop rest at_end entries (remaining - n) seen t
                  end
              | TypeSymlink | TypeLink => (t, Some (LinkEntry (h_Name h)))
              | TypeOther _ => (t, Some (UnsupportedType (h_Name h) (h_Typeflag h)))
              end
          end
      end
  end.

(** The archive as its reader yields it: entries, then the end or an error. *)
Definition importTar (archive : list header * option gostring) (t : tree) : tree * option import_error :=
  match MkdirAll t dir with
  | (t, false) => (t, Some (DirFailed []))
  | (t, true) => import_loop archive.1 archive.2 0 maxImportTotalSize ∅ t
  end.
End import.

(** ** Export *)

Record exportEntry := mkExport { x_relPath : gostring; x_size : Z; x_exec : bool; x_content : result gostring gostring }.
Inductive export_error := ScanFailed (err : gostring) | NotRegular (rel mode : gostring) | CopyFailed (rel : gostring).

(** [exec]: whether a path's mode has an execute bit. *)
Fixpoint collect_entries (exec : gostring → bool) (l : list visit) : result export_error (list exportEntry) :=
  match l with
  | [] => Ok []
  | VDir _ :: rest => collect_entries exec rest
  | VError _ e :: _ => Err (ScanFailed e)
  | VFile [] _ _ _ :: rest => collect_entries exec rest
  | VFile rel mode info content :: rest =>
      match info with
      | Err e => Err (ScanFailed e)
      | Ok size =>
          if streq mode "" then
            more ← collect_entries exec rest; Ok (mkExport rel size (exec rel) content :: more)
          else Err (NotRegular rel mode)
      end
  end.
Definition collectExportEntries (exec : gostring → bool) (root : fsnode) : result export_error (list exportEntry) :=
  entries ← collect_entries exec (walk [] root);
  Ok (sort_by (λ x y, str_leb (x_relPath x) (x_relPath y)) entries).

(** The entries written: a file must deliver exactly the size of its header. *)
Fixpoint write_entries (entries : list exportEntry) : result export_error (list header) :=
  match entries with
  | [] => Ok []
  | e :: rest =>
      match x_content e with
      | Err _ => Err (CopyFailed (x_relPath e))
      | Ok b =>
          if negb (Z.of_nat (length b) =? x_size e) then Err (CopyFailed (x_relPath e))
          else more ← write_entries rest;
               Ok (mkHeader (x_relPath e) TypeReg (if x_exec e then 493 else 420) b None :: more)
      end
  end.
Definition exportTar (exec : gostring → bool) (root : fsnode) : result export_error (list header) :=
  entries ← collectExportEntries exec root; write_entries entries.

(** ** Names *)

Lemma clean_relative_safe p :
  has_prefix [slash] p = false → path_clean p ≠ "." → path_clean p ≠ ".." → has_prefix "../" (path_clean p) = false →
  safe_path (path_clean p).
Proof.
  intros Hroot. unfold path_clean. rewrite Hroot.
  pose proof (clean_segs_shape (split slash p)) as (k & r & Hshape & Hsafe).
  pose proof (clean_segs_no_slash false p) as Hns.
  destruct (clean_segs false (split slash p)) as [|x ws]; [done|]. intros _ Hdd Hpre.
  unfold safe_path. rewrite split_join by (done || (intros ? ?; by apply Hns)).
  rewrite Hshape. destruct k as [|k]; [done|]. exfalso. injection Hshape as -> ->.
  destruct (replicate k (".." : gostring) ++ r) as [|y l]; [by simpl in Hdd|].
  change (join [slash] ((".." : gostring) :: y :: l)) with (bytes_of "../" ++ join [slash] (y :: l)) in Hpre.
  by rewrite has_prefix_app in Hpre.
Qed.

(** What an accepted name becomes: its cleaned form, a safe relative path
    without drive letter in the name, all of it of bounded length. *)
Lemma safeRelPath_Ok name rel :
  safeRelPath name = Ok rel → rel = path_clean name ∧ safe_path rel ∧ (length name ≤ 1024)%nat ∧
  Forall (λ part, (length part ≤ 255)%nat) (split slash rel) ∧ (chr 0 ∉ name) ∧ ("\"%char ∉ name).
Proof.
  unfold safeRelPath. intros Hr.
  destruct (streq name ""); [done|]. destruct (Nat.ltb_spec maxImportEntryNameLen (length name)); [done|].
  destruct (contains_byte (chr 0) name) eqn:E0; [done|]. destruct (contains_byte "\" name) eqn:E1; [done|].
  destruct (has_prefix "/" name) eqn:E2; [done|]. destruct (drive_letter name); [done|]. cbv zeta in Hr.
  destruct (streq (path_clean name) ".") eqn:E3; [done|]. destruct (streq (path_clean name) "..") eqn:E4; [done|].
  destruct (has_prefix "../" (path_clean name)) eqn:E5; [done|]. cbn [orb] in Hr.
  destruct (has_prefix "/" (path_clean name)); [done|].
  destruct (existsb _ (split slash (path_clean name))) eqn:E6; [done|]. injection Hr as <-.
  apply streq_false_iff in E3, E4. apply contains_byte_false in E0, E1. split_and!; try done.
  - by apply clean_relative_safe.
  - apply Forall_forall. intros part Hp%list_elem_of_In. rewrite <- not_true_iff_false, existsb_exists in E6.
    destruct (Nat.leb_spec (length part) 255); [done|]. exfalso. apply E6. exists part. split; [done|].
    by apply Nat.ltb_lt.
Qed.

(** ** What one step may change *)

(** From [t] to [t'], only paths in [P] change, a directory stays one, and a
    file outside [F] stays as it is. *)
Record step_ok (P F : list gostring → Prop) (t t' : tree) : Prop := {
  so_touch p : t' !! p = t !! p ∨ P p;
  so_dir p : t !! p = Some NDir → t' !! p = Some NDir;
  so_file p c e : t !! p = Some (NFile c e) → ¬ F p → t' !! p = Some (NFile c e);
  so_new p c e : t' !! p = Some (NFile c e) → t !! p = Some (NFile c e) ∨ F p
}.

Lemma step_ok_refl P F t : step_ok P F t t.
Proof. constructor; eauto. Qed.
Lemma step_ok_weaken (P P' F F' : list gostring → Prop) t t' :
  (∀ p, P p → P' p) → (∀ p, F p → F' p) → step_ok P F t t' → step_ok P' F' t t'.
Proof.
  intros HP HF [H1 H2 H3 H4]. constructor.
  - intros p. destruct (H1 p); eauto.
  - done.
  - eauto.
  - intros p c e Hp. destruct (H4 p c e Hp); eauto.
Qed.
Lemma step_ok_trans P F t t1 t2 : step_ok P F t t1 → step_ok P F t1 t2 → step_ok P F t t2.
Proof.
  intros [A1 A2 A3 A4] [B1 B2 B3 B4]. constructor.
  - intros p. destruct (B1 p) as [->|?]; eauto.
  - eauto.
  - eauto.
  - intros p c e Hp. destruct (B4 p c e Hp) as [?|?]; eauto.
Qed.

(** The directories [mkdir_from] makes: the missing prefixes. *)
Lemma mkdir_from_ok segs : ∀ t pre t' ok, mkdir_from t pre segs = (t', ok) →
  step_ok (λ p, t !! p = None ∧ t' !! p = Some NDir ∧ ∃ k, k ≠ [] ∧ k `prefix_of` segs ∧ p = pre ++ k) (λ _, False) t t' ∧
  (ok = true → ∀ k, k ≠ [] → k `prefix_of` segs → t' !! (pre ++ k) = Some NDir) ∧
  (ok = false → ∃ k c e, k ≠ [] ∧ k `prefix_of` segs ∧ t !! (pre ++ k) = Some (NFile c e)).
Proof.
  induction segs as [|s segs IH]; intros t pre t' ok Hm; cbn [mkdir_from] in Hm; cbv zeta in Hm.
  { injection Hm as <- <-. split_and!; [apply step_ok_refl|intros _ k Hk ?%prefix_nil_inv; done|done]. }
  assert (∀ t1, t1 !! (pre ++ [s]) = Some NDir → mkdir_from t1 (pre ++ [s]) segs = (t', ok) →
    (∀ p, p ≠ pre ++ [s] → t1 !! p = t !! p) → (t !! (pre ++ [s]) = None ∨ t !! (pre ++ [s]) = Some NDir) →
    step_ok (λ p, t !! p = None ∧ t' !! p = Some NDir ∧ ∃ k, k ≠ [] ∧ k `prefix_of` s :: segs ∧ p = pre ++ k) (λ _, False) t t' ∧
    (ok = true → ∀ k, k ≠ [] → k `prefix_of` s :: segs → t' !! (pre ++ k) = Some NDir) ∧
    (ok = false → ∃ k c e, k ≠ [] ∧ k `prefix_of` s :: segs ∧ t !! (pre ++ k) = Some (NFile c e))) as Hgo.
  { intros t1 Hd Hm1 Heq Hold. destruct (IH _ _ _ _ Hm1) as ([A1 A2 A3 A4] & Hok & Hbad). pose proof (A2 _ Hd) as Hd'.
    split_and!.
    - constructor.
      + intros p. destruct (decide (p = pre ++ [s])) as [->|Hp].
        * rewrite Hd'. destruct Hold as [Ho|Ho]; [right|by left].
          split_and!; [done|done|]. exists [s]. split_and!; [done|by apply prefix_cons, prefix_nil|done].
        * destruct (A1 p) as [->|(H1 & H2 & k & Hk & Hpre & ->)]; [left; by apply Heq|].
          rewrite Heq in H1 by done. right. split_and!; [done|done|]. exists (s :: k).
          split_and!; [done|by apply prefix_cons|by rewrite <- app_assoc].
      + intros p Hp. apply A2. destruct (decide (p = pre ++ [s])) as [->|Hne]; [done|]. by rewrite Heq.
      + intros p c e Hp HF. apply A3; [|done]. destruct (decide (p = pre ++ [s])) as [->|Hne]; [|by rewrite Heq].
        destruct Hold; congruence.
      + intros p c e Hp. destruct (A4 p c e Hp) as [Hp1|]; [|done]. left.
        destruct (decide (p = pre ++ [s])) as [->|Hne]; [congruence|]. by rewrite <- Heq.
    - intros -> k Hk [r Hr]. destruct k as [|x k]; [done|]. injection Hr as <- Hr.
      destruct k as [|y k]; [done|]. replace (pre ++ s :: y :: k) with ((pre ++ [s]) ++ y :: k) by (by rewrite <- app_assoc).
      apply Hok; [done|done|by exists r].
    - intros ->. destruct Hbad as (k & c & e & Hk & Hpre & Hp); [done|]. exists (s :: k), c, e.
      rewrite <- app_assoc in Hp. cbn [app] in Hp. split_and!; [done|by apply prefix_cons|].
      rewrite <- Heq; [done|]. intros [_ E]%app_inj_1; [|done]. destruct k; [done|]. by injection E. }
  destruct (t !! (pre ++ [s])) as [[|c e]|] eqn:E.
  - apply (Hgo t); eauto.
  - injection Hm as <- <-. split_and!; [apply step_ok_refl|done|]. intros _. exists [s], c, e.
    split_and!; [done|by apply prefix_cons, prefix_nil|done].
  - apply (Hgo (<[pre ++ [s]:=NDir]> t)); [by rewrite lookup_insert_eq|done| |by left].
    intros p Hp. by rewrite lookup_insert_ne.
Qed.

(** ** Bytes on the target *)

Definition node_bytes (v : node) : Z := match v with NDir => 0 | NFile c _ => Z.of_nat (length c) end.
Definition tree_bytes (t : tree) : Z := map_fold (λ _ v acc, node_bytes v + acc) 0 t.

Lemma tree_bytes_insert t p v : t !! p = None → tree_bytes (<[p:=v]> t) = node_bytes v + tree_bytes t.
Proof. intros Hp. unfold tree_bytes. rewrite map_fold_insert_L; [done| |done]. intros; lia. Qed.
Lemma tree_bytes_replace t p v : tree_bytes (<[p:=v]> t) ≤ node_bytes v + tree_bytes t.
Proof.
  rewrite <- insert_delete_eq, tree_bytes_insert by apply lookup_delete_eq.
  destruct (t !! p) as [w|] eqn:E; [|by rewrite delete_id].
  rewrite <- (insert_delete_id t p w E) at 2. rewrite tree_bytes_insert by apply lookup_delete_eq.
  destruct w; cbn [node_bytes]; lia.
Qed.
Lemma mkdir_from_bytes segs : ∀ t pre, tree_bytes (mkdir_from t pre segs).1 = tree_bytes t.
Proof.
  induction segs as [|s segs IH]; intros t pre; [done|]. cbn [mkdir_from]. cbv zeta.
  destruct (t !! (pre ++ [s])) as [[|c e]|] eqn:E; [apply IH|done|].
  rewrite IH. by apply tree_bytes_insert.
Qed.

(** ** Below the target directory *)

Definition below (dir p : list gostring) : Prop := ∃ s l, p = dir ++ s :: l ∧ Forall safe_seg (s :: l).
Definition dir_ok (t : tree) (dir : list gostring) : Prop :=
  ∀ k, k ≠ [] → k `prefix_of` dir → t !! k = Some NDir.

Lemma prefix_app_cases (k dir l : list gostring) :
  k `prefix_of` dir ++ l → k `prefix_of` dir ∨ ∃ s r, k = dir ++ s :: r ∧ s :: r `prefix_of` l.
Proof.
  revert k. induction dir as [|d dir IH]; intros k Hk; cbn [app] in *.
  - destruct k as [|s r]; [by left|]. right. by exists s, r.
  - destruct k as [|x k]; [by left; apply prefix_nil|].
    pose proof (prefix_cons_inv_1 _ _ _ _ Hk) as ->. apply prefix_cons_inv_2 in Hk.
    destruct (IH k Hk) as [H|(s & r & -> & H)]; [left; by apply prefix_cons|right]. by exists s, r.
Qed.
Lemma Forall_prefix {A} (P : A → Prop) k l : k `prefix_of` l → Forall P l → Forall P k.
Proof. intros [r ->] H. by apply Forall_app in H as [? _]. Qed.

Lemma removelast_proper (l : list gostring) : l ≠ [] → removelast l `prefix_of` l ∧ l ≠ removelast l.
Proof.
  intros Hne. pose proof (app_removelast_last ("" : gostring) Hne) as Hl. split; [by eexists|].
  intros E. apply (f_equal length) in Hl. rewrite length_app, <- E in Hl. cbn in Hl. lia.
Qed.
Lemma dir_ok_step P F t t' dir : step_ok P F t t' → dir_ok t dir → dir_ok t' dir.
Proof. intros [_ Hd _ _] H k Hk Hp. apply Hd. by apply H. Qed.

Lemma MkdirAll_below t dir l t' ok :
  dir_ok t dir → Forall safe_seg l → MkdirAll t (dir ++ l) = (t', ok) →
  step_ok (λ p, below dir p ∧ p `prefix_of` dir ++ l ∧ t' !! p = Some NDir) (λ _, False) t t' ∧
  (ok = true → ∀ k, k ≠ [] → k `prefix_of` dir ++ l → t' !! k = Some NDir) ∧
  (ok = false → ∃ k c e, k `prefix_of` dir ++ l ∧ t !! k = Some (NFile c e)).
Proof.
  intros Hdir Hl Hm. destruct (mkdir_from_ok _ _ _ _ _ Hm) as (Hs & Hok & Hbad). split_and!.
  - eapply step_ok_weaken; [| |exact Hs]; [|done]. intros p (Hnone & Hnew & k & Hk & Hpre & ->). cbn [app] in *.
    split_and!; [|done|done]. destruct (prefix_app_cases _ _ _ Hpre) as [H|(s & r & -> & H)].
    + rewrite (Hdir k Hk H) in Hnone. done.
    + exists s, r. split; [done|]. by eapply Forall_prefix.
  - intros H k. by apply Hok.
  - intros H. destruct (Hbad H) as (k & c & e & _ & Hp & Hk). by exists k, c, e.
Qed.

(** The node a regular entry becomes. *)
Definition exec_of (h : header) : bool := negb (Z.land (h_Mode h) 73 =? 0).
Definition placed (t t' : tree) (dest : list gostring) (h : header) : Prop :=
  ∃ e, t' !! dest = Some (NFile (h_Body h) e) ∧ (t !! dest = None → e = exec_of h).

Lemma extractRegularFile_ok t dir l h limit t' n err :
  dir_ok t dir → l ≠ [] → Forall safe_seg l → 0 ≤ limit →
  extractRegularFile t (dir ++ l) h limit = (t', n, err) →
  step_ok (below dir) (λ p, p = dir ++ l) t t' ∧
  0 ≤ n ≤ limit + 1 ∧ tree_bytes t' ≤ tree_bytes t + n ∧
  (err = None → h_BodyErr h = None ∧ n = Z.of_nat (length (h_Body h)) ∧ n ≤ limit ∧ placed t t' (dir ++ l) h) ∧
  (∀ p, t' !! p = Some NDir → t !! p = Some NDir ∨ (p `prefix_of` dir ++ l ∧ p ≠ dir ++ l)).
Proof.
  intros Hdir Hne Hsafe Hlim. unfold extractRegularFile. rewrite removelast_app by done.
  destruct (MkdirAll t (dir ++ removelast l)) as [t1 ok] eqn:Em.
  destruct (removelast_proper l Hne) as [Hrl Hlr].
  assert (dir ++ removelast l `prefix_of` dir ++ l) as Hdl by by apply prefix_app.
  destruct (MkdirAll_below t dir (removelast l) t1 ok) as (Hs & Hmade & _); [done|by eapply Forall_prefix|done|].
  assert (tree_bytes t1 = tree_bytes t) as Hb1.
  { pose proof (mkdir_from_bytes (dir ++ removelast l) t []) as Hb. unfold MkdirAll in Em. by rewrite Em in Hb. }
  assert (dir ++ l ≠ dir ++ removelast l) as Hneq by by intros E%app_inv_head.
  assert (step_ok (below dir) (λ p, p = dir ++ l) t t1) as Hs1.
  { eapply step_ok_weaken; [| |exact Hs]; [by intros p [? _]|done]. }
  assert (∀ p, t1 !! p = Some NDir → t !! p = Some NDir ∨ (p `prefix_of` dir ++ l ∧ p ≠ dir ++ l)) as Hd1.
  { intros p Hp. destruct (so_touch _ _ _ _ Hs p) as [E|(_ & Hp2 & _)]; [left; congruence|right].
    split; [by etransitivity|]. intros ->. apply Hneq. apply prefix_length_eq; [done|]. by apply prefix_length. }
  destruct ok.
  2: { intros [= <- <- <-]. split_and!; [done|lia|lia|lia|done|done]. }
  cbv zeta. rewrite at_most_take. set (w := take (Z.to_nat (limit + 1)) (h_Body h)).
  assert (Z.of_nat (length w) = Z.min (limit + 1) (Z.of_nat (length (h_Body h)))) as Hw.
  { unfold w. rewrite length_take. lia. }
  assert (∀ e, step_ok (below dir) (λ p, p = dir ++ l) t (<[dir ++ l := NFile w e]> t1) ∨ t1 !! (dir ++ l) = Some NDir) as Hs2.
  { intros e. destruct (t1 !! (dir ++ l)) as [[|c0 e0]|] eqn:El; [by right|left..].
    all: eapply step_ok_trans; [exact Hs1|]; constructor.
    all: first [ intros p; destruct (decide (p = dir ++ l)) as [->|Hp];
                 [right; destruct l as [|s l']; [done|by exists s, l']|by rewrite lookup_insert_ne; auto]
               | intros p c e1 Hp; destruct (decide (p = dir ++ l)) as [->|Hp2];
                 [auto || congruence|rewrite lookup_insert_ne in Hp by done; auto]
               | intros p Hp; destruct (decide (p = dir ++ l)) as [->|Hp2];
                 [congruence|by rewrite lookup_insert_ne]
               | idtac].
    all: intros Hn; by rewrite lookup_insert_ne. }
  assert (∀ e t2 n2 err2, t1 !! (dir ++ l) ≠ Some NDir → (t !! (dir ++ l) = None → e = exec_of h) →
    (<[dir ++ l := NFile w e]> t1, Z.of_nat (length w),
      if Z.of_nat (length w) =? limit + 1 then Some EntryTooLarge
      else match h_BodyErr h with Some _ => Some IOError | None => None end) = (t2, n2, err2) →
    step_ok (below dir) (λ p, p = dir ++ l) t t2 ∧ 0 ≤ n2 ≤ limit + 1 ∧ tree_bytes t2 ≤ tree_bytes t + n2 ∧
    (err2 = None → h_BodyErr h = None ∧ n2 = Z.of_nat (length (h_Body h)) ∧ n2 ≤ limit ∧ placed t t2 (dir ++ l) h) ∧
    (∀ p, t2 !! p = Some NDir → t !! p = Some NDir ∨ (p `prefix_of` dir ++ l ∧ p ≠ dir ++ l))) as Hfin.
  { intros e t2 n2 err2 Hnd Hex [= <- <- <-]. destruct (Hs2 e) as [Hs3|]; [|done]. split_and!; [done|lia|lia| | |].
    - pose proof (tree_bytes_replace t1 (dir ++ l) (NFile w e)) as Hr. cbn [node_bytes] in Hr. lia.
    - destruct (Z.eqb_spec (Z.of_nat (length w)) (limit + 1)); [done|]. destruct (h_BodyErr h); [done|]. intros _.
      assert (w = h_Body h) as Hwb by (apply take_ge; lia). split_and!; [done|congruence|lia|].
      exists e. rewrite lookup_insert_eq, Hwb. done.
    - intros p Hp. destruct (decide (p = dir ++ l)) as [->|Hp2]; [by rewrite lookup_insert_eq in Hp|].
      rewrite lookup_insert_ne in Hp by done. auto. }
  unfold write_file. destruct (t1 !! (dir ++ l)) as [[|c0 e0]|] eqn:El.
  - intros [= <- <- <-]. split_and!; [done|lia|lia|lia|done|done].
  - apply Hfin; [congruence|]. intros Hn. destruct (so_touch _ _ _ _ Hs (dir ++ l)) as [E|(_ & _ & E)]; congruence.
  - apply Hfin; [congruence|done].
Qed.

(** ** The import loop *)

Section loop.
Context `{UnicodeTables} (dir : list gostring).

Definition is_regular (h : header) : bool := match h_Typeflag h with TypeReg | TypeRegA => true | _ => false end.
(** Where an accepted entry lands, and the key it claims. *)
Definition lands (h : header) (rel : gostring) (dest : list gostring) : Prop :=
  safeRelPath (h_Name h) = Ok rel ∧ dest = dir ++ split slash rel.
Definition reg_dests (hs : list header) (p : list gostring) : Prop :=
  ∃ h rel, h ∈ hs ∧ is_regular h = true ∧ lands h rel p.
(** What a successful import has made of an entry. *)
Definition imported (t t' : tree) (h : header) : Prop :=
  ∃ rel dest, lands h rel dest ∧
    if is_regular h then h_BodyErr h = None ∧ Z.of_nat (length (h_Body h)) ≤ maxImportEntrySize ∧ placed t t' dest h
    else h_Typeflag h = TypeDir ∧ t' !! dest = Some NDir.
Definition key_of (h : header) : option gostring :=
  match safeRelPath (h_Name h) with Ok rel => Some (collisionKey rel) | Err _ => None end.
Definition body_size (h : header) : Z := if is_regular h then Z.of_nat (length (h_Body h)) else 0.
Definition total_size (hs : list header) : Z := Z.of_nat (sum_list_with (λ h, Z.to_nat (body_size h)) hs).

Lemma lands_below h rel dest : lands h rel dest → below dir dest ∧ split slash rel ≠ [] ∧ Forall safe_seg (split slash rel).
Proof.
  intros [Hr ->]. apply safeRelPath_Ok in Hr as (_ & Hs & _). split_and!; [|apply split_nonempty|done].
  destruct (split_hd slash rel) as (s & l & E). exists s, l. rewrite E. split; [done|]. by rewrite <- E.
Qed.
Lemma lands_inj h h' rel rel' dest : lands h rel dest → lands h' rel' dest → rel = rel'.
Proof. intros [_ ->] [_ E]. apply app_inv_head in E. by rewrite <- (join_split slash rel), E, join_split. Qed.
Lemma dest_of_lands h rel : safeRelPath (h_Name h) = Ok rel → lands h rel (dest_of dir rel).
Proof. intros Hr. split; [done|]. apply safe_path_resolve. by apply safeRelPath_Ok in Hr as (_ & ? & _). Qed.

Definition loop_ok (hs : list header) (at_end : option gostring) (entries remaining : Z) (seen : gmap gostring gostring)
    (t t' : tree) (e : option import_error) : Prop :=
  step_ok (below dir) (reg_dests hs) t t' ∧ tree_bytes t' ≤ tree_bytes t + remaining + 1 ∧
  (e = None → at_end = None ∧ entries + Z.of_nat (length hs) ≤ maxImportEntries ∧ total_size hs ≤ remaining ∧
     NoDup (map key_of hs) ∧ (∀ h, h ∈ hs → imported t t' h ∧ ∀ k, key_of h = Some k → seen !! k = None)).

(** One entry done, then the rest. *)
Lemma loop_ok_cons h rest at_end entries remaining n seen rel t t1 t' e :
  safeRelPath (h_Name h) = Ok rel → seen !! collisionKey rel = None →
  step_ok (below dir) (λ p, is_regular h = true ∧ p = dir ++ split slash rel) t t1 →
  entries + 1 ≤ maxImportEntries → 0 ≤ n → tree_bytes t1 ≤ tree_bytes t + n → body_size h = n →
  (if is_regular h then h_BodyErr h = None ∧ n ≤ maxImportEntrySize ∧ placed t t1 (dir ++ split slash rel) h
   else h_Typeflag h = TypeDir ∧ t1 !! (dir ++ split slash rel) = Some NDir) →
  loop_ok rest at_end (entries + 1) (remaining - n) (<[collisionKey rel := h_Name h]> seen) t1 t' e →
  loop_ok (h :: rest) at_end entries remaining seen t t' e.
Proof.
  intros Hr Hk Hs1 Hent Hn Hb Hsz Hh (Hs2 & Hb2 & Hfin). unfold loop_ok.
  assert (lands h rel (dir ++ split slash rel)) as Hl by done.
  assert (step_ok (below dir) (reg_dests (h :: rest)) t t1) as Hs1'.
  { eapply step_ok_weaken; [done| |exact Hs1]. intros p [Hreg ->]. exists h, rel. split_and!; [by left|done..]. }
  assert (step_ok (below dir) (reg_dests (h :: rest)) t1 t') as Hs2'.
  { eapply step_ok_weaken; [done| |exact Hs2]. intros p (h' & rel' & ? & ? & ?). exists h', rel'. split_and!; [by right|done..]. }
  split_and!; [by eapply step_ok_trans|lia|]. intros He. destruct (Hfin He) as (Hend & Hlen & Htot & Hnd & Hall).
  assert (∀ h', h' ∈ rest → key_of h' ≠ Some (collisionKey rel)) as Hfresh.
  { intros h' Hh' E. destruct (Hall h' Hh') as [_ Hn']. specialize (Hn' _ E). by rewrite lookup_insert_eq in Hn'. }
  assert (∀ h' rel', h' ∈ rest → lands h' rel' (dir ++ split slash rel) → False) as Hother.
  { intros h' rel' Hh' Hl'. pose proof (lands_inj _ _ _ _ _ Hl Hl') as <-. apply (Hfresh h' Hh').
    unfold key_of. destruct Hl' as [-> _]. done. }
  split_and!; [done|cbn [length]; lia| | |].
  - unfold total_size in *. cbn [sum_list_with]. lia.
  - cbn [map]. constructor; [|done]. intros (h' & E & Hh')%list_elem_of_fmap. apply (Hfresh h' Hh').
    rewrite <- E. unfold key_of. by rewrite Hr.
  - intros h' [->|Hh']%elem_of_cons.
    + split; [|intros k E; unfold key_of in E; rewrite Hr in E; by injection E as <-].
      exists rel, (dir ++ split slash rel). split; [done|]. unfold body_size in Hsz.
      destruct (is_regular h); [|split; [tauto|]; apply (so_dir _ _ _ _ Hs2); tauto].
      destruct Hh as (Hbe & Hn' & e' & Hp & Hex). split_and!; [done|lia|]. exists e'. split; [|done].
      eapply so_file; [exact Hs2|done|]. intros (h' & rel' & Hh' & _ & Hl'). by eapply Hother.
    + destruct (Hall h' Hh') as [(rel' & dest & Hl' & Hm) Hn']. split.
      * exists rel', dest. split; [done|]. destruct (is_regular h') eqn:Er; [|done].
        destruct Hm as (Hbe & Hsz' & e' & Hp & Hex). split_and!; [done..|]. exists e'. split; [done|].
        intros Hnone. apply Hex. destruct (t1 !! dest) as [[|c0 e0]|] eqn:E1; [..|done].
        -- apply (so_dir _ _ _ _ Hs2) in E1. congruence.
        -- destruct (so_new _ _ _ _ Hs1 _ _ _ E1) as [?|[_ ->]]; [congruence|]. by destruct (Hother _ _ Hh' Hl').
      * intros k Hk'. specialize (Hn' k Hk'). by apply lookup_insert_None in Hn' as [? _].
Qed.

(** A loop that stops with an error having changed at most one entry. *)
Lemma loop_ok_stop h rest at_end entries remaining n seen t t1 err :
  step_ok (below dir) (reg_dests (h :: rest)) t t1 → tree_bytes t1 ≤ tree_bytes t + n → n ≤ remaining + 1 →
  loop_ok (h :: rest) at_end entries remaining seen t t1 (Some err).
Proof. intros Hs Hb Hn. split_and!; [done|lia|done]. Qed.

Lemma import_loop_ok hs : ∀ at_end entries remaining seen t t' e,
  dir_ok t dir → 0 ≤ remaining → entries ≤ maxImportEntries →
  import_loop dir hs at_end entries remaining seen t = (t', e) → loop_ok hs at_end entries remaining seen t t' e.
Proof.
  induction hs as [|h rest IH]; intros at_end entries remaining seen t t' e Hdir Hrem Hent Hl; cbn [import_loop] in Hl.
  - injection Hl as <- <-. split_and!; [apply step_ok_refl|lia|]. intros E.
    split_and!; [by destruct at_end|cbn [length]; lia|done|constructor|]. by intros h ?%elem_of_nil.
  - assert (∀ err, loop_ok (h :: rest) at_end entries remaining seen t t (Some err)) as Hstop.
    { intros err. apply (loop_ok_stop _ _ _ _ _ 0); [apply step_ok_refl|lia..]. }
    cbv zeta in Hl. destruct (Z.ltb_spec maxImportEntries (entries + 1)); [by injection Hl as <- <-|].
    destruct (safeRelPath (h_Name h)) as [rel|re] eqn:Er; [|by injection Hl as <- <-].
    destruct (seen !! collisionKey rel) eqn:Ek; [by injection Hl as <- <-|].
    destruct (dest_of_lands h rel Er) as [_ Hd]. rewrite Hd in Hl.
    destruct (lands_below h rel (dir ++ split slash rel)) as (Hbelow & Hne & Hsafe); [done|].
    assert (∀ allow t1 n x, is_regular h = true → 0 ≤ allow ≤ remaining → allow ≤ maxImportEntrySize →
      extractRegularFile t (dir ++ split slash rel) h allow = (t1, n, x) →
      (∀ err, loop_ok (h :: rest) at_end entries remaining seen t t1 (Some err)) ∧
      (x = None → import_loop dir rest at_end (entries + 1) (remaining - n) (<[collisionKey rel:=h_Name h]> seen) t1 = (t', e) →
        loop_ok (h :: rest) at_end entries remaining seen t t' e)) as Hreg.
    { intros allow t1 n x Hreg Ha Ha' Hx.
      destruct (extractRegularFile_ok t dir _ h allow t1 n x Hdir Hne Hsafe (proj1 Ha) Hx) as (Hs1 & Hn & Hb & Hnone & _).
      split.
      - intros err. apply (loop_ok_stop _ _ _ _ _ n); [|done|lia]. eapply step_ok_weaken; [done| |exact Hs1].
        intros p ->. exists h, rel. split_and!; [by left|done..].
      - intros Hxn Hl1. destruct (Hnone Hxn) as (Hbe & Hnb & Hna & Hp). destruct Hn as [Hn0 _].
        eapply (loop_ok_cons h rest at_end entries remaining n); try done; [| | |].
        + eapply step_ok_weaken; [done| |exact Hs1]. by intros p ->.
        + unfold body_size. by rewrite Hreg.
        + rewrite Hreg. split_and!; [done|lia|done].
        + apply IH; [by eapply dir_ok_step|lia|lia|done]. }
    assert (0 ≤ maxImportEntrySize) as Hmax by done.
    set (allow := if remaining <? maxImportEntrySize then remaining else maxImportEntrySize) in *.
    assert (0 ≤ allow ≤ remaining ∧ allow ≤ maxImportEntrySize) as [Ha1 Ha2].
    { unfold allow. destruct (Z.ltb_spec remaining maxImportEntrySize); lia. }
    destruct (h_Typeflag h) eqn:Et; try (by injection Hl as <- <-).
    + destruct (MkdirAll t (dir ++ split slash rel)) as [t1 ok] eqn:Em.
      destruct (MkdirAll_below _ _ _ _ _ Hdir Hsafe Em) as (Hs1 & Hmade & _).
      assert (tree_bytes t1 = tree_bytes t) as Hb1.
      { pose proof (mkdir_from_bytes (dir ++ split slash rel) t []) as Hb. unfold MkdirAll in Em. by rewrite Em in Hb. }
      assert (∀ F, step_ok (below dir) F t t1) as Hs1'.
      { intros F. eapply step_ok_weaken; [| |exact Hs1]; [by intros p [? _]|done]. }
      destruct ok; [|injection Hl as <- <-; apply (loop_ok_stop _ _ _ _ _ 0); [done|lia..]].
      assert (is_regular h = false) as Hreg' by (unfold is_regular; by rewrite Et).
      eapply (loop_ok_cons h rest at_end entries remaining 0); try done; [lia| | |].
      * unfold body_size. by rewrite Hreg'.
      * rewrite Hreg'. split; [done|]. apply Hmade; [done| |done].
        destruct dir; [by destruct (split slash rel)|done].
      * apply IH; [by eapply dir_ok_step|lia|lia|]. by rewrite Z.sub_0_r.
    + destruct (extractRegularFile t (dir ++ split slash rel) h allow) as [[t1 n] x] eqn:Ex.
      destruct (Hreg allow t1 n x) as [H1 H2]; [unfold is_regular; by rewrite Et|done|done|done|].
      destruct x as [[]|]; [injection Hl as <- <-; apply H1..|by apply H2].
    + destruct (extractRegularFile t (dir ++ split slash rel) h allow) as [[t1 n] x] eqn:Ex.
      destruct (Hreg allow t1 n x) as [H1 H2]; [unfold is_regular; by rewrite Et|done|done|done|].
      destruct x as [[]|]; [injection Hl as <- <-; apply H1..|by apply H2].
Qed.
End loop.

(** ** Importing *)

Definition confined (dir : list gostring) (t t' : tree) : Prop :=
  ∀ p, t' !! p = t !! p ∨ below dir p ∨ (p `prefix_of` dir ∧ t !! p = None ∧ t' !! p = Some NDir).

Lemma MkdirAll_dir t dir t' : MkdirAll t dir = (t', true) → dir_ok t' dir.
Proof. intros Hm. destruct (mkdir_from_ok _ _ _ _ _ Hm) as (_ & H & _). exact (H eq_refl). Qed.
Lemma MkdirAll_confined t dir : confined dir t (MkdirAll t dir).1 ∧
  step_ok (λ _, True) (λ _, False) t (MkdirAll t dir).1 ∧ tree_bytes (MkdirAll t dir).1 = tree_bytes t.
Proof.
  unfold MkdirAll. destruct (mkdir_from t [] dir) as [t' ok] eqn:Em. pose proof (mkdir_from_bytes dir t []) as Hb.
  rewrite Em in Hb. destruct (mkdir_from_ok _ _ _ _ _ Em) as (Hs & _ & _). split_and!; [|by eapply step_ok_weaken; [..|exact Hs]|done].
  intros p. destruct (so_touch _ _ _ _ Hs p) as [?|(? & ? & k & _ & ? & ->)]; [by left|]. right. by right.
Qed.

Section importing.
Context `{UnicodeTables}.

Lemma importTar_ok dir archive t :
  let '(t', e) := importTar dir archive t in
  confined dir t t' ∧ (∀ p, t !! p = Some NDir → t' !! p = Some NDir) ∧
  tree_bytes t' ≤ tree_bytes t + maxImportTotalSize + 1 ∧
  (∀ t1, MkdirAll t dir = (t1, true) → loop_ok dir archive.1 archive.2 0 maxImportTotalSize ∅ t1 t' e) ∧
  (e = None → ∃ t1, MkdirAll t dir = (t1, true)).
Proof.
  unfold importTar. destruct (MkdirAll t dir) as [t1 ok] eqn:Em.
  destruct (MkdirAll_confined t dir) as (Hc & Hs & Hb). rewrite Em in Hc, Hs, Hb. cbn [fst] in *.
  assert (0 ≤ maxImportTotalSize) as H0 by done. destruct ok.
  - destruct (import_loop dir archive.1 archive.2 0 maxImportTotalSize ∅ t1) as [t' e] eqn:El.
    pose proof (import_loop_ok dir _ _ 0 _ _ _ _ _ (MkdirAll_dir _ _ _ Em) H0 ltac:(done) El) as Hok.
    split_and!; [| |destruct Hok as (_ & Hb' & _); lia| |eauto].
    + intros p. destruct Hok as (Hs' & _). destruct (so_touch _ _ _ _ Hs' p) as [E|?]; [|auto]. rewrite E.
      destruct (Hc p) as [?|[?|?]]; auto.
    + intros p Hp. destruct Hok as (Hs' & _). apply (so_dir _ _ _ _ Hs'), (so_dir _ _ _ _ Hs), Hp.
    + intros t2 [= <-]. exact Hok.
  - split_and!; [done|apply (so_dir _ _ _ _ Hs)|lia|done|done].
Qed.

(** (C12) [importTar] is confined, whatever the archive holds and wherever it
    stops: a path it changes is strictly below the target directory, with no
    ["."], [".."] or empty segment in between, or is a missing ancestor of the
    target made as a directory; no directory is replaced; and the bytes it adds
    to the file system are at most the limit of an archive and one. *)
Theorem importTar_confined dir archive t :
  let t' := (importTar dir archive t).1 in
  (∀ p, t' !! p = t !! p ∨ below dir p ∨ (p `prefix_of` dir ∧ t !! p = None ∧ t' !! p = Some NDir)) ∧
  (∀ p, t !! p = Some NDir → t' !! p = Some NDir) ∧
  tree_bytes t' ≤ tree_bytes t + maxImportTotalSize + 1.
Proof.
  pose proof (importTar_ok dir archive t) as Hok. destruct (importTar dir archive t) as [t' e].
  cbn [fst]. tauto.
Qed.

(** (C30) An import without an error took in the whole archive: the reader came
    to its end, within the entry and size limits, every name was a safe path,
    no two were the same file on a case-insensitive system, every entry is a
    regular file, now there with exactly its bytes, or a directory; and no file
    below the target is new that is not one of the entries. *)
Theorem importTar_complete dir archive t :
  (importTar dir archive t).2 = None →
  let t' := (importTar dir archive t).1 in
  archive.2 = None ∧ Z.of_nat (length archive.1) ≤ maxImportEntries ∧ total_size archive.1 ≤ maxImportTotalSize ∧
  NoDup (map key_of archive.1) ∧
  (∀ h, h ∈ archive.1 → ∃ rel, safeRelPath (h_Name h) = Ok rel ∧ safe_path rel ∧
     if is_regular h
     then h_BodyErr h = None ∧ Z.of_nat (length (h_Body h)) ≤ maxImportEntrySize ∧
          ∃ e, t' !! (dir ++ split slash rel) = Some (NFile (h_Body h) e)
     else h_Typeflag h = TypeDir ∧ t' !! (dir ++ split slash rel) = Some NDir) ∧
  (∀ p c e, t' !! p = Some (NFile c e) → t !! p = Some (NFile c e) ∨
     ∃ h rel, h ∈ archive.1 ∧ is_regular h = true ∧ safeRelPath (h_Name h) = Ok rel ∧ p = dir ++ split slash rel).
Proof.
  pose proof (importTar_ok dir archive t) as Hok. destruct (importTar dir archive t) as [t' e]. cbn [fst snd].
  destruct Hok as (_ & _ & _ & Hl & He). intros ->. destruct (He eq_refl) as [t1 Hm].
  destruct (Hl t1 Hm) as (Hs & _ & Hd). destruct (Hd eq_refl) as (H1 & H2 & H3 & H4 & H5).
  split_and!; [done|lia|done|done| |].
  - intros h Hh. destruct (H5 h Hh) as [(rel & dest & [Hr ->] & Hi) _]. exists rel.
    split_and!; [done|by apply safeRelPath_Ok in Hr as (_ & ? & _)|]. destruct (is_regular h); [|done].
    destruct Hi as (? & ? & e & ? & _). eauto.
  - intros p c e Hp. destruct (so_new _ _ _ _ Hs _ _ _ Hp) as [Hp1|(h & rel & Hh & Hreg & Hr & Hdest)].
    + left. destruct (MkdirAll_confined t dir) as (_ & Hs0 & _). rewrite Hm in Hs0.
      by destruct (so_new _ _ _ _ Hs0 _ _ _ Hp1).
    + right. by exists h, rel.
Qed.
End importing.

(** ** Export, then import *)

(** A name an archive can carry to any system. *)
Definition portable (p : gostring) : Prop :=
  safe_path p ∧ (length p ≤ 1024)%nat ∧ Forall (λ s, (length s ≤ 255)%nat) (split slash p) ∧
  (chr 0 ∉ p) ∧ ("\"%char ∉ p) ∧ drive_letter p = false.

Lemma safeRelPath_portable p : portable p → safeRelPath p = Ok p.
Proof.
  intros (Hs & Hlen & Hcomp & H0 & H1 & Hdrive). unfold safeRelPath.
  assert (has_prefix "/" p = false) as Hroot by exact (safe_path_not_rooted p Hs). rewrite safe_path_clean by done. cbv zeta.
  rewrite (streq_false p "") by by apply safe_path_nonempty.
  destruct (Nat.ltb_spec maxImportEntryNameLen (length p)) as [Hlt|_].
  { unfold maxImportEntryNameLen in Hlt. lia. }
  rewrite (proj2 (contains_byte_false _ _) H0), (proj2 (contains_byte_false _ _) H1).
  rewrite Hroot, Hdrive.
  assert (∀ q, ¬ safe_path q → p ≠ q) as Hne by (by intros q Hq ->).
  rewrite (streq_false p ".") by (apply Hne; intros Hq; apply Forall_inv in Hq; by destruct Hq as (_ & ? & _)).
  rewrite (streq_false p "..") by (apply Hne; intros Hq; apply Forall_inv in Hq; by destruct Hq as (_ & _ & ?)).
  destruct (has_prefix "../" p) eqn:Epre.
  { exfalso. apply has_prefix_spec in Epre as [r ->]. unfold safe_path in Hs.
    change (split slash (bytes_of "../" ++ r)) with ((".." : gostring) :: split slash r) in Hs.
    apply Forall_inv in Hs. by destruct Hs as (_ & _ & ?). }
  cbn [orb]. destruct (existsb _ (split slash p)) eqn:E; [|done]. exfalso.
  apply existsb_exists in E as (s & Hin & Hs'%Nat.ltb_lt). rewrite Forall_forall in Hcomp.
  apply list_elem_of_In in Hin. specialize (Hcomp s Hin). unfold maxImportNameComponentLen in Hs'. lia.
Qed.

Definition entry_of (exec : gostring → bool) (v : visit) : option exportEntry :=
  match v with
  | VFile ((_ :: _) as rel) _ (Ok size) content => Some (mkExport rel size (exec rel) content)
  | _ => None
  end.
Lemma collect_entries_ok exec l : ∀ es, collect_entries exec l = Ok es →
  es = omap (entry_of exec) l ∧
  ∀ rel m i c, VFile rel m i c ∈ l → rel ≠ [] → m = [] ∧ ∃ size, i = Ok size.
Proof.
  induction l as [|v l IH]; intros es Hc; cbn [collect_entries] in Hc.
  { injection Hc as <-. split; [done|]. by intros rel m i c ?%elem_of_nil. }
  assert (∀ es, collect_entries exec l = Ok es → entry_of exec v = None → (∀ rel m i c, v = VFile rel m i c → rel = []) →
    es = omap (entry_of exec) (v :: l) ∧
    ∀ rel m i c, VFile rel m i c ∈ v :: l → rel ≠ [] → m = [] ∧ ∃ size, i = Ok size) as Hskip.
  { intros es' Hc' Hn Hv. destruct (IH _ Hc') as [-> Hin]. split; [cbn; by rewrite Hn|].
    intros rel m i c [Hx|Hx]%elem_of_cons Hrel; [|by eapply Hin]. symmetry in Hx. by apply Hv in Hx. }
  destruct v as [rel|rel e|rel m i c]; [by apply Hskip|done|]. destruct rel as [|x rel]; [apply Hskip; [done..|congruence]|].
  destruct i as [size|e]; [|done]. destruct (streq m "") eqn:Em; [|done]. apply streq_true in Em as ->.
  apply bind_Ok in Hc as (more & Hc & [= <-]). destruct (IH _ Hc) as [-> Hin]. split; [done|].
  intros rel' m' i' c' [[= -> -> -> ->]|Hx]%elem_of_cons Hrel; [eauto|by eapply Hin].
Qed.

Definition header_of (e : exportEntry) (b : gostring) : header :=
  mkHeader (x_relPath e) TypeReg (if x_exec e then 493 else 420) b None.
Lemma write_entries_ok es : ∀ hs, write_entries es = Ok hs →
  Forall2 (λ e h, ∃ b, x_content e = Ok b ∧ h = header_of e b ∧ x_size e = Z.of_nat (length b)) es hs.
Proof.
  induction es as [|e es IH]; intros hs Hw; cbn [write_entries] in Hw.
  { injection Hw as <-. constructor. }
  destruct (x_content e) as [b|] eqn:Eb; [|done]. destruct (Z.eqb_spec (Z.of_nat (length b)) (x_size e)); [|done].
  apply bind_Ok in Hw as (more & Hw & [= <-]). constructor; [by exists b|by apply IH].
Qed.

(** The entries of an export are the files of the tree. *)
Lemma exportTar_files exec fail entries hs :
  fs_wf (FDir fail entries) → exportTar exec (FDir fail entries) = Ok hs →
  ∀ h, h ∈ hs ↔ ∃ p b, read_file (FDir fail entries) p = Some (Ok b) ∧
    h = mkHeader p TypeReg (if exec p then 493 else 420) b None.
Proof.
  intros Hwf Hx h. unfold exportTar, collectExportEntries in Hx.
  apply bind_Ok in Hx as (es & Hx & Hw). apply bind_Ok in Hx as (es0 & Hc & [= <-]).
  destruct (collect_entries_ok _ _ _ Hc) as [-> Hall]. apply write_entries_ok in Hw. split.
  - intros Hh. destruct (Forall2_elem_of_r _ _ _ _ Hw Hh) as (e & He & b & Hb & -> & _).
    apply elem_of_sort_by, list_elem_of_omap in He as (v & Hv & He).
    destruct v as [|? ?|[|x rel] m [size|] c]; simplify_eq/=. exists (x :: rel), b. split; [|done].
    apply (walk_read_file _ _ _ _ Hwf). eauto.
  - intros (p & b & Hr & ->). apply (walk_read_file _ _ _ _ Hwf) in Hr as (m & i & Hin).
    pose proof (walk_paths_safe _ _ _ _ _ _ Hwf Hin) as Hp%safe_path_nonempty.
    destruct (Hall _ _ _ _ Hin Hp) as [-> [size ->]].
    assert (mkExport p size (exec p) (Ok b) ∈ sort_by (λ x y, str_leb (x_relPath x) (x_relPath y))
      (omap (entry_of exec) (walk [] (FDir fail entries)))) as He.
    { apply elem_of_sort_by, list_elem_of_omap. exists (VFile p [] (Ok size) (Ok b)). split; [done|]. by destruct p. }
    destruct (Forall2_elem_of_l _ _ _ _ Hw He) as (h & Hh & b' & [= <-] & -> & _). exact Hh.
Qed.

(** ** An import that succeeds *)

Lemma extractRegularFile_succeeds t dir l h limit :
  dir_ok t dir → l ≠ [] → Forall safe_seg l → h_BodyErr h = None → 0 ≤ Z.of_nat (length (h_Body h)) ≤ limit →
  (∀ k c e, k `prefix_of` dir ++ l → k ≠ dir ++ l → t !! k ≠ Some (NFile c e)) → t !! (dir ++ l) ≠ Some NDir →
  (extractRegularFile t (dir ++ l) h limit).2 = None ∧
  (extractRegularFile t (dir ++ l) h limit).1.2 = Z.of_nat (length (h_Body h)).
Proof.
  intros Hdir Hne Hsafe Hbe Hlen Hfree Hnd. unfold extractRegularFile. rewrite removelast_app by done.
  destruct (removelast_proper l Hne) as [Hrl Hneq].
  destruct (MkdirAll t (dir ++ removelast l)) as [t1 ok] eqn:Em.
  destruct (MkdirAll_below t dir (removelast l) t1 ok) as (Hs & Hmade & Hbad); [done|by eapply Forall_prefix|done|].
  destruct ok.
  2: { exfalso. destruct (Hbad eq_refl) as (k & c & e & Hk & Ht). apply (Hfree k c e); [|intros ->|done].
       - etransitivity; [done|by apply prefix_app].
       - apply Hneq. apply (prefix_app_inv dir) in Hk. apply prefix_length_eq; [done|by apply prefix_length]. }
  cbv zeta. rewrite Hbe, at_most_take, take_ge by lia.
  assert (t1 !! (dir ++ l) ≠ Some NDir) as Hnd1.
  { destruct (so_touch _ _ _ _ Hs (dir ++ l)) as [->|(_ & Hp & _)]; [done|]. exfalso. apply Hneq.
    apply (prefix_app_inv dir) in Hp. apply prefix_length_eq; [done|by apply prefix_length]. }
  unfold write_file. destruct (t1 !! (dir ++ l)) as [[|c0 e0]|]; [done|..]; cbn [fst snd].
  all: destruct (Z.eqb_spec (Z.of_nat (length (h_Body h))) (limit + 1)); [lia|done].
Qed.

Section succeeds.
Context `{UnicodeTables} (dir : list gostring).

(** What lets an archive of regular files be imported into [t]. *)
Record importable (hs : list header) (entries remaining : Z) (seen : gmap gostring gostring) (t : tree) : Prop := {
  im_dir : dir_ok t dir;
  im_regular h : h ∈ hs → h_Typeflag h = TypeReg ∧ h_BodyErr h = None ∧ Z.of_nat (length (h_Body h)) ≤ maxImportEntrySize;
  im_name h : h ∈ hs → ∃ rel, safeRelPath (h_Name h) = Ok rel ∧ seen !! collisionKey rel = None;
  im_keys : NoDup (map key_of hs);
  im_count : entries + Z.of_nat (length hs) ≤ maxImportEntries;
  im_total : total_size hs ≤ remaining;
  im_free h rel dest k c e : h ∈ hs → lands dir h rel dest → k `prefix_of` dest → k ≠ dest → t !! k ≠ Some (NFile c e);
  im_new h rel dest : h ∈ hs → lands dir h rel dest → t !! dest ≠ Some NDir;
  im_apart h h' rel rel' dest dest' : h ∈ hs → h' ∈ hs → lands dir h rel dest → lands dir h' rel' dest' →
    dest `prefix_of` dest' → dest = dest'
}.

Lemma import_loop_succeeds hs : ∀ entries remaining seen t,
  importable hs entries remaining seen t → (import_loop dir hs None entries remaining seen t).2 = None.
Proof.
  induction hs as [|h rest IH]; intros entries remaining seen t Him; [done|]. destruct Him.
  destruct (im_regular0 h) as (Ht & Hbe & Hlen); [by left|]. destruct (im_name0 h) as (rel & Hr & Hk); [by left|].
  cbn [import_loop]. cbv zeta. cbn [length] in im_count0.
  destruct (Z.ltb_spec maxImportEntries (entries + 1)); [lia|]. rewrite Hr, Hk, Ht.
  destruct (dest_of_lands dir h rel Hr) as [_ Hd]. rewrite Hd.
  assert (lands dir h rel (dir ++ split slash rel)) as Hl by done.
  destruct (lands_below dir h rel _ Hl) as (Hbelow & Hne & Hsafe).
  assert (is_regular h = true) as Hreg by (unfold is_regular; by rewrite Ht).
  assert (body_size h = Z.of_nat (length (h_Body h))) as Hsz by (unfold body_size; by rewrite Hreg).
  assert (total_size (h :: rest) = Z.of_nat (length (h_Body h)) + total_size rest) as Htot.
  { unfold total_size. cbn [sum_list_with]. rewrite Hsz. lia. }
  assert (0 ≤ total_size rest) as Hrest by (unfold total_size; lia).
  set (allow := if remaining <? maxImportEntrySize then remaining else maxImportEntrySize).
  assert (Z.of_nat (length (h_Body h)) ≤ allow) as Hallow.
  { unfold allow. destruct (Z.ltb_spec remaining maxImportEntrySize); lia. }
  clearbody allow. assert (0 ≤ Z.of_nat (length (h_Body h)) ≤ allow) as Hb by lia.
  destruct (extractRegularFile_succeeds t dir _ h allow im_dir0 Hne Hsafe Hbe Hb) as [Hx1 Hx2].
  { intros k c e Hp Hpne. eapply im_free0; [by left|done..]. }
  { eapply im_new0; [by left|done]. }
  destruct (extractRegularFile t (dir ++ split slash rel) h allow) as [[t1 n] x] eqn:Ex. cbn [fst snd] in Hx1, Hx2. subst x n.
  destruct (extractRegularFile_ok _ _ _ _ allow _ _ _ im_dir0 Hne Hsafe ltac:(lia) Ex) as (Hs & _ & _ & _ & Hdirs).
  assert (∀ h' rel' dest', h' ∈ rest → lands dir h' rel' dest' → dest' ≠ dir ++ split slash rel) as Hother.
  { intros h' rel' dest' Hh' Hl' ->. pose proof (lands_inj dir _ _ _ _ _ Hl Hl') as <-.
    cbn [map] in im_keys0. apply NoDup_cons in im_keys0 as [Hni _]. apply Hni.
    assert (key_of h = key_of h') as -> by (unfold key_of; destruct Hl' as [-> _]; by rewrite Hr).
    by apply list_elem_of_fmap_2. }
  apply IH. constructor.
  - by eapply dir_ok_step.
  - intros h' Hh'. apply im_regular0. by right.
  - intros h' Hh'. destruct (im_name0 h') as (rel' & Hr' & Hk'); [by right|]. exists rel'. split; [done|].
    apply lookup_insert_None. split; [done|]. intros E. cbn [map] in im_keys0. apply NoDup_cons in im_keys0 as [Hni _].
    apply Hni. assert (key_of h = key_of h') as -> by (unfold key_of; by rewrite Hr, Hr', E).
    by apply list_elem_of_fmap_2.
  - cbn [map] in im_keys0. by apply NoDup_cons in im_keys0 as [_ ?].
  - lia.
  - lia.
  - intros h' rel' dest' k c e Hh' Hl' Hp Hpne Hk'. destruct (so_new _ _ _ _ Hs _ _ _ Hk') as [Hk0| ->].
    + eapply (im_free0 h'); [by right|done..].
    + apply Hpne. eapply (im_apart0 h h'); [by left|by right|done..].
  - intros h' rel' dest' Hh' Hl' Hd'. destruct (Hdirs _ Hd') as [?|[Hp Hpne]].
    + eapply (im_new0 h'); [by right|done..].
    + apply Hpne. eapply (im_apart0 h' h); [by right|by left|done..].
  - intros h1 h2 ? ? ? ? Hh1 Hh2. apply im_apart0; by right.
Qed.
End succeeds.

Lemma fs_get_file_leaf n : ∀ k r m i c x, fs_get k n = Some (FFile m i c) → fs_get (k ++ r) n = Some x → r = [].
Proof.
  induction n as [m' i' c'|fail entries IH] using fs_full_ind; intros k r m i c x Hk Hkr.
  - destruct k; [|done]. by destruct r.
  - destruct k as [|s k]; [done|]. cbn [app fs_get] in *.
    destruct (find (λ ne, streq ne.1 s) entries) as [[nm y]|] eqn:Ef; [|done].
    apply find_some in Ef as [Hin _]. by eapply (IH _ Hin).
Qed.

Section roundtrip.
Context `{UnicodeTables}.

(** A place that can take the tree: no file among the target's ancestors, and
    nothing below it. *)
Definition empty_target (dir : list gostring) (t : tree) : Prop :=
  (∀ k c e, k `prefix_of` dir → t !! k ≠ Some (NFile c e)) ∧ (∀ p, below dir p → t !! p = None).

Lemma empty_target_mkdir dir t : empty_target dir t →
  ∃ t1, MkdirAll t dir = (t1, true) ∧ dir_ok t1 dir ∧ (∀ p, below dir p → t1 !! p = None) ∧
    (∀ c e, t1 !! [] ≠ Some (NFile c e)).
Proof.
  intros [Hfree Hnone]. destruct (MkdirAll t dir) as [t1 ok] eqn:Em.
  destruct (mkdir_from_ok _ _ _ _ _ Em) as (Hs & Hok & Hbad). destruct ok.
  - exists t1. split_and!; [done|exact (Hok eq_refl)| |].
    2: { intros c e He. destruct (so_new _ _ _ _ Hs _ _ _ He) as [He'|[]]. eapply Hfree; [apply prefix_nil|exact He']. }
    intros p Hp. destruct (so_touch _ _ _ _ Hs p) as [->|(_ & _ & k & _ & Hk & ->)]; [by apply Hnone|].
    destruct Hp as (s & l & E & _). cbn [app] in E. subst k. apply prefix_length in Hk. rewrite length_app in Hk. cbn in Hk. lia.
  - exfalso. destruct (Hbad eq_refl) as (k & c & e & _ & Hk & Hp). by eapply Hfree.
Qed.

(** An export within the limits can be imported. *)
Definition transportable (hs : list header) : Prop :=
  Forall (λ h, portable (h_Name h) ∧ Z.of_nat (length (h_Body h)) ≤ maxImportEntrySize) hs ∧
  NoDup (map (λ h, collisionKey (h_Name h)) hs) ∧
  Z.of_nat (length hs) ≤ maxImportEntries ∧ total_size hs ≤ maxImportTotalSize.

Lemma portable_lands dir h rel dest :
  portable (h_Name h) → lands dir h rel dest → rel = h_Name h ∧ below dir dest ∧ dest = dir ++ split slash (h_Name h).
Proof.
  intros Hp Hl. destruct (lands_below dir _ _ _ Hl) as (Hb & _ & _).
  destruct Hl as [Hr ->]. rewrite safeRelPath_portable in Hr by done. injection Hr as <-. done.
Qed.

Lemma export_importable exec fail entries hs dir t1 :
  fs_wf (FDir fail entries) → exportTar exec (FDir fail entries) = Ok hs → transportable hs →
  dir_ok t1 dir → (∀ p, below dir p → t1 !! p = None) → (∀ c e, t1 !! [] ≠ Some (NFile c e)) →
  importable dir hs 0 maxImportTotalSize ∅ t1.
Proof.
  intros Hwf Hx (Hport & Hkeys & Hcount & Htot) Hdir Hnone Hroot. pose proof (exportTar_files _ _ _ _ Hwf Hx) as Hfiles.
  rewrite Forall_forall in Hport.
  assert (∀ h rel dest, h ∈ hs → lands dir h rel dest → rel = h_Name h ∧ below dir dest ∧ dest = dir ++ split slash (h_Name h)) as Hland.
  { intros h rel dest Hh. apply portable_lands, (Hport h Hh). }
  constructor; try done.
  - intros h Hh. destruct (Hport h Hh) as [_ Hb]. apply Hfiles in Hh as (p & b & _ & ->). done.
  - intros h Hh. exists (h_Name h). split; [apply safeRelPath_portable, Hport, Hh|apply lookup_empty].
  - assert (map key_of hs = Some <$> map (λ h, collisionKey (h_Name h)) hs) as ->.
    { rewrite <- list_fmap_compose. apply list_fmap_ext. intros i h Hi%list_elem_of_lookup_2. unfold key_of. cbn.
      by rewrite safeRelPath_portable by apply (Hport h Hi). }
    apply NoDup_fmap_2; [apply _|done].
  - intros h rel dest k c e Hh Hl Hp Hpne Hk. destruct (Hland _ _ _ Hh Hl) as (_ & (s & l & -> & Hsafe) & _).
    destruct (prefix_app_cases _ _ _ Hp) as [Hd|(s' & r & -> & Hp')].
    + destruct k as [|y k].
      * by apply (Hroot c e).
      * rewrite (Hdir (y :: k)) in Hk by done. done.
    + rewrite Hnone in Hk; [done|]. exists s', r. split; [done|]. by eapply Forall_prefix.
  - intros h rel dest Hh Hl Hd. destruct (Hland _ _ _ Hh Hl) as (_ & Hb & _). by rewrite Hnone in Hd.
  - intros h h' rel rel' dest dest' Hh Hh' Hl Hl' Hp.
    destruct (Hland _ _ _ Hh Hl) as (_ & _ & ->), (Hland _ _ _ Hh' Hl') as (_ & _ & ->).
    apply (prefix_app_inv dir) in Hp as [r Hr]. apply Hfiles in Hh as (p & b & Hp & ->), Hh' as (p' & b' & Hp' & ->).
    cbn [h_Name] in *. unfold read_file in Hp, Hp'. rewrite Hr in Hp' |- *.
    destruct (fs_get (split slash p) _) as [[m i c|]|] eqn:E; [|done..].
    destruct (fs_get (split slash p ++ r) _) as [x|] eqn:E'; [|done].
    rewrite (fs_get_file_leaf _ _ _ _ _ _ _ E E'). by rewrite app_nil_r.
Qed.

(** (C13) Exporting a bundle and importing the archive into an empty place
    restores it: when the names are portable and no two are the same file on a
    case-insensitive system, and the limits hold, the import succeeds, and below
    the target there is exactly the file the tree has at each path, with its
    bytes and its execute bit. *)
Theorem export_import exec fail entries hs dir t :
  fs_wf (FDir fail entries) → exportTar exec (FDir fail entries) = Ok hs →
  transportable hs → empty_target dir t →
  let '(t', e) := importTar dir (hs, None) t in
  e = None ∧
  ∀ p b x, safe_path p →
    t' !! (dir ++ split slash p) = Some (NFile b x) ↔ read_file (FDir fail entries) p = Some (Ok b) ∧ x = exec p.
Proof.
  intros Hwf Hx Htr Hempty. pose proof (exportTar_files _ _ _ _ Hwf Hx) as Hfiles.
  destruct (empty_target_mkdir dir t Hempty) as (t1 & Hm & Hdir & Hnone & Hroot).
  pose proof (export_importable exec fail entries hs dir t1 Hwf Hx Htr Hdir Hnone Hroot) as Him.
  pose proof (import_loop_succeeds dir hs 0 maxImportTotalSize ∅ t1 Him) as Hsucc.
  pose proof (importTar_ok dir (hs, None) t) as Hok.
  assert (importTar dir (hs, None) t = import_loop dir hs None 0 maxImportTotalSize ∅ t1) as Hrun by (unfold importTar; by rewrite Hm).
  destruct (importTar dir (hs, None) t) as [t' e]. rewrite <- Hrun in Hsucc. cbn [snd] in Hsucc. subst e.
  split; [done|]. destruct Hok as (_ & _ & _ & Hl & _). destruct (Hl t1 Hm) as (Hs & _ & Hd). cbn [fst snd] in *.
  destruct (Hd eq_refl) as (_ & _ & _ & _ & Hall).
  assert (∀ h, h ∈ hs → portable (h_Name h)) as Hport.
  { intros h Hh. destruct Htr as [Hp _]. rewrite Forall_forall in Hp. apply (Hp h Hh). }
  assert (∀ h, h ∈ hs → t' !! (dir ++ split slash (h_Name h)) = Some (NFile (h_Body h) (exec_of h))) as Hplaced.
  { intros h Hh. destruct (Hall h Hh) as [(rel & dest & Hld & Hi) _]. destruct (portable_lands dir _ _ _ (Hport h Hh) Hld) as (-> & Hb & ->).
    destruct (im_regular _ _ _ _ _ _ Him h Hh) as (Hreg & _ & _). unfold is_regular in Hi. rewrite Hreg in Hi.
    destruct Hi as (_ & _ & e & -> & Hex). by rewrite Hex by by apply Hnone. }
  assert (∀ h p b x, h ∈ hs → h = mkHeader p TypeReg (if exec p then 493 else 420) b x → exec_of h = exec p) as Hexec.
  { intros h p b x _ ->. unfold exec_of. cbn. by destruct (exec p). }
  intros p b x Hp. split.
  - intros Ht. destruct (so_new _ _ _ _ Hs _ _ _ Ht) as [Ht1|(h & rel & Hh & _ & Hld)].
    { rewrite Hnone in Ht1; [done|]. destruct (split_hd slash p) as (s & l & E). exists s, l. rewrite E. split; [done|].
      by rewrite <- E. }
    destruct (portable_lands dir _ _ _ (Hport h Hh) Hld) as (_ & _ & E). apply app_inv_head in E.
    assert (p = h_Name h) as -> by (by rewrite <- (join_split slash p), E, join_split).
    rewrite Hplaced in Ht by done. injection Ht as <- <-. pose proof Hh as Hh'.
    apply Hfiles in Hh' as (p & b & Hr & Eh). rewrite (Hexec _ _ _ _ Hh Eh). by rewrite Eh.
  - intros [Hr ->]. set (h := mkHeader p TypeReg (if exec p then 493 else 420) b None).
    assert (h ∈ hs) as Hh by (apply Hfiles; eauto). pose proof (Hplaced h Hh) as Hpl.
    rewrite (Hexec _ _ _ _ Hh eq_refl) in Hpl. exact Hpl.
Qed.
End roundtrip.

Ltac by_decision := cbn [map fst]; apply (bool_decide_unpack _); vm_compute; exact I.
(** ** A small tree across the gap *)

Definition toy_tree : fsnode := FDir None [
  (bytes_of "pool", FDir None [(bytes_of "a.deb", FFile "" (Ok 3) (Ok (bytes_of "abc"))); (bytes_of "b.deb", FFile "" (Ok 0) (Ok []))]);
  (bytes_of "run.sh", FFile "" (Ok 2) (Ok (bytes_of "go")))].
Definition toy_exec (p : gostring) : bool := streq p "run.sh".
Definition toy_hs : list header := [
  mkHeader "pool/a.deb" TypeReg 420 "abc" None; mkHeader "pool/b.deb" TypeReg 420 [] None;
  mkHeader "run.sh" TypeReg 493 "go" None].
Definition toy_dir : list gostring := [bytes_of "srv"; bytes_of "in"].
(** Entries of every outcome, tried against the same target. *)
Example import_samples :
  let err name tf := (importTar toy_dir ([mkHeader name tf 420 "x" None], None) ∅).2 in
  (exportTar toy_exec toy_tree, map (λ n, err n TypeReg) [bytes_of "../x"; bytes_of "/x"; bytes_of "a/../.."; bytes_of "a/../b"; bytes_of "c:/x"; []; bytes_of "."; bytes_of "a//b/./c"],
   err "l" TypeSymlink, err "d" (TypeOther 3),
   (importTar toy_dir ([mkHeader "A/b." TypeReg 420 [] None; mkHeader "a/B" TypeReg 420 [] None], None) ∅).2,
   (importTar toy_dir (toy_hs, None) ∅).1 !! (toy_dir ++ [bytes_of "pool"; bytes_of "a.deb"])) =
  (Ok toy_hs, [Some (UnsafeName "../x" Traversal); Some (UnsafeName "/x" Absolute); Some (UnsafeName "a/../.." Traversal);
    None; Some (UnsafeName "c:/x" DriveLetter); Some (UnsafeName [] EmptyName); Some (UnsafeName "." EmptyAfterCleaning); None],
   Some (LinkEntry "l"), Some (UnsupportedType "d" (TypeOther 3)),
   Some (DuplicateEntry "a/B" "A/b."), Some (NFile "abc" false)).
Proof. vm_compute. reflexivity. Qed.

Lemma importTar_complete_witness : ∃ h, h ∈ toy_hs ∧ h_Name h = "run.sh" ∧ (importTar toy_dir (toy_hs, None) ∅).2 = None ∧
  ∃ e, (importTar toy_dir (toy_hs, None) ∅).1 !! (toy_dir ++ [bytes_of "run.sh"]) = Some (NFile "go" e).
Proof.
  assert ((importTar toy_dir (toy_hs, None) ∅).2 = None) as H by (vm_compute; reflexivity).
  exists (mkHeader "run.sh" TypeReg 493 "go" None). split_and!; [right; right; left|reflexivity|exact H|].
  destruct (importTar_complete toy_dir (toy_hs, None) ∅ H) as (_ & _ & _ & _ & Hall & _).
  destruct (Hall (mkHeader "run.sh" TypeReg 493 "go" None)) as (rel & Hr & _ & _ & _ & He); [right; right; left|].
  assert (safeRelPath "run.sh" = Ok (bytes_of "run.sh")) as Hr' by (vm_compute; reflexivity).
  cbn [h_Name] in Hr. rewrite Hr' in Hr. injection Hr as <-. exact He.
Defined.
Lemma export_import_witness : fs_wf toy_tree ∧ exportTar toy_exec toy_tree = Ok toy_hs ∧
  (importTar toy_dir (toy_hs, None) ∅).1 !! (toy_dir ++ split slash "run.sh") = Some (NFile "go" true).
Proof.
  assert (exportTar toy_exec toy_tree = Ok toy_hs) as Hx by (vm_compute; reflexivity).
  assert (fs_wf toy_tree) as Hwf.
  { constructor; [by_decision|by_decision|].
    intros ne [->|[->|[]%elem_of_nil]%elem_of_cons]%elem_of_cons; [|constructor].
    constructor; [by_decision|by_decision|].
    intros ne [->|[->|[]%elem_of_nil]%elem_of_cons]%elem_of_cons; constructor. }
  assert (transportable toy_hs) as Ht.
  { split_and!.
    - unfold toy_hs. repeat (constructor; [split; [|vm_compute; discriminate]; repeat (split; [by_decision|]); by_decision|]). constructor.
    - by_decision.
    - vm_compute. discriminate.
    - vm_compute. discriminate. }
  split_and!; [exact Hwf|exact Hx|].
  pose proof (export_import toy_exec None _ toy_hs toy_dir ∅ Hwf Hx Ht) as H.
  destruct (importTar toy_dir (toy_hs, None) ∅) as [t' e]. destruct H as [_ H]; [split; intros; apply lookup_empty || (rewrite lookup_empty; discriminate)|].
  apply (H (bytes_of "run.sh") (bytes_of "go") true); [by_decision|].
  split; vm_compute; reflexivity.
Defined.
