(* ===== verification/Store.v ===== *)
(** * core/store/fsstore.go: the content-addressed store.

    The operations of the store are programs over the system calls they make,
    one call at a time, so that they can be run alone or interleaved with each
    other. A call may fail for a reason of its own; the failures, the names of
    temporary files and the part of a write that arrives before it fails come
    from a list of choices. The file system is a map from absolute paths, as
    segments, to file contents: a directory is there when a file is below it,
    and a hard link is a second entry, which no operation writes through. *)
From S2P Require Export Tar.
#[local] Open Scope Z_scope.

Abbreviation path := (list gostring).

(** ** index.json *)

Record Entry := mkEntry {
  e_Digest : gostring; e_Name : gostring; e_Version : gostring; e_Arch : gostring; e_Size : Z;
  e_Filename : gostring; e_AddedAt : gostring; e_UserSupplied : bool
}.
Definition IndexSchemaVersion : gostring := "debark.storeindex/v1".
Record Index := mkIndex { ix_SchemaVersion : gostring; ix_Entries : list Entry }.
Record GCStats := mkStats { gc_Removed : Z; gc_Kept : Z; gc_BytesFreed : Z; gc_BytesRemaining : Z }.

(** ** Programs *)

Inductive prog (A : Type) : Type :=
| Ret (a : A)
| Mkdir (p : path) (k : bool → prog A)
| CreateTemp (p : path) (prefix : gostring) (k : option path → prog A)
| Write (p : path) (c : gostring) (k : bool → prog A)
| Read (p : path) (k : option gostring → prog A)
| Exists (p : path) (k : bool → prog A)
| Rename (p q : path) (k : bool → prog A)
| Link (p q : path) (k : bool → prog A)
| Remove (p : path) (k : bool → prog A)
| ListShards (p : path) (k : option (list gostring) → prog A)
| ListObjects (p : path) (k : option (list (gostring * Z)) → prog A)
| LockIndex (k : bool → prog A)
| UnlockIndex (k : prog A)
| ReadIndex (k : result unit (option Index) → prog A)
| PublishIndex (i : Index) (k : bool → prog A).
Arguments Ret {A} _. Arguments Mkdir {A} _ _. Arguments CreateTemp {A} _ _ _. Arguments Write {A} _ _ _.
Arguments Read {A} _ _. Arguments Exists {A} _ _. Arguments Rename {A} _ _ _. Arguments Link {A} _ _ _.
Arguments Remove {A} _ _. Arguments ListShards {A} _ _. Arguments ListObjects {A} _ _. Arguments LockIndex {A} _.
Arguments UnlockIndex {A} _. Arguments ReadIndex {A} _. Arguments PublishIndex {A} _ _.

#[export] Instance prog_ret : MRet prog := λ A, Ret.
Fixpoint prog_bind {A B} (f : A → prog B) (m : prog A) : prog B :=
  match m with
  | Ret a => f a
  | Mkdir p k => Mkdir p (λ x, prog_bind f (k x))
  | CreateTemp p pre k => CreateTemp p pre (λ x, prog_bind f (k x))
  | Write p c k => Write p c (λ x, prog_bind f (k x))
  | Read p k => Read p (λ x, prog_bind f (k x))
  | Exists p k => Exists p (λ x, prog_bind f (k x))
  | Rename p q k => Rename p q (λ x, prog_bind f (k x))
  | Link p q k => Link p q (λ x, prog_bind f (k x))
  | Remove p k => Remove p (λ x, prog_bind f (k x))
  | ListShards p k => ListShards p (λ x, prog_bind f (k x))
  | ListObjects p k => ListObjects p (λ x, prog_bind f (k x))
  | LockIndex k => LockIndex (λ x, prog_bind f (k x))
  | UnlockIndex k => UnlockIndex (prog_bind f k)
  | ReadIndex k => ReadIndex (λ x, prog_bind f (k x))
  | PublishIndex i k => PublishIndex i (λ x, prog_bind f (k x))
  end.
#[export] Instance prog_mbind : MBind prog := λ A B, prog_bind.

(** ** The world and its system calls *)

(** [w_issued]: the names [os.CreateTemp] has given out; they are random, and
    taken not to repeat. [w_index]: what reading and decoding index.json gives. *)
Record world := mkWorld { w_disk : gmap path gostring; w_issued : gset path; w_index : result unit (option Index) }.
Definition on_disk (w : world) (d : gmap path gostring) : world := mkWorld d (w_issued w) (w_index w).
Record choice := mkChoice { ch_fails : bool; ch_name : gostring; ch_partial : nat }.
Definition no_fault : choice := mkChoice false [] 0.

Definition os_temp (c : choice) (w : world) (dir : path) (prefix : gostring) : world * option path :=
  let p := dir ++ [prefix ++ ch_name c] in
  if ch_fails c || bool_decide (p ∈ w_issued w) || bool_decide (is_Some (w_disk w !! p)) then (w, None)
  else (mkWorld (<[p := []]> (w_disk w)) ({[p]} ∪ w_issued w) (w_index w), Some p).
(** A write goes to the open file: nowhere when its name is gone. *)
Definition os_write (c : choice) (w : world) (p : path) (b : gostring) : world * bool :=
  let now := if ch_fails c then take (ch_partial c) b else b in
  (match w_disk w !! p with Some _ => on_disk w (<[p := now]> (w_disk w)) | None => w end, negb (ch_fails c)).
Definition os_read (c : choice) (w : world) (p : path) : option gostring :=
  if ch_fails c then None else w_disk w !! p.
Definition os_exists (c : choice) (w : world) (p : path) : bool :=
  negb (ch_fails c) && bool_decide (is_Some (w_disk w !! p)).
Definition os_rename (c : choice) (w : world) (p q : path) : world * bool :=
  match w_disk w !! p with
  | Some b => if ch_fails c then (w, false) else (on_disk w (<[q := b]> (delete p (w_disk w))), true)
  | None => (w, false)
  end.
Definition os_link (c : choice) (w : world) (p q : path) : world * bool :=
  match w_disk w !! p, w_disk w !! q with
  | Some b, None => if ch_fails c then (w, false) else (on_disk w (<[q := b]> (w_disk w)), true)
  | _, _ => (w, false)
  end.
Definition os_remove (c : choice) (w : world) (p : path) : world * bool :=
  match w_disk w !! p with
  | Some _ => if ch_fails c then (w, false) else (on_disk w (delete p (w_disk w)), true)
  | None => (w, false)
  end.
(** What is left of a path below a directory. *)
Fixpoint strip (dir p : path) : option path :=
  match dir, p with
  | [], _ => Some p
  | d :: dir', s :: p' => if bool_decide (d = s) then strip dir' p' else None
  | _, _ => None
  end.
(** The names of the subdirectories, and the files with their sizes, in the
    order of [os.ReadDir]. *)
Definition subdirs (d : gmap path gostring) (dir : path) : list gostring :=
  sort_strings (elements (list_to_set (C := gset gostring)
    (omap (λ kv, match strip dir kv.1 with Some (s :: _ :: _) => Some s | _ => None end) (map_to_list d)))).
Definition files_in (d : gmap path gostring) (dir : path) : list (gostring * Z) :=
  sort_by (λ x y, str_leb x.1 y.1)
    (omap (λ kv, match strip dir kv.1 with Some [n] => Some (n, Z.of_nat (length kv.2)) | _ => None end) (map_to_list d)).
Definition os_list {A : Type} (c : choice) (l : A) : option A := if ch_fails c then None else Some l.
Definition os_publish (c : choice) (w : world) (i : Index) : world * bool :=
  if ch_fails c then (w, false) else (mkWorld (w_disk w) (w_issued w) (Ok (Some i)), true).

(** One call of a program. *)
Definition next {A : Type} (c : choice) (w : world) (m : prog A) : world * prog A :=
  match m with
  | Ret a => (w, Ret a)
  | Mkdir _ k => (w, k (negb (ch_fails c)))
  | CreateTemp p pre k => let '(w', x) := os_temp c w p pre in (w', k x)
  | Write p b k => let '(w', x) := os_write c w p b in (w', k x)
  | Read p k => (w, k (os_read c w p))
  | Exists p k => (w, k (os_exists c w p))
  | Rename p q k => let '(w', x) := os_rename c w p q in (w', k x)
  | Link p q k => let '(w', x) := os_link c w p q in (w', k x)
  | Remove p k => let '(w', x) := os_remove c w p in (w', k x)
  | ListShards p k => (w, k (os_list c (subdirs (w_disk w) p)))
  | ListObjects p k => (w, k (os_list c (files_in (w_disk w) p)))
  | LockIndex k => (w, k (negb (ch_fails c)))
  | UnlockIndex k => (w, k)
  | ReadIndex k => (w, k (if ch_fails c then Err tt else w_index w))
  | PublishIndex i k => let '(w', x) := os_publish c w i in (w', k x)
  end.

(** A program run alone; past the end of the list no call fails. *)
Definition choose (cs : list choice) : choice := default no_fault (head cs).
Fixpoint eval {A} (cs : list choice) (w : world) (m : prog A) : world * A :=
  let c := choose cs in
  match m with
  | Ret a => (w, a)
  | Mkdir _ k => eval (tail cs) w (k (negb (ch_fails c)))
  | CreateTemp p pre k => let r := os_temp c w p pre in eval (tail cs) r.1 (k r.2)
  | Write p b k => let r := os_write c w p b in eval (tail cs) r.1 (k r.2)
  | Read p k => eval (tail cs) w (k (os_read c w p))
  | Exists p k => eval (tail cs) w (k (os_exists c w p))
  | Rename p q k => let r := os_rename c w p q in eval (tail cs) r.1 (k r.2)
  | Link p q k => let r := os_link c w p q in eval (tail cs) r.1 (k r.2)
  | Remove p k => let r := os_remove c w p in eval (tail cs) r.1 (k r.2)
  | ListShards p k => eval (tail cs) w (k (os_list c (subdirs (w_disk w) p)))
  | ListObjects p k => eval (tail cs) w (k (os_list c (files_in (w_disk w) p)))
  | LockIndex k => eval (tail cs) w (k (negb (ch_fails c)))
  | UnlockIndex k => eval (tail cs) w k
  | ReadIndex k => eval (tail cs) w (k (if ch_fails c then Err tt else w_index w))
  | PublishIndex i k => let r := os_publish c w i in eval (tail cs) r.1 (k r.2)
  end.

(** ** The operations *)

Section store.
Context `{UnicodeTables} (root : path).

Definition shardDir (dg : gostring) : path := root ++ [bytes_of "sha256"; take 2 dg].
Definition address (dg : gostring) : gostring * bool := (to_lower dg, Valid (to_lower dg)).
Definition objectPath (dg : gostring) : path := root ++ [bytes_of "sha256"; take 2 dg; dg].
Definition Path (dg : gostring) : option path :=
  let '(dg, ok) := address dg in if ok then Some (objectPath dg) else None.
Definition tmpDir : path := root ++ [bytes_of "sha256"; bytes_of "tmp"].
Definition Dir_of (p : path) : path := removelast p.

Definition Has (dg : gostring) : prog bool :=
  match Path dg with None => mret false | Some p => Exists p mret end.

(** The bytes an [io.ReadAll] of the object's reader gets, checked at the end. *)
Definition OpenRead (dg : gostring) : prog (result Class gostring) :=
  let '(dg, ok) := address dg in
  if negb ok then mret (Err Usage)
  else Read (objectPath dg) (λ c, match c with
    | None => mret (Err Environment)
    | Some b => mret (if streq (Bytes b) dg then Ok b else Err Verification)
    end).

Definition sha256File (p : path) : prog (option (gostring * Z)) :=
  Read p (λ c, mret ((λ b, (Bytes b, Z.of_nat (length b))) <$> c)).
Definition verifyFileDigest (p : path) (want : gostring) : prog (option Class) :=
  h ← sha256File p;
  mret (match h with
        | None => Some Environment
        | Some (got, _) => if streq got want then None else Some Verification
        end).

(** [r]: the bytes the reader gives, and whether it ends in an error. *)
Definition Put (r : gostring * bool) : prog (result Class (gostring * Z)) :=
  Mkdir tmpDir (λ ok, if negb ok then mret (Err Environment) else
  CreateTemp tmpDir "obj-" (λ tmp, match tmp with None => mret (Err Environment) | Some tmp =>
  let cleanup := Remove tmp (λ _, mret (Err Environment)) in
  Write tmp r.1 (λ ok, if negb ok || r.2 then cleanup else
  let dg := Bytes r.1 in
  let n := Z.of_nat (length r.1) in
  match Path dg with
  | None => cleanup
  | Some final =>
      Mkdir (Dir_of final) (λ ok, if negb ok then cleanup else
      Rename tmp final (λ ok, if ok then mret (Ok (dg, n)) else
      has ← Has dg;
      Remove tmp (λ _, mret (if (has : bool) then Ok (dg, n) else Err Environment))))
  end) end)).

Definition putByDedup (p : path) : prog (option (gostring * Z)) :=
  h ← sha256File p;
  match h with
  | None => mret None
  | Some (dg, size) =>
      has ← Has dg;
      if negb has then mret None
      else match Path dg with
      | None => mret None
      | Some o => bad ← verifyFileDigest o dg; mret (match bad with None => Some (dg, size) | Some _ => None end)
      end
  end.

(** [Ok None]: not moved. *)
Definition putByMove (p : path) : prog (result Class (option (gostring * Z))) :=
  Mkdir tmpDir (λ ok, if negb ok then mret (Err Environment) else
  CreateTemp tmpDir "mv-" (λ tmp, match tmp with None => mret (Err Environment) | Some tmp =>
  Remove tmp (λ ok, if negb ok then mret (Err Environment) else
  Rename p tmp (λ ok, if negb ok then mret (Ok None) else
  let restore := Rename tmp p (λ ok, if ok then mret (Err Environment) else Remove tmp (λ _, mret (Err Environment))) in
  h ← sha256File tmp;
  match h with
  | None => restore
  | Some (dg, size) =>
      match Path dg with
      | None => restore
      | Some final =>
          Mkdir (Dir_of final) (λ ok, if negb ok then restore else
          Rename tmp final (λ ok, if ok then mret (Ok (Some (dg, size))) else restore))
      end
  end)) end)).

Definition copy_in (p : path) (moveOK : bool) : prog (result Class (gostring * Z)) :=
  Read p (λ c, match c with
  | None => mret (Err Environment)
  | Some b =>
      r ← Put (b, false);
      match r with
      | Err e => mret (Err e)
      | Ok x => if moveOK then Remove p (λ _, mret (Ok x)) else mret (Ok x)
      end
  end).
Definition PutFile (p : path) (moveOK : bool) : prog (result Class (gostring * Z)) :=
  if moveOK then
    m ← putByMove p;
    match m with Err e => mret (Err e) | Ok (Some x) => mret (Ok x) | Ok None => copy_in p true end
  else
    d ← putByDedup p;
    match d with Some x => mret (Ok x) | None => copy_in p false end.

(** [true] on success. *)
Definition copyToPath (src dest : path) : prog bool :=
  Mkdir (Dir_of dest) (λ ok, if negb ok then mret false else
  Read src (λ c, match c with None => mret false | Some b =>
  CreateTemp (Dir_of dest) ".tmp-" (λ tmp, match tmp with None => mret false | Some tmp =>
  Write tmp b (λ ok, if negb ok then Remove tmp (λ _, mret false) else
  Rename tmp dest (λ ok, if ok then mret true else Remove tmp (λ _, mret false))) end) end)).

Definition Materialise (dg : gostring) (dest : path) : prog (option Class) :=
  let '(dg, ok) := address dg in
  if negb ok then mret (Some Usage) else
  let src := objectPath dg in
  Exists src (λ ok, if negb ok then mret (Some Environment) else
  Mkdir (Dir_of dest) (λ ok, if negb ok then mret (Some Environment) else
  Remove dest (λ _,
  Link src dest (λ linked,
  copied ← (if linked then mret true else copyToPath src dest);
  if negb copied then mret (Some Environment) else
  bad ← verifyFileDigest dest dg;
  match bad with None => mret None | Some _ => Remove dest (λ _, mret (Some Verification)) end)))).

Definition IndexOf (i : result unit (option Index)) : result Class Index :=
  match i with
  | Err _ => Err Environment
  | Ok None => Ok (mkIndex IndexSchemaVersion [])
  | Ok (Some i) => Ok (if streq (ix_SchemaVersion i) "" then mkIndex IndexSchemaVersion (ix_Entries i) else i)
  end.
Definition Index_ : prog (result Class Index) := ReadIndex (λ i, mret (IndexOf i)).
Definition entry_leb (a b : Entry) : bool := str_leb (e_Digest a) (e_Digest b).
Definition writeIndexLocked (i : Index) : prog (option Class) :=
  PublishIndex (mkIndex IndexSchemaVersion (sort_by entry_leb (ix_Entries i)))
    (λ ok, mret (if (ok : bool) then None else Some Environment)).

Fixpoint replace_entry (e : Entry) (l : list Entry) : list Entry :=
  match l with
  | [] => [e]
  | x :: rest => if streq (e_Digest x) (e_Digest e) then e :: rest else x :: replace_entry e rest
  end.
Definition stamp (now : gostring) (e : Entry) : Entry :=
  if streq (e_AddedAt e) ""
  then mkEntry (e_Digest e) (e_Name e) (e_Version e) (e_Arch e) (e_Size e) (e_Filename e) now (e_UserSupplied e) else e.
Definition Record_ (now : gostring) (e : Entry) : prog (option Class) :=
  if streq (e_Digest e) "" then mret (Some Usage) else
  LockIndex (λ ok, if negb ok then mret (Some Environment) else
  i ← Index_;
  match i with
  | Err c => UnlockIndex (mret (Some c))
  | Ok i =>
      r ← writeIndexLocked (mkIndex (ix_SchemaVersion i) (replace_entry (stamp now e) (ix_Entries i)));
      UnlockIndex (mret r)
  end).

Definition kept_stats (n : Z) (s : GCStats) : GCStats :=
  mkStats (gc_Removed s) (gc_Kept s + 1) (gc_BytesFreed s) (gc_BytesRemaining s + n).
Definition removed_stats (n : Z) (s : GCStats) : GCStats :=
  mkStats (gc_Removed s + 1) (gc_Kept s) (gc_BytesFreed s + n) (gc_BytesRemaining s).
Fixpoint gc_objects (keep : gostring → bool) (shard : path) (l : list (gostring * Z)) (st : GCStats) (removed : gset gostring)
    : prog (GCStats * gset gostring * option Class) :=
  match l with
  | [] => mret (st, removed, None)
  | (dg, size) :: rest =>
      if has_prefix "." dg then gc_objects keep shard rest st removed
      else if keep dg then gc_objects keep shard rest (kept_stats size st) removed
      else Remove (shard ++ [dg]) (λ ok, if negb ok then mret (st, removed, Some Environment)
           else gc_objects keep shard rest (removed_stats size st) ({[dg]} ∪ removed))
  end.
Fixpoint gc_shards (keep : gostring → bool) (l : list gostring) (st : GCStats) (removed : gset gostring)
    : prog (GCStats * gset gostring * option Class) :=
  match l with
  | [] => mret (st, removed, None)
  | shard :: rest =>
      if streq shard "tmp" then gc_shards keep rest st removed
      else ListObjects (root ++ [bytes_of "sha256"; shard]) (λ objs, match objs with
        | None => mret (st, removed, Some Environment)
        | Some objs =>
            r ← gc_objects keep (root ++ [bytes_of "sha256"; shard]) objs st removed;
            let '(st, removed, err) := r in
            match err with Some c => mret (st, removed, Some c) | None => gc_shards keep rest st removed end
        end)
  end.
Definition GC (keep : gostring → bool) : prog (GCStats * option Class) :=
  ListShards (root ++ [bytes_of "sha256"]) (λ shards, match shards with
  | None => mret (mkStats 0 0 0 0, Some Environment)
  | Some shards =>
      r ← gc_shards keep shards (mkStats 0 0 0 0) ∅;
      let '(st, removed, err) := r in
      match err with
      | Some c => mret (st, Some c)
      | None =>
          if bool_decide (removed = ∅) then mret (st, None) else
          LockIndex (λ ok, if negb ok then mret (st, Some Environment) else
          i ← Index_;
          match i with
          | Err c => UnlockIndex (mret (st, Some c))
          | Ok i =>
              w ← writeIndexLocked (mkIndex (ix_SchemaVersion i)
                    (List.filter (λ e, negb (bool_decide (e_Digest e ∈ removed))) (ix_Entries i)));
              UnlockIndex (mret (st, w))
          end)
      end
  end).
End store.

(** ** Addresses *)

Section addresses.
Context `{UnicodeTables} (root : path).

Lemma address_Bytes b : address (Bytes b) = (Bytes b, true).
Proof.
  unfold address. assert (to_lower (Bytes b) = Bytes b) as ->; [|by rewrite Bytes_Valid].
  unfold to_lower. rewrite hex_ascii by apply hex_lower_hex, Bytes_hex. apply hex_lower_fixed, Bytes_hex.
Qed.
Lemma Path_Bytes b : Path root (Bytes b) = Some (objectPath root (Bytes b)).
Proof. unfold Path. by rewrite address_Bytes. Qed.
Lemma objectPath_inj dg dg' : objectPath root dg = objectPath root dg' → dg = dg'.
Proof. unfold objectPath. intros E%app_inv_head. by injection E. Qed.

(** The store's own files are those below its [sha256] directory. *)
Definition outside (p : path) : Prop := strip (root ++ [bytes_of "sha256"]) p = None.
Definition staged (p : path) : Prop := ∃ n, p = tmpDir root ++ [n].
(** A file of a shard; the shard names are not ["tmp"]. *)
Definition in_shard (p : path) : Prop := ∃ s n, p = root ++ [bytes_of "sha256"; s; n] ∧ s ≠ "tmp".

Lemma strip_app dir l : strip dir (dir ++ l) = Some l.
Proof. induction dir as [|d dir IH]; [done|]. cbn. by rewrite bool_decide_eq_true_2. Qed.
Lemma strip_Some dir : ∀ p l, strip dir p = Some l → p = dir ++ l.
Proof.
  induction dir as [|d dir IH]; intros p l Hp; [by injection Hp as ->|]. destruct p as [|s p]; [done|]. cbn in Hp.
  destruct (bool_decide (d = s)) eqn:E; [|done]. apply bool_decide_eq_true in E as <-. cbn. f_equal. by apply IH.
Qed.
Lemma below_not_outside l : ¬ outside (root ++ bytes_of "sha256" :: l).
Proof. unfold outside. rewrite (app_assoc root [_] l : root ++ bytes_of "sha256" :: l = _). by rewrite strip_app. Qed.
Lemma outside_not_staged p : outside p → ¬ staged p.
Proof. intros Ho [n ->]. unfold tmpDir in Ho. rewrite <- app_assoc in Ho. by apply below_not_outside in Ho. Qed.
Lemma shard_not_staged p : in_shard p → ¬ staged p.
Proof.
  intros (s & n & -> & Hs) [m E]. unfold tmpDir in E. rewrite <- app_assoc in E. apply app_inv_head in E. by injection E as ->.
Qed.
Lemma take2_tmp dg : take 2 dg ≠ bytes_of "tmp".
Proof. intros E%(f_equal length). rewrite length_take in E. change (length (bytes_of "tmp")) with 3%nat in E. lia. Qed.
Lemma objectPath_shard dg : in_shard (objectPath root dg).
Proof. exists (take 2 dg), dg. split; [done|apply take2_tmp]. Qed.
End addresses.
#[export] Hint Resolve objectPath_shard shard_not_staged outside_not_staged : debark.

(** ** Any number of operations at once *)

Section interleaving.
Context `{UnicodeTables} (root : path).

(** Every object is what its name says. *)
Definition good (w : world) : Prop :=
  ∀ dg b, w_disk w !! objectPath root dg = Some b → Bytes b = dg.

(** What a program may do, given the staging names it holds: [Some b] for a
    file of its own with content [b], [None] for a name it has freed. Only a
    file of its own is published, and only under the digest of its content.
    [Q] holds of what it ends with. *)
Fixpoint valid {A : Type} (Q : gmap path (option gostring) → A → Prop) (own : gmap path (option gostring)) (m : prog A) : Prop :=
  match m with
  | Ret a => Q own a
  | Mkdir _ k => ∀ x, valid Q own (k x)
  | CreateTemp d pre k =>
      valid Q own (k None) ∧
      ((d = tmpDir root ∧ ∀ n, valid Q (<[d ++ [pre ++ n] := Some []]> own) (k (Some (d ++ [pre ++ n])))) ∨
       ∀ n, outside root (d ++ [pre ++ n]) ∧ valid Q own (k (Some (d ++ [pre ++ n]))))
  | Write p b k =>
      ((∃ b0, own !! p = Some (Some b0)) ∧ valid Q (<[p := Some b]> own) (k true) ∧
        ∀ n, valid Q (<[p := Some (take n b)]> own) (k false)) ∨
      (outside root p ∧ ∀ x, valid Q own (k x))
  | Read p k => valid Q own (k None) ∧ ∀ b, (∀ v, own !! p = Some v → v = Some b) → valid Q own (k (Some b))
  | Exists _ k => ∀ x, valid Q own (k x)
  | Rename p q k =>
      valid Q own (k false) ∧
      ((∃ b, own !! p = Some (Some b) ∧ (q = objectPath root (Bytes b) ∨ outside root q) ∧ valid Q (<[p := None]> own) (k true)) ∨
       (outside root p ∧ is_Some (own !! q) ∧ ∀ b, valid Q (<[q := Some b]> own) (k true)) ∨
       (outside root p ∧ outside root q ∧ valid Q own (k true)))
  | Link _ q k => outside root q ∧ ∀ x, valid Q own (k x)
  | Remove p k =>
      valid Q own (k false) ∧
      ((is_Some (own !! p) ∧ valid Q (<[p := None]> own) (k true)) ∨ ((outside root p ∨ in_shard root p) ∧ valid Q own (k true)))
  | ListShards _ k => ∀ x, valid Q own (k x)
  | ListObjects _ k => ∀ x, valid Q own (k x)
  | LockIndex k => ∀ x, valid Q own (k x)
  | UnlockIndex k => valid Q own k
  | ReadIndex k => ∀ x, valid Q own (k x)
  | PublishIndex _ k => ∀ x, valid Q own (k x)
  end.

(** What a program holds, on the disk. *)
Definition holds (own : gmap path (option gostring)) (w : world) : Prop :=
  ∀ p v, own !! p = Some v → staged root p ∧ p ∈ w_issued w ∧ w_disk w !! p = v.

(** What a call of one program leaves true for the others. *)
Definition undisturbed (own : gmap path (option gostring)) (w w' : world) : Prop :=
  w_issued w ⊆ w_issued w' ∧
  ∀ p, staged root p → p ∈ w_issued w → own !! p = None → w_disk w' !! p = w_disk w !! p.

Lemma undisturbed_refl own w : undisturbed own w w.
Proof. by split. Qed.

Lemma good_insert d w p b :
  good w → d = w_disk w ∨ (∃ q, d = delete q (w_disk w)) → (∀ dg, objectPath root dg = p → Bytes b = dg) →
  ∀ i x, good (mkWorld (<[p := b]> d) i x).
Proof.
  intros Hg Hd Hp i x dg b' Hb'. cbn in Hb'. destruct (decide (p = objectPath root dg)) as [->|Hne].
  - rewrite lookup_insert_eq in Hb'. injection Hb' as <-. by apply Hp.
  - rewrite lookup_insert_ne in Hb' by done. apply Hg. destruct Hd as [->|[q ->]]; [done|].
    by apply lookup_delete_Some in Hb' as [_ ?].
Qed.
Lemma good_delete w p : good w → good (on_disk w (delete p (w_disk w))).
Proof. intros Hg dg b Hb. cbn in Hb. apply lookup_delete_Some in Hb as [_ ?]. by apply Hg. Qed.
Lemma not_object p : outside root p ∨ staged root p → ∀ b dg, objectPath root dg = p → Bytes b = dg.
Proof.
  intros [Hp|Hp] b dg <-; exfalso.
  - by apply below_not_outside in Hp.
  - eapply shard_not_staged; [apply objectPath_shard|exact Hp].
Qed.

Lemma holds_insert own w d i p b :
  holds own w → staged root p → p ∈ i → w_issued w ⊆ i →
  (∀ q, staged root q → q ≠ p → d !! q = w_disk w !! q) → d !! p = b →
  holds (<[p := b]> own) (mkWorld d i (w_index w)).
Proof.
  intros Hh Hs Hp Hi Hd Hb q v Hq. destruct (decide (q = p)) as [->|Hne].
  - rewrite lookup_insert_eq in Hq. by injection Hq as <-.
  - rewrite lookup_insert_ne in Hq by done. destruct (Hh q v Hq) as (H1 & H2 & H3).
    split_and!; [done|set_solver|]. cbn. by rewrite Hd.
Qed.
Lemma holds_mono own w d i ix :
  holds own w → w_issued w ⊆ i → (∀ q, staged root q → d !! q = w_disk w !! q) → holds own (mkWorld d i ix).
Proof. intros Hh Hi Hd q v Hq. destruct (Hh q v Hq) as (H1 & H2 & H3). split_and!; [done|set_solver|]. cbn. by rewrite Hd. Qed.
Lemma undisturbed_but own w d i ix p :
  w_issued w ⊆ i → (∀ q, staged root q → q ≠ p → d !! q = w_disk w !! q) →
  (staged root p → p ∈ w_issued w → is_Some (own !! p) ∨ d !! p = w_disk w !! p) → undisturbed own w (mkWorld d i ix).
Proof.
  intros Hi Hd Hp. split; [done|]. intros q Hs Hq Ho. cbn. destruct (decide (q = p)) as [->|?]; [|by apply Hd].
  destruct (Hp Hs Hq) as [Hx|?]; [|done]. rewrite Ho in Hx. by destruct Hx.
Qed.

(** A call keeps the objects good, the program within its rules and the other
    programs' files as they were; a name it takes is a new one. *)
Definition call_ok {A : Type} (Q : gmap path (option gostring) → A → Prop) (own : gmap path (option gostring)) (w : world) (r : world * prog A) : Prop :=
  ∃ own', valid Q own' r.2 ∧ holds own' r.1 ∧ good r.1 ∧ undisturbed own w r.1 ∧
    ∀ p, is_Some (own' !! p) → is_Some (own !! p) ∨ p ∉ w_issued w.

Lemma call_ok_same {A : Type} (Q : gmap path (option gostring) → A → Prop) own w m :
  good w → holds own w → valid Q own m → call_ok Q own w (w, m).
Proof. intros Hg Hh Hv. exists own. split_and!; [done..|apply undisturbed_refl|by left]. Qed.
(** The disk changes at [p], which the program holds before and after, or which is not staged. *)
Lemma call_ok_at {A : Type} (Q : gmap path (option gostring) → A → Prop) own own' w d m p :
  valid Q own' m → good (on_disk w d) → holds own w →
  (∀ q, staged root q → q ≠ p → d !! q = w_disk w !! q) →
  (¬ staged root p ∧ own' = own ∨ is_Some (own !! p) ∧ own' = <[p := d !! p]> own) → call_ok Q own w (on_disk w d, m).
Proof.
  intros Hv Hg Hh Hd Hp. exists own'. split_and!; [done| |done| |].
  - destruct Hp as [[Hs ->]|[[v Hv0] ->]].
    + apply (holds_mono own w); [done|done|]. intros q Hq. apply Hd; [done|]. by intros ->.
    + destruct (Hh p v Hv0) as (H1 & H2 & _). by apply (holds_insert own w).
  - apply (undisturbed_but own w d _ _ p); [done|done|]. intros Hs _. destruct Hp as [[? _]|[? _]]; [done|by left].
  - intros q Hq. left. destruct Hp as [[_ ->]|[Hx ->]]; [done|]. destruct (decide (q = p)) as [->|Hne]; [done|].
    by rewrite lookup_insert_ne in Hq.
Qed.

Lemma call_ok_rename {A : Type} (Q : gmap path (option gostring) → A → Prop) own w p q k c :
  good w → holds own w → valid Q own (Rename p q k) → call_ok Q own w (next c w (Rename p q k)).
Proof.
  intros Hg Hh [Hf Hok]. cbn [next]. unfold os_rename. destruct (w_disk w !! p) as [b|] eqn:Eb; [|by apply call_ok_same].
  destruct (ch_fails c); [by apply call_ok_same|].
  assert (∀ d', d' = delete p (w_disk w) → (∀ dg, objectPath root dg = q → Bytes b = dg) → good (on_disk w (<[q:=b]> d'))) as Hg'.
  { intros d' -> Hq. apply (good_insert _ w); [done|by right; exists p|done]. }
  destruct Hok as [(b' & Ho & Hq & Hv)|[(Hp & [v Ho] & Hv)|(Hp & Hq & Hv)]].
  - destruct (Hh p _ Ho) as (Hs & _ & Hd). rewrite Eb in Hd. injection Hd as <-.
    assert (¬ staged root q) as Hns by (destruct Hq as [->|?]; auto with debark).
    assert (q ≠ p) as Hne by congruence.
    apply (call_ok_at Q own (<[p:=None]> own) w _ _ p); [done| |done| |].
    + apply Hg'; [done|]. intros dg E. destruct Hq as [->|Hq]; [by apply objectPath_inj in E|].
      exact (not_object q (or_introl Hq) b dg E).
    + intros x Hx Hxp. rewrite lookup_insert_ne by congruence. by rewrite lookup_delete_ne.
    + right. split; [done|]. rewrite lookup_insert_ne, lookup_delete_eq by done. done.
  - destruct (Hh q _ Ho) as (Hs & _ & Hd). assert (¬ staged root p) as Hns by auto with debark.
    apply (call_ok_at Q own (<[q:=Some b]> own) w _ _ q); [done| |done| |].
    + apply Hg'; [done|]. apply (not_object q). by right.
    + intros x Hx Hxq. rewrite lookup_insert_ne by done. apply lookup_delete_ne. congruence.
    + right. split; [done|]. by rewrite lookup_insert_eq.
  - assert (¬ staged root p ∧ ¬ staged root q) as [Hns Hnq] by auto with debark.
    apply (call_ok_at Q own own w _ _ q); [done| |done| |by left].
    + apply Hg'; [done|]. apply (not_object q). by left.
    + intros x Hx Hxq. rewrite lookup_insert_ne by done. apply lookup_delete_ne. congruence.
Qed.

Lemma call_ok_next {A : Type} (Q : gmap path (option gostring) → A → Prop) own w m c :
  good w → holds own w → valid Q own m → call_ok Q own w (next c w m).
Proof.
  intros Hg Hh Hv. pose proof (λ m, @call_ok_same A Q own w m Hg Hh) as Hsame.
  destruct m as [a|p k|d pre k|p b k|p k|p k|p q k|p q k|p k|p k|p k|k|k|k|i k]; cbn [valid next] in *;
    try (by apply Hsame); try (apply Hsame, Hv).
  - unfold os_temp. destruct Hv as [Hf Hok].
    destruct (ch_fails c || bool_decide (d ++ [pre ++ ch_name c] ∈ w_issued w) || bool_decide (is_Some (w_disk w !! (d ++ [pre ++ ch_name c])))) eqn:E;
      [by apply Hsame|]. set (p := d ++ [pre ++ ch_name c]) in *. bsplit.
    assert (good (mkWorld (<[p:=[]]> (w_disk w)) ({[p]} ∪ w_issued w) (w_index w))) as Hg'.
    { apply (good_insert _ w); [done|by left|]. apply (not_object p). destruct Hok as [[-> _]|Ho]; [right; by eexists|left; apply Ho]. }
    destruct Hok as [[Hd Hok]|Hok].
    + exists (<[p:=Some []]> own). split_and!; [apply Hok| |done| |].
      * apply (holds_insert own w); [done|exists (pre ++ ch_name c); by rewrite <- Hd|set_solver|set_solver| |by rewrite lookup_insert_eq].
        intros q Hq Hne. by rewrite lookup_insert_ne.
      * apply (undisturbed_but own w _ _ _ p); [set_solver| |done]. intros q Hq Hne. by rewrite lookup_insert_ne.
      * intros q Hq. destruct (decide (q = p)) as [->|Hne]; [by right|]. left. by rewrite lookup_insert_ne in Hq.
    + destruct (Hok (ch_name c)) as [Ho Hv']. exists own. assert (¬ staged root p) as Hns by (by apply outside_not_staged).
      split_and!; [done| |done| |by left].
      * apply (holds_mono own w); [done|set_solver|]. intros q Hq. apply lookup_insert_ne. by intros ->.
      * apply (undisturbed_but own w _ _ _ p); [set_solver| |done]. intros q Hq Hne. by rewrite lookup_insert_ne.
  - unfold os_write. destruct (w_disk w !! p) as [b0|] eqn:Eb.
    2: { apply Hsame. destruct Hv as [((b0 & Ho) & _)|[_ Hv]]; [|apply Hv]. destruct (Hh p _ Ho) as (_ & _ & Hd). congruence. }
    set (now := if ch_fails c then take (ch_partial c) b else b).
    destruct Hv as [((b1 & Ho) & Hv1 & Hv2)|[Ho Hv]].
    + destruct (Hh p _ Ho) as (Hs & _ & _). apply (call_ok_at Q own (<[p:=Some now]> own) w _ _ p).
      * unfold now. destruct (ch_fails c); [apply Hv2|exact Hv1].
      * apply (good_insert _ w); [done|by left|]. apply (not_object p). by right.
      * done.
      * intros q _ Hne. by rewrite lookup_insert_ne.
      * right. split; [done|]. by rewrite lookup_insert_eq.
    + apply (call_ok_at Q own own w _ _ p); [apply Hv| |done| |left; split; [by apply outside_not_staged|done]].
      * apply (good_insert _ w); [done|by left|]. apply (not_object p). by left.
      * intros q _ Hne. by rewrite lookup_insert_ne.
  - unfold os_read. destruct (ch_fails c); [apply Hsame, Hv|]. destruct Hv as [Hv0 Hv].
    destruct (w_disk w !! p) as [b|] eqn:Eb; [|by apply Hsame]. apply Hsame, Hv.
    intros v Hov. destruct (Hh p v Hov) as (_ & _ & Hd). congruence.
  - by apply (call_ok_rename Q own w p q k c).
  - unfold os_link. destruct Hv as [Ho Hv]. destruct (w_disk w !! p) as [b|] eqn:Eb; [|apply Hsame, Hv].
    destruct (w_disk w !! q) eqn:Eq; [apply Hsame, Hv|]. destruct (ch_fails c); [apply Hsame, Hv|].
    apply (call_ok_at Q own own w _ _ q); [apply Hv| |done| |left; split; [by apply outside_not_staged|done]].
    + apply (good_insert _ w); [done|by left|]. apply (not_object q). by left.
    + intros x _ Hne. by rewrite lookup_insert_ne.
  - unfold os_remove. destruct Hv as [Hf Hok]. destruct (w_disk w !! p) as [b|] eqn:Eb; [|by apply Hsame].
    destruct (ch_fails c); [by apply Hsame|].
    destruct Hok as [[Ho Hv]|[Hp Hv]].
    + apply (call_ok_at Q own (<[p:=None]> own) w _ _ p); [done|by apply good_delete|done| |].
      * intros q _ Hne. by rewrite lookup_delete_ne.
      * right. split; [done|]. by rewrite lookup_delete_eq.
    + apply (call_ok_at Q own own w _ _ p); [done|by apply good_delete|done| |].
      * intros q _ Hne. by rewrite lookup_delete_ne.
      * left. split; [|done]. destruct Hp; auto with debark.
  - unfold os_publish. destruct (ch_fails c); [apply Hsame, Hv|]. exists own.
    split_and!; [apply Hv|by apply (holds_mono own w)|done|by split|by left].
Qed.
End interleaving.

Section rules.
Context `{UnicodeTables} (root : path).

Lemma valid_bind {A B : Type} (Q : gmap path (option gostring) → B → Prop) (f : A → prog B) m : ∀ own,
  valid root (λ own' a, valid root Q own' (f a)) own m → valid root Q own (m ≫= f).
Proof.
  change (m ≫= f) with (prog_bind f m).
  induction m; intros own Hv; cbn [valid prog_bind] in *; try (by auto); naive_solver.
Qed.
Lemma valid_mono {A : Type} (Q Q' : gmap path (option gostring) → A → Prop) m : ∀ own,
  (∀ own a, Q own a → Q' own a) → valid root Q own m → valid root Q' own m.
Proof. induction m; intros own HQ Hv; cbn [valid] in *; try (by eauto); naive_solver. Qed.

(** A name next to a file outside the store is outside the store. *)
Lemma outside_sibling dest n : outside root dest → outside root (Dir_of dest ++ [bytes_of ".tmp-" ++ n]).
Proof.
  unfold outside, Dir_of. intros Ho. destruct (strip _ (removelast dest ++ _)) as [l|] eqn:E; [|done]. exfalso.
  apply strip_Some in E. destruct (snoc_cases l) as [->|(l' & x & ->)].
  - rewrite app_nil_r in E. apply app_inj_2 in E as [_ E]; [|done]. by injection E.
  - rewrite app_assoc in E. apply app_inj_2 in E as [E _]; [|done].
    destruct (decide (dest = [])) as [->|Hne].
    + apply (f_equal length) in E. rewrite !length_app in E. cbn in E. lia.
    + rewrite (app_removelast_last ("" : gostring) Hne), E, <- app_assoc, strip_app in Ho. done.
Qed.

Definition anything {A : Type} : gmap path (option gostring) → A → Prop := λ _ _, True.
Ltac vstep := first [ progress cbn [valid mret prog_ret] | progress intros | split ].

Lemma Has_valid own dg Q : (∀ x, Q own x) → valid root Q own (Has root dg).
Proof. intros HQ. unfold Has. destruct (Path root dg); repeat vstep; apply HQ. Qed.

Lemma Put_valid own r : valid root anything own (Put root r).
Proof.
  unfold Put. intros [|]; [|done]. cbn [negb]. split; [done|]. left. split; [done|]. intros n.
  set (tmp := tmpDir root ++ _).
  assert (∀ own b, own !! tmp = Some b → valid root anything own (Remove tmp (λ _, mret (Err Environment : result Class (gostring * Z))))) as Hclean.
  { intros own' b Hb. split; [done|]. left. split; [by eexists|done]. }
  left. split_and!; [exists []; by rewrite lookup_insert_eq| |].
  2: { intros m. cbn. eapply Hclean. by rewrite lookup_insert_eq. }
  cbn [negb orb]. destruct r.2; [eapply Hclean; by rewrite lookup_insert_eq|].
  rewrite Path_Bytes. intros [|]; cbn [negb]; [|eapply Hclean; by rewrite lookup_insert_eq].
  split.
  - apply valid_bind, Has_valid. intros x. cbn [valid]. split; [destruct x; done|]. left. split; [eexists; by rewrite lookup_insert_eq|by destruct x].
  - left. exists r.1. split_and!; [by rewrite lookup_insert_eq|by left|done].
Qed.

Lemma copy_in_valid own p mv : outside root p → valid root anything own (copy_in root p mv).
Proof.
  intros Ho. unfold copy_in. split; [done|]. intros b _. apply valid_bind.
  eapply valid_mono; [|apply Put_valid]. intros own' [x|e] _; [|done]. destruct mv; [|done].
  split; [done|]. right. split; [by left|done].
Qed.
Lemma verify_valid own p want Q : (∀ x, Q own x) → valid root Q own (verifyFileDigest p want).
Proof. intros HQ. unfold verifyFileDigest, sha256File. apply valid_bind. split; [|intros b _]; apply HQ. Qed.

Lemma PutFile_valid own p mv : outside root p → valid root anything own (PutFile root p mv).
Proof.
  intros Ho. unfold PutFile. destruct mv; apply valid_bind.
  - unfold putByMove. intros [|]; [|done]. cbn [negb]. split; [done|]. left. split; [done|]. intros n.
    set (tmp := tmpDir root ++ _). split; [done|]. left. split; [eexists; by rewrite lookup_insert_eq|]. cbn [negb].
    split; [by apply copy_in_valid|]. right. left. split_and!; [done|eexists; by rewrite lookup_insert_eq|]. intros b. cbn [negb].
    rewrite !insert_insert_eq. pose proof (lookup_insert_eq own tmp (Some b)) as Hown.
    set (own' := <[tmp:=Some b]> own) in *.
    assert (valid root (λ own' a, valid root anything own' (match a : result Class (option (gostring * Z)) with
       Err e => mret (Err e) | Ok (Some x) => mret (Ok x) | Ok None => copy_in root p true end)) own'
       (Rename tmp p (λ ok, if ok then mret (Err Environment) else Remove tmp (λ _, mret (Err Environment))))) as Hrestore.
    { split; [split; [done|]; left; split; [by eexists|done]|]. left. exists b. split_and!; [done|by right|done]. }
    unfold sha256File. apply valid_bind. split; [exact Hrestore|]. intros b' Hb'.
    specialize (Hb' _ Hown). injection Hb' as <-. cbn [valid mret prog_ret fmap option_fmap option_map]. rewrite Path_Bytes.
    intros [|]; cbn [negb]; [|exact Hrestore]. split; [exact Hrestore|]. left. exists b. split_and!; [done|by left|done].
  - unfold putByDedup, sha256File. apply valid_bind.
    assert (valid root anything own (copy_in root p false)) as Hc by (by apply copy_in_valid).
    split; [exact Hc|]. intros b _. cbn [valid mret prog_ret fmap option_fmap option_map]. apply valid_bind, Has_valid. intros [|]; [|exact Hc].
    cbn [negb]. rewrite Path_Bytes. apply valid_bind, verify_valid. intros [c|]; [exact Hc|done].
Qed.

Lemma OpenRead_valid own dg : valid root anything own (OpenRead root dg).
Proof. unfold OpenRead, address. destruct (Valid _); [|done]. split; [done|]. by intros b _. Qed.

Lemma copyToPath_valid own src dest Q :
  outside root dest → (∀ x, Q own x) → valid root Q own (copyToPath src dest).
Proof.
  intros Ho HQ. unfold copyToPath. intros [|]; cbn [negb]; [|apply HQ]. split; [apply HQ|]. intros b _.
  split; [apply HQ|]. right. intros n. set (tmp := Dir_of dest ++ _).
  assert (outside root tmp) as Htmp by (by apply outside_sibling). split; [done|].
  right. split; [done|]. intros [|]; cbn [negb].
  - split; [|right; right; split_and!; [done|done|apply HQ]].
    split; [apply HQ|]. right. split; [by left|apply HQ].
  - split; [apply HQ|]. right. split; [by left|apply HQ].
Qed.
Lemma Materialise_valid own dg dest : outside root dest → valid root anything own (Materialise root dg dest).
Proof.
  intros Ho. unfold Materialise, address. destruct (Valid _); [|done]. cbn [negb]. intros [|]; [|done]. intros [|]; [|done].
  cbn [negb]. assert (∀ Q : gmap path (option gostring) → option Class → Prop, (∀ x, Q own x) → ∀ k, (∀ x, valid root Q own (k x)) →
    valid root Q own (Remove dest k)) as Hrm.
  { intros Q HQ k Hk. split; [apply Hk|]. right. split; [by left|apply Hk]. }
  apply Hrm; [done|]. intros _. split; [done|]. intros linked. apply valid_bind.
  assert (∀ x : bool, valid root anything own (if negb x then mret (Some Environment) else
    bad ← verifyFileDigest dest (to_lower dg);
    match bad with None => mret None | Some _ => Remove dest (λ _, mret (Some Verification)) end)) as Hrest.
  { intros [|]; cbn [negb]; [|done]. apply valid_bind, verify_valid. intros [c|]; [|done]. by apply Hrm. }
  destruct linked; [apply Hrest|]. apply copyToPath_valid; [done|apply Hrest].
Qed.

Lemma Record_valid own now e : valid root anything own (Record_ now e).
Proof.
  unfold Record_. destruct (streq _ _); [done|]. intros [|]; [|done]. cbn [negb]. apply valid_bind. intros i.
  cbn. destruct (IndexOf i); [|done]. cbn. by intros [|].
Qed.

Lemma gc_objects_valid own keep shard l Q : shard ≠ bytes_of "tmp" → (∀ x, Q own x) → ∀ st removed,
  valid root Q own (gc_objects keep (root ++ [bytes_of "sha256"; shard]) l st removed).
Proof.
  intros Hs HQ. induction l as [|[dg size] l IH]; intros st removed; cbn [gc_objects]; [apply HQ|].
  destruct (has_prefix _ _); [apply IH|]. destruct (keep dg); [apply IH|].
  split; [apply HQ|]. right. split; [right|apply IH]. exists shard, dg. split; [by rewrite <- app_assoc|done].
Qed.
Lemma gc_shards_valid own keep l Q : (∀ x, Q own x) → ∀ st removed, valid root Q own (gc_shards root keep l st removed).
Proof.
  intros HQ. induction l as [|shard l IH]; intros st removed; cbn [gc_shards]; [apply HQ|].
  destruct (streq shard "tmp") eqn:E; [apply IH|]. apply streq_false_iff in E.
  intros [objs|]; [|apply HQ]. apply valid_bind, gc_objects_valid; [done|].
  intros [[st' removed'] [c|]]; [apply HQ|apply IH].
Qed.
Lemma GC_valid own keep : valid root anything own (GC root keep).
Proof.
  unfold GC. intros [shards|]; [|done]. apply valid_bind, gc_shards_valid. intros [[st removed] [c|]]; [done|].
  destruct (bool_decide _); [done|]. intros [|]; [|done]. cbn [negb]. apply valid_bind. intros i.
  cbn. destruct (IndexOf i); [|done]. cbn. by intros [|].
Qed.
End rules.

(** ** The operations of clients *)

Inductive op :=
| OpPut (r : gostring * bool) | OpPutFile (p : path) (moveOK : bool) | OpRead (dg : gostring)
| OpMaterialise (dg : gostring) (dest : path) | OpIndex | OpRecord (now : gostring) (e : Entry)
| OpGC (keep : gostring → bool).
Inductive outcome :=
| Stored (r : result Class (gostring * Z)) | Content (r : result Class gostring) | Status (r : option Class)
| Entries (r : result Class Index) | Collected (st : GCStats) (err : option Class).

Section clients.
Context `{UnicodeTables} (root : path).
Definition run_op (o : op) : prog outcome :=
  match o with
  | OpPut r => x ← Put root r; mret (Stored x)
  | OpPutFile p mv => x ← PutFile root p mv; mret (Stored x)
  | OpRead dg => x ← OpenRead root dg; mret (Content x)
  | OpMaterialise dg dest => x ← Materialise root dg dest; mret (Status x)
  | OpIndex => x ← Index_; mret (Entries x)
  | OpRecord now e => x ← Record_ now e; mret (Status x)
  | OpGC keep => x ← GC root keep; mret (Collected x.1 x.2)
  end.
(** The files clients hand in and ask for are not the store's own. *)
Definition allowed (o : op) : Prop :=
  match o with OpPutFile p _ => outside root p | OpMaterialise _ dest => outside root dest | _ => True end.

Lemma run_op_valid own o : allowed o → valid root anything own (run_op o).
Proof.
  intros Ho. destruct o; cbn [run_op allowed] in *; try (by intros i); apply valid_bind;
    (eapply valid_mono; [|eauto using Put_valid, PutFile_valid, OpenRead_valid, Materialise_valid, Record_valid, GC_valid]); done.
Qed.

(** Programs that run together: each call is made by one of them and is
    atomic; between calls anyone may change files that are not the store's, and
    a client may start another operation. *)
Inductive step : world * list (prog outcome) → world * list (prog outcome) → Prop :=
| step_call w ps i m c w' m' :
    ps !! i = Some m → next c w m = (w', m') → step (w, ps) (w', <[i := m']> ps)
| step_start w ps o : allowed o → step (w, ps) (w, ps ++ [run_op o])
| step_outside w w' ps :
    w_issued w ⊆ w_issued w' → (∀ p, ¬ outside root p → w_disk w' !! p = w_disk w !! p) → step (w, ps) (w', ps).

(** The invariant of a running store: every program is within its rules with
    the staging names it holds, and no two hold the same. *)
Definition consistent (s : world * list (prog outcome)) : Prop :=
  good root s.1 ∧ ∃ owns, Forall2 (λ own m, valid root anything own m ∧ holds root own s.1) owns s.2 ∧
    ∀ i j own own' p, owns !! i = Some own → owns !! j = Some own' → is_Some (own !! p) → is_Some (own' !! p) → i = j.

Lemma holds_undisturbed own own' w w' :
  holds root own' w → undisturbed root own w w' → (∀ p, is_Some (own' !! p) → own !! p = None) → holds root own' w'.
Proof.
  intros Hh [Hi Hd] Hdis p v Hp. destruct (Hh p v Hp) as (Hs & Hiss & Hv). split_and!; [done|set_solver|].
  rewrite Hd; [done|done|done|]. apply Hdis. by eexists.
Qed.
Lemma consistent_step s s' : step s s' → consistent s → consistent s'.
Proof.
  intros Hstep [Hg (owns & Hall & Hdis)]. destruct Hstep as [w ps i m c w' m' Hm Hn|w ps o Ho|w w' ps Hi Ho]; cbn [fst snd] in *.
  - destruct (Forall2_lookup_r _ _ _ _ _ Hall Hm) as (own & Hown & Hv & Hh).
    destruct (call_ok_next root anything own w m c Hg Hh Hv) as (own' & Hv' & Hh' & Hg' & Hu & Hnew). rewrite Hn in *. cbn [fst snd] in *.
    assert (∀ j own2 p, owns !! j = Some own2 → j ≠ i → is_Some (own2 !! p) → own !! p = None ∧ p ∈ w_issued w) as Hother.
    { intros j own2 p Hj Hji Hp. split.
      - apply eq_None_not_Some. intros Hp'. by apply Hji, (Hdis j i own2 own p).
      - destruct (Forall2_lookup_l _ _ _ _ _ Hall Hj) as (m2 & _ & _ & Hh2). destruct Hp as [v Hp]. by destruct (Hh2 p v Hp) as (_ & ? & _). }
    split; [done|]. exists (<[i := own']> owns). cbn [fst snd]. split.
    + apply Forall2_same_length_lookup. cbn [fst snd]. split; [rewrite !length_insert; exact (Forall2_length _ _ _ Hall)|].
      intros j x y Hx Hy. destruct (decide (j = i)) as [->|Hji].
      * apply lookup_lt_Some in Hown, Hm. rewrite list_lookup_insert_eq in Hx by done. rewrite list_lookup_insert_eq in Hy by done. by simplify_eq.
      * rewrite list_lookup_insert_ne in Hx by done. rewrite list_lookup_insert_ne in Hy by done.
        destruct (Forall2_lookup_lr _ _ _ _ _ _ Hall Hx Hy) as [Hvx Hhx]. split; [done|].
        apply (holds_undisturbed own x w); [done|done|]. intros p Hp. by destruct (Hother j x p Hx Hji Hp).
    + intros a b oa ob p Ha Hb Hpa Hpb. destruct (decide (a = i)) as [->|Hai], (decide (b = i)) as [->|Hbi]; [done|..].
      * exfalso. rewrite list_lookup_insert_eq in Ha by (by apply lookup_lt_Some in Hown). injection Ha as <-.
        rewrite list_lookup_insert_ne in Hb by done. destruct (Hother b ob p Hb Hbi Hpb) as [Hnone Hiss].
        destruct (Hnew p Hpa) as [Hx|Hx]; [rewrite Hnone in Hx; by destruct Hx|done].
      * exfalso. rewrite list_lookup_insert_eq in Hb by (by apply lookup_lt_Some in Hown). injection Hb as <-.
        rewrite list_lookup_insert_ne in Ha by done. destruct (Hother a oa p Ha Hai Hpa) as [Hnone Hiss].
        destruct (Hnew p Hpb) as [Hx|Hx]; [rewrite Hnone in Hx; by destruct Hx|done].
      * rewrite list_lookup_insert_ne in Ha, Hb by done. by apply (Hdis a b oa ob p).
  - split; [done|]. exists (owns ++ [∅]). cbn [fst snd]. split.
    + apply Forall2_app; [done|]. constructor; [|constructor]. split; [by apply run_op_valid|]. intros p v Hp. by rewrite lookup_empty in Hp.
    + intros a b oa ob p Ha Hb Hpa Hpb.
      apply lookup_app_Some in Ha as [Ha|[_ Ha]], Hb as [Hb|[_ Hb]]; [by apply (Hdis a b oa ob p)|..].
      all: apply list_lookup_singleton_Some in Ha as [_ <-] || apply list_lookup_singleton_Some in Hb as [_ <-].
      all: rewrite lookup_empty in *; by destruct Hpa || destruct Hpb.
  - split.
    + intros dg b Hb. apply Hg. rewrite <- Ho; [done|]. apply below_not_outside.
    + exists owns. cbn [fst snd]. split; [|done]. eapply Forall2_impl; [exact Hall|]. intros own m [Hv Hh]. split; [done|].
      intros p v Hp. destruct (Hh p v Hp) as (Hs & Hiss & Hv'). split_and!; [done|set_solver|].
      rewrite Ho; [done|]. intros Hout. by apply (outside_not_staged root p).
Qed.

(** (C9) At no moment does the store show a wrong object: in every state that
    any number of operations reaches, interleaved call by call with each other
    and with changes to other files, each call failing or not, what is under the
    path of a digest hashes to that digest, provided it did at the start. *)
Theorem objects_always_good w s :
  good root w → rtc step (w, []) s → ∀ dg b, w_disk s.1 !! objectPath root dg = Some b → Bytes b = dg.
Proof.
  intros Hg Hs. assert (consistent s) as [Hgood _]; [|exact Hgood].
  revert s Hs. apply (rtc_ind_r consistent).
  - split; [done|]. exists []. split; [constructor|]. intros i j own own' p Hi. by rewrite lookup_nil in Hi.
  - intros y z _ Hyz. by apply consistent_step.
Qed.
End clients.

(** ** One operation alone *)

Section alone.
Context `{UnicodeTables} (root : path).

(** [Q] holds at the end of a program, whatever the choices. *)
Fixpoint always {A : Type} (m : prog A) (Q : world → A → Prop) (w : world) : Prop :=
  match m with
  | Ret a => Q w a
  | Mkdir _ k => ∀ x, always (k x) Q w
  | CreateTemp p pre k => ∀ c, always (k (os_temp c w p pre).2) Q (os_temp c w p pre).1
  | Write p b k => ∀ c, always (k (os_write c w p b).2) Q (os_write c w p b).1
  | Read p k => ∀ c, always (k (os_read c w p)) Q w
  | Exists p k => ∀ c, always (k (os_exists c w p)) Q w
  | Rename p q k => ∀ c, always (k (os_rename c w p q).2) Q (os_rename c w p q).1
  | Link p q k => ∀ c, always (k (os_link c w p q).2) Q (os_link c w p q).1
  | Remove p k => ∀ c, always (k (os_remove c w p).2) Q (os_remove c w p).1
  | ListShards p k => ∀ c, always (k (os_list c (subdirs (w_disk w) p))) Q w
  | ListObjects p k => ∀ c, always (k (os_list c (files_in (w_disk w) p))) Q w
  | LockIndex k => ∀ x, always (k x) Q w
  | UnlockIndex k => always k Q w
  | ReadIndex k => ∀ c, always (k (if ch_fails c then Err tt else w_index w)) Q w
  | PublishIndex i k => ∀ c, always (k (os_publish c w i).2) Q (os_publish c w i).1
  end.
Lemma always_eval {A : Type} (m : prog A) Q : ∀ cs w, always m Q w → Q (eval cs w m).1 (eval cs w m).2.
Proof. induction m; intros cs w Hm; cbn [always eval] in *; auto. Qed.
Lemma always_bind {A B : Type} (m : prog A) (f : A → prog B) Q : ∀ w,
  always m (λ w' a, always (f a) Q w') w → always (m ≫= f) Q w.
Proof. change (m ≫= f) with (prog_bind f m). induction m; intros w Hm; cbn [always prog_bind] in *; auto. Qed.
Lemma always_mono {A : Type} (m : prog A) (Q Q' : world → A → Prop) : ∀ w,
  (∀ w' a, Q w' a → Q' w' a) → always m Q w → always m Q' w.
Proof. induction m; intros w HQ Hm; cbn [always] in *; eauto. Qed.

(** What the store is about: paths that are not staging files. *)
Definition frame (P : path → Prop) (w w' : world) : Prop :=
  w_index w' = w_index w ∧ ∀ p, ¬ staged root p → ¬ P p → w_disk w' !! p = w_disk w !! p.
Abbreviation unchanged := (frame (λ _, False)).

Lemma frame_refl P w : frame P w w.
Proof. by split. Qed.
Lemma frame_trans P w w1 w2 : frame P w w1 → frame P w1 w2 → frame P w w2.
Proof. intros [H1 H2] [H3 H4]. split; [congruence|]. intros p Hs Hp. by rewrite H4, H2. Qed.
Lemma frame_weaken (P P' : path → Prop) w w' : (∀ p, P p → P' p) → frame P w w' → frame P' w w'.
Proof. intros HP [H1 H2]. split; [done|]. intros p Hs Hp. apply H2; [done|]. intros ?. by apply Hp, HP. Qed.
Lemma frame_any P w w' : unchanged w w' → frame P w w'.
Proof. by apply frame_weaken. Qed.
Lemma unchanged_at w w' p : unchanged w w' → ¬ staged root p → w_disk w' !! p = w_disk w !! p.
Proof. intros [_ Hw] Hp. apply Hw; auto. Qed.
Lemma frame_staged P w d : (∀ p, ¬ staged root p → d !! p = w_disk w !! p) → frame P w (on_disk w d).
Proof. intros Hd. split; [done|]. intros p Hs _. by apply Hd. Qed.

(** The calls, as rules: what is known after each. *)
Lemma os_temp_spec c w d pre :
  os_temp c w d pre = (w, None) ∨
  ∃ n, w_disk w !! (d ++ [pre ++ n]) = None ∧
    os_temp c w d pre = (mkWorld (<[d ++ [pre ++ n] := []]> (w_disk w)) ({[d ++ [pre ++ n]]} ∪ w_issued w) (w_index w), Some (d ++ [pre ++ n])).
Proof.
  unfold os_temp. destruct (ch_fails c || _ || _) eqn:E; [by left|]. right. exists (ch_name c). bsplit.
  split; [|done]. by apply eq_None_not_Some.
Qed.
Lemma os_remove_spec c w p : os_remove c w p = (w, false) ∨ os_remove c w p = (on_disk w (delete p (w_disk w)), true).
Proof. unfold os_remove. destruct (w_disk w !! p); [|by left]. destruct (ch_fails c); [by left|by right]. Qed.
Lemma os_rename_spec c w p q :
  os_rename c w p q = (w, false) ∨
  ∃ b, w_disk w !! p = Some b ∧ os_rename c w p q = (on_disk w (<[q := b]> (delete p (w_disk w))), true).
Proof. unfold os_rename. destruct (w_disk w !! p) as [b|]; [|by left]. destruct (ch_fails c); [by left|right; eauto]. Qed.
Lemma os_read_spec c w p : os_read c w p = None ∨ os_read c w p = w_disk w !! p.
Proof. unfold os_read. destruct (ch_fails c); auto. Qed.

(** Removing a staging file changes nothing; so does dropping a path in [P]. *)
Lemma frame_remove P c w p : staged root p ∨ P p → frame P w (os_remove c w p).1.
Proof.
  intros Hp. destruct (os_remove_spec c w p) as [->| ->]; [apply frame_refl|]. split; [done|]. intros q Hs Hq. cbn.
  apply lookup_delete_ne. intros ->. by destruct Hp.
Qed.
Lemma always_remove {A : Type} P (Q : world → A → Prop) w p k :
  staged root p ∨ P p → (∀ w' x, frame P w w' → always (k x) Q w') → always (Remove p k) Q w.
Proof. intros Hp Hk c. apply Hk. by apply frame_remove. Qed.

(** [stored b w w']: afterwards the object of [b] is there: [b] itself, or what was there before. *)
Definition stored (b : gostring) (w w' : world) : Prop :=
  w_disk w' !! objectPath root (Bytes b) = Some b ∨
  w_disk w' !! objectPath root (Bytes b) = w_disk w !! objectPath root (Bytes b) ∧
    is_Some (w_disk w !! objectPath root (Bytes b)).
Abbreviation at_obj b := (λ p : path, p = objectPath root (Bytes b)).

Lemma Has_always dg (Q : world → bool → Prop) w :
  (∀ x : bool, (x = true → ∃ p, Path root dg = Some p ∧ is_Some (w_disk w !! p)) → Q w x) → always (Has root dg) Q w.
Proof.
  intros HQ. unfold Has. destruct (Path root dg) as [p|]; cbn; [|by apply HQ]. intros c. apply HQ. unfold os_exists.
  destruct (ch_fails c); [done|]. cbn. intros E%bool_decide_eq_true. eauto.
Qed.

Lemma Put_always b bad w :
  always (Put root (b, bad)) (λ w' x, match x with
    | Ok (dg, n) => (dg, n) = (Bytes b, Z.of_nat (length b)) ∧ bad = false ∧ frame (at_obj b) w w' ∧ stored b w w'
    | Err e => e = Environment ∧ unchanged w w'
    end) w.
Proof.
  unfold Put. intros [|]; [|by split; [|apply frame_refl]]. cbn [negb]. intros c.
  destruct (os_temp_spec c w (tmpDir root) "obj-") as [->|(n & Hnew & ->)]; [by split; [|apply frame_refl]|].
  set (tmp := tmpDir root ++ [_]) in *. cbn [fst snd].
  assert (staged root tmp) as Hs by (by eexists).
  assert (∀ d i, (∀ p, p ≠ tmp → d !! p = w_disk w !! p) → unchanged w (mkWorld d i (w_index w))) as Hun.
  { intros d i Hd. split; [done|]. intros p Hp _. apply Hd. by intros ->. }
  assert (∀ w1, unchanged w w1 → always (Remove tmp (λ _, mret (Err Environment))) (λ w' (x : result Class (gostring * Z)), match x with
    | Ok (dg, n) => (dg, n) = (Bytes b, Z.of_nat (length b)) ∧ bad = false ∧ frame (at_obj b) w w' ∧ stored b w w'
    | Err e => e = Environment ∧ unchanged w w' end) w1) as Hclean.
  { intros w1 H1. apply (always_remove (λ _, False)); [by left|]. intros w2 _ H2. split; [done|]. by eapply frame_trans. }
  intros c2. unfold os_write. cbn [w_disk]. rewrite lookup_insert_eq. cbn [fst snd]. rewrite insert_insert_eq.
  set (now := if ch_fails c2 then _ else _).
  destruct (negb (negb (ch_fails c2)) || bad) eqn:Ebad; [apply Hclean, Hun; intros p Hp; by rewrite lookup_insert_ne|].
  bsplit. assert (now = b) as Hnow by (unfold now; by rewrite H0). clearbody now. subst now.
  rewrite Path_Bytes. set (w1 := on_disk _ _).
  assert (unchanged w w1) as Hw1 by (apply Hun; intros p Hp; by rewrite lookup_insert_ne).
  assert (w_disk w1 !! tmp = Some b) as Htmp by (by cbn; rewrite lookup_insert_eq).
  assert (objectPath root (Bytes b) ≠ tmp) as Hne.
  { intros E. apply (shard_not_staged root tmp); [rewrite <- E; apply objectPath_shard|done]. }
  intros [|]; cbn [negb]; [|by apply Hclean]. intros c3.
  destruct (os_rename_spec c3 w1 tmp (objectPath root (Bytes b))) as [->|(b' & Hb' & ->)]; cbn [fst snd].
  - apply always_bind, Has_always. intros x Hx. apply (always_remove (λ _, False)); [by left|]. intros w2 _ Hw2.
    assert (unchanged w w2) as Hw by (by eapply frame_trans). destruct x; [|by split]. cbn.
    split_and!; [done|done|by apply frame_any|]. right.
    destruct (Hx eq_refl) as (p & Hp & Hsome). rewrite Path_Bytes in Hp. injection Hp as <-.
    assert (¬ staged root (objectPath root (Bytes b))) as Hns by eauto with debark.
    destruct Hw as [_ Hw]. rewrite Hw by auto. split; [done|]. destruct Hw1 as [_ Hw1]. rewrite <- Hw1 by auto. exact Hsome.
  - rewrite Htmp in Hb'. injection Hb' as <-. cbn. split_and!; [done|done| |].
    + apply (frame_trans _ _ w1); [by apply frame_any|]. split; [done|]. intros p Hp Hpo.
      cbn [w_disk on_disk]. rewrite lookup_insert_ne by congruence. rewrite lookup_delete_ne; [done|]. by intros ->.
    + left. cbn. by rewrite lookup_insert_eq.
Qed.

(** The caller's file after a call that may take it. *)
Definition spared (mv : bool) (p : path) (w w' : world) : Prop :=
  w_disk w' !! p = w_disk w !! p ∨ mv = true ∧ w_disk w' !! p = None.
Definition put_file_ok (p : path) (mv : bool) (w w' : world) (x : result Class (gostring * Z)) : Prop :=
  spared mv p w w' ∧
  match x with
  | Ok (dg, n) => ∃ b, w_disk w !! p = Some b ∧ (dg, n) = (Bytes b, Z.of_nat (length b)) ∧
      frame (λ q, q = objectPath root (Bytes b) ∨ q = p) w w' ∧ stored b w w'
  | Err _ => frame (λ q, q = p) w w'
  end.
Lemma outside_not_object p dg : outside root p → p ≠ objectPath root dg.
Proof. intros Ho ->. by apply below_not_outside in Ho. Qed.

Lemma copy_in_always p mv w w0 :
  outside root p → unchanged w0 w → always (copy_in root p mv) (put_file_ok p mv w0) w.
Proof.
  intros Ho Hw0. assert (¬ staged root p) as Hns by (by apply outside_not_staged).
  assert (w_disk w !! p = w_disk w0 !! p) as Hp by (by apply unchanged_at).
  unfold copy_in. intros c. destruct (os_read c w p) as [b|] eqn:Eb.
  2: { split; [by left|]. by apply frame_any. }
  destruct (os_read_spec c w p) as [E|E]; rewrite Eb in E; [done|]. symmetry in E.
  apply always_bind. eapply always_mono; [|apply Put_always]. intros w1 [[dg n]|e]; cbn beta iota.
  - intros (Hx & _ & Hf & Hst).
    assert (frame (λ q, q = objectPath root (Bytes b) ∨ q = p) w0 w1) as Hf1.
    { eapply frame_trans; [by apply frame_any|]. eapply frame_weaken; [|exact Hf]. by left. }
    assert (w_disk w1 !! p = w_disk w !! p) as Hp1.
    { destruct Hf as [_ Hf]. apply Hf; [done|]. by apply outside_not_object. }
    assert (∀ w2, (∀ q, q = objectPath root (Bytes b) → w_disk w2 !! q = w_disk w1 !! q) → stored b w0 w2) as Hst2.
    { intros w2 Hq. unfold stored. rewrite Hq by done. rewrite <- (unchanged_at w0 w); [exact Hst|done|eauto with debark]. }
    destruct mv.
    + intros c2. cbn. destruct (os_remove_spec c2 w1 p) as [->| ->]; cbn.
      * split; [left; congruence|]. exists b. split_and!; [congruence|done|done|by apply Hst2].
      * split; [right; split; [done|apply lookup_delete_eq]|]. exists b. split_and!; [congruence|done| |].
        -- eapply frame_trans; [exact Hf1|]. split; [done|]. intros q _ Hq. cbn. apply lookup_delete_ne. intros ->. apply Hq. by right.
        -- apply Hst2. intros q ->. cbn. apply lookup_delete_ne. by apply outside_not_object.
    + cbn. split; [left; congruence|]. exists b. split_and!; [congruence|done|done|by apply Hst2].
  - intros [-> Hf]. cbn. assert (unchanged w0 w1) as Hf1 by (by eapply frame_trans). split; [|by apply frame_any].
    left. by apply unchanged_at.
Qed.

(** The file has been renamed to the staging name [tmp]. *)
Definition moved (p tmp : path) (b : gostring) (w w' : world) : Prop :=
  frame (λ q, q = p) w w' ∧ w_disk w' !! p = None ∧ w_disk w' !! tmp = Some b ∧ w_disk w !! p = Some b.

Lemma restore_always {A : Type} (Q : world → A → Prop) p tmp b w0 w (a : A) :
  outside root p → staged root tmp → moved p tmp b w0 w →
  (∀ w', frame (λ q, q = p) w0 w' → spared true p w0 w' → Q w' a) →
  always (Rename tmp p (λ ok, if ok then mret a else Remove tmp (λ _, mret a))) Q w.
Proof.
  intros Ho Hs (Hf & Hp & Ht & Hp0) HQ c. assert (p ≠ tmp) as Hne by (intros ->; by apply outside_not_staged in Ho).
  destruct (os_rename_spec c w tmp p) as [->|(b' & Hb' & ->)]; cbn [fst snd].
  - intros c2. destruct (os_remove_spec c2 w tmp) as [->| ->]; cbn; apply HQ.
    + done.
    + by right.
    + eapply frame_trans; [exact Hf|]. split; [done|]. intros q Hq _. cbn. apply lookup_delete_ne. by intros ->.
    + right. split; [done|]. cbn. by rewrite lookup_delete_ne.
  - rewrite Ht in Hb'. injection Hb' as <-. cbn. apply HQ.
    + eapply frame_trans; [exact Hf|]. split; [done|]. intros q Hq Hqp. cbn. rewrite lookup_insert_ne by done.
      apply lookup_delete_ne. by intros ->.
    + left. cbn. by rewrite lookup_insert_eq.
Qed.

Lemma putByMove_always p w :
  outside root p →
  always (putByMove root p) (λ w' x, match x with
    | Ok None => unchanged w w'
    | Ok (Some x) => put_file_ok p true w w' (Ok x)
    | Err e => put_file_ok p true w w' (Err e)
    end) w.
Proof.
  intros Ho. assert (¬ staged root p) as Hns by (by apply outside_not_staged).
  assert (∀ w', unchanged w w' → ∀ e, put_file_ok p true w w' (Err e)) as Herr.
  { intros w' Hw' e. split; [|by apply frame_any]. left. by apply unchanged_at. }
  unfold putByMove. intros [|]; [|by apply Herr, frame_refl]. cbn [negb]. intros c.
  destruct (os_temp_spec c w (tmpDir root) "mv-") as [->|(n & Hnew & ->)]; [by apply Herr, frame_refl|].
  set (tmp := tmpDir root ++ [_]) in *. cbn [fst snd].
  assert (staged root tmp) as Hs by (by eexists). assert (p ≠ tmp) as Hne by congruence.
  set (w1 := mkWorld _ _ _).
  assert (unchanged w w1) as Hw1 by (split; [done|]; intros q Hq _; cbn; apply lookup_insert_ne; by intros ->).
  intros c2. assert (unchanged w (os_remove c2 w1 tmp).1) as Hw2.
  { eapply frame_trans; [exact Hw1|]. apply frame_remove. by left. }
  destruct (os_remove_spec c2 w1 tmp) as [E|E]; rewrite E in Hw2 |- *; cbn [fst snd negb] in *; [by apply Herr|].
  set (w2 := on_disk w1 _) in *. intros c3.
  destruct (os_rename_spec c3 w2 p tmp) as [->|(b & Hb & ->)]; cbn [fst snd negb]; [exact Hw2|].
  set (w3 := on_disk w2 _) in *.
  assert (moved p tmp b w w3) as Hm.
  { split_and!.
    - eapply frame_trans; [by apply frame_any|]. split; [done|]. intros q Hq Hqp. cbn.
      rewrite lookup_insert_ne by (by intros ->). by apply lookup_delete_ne.
    - cbn. by rewrite lookup_insert_ne, lookup_delete_eq.
    - cbn. by rewrite lookup_insert_eq.
    - by rewrite <- (unchanged_at w w2). }
  clearbody w3. pose proof Hm as (Hf & Hp & Ht & Hp0). unfold sha256File. apply always_bind. intros c4. cbn [always].
  assert (∀ e : Class, always (Rename tmp p (λ ok, if ok then mret (Err e) else Remove tmp (λ _, mret (Err e))))
    (λ w' (x : result Class (option (gostring * Z))), match x with
      | Ok None => unchanged w w' | Ok (Some x) => put_file_ok p true w w' (Ok x) | Err e => put_file_ok p true w w' (Err e) end) w3) as Hrestore.
  { intros e. apply (restore_always _ p tmp b w); [done..|]. intros w' H1 H2. by split. }
  destruct (os_read c4 w3 tmp) as [b'|] eqn:Eb; [|apply Hrestore].
  destruct (os_read_spec c4 w3 tmp) as [E'|E']; rewrite Eb in E'; [done|]. rewrite Ht in E'. injection E' as ->.
  cbn [always mret prog_ret fmap option_fmap option_map]. rewrite Path_Bytes. intros [|]; cbn [negb]; [|apply Hrestore].
  intros c5. destruct (os_rename_spec c5 w3 tmp (objectPath root (Bytes b))) as [->|(b' & Hb' & ->)]; cbn [fst snd]; [apply Hrestore|].
  rewrite Ht in Hb'. injection Hb' as <-. cbn.
  assert (p ≠ objectPath root (Bytes b)) as Hpo by (by apply outside_not_object).
  split; [right; split; [done|]; cbn; by rewrite lookup_insert_ne, lookup_delete_ne|].
  exists b. split_and!; [done|done| |left; cbn; by rewrite lookup_insert_eq].
  eapply frame_trans; [eapply frame_weaken; [|exact Hf]; intros q ->; by right|]. split; [done|].
  intros q Hq Hqo. cbn. rewrite lookup_insert_ne by (intros <-; apply Hqo; by left). apply lookup_delete_ne. by intros ->.
Qed.

Lemma putByDedup_always p w :
  always (putByDedup root p) (λ w' x, w' = w ∧ match x with
    | Some (dg, n) => ∃ b, w_disk w !! p = Some b ∧ (dg, n) = (Bytes b, Z.of_nat (length b)) ∧ stored b w w
    | None => True end) w.
Proof.
  unfold putByDedup, sha256File. apply always_bind. intros c. cbn [always].
  destruct (os_read c w p) as [b|] eqn:Eb; [|done]. destruct (os_read_spec c w p) as [E|E]; rewrite Eb in E; [done|].
  cbn [always mret prog_ret fmap option_fmap option_map]. apply always_bind, Has_always. intros [|] Hx; cbn [negb]; [|done].
  rewrite Path_Bytes. destruct (Hx eq_refl) as (o & Ho & Hsome). rewrite Path_Bytes in Ho. injection Ho as <-.
  unfold verifyFileDigest, sha256File. apply always_bind, always_bind. intros c2. cbn.
  destruct (os_read c2 w _) as [b2|]; cbn; [|done]. destruct (streq _ _); cbn; [|done]. split; [done|].
  exists b. split_and!; [done|done|]. by right.
Qed.

Lemma PutFile_always p mv w : outside root p → always (PutFile root p mv) (put_file_ok p mv w) w.
Proof.
  intros Ho. unfold PutFile. destruct mv; apply always_bind.
  - eapply always_mono; [|by apply putByMove_always]. intros w' [[x|]|e] Hx; cbn; [done|exact (copy_in_always p true w' w Ho Hx)|done].
  - eapply always_mono; [|apply putByDedup_always]. intros w' [[dg n]|] [-> Hx]; [|exact (copy_in_always p false w w Ho (frame_refl _ w))].
    destruct Hx as (b & Hb & He & Hst). split; [by left|]. exists b. split_and!; [done|done|apply frame_refl|done].
Qed.

(** The destination and the temporary files beside it. *)
Definition beside (dest q : path) : Prop := q = dest ∨ ∃ n, q = Dir_of dest ++ [bytes_of ".tmp-" ++ n].
Lemma beside_outside dest q : outside root dest → beside dest q → outside root q.
Proof. intros Ho [->|[n ->]]; [done|by apply outside_sibling]. Qed.

Lemma copyToPath_always src dest (Q : world → bool → Prop) w :
  (∀ w' x, frame (beside dest) w w' → (x = true → ∃ b, w_disk w !! src = Some b ∧ w_disk w' !! dest = Some b) → Q w' x) →
  always (copyToPath src dest) Q w.
Proof.
  intros HQ. unfold copyToPath. intros [|]; cbn [negb]; [|by apply HQ; [apply frame_refl|]]. intros c.
  destruct (os_read c w src) as [b|] eqn:Eb; [|by apply HQ; [apply frame_refl|]].
  destruct (os_read_spec c w src) as [E|E]; rewrite Eb in E; [done|]. intros c2.
  destruct (os_temp_spec c2 w (Dir_of dest) ".tmp-") as [->|(n & Hnew & ->)]; [by apply HQ; [apply frame_refl|]|].
  set (tmp := Dir_of dest ++ [_]) in *. cbn [fst snd]. assert (beside dest tmp) as Hb by (right; by exists n).
  intros c3. unfold os_write. cbn [w_disk]. rewrite lookup_insert_eq. cbn [fst snd]. rewrite insert_insert_eq.
  set (w1 := on_disk _ _).
  assert (frame (beside dest) w w1) as Hw1.
  { split; [done|]. intros q _ Hq. cbn. apply lookup_insert_ne. by intros ->. }
  assert (∀ w2, frame (beside dest) w w2 → always (Remove tmp (λ _, mret false)) Q w2) as Hclean.
  { intros w2 Hw2. apply (always_remove (beside dest)); [by right|]. intros w3 _ Hw3. cbn. apply HQ; [by eapply frame_trans|done]. }
  destruct (negb (negb (ch_fails c3))) eqn:Ef; [by apply Hclean|]. intros c4.
  destruct (os_rename_spec c4 w1 tmp dest) as [->|(b' & Hb' & ->)]; cbn [fst snd]; [by apply Hclean|].
  assert (b' = b) as ->. { cbn in Hb'. rewrite lookup_insert_eq in Hb'. destruct (ch_fails c3); [done|]. by injection Hb'. }
  apply HQ; [|intros _; exists b; split; [done|]; cbn; by rewrite lookup_insert_eq].
  eapply frame_trans; [exact Hw1|]. split; [done|]. intros q _ Hq. cbn. rewrite lookup_insert_ne by (intros <-; apply Hq; by left).
  apply lookup_delete_ne. by intros ->.
Qed.

Lemma verify_always p want (Q : world → option Class → Prop) w :
  (∀ x, (x = None → ∃ b, w_disk w !! p = Some b ∧ Bytes b = want) → Q w x) → always (verifyFileDigest p want) Q w.
Proof.
  intros HQ. unfold verifyFileDigest, sha256File. apply always_bind. intros c. cbn. apply HQ.
  destruct (os_read c w p) as [b|] eqn:Eb; cbn; [|done]. destruct (os_read_spec c w p) as [E|E]; rewrite Eb in E; [done|].
  destruct (streq (Bytes b) want) eqn:Es; [|done]. apply streq_true in Es. eauto.
Qed.

Lemma Materialise_always dg dest w :
  outside root dest →
  always (Materialise root dg dest) (λ w' x, frame (beside dest) w w' ∧
    (x = None → ∃ b, w_disk w !! objectPath root (to_lower dg) = Some b ∧ Bytes b = to_lower dg ∧ w_disk w' !! dest = Some b)) w.
Proof.
  intros Ho. unfold Materialise, address. destruct (Valid (to_lower dg)) eqn:Ev; [|by split; [apply frame_refl|]]. cbn [negb].
  set (src := objectPath root (to_lower dg)).
  assert (∀ q, beside dest q → q ≠ src) as Hsrc by (intros q Hq; apply outside_not_object; by eapply beside_outside).
  assert (¬ staged root src) as Hss by eauto with debark.
  assert (∀ w', frame (beside dest) w w' → w_disk w' !! src = w_disk w !! src) as Hkeep.
  { intros w' [_ Hf]. apply Hf; [done|]. intros Hb. by apply (Hsrc src). }
  intros c. destruct (os_exists c w src); [|by split; [apply frame_refl|]]. cbn [negb].
  intros [|]; [|by split; [apply frame_refl|]]. cbn [negb].
  apply (always_remove (beside dest)); [by right; left|]. intros w1 _ Hw1. intros c2.
  assert (∀ w2 x, frame (beside dest) w w2 → (x = true → ∃ b, w_disk w !! src = Some b ∧ w_disk w2 !! dest = Some b) →
    always (if negb x then mret (Some Environment) else
      bad ← verifyFileDigest dest (to_lower dg);
      match bad with None => mret None | Some _ => Remove dest (λ _, mret (Some Verification)) end)
    (λ w' x, frame (beside dest) w w' ∧
      (x = None → ∃ b, w_disk w !! src = Some b ∧ Bytes b = to_lower dg ∧ w_disk w' !! dest = Some b)) w2) as Hrest.
  { intros w2 [|] Hw2 Hx; cbn [negb]; [|by split]. destruct (Hx eq_refl) as (b & Hb & Hd). apply always_bind, verify_always.
    intros [c'|] Hv.
    - apply (always_remove (beside dest)); [by right; left|]. intros w3 _ Hw3. split; [by eapply frame_trans|done].
    - destruct (Hv eq_refl) as (b' & Hb' & Hh). split; [done|]. intros _. exists b. split_and!; [done|congruence|done]. }
  apply always_bind. unfold os_link. destruct (w_disk w1 !! src) as [b|] eqn:Eb.
  2: { cbn. apply copyToPath_always. intros w2 x Hw2 Hx. apply Hrest; [by eapply frame_trans|].
       intros ->. destruct (Hx eq_refl) as (b & Hb & _). congruence. }
  assert (∀ w2 x, frame (beside dest) w1 w2 → (x = true → ∃ b, w_disk w1 !! src = Some b ∧ w_disk w2 !! dest = Some b) →
    frame (beside dest) w w2 ∧ (x = true → ∃ b, w_disk w !! src = Some b ∧ w_disk w2 !! dest = Some b)) as Hlift.
  { intros w2 x Hw2 Hx. split; [by eapply frame_trans|]. intros ->. destruct (Hx eq_refl) as (b' & Hb' & Hd).
    exists b'. split; [|done]. by rewrite <- (Hkeep w1). }
  assert (always (copyToPath src dest) (λ w' (a : bool), always (if negb a then mret (Some Environment) else
      bad ← verifyFileDigest dest (to_lower dg);
      match bad with None => mret None | Some _ => Remove dest (λ _, mret (Some Verification)) end)
    (λ w' x, frame (beside dest) w w' ∧
      (x = None → ∃ b, w_disk w !! src = Some b ∧ Bytes b = to_lower dg ∧ w_disk w' !! dest = Some b)) w') w1) as Hcopy.
  { apply copyToPath_always. intros w2 x Hw2 Hx. destruct (Hlift w2 x Hw2 Hx). by apply Hrest. }
  destruct (w_disk w1 !! dest) eqn:Ed; [exact Hcopy|]. destruct (ch_fails c2); [exact Hcopy|]. cbn [fst snd always mret prog_ret].
  apply Hrest.
  - eapply frame_trans; [exact Hw1|]. split; [done|]. intros q _ Hq. cbn. apply lookup_insert_ne. intros <-. apply Hq. by left.
  - intros _. exists b. split; [by rewrite <- (Hkeep w1)|]. cbn. by rewrite lookup_insert_eq.
Qed.

Lemma Record_always now e w :
  always (Record_ now e) (λ w' x, match x with
    | Some _ => w' = w
    | None => e_Digest e ≠ "" ∧ ∃ i, IndexOf (w_index w) = Ok i ∧
        w' = mkWorld (w_disk w) (w_issued w)
          (Ok (Some (mkIndex IndexSchemaVersion (sort_by entry_leb (replace_entry (stamp now e) (ix_Entries i))))))
    end) w.
Proof.
  unfold Record_. destruct (streq (e_Digest e) "") eqn:Ee; [done|]. apply streq_false_iff in Ee. intros [|]; cbn [negb]; [|done].
  apply always_bind. intros c. cbn. destruct (ch_fails c); cbn; [done|]. destruct (IndexOf (w_index w)) as [i|] eqn:Ei; cbn; [|done].
  intros c2. unfold os_publish. destruct (ch_fails c2); cbn; [done|]. split; [done|]. by exists i.
Qed.

(** ** Collecting garbage *)

Lemma files_in_spec d dir n : n ∈ map fst (files_in d dir) ↔ is_Some (d !! (dir ++ [n])).
Proof.
  unfold files_in. split.
  - intros ([n' z] & -> & Hin)%list_elem_of_fmap. cbn [fst].
    apply elem_of_sort_by, list_elem_of_omap in Hin as ([p b] & Hp & E). apply elem_of_map_to_list in Hp. cbn [fst snd] in E.
    destruct (strip dir p) as [[|x [|y l]]|] eqn:Es; simplify_eq. apply strip_Some in Es as ->. by eexists.
  - intros [b Hb]. apply list_elem_of_fmap. exists (n, Z.of_nat (length b)). split; [done|].
    apply elem_of_sort_by, list_elem_of_omap. exists (dir ++ [n], b). cbn [fst snd]. rewrite strip_app. split; [by apply elem_of_map_to_list|done].
Qed.
Lemma subdirs_spec d dir s x l : is_Some (d !! (dir ++ s :: x :: l)) → s ∈ subdirs d dir.
Proof.
  intros [b Hb]. unfold subdirs. rewrite elem_of_sort_strings, elem_of_elements, elem_of_list_to_set.
  apply list_elem_of_omap. exists (dir ++ s :: x :: l, b). cbn [fst]. rewrite strip_app. split; [by apply elem_of_map_to_list|done].
Qed.

Definition shard_path (s n : gostring) : path := root ++ [bytes_of "sha256"; s; n].
Definition droppable (keep : gostring → bool) (n : gostring) : Prop := has_prefix "." n = false ∧ keep n = false.
(** Some of the files that may be dropped are gone, the names of those it made
    disappear are in [removed], and nothing else has changed. *)
Definition collected (keep : gostring → bool) (w w' : world) (removed removed' : gset gostring) : Prop :=
  w_index w' = w_index w ∧ removed ⊆ removed' ∧
  (∀ p, w_disk w' !! p = w_disk w !! p ∨
     ∃ s n, p = shard_path s n ∧ s ≠ "tmp" ∧ droppable keep n ∧ w_disk w' !! p = None ∧ n ∈ removed') ∧
  ∀ n, n ∈ removed' → n ∈ removed ∨ droppable keep n.
Lemma collected_refl keep w removed : collected keep w w removed removed.
Proof. unfold collected. split_and!; auto. Qed.
Lemma collected_trans keep w w1 w2 r r1 r2 :
  collected keep w w1 r r1 → collected keep w1 w2 r1 r2 → collected keep w w2 r r2.
Proof.
  intros (A1 & A2 & A3 & A4) (B1 & B2 & B3 & B4). split_and!; [congruence|set_solver| |].
  - intros p. destruct (B3 p) as [E|(s & n & -> & Hx)]; [|right; by exists s, n]. rewrite E.
    destruct (A3 p) as [?|(s & n & -> & H1 & H2 & H3 & H4)]; [by left|right; exists s, n]. split_and!; [done..|set_solver].
  - intros n Hn. destruct (B4 n Hn) as [H1|?]; [by apply A4|by right].
Qed.
Lemma collected_none keep w w' r r' p : collected keep w w' r r' → w_disk w !! p = None → w_disk w' !! p = None.
Proof. intros (_ & _ & Hc & _) Hp. destruct (Hc p) as [->|(s & n & _ & _ & _ & ? & _)]; done. Qed.

Lemma gc_objects_always keep (s : gostring) l : ∀ st removed w (Q : world → GCStats * gset gostring * option Class → Prop),
  s ≠ "tmp" →
  (∀ w' st' removed' err, collected keep w w' removed removed' →
     (err = None → ∀ n, n ∈ map fst l → droppable keep n → n ∈ removed' ∧ w_disk w' !! shard_path s n = None) →
     Q w' (st', removed', err)) →
  always (gc_objects keep (root ++ [bytes_of "sha256"; s]) l st removed) Q w.
Proof.
  induction l as [|[dg size] l IH]; intros st removed w Q Hs HQ; cbn [gc_objects].
  { apply HQ; [apply collected_refl|]. by intros _ n ?%elem_of_nil. }
  assert (∀ st', ¬ droppable keep dg → always (gc_objects keep (root ++ [bytes_of "sha256"; s]) l st' removed) Q w) as Hskip.
  { intros st' Hd. apply IH; [done|]. intros w' st2 removed' err Hc Hall. apply HQ; [done|].
    intros He n [->|Hn]%elem_of_cons Hdn; [done|by apply Hall]. }
  destruct (has_prefix "." dg) eqn:Ep; [apply Hskip; by intros [? _]; congruence|].
  destruct (keep dg) eqn:Ek; [apply Hskip; by intros [_ ?]; congruence|]. intros c.
  rewrite <- app_assoc. change ([bytes_of "sha256"; s] ++ [dg]) with [bytes_of "sha256"; s; dg]. fold (shard_path s dg).
  assert (droppable keep dg) as Hdrop by done.
  destruct (os_remove_spec c w (shard_path s dg)) as [->| ->]; cbn [fst snd negb].
  { apply HQ; [apply collected_refl|done]. }
  set (w1 := on_disk w _).
  assert (collected keep w w1 removed ({[dg]} ∪ removed)) as Hc1.
  { split_and!; [done|set_solver| |set_solver]. intros p. destruct (decide (p = shard_path s dg)) as [->|Hne].
    - right. exists s, dg. split_and!; [done..|apply lookup_delete_eq|set_solver].
    - left. by apply lookup_delete_ne. }
  apply IH; [done|]. intros w' st2 removed' err Hc Hall. apply HQ; [by eapply collected_trans|].
  intros He n [->|Hn]%elem_of_cons Hdn; [|by apply Hall]. split.
  - destruct Hc as (_ & Hsub & _). set_solver.
  - eapply collected_none; [exact Hc|]. apply lookup_delete_eq.
Qed.

Lemma gc_shards_always keep (l : list gostring) : ∀ st removed w (Q : world → GCStats * gset gostring * option Class → Prop),
  (∀ w' st' removed' err, collected keep w w' removed removed' →
     (err = None → ∀ (s n : gostring), s ∈ l → s ≠ "tmp" → is_Some (w_disk w !! shard_path s n) → droppable keep n →
        n ∈ removed' ∧ w_disk w' !! shard_path s n = None) → Q w' (st', removed', err)) →
  always (gc_shards root keep l st removed) Q w.
Proof.
  induction l as [|s l IH]; intros st removed w Q HQ; cbn [gc_shards].
  { apply HQ; [apply collected_refl|]. by intros _ s n ?%elem_of_nil. }
  destruct (streq s "tmp") eqn:Es.
  { apply streq_true in Es as ->. apply IH. intros w' st' removed' err Hc Hall. apply HQ; [done|].
    intros He s n [->|Hs]%elem_of_cons; [done|by apply Hall]. }
  apply streq_false_iff in Es. intros c. unfold os_list. destruct (ch_fails c); [apply HQ; [apply collected_refl|done]|].
  apply always_bind, gc_objects_always; [done|]. intros w1 st1 r1 [e|] Hc1 Hall1; [by apply HQ|].
  apply IH. intros w2 st2 r2 err Hc2 Hall2. apply HQ; [by eapply collected_trans|].
  intros He s' n [->|Hs]%elem_of_cons Htmp Hsome Hd.
  - destruct (Hall1 eq_refl n) as [Hr Hn]; [|done|].
    + apply files_in_spec. unfold shard_path in Hsome. by rewrite <- app_assoc.
    + split; [destruct Hc2 as (_ & Hsub & _); set_solver|by eapply collected_none].
  - destruct (w_disk w1 !! shard_path s' n) eqn:E1; [apply (Hall2 He); [done|done|by eexists|done]|].
    pose proof Hc1 as (_ & _ & Hp & _). destruct (Hp (shard_path s' n)) as [Heq|(s2 & n2 & En & _ & _ & _ & Hr)].
    + rewrite Heq in E1. rewrite E1 in Hsome. by destruct Hsome.
    + unfold shard_path in En. apply app_inv_head in En. injection En as <- <-.
      split; [destruct Hc2 as (_ & Hsub & _); set_solver|by eapply collected_none].
Qed.

(** The index loses the entries of what was removed. *)
Definition index_dropped (removed : gset gostring) (w w' : world) : Prop :=
  ∃ i, IndexOf (w_index w) = Ok i ∧
    w_index w' = Ok (Some (mkIndex IndexSchemaVersion (sort_by entry_leb
      (List.filter (λ e, negb (bool_decide (e_Digest e ∈ removed))) (ix_Entries i))))).
Definition gc_done (keep : gostring → bool) (w w' : world) (err : option Class) : Prop :=
  ∃ removed : gset gostring,
    (∀ p, w_disk w' !! p = w_disk w !! p ∨
       ∃ s n, p = shard_path s n ∧ s ≠ "tmp" ∧ droppable keep n ∧ w_disk w' !! p = None ∧ n ∈ removed) ∧
    (∀ n, n ∈ removed → droppable keep n) ∧
    match err with
    | Some _ => w_index w' = w_index w
    | None =>
        (∀ (s n : gostring), s ≠ "tmp" → is_Some (w_disk w !! shard_path s n) → droppable keep n →
           n ∈ removed ∧ w_disk w' !! shard_path s n = None) ∧
        (removed = ∅ ∧ w_index w' = w_index w ∨ index_dropped removed w w')
    end.
Lemma GC_always keep w : always (GC root keep) (λ w' x, gc_done keep w w' x.2) w.
Proof.
  unfold GC. intros c. unfold os_list. destruct (ch_fails c).
  { exists ∅. split; [by left|]. split; [set_solver|done]. }
  apply always_bind, gc_shards_always. intros w1 st removed err (Hi & _ & Hp & Hd) Hall.
  assert (∀ n, n ∈ removed → droppable keep n) as Hd' by (intros n Hn; destruct (Hd n Hn); [set_solver|done]).
  assert (∀ e w2, w_disk w2 = w_disk w1 → w_index w2 = w_index w → gc_done keep w w2 (Some e)) as Hfail.
  { intros e w2 E1 E2. exists removed. by rewrite E1. }
  destruct err as [e|]; [by apply Hfail|].
  assert (∀ (s n : gostring), s ≠ "tmp" → is_Some (w_disk w !! shard_path s n) → droppable keep n →
    n ∈ removed ∧ w_disk w1 !! shard_path s n = None) as Hall'.
  { intros s n Hs Hsome Hdn. apply (Hall eq_refl); [|done..]. unfold shard_path in Hsome.
    apply (subdirs_spec _ (root ++ [bytes_of "sha256"]) s n []). by rewrite <- app_assoc. }
  destruct (bool_decide (removed = ∅)) eqn:Er.
  { apply bool_decide_eq_true in Er. exists removed. cbn. split_and!; [done|done|done|by left]. }
  intros [|]; cbn [negb]; [|by apply Hfail]. apply always_bind. intros c2. cbn [always mret prog_ret].
  destruct (ch_fails c2); [by apply Hfail|]. rewrite Hi. destruct (IndexOf (w_index w)) as [i|] eqn:Ei; [|by apply Hfail].
  apply always_bind. intros c3. unfold os_publish. destruct (ch_fails c3); [by apply Hfail|]. cbn.
  exists removed. split_and!; [done|done|done|]. right. by exists i.
Qed.
End alone.

(** ** What the store promises *)

(** The store without its staging area: objects by digest, the clients' files
    and the index. *)
Record astore := mkA {
  a_objects : gostring → option gostring; a_files : path → option gostring; a_index : result unit (option Index)
}.

Section promise.
Context `{UnicodeTables} (root : path).
Definition abs (w : world) : astore := mkA (λ dg, w_disk w !! objectPath root dg) (λ p, w_disk w !! p) (w_index w).

Definition same_objects (a a' : astore) : Prop := ∀ dg, a_objects a' dg = a_objects a dg.
Definition same_files (P : path → Prop) (a a' : astore) : Prop := ∀ p, outside root p → ¬ P p → a_files a' p = a_files a p.
Definition same (a a' : astore) : Prop :=
  same_objects a a' ∧ same_files (λ _, False) a a' ∧ a_index a' = a_index a.
(** One more object, unless one is there under its digest already. *)
Definition added (b : gostring) (a a' : astore) : Prop :=
  (∀ dg, dg ≠ Bytes b → a_objects a' dg = a_objects a dg) ∧
  (a_objects a' (Bytes b) = Some b ∨ a_objects a' (Bytes b) = a_objects a (Bytes b) ∧ is_Some (a_objects a (Bytes b))).

(** The contract of an operation: the store before, what the call returns, the store after. *)
Definition promise (o : op) (a : astore) (r : outcome) (a' : astore) : Prop :=
  match o, r with
  | OpPut (b, bad), Stored (Ok x) =>
      bad = false ∧ x = (Bytes b, Z.of_nat (length b)) ∧ added b a a' ∧ same_files (λ _, False) a a' ∧ a_index a' = a_index a
  | OpPut _, Stored (Err _) => same a a'
  | OpPutFile p mv, Stored x =>
      same_files (λ q, q = p) a a' ∧ a_index a' = a_index a ∧
      (a_files a' p = a_files a p ∨ mv = true ∧ a_files a' p = None) ∧
      match x with
      | Ok x => ∃ b, a_files a p = Some b ∧ x = (Bytes b, Z.of_nat (length b)) ∧ added b a a'
      | Err _ => same_objects a a'
      end
  | OpRead dg, Content x =>
      same a a' ∧
      match x with
      | Ok b => a_objects a (to_lower dg) = Some b ∧ Bytes b = to_lower dg
      | Err Verification => ∃ b, a_objects a (to_lower dg) = Some b ∧ Bytes b ≠ to_lower dg
      | Err _ => True
      end
  | OpMaterialise dg dest, Status x =>
      same_objects a a' ∧ same_files (beside dest) a a' ∧ a_index a' = a_index a ∧
      (x = None → ∃ b, a_objects a (to_lower dg) = Some b ∧ Bytes b = to_lower dg ∧ a_files a' dest = Some b)
  | OpIndex, Entries x => same a a' ∧ (x = IndexOf (a_index a) ∨ x = Err Environment)
  | OpRecord now e, Status x =>
      same_objects a a' ∧ same_files (λ _, False) a a' ∧
      match x with
      | Some _ => a_index a' = a_index a
      | None => ∃ i, IndexOf (a_index a) = Ok i ∧
          a_index a' = Ok (Some (mkIndex IndexSchemaVersion (sort_by entry_leb (replace_entry (stamp now e) (ix_Entries i)))))
      end
  | OpGC keep, Collected _ err =>
      same_files (λ _, False) a a' ∧
      (∀ dg, a_objects a' dg = a_objects a dg ∨ droppable keep dg ∧ a_objects a' dg = None) ∧
      match err with
      | Some _ => a_index a' = a_index a
      | None =>
          (∀ dg, droppable keep dg → a_objects a' dg = None) ∧
          (a_index a' = a_index a ∨ ∃ i left, IndexOf (a_index a) = Ok i ∧ a_index a' = Ok (Some (mkIndex IndexSchemaVersion left)) ∧
             (∀ e, e ∈ left → e ∈ ix_Entries i ∧ (droppable keep (e_Digest e) → a_objects a (e_Digest e) = None)) ∧
             (∀ e, e ∈ ix_Entries i → ¬ droppable keep (e_Digest e) → e ∈ left))
      end
  | _, _ => False
  end.

Lemma frame_files (P : path → Prop) w w' : frame root P w w' → same_files P (abs w) (abs w').
Proof. intros [_ Hf] p Ho Hp. apply Hf; [by apply outside_not_staged|done]. Qed.
Lemma frame_objects (P : path → Prop) w w' :
  frame root P w w' → (∀ p, P p → outside root p) → same_objects (abs w) (abs w').
Proof.
  intros [_ Hf] HP dg. apply Hf; [eauto with debark|]. intros Hp%HP. by apply (outside_not_object root _ dg Hp).
Qed.
Lemma frame_same w w' : frame root (λ _, False) w w' → same (abs w) (abs w').
Proof. intros Hf. split_and!; [by eapply frame_objects|by apply frame_files|by destruct Hf]. Qed.
Lemma stored_added b (P : path → Prop) w w' :
  frame root (λ q, q = objectPath root (Bytes b) ∨ P q) w w' → (∀ p, P p → outside root p) → stored root b w w' →
  added b (abs w) (abs w') ∧ same_files P (abs w) (abs w').
Proof.
  intros [_ Hf] HP Hst. split; [split; [|exact Hst]|].
  - intros dg Hne. apply Hf; [eauto with debark|]. intros [E|Hp%HP].
    + apply Hne. by apply objectPath_inj in E.
    + by apply (outside_not_object root _ dg Hp).
  - intros p Ho Hp. apply Hf; [by apply outside_not_staged|]. intros [->|?]; [|done]. by apply (outside_not_object root _ (Bytes b) Ho).
Qed.

Lemma gc_promise keep w w' st err : gc_done root keep w w' err → promise (OpGC keep) (abs w) (Collected st err) (abs w').
Proof.
  intros (removed & Hp & Hd & Hi). cbn. split_and!.
  - intros p Ho _. cbn. destruct (Hp p) as [?|(s & n & -> & _)]; [done|]. by apply below_not_outside in Ho.
  - intros dg. destruct (Hp (objectPath root dg)) as [?|(s & n & E & _ & Hdn & Hn & _)]; [by left|right].
    unfold objectPath, shard_path in E. apply app_inv_head in E. by injection E as _ ->.
  - destruct err as [e|]; [done|]. destruct Hi as [Hall Hi].
    assert (∀ dg, is_Some (w_disk w !! objectPath root dg) → droppable keep dg → dg ∈ removed ∧ w_disk w' !! objectPath root dg = None) as Hobj.
    { intros dg. apply (Hall (take 2 dg) dg). apply take2_tmp. }
    split.
    + intros dg Hdn. destruct (w_disk w !! objectPath root dg) eqn:E; [by apply Hobj|].
      destruct (Hp (objectPath root dg)) as [->|(s & n & _ & _ & _ & ? & _)]; done.
    + destruct Hi as [[_ Hi]|(i & Hi & Hw)]; [by left|right]. eexists i, _. split_and!; [done|exact Hw| |].
      * intros e (He & Hr)%elem_of_sort_by%elem_of_lfilter. split; [exact He|]. intros Hdn. bsplit.
        destruct (w_disk w !! objectPath root (e_Digest e)) eqn:E; [|done]. destruct (Hobj (e_Digest e)); [by eexists|done|done].
      * intros e He Hnd. apply elem_of_sort_by, elem_of_lfilter. split; [done|]. bsplit. intros Hr. by apply Hnd, Hd.
Qed.

Lemma promise_always o w : allowed root o → always (run_op root o) (λ w' r, promise o (abs w) r (abs w')) w.
Proof.
  destruct o as [[b bad]|p mv|dg|dg dest| |now e|keep]; cbn [allowed run_op]; intros Ho; try apply always_bind.
  - eapply always_mono; [|apply Put_always]. intros w' [[dg n]|e]; cbn beta iota.
    + intros (E & Hbad & Hf & Hst). destruct (stored_added b (λ _, False) w w') as [H1 H2]; [|done|done|].
      { eapply frame_weaken; [|exact Hf]. by left. }
      cbn. split_and!; [done|done|exact H1|exact H2|by destruct Hf].
    + intros [-> Hf]. by apply frame_same.
  - eapply always_mono; [|by apply PutFile_always]. intros w' x [Hs Hx]. cbn. destruct x as [[dg n]|e].
    + destruct Hx as (b & Hb & E & Hf & Hst). destruct (stored_added b (λ q, q = p) w w' Hf) as [H1 H2]; [by intros q ->|done|].
      split_and!; [done|by destruct Hf|done|]. exists b. split_and!; [done|done|exact H1].
    + split_and!; [by apply frame_files|by destruct Hx|done|]. eapply frame_objects; [exact Hx|]. by intros q ->.
  - unfold OpenRead, address. assert (same (abs w) (abs w)) as Hsame by (by split_and!).
    destruct (Valid (to_lower dg)); [|by split]. cbn [negb]. intros c. destruct (os_read c w _) as [b|] eqn:Eb; [|by split].
    destruct (os_read_spec c w (objectPath root (to_lower dg))) as [E|E]; rewrite Eb in E; [done|].
    destruct (streq (Bytes b) (to_lower dg)) eqn:Es; (split; [done|]); cbn.
    + apply streq_true in Es. done.
    + apply streq_false_iff in Es. by exists b.
  - eapply always_mono; [|by apply Materialise_always]. intros w' x [Hf Hx]. cbn. split_and!.
    + eapply frame_objects; [exact Hf|]. intros q. by apply beside_outside.
    + by apply frame_files.
    + by destruct Hf.
    + exact Hx.
  - intros c. cbn. split; [by split_and!|]. destruct (ch_fails c); [by right|by left].
  - eapply always_mono; [|apply Record_always]. intros w' [x|]; [intros ->; by split_and!|].
    intros (_ & i & Hi & ->). split_and!; [done|done|]. by exists i.
  - eapply always_mono; [|apply GC_always]. intros w' [st err] Hx. by apply gc_promise.
Qed.

(** (C10) Each operation of the store, run alone from any state, does what a map
    from digests to contents promises, whatever calls fail on the way: [Put] and
    [PutFile] add exactly the bytes given under their SHA-256, [Open] and
    [Materialise] deliver only bytes that hash to the digest asked for, even
    from a store someone tampered with, a collection removes exactly what is not
    to be kept with its index entries, and an operation that fails changes no
    object, but for a collection, which may have removed part of its garbage. *)
Theorem store_refines cs o w :
  allowed root o →
  promise o (abs w) (eval cs w (run_op root o)).2 (abs (eval cs w (run_op root o)).1).
Proof. intros Ho. apply (always_eval (run_op root o) (λ w' r, promise o (abs w) r (abs w'))). by apply promise_always. Qed.
End promise.

(** ** A small store *)

Definition toy_root : path := [bytes_of "store"].
Definition toy_file : path := [bytes_of "in"; bytes_of "a.deb"].
Definition toy_world : world := mkWorld {[ toy_file := bytes_of "abc" ]} ∅ (Ok None).
(** Put by moving, read back, put again, materialise, record, collect. *)
Example store_samples :
  let r o cs w := (eval cs w (run_op toy_root o)).2 in
  let next_w o cs w := (eval cs w (run_op toy_root o)).1 in
  let dg := Bytes "abc" in
  let w1 := next_w (OpPutFile toy_file true) [] toy_world in
  let w2 := next_w (OpMaterialise dg toy_file) [] w1 in
  let e := mkEntry dg "a" "1" "all" 3 "a.deb" [] false in
  let w3 := next_w (OpRecord "now" e) [] w2 in
  let w4 := next_w (OpGC (λ _, false)) [] w3 in
  (r (OpPutFile toy_file true) [] toy_world, w_disk w1 !! toy_file, r (OpRead dg) [] w1, r (OpRead "../etc/passwd") [] w1,
   r (OpMaterialise dg toy_file) [] w1, w_disk w2 !! toy_file, r (OpGC (λ _, false)) [] w3, r (OpRead dg) [] w4, r OpIndex [] w4,
   r (OpPut (bytes_of "abc", true)) [] w4, r OpIndex [] w3) =
  (Stored (Ok (dg, 3)), None, Content (Ok (bytes_of "abc")), Content (Err Usage), Status None, Some (bytes_of "abc"),
   Collected (mkStats 1 0 3 0) None, Content (Err Environment), Entries (Ok (mkIndex IndexSchemaVersion [])),
   Stored (Err Environment), Entries (Ok (mkIndex IndexSchemaVersion [stamp "now" e]))).
Proof. vm_compute. reflexivity. Qed.

Lemma toy_good : good toy_root toy_world.
Proof.
  intros dg b Hb. cbn in Hb. apply lookup_singleton_Some in Hb as [E _]. discriminate.
Qed.
Lemma objects_always_good_witness :
  good toy_root toy_world ∧
  ∃ s, rtc (step toy_root) (toy_world, []) s ∧ w_disk s.1 !! objectPath toy_root (Bytes "x") = None ∧
    ∀ dg b, w_disk s.1 !! objectPath toy_root dg = Some b → Bytes b = dg.
Proof.
  split; [exact toy_good|].
  set (m := run_op toy_root (OpPut (bytes_of "x", false))).
  set (m1 := (next no_fault toy_world m).2). set (w2 := (next no_fault toy_world m1).1). set (m2 := (next no_fault toy_world m1).2).
  assert (rtc (step toy_root) (toy_world, []) (w2, [m2])) as Hs.
  { eapply rtc_l; [apply (step_start toy_root _ _ (OpPut (bytes_of "x", false))); exact I|].
    eapply rtc_l; [apply (step_call toy_root _ _ 0 m no_fault toy_world m1); [reflexivity|reflexivity]|].
    eapply rtc_l; [apply (step_call toy_root _ _ 0 m1 no_fault w2 m2); [reflexivity|reflexivity]|]. apply rtc_refl. }
  exists (w2, [m2]). split; [exact Hs|]. split; [vm_compute; reflexivity|].
  exact (objects_always_good toy_root toy_world (w2, [m2]) toy_good Hs).
Defined.

Lemma store_refines_witness :
  allowed toy_root (OpPutFile toy_file true) ∧
  promise toy_root (OpPutFile toy_file true) (abs toy_root toy_world) (Stored (Ok (Bytes "abc", 3)))
    (abs toy_root (eval [] toy_world (run_op toy_root (OpPutFile toy_file true))).1).
Proof.
  assert (allowed toy_root (OpPutFile toy_file true)) as Ho by (vm_compute; reflexivity). split; [exact Ho|].
  pose proof (store_refines toy_root [] (OpPutFile toy_file true) toy_world Ho) as Hp.
  assert ((eval [] toy_world (run_op toy_root (OpPutFile toy_file true))).2 = Stored (Ok (Bytes "abc", 3))) as E by (vm_compute; reflexivity).
  rewrite E in Hp. exact Hp.
Defined.
