(* ===== verification/StoreLock.v ===== *)
(** * The lock of index.json: [lockIndex] of core/store/fsstore.go.

    What one turn of its loop sees is an [attempt]: how opening the lock file
    went, the age [os.Stat] gives it, and the time. Times are in nanoseconds;
    the loop runs on a given number of turns and [None] says it is still
    running. *)
From S2P Require Export GoText.
#[local] Open Scope Z_scope.

Inductive opened := Created | AlreadyExists | Denied | OpenFailed.
Record attempt := mkAttempt { at_open : opened; at_age : option Z; at_now : Z }.
Inductive acquired := Acquired | CreateFailed | TimedOut.

Definition lockStaleAfter : Z := 30 * 10 ^ 9.
Definition lockRetryDelay : Z := 20 * 10 ^ 6.
Definition lockWaitBudget : Z := 10 * 10 ^ 9.

(** An abandoned lock, which the loop removes; whether the removal works shows
    in the next attempt. *)
Definition stale (a : attempt) : bool :=
  match at_open a, at_age a with
  | (AlreadyExists | Denied), Some age => lockStaleAfter <? age
  | _, _ => false
  end.
Fixpoint lock_loop (fuel : nat) (deadline : Z) (a : nat → attempt) (i : nat) : option acquired :=
  match fuel with
  | O => None
  | S fuel =>
      match at_open (a i) with
      | Created => Some Acquired
      | OpenFailed => Some CreateFailed
      | AlreadyExists | Denied =>
          if stale (a i) then lock_loop fuel deadline a (S i)
          else if deadline <? at_now (a i) then Some TimedOut
          else lock_loop fuel deadline a (S i)
      end
  end.
Definition lockIndex (fuel : nat) (start : Z) (a : nat → attempt) : option acquired :=
  lock_loop fuel (start + lockWaitBudget) a 0.

(** A turn that ends in [time.Sleep]. *)
Definition waits (deadline : Z) (a : attempt) : Prop :=
  (at_open a = AlreadyExists ∨ at_open a = Denied) ∧ stale a = false ∧ at_now a ≤ deadline.
(** The clock of a run: it starts at [start], does not go back and moves on
    while the loop sleeps. *)
Record clock (start deadline : Z) (a : nat → attempt) : Prop := {
  ck_start : start ≤ at_now (a 0%nat);
  ck_mono i : at_now (a i) ≤ at_now (a (S i));
  ck_sleep i : waits deadline (a i) → at_now (a i) + lockRetryDelay ≤ at_now (a (S i))
}.
(** At most [n] of the turns from [i] on meet a stale lock. *)
Definition few_stale (a : nat → attempt) (i n : nat) : Prop :=
  ∀ k, (length (List.filter (λ j, stale (a j)) (seq i k)) ≤ n)%nat.

Lemma few_stale_next a i n :
  few_stale a i n → few_stale a (S i) (if stale (a i) then pred n else n) ∧ (stale (a i) = true → (1 ≤ n)%nat).
Proof.
  intros Hf. split.
  - intros k. specialize (Hf (S k)). cbn [seq List.filter] in Hf. destruct (stale (a i)); cbn [length] in Hf; lia.
  - intros Hs. specialize (Hf 1%nat). cbn in Hf. rewrite Hs in Hf. cbn in Hf. lia.
Qed.

Lemma lock_loop_ends fuel : ∀ start a i m n,
  clock start (start + lockWaitBudget) a → start + m * lockRetryDelay ≤ at_now (a i) → few_stale a i n → 0 ≤ m ≤ 501 →
  Z.of_nat n + (502 - m) ≤ Z.of_nat fuel → lock_loop fuel (start + lockWaitBudget) a i ≠ None.
Proof.
  induction fuel as [|fuel IH]; intros start a i m n Hck Hm Hn Hm' Hfuel; [lia|]. cbn [lock_loop].
  destruct (few_stale_next _ _ _ Hn) as [Hn' Hone]. pose proof (ck_mono _ _ _ Hck i) as Hmono.
  assert (at_open (a i) = AlreadyExists ∨ at_open (a i) = Denied → (if stale (a i) then lock_loop fuel (start + lockWaitBudget) a (S i)
    else if start + lockWaitBudget <? at_now (a i) then Some TimedOut else lock_loop fuel (start + lockWaitBudget) a (S i)) ≠ None) as Hgo.
  { intros Ho. destruct (stale (a i)) eqn:Es.
    - specialize (Hone eq_refl). apply (IH start a (S i) m (pred n)); [done|lia|done|done|lia].
    - destruct (Z.ltb_spec (start + lockWaitBudget) (at_now (a i))) as [Hlt|Hle]; [done|].
      pose proof (ck_sleep _ _ _ Hck i (conj Ho (conj Es Hle))) as Hsleep. unfold lockRetryDelay, lockWaitBudget in *.
      apply (IH start a (S i) (m + 1) n); unfold lockRetryDelay, lockWaitBudget; [done|lia|done|lia|lia]. }
  destruct (at_open (a i)); [done|by apply Hgo; left|by apply Hgo; right|done].
Qed.

(** The turn a run ended with. *)
Definition ended (deadline : Z) (a : attempt) (r : acquired) : Prop :=
  match r with
  | Acquired => at_open a = Created
  | CreateFailed => at_open a = OpenFailed
  | TimedOut => (at_open a = AlreadyExists ∨ at_open a = Denied) ∧ stale a = false ∧ deadline < at_now a
  end.
Lemma lock_loop_result fuel : ∀ deadline a i r, lock_loop fuel deadline a i = Some r →
  ∃ j, (i ≤ j < i + fuel)%nat ∧
    (∀ k, (i ≤ k < j)%nat → at_open (a k) = AlreadyExists ∨ at_open (a k) = Denied) ∧
    ended deadline (a j) r.
Proof.
  induction fuel as [|fuel IH]; intros deadline a i r Hl; [done|]. cbn [lock_loop] in Hl.
  assert (at_open (a i) = AlreadyExists ∨ at_open (a i) = Denied → lock_loop fuel deadline a (S i) = Some r →
    ∃ j, (i ≤ j < i + S fuel)%nat ∧ (∀ k, (i ≤ k < j)%nat → at_open (a k) = AlreadyExists ∨ at_open (a k) = Denied) ∧
    ended deadline (a j) r) as Hnext.
  { intros Ho Hl'. destruct (IH _ _ _ _ Hl') as (j & Hj & Hk & Hr). exists j. split_and!; [lia|lia| |done].
    intros k Hk'. destruct (decide (k = i)) as [->|]; [done|]. apply Hk. lia. }
  assert (∀ r0, r0 = r → ended deadline (a i) r0 → ∃ j, (i ≤ j < i + S fuel)%nat ∧ (∀ k, (i ≤ k < j)%nat → at_open (a k) = AlreadyExists ∨ at_open (a k) = Denied) ∧
    ended deadline (a j) r) as Hhere.
  { intros r0 -> Hr. exists i. split_and!; [lia|lia|intros k ?; lia|done]. }
  unfold ended in *. destruct (at_open (a i)) eqn:Eo; simplify_eq; [by apply (Hhere Acquired)| | |by apply (Hhere CreateFailed)].
  all: destruct (stale (a i)) eqn:Es; [apply Hnext; auto|].
  all: destruct (Z.ltb_spec deadline (at_now (a i))); [simplify_eq; apply (Hhere TimedOut); auto|apply Hnext; auto].
Qed.

(** A stale lock that cannot be removed: the loop never reaches its deadline. *)
Lemma stale_lock_spins start a :
  (∀ i, at_open (a i) = AlreadyExists ∧ stale (a i) = true) → ∀ fuel, lockIndex fuel start a = None.
Proof.
  intros Ha fuel. unfold lockIndex. generalize 0%nat. induction fuel as [|fuel IH]; intros i; [done|]. cbn [lock_loop].
  destruct (Ha i) as [-> ->]. apply IH.
Qed.

(** (C39) [lockIndex] ends: when at most [n] of its turns meet a stale lock, it
    returns within [n + 502] turns, with the lock file it created, or after the
    wait budget with the lock still held by someone else, or because the file
    could not be created. But a stale lock that cannot be removed keeps it
    turning for ever: such turns look neither at the deadline nor at the clock. *)
Theorem lockIndex_ends start a :
  (∀ n, clock start (start + lockWaitBudget) a → few_stale a 0 n →
     ∃ r j, lockIndex (n + 502) start a = Some r ∧ (j < n + 502)%nat ∧
       (∀ k, (k < j)%nat → at_open (a k) = AlreadyExists ∨ at_open (a k) = Denied) ∧ ended (start + lockWaitBudget) (a j) r) ∧
  ((∀ i, at_open (a i) = AlreadyExists ∧ stale (a i) = true) → ∀ fuel, lockIndex fuel start a = None).
Proof.
  split; [intros n Hck Hn|apply stale_lock_spins].
  unfold lockIndex. pose proof (ck_start _ _ _ Hck) as H0.
  destruct (lock_loop (n + 502) (start + lockWaitBudget) a 0) as [r|] eqn:El.
  - destruct (lock_loop_result _ _ _ _ _ El) as (j & Hj & Hk & Hr). exists r, j. split_and!; [done|lia| |done].
    intros k Hk'. apply Hk. lia.
  - exfalso. revert El. apply (lock_loop_ends _ _ _ _ 0 n); [done|lia|done|lia|lia].
Qed.

(** Someone else holds the lock all the while. *)
Definition busy (i : nat) : attempt := mkAttempt AlreadyExists None (Z.of_nat i * lockRetryDelay).
Lemma lockIndex_ends_witness :
  lockIndex 502 0 busy = Some TimedOut ∧ ∃ r j, lockIndex (0 + 502) 0 busy = Some r ∧ ended (0 + lockWaitBudget) (busy j) r.
Proof.
  split; [vm_compute; reflexivity|].
  assert (clock 0 (0 + lockWaitBudget) busy) as Hck.
  { split; unfold busy, lockRetryDelay; cbn [at_now]; lia. }
  assert (few_stale busy 0 0) as Hn.
  { assert (∀ k i, length (List.filter (λ j, stale (busy j)) (seq i k)) = 0%nat) as Hz by (intros k; induction k; intros i; [reflexivity|apply IHk]).
    intros k. rewrite Hz. apply le_n. }
  destruct (proj1 (lockIndex_ends 0 busy) 0%nat Hck Hn) as (r & j & Hr & _ & _ & He). exists r, j. split; [exact Hr|exact He].
Defined.
