(* ===== verification/AptParse.v ===== *)
(** * core/apt/parse.go: what apt printed.

    The readers of the output of [apt-get update], of a simulated install and of
    [--print-uris], with the regular expressions they use. A run's [Output] has
    its two streams and the exit code; the list files and the parser of their
    stanzas (a library) are not modelled. *)
From S2P Require Export GoRegexp LockTypes.
#[local] Open Scope Z_scope.

Record Output := mkOutput { o_Argv : list gostring; o_Stdout : gostring; o_Stderr : gostring; o_ExitCode : Z }.
Definition Combined (o : Output) : gostring := o_Stdout o ++ o_Stderr o.

Definition splitAptQualifiedName (ref : gostring) : gostring * gostring :=
  match cut ":" ref with Some (name, arch) => (name, arch) | None => (ref, []) end.
Definition crlf : gostring := [chr 13; newline].
Definition splitLines (b : gostring) : list gostring :=
  let s := trim_right [newline] b in
  if streq s "" then [] else split newline (replace_all crlf [newline] s).

(** ** apt-get update *)

Record UpdateEntry := mkUpdateEntry { ue_Status : gostring; ue_URI : gostring; ue_Suite : gostring; ue_Detail : gostring }.
Record GPGError := mkGPGError { ge_Repository : gostring; ge_NoPubkeys : list gostring; ge_Detail : gostring }.
Record UpdateResult := mkUpdate {
  up_Entries : list UpdateEntry; up_GPGErrors : list GPGError; up_Failed : bool; up_Summary : gostring
}.

Definition updateLineRE : re :=
  cats [Bol; Cap 1 (alts [Lit "Hit"; Lit "Get"; Lit "Ign"; Lit "Err"]); Lit ":"; many re_digit; many ws; Cap 2 (any dot); Eol].
Definition gpgErrorRE : re :=
  cats [Bol; Lit "W:"; any ws; Lit "GPG error:"; any ws; Cap 1 (Star false dot); Lit ":"; any ws; Cap 2 (any dot); Eol].
Definition noPubkeyRE : re := cats [Lit "NO_PUBKEY"; many ws; Cap 1 (many (Cls is_hex))].

(** One source's verdict: fetched, failed. *)
Record outcome := mkOutcome { oc_ok : bool; oc_err : bool }.
Fixpoint outcomes_loop (seen : gmap gostring outcome) (order : list gostring) (l : list UpdateEntry)
    : gmap gostring outcome * list gostring :=
  match l with
  | [] => (seen, order)
  | e :: rest =>
      let key := ue_URI e ++ " " ++ ue_Suite e in
      let '(o, order) := match seen !! key with Some o => (o, order) | None => (mkOutcome false false, order ++ [key]) end in
      let o := if streq (ue_Status e) "hit" || streq (ue_Status e) "get" then mkOutcome true (oc_err o)
               else if streq (ue_Status e) "err" then mkOutcome (oc_ok o) true else o in
      outcomes_loop (<[key := o]> seen) order rest
  end.
Definition SourceOutcomes (u : UpdateResult) : Z * Z :=
  let '(seen, order) := outcomes_loop ∅ [] (up_Entries u) in
  fold_left (λ ff key, match seen !! key with
    | Some o => if oc_ok o then (ff.1 + 1, ff.2) else if oc_err o then (ff.1, ff.2 + 1) else ff
    | None => ff end) order (0, 0).

Definition gpg_part (ge : GPGError) : gostring :=
  match ge_NoPubkeys ge with
  | [] => "GPG error on " ++ ge_Repository ge ++ ": " ++ ge_Detail ge
  | ks => "GPG error on " ++ ge_Repository ge ++ ": missing key(s) " ++ join ", " ks
  end.
Definition UpdateError (u : UpdateResult) : gostring :=
  if negb (up_Failed u) then []
  else match map gpg_part (up_GPGErrors u) ++ (if streq (up_Summary u) "" then [] else [up_Summary u]) with
  | [] => "apt-get update failed"
  | parts => join "; " parts
  end.

Definition update_entry (m : groups) (detail : gostring) : UpdateEntry :=
  let rest := trim_space (group 2 m) in
  let fs := fields rest in
  let suite := nth 1 fs [] in
  mkUpdateEntry (map lower_byte (group 1 m)) (nth 0 fs [])
    (match cut "/" suite with Some (s, _) => s | None => suite end) (rest ++ detail).
Definition gpg_error (m : groups) : GPGError :=
  mkGPGError (trim_space (group 1 m)) (map (λ pk, map upper_byte (group 1 pk)) (find_all noPubkeyRE (group 2 m))) (trim_space (group 2 m)).
(** Entries, errors, whether an "E:" line was seen, and those lines. *)
Fixpoint update_loop (lines : list gostring) (es : list UpdateEntry) (gs : list GPGError) (failed : bool) (summary : list gostring)
    : list UpdateEntry * list GPGError * bool * list gostring :=
  match lines with
  | [] => (es, gs, failed, summary)
  | line :: rest =>
      match find_submatch updateLineRE line with
      | Some m =>
          match rest with
          | reason :: rest' =>
              if streq (group 1 m) "Err" && has_prefix "  " reason
              then update_loop rest' (es ++ [update_entry m (" " ++ trim_space reason)]) gs failed summary
              else update_loop rest (es ++ [update_entry m []]) gs failed summary
          | [] => update_loop rest (es ++ [update_entry m []]) gs failed summary
          end
      | None =>
          match find_submatch gpgErrorRE line with
          | Some m => update_loop rest es (gs ++ [gpg_error m]) failed summary
          | None =>
              if has_prefix "E:" line then update_loop rest es gs true (summary ++ [trim_space line])
              else update_loop rest es gs failed summary
          end
      end
  end.
Definition ParseUpdate (out : Output) : UpdateResult :=
  let '(es, gs, failed, summary) := update_loop (splitLines (Combined out)) [] [] false [] in
  mkUpdate es gs (failed || negb (o_ExitCode out =? 0)) (join "; " summary).

(** ** apt-get -s install *)

Record InstAction := mkAction {
  ac_Kind : gostring; ac_Name : gostring; ac_OldVersion : gostring; ac_Version : gostring;
  ac_Origins : list gostring; ac_Arch : gostring
}.
Record SimulateResult := mkSimulate {
  sr_Actions : list InstAction; sr_Unresolved : list Unresolved; sr_Failed : bool; sr_Summary : gostring;
  sr_UnparsedActions : list gostring
}.

Definition bracketed : re := cats [Lit "["; any (not_byte "]"); Lit "]"].
Definition instConfRE : re :=
  cats [Bol; Cap 1 (Alt (Lit "Inst") (Lit "Conf")); many ws; Cap 2 (many nonws);
        Opt (cats [many ws; Lit "["; Cap 3 (any (not_byte "]")); Lit "]"]);
        many ws; Lit "("; Cap 4 (any dot); Lit ")"; any (Cat (any ws) bracketed); any ws; Eol].
Definition instConfPrefixRE : re := cats [Bol; Alt (Lit "Inst") (Lit "Conf"); ws].
Definition parenContentRE : re :=
  cats [Bol; Cap 1 (many nonws); many ws; Cap 2 (Star false dot); any ws; Lit "["; Cap 3 (many (not_byte "]")); Lit "]"; any ws; Eol].
Definition unmetHeaderRE : re := cats [Bol; Lit "The following packages have unmet dependencies:"; any ws; Eol].
Definition unmetLineRE : re := cats [Bol; Lit " "; Cap 1 (many nonws); any ws; Lit ":"; any ws; Cap 2 (any dot); Eol].
Definition unableLocateRE : re := cats [Bol; Lit "E:"; any ws; Lit "Unable to locate package "; Cap 1 (many nonws)].
Definition versionNotFndRE : re :=
  cats [Bol; Lit "E:"; any ws; Lit "Version '"; Cap 1 (any (not_byte "'")); Lit "' for '"; Cap 2 (any (not_byte "'")); Lit "' was not found"].
Definition is_alnum (c : ascii) : bool := is_digit c || is_lower c || is_upper c.
Definition missingDepRE : re :=
  cats [alts [Lit "Depends"; Lit "Pre-Depends"; Lit "Recommends"]; Lit ":"; any ws;
        Cap 1 (Cat (Cls is_alnum) (any (Cls (λ c, is_alnum c || existsb (beq c) "+.:-"))))].

Definition inst_action (m : groups) : InstAction :=
  let '(name, nameArch) := splitAptQualifiedName (group 2 m) in
  match find_submatch parenContentRE (group 4 m) with
  | Some pm =>
      mkAction (group 1 m) name (group 3 m) (group 1 pm)
        (List.filter (λ o, negb (streq o "")) (map trim_space (split "," (group 2 pm))))
        (if streq (group 3 pm) "" then nameArch else group 3 pm)
  | None => mkAction (group 1 m) name (group 3 m) (trim_space (group 4 m)) [] nameArch
  end.
(** The action a line reads as, and whether it claims to be one. *)
Definition read_action (line : gostring) : option InstAction := inst_action <$> find_submatch instConfRE line.
Definition claims_action (line : gostring) : bool := re_matches instConfPrefixRE line.

Record simst := mkSimst { ss_res : SimulateResult; ss_unmet : bool; ss_cur : gostring; ss_detail : list gostring }.
Definition add_action (a : InstAction) (r : SimulateResult) : SimulateResult :=
  mkSimulate (sr_Actions r ++ [a]) (sr_Unresolved r) (sr_Failed r) (sr_Summary r) (sr_UnparsedActions r).
Definition add_unparsed (l : gostring) (r : SimulateResult) : SimulateResult :=
  mkSimulate (sr_Actions r) (sr_Unresolved r) (sr_Failed r) (sr_Summary r) (sr_UnparsedActions r ++ [l]).
Definition add_unresolved (u : Unresolved) (r : SimulateResult) : SimulateResult :=
  mkSimulate (sr_Actions r) (sr_Unresolved r ++ [u]) (sr_Failed r) (sr_Summary r) (sr_UnparsedActions r).
Definition set_failed (r : SimulateResult) : SimulateResult :=
  mkSimulate (sr_Actions r) (sr_Unresolved r) true (sr_Summary r) (sr_UnparsedActions r).
Definition add_summary (line : gostring) (r : SimulateResult) : SimulateResult :=
  mkSimulate (sr_Actions r) (sr_Unresolved r) (sr_Failed r)
    (if streq (sr_Summary r) "" then trim_space line else sr_Summary r ++ "; " ++ trim_space line) (sr_UnparsedActions r).

Definition flush (st : simst) : simst :=
  if streq (ss_cur st) "" then st
  else let detail := join " " (ss_detail st) in
       mkSimst (add_unresolved (mkUnresolved (ss_cur st) "package" detail (map (group 1) (find_all missingDepRE detail))) (ss_res st))
         (ss_unmet st) [] [].
Definition end_unmet (st : simst) : simst :=
  let st := flush st in mkSimst (ss_res st) false (ss_cur st) (ss_detail st).
Definition with_res (f : SimulateResult → SimulateResult) (st : simst) : simst :=
  mkSimst (f (ss_res st)) (ss_unmet st) (ss_cur st) (ss_detail st).

Definition simulate_plain (line : gostring) (st : simst) : simst :=
  if claims_action line && negb (re_matches instConfRE line) then with_res (add_unparsed (trim_right (" " ++ [chr 9]) line)) st
  else match find_submatch instConfRE line with
  | Some m => with_res (add_action (inst_action m)) st
  | None =>
      match find_submatch unableLocateRE line with
      | Some m => with_res (λ r, add_unresolved (mkUnresolved (group 1 m) "package" "unable to locate package" []) (set_failed r)) st
      | None =>
          match find_submatch versionNotFndRE line with
          | Some m => with_res (λ r, add_unresolved (mkUnresolved (group 2 m) "package" ("version " ++ group 1 m ++ " not found") []) (set_failed r)) st
          | None => if has_prefix "E:" line then with_res (λ r, add_summary line (set_failed r)) st else st
          end
      end
  end.
Definition simulate_line (st : simst) (line : gostring) : simst :=
  if re_matches unmetHeaderRE (trim_space line) then mkSimst (set_failed (ss_res st)) true (ss_cur st) (ss_detail st)
  else if ss_unmet st then
    match find_submatch unmetLineRE line with
    | Some m => let st := flush st in mkSimst (ss_res st) (ss_unmet st) (group 1 m) [group 2 m]
    | None =>
        let trimmed := trim_space line in
        if streq trimmed "" || has_prefix "E:" line then simulate_plain line (end_unmet st)
        else if has_prefix "  " line then mkSimst (ss_res st) true (ss_cur st) (ss_detail st ++ [trimmed])
        else simulate_plain line (end_unmet st)
    end
  else simulate_plain line st.
Definition ParseSimulate (out : Output) : SimulateResult :=
  let st := fold_left simulate_line (splitLines (Combined out)) (mkSimst (mkSimulate [] [] false [] []) false [] []) in
  let r := ss_res (flush st) in
  if o_ExitCode out =? 0 then r else set_failed r.

Definition unresolved_part (u : Unresolved) : gostring :=
  match u_Missing u with
  | [] => u_Input u ++ " (" ++ u_Detail u ++ ")"
  | ms => u_Input u ++ " (missing: " ++ join ", " ms ++ ")"
  end.
Definition simulateFailureMessage (r : SimulateResult) : gostring :=
  match map unresolved_part (sr_Unresolved r) ++ (if streq (sr_Summary r) "" then [] else [sr_Summary r]) with
  | [] => "apt reported a failure with no further detail"
  | parts => join "; " parts
  end.

(** ** --print-uris, versions, list file names *)

Record URIEntry := mkURI { ur_URI : gostring; ur_Filename : gostring; ur_Size : Z; ur_HashAlgo : gostring; ur_Hash : gostring }.
Definition printURIRE : re :=
  cats [Bol; Lit "'"; Cap 1 (any (not_byte "'")); Lit "'"; many ws; Cap 2 (many nonws); many ws; Cap 3 (many re_digit); many ws;
        Cap 4 (many (Cls is_alnum)); Lit ":"; Cap 5 (many (Cls is_hex)); any ws; Eol].
(** [strconv.ParseInt] gives the largest value with its range error. *)
Definition clamped (ds : gostring) : Z := Z.min max_int64 (decimal ds).
Definition ParsePrintURIs (out : Output) : list URIEntry :=
  omap (λ line, (λ m, mkURI (group 1 m) (group 2 m) (clamped (group 3 m)) (group 4 m) (map lower_byte (group 5 m)))
    <$> find_submatch printURIRE line) (splitLines (Combined out)).

Definition aptVersionRE : re := cats [Bol; Lit "apt"; many ws; Cap 1 (many nonws)].
Definition ParseAptGetVersion (out : gostring) : option gostring :=
  match splitLines out with [] => None | l :: _ => group 1 <$> find_submatch aptVersionRE (trim_space l) end.

Definition packagesIndexNameRE : re :=
  cats [Lit "_dists_"; Cap 1 (many dot); Lit "_binary-"; many (not_byte "_"); Lit "_Packages"; Eol].
Definition cut_last (c : ascii) (s : gostring) : option (gostring * gostring) :=
  match cut c (rev s) with Some (b, a) => Some (rev a, rev b) | None => None end.
Definition deriveSuiteComponent (filename : gostring) : option (gostring * gostring) :=
  m ← find_submatch packagesIndexNameRE filename;
  match cut_last "_" (group 1 m) with
  | None => Some (group 1 m, [])
  | Some (suite, component) => Some (suite, component)
  end.

(** ** Lines and their first byte *)

Lemma trim_spaces_keeps sp1 sp2 sp3 c :
  sp1 c = false → (∀ a, sp2 a c = false) → (∀ a b, sp3 a b c = false) →
  ∀ n t, (length t ≤ n)%nat → ∃ t', trim_spaces sp1 sp2 sp3 (t ++ [c]) = t' ++ [c].
Proof.
  intros H1 H2 H3. induction n as [|n IH]; intros t Hl.
  - destruct t; [|cbn in Hl; lia]. exists []. cbn. by rewrite H1.
  - destruct t as [|a t]; [exists []; cbn; by rewrite H1|]. cbn [length] in Hl. cbn [app trim_spaces].
    destruct (sp1 a); [apply IH; lia|]. destruct t as [|b t]; cbn [app]; [rewrite H2; by exists [a]|]. cbn [length] in Hl.
    destruct (sp2 a b); [apply IH; lia|]. destruct t as [|d t]; cbn [app]; [rewrite H3; by exists [a; b]|]. cbn [length] in Hl.
    destruct (sp3 a b d); [apply IH; lia|]. by exists (a :: b :: d :: t).
Qed.
(** Trimming keeps a first byte that is a visible ASCII one. *)
Lemma trim_space_head c s : solid c = true → ∃ s', trim_space (c :: s) = c :: s'.
Proof.
  intros Hc. unfold trim_space. rewrite solid_left by done. unfold trim_space_right. cbn [rev].
  apply andb_true_iff in Hc as [Hlt Hs%negb_true_iff]. apply Z.ltb_lt in Hlt.
  destruct (trim_spaces_keeps is_space1 (λ a b, is_space2 b a) (λ a b d, is_space3 d b a) c Hs) with (n := length (rev s)) (t := rev s) as [t ->].
  - intros a. unfold is_space2. by rewrite !(proj2 (Z.eqb_neq (ord c) _)) by lia.
  - intros a b. unfold is_space3. by rewrite !(proj2 (Z.eqb_neq (ord c) _)) by lia.
  - done.
  - rewrite rev_app_distr. by exists (rev t).
Qed.

(** A line that starts with a byte that is not a space or a [T]. *)
Definition plain_head (line : gostring) : Prop :=
  match line with c :: _ => solid c = true ∧ c ≠ "T"%char | [] => False end.
Lemma plain_head_facts line : plain_head line →
  re_matches unmetHeaderRE (trim_space line) = false ∧ find_submatch unmetLineRE line = None ∧
  streq (trim_space line) "" = false ∧ has_prefix "  " line = false.
Proof.
  destruct line as [|c line]; [done|]. intros [Hc HT]. destruct (trim_space_head c line Hc) as [s' ->].
  assert (c ≠ " "%char) as Hsp by (by intros ->). split_and!.
  - unfold re_matches, unmetHeaderRE. cbn [cats]. rewrite find_submatch_bol. unfold match_at. cbn [re_match].
    destruct (cut_prefix _ (c :: s')) as [r|] eqn:E; [|done]. apply cut_prefix_Some in E. by injection E as ->.
  - unfold unmetLineRE. cbn [cats]. rewrite find_submatch_bol. unfold match_at. cbn [re_match].
    destruct (cut_prefix " " (c :: line)) as [r|] eqn:E; [|done]. apply cut_prefix_Some in E. by injection E as ->.
  - unfold streq. by apply bool_decide_eq_false.
  - unfold has_prefix. destruct (cut_prefix "  " (c :: line)) as [r|] eqn:E; [|done]. apply cut_prefix_Some in E. by injection E as ->.
Qed.

(** A line that starts as an action does. *)
Definition action_head (line : gostring) : Prop := ∃ r, line = "Inst" ++ r ∨ line = "Conf" ++ r.
Lemma action_head_facts line : action_head line → plain_head line ∧ has_prefix "E:" line = false.
Proof. by intros (r & [->| ->]). Qed.
Lemma claims_head line : claims_action line = true → action_head line.
Proof.
  unfold claims_action, re_matches, instConfPrefixRE. cbn [cats]. rewrite find_submatch_bol. unfold match_at. cbn [re_match].
  destruct (cut_prefix "Inst" line) as [r|] eqn:E1; [apply cut_prefix_Some in E1; exists r; by left|].
  destruct (cut_prefix "Conf" line) as [r|] eqn:E2; [apply cut_prefix_Some in E2; exists r; by right|]. done.
Qed.
Lemma reads_head line m : find_submatch instConfRE line = Some m → action_head line.
Proof.
  unfold instConfRE. remember (cats [many ws; Cap 2 (many nonws); Opt (cats [many ws; Lit "["; Cap 3 (any (not_byte "]")); Lit "]"]);
        many ws; Lit "("; Cap 4 (any dot); Lit ")"; any (Cat (any ws) bracketed); any ws; Eol]) as rest eqn:Er.
  change (cats (Bol :: Cap 1 (Alt (Lit "Inst") (Lit "Conf")) :: _)) with
    (Cat Bol (Cat (Cap 1 (Alt (Lit "Inst") (Lit "Conf"))) (cats [many ws; Cap 2 (many nonws); Opt (cats [many ws; Lit "["; Cap 3 (any (not_byte "]")); Lit "]"]);
        many ws; Lit "("; Cap 4 (any dot); Lit ")"; any (Cat (any ws) bracketed); any ws; Eol]))).
  rewrite <- Er, find_submatch_bol. unfold match_at. cbn [re_match].
  destruct (cut_prefix "Inst" line) as [r|] eqn:E1; [apply cut_prefix_Some in E1; exists r; by left|].
  destruct (cut_prefix "Conf" line) as [r|] eqn:E2; [apply cut_prefix_Some in E2; exists r; by right|]. done.
Qed.
Lemma error_head line : has_prefix "E:" line = true → plain_head line.
Proof. intros [r ->]%has_prefix_spec. done. Qed.
Lemma starts_E line r rest : find_submatch (Cat Bol (Cat (Lit "E:") r)) line = Some rest → has_prefix "E:" line = true.
Proof.
  rewrite find_submatch_bol. unfold match_at. cbn [re_match]. unfold has_prefix. by destruct (cut_prefix "E:" line).
Qed.

(** ** What a simulation's output is read as *)

(** A line that claims to be an action and cannot be read as one; a line that
    says the simulation failed. *)
Definition unread (line : gostring) : bool := claims_action line && negb (re_matches instConfRE line).
Definition says_failed (line : gostring) : bool := re_matches unmetHeaderRE (trim_space line) || has_prefix "E:" line.
Definition blanks : gostring := " " ++ [chr 9].

(** One line's part in the result. *)
Record reads_as (line : gostring) (failed : bool) (r r' : SimulateResult) : Prop := {
  ra_actions : sr_Actions r' = sr_Actions r ++ match read_action line with Some a => [a] | None => [] end;
  ra_unparsed : sr_UnparsedActions r' = sr_UnparsedActions r ++ (if unread line then [trim_right blanks line] else []);
  ra_failed : sr_Failed r' = sr_Failed r || failed
}.
Lemma simulate_plain_reads line st :
  reads_as line (has_prefix "E:" line) (ss_res st) (ss_res (simulate_plain line st)).
Proof.
  unfold simulate_plain. change (claims_action line && negb (re_matches instConfRE line)) with (unread line).
  destruct (unread line) eqn:Eu.
  - unfold unread in Eu. apply andb_true_iff in Eu as [Hc Hn]. destruct (action_head_facts line) as [_ ->]; [by apply claims_head|].
    assert (read_action line = None) as Hr.
    { unfold read_action, re_matches in *. by destruct (find_submatch instConfRE line). }
    constructor; cbn; rewrite ?Hr, ?app_nil_r, ?orb_false_r; [done| |done]. unfold unread. by rewrite Hc, Hn.
  - destruct (find_submatch instConfRE line) as [m|] eqn:Em.
    + destruct (action_head_facts line) as [_ ->]; [by eapply reads_head|].
      constructor; cbn; rewrite ?Eu, ?app_nil_r, ?orb_false_r; [|done|done]. unfold read_action. by rewrite Em.
    + assert (read_action line = None) as Hr by (unfold read_action; by rewrite Em).
      destruct (find_submatch unableLocateRE line) as [m|] eqn:E1.
      { apply starts_E in E1 as ->. constructor; cbn; rewrite ?Hr, ?Eu, ?app_nil_r, ?orb_true_r; done. }
      destruct (find_submatch versionNotFndRE line) as [m|] eqn:E2.
      { apply starts_E in E2 as ->. constructor; cbn; rewrite ?Hr, ?Eu, ?app_nil_r, ?orb_true_r; done. }
      destruct (has_prefix "E:" line); constructor; cbn; rewrite ?Hr, ?Eu, ?app_nil_r, ?orb_true_r, ?orb_false_r; done.
Qed.

Lemma flush_reads st :
  sr_Actions (ss_res (flush st)) = sr_Actions (ss_res st) ∧ sr_UnparsedActions (ss_res (flush st)) = sr_UnparsedActions (ss_res st) ∧
  sr_Failed (ss_res (flush st)) = sr_Failed (ss_res st).
Proof. unfold flush. by destruct (streq _ _). Qed.
Lemma reads_as_flush line b st r : reads_as line b (ss_res (flush st)) r → reads_as line b (ss_res st) r.
Proof. destruct (flush_reads st) as (E1 & E2 & E3). intros [H1 H2 H3]. constructor; by rewrite <- ?E1, <- ?E2, <- ?E3. Qed.

(** A line no action and no error starts with has no part of its own. *)
Lemma reads_as_none line b r r' :
  ¬ plain_head line → sr_Actions r' = sr_Actions r → sr_UnparsedActions r' = sr_UnparsedActions r →
  sr_Failed r' = sr_Failed r || b → reads_as line b r r'.
Proof.
  intros Hp H1 H2 H3.
  assert (read_action line = None) as Hr.
  { unfold read_action. destruct (find_submatch instConfRE line) as [m|] eqn:Em; [|done]. destruct Hp.
    apply action_head_facts. by eapply reads_head. }
  assert (unread line = false) as Hu.
  { destruct (unread line) eqn:Eu; [|done]. destruct Hp. apply andb_true_iff in Eu as [Hc _]. by apply action_head_facts, claims_head. }
  constructor; rewrite ?Hr, ?Hu, ?app_nil_r; done.
Qed.

Lemma simulate_line_reads st line : reads_as line (says_failed line) (ss_res st) (ss_res (simulate_line st line)).
Proof.
  unfold simulate_line, says_failed.
  destruct (re_matches unmetHeaderRE (trim_space line)) eqn:Eh.
  { apply reads_as_none; [|done|done|cbn; by rewrite orb_true_r].
    intros Hp. apply plain_head_facts in Hp as (Hx & _). congruence. }
  cbn [orb]. destruct (ss_unmet st); [|apply simulate_plain_reads].
  assert (reads_as line (has_prefix "E:" line) (ss_res st) (ss_res (simulate_plain line (end_unmet st)))) as Hend.
  { apply reads_as_flush. apply (simulate_plain_reads line (end_unmet st)). }
  assert (¬ plain_head line → has_prefix "E:" line = false) as HE.
  { intros Hp. destruct (has_prefix "E:" line) eqn:E; [|done]. by apply error_head in E. }
  destruct (find_submatch unmetLineRE line) as [m|] eqn:Em.
  { assert (¬ plain_head line) as Hp by (intros (_ & Hx & _)%plain_head_facts; congruence).
    cbn. apply reads_as_flush, reads_as_none; rewrite ?HE, ?orb_false_r; done. }
  cbv zeta. destruct (streq (trim_space line) "" || has_prefix "E:" line); [exact Hend|].
  destruct (has_prefix "  " line) eqn:E2; [|exact Hend].
  assert (¬ plain_head line) as Hp by (intros (_ & _ & _ & Hx)%plain_head_facts; congruence).
  apply reads_as_none; cbn; rewrite ?HE, ?orb_false_r; done.
Qed.

Lemma simulate_lines_reads lines : ∀ st, let r := ss_res st in let r' := ss_res (fold_left simulate_line lines st) in
  sr_Actions r' = sr_Actions r ++ omap read_action lines ∧
  sr_UnparsedActions r' = sr_UnparsedActions r ++ map (trim_right blanks) (List.filter unread lines) ∧
  sr_Failed r' = sr_Failed r || existsb says_failed lines.
Proof.
  induction lines as [|l lines IH]; intros st; cbn [fold_left omap List.filter existsb map].
  { by rewrite !app_nil_r, orb_false_r. }
  destruct (IH (simulate_line st l)) as (H1 & H2 & H3). destruct (simulate_line_reads st l) as [A1 A2 A3].
  cbv zeta in *. rewrite H1, H2, H3, A1, A2, A3, <- !app_assoc, orb_assoc. split_and!; [|by destruct (unread l)|done].
  unfold omap. cbn [list_omap]. by destruct (read_action l).
Qed.

Lemma ParseSimulate_facts out :
  let r := ParseSimulate out in let lines := splitLines (Combined out) in
  sr_Actions r = omap read_action lines ∧
  sr_UnparsedActions r = map (trim_right blanks) (List.filter unread lines) ∧
  (sr_Failed r = true ↔ o_ExitCode out ≠ 0 ∨ ∃ l, l ∈ lines ∧ says_failed l = true).
Proof.
  cbv zeta. unfold ParseSimulate. cbv zeta. set (lines := splitLines (Combined out)).
  destruct (simulate_lines_reads lines (mkSimst (mkSimulate [] [] false [] []) false [] [])) as (H1 & H2 & H3).
  cbn [ss_res sr_Actions sr_UnparsedActions sr_Failed app orb] in H1, H2, H3.
  set (st := fold_left simulate_line lines _) in *. destruct (flush_reads st) as (F1 & F2 & F3).
  assert (∀ b, existsb says_failed lines = b → (b = true ↔ ∃ l, l ∈ lines ∧ says_failed l = true)) as Hex.
  { intros b <-. rewrite existsb_exists. by setoid_rewrite list_elem_of_In. }
  destruct (Z.eqb_spec (o_ExitCode out) 0) as [E|E]; cbn [set_failed sr_Actions sr_UnparsedActions sr_Failed]; rewrite F1, F2, ?F3, H1, H2, ?H3.
  - split_and!; [done|done|]. rewrite (Hex _ eq_refl). tauto.
  - split_and!; [done|done|]. tauto.
Qed.

(** [ParseSimulate] loses no action: the actions are those its expression
    reads from the lines of the output, in their order; a line that announces
    an action and cannot be read is recorded as such; and the run counts as
    failed exactly when apt exited with an error, printed an error line or the
    header of unmet dependencies. *)
Theorem ParseSimulate_spec out :
  let r := ParseSimulate out in let lines := splitLines (Combined out) in
  sr_Actions r = omap read_action lines ∧
  (∀ l, l ∈ lines → claims_action l = true →
     (∃ a, read_action l = Some a ∧ a ∈ sr_Actions r) ∨ trim_right blanks l ∈ sr_UnparsedActions r) ∧
  (sr_Failed r = true ↔ o_ExitCode out ≠ 0 ∨
     ∃ l, l ∈ lines ∧ (has_prefix "E:" l = true ∨ re_matches unmetHeaderRE (trim_space l) = true)).
Proof.
  cbv zeta. destruct (ParseSimulate_facts out) as (H1 & H2 & H3). cbv zeta in *. split_and!; [done| |].
  - intros l Hl Hc. rewrite H1, H2. destruct (find_submatch instConfRE l) as [m|] eqn:Em.
    + left. exists (inst_action m). assert (read_action l = Some (inst_action m)) as Hr by (unfold read_action; by rewrite Em).
      split; [done|]. apply list_elem_of_omap. by exists l.
    + right. apply list_elem_of_fmap_2, elem_of_lfilter. split; [done|]. unfold unread, re_matches. by rewrite Hc, Em.
  - rewrite H3. unfold says_failed. setoid_rewrite orb_true_iff. naive_solver.
Qed.
