(* ===== verification/AptClosure.v ===== *)
(** * core/apt/closure.go and held.go: a base's closure and its dpkg status.

    What a stock install contains, read from apt's simulation; the dpkg status
    file written from it, and the reader of such a file that later stages use.
    The two runs of apt-get and the private root they run in are not modelled
    here. *)
From S2P Require Export AptParse Dferr.
#[local] Open Scope Z_scope.

Record ClosurePackage := mkClosure { cp_Name : gostring; cp_Arch : gostring; cp_Version : gostring }.
#[export] Instance ClosurePackage_eq_dec : EqDecision ClosurePackage.
Proof. solve_decision. Defined.
Definition Qualified (p : ClosurePackage) : gostring := cp_Name p ++ ":" ++ cp_Arch p.

(** The order of [sortClosurePackages]: not [p[j] < p[i]]. *)
Definition closure_leb (p q : ClosurePackage) : bool :=
  if negb (streq (cp_Name p) (cp_Name q)) then str_leb (cp_Name p) (cp_Name q)
  else if negb (streq (cp_Arch p) (cp_Arch q)) then str_leb (cp_Arch p) (cp_Arch q)
  else str_leb (cp_Version p) (cp_Version q).
Definition sortClosurePackages : list ClosurePackage → list ClosurePackage := sort_by closure_leb.

Inductive closure_error := UnreadActions (lines : list gostring) | SeedsFail (msg : gostring) | EmptyClosure.
Definition simulateParseError (sim : SimulateResult) : option closure_error :=
  match sr_UnparsedActions sim with [] => None | l => Some (UnreadActions l) end.
Definition closure_class (e : closure_error) : Class := Resolution.

Fixpoint closure_loop (defaultArch : gostring) (seen : gset gostring) (l : list InstAction) : list ClosurePackage :=
  match l with
  | [] => []
  | a :: rest =>
      if negb (streq (ac_Kind a) "Inst") then closure_loop defaultArch seen rest
      else
        let p := mkClosure (ac_Name a) (if streq (ac_Arch a) "" then defaultArch else ac_Arch a) (ac_Version a) in
        if bool_decide (Qualified p ∈ seen) then closure_loop defaultArch seen rest
        else p :: closure_loop defaultArch ({[Qualified p]} ∪ seen) rest
  end.
Definition closureFromSimulate (sim : SimulateResult) (defaultArch : gostring) : result closure_error (list ClosurePackage) :=
  match simulateParseError sim with
  | Some e => Err e
  | None =>
      if sr_Failed sim then Err (SeedsFail (simulateFailureMessage sim))
      else match closure_loop defaultArch ∅ (sr_Actions sim) with
      | [] => Err EmptyClosure
      | out => Ok (sortClosurePackages out)
      end
  end.

Definition warnNoDpkgStatus : gostring := "private-root.no-dpkg-status".
Definition filterBootstrapWarnings (l : list Warning) : list Warning :=
  List.filter (λ w, negb (streq (w_Code w) warnNoDpkgStatus)) l.

(** ** The dpkg status file *)

Definition status_line (key value : gostring) : gostring := key ++ ": " ++ value.
Definition stanza_lines (p : ClosurePackage) : list gostring :=
  [status_line "Package" (cp_Name p); status_line "Status" "install ok installed";
   status_line "Architecture" (cp_Arch p); status_line "Version" (cp_Version p); []].
Definition DpkgStatusFor (packages : list ClosurePackage) : gostring :=
  concat (map (λ line, line ++ [newline]) (concat (map stanza_lines (sortClosurePackages packages)))).

(** The stanzas so far, the fields of the current one and whether it has any. *)
Record stanzas := mkStanzas { sz_done : list (gmap gostring gostring); sz_cur : gmap gostring gostring; sz_saw : bool }.
Definition flush_stanza (st : stanzas) : stanzas :=
  mkStanzas (if sz_saw st then sz_done st ++ [sz_cur st] else sz_done st) ∅ false.
Definition stanza_line (st : stanzas) (line : gostring) : stanzas :=
  if streq (trim_space line) "" then flush_stanza st
  else if has_prefix " " line || has_prefix [chr 9] line then st
  else match cut ":" line with
  | None => st
  | Some (key, val) =>
      let key := trim_space key in
      if streq key "" then st
      else mkStanzas (sz_done st) (<[key := trim_prefix " " val]> (sz_cur st)) true
  end.
Definition splitDpkgStatusStanzas (data : gostring) : list (gmap gostring gostring) :=
  let text := replace_all crlf [newline] data in
  sz_done (flush_stanza (fold_left stanza_line (split newline text) (mkStanzas [] ∅ false))).

Definition field (key : gostring) (m : gmap gostring gostring) : gostring := default [] (m !! key).
Definition held_step (held : gmap gostring gostring) (stanza : gmap gostring gostring) : gmap gostring gostring :=
  let name := field "Package" stanza in
  if streq name "" then held
  else match fields (field "Status" stanza) with
  | [want; _; status] =>
      if streq want "hold" && streq status "installed" then <[name := trim_space (field "Version" stanza)]> held else held
  | _ => held
  end.
(** [None]: the snapshot has no dpkg status; otherwise what reading it gives. *)
Definition heldPackageVersions (status : option (result gostring gostring)) : result gostring (gmap gostring gostring) :=
  match status with
  | None => Ok ∅
  | Some (Err e) => Err e
  | Some (Ok data) => Ok (fold_left held_step (splitDpkgStatusStanzas data) ∅)
  end.

(** ** The closure *)

Lemma closure_loop_spec arch l : ∀ seen,
  NoDup (map Qualified (closure_loop arch seen l)) ∧
  (∀ p, p ∈ closure_loop arch seen l → (Qualified p ∉ seen) ∧
     ∃ a, a ∈ l ∧ ac_Kind a = "Inst" ∧ p = mkClosure (ac_Name a) (if streq (ac_Arch a) "" then arch else ac_Arch a) (ac_Version a)) ∧
  (∀ a, a ∈ l → ac_Kind a = "Inst" →
     let q := (ac_Name a ++ (":" ++ (if streq (ac_Arch a) "" then arch else ac_Arch a)))%list in
     q ∈ seen ∨ q ∈ map Qualified (closure_loop arch seen l)).
Proof.
  induction l as [|a l IH]; intros seen; cbn [closure_loop map].
  { split_and!; [constructor|by intros p ?%elem_of_nil|by intros a ?%elem_of_nil]. }
  destruct (streq (ac_Kind a) "Inst") eqn:Ek; cbn [negb].
  - apply bool_decide_eq_true in Ek. set (p := mkClosure _ _ _). destruct (bool_decide (Qualified p ∈ seen)) eqn:Ep.
    + bsplit. destruct (IH seen) as (H1 & H2 & H3). split_and!; [done| |].
      * intros q Hq. destruct (H2 q Hq) as (Hs & b & Hb & Hr). split; [done|]. exists b. split; [by right|done].
      * intros b [->|Hb]%elem_of_cons Hk; [by left|by apply H3].
    + bsplit. destruct (IH ({[Qualified p]} ∪ seen)) as (H1 & H2 & H3). split_and!.
      * cbn [map]. constructor; [|done]. intros (q & E & Hq)%list_elem_of_fmap. destruct (H2 q Hq) as [Hs _]. set_solver.
      * intros q [->|Hq]%elem_of_cons; [split; [done|]; exists a; split_and!; [by left|done|done]|].
        destruct (H2 q Hq) as (Hs & b & Hb & Hr). split; [set_solver|]. exists b. split; [by right|done].
      * intros b [->|Hb]%elem_of_cons Hk; [right; by left|]. destruct (H3 b Hb Hk) as [Hs|Hs]; [|right; by right].
        apply elem_of_union in Hs as [->%elem_of_singleton|Hs]; [right; by left|by left].
  - apply bool_decide_eq_false in Ek. destruct (IH seen) as (H1 & H2 & H3). split_and!; [done| |].
    + intros q Hq. destruct (H2 q Hq) as (Hs & b & Hb & Hr). split; [done|]. exists b. split; [by right|done].
    + intros b [->|Hb]%elem_of_cons Hk; [done|by apply H3].
Qed.

(** A closure is read only from a simulation that succeeded and was understood
    line by line; it has one package for each qualified name apt would install. *)
Lemma closureFromSimulate_facts out arch ps :
  closureFromSimulate (ParseSimulate out) arch = Ok ps →
  o_ExitCode out = 0 ∧ ps ≠ [] ∧ NoDup (map Qualified ps) ∧
  (∀ l, l ∈ splitLines (Combined out) → claims_action l = true → ∃ a, read_action l = Some a ∧
     (ac_Kind a = "Inst" → (ac_Name a ++ ":" ++ (if streq (ac_Arch a) "" then arch else ac_Arch a)) ∈ map Qualified ps)) ∧
  (∀ p, p ∈ ps → ∃ l a, l ∈ splitLines (Combined out) ∧ read_action l = Some a ∧ ac_Kind a = "Inst" ∧
     p = mkClosure (ac_Name a) (if streq (ac_Arch a) "" then arch else ac_Arch a) (ac_Version a)).
Proof.
  unfold closureFromSimulate, simulateParseError. destruct (ParseSimulate_facts out) as (H1 & H2 & H3). cbv zeta in *.
  destruct (sr_UnparsedActions (ParseSimulate out)) as [|u us] eqn:Eu; [|done].
  destruct (sr_Failed (ParseSimulate out)) eqn:Ef; [done|]. rewrite H1. set (lines := splitLines (Combined out)) in *.
  destruct (closure_loop_spec arch (omap read_action lines) ∅) as (L1 & L2 & L3).
  destruct (closure_loop arch ∅ (omap read_action lines)) as [|p0 out0] eqn:El; [done|]. rewrite <- El in *. intros [= <-].
  assert (sortClosurePackages (closure_loop arch ∅ (omap read_action lines)) ≡ₚ closure_loop arch ∅ (omap read_action lines)) as Hperm
    by apply sort_by_perm.
  split_and!.
  - destruct (Z.eq_dec (o_ExitCode out) 0); [done|]. assert (false = true) by (apply H3; by left). done.
  - intros E. rewrite E in Hperm. apply Permutation_nil in Hperm. by rewrite El in Hperm.
  - rewrite Hperm. exact L1.
  - intros l Hl Hc. destruct (read_action l) as [a|] eqn:Ea.
    + exists a. split; [done|]. intros Hk. rewrite Hperm.
      destruct (L3 a) as [?|?]; [|done|set_solver|done]. apply list_elem_of_omap. by exists l.
    + exfalso. assert (l ∈ List.filter unread lines) as Hin.
      { apply elem_of_lfilter. split; [done|]. unfold unread, re_matches, read_action in *. rewrite Hc.
        by destruct (find_submatch instConfRE l). }
      symmetry in H2. apply map_eq_nil in H2. rewrite H2 in Hin. by apply elem_of_nil in Hin.
  - intros p Hp. rewrite Hperm in Hp. destruct (L2 p Hp) as (_ & a & Ha & Hk & ->).
    apply list_elem_of_omap in Ha as (l & Hl & Hr). by exists l, a.
Qed.

(** ** Writing and reading a status file *)

(** Text that stays on its line. *)
Definition one_line (s : gostring) : Prop := (newline ∉ s) ∧ (chr 13 ∉ s).
Definition writable (p : ClosurePackage) : Prop := one_line (cp_Name p) ∧ one_line (cp_Arch p) ∧ one_line (cp_Version p).
Definition stanza_of (p : ClosurePackage) : gmap gostring gostring :=
  <[bytes_of "Version" := cp_Version p]> (<[bytes_of "Architecture" := cp_Arch p]>
    (<[bytes_of "Status" := bytes_of "install ok installed"]> (<[bytes_of "Package" := cp_Name p]> ∅))).

Lemma replace_crlf s : (chr 13 ∉ s) → replace_all crlf [newline] s = s.
Proof.
  unfold replace_all. induction s as [|c s IH]; [done|]. intros [Hc Hs]%not_elem_of_cons. cbn [replace_go].
  destruct (has_prefix crlf (c :: s)) eqn:E; [apply has_prefix_spec in E as [r E]; by injection E as ->|]. by rewrite IH.
Qed.
Lemma split_unlines ls : Forall (λ l, newline ∉ l) ls → split newline (concat (map (λ l, l ++ [newline]) ls)) = ls ++ [[]].
Proof.
  induction ls as [|l ls IH]; [done|]. intros [Hl Hls]%Forall_cons. cbn [map concat]. rewrite <- app_assoc. cbn [app].
  rewrite split_app_sep by done. by rewrite IH.
Qed.

(** A field line, read. *)
Lemma stanza_line_field key value st :
  (∃ c r, key = c :: r ∧ solid c = true ∧ c ≠ chr 9) → (":"%char ∉ key) → trim_space key = key →
  stanza_line st (status_line key value) = mkStanzas (sz_done st) (<[key := value]> (sz_cur st)) true.
Proof.
  intros (c & r & -> & Hc & H9) Hcolon Htrim. unfold stanza_line, status_line. cbn [app].
  destruct (trim_space_head c (r ++ ": " ++ value) Hc) as [s' ->].
  assert (c ≠ " "%char) as Hsp by (by intros ->).
  assert (streq (c :: s') "" = false) as -> by (by apply bool_decide_eq_false).
  assert (has_prefix " " (c :: r ++ ": " ++ value) = false) as ->.
  { unfold has_prefix. destruct (cut_prefix _ _) as [x|] eqn:E; [|done]. apply cut_prefix_Some in E. by injection E as ->. }
  assert (has_prefix [chr 9] (c :: r ++ ": " ++ value) = false) as ->.
  { unfold has_prefix. destruct (cut_prefix _ _) as [x|] eqn:E; [|done]. apply cut_prefix_Some in E. by injection E as ->. }
  cbn [orb]. change (c :: r ++ ": " ++ value) with ((c :: r) ++ ":"%char :: (" " ++ value)).
  rewrite cut_app by done. rewrite Htrim.
  assert (streq (c :: r) "" = false) as -> by (by apply bool_decide_eq_false). by rewrite trim_prefix_app.
Qed.
Lemma stanza_lines_read p d :
  fold_left stanza_line (stanza_lines p) (mkStanzas d ∅ false) = mkStanzas (d ++ [stanza_of p]) ∅ false.
Proof.
  unfold stanza_lines. cbn [fold_left].
  rewrite !stanza_line_field by first [by eexists _, _ | by apply contains_byte_false | by vm_compute]. cbn [sz_done sz_cur].
  unfold stanza_line, flush_stanza. done.
Qed.
Lemma stanzas_read ps : ∀ d,
  fold_left stanza_line (concat (map stanza_lines ps)) (mkStanzas d ∅ false) = mkStanzas (d ++ map stanza_of ps) ∅ false.
Proof.
  induction ps as [|p ps IH]; intros d; cbn [map concat]; [by rewrite app_nil_r|].
  rewrite fold_left_app, stanza_lines_read, IH. by rewrite <- app_assoc.
Qed.

Lemma closure_leb_total p q : closure_leb p q = true ∨ closure_leb q p = true.
Proof.
  unfold closure_leb, streq. rewrite (bool_decide_ext (cp_Name q = cp_Name p) (cp_Name p = cp_Name q)) by done.
  rewrite (bool_decide_ext (cp_Arch q = cp_Arch p) (cp_Arch p = cp_Arch q)) by done.
  repeat case_bool_decide; cbn [negb]; apply str_leb_total.
Qed.
Lemma closure_leb_antisym p q : closure_leb p q = true → closure_leb q p = true → p = q.
Proof.
  unfold closure_leb, streq. rewrite (bool_decide_ext (cp_Name q = cp_Name p) (cp_Name p = cp_Name q)) by done.
  rewrite (bool_decide_ext (cp_Arch q = cp_Arch p) (cp_Arch p = cp_Arch q)) by done.
  destruct p, q; cbn. repeat case_bool_decide; cbn [negb]; intros H1 H2; pose proof (str_leb_antisym _ _ H1 H2); congruence.
Qed.
Lemma closure_leb_trans p q r : closure_leb p q = true → closure_leb q r = true → closure_leb p r = true.
Proof.
  unfold closure_leb, streq. destruct p as [a b c], q as [a' b' c'], r as [a'' b'' c'']; cbn.
  repeat case_bool_decide; subst; cbn [negb]; try done; intros L1 L2;
    try (by apply (str_leb_trans _ _ _ L1 L2)); try (exfalso; pose proof (str_leb_antisym _ _ L1 L2); congruence); try done; try congruence.
Qed.
Lemma sort_closure_perm ps qs : ps ≡ₚ qs → sortClosurePackages ps = sortClosurePackages qs.
Proof.
  apply sort_by_ext; [apply closure_leb_total|apply closure_leb_trans|apply closure_leb_antisym].
Qed.
Lemma one_line_lit s : contains_byte newline s = false → contains_byte (chr 13) s = false → one_line s.
Proof. intros. by split; apply contains_byte_false. Qed.
Lemma one_line_app s t : one_line s → one_line t → one_line (s ++ t).
Proof. intros [??] [??]. split; by rewrite not_elem_of_app. Qed.
#[local] Hint Resolve one_line_app : core.
#[local] Hint Extern 2 (one_line _) => by apply one_line_lit : core.
Lemma stanza_lines_one p : writable p → Forall (λ l, one_line l) (stanza_lines p).
Proof. intros (? & ? & ?). unfold stanza_lines, status_line. repeat apply Forall_cons_2; auto using Forall_nil_2. Qed.
Lemma read_status ps : Forall writable ps →
  splitDpkgStatusStanzas (DpkgStatusFor ps) = map stanza_of (sortClosurePackages ps).
Proof.
  intros Hw. unfold splitDpkgStatusStanzas, DpkgStatusFor.
  assert (Forall (λ l, one_line l) (concat (map stanza_lines (sortClosurePackages ps)))) as Hone.
  { apply Forall_concat, Forall_map. unfold sortClosurePackages. rewrite sort_by_perm.
    eapply Forall_impl; [exact Hw|]. exact stanza_lines_one. }
  rewrite replace_crlf, split_unlines.
  - rewrite fold_left_app, stanzas_read. reflexivity.
  - eapply Forall_impl; [exact Hone|]. by intros l [H _].
  - intros (l & E & Hl)%list_elem_of_In%in_concat. apply list_elem_of_In in Hl.
    apply list_elem_of_In, list_elem_of_fmap in E as (k & -> & Hk).
    rewrite Forall_forall in Hone. destruct (Hone k Hk) as [_ H].
    apply elem_of_app in Hl as [?|?%list_elem_of_singleton]; done.
Qed.
Lemma nothing_held ps held : fold_left held_step (map stanza_of ps) held = held.
Proof.
  induction ps as [|p ps IH]; [done|]. cbn [map fold_left]. rewrite <- IH at 2. f_equal. unfold held_step.
  assert (field "Status" (stanza_of p) = "install ok installed") as -> by done.
  by destruct (streq _ _).
Qed.

(** A base's synthesised status file means what the closure says: read
    back with the reader that finds holds, it gives one stanza per package,
    with the package's name, architecture and version and the state installed,
    in the order of the closure; it puts nothing on hold; and its bytes depend
    on which packages there are and not on the order apt named them in. *)
Theorem dpkg_status_roundtrip ps :
  Forall writable ps →
  splitDpkgStatusStanzas (DpkgStatusFor ps) = map stanza_of (sortClosurePackages ps) ∧
  heldPackageVersions (Some (Ok (DpkgStatusFor ps))) = Ok ∅ ∧
  ∀ qs, qs ≡ₚ ps → DpkgStatusFor qs = DpkgStatusFor ps.
Proof.
  intros Hw. split_and!.
  - by apply read_status.
  - unfold heldPackageVersions. by rewrite read_status, nothing_held.
  - intros qs Hp. unfold DpkgStatusFor. by rewrite (sort_closure_perm _ _ Hp).
Qed.

Lemma dpkg_status_roundtrip_witness :
  let ps := [mkClosure "nginx" "amd64" "1.24.0-2ubuntu7.1"; mkClosure "libc6" "amd64" "2.39-0ubuntu8"] in
  splitDpkgStatusStanzas (DpkgStatusFor ps) = map stanza_of (sortClosurePackages ps) ∧
  heldPackageVersions (Some (Ok (DpkgStatusFor ps))) = Ok ∅ ∧
  ∀ qs, qs ≡ₚ ps → DpkgStatusFor qs = DpkgStatusFor ps.
Proof.
  cbv zeta. apply dpkg_status_roundtrip. unfold writable, one_line.
  repeat apply Forall_cons_2; [..|apply Forall_nil_2]; split_and!; apply contains_byte_false; vm_compute; reflexivity.
Defined.
