(* ===== verification/ClosedWorld.v ===== *)
(** * core/apt/closedworld.go, runner.go: does the bundle install from itself?

    A finished bundle is resolved against its own repository, in a private apt
    root whose only source it is. The child process is a parameter, whose answer
    may depend on the runs before it ([exec_apt]); so are the private root
    ([BuildPrivateRoot] in core/apt/root.go, another component), the working
    directory and the bundle's lock file. Cancellation is not modelled, and
    [filepath.ToSlash] is the identity, as it is on Linux. *)
From S2P Require Export AptParse Dferr LockDoc GoPath.
#[local] Open Scope Z_scope.

(** ** One run of apt-get (runner.go) *)

(** What the child does: it exits with a code ([-1] for a signal), or it cannot
    be started. *)
Inductive exec_result :=
| Exited (stdout stderr : gostring) (code : Z)
| NotStarted (why : gostring).

Definition lastLines (b : gostring) (n : nat) : gostring :=
  let trimmed := trim_right crlf b in
  if streq trimmed "" then []
  else let lines := split newline trimmed in join " | " (drop (length lines - n) lines).
(** [RunError], and its [Unwrap]. *)
Definition run_error (out : Output) : goerror :=
  let tail := lastLines (Combined out) 4 in
  Wrapped ("apt-get exit " ++ itoa (o_ExitCode out) ++ (if streq tail "" then [] else ": " ++ tail)) (Plain "exit status").
Definition full_args (opts args : list gostring) : list gostring := concat (map (λ o, [bytes_of "-o"; o]) opts) ++ args.
Definition Run (exec : list gostring → exec_result) (opts args : list gostring) : Output * error :=
  let argv := bytes_of "apt-get" :: full_args opts args in
  match exec (full_args opts args) with
  | Exited stdout stderr code =>
      let out := mkOutput argv stdout stderr code in
      (out, if code =? 0 then None
            else Wrap Resolution (Some (run_error out)) ("apt-get " ++ join " " args ++ ": exit " ++ itoa code))
  | NotStarted why =>
      (mkOutput argv [] [] 0, Some (DfError Environment "apt-get: exec" "install apt-get (the apt package) or pass a working apt-get path" (Some (Plain why))))
  end.
Definition fixed_env : list gostring := 
  [bytes_of "LC_ALL=C"; bytes_of "LANG=C"; bytes_of "LANGUAGE=C"; bytes_of "DEBIAN_FRONTEND=noninteractive"].
Definition env_name (kv : gostring) : gostring := match cut "=" kv with Some (k, _) => k | None => kv end.
(** [strings.ToUpper] on the ASCII names compared with. *)
Definition forced_names : list gostring := 
  [bytes_of "LC_ALL"; bytes_of "LANG"; bytes_of "LANGUAGE"; bytes_of "DEBIAN_FRONTEND"; bytes_of "APT_CONFIG"].
Definition cleanEnv (base : list gostring) (aptConfigPath : gostring) : list gostring :=
  List.filter (λ kv, negb (bool_decide (map upper_byte (env_name kv) ∈ forced_names))) base ++ fixed_env ++
  (if streq aptConfigPath "" then [] else ["APT_CONFIG=" ++ aptConfigPath]).

(** ** A path's spellings, and masking them *)

(** [net/url]: the path of a URL, escaped. *)
Definition url_plain (c : ascii) : bool := is_alnum c || existsb (beq c) "-_.~$&+,/:;=@".
Definition hex_upper (n : Z) : ascii := nth (Z.to_nat n) "0123456789ABCDEF" "0"%char.
Definition hex_lower (n : Z) : ascii := nth (Z.to_nat n) "0123456789abcdef" "0"%char.
Definition percent (digit : Z → ascii) (c : ascii) : gostring := ["%"%char; digit (ord c / 16); digit (ord c mod 16)].
Definition FileURI (absPath : gostring) : gostring :=
  let p := if has_prefix "/" absPath then absPath else "/" ++ absPath in
  "file://" ++ concat (map (λ c, if url_plain c then [c] else percent hex_upper c) p).

(** The text after the first [p], if [s] has one. *)
Fixpoint after_str (p s : gostring) : option gostring :=
  match cut_prefix p s with
  | Some r => Some r
  | None => match s with [] => None | _ :: s' => after_str p s' end
  end.
(** The text after the last [c]. *)
Definition after_last (c : ascii) (s : gostring) : option gostring :=
  match cut c (rev s) with Some (b, _) => Some (rev b) | None => None end.
Definition bad_bytes : gostring := "\|{}[]<>" ++ [chr 34] ++ "^~_=!@#$%&*".
Definition aptURItoFileName (uri : gostring) : gostring :=
  let rest := default uri (after_str "://" uri) in
  let authority := match cut "/" rest with Some (a, _) => a | None => rest end in
  let rest := match after_last "@" authority with Some a => a ++ drop (length authority) rest | None => rest end in
  concat (map (λ c,
    if beq c "/" then ["_"%char]
    else if (ord c <=? 32) || (127 <=? ord c) || existsb (beq c) bad_bytes then percent hex_lower c
    else [c]) rest).

Record ClosedWorldInput := mkCWInput {
  in_Snapshot : option (gostring * list gostring);  (** its target's architecture and foreign ones *)
  in_SnapshotFilesDir : gostring; in_BundleRepoDir : gostring; in_Install : list gostring;
  in_Upgrades : bool; in_WorkDir : gostring
}.
Definition closedWorldMasks (i : ClosedWorldInput) (bundleRepoAbs : gostring) : list (gostring * gostring) :=
  [(in_WorkDir i, bytes_of "<CLOSED-WORLD-WORKDIR>"); (bundleRepoAbs, bytes_of "<BUNDLE-REPO>");
   (in_BundleRepoDir i, bytes_of "<BUNDLE-REPO>"); (in_SnapshotFilesDir i, bytes_of "<SNAPSHOT-FILES>")].
Definition mask_one (s : gostring) (m : gostring * gostring) : gostring :=
  let '(path, placeholder) := m in
  if streq path "" then s
  else replace_all path placeholder
         (replace_all (FileURI path) placeholder (replace_all (aptURItoFileName (FileURI path)) placeholder s)).
Definition maskClosedWorldPaths (s : gostring) (masks : list (gostring * gostring)) : gostring := fold_left mask_one masks s.

(** ** The recorded result *)

Definition combinedOutput (runs : list Output) : gostring := concat (map Combined runs).
Definition enc_argvs (argvs : list (list gostring)) : json := JArr (map (λ argv, JArr (map JStr argv)) argvs).
Definition closedWorldResult `{JCS} (runs : list Output) (masks : list (gostring * gostring)) (res detail : gostring) : ClosedWorld :=
  let argvs := map (λ o, map (λ a, maskClosedWorldPaths a masks) (o_Argv o)) runs in
  mkClosedWorld res (match Canonical.Digest (enc_argvs argvs) with Ok d => d | Err _ => [] end)
    (Digest.Bytes (maskClosedWorldPaths (combinedOutput runs) masks)) (maskClosedWorldPaths detail masks).

(** ** The lock's upgrades *)

Definition upgrades (l : Lock) : list Package := List.filter (λ p, streq (p_Reason p) ReasonUpgrade) (l_Packages l).
Definition pkg_key (p : Package) : gostring := p_Name p ++ ":" ++ p_Arch p.
Definition add_want (want : gmap gostring gostring) (p : Package) : gmap gostring gostring := <[pkg_key p := p_Version p]> want.
Definition closedWorldUpgradeTargets (l : Lock) : list gostring * gmap gostring gostring :=
  (sort_strings (map (λ p, pkg_key p ++ "=" ++ p_Version p) (upgrades l)),
   fold_left add_want (upgrades l) ∅).
Definition act_key (a : InstAction) : gostring := ac_Name a ++ ":" ++ ac_Arch a.
Definition mismatch (want : gmap gostring gostring) (a : InstAction) : option gostring :=
  if negb (streq (ac_Kind a) "Inst") && negb (streq (ac_Kind a) "Conf") then None
  else match want !! act_key a with
  | None => None
  | Some v =>
      if streq (ac_Version a) v then None
      else Some (act_key a ++ ": the lock recorded " ++ v ++ " as the upgrade target, but the simulated upgrade would install " ++ ac_Version a)
  end.
Definition upgradeMismatches (want : gmap gostring gostring) (sim : SimulateResult) : list gostring :=
  sort_strings (omap (mismatch want) (sr_Actions sim)).

(** [filepath.Join] of a directory and a name. *)
Definition join_path (dir name : gostring) : gostring := path_clean (if streq dir "" then name else dir ++ "/" ++ name).

(** ** The check *)

Definition PhasedNeverInclude : gostring := "never-include".
(** The fields of a [RootSpec] the check sets. *)
Record RootSpec := mkRootSpec {
  rs_Dir : gostring; rs_Arch : gostring; rs_ForeignArchs : list gostring; rs_Recommends : bool;
  rs_PhasedPolicy : gostring; rs_SnapshotFilesDir : gostring; rs_ExtraSources : list (gostring * gostring)
}.
Record PrivateRoot := mkPrivateRoot { pr_Options : list gostring; pr_AptConfigPath : gostring }.

(** What the check meets outside: the child process, given the command lines
    before, APT_CONFIG and its arguments; the private root; the working
    directory; and the size and content of the lock file in a directory. *)
Record world := mkWorld {
  exec_apt : list (list gostring) → gostring → list gostring → exec_result;
  BuildPrivateRoot : RootSpec → result goerror PrivateRoot;
  getwd : result goerror gostring;
  lock_stat : gostring → option Z;
  lock_read : gostring → option gostring
}.

Definition filepath_Abs (w : world) (p : gostring) : result goerror gostring :=
  if has_prefix "/" p then Ok (path_clean p) else wd ← getwd w; Ok (join_path wd p).
Definition run_apt (w : world) (root : PrivateRoot) (before : list Output) (args : list gostring) : Output * error :=
  Run (exec_apt w (map o_Argv before) (pr_AptConfigPath root)) (pr_Options root) args.
Definition load_lock (w : world) (dir : gostring) : result load_error Lock :=
  let path := join_path dir FileName in Load (lock_stat w path) (lock_read w path).
Definition closed_world_root (i : ClosedWorldInput) (abs arch : gostring) (foreign : list gostring) : RootSpec :=
  mkRootSpec (join_path (in_WorkDir i) "closedworld-aptroot") arch foreign true PhasedNeverInclude (in_SnapshotFilesDir i)
    [(bytes_of "debark-bundle", "deb [trusted=yes] " ++ FileURI abs ++ " ./")].
Definition network_schemes : list gostring := [bytes_of "http://"; bytes_of "https://"; bytes_of "ftp://"].
Definition names_network `{UnicodeTables} (combined : gostring) : bool :=
  existsb (λ scheme, contains_str scheme (to_lower combined)) network_schemes.

(** A simulated install: the run and, when it does not do, what to record. *)
Definition simulation_problem (what unread_what : gostring) (sim : SimulateResult) : option gostring :=
  if sr_Failed sim then Some (what ++ simulateFailureMessage sim)
  else match sr_UnparsedActions sim with [] => None | ls => Some (unread_what ++ join "; " ls) end.
Definition simulate (w : world) (root : PrivateRoot) (before : list Output) (entries : list gostring)
    : result goerror Output :=
  let '(out, err) := run_apt w root before (bytes_of "-s" :: bytes_of "install" :: entries) in
  match err with
  | Some e => if bool_decide (ClassOf err = Resolution) then Ok out else Err e
  | None => Ok out
  end.

Section closed_world.
Context `{JCS, UnicodeTables} (w : world).

Definition install_what : gostring := "install simulation against the bundle repository failed: ".
Definition install_unread : gostring :=
  "install simulation produced action lines this build could not read, so the closed-world check could not be completed: ".
Definition upgrade_what : gostring := "upgrade-set install simulation against the bundle repository failed: ".
Definition upgrade_unread : gostring :=
  "upgrade-set simulation produced action lines this build could not read, so the closed-world check could not be completed: ".
Definition diverged : gostring :=
  "closed-world upgrade check diverged from the lock's upgrade set (E3, docs/experiments/E3-pin-fidelity.md): ".

(** The upgrade pass: the runs so far with its own, and what to record when it
    does not do. *)
Definition upgrade_pass (root : PrivateRoot) (abs : gostring) (runs : list Output)
    : result goerror (list Output * option gostring) :=
  match load_lock w (filepath_dir abs) with
  | Err _ => Err (New Usage "apt: closed-world: read the bundle's lock.json to determine the locked upgrade set")
  | Ok lk =>
      let '(entries, want) := closedWorldUpgradeTargets lk in
      match entries with
      | [] => Ok (runs, None)
      | _ =>
          out ← simulate w root runs entries;
          let sim := ParseSimulate out in
          Ok (runs ++ [out],
            match simulation_problem upgrade_what upgrade_unread sim with
            | Some d => Some d
            | None => match upgradeMismatches want sim with [] => None | ms => Some (diverged ++ join "; " ms) end
            end)
      end
  end.

Definition ClosedWorld_run (i : ClosedWorldInput) (abs : gostring) (root : PrivateRoot) : result goerror ClosedWorld :=
  let masks := closedWorldMasks i abs in
  let '(updOut, uerr) := run_apt w root [] [bytes_of "update"] in
  let upd := ParseUpdate updOut in
  if up_Failed upd then
    let msg := UpdateError upd in
    let msg := match uerr with Some e => if streq msg "" then error_text e else msg | None => msg end in
    Ok (closedWorldResult [updOut] masks ClosedWorldFailed ("update against the bundle repository failed: " ++ msg))
  else match uerr with
  | Some e => Err e
  | None =>
      instOut ← simulate w root [updOut] (in_Install i);
      let runs := [updOut; instOut] in
      match simulation_problem install_what install_unread (ParseSimulate instOut) with
      | Some d => Ok (closedWorldResult runs masks ClosedWorldFailed d)
      | None =>
          '(runs, problem) ← (if in_Upgrades i then upgrade_pass root abs runs else Ok (runs, None));
          match problem with
          | Some d => Ok (closedWorldResult runs masks ClosedWorldFailed d)
          | None =>
              if names_network (combinedOutput runs)
              then Ok (closedWorldResult runs masks ClosedWorldFailed "closed-world check referenced a network URI unexpectedly")
              else Ok (closedWorldResult runs masks ClosedWorldOK [])
          end
      end
  end.
Definition ClosedWorld_check (i : ClosedWorldInput) : result goerror ClosedWorld :=
  if streq (in_BundleRepoDir i) "" then Ok (mkClosedWorld ClosedWorldSkipped [] [] "no bundle repository directory given")
  else match in_Install i with
  | [] => Ok (mkClosedWorld ClosedWorldSkipped [] [] "install set is empty")
  | _ =>
      abs ← filepath_Abs w (in_BundleRepoDir i);
      let '(arch, foreign) := match in_Snapshot i with Some t => t | None => ([], []) end in
      if streq arch "" then Err (New Usage "apt: closed-world: no target architecture")
      else if streq (in_WorkDir i) "" then
        Err (New Usage "apt: closed-world check: WorkDir is empty; the private apt root has nowhere to live")
      else root ← BuildPrivateRoot w (closed_world_root i abs arch foreign);
           ClosedWorld_run i abs root
  end.
End closed_world.

(** ** What [ok] means *)

(** The child ran with these arguments and exited with 0; this is its output. *)
Definition ran (w : world) (root : PrivateRoot) (before : list Output) (args : list gostring) (out : Output) : Prop :=
  ∃ stdout stderr,
    exec_apt w (map o_Argv before) (pr_AptConfigPath root) (full_args (pr_Options root) args) = Exited stdout stderr 0 ∧
    out = mkOutput (bytes_of "apt-get" :: full_args (pr_Options root) args) stdout stderr 0.
(** A simulation that succeeded and whose every action was understood. *)
Definition understood (out : Output) : Prop :=
  ∀ l, l ∈ splitLines (Combined out) → has_prefix "E:" l = false ∧ (claims_action l = true → is_Some (read_action l)).
Definition install_args (entries : list gostring) : list gostring := bytes_of "-s" :: bytes_of "install" :: entries.

Lemma run_ok w root before args out : run_apt w root before args = (out, None) → ran w root before args out.
Proof.
  unfold run_apt, Run, ran. destruct (exec_apt _ _ _ _) as [so se code|why] eqn:E; [|done].
  destruct (Z.eqb_spec code 0) as [->|]; [|done]. intros [= <-]. by exists so, se.
Qed.
Lemma simulate_ok w root before entries out :
  simulate w root before entries = Ok out → sr_Failed (ParseSimulate out) = false →
  ran w root before (install_args entries) out.
Proof.
  intros Hs Hf. apply run_ok. unfold simulate in Hs. change (bytes_of "-s" :: _) with (install_args entries) in Hs.
  destruct (run_apt w root before (install_args entries)) as [o [e|]] eqn:Er; [|by injection Hs as ->]. exfalso.
  destruct (ParseSimulate_facts out) as (_ & _ & H3). cbv zeta in H3.
  unfold run_apt, Run in Er. destruct (exec_apt _ _ _ _) as [so se code|why].
  - injection Er as <- Ee. destruct (Z.eqb_spec code 0) as [|Hc]; [done|]. injection Ee as <-. cbn in Hs. injection Hs as <-.
    rewrite Hf in H3. destruct H3 as [_ H3]. by discriminate H3; left.
  - injection Er as <- <-. by cbn in Hs.
Qed.
Lemma simulation_fine what unread_what out :
  simulation_problem what unread_what (ParseSimulate out) = None → sr_Failed (ParseSimulate out) = false ∧ understood out.
Proof.
  unfold simulation_problem. destruct (ParseSimulate_facts out) as (_ & H2 & H3). cbv zeta in *.
  destruct (sr_Failed _); [done|]. destruct (sr_UnparsedActions _) as [|] eqn:Eu; [|done]. intros _. split; [done|].
  intros l Hl. split.
  - apply not_true_iff_false. intros HE. destruct H3 as [_ H3]. discriminate H3. right. exists l. split; [done|].
    unfold says_failed. rewrite HE. apply orb_true_r.
  - intros Hc. destruct (read_action l) as [a|] eqn:Ea; [by exists a|]. exfalso.
    assert (l ∈ List.filter unread (splitLines (Combined out))) as Hin.
    { apply elem_of_lfilter. split; [done|]. unfold unread, re_matches. rewrite Hc. unfold read_action in Ea.
      by destruct (find_submatch instConfRE l). }
    symmetry in H2. apply map_eq_nil in H2. rewrite H2 in Hin. by apply elem_of_nil in Hin.
Qed.

(** The upgrade targets, as the lock lists them. *)
Lemma want_lookup ps : ∀ want k,
  (∀ v, fold_left add_want ps want !! k = Some v →
     (∃ p, p ∈ ps ∧ pkg_key p = k ∧ p_Version p = v) ∨ want !! k = Some v) ∧
  ((∃ p, p ∈ ps ∧ pkg_key p = k) ∨ is_Some (want !! k) → is_Some (fold_left add_want ps want !! k)).
Proof.
  induction ps as [|p ps IH]; intros want k; cbn [fold_left].
  { split; [by right|]. by intros [(p & ?%elem_of_nil & _)|?]. }
  destruct (IH (add_want want p) k) as [H1 H2]. split.
  - intros v Hv. destruct (H1 v Hv) as [(q & Hq & ?)|Hk]; [left; exists q; split; [by right|done]|]. unfold add_want in Hk.
    destruct (decide (pkg_key p = k)) as [<-|Hne].
    + rewrite lookup_insert_eq in Hk. injection Hk as <-. left. exists p. split_and!; [by left|done|done].
    + rewrite lookup_insert_ne in Hk by done. by right.
  - intros Hk. apply H2. unfold add_want. destruct (decide (pkg_key p = k)) as [<-|Hne].
    + right. by rewrite lookup_insert_eq.
    + rewrite lookup_insert_ne by done. destruct Hk as [(q & [->|Hq]%elem_of_cons & Ek)|Hk]; [done|left; by exists q|by right].
Qed.
(** The upgrades a lock records, and each as it must be asked for. *)
Definition locked_upgrades (lk : Lock) : list Package := filter (λ p, p_Reason p = "upgrade") (l_Packages lk).
Definition exact_operand (p : Package) : gostring := p_Name p ++ ":" ++ p_Arch p ++ "=" ++ p_Version p.
(** A line of the output that says an upgrade is installed or configured, as it is
    read, says so with a version the lock records for that name and
    architecture. *)
Definition faithful (lk : Lock) (out : Output) : Prop :=
  ∀ l a p, l ∈ splitLines (Combined out) → read_action l = Some a → ac_Kind a = "Inst" ∨ ac_Kind a = "Conf" →
    p ∈ locked_upgrades lk → ac_Name a = p_Name p → ac_Arch a = p_Arch p →
    ∃ q, q ∈ locked_upgrades lk ∧ p_Name q ++ ":" ++ p_Arch q = p_Name p ++ ":" ++ p_Arch p ∧ ac_Version a = p_Version q.

Lemma upgrades_locked lk : upgrades lk = locked_upgrades lk.
Proof.
  unfold upgrades, locked_upgrades. induction (l_Packages lk) as [|p ps IH]; [done|]. cbn [List.filter].
  destruct (decide (p_Reason p = "upgrade")) as [E|E].
  - rewrite filter_cons_True by done. assert (streq (p_Reason p) ReasonUpgrade = true) as -> by (by apply streq_true). by rewrite IH.
  - rewrite filter_cons_False by done. assert (streq (p_Reason p) ReasonUpgrade = false) as -> by (by apply streq_false_iff). by rewrite IH.
Qed.
Lemma targets_asked lk : (closedWorldUpgradeTargets lk).1 ≡ₚ map exact_operand (locked_upgrades lk).
Proof.
  rewrite <- upgrades_locked. cbn [closedWorldUpgradeTargets fst]. rewrite sort_strings_perm.
  erewrite map_ext; [done|]. intros p. unfold pkg_key, exact_operand. by rewrite <- !app_assoc.
Qed.
Lemma no_mismatch lk out :
  upgradeMismatches (closedWorldUpgradeTargets lk).2 (ParseSimulate out) = [] → faithful lk out.
Proof.
  unfold upgradeMismatches. intros Hm l a p Hl Hr Hk Hp Hn Ha. cbn [closedWorldUpgradeTargets snd] in Hm.
  assert (a ∈ sr_Actions (ParseSimulate out)) as Hin.
  { destruct (ParseSimulate_facts out) as (-> & _ & _). apply list_elem_of_omap. by exists l. }
  assert (pkg_key p = act_key a) as Ekey by (unfold pkg_key, act_key; by rewrite Hn, Ha).
  assert (omap (mismatch (closedWorldUpgradeTargets lk).2) (sr_Actions (ParseSimulate out)) = []) as Hnil.
  { apply Permutation_nil. rewrite <- Hm. apply sort_by_perm. }
  rewrite <- upgrades_locked in *. destruct (want_lookup (upgrades lk) ∅ (act_key a)) as [H1 H2].
  destruct H2 as [v Hv]; [left; by exists p|]. destruct (H1 v Hv) as [(q & Hq & Ek & Ev)|Hbad]; [|done].
  exists q. split_and!; [done|unfold pkg_key in *; congruence|]. rewrite Ev. destruct (decide (ac_Version a = v)) as [|Hne]; [done|]. exfalso.
  assert (∃ d, mismatch (closedWorldUpgradeTargets lk).2 a = Some d) as [d Hd].
  { unfold mismatch. cbn [closedWorldUpgradeTargets snd]. rewrite Hv. unfold streq.
    rewrite (bool_decide_eq_false_2 (ac_Version a = v)) by done.
    destruct Hk as [->| ->]; cbn; eauto. }
  assert (d ∈ omap (mismatch (closedWorldUpgradeTargets lk).2) (sr_Actions (ParseSimulate out))) as Hd'
    by (apply list_elem_of_omap; eauto).
  rewrite Hnil in Hd'. by apply elem_of_nil in Hd'.
Qed.

(** What the update pass leaves: none of its lines is an error. *)
Lemma error_line_kept line : has_prefix "E:" line = true →
  find_submatch updateLineRE line = None ∧ find_submatch gpgErrorRE line = None.
Proof.
  intros [r ->]%has_prefix_spec. unfold updateLineRE, gpgErrorRE. cbn [cats]. rewrite !find_submatch_bol.
  unfold match_at. by cbn [re_match cut_prefix alts app].
Qed.
Lemma reason_line line : has_prefix "  " line = true → has_prefix "E:" line = false.
Proof. by intros [r ->]%has_prefix_spec. Qed.
Lemma update_loop_failed n : ∀ lines es gs failed summary, (length lines ≤ n)%nat →
  snd (fst (update_loop lines es gs failed summary)) = failed || existsb (has_prefix "E:") lines.
Proof.
  induction n as [|n IH]; intros [|line rest] es gs failed summary Hn; cbn [length] in Hn; try lia;
    cbn [update_loop existsb]; try (cbn; by rewrite orb_false_r).
  destruct (find_submatch updateLineRE line) as [m|] eqn:Em.
  { assert (has_prefix "E:" line = false) as ->.
    { apply not_true_iff_false. intros HE. apply error_line_kept in HE as [HE _]. congruence. }
    destruct rest as [|reason rest]; [by rewrite IH by (cbn in *; lia)|]. cbn [length] in Hn.
    destruct (streq (group 1 m) "Err" && has_prefix "  " reason) eqn:Er; [|by rewrite IH by (cbn [length]; lia)].
    apply andb_true_iff in Er as [_ Er]. rewrite IH by lia. cbn [existsb]. by rewrite (reason_line _ Er). }
  destruct (find_submatch gpgErrorRE line) as [m|] eqn:Eg.
  { assert (has_prefix "E:" line = false) as ->.
    { apply not_true_iff_false. intros HE. apply error_line_kept in HE as [_ HE]. congruence. }
    by rewrite IH by lia. }
  destruct (has_prefix "E:" line); rewrite IH by lia; [by rewrite orb_true_r|done].
Qed.
Lemma ParseUpdate_fine out : up_Failed (ParseUpdate out) = false →
  o_ExitCode out = 0 ∧ ∀ l, l ∈ splitLines (Combined out) → has_prefix "E:" l = false.
Proof.
  unfold ParseUpdate. pose proof (update_loop_failed (length (splitLines (Combined out))) (splitLines (Combined out)) [] [] false []) as H.
  destruct (update_loop _ _ _ _ _) as [[[es gs] failed] summary]. cbn [fst snd] in H. cbn [up_Failed]. rewrite H by done.
  intros [He Hc%negb_false_iff%Z.eqb_eq]%orb_false_iff. split; [done|]. intros l Hl. cbn [orb] in He.
  apply not_true_iff_false. intros Ht. apply not_true_iff_false in He. apply He, existsb_exists. exists l. by rewrite <- list_elem_of_In.
Qed.

Section ok.
Context `{JCS, UnicodeTables} (w : world).

(** The runs an upgrade check adds. *)
Definition upgrades_checked (abs : gostring) (root : PrivateRoot) (runs rest : list Output) : Prop :=
  ∃ lk, load_lock w (filepath_dir abs) = Ok lk ∧
    (locked_upgrades lk ≠ [] → ∃ out operands, rest = [out] ∧ operands ≡ₚ map exact_operand (locked_upgrades lk) ∧
       ran w root runs (bytes_of "-s" :: bytes_of "install" :: operands) out ∧ understood out ∧ faithful lk out).
(** The private root: its only source of packages is the bundle. *)
Definition over_bundle (i : ClosedWorldInput) (abs : gostring) (spec : RootSpec) : Prop :=
  in_Snapshot i = Some (rs_Arch spec, rs_ForeignArchs spec) ∧ rs_Arch spec ≠ ""
  ∧ rs_SnapshotFilesDir spec = in_SnapshotFilesDir i ∧ rs_Recommends spec = true ∧ rs_PhasedPolicy spec = "never-include"
  ∧ rs_ExtraSources spec = [(bytes_of "debark-bundle", "deb [trusted=yes] " ++ FileURI abs ++ " ./")].
(** What an [ok] of the check rests on, and what it records. *)
Record certified (i : ClosedWorldInput) (c : ClosedWorld) (abs : gostring) (root : PrivateRoot)
    (update install : Output) (rest : list Output) : Prop := {
  ce_abs : filepath_Abs w (in_BundleRepoDir i) = Ok abs;
  ce_root : ∃ spec, over_bundle i abs spec ∧ BuildPrivateRoot w spec = Ok root;
  ce_update : ran w root [] [bytes_of "update"] update ∧ ∀ l, l ∈ splitLines (Combined update) → has_prefix "E:" l = false;
  ce_nonempty : in_Install i ≠ [];
  ce_install : ran w root [update] (bytes_of "-s" :: bytes_of "install" :: in_Install i) install ∧ understood install;
  ce_upgrades : in_Upgrades i = true → upgrades_checked abs root [update; install] rest;
  ce_offline : Forall (λ scheme, contains_str scheme (to_lower (concat (map Combined (update :: install :: rest)))) = false)
    [bytes_of "http://"; bytes_of "https://"; bytes_of "ftp://"];
  ce_output : cw_OutputDigest c = Digest.Bytes (maskClosedWorldPaths (concat (map Combined (update :: install :: rest))) (closedWorldMasks i abs));
  ce_command : ∀ d, Canonical.Digest (enc_argvs (map (λ o, map (λ a, maskClosedWorldPaths a (closedWorldMasks i abs)) (o_Argv o)) (update :: install :: rest))) = Ok d →
    cw_CommandDigest c = d
}.

Lemma upgrade_pass_ok root abs runs out : upgrade_pass w root abs runs = Ok (out, None) →
  ∃ rest, out = runs ++ rest ∧ upgrades_checked abs root runs rest.
Proof.
  unfold upgrade_pass, upgrades_checked. destruct (load_lock w (filepath_dir abs)) as [lk|e]; [|done].
  pose proof (targets_asked lk) as Hasked. pose proof (no_mismatch lk) as Hmm.
  destruct (closedWorldUpgradeTargets lk) as [entries want]. cbn [fst snd] in *. destruct entries as [|e0 es].
  - intros [= <-]. exists []. rewrite app_nil_r. split; [done|]. exists lk. split; [done|]. intros Hne. exfalso. apply Hne.
    symmetry in Hasked. apply Permutation_nil_r in Hasked. by apply map_eq_nil in Hasked.
  - rewrite bind_Ok. intros (o & Hs & [= <- Hd]). exists [o]. split; [done|]. exists lk. split; [done|]. intros _. exists o, (e0 :: es).
    destruct (simulation_problem _ _ _) eqn:Ep; [done|]. apply simulation_fine in Ep as [Hf Hu]. split_and!; [done|done| |done|].
    + by apply simulate_ok.
    + apply Hmm. by destruct (upgradeMismatches want (ParseSimulate o)).
Qed.
Lemma offline_spelled combined : names_network combined = false →
  Forall (λ scheme, contains_str scheme (to_lower combined) = false) [bytes_of "http://"; bytes_of "https://"; bytes_of "ftp://"].
Proof.
  unfold names_network. cbn [existsb network_schemes]. intros [H1 [H2 [H3 _]%orb_false_iff]%orb_false_iff]%orb_false_iff. by repeat constructor.
Qed.

End ok.

(** A bundle with one requested package and one upgrade. *)
Definition upgrade_package : Package :=
  mkPackage "libc6" "amd64" "2.39-0ubuntu8" [] "pool/l/libc6.deb" 12 (Bytes "abc") (mkOrigin [] [] [] [] [] [])
    ReasonUpgrade VerifiedAPTSigned [] false.
Definition upgrade_lock : Lock :=
  mkLock SchemaVersion [] [] [] (mkTarget "ubuntu" "24.04" "noble" "amd64" [] [] [])
    (mkResolver BackendLocal [] [] [] [] [] [] false [])
    [sample_package "hello" "pool/h/hello.deb"; upgrade_package]
    [bytes_of "hello:amd64=1.0-1"] (mkClosedWorld ClosedWorldOK [] [] []) [] [] (mkStats 2 0 0 24 24).
Definition sample_apt (before : list (list gostring)) (config : gostring) (args : list gostring) : exec_result :=
  match before with
  | [] => Exited ("Get:1 file:/out/my%20bundle/repo ./ Packages [1 B]" ++ [newline]) [] 0
  | [_] => Exited ("Inst hello (1.0-1 debark:bundle [amd64])" ++ newline :: "Conf hello (1.0-1 debark:bundle [amd64])") [] 0
  | _ => Exited ("Inst libc6 [2.38] (2.39-0ubuntu8 debark:bundle [amd64]) []" ++ [newline]) "W: nothing" 0
  end.
Definition sample_world : world := {|
  exec_apt := sample_apt;
  BuildPrivateRoot := λ spec, Ok (mkPrivateRoot ["Dir=" ++ rs_Dir spec] (rs_Dir spec ++ "/apt.conf"));
  getwd := Ok (bytes_of "/out"); lock_stat := λ _, Some 1;
  lock_read := λ path, if streq path "/out/my bundle/lock.json" then match MarshalIndent (enc_Lock upgrade_lock) with Ok out => Some out | Err _ => None end else None
|}.
Definition sample_check : ClosedWorldInput :=
  mkCWInput (Some (bytes_of "amd64", [])) "/tmp/w/snap" "my bundle/repo" [bytes_of "hello:amd64=1.0-1"] true "/tmp/w".
Definition sample_verdict : ClosedWorld :=
  match @ClosedWorld_check sample_jcs ascii_tables sample_world sample_check with Ok c => c | Err _ => mkClosedWorld [] [] [] [] end.


(** A line that names no architecture is read, and compared with nothing: here
    apt would install another libc6 than the lock's, and the check says [ok]. *)
Definition archless_apt (before : list (list gostring)) (config : gostring) (args : list gostring) : exec_result :=
  match before with
  | [] | [_] => sample_apt before config args
  | _ => Exited ("Inst libc6 [2.38] (2.40-1 debark:bundle)" ++ [newline]) [] 0
  end.
Definition archless_world : world := {|
  exec_apt := archless_apt; BuildPrivateRoot := BuildPrivateRoot sample_world; getwd := getwd sample_world;
  lock_stat := lock_stat sample_world; lock_read := lock_read sample_world
|}.
Example no_architecture :
  read_action "Inst libc6 [2.38] (2.40-1 debark:bundle)" = Some (mkAction "Inst" "libc6" "2.38" "2.40-1 debark:bundle" [] [])
  ∧ (cw_Result <$> @ClosedWorld_check sample_jcs ascii_tables archless_world sample_check) = Ok ClosedWorldOK.
Proof. split; vm_compute; reflexivity. Qed.

(** The bundle's path, in the four spellings it is masked in. *)
Example masked_spellings :
  maskClosedWorldPaths ("/out/my bundle_2/repo file:///out/my%20bundle_2/repo/x _out_my%2520bundle%5f2_repo_._Release")
    [(bytes_of "/out/my bundle_2/repo", bytes_of "<BUNDLE-REPO>")] = "<BUNDLE-REPO> <BUNDLE-REPO>/x <BUNDLE-REPO>_._Release".
Proof. by vm_compute. Qed.
Example masked_userinfo : aptURItoFileName "http://user:pw@host/a_b ~" = "host_a%5fb%20%7e".
Proof. by vm_compute. Qed.
