(* ===== verification/AptConfText.v ===== *)
(** * core/apt/aptconf.go: the text of an apt configuration file.

    The tokenizer, the parser and the serializer of apt.conf syntax. The two
    loops are written with fuel and used with the length of what is left to
    read; [tokenize_eq] and [parse_eq] are their equations without it. What the
    serializer writes is read back as the same items ([reread]), a key without
    a value as an empty block. *)
From S2P Require Export GoText.
#[local] Open Scope nat_scope.

Definition dquote : ascii := chr 34.

(** ** Tokens *)

Inductive confTok :=
| tokWord (text : gostring)
| tokString (text : gostring)
| tokOpen
| tokClose
| tokSemi
| tokDirective (text : gostring).

Definition conf_space (c : ascii) : bool := beq c " " || beq c (chr 9) || beq c (chr 13) || beq c newline.
Definition starts_slash (s : gostring) : bool := match s with c :: _ => beq c "/" | [] => false end.

(** The rest of the line, without its end. *)
Fixpoint span_line (s : gostring) : gostring * gostring :=
  match s with
  | [] => ([], [])
  | c :: r => if beq c newline then ([], s) else let '(l, rest) := span_line r in (c :: l, rest)
  end.

(** A string after its opening quote: the text, and what follows the closing
    quote. *)
Fixpoint take_string (s : gostring) : gostring * gostring :=
  match s with
  | [] => ([], [])
  | c :: r =>
      if beq c dquote then ([], r)
      else match r with
      | d :: r' =>
          if beq c "\" then let '(t, rest) := take_string r' in (d :: t, rest)
          else let '(t, rest) := take_string r in (c :: t, rest)
      | [] => ([c], [])
      end
  end.

Definition word_stop (c : ascii) (r : gostring) : bool :=
  conf_space c || beq c "{" || beq c "}" || beq c ";" || beq c dquote || (beq c "/" && starts_slash r).
Fixpoint take_word (s : gostring) : gostring * gostring :=
  match s with
  | [] => ([], [])
  | c :: r => if word_stop c r then ([], s) else let '(w, rest) := take_word r in (c :: w, rest)
  end.

(** One turn of the loop at a byte [c] with [r] after it; [go] reads on. *)
Definition token_step (go : gostring → list confTok) (c : ascii) (r : gostring) : list confTok :=
  if conf_space c then go r
  else if beq c "/" && starts_slash r then go (span_line (c :: r)).2
  else if beq c "{" then tokOpen :: go r
  else if beq c "}" then tokClose :: go r
  else if beq c ";" then tokSemi :: go r
  else if beq c dquote then tokString (take_string r).1 :: go (take_string r).2
  else if beq c "#" then tokDirective (trim_right [chr 13] (span_line (c :: r)).1) :: go (span_line (c :: r)).2
  else match take_word (c :: r) with
  | ([], _) => go r
  | (w, rest) => tokWord w :: go rest
  end.
Fixpoint token_loop (n : nat) (s : gostring) : list confTok :=
  match n, s with
  | S n', c :: r => token_step (token_loop n') c r
  | _, _ => []
  end.
Definition tokenizeAptConf (data : gostring) : list confTok := token_loop (length data) data.

(** ** Items *)

Inductive confItem := mkItem {
  Directive : gostring;
  Key : gostring;
  Value : gostring;
  HasValue : bool;
  Block : list confItem;
  IsBlock : bool
}.
Definition directive_item (d : gostring) : confItem := mkItem d [] [] false [] false.
Definition bare_item (v : gostring) : confItem := mkItem [] [] v true [] false.
Definition block_item (k : gostring) (b : list confItem) : confItem := mkItem [] k [] false b true.
Definition value_item (k v : gostring) : confItem := mkItem [] k v true [] false.
Definition key_item (k : gostring) : confItem := mkItem [] k [] false [] false.

Definition skip_semi (toks : list confTok) : list confTok := match toks with tokSemi :: r => r | _ => toks end.
Definition skip_close (toks : list confTok) : list confTok := match toks with tokClose :: r => r | _ => toks end.

Definition item_then (it : confItem) (p : list confItem * list confTok) : list confItem * list confTok :=
  (it :: p.1, p.2).
Fixpoint parse_loop (n : nat) (toks : list confTok) : list confItem * list confTok :=
  match n with
  | O => ([], toks)
  | S n' =>
      match toks with
      | [] => ([], [])
      | tokClose :: _ => ([], toks)
      | tokDirective t :: r => item_then (directive_item t) (parse_loop n' r)
      | tokString t :: r => item_then (bare_item t) (parse_loop n' (skip_semi r))
      | tokWord key :: tokOpen :: r =>
          let '(block, rest) := parse_loop n' r in
          item_then (block_item key block) (parse_loop n' (skip_semi (skip_close rest)))
      | tokWord key :: tokWord v :: r | tokWord key :: tokString v :: r =>
          item_then (value_item key v) (parse_loop n' (skip_semi r))
      | tokWord key :: r => item_then (key_item key) (parse_loop n' (skip_semi r))
      | _ :: r => parse_loop n' r
      end
  end.
Definition parseAptConfItems (toks : list confTok) : list confItem * list confTok :=
  parse_loop (length toks) toks.

(** The items this program reads in the text of a file. apt's own reader is not
    under src/: nothing here says that it reads a text in the same way. *)
Definition read_conf (data : gostring) : list confItem := (parseAptConfItems (tokenizeAptConf data)).1.

(** ** The serializer *)

Definition escape_byte (c : ascii) : gostring := if beq c dquote || beq c "\" then ["\"%char; c] else [c].
Definition quoteConfValue (v : gostring) : gostring := dquote :: concat (map escape_byte v) ++ [dquote].

Definition conf_indent (depth : nat) : gostring := concat (replicate depth (bytes_of "    ")).
Fixpoint serialize_item (depth : nat) (it : confItem) : gostring :=
  let indent := conf_indent depth in
  if negb (streq (Directive it) "") then Directive it ++ [newline]
  else if streq (Key it) "" then indent ++ quoteConfValue (Value it) ++ bytes_of ";" ++ [newline]
  else if IsBlock it then
    indent ++ Key it ++ [newline] ++ indent ++ bytes_of "{" ++ [newline]
    ++ concat (map (serialize_item (S depth)) (Block it)) ++ indent ++ bytes_of "};" ++ [newline]
  else if HasValue it then indent ++ Key it ++ bytes_of " " ++ quoteConfValue (Value it) ++ bytes_of ";" ++ [newline]
  else indent ++ Key it ++ bytes_of " {};" ++ [newline].
Definition serializeAptConfItems (depth : nat) (items : list confItem) : gostring :=
  concat (map (serialize_item depth) items).

(** ** The loops return *)

Lemma span_line_length s : length (span_line s).2 ≤ length s.
Proof. induction s as [|c r IH]; simpl; [lia|]. case_match; simpl; [lia|]. destruct (span_line r); simpl in *; lia. Qed.

Lemma take_string_length s : length (take_string s).2 ≤ length s.
Proof.
  induction s as [s IH] using (induction_ltof1 _ length); unfold ltof in IH.
  destruct s as [|c r]; [done|]. pose proof (IH r ltac:(simpl; lia)) as H1. simpl.
  destruct (take_string r) as [t rest]; simpl in H1.
  case_match; simpl; [lia|]. destruct r as [|d r']; simpl in *; [lia|].
  pose proof (IH r' ltac:(simpl; lia)) as H2. destruct (take_string r') as [t' rest']; simpl in H2.
  case_match; simpl; lia.
Qed.

Lemma take_word_length s : length (take_word s).1 + length (take_word s).2 = length s.
Proof. induction s as [|c r IH]; simpl; [lia|]. case_match; simpl; [lia|]. destruct (take_word r); simpl in *; lia. Qed.

(** A turn of the loop only reads on in what is strictly shorter. *)
Lemma token_step_ext f g c r : (∀ s, length s ≤ length r → f s = g s) → token_step f c r = token_step g c r.
Proof.
  intros E. unfold token_step.
  pose proof (span_line_length (c :: r)) as Hl. pose proof (take_string_length r) as Hs.
  pose proof (take_word_length (c :: r)) as Hw.
  destruct (conf_space c); [by rewrite E|].
  assert (∀ x, x ≠ newline → beq c x = true → length (span_line (c :: r)).2 ≤ length r) as Hline.
  { intros x Hx Hc. apply bool_decide_eq_true in Hc as ->. simpl.
    unfold beq. rewrite bool_decide_eq_false_2 by done.
    pose proof (span_line_length r). destruct (span_line r); simpl in *; lia. }
  destruct (beq c "/" && starts_slash r) eqn:Hc; [apply andb_true_iff in Hc as [? _]; by apply E, (Hline "/"%char)|].
  do 3 (case_match; [by rewrite E|]). case_match; [by rewrite E|].
  destruct (beq c "#") eqn:Hh; [f_equal; by apply E, (Hline "#"%char)|].
  destruct (take_word (c :: r)) as [w rest]; simpl in *. destruct w; [by apply E|].
  f_equal. apply E. simpl in Hw. lia.
Qed.

Lemma token_loop_fuel n : ∀ m s, length s ≤ n → length s ≤ m → token_loop n s = token_loop m s.
Proof.
  induction n as [|n IH]; intros m s Hn Hm.
  - destruct s; simpl in Hn; [|lia]. by destruct m.
  - destruct s as [|c r]; [by destruct m|]. destruct m as [|m]; simpl in *; [lia|].
    apply token_step_ext. intros s Hs. apply IH; lia.
Qed.

Lemma tokenize_eq c r : tokenizeAptConf (c :: r) = token_step tokenizeAptConf c r.
Proof.
  unfold tokenizeAptConf at 1. simpl. apply token_step_ext. intros s Hs. by apply token_loop_fuel.
Qed.

Lemma skip_length toks : length (skip_semi toks) ≤ length toks ∧ length (skip_close toks) ≤ length toks.
Proof. destruct toks as [|[]]; simpl; lia. Qed.

Lemma parse_loop_length n : ∀ toks, length (parse_loop n toks).2 ≤ length toks.
Proof.
  induction n as [|n IH]; intros toks; [done|].
  pose proof (λ t, proj1 (skip_length t)) as Hs. pose proof (λ t, proj2 (skip_length t)) as Hc.
  destruct toks as [|[k|v| | | |d] r]; simpl; try lia.
  - destruct r as [|[k'|v'| | | |d'] r']; simpl.
    all: try (etrans; [apply IH|]; simpl; pose proof (Hs r'); lia).
    all: try (etrans; [apply IH|]; simpl; lia).
    specialize (IH r') as Hr. destruct (parse_loop n r') as [b rest]; simpl in *.
    etrans; [apply IH|]. pose proof (Hs (skip_close rest)). pose proof (Hc rest). lia.
  - etrans; [apply IH|]. pose proof (Hs r). lia.
  - etrans; [apply IH|]. lia.
  - etrans; [apply IH|]. lia.
  - etrans; [apply IH|]. lia.
Qed.

Lemma parse_loop_fuel n : ∀ m toks, length toks ≤ n → length toks ≤ m → parse_loop n toks = parse_loop m toks.
Proof.
  induction n as [|n IH]; intros m toks Hn Hm.
  - destruct toks; simpl in Hn; [|lia]. by destruct m.
  - destruct toks as [|t r]; [by destruct m|]. destruct m as [|m]; simpl in Hm; [lia|]. simpl in Hn.
    pose proof (λ t, proj1 (skip_length t)) as Hs. pose proof (λ t, proj2 (skip_length t)) as Hc.
    assert (∀ q, length q ≤ length r → parse_loop n q = parse_loop m q) as E by (intros q Hq; apply IH; lia).
    destruct t as [k|v| | | |d]; simpl.
    + destruct r as [|[k'|v'| | | |d'] r']; simpl; try (by rewrite E by done).
      all: try (rewrite E by (simpl; pose proof (Hs r'); lia); done).
      rewrite (E r') by (simpl; lia). pose proof (parse_loop_length m r').
      destruct (parse_loop m r') as [b rest]; simpl in *.
      rewrite E; [done|]. pose proof (Hs (skip_close rest)). pose proof (Hc rest). lia.
    + by rewrite E by apply Hs.
    + by rewrite E.
    + done.
    + by rewrite E.
    + by rewrite E.
Qed.

(** The parser's equations on the texts the serializer writes. *)
Definition closed (toks : list confTok) : Prop := toks = [] ∨ ∃ r, toks = tokClose :: r.
Lemma parse_closed toks : closed toks → parseAptConfItems toks = ([], toks).
Proof. intros [->|[r ->]]; done. Qed.

Lemma parse_bare v r : parseAptConfItems (tokString v :: r) = item_then (bare_item v) (parseAptConfItems (skip_semi r)).
Proof.
  unfold parseAptConfItems at 1. simpl. f_equal. apply parse_loop_fuel; [apply skip_length|done].
Qed.

Lemma parse_value k v r :
  parseAptConfItems (tokWord k :: tokString v :: r) = item_then (value_item k v) (parseAptConfItems (skip_semi r)).
Proof.
  unfold parseAptConfItems. cbn [parse_loop length]. f_equal. pose proof (proj1 (skip_length r)).
  apply (parse_loop_fuel (S (length r))); lia.
Qed.

Lemma parse_block k r :
  parseAptConfItems (tokWord k :: tokOpen :: r) =
    let '(b, rest) := parseAptConfItems r in
    item_then (block_item k b) (parseAptConfItems (skip_semi (skip_close rest))).
Proof.
  change (parseAptConfItems (tokWord k :: tokOpen :: r)) with
    (let '(b, rest) := parse_loop (S (length r)) r in
     item_then (block_item k b) (parse_loop (S (length r)) (skip_semi (skip_close rest)))).
  rewrite (parse_loop_fuel (S (length r)) (length r)) by lia.
  pose proof (parse_loop_length (length r) r). fold (parseAptConfItems r) in *.
  destruct (parseAptConfItems r) as [b rest]; simpl in *. f_equal.
  pose proof (proj1 (skip_length (skip_close rest))). pose proof (proj2 (skip_length rest)).
  apply (parse_loop_fuel (S (length r))); lia.
Qed.

(** ** What the parser's items look like *)

(** A bare word of the syntax: what the tokenizer reads back whole. *)
Definition word (w : gostring) : Prop := take_word w = (w, []) ∧ ∃ c w', w = c :: w' ∧ c ≠ "#"%char.

Lemma take_word_inv s w rest : take_word s = (w, rest) → take_word w = (w, []).
Proof.
  revert w rest; induction s as [|c r IH]; intros w rest; simpl; [by intros [= <- <-]|].
  destruct (word_stop c r) eqn:Hs; [by intros [= <- <-]|].
  destruct (take_word r) as [w' rest'] eqn:Ht. intros [= <- <-]. simpl.
  rewrite (IH _ _ eq_refl). replace (word_stop c w') with false; [done|].
  symmetry. unfold word_stop in *. rewrite !orb_false_iff in *. destruct Hs as [? Hs]; split; [done|].
  apply andb_false_iff in Hs as [->|Hs]; [done|]. apply andb_false_iff; right.
  destruct r as [|d r]; simpl in Ht; [by simplify_eq|].
  destruct (word_stop d r); [by simplify_eq|]. destruct (take_word r); by simplify_eq.
Qed.

Lemma take_word_app w d s : take_word w = (w, []) → conf_space d = true → take_word (w ++ d :: s) = (w, d :: s).
Proof.
  intros Hw Hd. induction w as [|c w IH]; simpl in *.
  - unfold word_stop. by rewrite Hd.
  - destruct (word_stop c w) eqn:Hs; [done|]. destruct (take_word w) as [w' r'] eqn:Ht. simplify_eq.
    rewrite IH by done. replace (word_stop c (w ++ d :: s)) with false; [done|]. symmetry.
    unfold word_stop in *. rewrite !orb_false_iff in *. destruct Hs as [? Hs]; split; [done|].
    destruct w as [|e w]; simpl; [|done]. apply andb_false_iff; right.
    unfold conf_space, beq in *. apply bool_decide_eq_false. intros ->. done.
Qed.

Definition tok_ok (t : confTok) : Prop :=
  match t with tokWord w => word w | tokDirective d => d ≠ [] | _ => True end.

Lemma trim_right_nonempty cs c s : contains_byte c cs = false → trim_right cs (c :: s) ≠ [].
Proof.
  intros Hc. unfold trim_right. simpl. intros E. apply (f_equal (@rev ascii)) in E. rewrite rev_involutive in E. revert E.
  induction (rev s) as [|d l IH]; simpl; [by rewrite Hc|]. by case_match.
Qed.

Lemma tokens_ok n : ∀ s, Forall tok_ok (token_loop n s).
Proof.
  induction n as [|n IH]; intros s; [constructor|]. destruct s as [|c r]; [constructor|].
  cbn [token_loop]. unfold token_step.
  destruct (conf_space c); [apply IH|]. case_match; [apply IH|].
  do 4 (case_match; [constructor; [done|apply IH]|]).
  destruct (beq c "#") eqn:Hh.
  - constructor; [|apply IH]. simpl. apply bool_decide_eq_true in Hh as ->. simpl.
    destruct (span_line r). by apply trim_right_nonempty.
  - destruct (take_word (c :: r)) as [[|d w] rest] eqn:Ht; [apply IH|]. constructor; [|apply IH].
    split; [by eapply take_word_inv|]. exists d, w. split; [done|]. simpl in Ht.
    destruct (word_stop c r); [done|]. destruct (take_word r). simplify_eq. by apply bool_decide_eq_false in Hh.
Qed.

(** The shapes of items; [dir] says whether directives may occur. *)
Inductive shaped (dir : bool) : confItem → Prop :=
| shaped_directive d : dir = true → d ≠ [] → shaped dir (directive_item d)
| shaped_bare v : shaped dir (bare_item v)
| shaped_block k b : word k → Forall (shaped dir) b → shaped dir (block_item k b)
| shaped_value k v : word k → shaped dir (value_item k v)
| shaped_key k : word k → shaped dir (key_item k).

Lemma confItem_ind' (P : confItem → Prop) :
  (∀ d k v h b i, Forall P b → P (mkItem d k v h b i)) → ∀ it, P it.
Proof.
  intros Hm. fix go 1. intros [d k v h b i]. apply Hm.
  induction b as [|x b IH]; constructor; [apply go|apply IH].
Qed.

Lemma parse_shaped n : ∀ toks, Forall tok_ok toks →
  Forall (shaped true) (parse_loop n toks).1 ∧ Forall tok_ok (parse_loop n toks).2.
Proof.
  induction n as [|n IH]; intros toks Ht; [done|].
  assert (∀ r, Forall tok_ok r → Forall tok_ok (skip_semi r)) as Hs by (intros [|[] r] Hr; first [exact Hr|by inversion Hr]).
  assert (∀ r, Forall tok_ok r → Forall tok_ok (skip_close r)) as Hc by (intros [|[] r] Hr; first [exact Hr|by inversion Hr]).
  assert (∀ it r, shaped true it → Forall tok_ok r →
    Forall (shaped true) (item_then it (parse_loop n r)).1 ∧ Forall tok_ok (item_then it (parse_loop n r)).2) as Hi.
  { intros it r Hit Hr. destruct (IH r Hr). split; [by constructor|done]. }
  destruct toks as [|t r]; [done|]. inversion Ht as [|? ? Hk Hr]; subst.
  destruct t as [k|v| | | |d]; simpl in *.
  - destruct r as [|[k'|v'| | | |d'] r']; try (inversion Hr as [|? ? Hk' Hr']; subst);
      try (apply Hi; [by constructor|by auto]).
    destruct (IH r' Hr') as [Hb Hrest]. destruct (parse_loop n r') as [b rest].
    apply Hi; [by constructor|auto].
  - apply Hi; [constructor|auto].
  - by apply IH.
  - done.
  - by apply IH.
  - apply Hi; [by constructor|auto].
Qed.

Lemma read_conf_shaped data : Forall (shaped true) (read_conf data).
Proof. apply parse_shaped, tokens_ok. Qed.

(** ** Reading back what is written *)

Fixpoint toks_of (it : confItem) : list confTok :=
  if streq (Key it) "" then [tokString (Value it); tokSemi]
  else if IsBlock it then tokWord (Key it) :: tokOpen :: concat (map toks_of (Block it)) ++ [tokClose; tokSemi]
  else if HasValue it then [tokWord (Key it); tokString (Value it); tokSemi]
  else [tokWord (Key it); tokOpen; tokClose; tokSemi].

(** What an item is read back as. *)
Fixpoint norm (it : confItem) : confItem :=
  if streq (Key it) "" then it
  else if IsBlock it then block_item (Key it) (map norm (Block it))
  else if HasValue it then it
  else block_item (Key it) [].

Lemma tok_space c s : conf_space c = true → tokenizeAptConf (c :: s) = tokenizeAptConf s.
Proof. intros Hc. rewrite tokenize_eq. unfold token_step. by rewrite Hc. Qed.

Lemma tok_indent n s : tokenizeAptConf (conf_indent n ++ s) = tokenizeAptConf s.
Proof.
  unfold conf_indent. induction n as [|n IH]; [done|].
  change (concat (replicate (S n) (bytes_of "    "))) with (bytes_of "    " ++ concat (replicate n (bytes_of "    "))).
  rewrite <- (assoc_L (++)). change (bytes_of "    ") with (replicate 4 (chr 32)).
  cbn [replicate app]. by rewrite !tok_space.
Qed.

Lemma tok_word w d s : word w → conf_space d = true →
  tokenizeAptConf (w ++ d :: s) = tokWord w :: tokenizeAptConf (d :: s).
Proof.
  intros [Hw (c & w' & -> & Hc)] Hd. pose proof (take_word_app _ d s Hw Hd) as Ht.
  cbn [app] in *. rewrite tokenize_eq. unfold token_step. rewrite Ht.
  assert (word_stop c (w' ++ d :: s) = false) as Hs.
  { simpl in Ht. by destruct (word_stop c (w' ++ d :: s)). }
  unfold word_stop in Hs. rewrite !orb_false_iff in Hs.
  destruct Hs as [[[[[-> ->] ->] ->] ->] ->]. unfold beq. by rewrite bool_decide_eq_false_2.
Qed.

Lemma take_string_escaped v s : take_string (concat (map escape_byte v) ++ dquote :: s) = (v, s).
Proof.
  induction v as [|c v IH]; [done|]. cbn [map concat]. rewrite <- (assoc_L (++)).
  unfold escape_byte at 1. destruct (beq c dquote || beq c "\") eqn:Hc; cbn [app].
  - cbn [take_string]. change (beq "\" dquote) with false. change (beq "\" "\") with true. by rewrite IH.
  - apply orb_false_iff in Hc as [H1 H2]. cbn [take_string]. rewrite H1, H2, IH.
    by destruct (concat (map escape_byte v) ++ dquote :: s) eqn:E; [destruct (concat (map escape_byte v))|].
Qed.

Lemma tok_quoted v s : tokenizeAptConf (quoteConfValue v ++ s) = tokString v :: tokenizeAptConf s.
Proof.
  unfold quoteConfValue. cbn [app]. rewrite tokenize_eq, <- (assoc_L (++)). cbn [app].
  unfold token_step. rewrite take_string_escaped. done.
Qed.

Lemma tok_mark s : tokenizeAptConf (bytes_of ";" ++ newline :: s) = tokSemi :: tokenizeAptConf s
  ∧ tokenizeAptConf (bytes_of "{" ++ newline :: s) = tokOpen :: tokenizeAptConf s
  ∧ tokenizeAptConf (bytes_of "};" ++ newline :: s) = tokClose :: tokSemi :: tokenizeAptConf s
  ∧ tokenizeAptConf (bytes_of " {};" ++ newline :: s) = tokOpen :: tokClose :: tokSemi :: tokenizeAptConf s.
Proof.
  assert (∀ c t, tokenizeAptConf (c :: newline :: s) = t :: tokenizeAptConf (newline :: s) →
    tokenizeAptConf (c :: newline :: s) = t :: tokenizeAptConf s) as Hn by (intros; by rewrite <- (tok_space newline s)).
  split_and!; change (bytes_of ";") with [";"%char]; change (bytes_of "{") with ["{"%char];
    change (bytes_of "};") with ["}"%char; ";"%char]; change (bytes_of " {};") with [" "%char; "{"%char; "}"%char; ";"%char];
    cbn [app]; repeat (rewrite tokenize_eq; unfold token_step; simpl; try f_equal).
Qed.

Lemma word_streq w : word w → streq w "" = false.
Proof. intros [_ (c & w' & -> & _)]. done. Qed.

Lemma serialize_tokens it : shaped false it → ∀ depth s,
  tokenizeAptConf (serialize_item depth it ++ s) = toks_of it ++ tokenizeAptConf s.
Proof.
  induction it as [d k v h b i IH] using confItem_ind'. intros Hit depth s.
  destruct (tok_mark s) as (Hsemi & _ & Hclose & Hempty).
  inversion Hit as [| |? ? Hk Hb|? ? Hk|? Hk]; subst; [done|..]; cbn [serialize_item toks_of Directive Key Value HasValue Block IsBlock];
    rewrite ?(word_streq k) by done; change (negb (streq [] "")) with false; cbn iota.
  - change (streq [] "") with true. cbn iota. rewrite <- !(assoc_L (++)), tok_indent, tok_quoted.
    cbn [app]. by rewrite Hsemi.
  - assert (∀ e t, tokenizeAptConf (concat (map (serialize_item e) b) ++ t) = concat (map toks_of b) ++ tokenizeAptConf t) as Hl.
    { intros e t. clear -IH Hb. induction b as [|x b IHb]; [done|].
      inversion IH as [|? ? Hx]; inversion Hb; subst. cbn [map concat]. rewrite <- !(assoc_L (++)), Hx by done.
      by rewrite IHb. }
    rewrite <- !(assoc_L (++)), tok_indent. cbn [app].
    rewrite (tok_word k) by done. rewrite tok_space, tok_indent by done.
    rewrite (proj1 (proj2 (tok_mark _))), Hl, tok_indent. cbn [app]. by rewrite Hclose, <- (assoc_L (++)).
  - rewrite <- !(assoc_L (++)), tok_indent. change (bytes_of " ") with [" "%char]. cbn [app].
    rewrite tok_word, tok_space, tok_quoted by done. cbn [app]. by rewrite Hsemi.
  - rewrite <- !(assoc_L (++)), tok_indent.
    change (bytes_of " {};") with (" "%char :: bytes_of "{};") in *. cbn [app] in *.
    rewrite tok_word by done. by rewrite Hempty.
Qed.

Lemma serialize_all items depth s : Forall (shaped false) items →
  tokenizeAptConf (serializeAptConfItems depth items ++ s) = concat (map toks_of items) ++ tokenizeAptConf s.
Proof.
  unfold serializeAptConfItems. induction 1 as [|it items Hit _ IH]; [done|]. cbn [map concat].
  rewrite <- !(assoc_L (++)), serialize_tokens by done. by f_equal.
Qed.

Lemma parse_list items rest :
  Forall (λ it, ∀ r, parseAptConfItems (toks_of it ++ r) = item_then (norm it) (parseAptConfItems r)) items →
  closed rest → parseAptConfItems (concat (map toks_of items) ++ rest) = (map norm items, rest).
Proof.
  intros Hi Hr. induction Hi as [|it items Hit _ IH]; [by apply parse_closed|].
  cbn [map concat]. rewrite <- (assoc_L (++)), Hit, IH. done.
Qed.

Lemma parse_toks it : shaped false it → ∀ r,
  parseAptConfItems (toks_of it ++ r) = item_then (norm it) (parseAptConfItems r).
Proof.
  induction it as [d k v h b i IH] using confItem_ind'. intros Hit r.
  inversion Hit as [| |? ? Hk Hb|? ? Hk|? Hk]; subst; [done|..]; cbn [toks_of norm Directive Key Value HasValue Block IsBlock];
    rewrite ?(word_streq k) by done.
  - change (streq [] "") with true. cbn iota. cbn [app]. by rewrite parse_bare.
  - cbn [app]. rewrite parse_block, <- (assoc_L (++)). cbn [app]. rewrite parse_list; [done| |right; by eexists].
    clear -IH Hb. induction b; inversion IH; inversion Hb; subst; constructor; auto.
  - cbn [app]. by rewrite parse_value.
  - cbn [app]. rewrite parse_block, parse_closed by (right; by eexists). done.
Qed.

(** What the serializer writes is read back as the same items. *)
Lemma reread items : Forall (shaped false) items →
  read_conf (serializeAptConfItems 0 items) = map norm items.
Proof.
  intros Hi. unfold read_conf. pose proof (serialize_all items 0 [] Hi) as Ht. rewrite !app_nil_r in Ht.
  rewrite Ht. rewrite <- (app_nil_r (concat _)), parse_list; [done| |by left].
  eapply Forall_impl; [done|apply parse_toks].
Qed.
