(* ===== verification/SnapshotConf.v ===== *)
(** * core/snapshot/aptconf.go: what a captured apt configuration says.

    The small reader of apt.conf syntax that tells whether the target installs
    recommended packages and which solver its apt uses, and the loader of the
    snapshot's files of core/engine/snapshot.go. A file set is the map of
    [snapshot.FileSet]. *)
From S2P Require Export SnapshotTypes AptConfText PathJoin DebVersion.
#[local] Open Scope nat_scope.

Abbreviation settings := (gmap gostring gostring).

(** ** Comments *)

Inductive strip_mode := InCode | InQuote | InLine | InBlock.
Fixpoint strip_comments (m : strip_mode) (s : gostring) : gostring :=
  match s with
  | [] => []
  | c :: r =>
      match m with
      | InQuote =>
          match r with
          | d :: r' => if beq c "\" then c :: d :: strip_comments InQuote r'
                       else c :: strip_comments (if beq c dquote then InCode else InQuote) r
          | [] => [c]
          end
      | InLine => if beq c newline then c :: strip_comments InCode r else strip_comments InLine r
      | InBlock =>
          match r with
          | d :: r' => if beq c "*" && beq d "/" then strip_comments InCode r' else strip_comments InBlock r
          | [] => []
          end
      | InCode =>
          if beq c dquote then c :: strip_comments InQuote r
          else match r with
          | d :: r' =>
              if beq c "/" && beq d "/" then strip_comments InLine r'
              else if beq c "/" && beq d "*" then strip_comments InBlock r'
              else c :: strip_comments InCode r
          | [] => [c]
          end
      end
  end.
Definition stripAPTComments (data : gostring) : gostring := strip_comments InCode data.

(** ** Tokens *)

Inductive aptToken := Word (text : gostring) | Open | Close | Semi.
Definition isAPTDelim (c : ascii) : bool := conf_space c || beq c "{" || beq c "}" || beq c ";" || beq c dquote.
Fixpoint take_bare (s : gostring) : gostring * gostring :=
  match s with
  | [] => ([], [])
  | c :: r => if isAPTDelim c then ([], s) else let '(w, rest) := take_bare r in (c :: w, rest)
  end.
Fixpoint tokenize_loop (n : nat) (s : gostring) : list aptToken :=
  match n, s with
  | S n', c :: r =>
      if conf_space c then tokenize_loop n' r
      else if beq c "{" then Open :: tokenize_loop n' r
      else if beq c "}" then Close :: tokenize_loop n' r
      else if beq c ";" then Semi :: tokenize_loop n' r
      else if beq c dquote then let '(t, rest) := take_string r in Word t :: tokenize_loop n' rest
      else let '(w, rest) := take_bare s in Word w :: tokenize_loop n' rest
  | _, _ => []
  end.
Definition tokenizeAPTConf (data : gostring) : list aptToken := let s := stripAPTComments data in tokenize_loop (length s) s.

(** ** Settings *)

Section settings.
Context {unicode : UnicodeTables}.

Definition joinAPTKey (prefix : list gostring) (name : gostring) : gostring := to_lower (join "::" (prefix ++ [name])).
Definition skip_semi (toks : list aptToken) : list aptToken := match toks with Semi :: r => r | _ => toks end.
Definition skip_word (toks : list aptToken) : list aptToken := match toks with Word _ :: r => r | _ => toks end.
(** #clear: the words that follow, deleted. *)
Fixpoint clear_loop (prefix : list gostring) (toks : list aptToken) (out : settings) : list aptToken * settings :=
  match toks with
  | Word w :: r => clear_loop prefix r (delete (joinAPTKey prefix w) out)
  | _ => (skip_semi toks, out)
  end.
Fixpoint parse_loop (n : nat) (prefix : list gostring) (toks : list aptToken) (out : settings) : settings :=
  match n, toks with
  | S n', Close :: r => parse_loop n' (removelast prefix) (skip_semi r) out
  | S n', Word word :: r =>
      let low := to_lower word in
      if streq low "#clear" then let '(rest, out) := clear_loop prefix r out in parse_loop n' prefix rest out
      else if streq low "#include" || streq low "#include-dir" then parse_loop n' prefix (skip_semi (skip_word r)) out
      else match r with
      | [] => out
      | Open :: r' => parse_loop n' (prefix ++ [word]) r' out
      | Word value :: r' => parse_loop n' prefix (skip_semi r') (<[joinAPTKey prefix word := value]> out)
      | _ => parse_loop n' prefix (skip_semi r) out
      end
  | S n', _ :: r => parse_loop n' prefix r out
  | _, _ => out
  end.
Definition parseAPTConfInto (data : gostring) (out : settings) : settings :=
  let toks := tokenizeAPTConf data in parse_loop (length toks) [] toks out.

Definition parseAPTBool (s : gostring) : option bool :=
  let v := to_lower (trim_space s) in
  if existsb (λ w : string, streq v w) ["true"; "yes"; "on"; "1"]%string then Some true
  else if existsb (λ w : string, streq v w) ["false"; "no"; "off"; "0"]%string then Some false else None.

(** ** The captured files *)

Definition plain_name_byte (c : ascii) : bool := is_lower c || is_upper c || is_digit c || beq c "_" || beq c "-".
Definition isPlainRunPartsName (name : gostring) : bool := negb (streq name "") && forallb plain_name_byte name.
Definition read_conf (fs : settings) (out : settings) (f : File) : settings :=
  if contains_str "/apt.conf.d/" (fi_Path f) && negb (isPlainRunPartsName (Base (fi_Path f))) then out
  else match fs !! fi_ArchivePath f with Some data => parseAPTConfInto data out | None => out end.
Definition captured_settings (s : Snapshot) (fs : settings) : settings := fold_left (read_conf fs) (ap_Conf (sn_APT s)) ∅.
(** The value, and whether it was set. *)
Definition doInstallRecommends (s : Snapshot) (fs : settings) : bool * bool :=
  match captured_settings s fs !! bytes_of "apt::install-recommends" with
  | Some raw => match parseAPTBool raw with Some b => (b, true) | None => (true, false) end
  | None => (true, false)
  end.

Definition solverInternal : gostring := "internal".
Definition solver3 : gostring := "3.0".
Definition solverMajorVersion (aptVersion : gostring) : option Z :=
  match (span_digits (trim_space aptVersion)).1 with [] => None | ds => parse_int64 ds end.
Definition defaultSolverForAPTVersion (aptVersion : gostring) : option gostring :=
  major ← solverMajorVersion aptVersion; Some (if (3 <=? major)%Z then solver3 else solverInternal).
Definition doEffectiveSolver (s : Snapshot) (fs : settings) : gostring * bool :=
  let default_solver := (default [] (defaultSolverForAPTVersion (ta_APTVersion (sn_Target s))), false) in
  match captured_settings s fs !! bytes_of "apt::solver" with
  | Some raw => let trimmed := trim_space raw in if streq trimmed "" then default_solver else (trimmed, true)
  | None => default_solver
  end.
End settings.
