(* ===== verification/AptSolver.v ===== *)
(** * core/apt/solver.go and select.go: which solver, and which backend.

    What [apt-config dump] says of the solver, when that measures the target's
    own, the gate in front of the local backend, the two texts the lock records,
    and the choice of a backend. The dumps, the local probe and the container's
    are arguments; [is_print] is [unicode.IsPrint] of the runes above ASCII, which
    [%q] looks at. *)
From S2P Require Export GoRegexp GoQuote LockTypes Dferr.
From S2P Require Export SnapshotConf.
#[local] Open Scope Z_scope.

(** ** solver.go *)

Definition bool_text (b : bool) : gostring := if b then "true" else "false".

Section solver.
Context {unicode : UnicodeTables} (is_print : Z → bool).
Abbreviation q := (Quote is_print).

Definition defaultSolverForAPTVersion (aptVersion : gostring) : option gostring :=
  '(major, _) ← aptMajorMinor aptVersion;
  n ← parse_int64 major;
  Some (if 3 <=? n then solver3 else solverInternal).
Definition targetGateSolver (t : Target) : option gostring := defaultSolverForAPTVersion (ta_APTVersion t).

Definition aptConfigDumpLineRE : re :=
  cats [Bol; Cap 1 (many (Cls (λ c, is_lower c || is_upper c || is_digit c || existsb (beq c) "_.:-"))); many ws; Lit [dquote];
        Cap 2 (any (Alt (Cls (λ c, negb (beq c dquote) && negb (beq c "\"))) (Cat (Lit "\") dot)));
        Lit [dquote]; any ws; Lit ";"; any ws; Eol].
Fixpoint unescapeAptConfigValue (s : gostring) : gostring :=
  match s with
  | [] => []
  | [c] => [c]
  | c :: (d :: r') as r => if beq c "\" then d :: unescapeAptConfigValue r' else c :: unescapeAptConfigValue r
  end.
Definition dump_line (kv : settings) (line : gostring) : settings :=
  match find_submatch aptConfigDumpLineRE (trim_space line) with
  | Some m => <[to_lower (group 1 m) := unescapeAptConfigValue (group 2 m)]> kv
  | None => kv
  end.
Definition parseAptConfigDumpMap (dump : gostring) : settings := fold_left dump_line (split newline dump) ∅.
(** The solver, and whether it was set. *)
Definition solverFromDump (dump : gostring) : gostring * bool :=
  let kv := parseAptConfigDumpMap dump in
  let get k := default [] (kv !! bytes_of k) in
  if negb (streq (get "binary::apt-get::apt::solver") "") then (get "binary::apt-get::apt::solver", true)
  else if negb (streq (get "apt::solver") "") then (get "apt::solver", true)
  else (solverInternal, false).

Record solverProbe := mkProbe { sp_Solver : gostring; sp_Configured : bool; sp_OK : bool }.
Definition probe_of (dump : option gostring) : solverProbe :=
  match dump with Some d => let '(s, c) := solverFromDump d in mkProbe s c true | None => mkProbe [] false false end.
(** The host's probe; a good one is kept. *)
Definition probeHostSolver (cache : option solverProbe) (dump : option gostring) : solverProbe * option solverProbe :=
  match cache with
  | Some p => (p, cache)
  | None => let p := probe_of dump in (p, if sp_OK p then Some p else None)
  end.

Definition sameAPTMajorMinor (a b : gostring) : bool :=
  match aptMajorMinor a, aptMajorMinor b with
  | Some (a1, a2), Some (b1, b2) => streq a1 b1 && streq a2 b2
  | _, _ => false
  end.
Definition probeMeasuresTargetDefault (p : solverProbe) (probeAPT targetAPT : gostring) (targetExplicit : bool) : bool :=
  sp_OK p && negb (sp_Configured p) && negb targetExplicit && sameAPTMajorMinor probeAPT targetAPT.

Definition orUnknownVersion (v : gostring) : gostring := if streq v "" then "(unknown version)" else v.
Definition describeHostSolverProvenance (host : solverProbe) : gostring :=
  if sp_Configured host then "probed live via apt-config dump; explicitly configured in this host's apt configuration"
  else "probed live via apt-config dump; apt's own default, no APT::Solver configured anywhere on this host".
(** The reason the local backend may not be used, if there is one. *)
Definition solverGateReason (host : solverProbe) (hostAPT : gostring) (t : Target) : option gostring :=
  if probeMeasuresTargetDefault host hostAPT (ta_APTVersion t) false then None
  else match sp_OK host, targetGateSolver t with
  | true, Some targetSolver =>
      if streq (sp_Solver host) targetSolver then None
      else Some ("host apt's effective solver " ++ q (sp_Solver host) ++ " (" ++ describeHostSolverProvenance host
        ++ ") differs from the target's expected solver " ++ q targetSolver ++ " (inferred from the target's apt "
        ++ orUnknownVersion (ta_APTVersion t)
        ++ "; Selection carries no apt.conf.d, so an explicit target-side override cannot be seen until Resolve) -- experiment E2: divergence tracks the solver, not the apt version (docs/experiments/E2-solver-divergence.md)")
  | ok, known =>
      Some ("could not confirm the host apt's effective solver matches the target's expected one (host solver probed="
        ++ bool_text ok ++ ", target solver known=" ++ bool_text (bool_decide (is_Some known))
        ++ "); preferring the container rather than risking an unverified match")
  end.

Definition describeTargetSolver (explicit : bool) (version : gostring) : gostring :=
  if explicit then "an explicit APT::Solver in the target's captured apt.conf.d"
  else "apt " ++ orUnknownVersion version ++ "'s own default; no explicit APT::Solver in the captured apt.conf.d".
Definition describeResolverSolver (solver : gostring) (known : bool) (version : gostring) : gostring :=
  if known then q solver ++ ", probed live via apt-config dump on the resolving apt " ++ orUnknownVersion version
  else "unknown (apt-config dump probe failed)".
Definition buildSolverDivergenceMessage (targetSolver : gostring) (targetExplicit : bool) (targetVersion : gostring)
    (resolver : solverProbe) (resolverVersion : gostring) : gostring :=
  if streq targetSolver "" then
    "target's expected solver could not be determined (apt version " ++ orUnknownVersion targetVersion
    ++ " is not a recognised apt version and its captured apt.conf.d sets no explicit APT::Solver); resolution ran with solver "
    ++ describeResolverSolver (sp_Solver resolver) (sp_OK resolver) resolverVersion
  else if negb (sp_OK resolver) then
    "target expected solver " ++ q targetSolver ++ " (" ++ describeTargetSolver targetExplicit targetVersion
    ++ "); the resolving apt's actual solver could not be confirmed (apt-config dump probe failed on the resolving apt "
    ++ orUnknownVersion resolverVersion ++ ")"
  else if streq targetSolver (sp_Solver resolver) then []
  else "target expected solver " ++ q targetSolver ++ " (" ++ describeTargetSolver targetExplicit targetVersion
    ++ "); resolution actually ran with solver " ++ describeResolverSolver (sp_Solver resolver) (sp_OK resolver) resolverVersion
    ++ " -- experiment E2 found this exact divergence changes which packages apt selects (docs/experiments/E2-solver-divergence.md)".
Definition aptVersionDivergenceNote (resolverVersion targetVersion : gostring) : gostring :=
  match aptMajorMinor resolverVersion, aptMajorMinor targetVersion with
  | Some (r1, r2), Some (t1, t2) =>
      if streq r1 t1 && streq r2 t2 then []
      else "resolving apt " ++ resolverVersion ++ " differs from the target's apt " ++ targetVersion ++ " (major.minor " ++ r1 ++ "."
        ++ r2 ++ " vs " ++ t1 ++ "." ++ t2
        ++ "); not blocking by itself -- experiment E2 found no selection divergence from apt version alone once the solver matched -- but two point releases of the exact same major.minor were never independently compared, so this is still recorded (docs/experiments/E2-solver-divergence.md)"
  | _, _ => []
  end.
(** [files] is what [buildFileSetFromDir] reads. *)
Definition solverDivergenceForLock (snap : option Snapshot) (files : settings) (resolverAPT : gostring) (dump : option gostring)
    : gostring * gostring :=
  let '(targetSolver, targetExplicit, targetVersion) :=
    match snap with
    | Some s => let '(v, e) := doEffectiveSolver s files in (v, e, ta_APTVersion (sn_Target s))
    | None => ([], false, [])
    end in
  let resolver := probe_of dump in
  let targetSolver := if probeMeasuresTargetDefault resolver resolverAPT targetVersion targetExplicit then sp_Solver resolver else targetSolver in
  (buildSolverDivergenceMessage targetSolver targetExplicit targetVersion resolver resolverAPT,
   aptVersionDivergenceNote resolverAPT targetVersion).
(** [buildFileSetFromDir]: the configuration files that can be read. *)
Definition buildFileSetFromDir (read : gostring → option gostring) (snap : Snapshot) (filesDir : gostring) : settings :=
  if streq filesDir "" then ∅
  else fold_left (λ (fs : settings) f,
    if streq (fi_ArchivePath f) "" then fs
    else match read (filepath_join [filesDir; fi_ArchivePath f]) with Some data => <[fi_ArchivePath f := data]> fs | None => fs end)
    (ap_Conf (sn_APT snap)) ∅.

(** ** select.go *)

Record Capabilities := mkCapabilities {
  ca_Available : bool; ca_Reason : gostring; ca_Hint : gostring; ca_APTVersion : gostring; ca_DpkgVersion : gostring;
  ca_DistroID : gostring; ca_VersionID : gostring; ca_Image : gostring; ca_ImageDigest : gostring; ca_Runtime : gostring
}.
Definition localMismatchReason (hostCap : Capabilities) (host : solverProbe) (t : Target) : option gostring :=
  if negb (ca_Available hostCap) then
    Some (if streq (ca_Reason hostCap) "" then bytes_of "apt-get is not available on this host" else ca_Reason hostCap)
  else if negb (streq (ta_DistroID t) "") && negb (streq (ca_DistroID hostCap) "") && negb (equal_fold (ca_DistroID hostCap) (ta_DistroID t))
  then Some ("host distro " ++ q (ca_DistroID hostCap) ++ " does not match target distro " ++ q (ta_DistroID t))
  else solverGateReason host (ca_APTVersion hostCap) t.
Definition localSummary (c : Capabilities) : gostring := ca_DistroID c ++ " " ++ ca_VersionID c ++ ", apt " ++ ca_APTVersion c.
Definition localSelectedReason (base : gostring) (c : Capabilities) (t : Target) : gostring :=
  let note := aptVersionDivergenceNote (ca_APTVersion c) (ta_APTVersion t) in
  if streq note "" then base else base ++ "; " ++ note.
Definition environmentUnavailableHint (backend reason hint : gostring) : goerror :=
  DfError Environment ("apt: " ++ backend ++ " backend unavailable: " ++ reason)
    (if streq hint "" then "check `debark doctor` for the exact fix" else hint) None.

(** The backend chosen with its capabilities, and the reasons told on the way. *)
Definition selectBackend (requested : gostring) (localCap : Capabilities) (host : solverProbe) (container : Capabilities) (t : Target)
    : result goerror (gostring * Capabilities) * list (gostring * gostring) :=
  let mismatch := localMismatchReason localCap host t in
  if streq requested BackendLocal then
    match mismatch with
    | Some reason => (Err (environmentUnavailableHint BackendLocal reason []), [])
    | None => (Ok (BackendLocal, localCap), [(BackendLocal, localSelectedReason "explicitly requested" localCap t)])
    end
  else if streq requested BackendContainer then
    if ca_Available container then (Ok (BackendContainer, container), [(BackendContainer, bytes_of "explicitly requested")])
    else (Err (environmentUnavailableHint BackendContainer (ca_Reason container) (ca_Hint container)), [])
  else if streq requested "" || streq requested BackendAuto then
    match mismatch with
    | None => (Ok (BackendLocal, localCap),
        [(BackendLocal, localSelectedReason ("host apt matches the target: " ++ localSummary localCap) localCap t)])
    | Some reason =>
        let told := (BackendLocal, reason) in
        if ca_Available container
        then (Ok (BackendContainer, container), [told; (BackendContainer, "auto-selected because " ++ reason)])
        else (Err (environmentUnavailableHint BackendAuto ("local: " ++ reason ++ "; container: " ++ ca_Reason container) (ca_Hint container)), [told])
    end
  else (Err (New Usage ("apt: unknown backend " ++ q requested ++ " (want auto, local or container)")), []).
End solver.

(** ** When the local backend fits *)

Section facts.
Context {unicode : UnicodeTables} (is_print : Z → bool).

(** The host's apt runs with the solver the target's does. *)
Definition same_solver (host : solverProbe) (hostAPT : gostring) (t : Target) : Prop :=
  sp_OK host = true ∧
  ((sp_Configured host = false ∧ ∃ v, aptMajorMinor hostAPT = Some v ∧ aptMajorMinor (ta_APTVersion t) = Some v)
   ∨ targetGateSolver t = Some (sp_Solver host)).
Definition fits (c : Capabilities) (host : solverProbe) (t : Target) : Prop :=
  ca_Available c = true
  ∧ (ta_DistroID t = [] ∨ ca_DistroID c = [] ∨ equal_fold (ca_DistroID c) (ta_DistroID t) = true)
  ∧ same_solver host (ca_APTVersion c) t.

Lemma sameAPTMajorMinor_spec a b : sameAPTMajorMinor a b = true ↔ ∃ v, aptMajorMinor a = Some v ∧ aptMajorMinor b = Some v.
Proof.
  unfold sameAPTMajorMinor. destruct (aptMajorMinor a) as [[a1 a2]|]; [|split; [done|naive_solver]].
  destruct (aptMajorMinor b) as [[b1 b2]|]; [|split; [done|naive_solver]].
  rewrite andb_true_iff, !streq_true. naive_solver.
Qed.
Lemma solverGateReason_spec host hostAPT t : solverGateReason is_print host hostAPT t = None ↔ same_solver host hostAPT t.
Proof.
  unfold solverGateReason, same_solver, probeMeasuresTargetDefault.
  destruct (sp_OK host); cbn [andb]; [|split; [by destruct (targetGateSolver t)|by intros [? _]]].
  destruct (sp_Configured host) eqn:Ec; cbn [negb andb].
  - destruct (targetGateSolver t) as [s|]; [|naive_solver]. destruct (streq _ _) eqn:E.
    + apply streq_true in E. naive_solver.
    + apply streq_false_iff in E. naive_solver.
  - destruct (sameAPTMajorMinor _ _) eqn:Es.
    { apply sameAPTMajorMinor_spec in Es. naive_solver. }
    assert (¬ ∃ v, aptMajorMinor hostAPT = Some v ∧ aptMajorMinor (ta_APTVersion t) = Some v) as Hn.
    { rewrite <- sameAPTMajorMinor_spec, Es. done. }
    destruct (targetGateSolver t) as [s|]; [|naive_solver]. destruct (streq _ _) eqn:E.
    + apply streq_true in E. naive_solver.
    + apply streq_false_iff in E. naive_solver.
Qed.
Lemma localMismatchReason_spec c host t : localMismatchReason is_print c host t = None ↔ fits c host t.
Proof.
  unfold localMismatchReason, fits. destruct (ca_Available c); cbn [negb]; [|naive_solver].
  rewrite <- (solverGateReason_spec host (ca_APTVersion c) t).
  destruct (streq (ta_DistroID t) "") eqn:E1; cbn [negb andb]; [apply streq_true in E1; naive_solver|].
  destruct (streq (ca_DistroID c) "") eqn:E2; cbn [negb andb]; [apply streq_true in E2; naive_solver|].
  apply streq_false_iff in E1, E2. destruct (equal_fold _ _) eqn:E3; cbn [negb]; naive_solver.
Qed.

(** The local backend is chosen exactly when it is asked for, or nothing is,
    and the host's apt is there, of the target's distribution and known to run
    with the target's solver; the container exactly when it is there and asked
    for, or nothing is and the local one does not fit. Otherwise there is an
    error: of usage for an unknown name, of the environment for a backend that is
    not there. An explicit choice is never replaced by the other. *)
Theorem selectBackend_spec requested c host container t :
  let r := (selectBackend is_print requested c host container t).1 in
  let any := requested = [] ∨ requested = BackendAuto in
  (r = Ok (BackendLocal, c) ↔ (requested = BackendLocal ∨ any) ∧ fits c host t)
  ∧ (r = Ok (BackendContainer, container) ↔ (requested = BackendContainer ∨ any ∧ ¬ fits c host t) ∧ ca_Available container = true)
  ∧ (∀ b, r = Ok b → b = (BackendLocal, c) ∨ b = (BackendContainer, container))
  ∧ (∀ e, r = Err e → ClassOf (Some e) =
       if bool_decide (requested ∈ [[]; BackendAuto; BackendLocal; BackendContainer]) then Environment else Usage).
Proof.
  cbv zeta. rewrite <- localMismatchReason_spec. unfold selectBackend. cbv zeta.
  destruct (streq requested BackendLocal) eqn:El.
  { apply streq_true in El as ->. destruct (localMismatchReason _ _ _ _) as [reason|]; cbn.
    - split_and!; [naive_solver|naive_solver|done|by intros ? [= <-]].
    - split_and!; [naive_solver|naive_solver|naive_solver|done]. }
  apply streq_false_iff in El. destruct (streq requested BackendContainer) eqn:Ec.
  { apply streq_true in Ec as ->. destruct (ca_Available container); cbn; split_and!; try naive_solver; try by intros ? [= <-]. }
  apply streq_false_iff in Ec. destruct (streq requested "" || streq requested BackendAuto) eqn:Ea.
  { assert (requested = [] ∨ requested = BackendAuto) as Hany.
    { apply orb_true_iff in Ea as [Ea|Ea]; apply streq_true in Ea; auto. }
    assert (bool_decide (requested ∈ [[]; BackendAuto; BackendLocal; BackendContainer]) = true) as ->.
    { apply bool_decide_eq_true. set_solver. }
    destruct (localMismatchReason _ _ _ _) as [reason|]; cbn; [destruct (ca_Available container); cbn|];
      split_and!; try naive_solver; try by intros ? [= <-]. }
  apply orb_false_iff in Ea as [E1%streq_false_iff E2%streq_false_iff]. cbn.
  assert (bool_decide (requested ∈ [[]; BackendAuto; BackendLocal; BackendContainer]) = false) as ->.
  { apply bool_decide_eq_false. set_solver. }
  split_and!; try naive_solver; try by intros ? [= <-].
Qed.

(** What the lock says of the solver: nothing exactly when the apt that resolves
    is known to run with the target's. *)
Lemma buildSolverDivergenceMessage_nil solver explicit version resolver resolverVersion :
  buildSolverDivergenceMessage is_print solver explicit version resolver resolverVersion = [] ↔
    solver ≠ [] ∧ sp_OK resolver = true ∧ sp_Solver resolver = solver.
Proof.
  unfold buildSolverDivergenceMessage. destruct (streq solver "") eqn:E; [apply streq_true in E; naive_solver|].
  apply streq_false_iff in E. destruct (sp_OK resolver); cbn [negb]; [|naive_solver].
  destruct (streq solver _) eqn:E'; [apply streq_true in E'; naive_solver|apply streq_false_iff in E'; naive_solver].
Qed.
End facts.

(** A commented line that ends in a brace: apt and core/apt skip it, this reader
    takes it for the start of a block and reads what follows under its name. *)
Definition commented_block : gostring :=
  "#APT {" ++ [newline] ++ "APT::Solver " ++ quoteConfValue "3.0" ++ ";".
Example commented_block_misread : parseAPTConfInto commented_block ∅ !! bytes_of "apt::solver" = None
  ∧ parseAPTConfInto commented_block ∅ !! bytes_of "#apt::apt::solver" = Some (bytes_of "3.0").
Proof. by vm_compute. Qed.
