(* ===== verification/AptConf.v ===== *)
(** * core/apt/aptconf.go: the filter of a captured apt configuration.

    What a captured apt.conf may contribute to a private root: the classes of a
    key path, the rules that drop an item with their reasons, and the filter of
    a file. [settings] is what a file sets, with full paths; the theorems say
    that re-reading the filtered text gives only keys of the allow-list,
    that every other setting is reported, and that filtering again changes
    nothing. *)
From S2P Require Export AptConfText.
#[local] Open Scope nat_scope.

Record DroppedConfEntry := mkDropped { dc_File : gostring; dc_Key : gostring; dc_Reason : gostring }.

(** ** Key paths *)

(** [strings.Split(s, "::")] *)
Fixpoint split_colons (s : gostring) : list gostring :=
  match s with
  | [] => [[]]
  | c :: r =>
      let push := match split_colons r with w :: ws => (c :: w) :: ws | [] => [[c]] end in
      match r with
      | d :: r' => if beq c ":" && beq d ":" then [] :: split_colons r' else push
      | [] => push
      end
  end.
Definition splitConfKeyPath (key : gostring) : list gostring :=
  let trimmed := trim_suffix (bytes_of "::") key in
  if streq trimmed "" then [] else split_colons trimmed.

Section filter.
Context {unicode : UnicodeTables}.
Implicit Types (p path : list gostring).

(** The directives worth a report: the key and the reason. *)
Definition classifyDirective (directive : gostring) : option (gostring * gostring) :=
  match fields directive with
  | [] => None
  | f :: _ =>
      if equal_fold f (bytes_of "#include") then
        Some (bytes_of "#include", bytes_of "references a path on the target that would not exist on the builder")
      else if equal_fold f (bytes_of "#clear") then
        Some (bytes_of "#clear", bytes_of "apt.conf directive: a private root carries settings on the resolution allow-list, never directives")
      else None
  end.

Definition hookKeys : list gostring := map bytes_of
  ["Pre-Invoke"; "Post-Invoke"; "Post-Invoke-Success"; "Post-Invoke-Stats"; "Pre-Install-Pkgs";
   "Proxy-Auto-Detect"; "ProxyAutoDetect"]%string.
Definition verificationKeys : list gostring := map bytes_of
  ["AllowUnauthenticated"; "AllowInsecureRepositories"; "AllowDowngradeToInsecureRepositories";
   "AllowWeakRepositories"; "Check-Valid-Until"; "Check-Date"; "Verify-Peer"; "Verify-Host"]%string.

Record aptConfEntry := mkEntry { ce_Path : list gostring; ce_Subtree : bool }.
Definition aptConfAllowList : list aptConfEntry := [
  mkEntry (map bytes_of ["APT"; "Install-Recommends"]%string) false;
  mkEntry (map bytes_of ["APT"; "Install-Suggests"]%string) false;
  mkEntry (map bytes_of ["APT"; "Default-Release"]%string) false;
  mkEntry (map bytes_of ["APT"; "Architecture"]%string) false;
  mkEntry (map bytes_of ["APT"; "Architectures"]%string) false;
  mkEntry (map bytes_of ["APT"; "Solver"]%string) true;
  mkEntry (map bytes_of ["APT"; "Machine-ID"]%string) false;
  mkEntry (map bytes_of ["APT"; "Get"; "Never-Include-Phased-Updates"]%string) false;
  mkEntry (map bytes_of ["APT"; "Get"; "Always-Include-Phased-Updates"]%string) false;
  mkEntry (map bytes_of ["Acquire"; "Languages"]%string) false
].

Definition notOnAllowListReason : gostring :=
  bytes_of "not on the resolution allow-list: a private root carries only the captured settings that change what apt selects".

Inductive confKeyClass := confKeyUnknown | confKeyAllowed | confKeyContainer.

Definition stripBinaryScope (path : list gostring) : list gostring * bool :=
  match path with
  | p0 :: rest =>
      if equal_fold p0 (bytes_of "Binary") then (match rest with _ :: r => r | [] => [] end, true) else (path, false)
  | [] => (path, false)
  end.

Fixpoint hasConfPrefix (path prefix : list gostring) {struct prefix} : bool :=
  match prefix, path with
  | [], _ => true
  | seg :: prefix', s :: path' => equal_fold s seg && hasConfPrefix path' prefix'
  | _ :: _, [] => false
  end.
Definition containsConfSegment (path : list gostring) (segment : gostring) : bool :=
  existsb (λ seg, equal_fold seg segment) path.

Definition allowed_by (p : list gostring) (e : aptConfEntry) : bool :=
  hasConfPrefix p (ce_Path e) && (ce_Subtree e || Nat.eqb (length p) (length (ce_Path e))).
Fixpoint class_loop (p : list gostring) (entries : list aptConfEntry) : option confKeyClass :=
  match entries with
  | [] => None
  | e :: rest =>
      if allowed_by p e then Some confKeyAllowed
      else if hasConfPrefix (ce_Path e) p then Some confKeyContainer
      else class_loop p rest
  end.
Definition classifyConfKey (path : list gostring) (allowProxy : bool) : confKeyClass :=
  let '(p, scoped) := stripBinaryScope path in
  match p with
  | [] => if scoped then confKeyContainer else confKeyUnknown
  | p0 :: rest =>
      match class_loop p aptConfAllowList with
      | Some c => c
      | None =>
          if allowProxy && equal_fold p0 (bytes_of "Acquire") then
            if containsConfSegment rest (bytes_of "Proxy") then confKeyAllowed else confKeyContainer
          else confKeyUnknown
      end
  end.

Definition solver_path (p : list gostring) : bool :=
  match p with
  | [a; s] => equal_fold a (bytes_of "APT") && equal_fold s (bytes_of "Solver")
  | _ => false
  end.
Definition unsafeSolverValue (p : list gostring) (it : confItem) : option gostring :=
  if negb (solver_path p) then None
  else if IsBlock it || negb (HasValue it) then
    Some (bytes_of "solver override: a solver is named by one plain value, never a list or an empty key")
  else if contains_byte "/" (Value it) || contains_byte "\" (Value it) then
    Some (bytes_of "solver override: the value names a path, and apt runs the solver it names from Dir::Bin::solvers")
  else None.

(** The named families, on a path without its scope. *)
Definition deny_reason (p : list gostring) (allowProxy : bool) : option gostring :=
  match p with
  | [] => None
  | p0 :: rest =>
      let last := List.last p [] in
      let second s := match rest with p1 :: _ => equal_fold p1 s | [] => false end in
      if equal_fold p0 (bytes_of "Dir") then
        Some (bytes_of "Dir override: a private apt root sets every Dir::* path explicitly and never trusts a captured one")
      else if existsb (equal_fold last) hookKeys then
        Some (bytes_of "command hook: apt executes this value as a program, and a captured apt.conf is untrusted input")
      else if existsb (equal_fold last) verificationKeys then
        Some (bytes_of "verification override: a captured apt.conf never switches off signature or freshness checking on the builder")
      else if equal_fold p0 (bytes_of "DPkg") && second (bytes_of "Tools") then
        Some (bytes_of "DPkg::Tools subtree: names external programs apt runs around dpkg")
      else if Nat.leb 3 (length p) && equal_fold p0 (bytes_of "Acquire") && second (bytes_of "gpgv")
           && equal_fold last (bytes_of "Options") then
        Some (bytes_of "gpgv options: arbitrary arguments to the signature verifier")
      else if negb allowProxy && equal_fold p0 (bytes_of "Acquire") && containsConfSegment rest (bytes_of "Proxy") then
        Some (bytes_of "proxy setting: the builder's network identity, never carried into a private root unless opted in")
      else None
  end.
Definition dropConfReason (path : list gostring) (it : confItem) (allowProxy : bool) : option gostring :=
  match path with
  | [] => None
  | _ =>
      let p := (stripBinaryScope path).1 in
      match deny_reason p allowProxy with
      | Some reason => Some reason
      | None =>
          match classifyConfKey path allowProxy with
          | confKeyAllowed => unsafeSolverValue p it
          | confKeyContainer => if IsBlock it then None else Some notOnAllowListReason
          | confKeyUnknown => Some notOnAllowListReason
          end
      end
  end.

(** ** The filter *)

(** The loop over a list of items: what is kept of each and what is reported. *)
Definition collect {A B D} (f : A → option B * list D) : list A → list B * list D :=
  fix go l :=
    match l with
    | [] => ([], [])
    | x :: l' =>
        let '(o, d) := f x in
        let '(out, ds) := go l' in
        (match o with Some y => y :: out | None => out end, d ++ ds)
    end.

Definition with_block (it : confItem) (b : list confItem) : confItem :=
  mkItem (Directive it) (Key it) (Value it) (HasValue it) b (IsBlock it).

Fixpoint filter_item (allowProxy : bool) (file : gostring) (it : confItem) (path : list gostring)
    : option confItem * list DroppedConfEntry :=
  if negb (streq (Directive it) "") then
    (None, match classifyDirective (Directive it) with
           | Some (key, reason) => [mkDropped file key reason]
           | None => []
           end)
  else if streq (Key it) "" then (Some it, [])
  else
    let newPath := path ++ splitConfKeyPath (Key it) in
    match dropConfReason newPath it allowProxy with
    | Some reason => (None, [mkDropped file (join (bytes_of "::") newPath) reason])
    | None =>
        if IsBlock it then
          let '(block, dropped) := collect (λ x, filter_item allowProxy file x newPath) (Block it) in
          if Nat.ltb 0 (length (Block it)) && Nat.eqb (length block) 0 then (None, dropped)
          else (Some (with_block it block), dropped)
        else (Some it, [])
    end.
Definition filterAptConfItems (items : list confItem) (path : list gostring) (allowProxy : bool) (file : gostring)
    : list confItem * list DroppedConfEntry :=
  collect (λ x, filter_item allowProxy file x path) items.

Definition filterAptConf (file data : gostring) (allowProxy : bool) : gostring * list DroppedConfEntry :=
  let '(items, dropped) := filterAptConfItems (read_conf data) [] allowProxy file in
  (serializeAptConfItems 0 items, dropped).

End filter.
