(* ===== verification/AptConfSafe.v ===== *)
(** * What survives the filter of an apt configuration. *)
From S2P Require Export AptConf.
#[local] Open Scope nat_scope.

(** ** Settings: what a file sets, with full paths, in order *)

Inductive setting :=
| Bare (path : list gostring) (v : gostring)
| Keyed (path : list gostring) (v : option gostring).

Fixpoint settings_of (path : list gostring) (it : confItem) : list setting :=
  if negb (streq (Directive it) "") then []
  else if streq (Key it) "" then [Bare path (Value it)]
  else
    let p := path ++ splitConfKeyPath (Key it) in
    if IsBlock it then
      match Block it with [] => [Keyed p None] | b => concat (map (settings_of p) b) end
    else [Keyed p (if HasValue it then Some (Value it) else None)].
Definition settings (items : list confItem) : list setting := concat (map (settings_of []) items).
Definition setting_path (s : setting) : list gostring := match s with Bare p _ | Keyed p _ => p end.

(** ** The loop over items *)

Lemma collect_app_inv {A B D} (f : A → option B * list D) x l :
  collect f (x :: l) = (match (f x).1 with Some y => y :: (collect f l).1 | None => (collect f l).1 end,
                        (f x).2 ++ (collect f l).2).
Proof. simpl. destruct (f x), (collect f l). done. Qed.

(** A merge of two lists that keeps the order of each. *)
Inductive interleave {A : Type} : list A → list A → list A → Prop :=
| interleave_nil : interleave [] [] []
| interleave_l x a b l : interleave a b l → interleave (x :: a) b (x :: l)
| interleave_r x a b l : interleave a b l → interleave a (x :: b) (x :: l).

Section safe.
Context {unicode : UnicodeTables}.

(** ** The allow-list *)

Definition same_key (p q : list gostring) : Prop := Forall2 (λ a b, equal_fold a b = true) p q.

(** A path, without its scope, at an entry of the allow-list, under one that
    admits its subtree, or an opted-in proxy setting. *)
Inductive carried (allowProxy : bool) : list gostring → Prop :=
| carried_entry e q r : e ∈ aptConfAllowList → same_key q (ce_Path e) →
    ce_Subtree e = true ∨ r = [] → carried allowProxy (q ++ r)
| carried_proxy a q : allowProxy = true → equal_fold a (bytes_of "Acquire") = true →
    (∃ s, s ∈ q ∧ equal_fold s (bytes_of "Proxy") = true) → carried allowProxy (a :: q).

Lemma hasConfPrefix_spec p q : hasConfPrefix p q = true ↔ ∃ h t, p = h ++ t ∧ same_key h q.
Proof.
  revert p; induction q as [|b q IH]; intros p; simpl.
  - split; [|by destruct p]. intros _. exists [], p. split; [done|constructor].
  - destruct p as [|a p]; simpl.
    + split; [done|]. intros (h & t & E & Hs). inversion Hs; by subst.
    + rewrite andb_true_iff, IH. split.
      * intros [Ha (h & t & -> & Hs)]. exists (a :: h), t. split; [done|by constructor].
      * intros (h & t & E & Hs). inversion Hs; subst. simplify_eq/=. split; [done|by eauto].
Qed.

Lemma hasConfPrefix_length p q : hasConfPrefix p q = true → length q ≤ length p.
Proof.
  intros (h & t & -> & Hs)%hasConfPrefix_spec. apply Forall2_length in Hs. rewrite length_app. lia.
Qed.

Lemma same_key_sym p q : same_key p q → same_key q p.
Proof. induction 1; constructor; [by rewrite equal_fold_sym|done]. Qed.

Lemma hasConfPrefix_trans p q r : hasConfPrefix p q = true → hasConfPrefix q r = true → hasConfPrefix p r = true.
Proof.
  revert q r; induction p as [|a p IH]; intros [|b q] [|c r]; simpl; try done.
  rewrite !andb_true_iff. intros [Ha Hp] [Hb Hq]. split; [by eapply equal_fold_trans|by eapply IH].
Qed.

Lemma hasConfPrefix_full p q : hasConfPrefix q p = true → length q ≤ length p → hasConfPrefix p q = true.
Proof.
  intros (h & t & -> & Hs)%hasConfPrefix_spec. pose proof (Forall2_length _ _ _ Hs) as Hl.
  rewrite length_app. intros Hle. destruct t; [|simpl in Hle; lia]. apply hasConfPrefix_spec.
  exists p, []. rewrite !app_nil_r. by split; [|apply same_key_sym].
Qed.

Lemma allowed_by_spec p e : allowed_by p e = true ↔
  ∃ q r, p = q ++ r ∧ same_key q (ce_Path e) ∧ (ce_Subtree e = true ∨ r = []).
Proof.
  unfold allowed_by. rewrite andb_true_iff, orb_true_iff, hasConfPrefix_spec, Nat.eqb_eq. split.
  - intros [(h & t & -> & Hs) Hl]. exists h, t. split_and!; [done..|]. destruct Hl as [Hl|Hl]; [by left|right].
    rewrite length_app, (Forall2_length _ _ _ Hs) in Hl. destruct t; [done|simpl in Hl; lia].
  - intros (q & r & -> & Hs & Hr). split; [by eauto|]. destruct Hr as [Hr| ->]; [by left|right].
    by rewrite app_nil_r, (Forall2_length _ _ _ Hs).
Qed.

(** No entry of the list lies under another. *)
Lemma allow_list_flat e1 e2 : e1 ∈ aptConfAllowList → e2 ∈ aptConfAllowList →
  hasConfPrefix (ce_Path e1) (ce_Path e2) = true → e1 = e2.
Proof.
  intros H1 H2. unfold aptConfAllowList in H1, H2. rewrite !elem_of_cons, elem_of_nil in H1, H2.
  repeat match goal with H : _ ∨ _ |- _ => destruct H as [->|H] end; try done; by vm_compute.
Qed.

Lemma class_loop_allowed p l : (∀ e, e ∈ l → e ∈ aptConfAllowList) →
  class_loop p l = Some confKeyAllowed ↔ ∃ e, e ∈ l ∧ allowed_by p e = true.
Proof.
  induction l as [|e l IH]; intros Hl; simpl; [set_solver|].
  destruct (allowed_by p e) eqn:Ha; [set_solver|].
  assert ((∃ x, x ∈ e :: l ∧ allowed_by p x = true) ↔ ∃ x, x ∈ l ∧ allowed_by p x = true) as ->.
  { split; intros (x & Hx & Hp); exists x; [|set_solver]. apply elem_of_cons in Hx as [->|Hx]; [congruence|done]. }
  destruct (hasConfPrefix (ce_Path e) p) eqn:Hc; [|apply IH; set_solver].
  split; [done|]. intros (x & Hx & Hp). exfalso. unfold allowed_by in Hp, Ha.
  apply andb_true_iff in Hp as [Hp _].
  assert (e = x) as -> by (apply allow_list_flat; [set_solver..|]; by eapply hasConfPrefix_trans).
  rewrite Hp in Ha. simpl in Ha. apply orb_false_iff in Ha as [_ Ha]. apply Nat.eqb_neq in Ha.
  apply hasConfPrefix_length in Hp, Hc. lia.
Qed.

Lemma entry_no_proxy e a q : e ∈ aptConfAllowList → hasConfPrefix (ce_Path e) (a :: q) = true →
  equal_fold a (bytes_of "Acquire") = true → containsConfSegment q (bytes_of "Proxy") = false.
Proof.
  intros He Hp Ha. apply not_true_iff_false. intros Hc.
  assert (∃ x xs, ce_Path e = x :: xs ∧ equal_fold x (bytes_of "Acquire") = true
    ∧ containsConfSegment xs (bytes_of "Proxy") = true) as (x & xs & E & Hx & Hxs).
  { destruct (ce_Path e) as [|x xs]; simpl in Hp; [done|]. apply andb_true_iff in Hp as [Hx Hp].
    exists x, xs. split_and!; [done|by eapply equal_fold_trans|]. clear -Hp Hc.
    revert xs Hp. induction q as [|s q IH]; intros [|y xs] Hp; try done.
    simpl in *. apply andb_true_iff in Hp as [Hy Hp]. apply orb_true_iff in Hc. apply orb_true_iff.
    destruct Hc as [Hc|Hc]; [left; by eapply equal_fold_trans|right; by apply IH]. }
  revert E. unfold aptConfAllowList in He. rewrite !elem_of_cons, elem_of_nil in He.
  repeat match goal with H : _ ∨ _ |- _ => destruct H as [->|H] end; try done;
    intros E; injection E as <- <-; vm_compute in Hx, Hxs; congruence.
Qed.

Lemma class_loop_not_unknown p l : class_loop p l ≠ Some confKeyUnknown.
Proof. induction l as [|e l IH]; simpl; [done|]. by repeat case_match. Qed.

Lemma class_loop_container p l : class_loop p l = Some confKeyContainer →
  ∃ e, e ∈ l ∧ hasConfPrefix (ce_Path e) p = true.
Proof.
  induction l as [|e l IH]; simpl; [done|]. case_match; [done|]. case_match; [intros _; exists e; set_solver|].
  intros (x & ? & ?)%IH. exists x. set_solver.
Qed.

Lemma carried_not_nil allowProxy : ¬ carried allowProxy [].
Proof.
  inversion 1 as [e q r He Hs Hr E|]. apply app_eq_nil in E as [-> ->]. inversion Hs as [E'|].
  unfold aptConfAllowList in He. rewrite !elem_of_cons, elem_of_nil in He.
  repeat match goal with H : _ ∨ _ |- _ => destruct H as [->|H] end; done.
Qed.

Lemma carried_cons allowProxy a q : carried allowProxy (a :: q) ↔
  (∃ e, e ∈ aptConfAllowList ∧ allowed_by (a :: q) e = true)
  ∨ (allowProxy && equal_fold a (bytes_of "Acquire") && containsConfSegment q (bytes_of "Proxy") = true).
Proof.
  rewrite !andb_true_iff. unfold containsConfSegment. split.
  - inversion 1 as [e h t He Hs Hr E|? ? Hp Ha (s & Hs & Hf)]; subst.
    + left. exists e. split; [done|]. apply allowed_by_spec. eauto.
    + right. split_and!; [done..|]. apply existsb_exists. exists s. by rewrite <- list_elem_of_In.
  - intros [(e & He & (h & t & E & Hs & Hr)%allowed_by_spec)|[[Hp Ha] Hc]].
    + rewrite E. by econstructor.
    + apply carried_proxy; [done..|]. apply existsb_exists in Hc as (s & Hs & Hf). exists s. by rewrite list_elem_of_In.
Qed.

(** A path is allowed exactly when, without its scope, it is carried. *)
Lemma classify_allowed path allowProxy :
  classifyConfKey path allowProxy = confKeyAllowed ↔ carried allowProxy (stripBinaryScope path).1.
Proof.
  unfold classifyConfKey. destruct (stripBinaryScope path) as [[|a q] scoped]; cbn [fst].
  { split; [by destruct scoped|]. by intros ?%carried_not_nil. }
  rewrite carried_cons, <- class_loop_allowed by done.
  destruct (class_loop (a :: q) aptConfAllowList) as [[]|] eqn:Hl.
  - by apply class_loop_not_unknown in Hl.
  - split; [by left|done].
  - split; [done|]. intros [?|Hx]; [done|]. rewrite !andb_true_iff in Hx. destruct Hx as [[_ Ha] Hc].
    apply class_loop_container in Hl as (e & He & Hp). by rewrite (entry_no_proxy e a q He Hp Ha) in Hc.
  - destruct (allowProxy && equal_fold a (bytes_of "Acquire")); simpl; [|split; [done|by intros [|]]].
    destruct (containsConfSegment q (bytes_of "Proxy")); split; auto; [done|by intros [|]].
Qed.

(** ** The named families *)

Definition harmless (allowProxy : bool) (p : list gostring) : Prop :=
  hasConfPrefix p [bytes_of "Dir"] = false
  ∧ (∀ k, k ∈ hookKeys ++ verificationKeys → equal_fold (List.last p []) k = false)
  ∧ hasConfPrefix p (map bytes_of ["DPkg"; "Tools"]%string) = false
  ∧ (hasConfPrefix p (map bytes_of ["Acquire"; "gpgv"]%string) = true → 3 ≤ length p →
     equal_fold (List.last p []) (bytes_of "Options") = false)
  ∧ (allowProxy = false → hasConfPrefix p [bytes_of "Acquire"] = true →
     containsConfSegment (tail p) (bytes_of "Proxy") = false).

Lemma hasConfPrefix_two a b q x y :
  hasConfPrefix (a :: b :: q) (map bytes_of [x; y]) = equal_fold a (bytes_of x) && equal_fold b (bytes_of y).
Proof. simpl. by rewrite andb_true_r. Qed.

Lemma deny_None p allowProxy : deny_reason p allowProxy = None → p ≠ [] → harmless allowProxy p.
Proof.
  destruct p as [|a q]; [done|]. intros Hd _. unfold deny_reason in Hd.
  destruct (equal_fold a (bytes_of "Dir")) eqn:Hdir; [done|].
  destruct (existsb _ hookKeys) eqn:Hh; [done|]. destruct (existsb _ verificationKeys) eqn:Hv; [done|].
  destruct (equal_fold a (bytes_of "DPkg") && _) eqn:Ht; [done|].
  destruct (Nat.leb 3 _ && _ && _ && _) eqn:Hg; [done|].
  destruct (negb allowProxy && _ && _) eqn:Hp; [done|]. clear Hd.
  assert (∀ k l, k ∈ l → existsb (equal_fold (List.last (a :: q) [])) l = false →
    equal_fold (List.last (a :: q) []) k = false) as Hex.
  { intros k l Hk He. apply not_true_iff_false. intros Hf. apply not_true_iff_false in He. apply He.
    apply existsb_exists. exists k. by rewrite <- list_elem_of_In. }
  split_and!.
  - simpl. by rewrite Hdir.
  - intros k [Hk|Hk]%elem_of_app; by eapply Hex.
  - destruct q as [|b q]; [apply andb_false_r|]. rewrite hasConfPrefix_two. exact Ht.
  - intros Hpre Hlen. destruct q as [|b q]; [simpl in Hlen; lia|]. apply not_true_iff_false. intros Ho.
    rewrite hasConfPrefix_two, andb_true_iff in Hpre. destruct Hpre as [H1 H2].
    rewrite H1, H2, Ho in Hg. apply Nat.leb_le in Hlen. by rewrite Hlen in Hg.
  - intros -> Ha. simpl in Ha. rewrite andb_true_r in Ha. by rewrite Ha in Hp.
Qed.

(** ** Where a setting may stand *)

Section policy.
Variable allowProxy : bool.
#[local] Abbreviation unscoped path := (stripBinaryScope path).1.

(** A key that may be set, and a block that may stand. *)
Definition safe_key (path : list gostring) : Prop :=
  carried allowProxy (unscoped path) ∧ harmless allowProxy (unscoped path).
Definition place (path : list gostring) : Prop :=
  path = [] ∨ (safe_key path ∧ solver_path (unscoped path) = false)
  ∨ classifyConfKey path allowProxy = confKeyContainer.
Definition plain_value (v : gostring) : Prop := ("/"%char ∉ v) ∧ ("\"%char ∉ v).
Definition admitted (s : setting) : Prop :=
  match s with
  | Bare path _ | Keyed path None => place path
  | Keyed path (Some v) =>
      path = [] ∨ (safe_key path ∧ (solver_path (unscoped path) = true → plain_value v))
  end.

Lemma kept_block path it : dropConfReason path it allowProxy = None → IsBlock it = true ∨ HasValue it = false →
  place path ∧ (classifyConfKey path allowProxy = confKeyContainer → IsBlock it = true).
Proof.
  unfold dropConfReason. destruct path as [|p0 path]; [by intros; split; [left|]|].
  destruct (deny_reason _ allowProxy) eqn:Hd; [done|].
  destruct (classifyConfKey (p0 :: path) allowProxy) eqn:Hc; [done| |].
  - unfold unsafeSolverValue. destruct (solver_path _) eqn:Hs; simpl; [|intros _ _].
    + intros H [Hb|Hb]; rewrite Hb in H; [done|]. by rewrite orb_true_r in H.
    + split; [|done]. right; left. apply classify_allowed in Hc. split; [split; [done|]|done].
      apply deny_None; [done|]. intros E. rewrite E in Hc. by apply carried_not_nil in Hc.
  - destruct (IsBlock it); [|done]. intros _ _. split; [by right; right|done].
Qed.

Lemma kept_value path it : dropConfReason path it allowProxy = None → IsBlock it = false →
  admitted (Keyed path (Some (Value it))) ∨ path = [].
Proof.
  unfold dropConfReason. destruct path as [|p0 path]; [by right|left]. right.
  destruct (deny_reason _ allowProxy) eqn:Hd; [done|].
  destruct (classifyConfKey (p0 :: path) allowProxy) eqn:Hc; [done| |by rewrite H0 in H].
  apply classify_allowed in Hc. split.
  - split; [done|]. apply deny_None; [done|]. intros E. rewrite E in Hc. by apply carried_not_nil in Hc.
  - intros Hs. unfold unsafeSolverValue in H. rewrite Hs in H. simpl in H.
    destruct (IsBlock it || negb (HasValue it)); [done|].
    destruct (contains_byte "/" (Value it) || contains_byte "\" (Value it)) eqn:Hv; [done|].
    apply orb_false_iff in Hv as [H1%contains_byte_false H2%contains_byte_false]. done.
Qed.

(** ** One item through the filter *)

Variable file : gostring.
#[local] Abbreviation filter_items path l := (collect (λ x, filter_item allowProxy file x path) l).
Definition withheld (path : list gostring) (reason : gostring) : DroppedConfEntry :=
  mkDropped file (join (bytes_of "::") path) reason.

Inductive filtered (path : list gostring) (it : confItem) : option confItem → list DroppedConfEntry → Prop :=
| filtered_directive d : Directive it ≠ [] → filtered path it None d
| filtered_bare : Directive it = [] → Key it = [] → filtered path it (Some it) []
| filtered_dropped reason : Directive it = [] → Key it ≠ [] →
    dropConfReason (path ++ splitConfKeyPath (Key it)) it allowProxy = Some reason →
    filtered path it None [withheld (path ++ splitConfKeyPath (Key it)) reason]
| filtered_husk block d : Directive it = [] → Key it ≠ [] → IsBlock it = true → Block it ≠ [] →
    filter_items (path ++ splitConfKeyPath (Key it)) (Block it) = (block, d) → block = [] →
    filtered path it None d
| filtered_block block d : Directive it = [] → Key it ≠ [] → IsBlock it = true →
    dropConfReason (path ++ splitConfKeyPath (Key it)) it allowProxy = None →
    filter_items (path ++ splitConfKeyPath (Key it)) (Block it) = (block, d) → (Block it = [] ↔ block = []) →
    filtered path it (Some (with_block it block)) d
| filtered_leaf : Directive it = [] → Key it ≠ [] → IsBlock it = false →
    dropConfReason (path ++ splitConfKeyPath (Key it)) it allowProxy = None → filtered path it (Some it) [].

Lemma streq_empty s : streq s "" = true ↔ s = [].
Proof. apply bool_decide_eq_true. Qed.

Lemma filter_item_cases it path :
  filtered path it (filter_item allowProxy file it path).1 (filter_item allowProxy file it path).2.
Proof.
  destruct it as [d k v h b i]. cbn [filter_item Directive Key IsBlock Block].
  destruct (streq d "") eqn:Hd; cbn [negb]; [apply streq_empty in Hd|apply bool_decide_eq_false in Hd; by constructor].
  destruct (streq k "") eqn:Hk; [apply streq_empty in Hk; by constructor|apply bool_decide_eq_false in Hk].
  destruct (dropConfReason _ _ _) eqn:Hr; [by constructor|].
  destruct i; [|by constructor].
  destruct (collect _ b) as [block ds] eqn:Hb.
  destruct (Nat.ltb 0 (length b) && Nat.eqb (length block) 0) eqn:Hh; cbn [fst snd].
  - apply andb_true_iff in Hh as [H1%Nat.ltb_lt H2%Nat.eqb_eq]. eapply filtered_husk; try done.
    + cbn. intros ->. simpl in H1. lia.
    + by apply nil_length_inv.
  - eapply filtered_block; try done. apply andb_false_iff in Hh. split.
    + intros E. cbn in E. rewrite E in Hb. by injection Hb.
    + intros ->. cbn in *. destruct b; [done|]. by destruct Hh.
Qed.

(** Induction on an item with the filter's cases: in a block, the property of
    the children. *)
Lemma filter_item_ind (P : list gostring → confItem → option confItem → list DroppedConfEntry → Prop) :
  (∀ path it o d, filtered path it o d →
    (IsBlock it = true → ∀ q x, x ∈ Block it →
      P q x (filter_item allowProxy file x q).1 (filter_item allowProxy file x q).2) →
    P path it o d) →
  ∀ it path, P path it (filter_item allowProxy file it path).1 (filter_item allowProxy file it path).2.
Proof.
  intros HP. induction it as [d k v h b i IH] using confItem_ind'. intros path.
  apply HP; [apply filter_item_cases|]. intros _ q x Hx. cbn in Hx. rewrite Forall_forall in IH. by apply IH.
Qed.

(** ** What is lost is reported *)

Lemma interleave_app {A} (a1 b1 l1 a2 b2 l2 : list A) :
  interleave a1 b1 l1 → interleave a2 b2 l2 → interleave (a1 ++ a2) (b1 ++ b2) (l1 ++ l2).
Proof. induction 1; intros; simpl; [done|..]; constructor; auto. Qed.
Lemma interleave_left {A} (l : list A) : interleave l [] l.
Proof. induction l; constructor; auto. Qed.
Lemma interleave_right {A} (l : list A) : interleave [] l l.
Proof. induction l; constructor; auto. Qed.

Definition reported (d : list DroppedConfEntry) (s : setting) : Prop :=
  ∃ path t it reason, withheld path reason ∈ d ∧ dropConfReason path it allowProxy = Some reason
    ∧ setting_path s = path ++ t.

Lemma reported_mono d d' s : d ⊆ d' → reported d s → reported d' s.
Proof. intros Hd (p & t & it & r & Hr & ?). exists p, t, it, r. split; [by apply Hd|done]. Qed.

Lemma settings_path it : ∀ path s, s ∈ settings_of path it → ∃ t, setting_path s = path ++ t.
Proof.
  induction it as [d k v h b i IH] using confItem_ind'. intros path s.
  cbn [settings_of Directive Key Value HasValue Block IsBlock].
  case_match; [by intros ?%elem_of_nil|]. case_match.
  { intros ->%list_elem_of_singleton. exists []. by rewrite app_nil_r. }
  case_match; [|intros ->%list_elem_of_singleton; by eexists].
  destruct b as [|x b]; [intros ->%list_elem_of_singleton; by eexists|].
  rewrite list_elem_of_In, in_concat. intros (l & Hl & Hs). apply in_map_iff in Hl as (y & <- & Hy).
  rewrite Forall_forall in IH. apply list_elem_of_In in Hs, Hy.
  apply IH in Hs as (t & ->); [|done]. rewrite <- (assoc_L (++)). by eexists.
Qed.

Lemma settings_block path it : Directive it = [] → Key it ≠ [] → IsBlock it = true → Block it ≠ [] →
  settings_of path it = concat (map (settings_of (path ++ splitConfKeyPath (Key it))) (Block it)).
Proof.
  destruct it as [d k v h b i]. cbn. intros -> Hk -> Hb. unfold streq at 2.
  rewrite bool_decide_eq_false_2 by done. by destruct b.
Qed.

Lemma settings_leaf path it : Directive it = [] → Key it ≠ [] → IsBlock it = false ∨ Block it = [] →
  settings_of path it = [Keyed (path ++ splitConfKeyPath (Key it))
    (if IsBlock it then None else if HasValue it then Some (Value it) else None)].
Proof.
  destruct it as [d k v h b i]. cbn. intros -> Hk Hb. unfold streq at 2.
  rewrite bool_decide_eq_false_2 by done. destruct i; [|done]. by destruct Hb as [?| ->].
Qed.

Lemma keyed_path path it s : Directive it = [] → Key it ≠ [] → s ∈ settings_of path it →
  ∃ t, setting_path s = (path ++ splitConfKeyPath (Key it)) ++ t.
Proof.
  intros Hd Hk Hs. destruct (decide (IsBlock it = true ∧ Block it ≠ [])) as [[Hi Hb]|Hn].
  - rewrite settings_block in Hs by done. rewrite list_elem_of_In, in_concat in Hs.
    destruct Hs as (l & (y & <- & Hy)%in_map_iff & Hs). rewrite <- list_elem_of_In in Hs. by eapply settings_path.
  - rewrite settings_leaf in Hs; [|done..|].
    + apply list_elem_of_singleton in Hs as ->. exists []. by rewrite app_nil_r.
    + destruct (IsBlock it); [right|by left]. destruct (Block it); [done|]. by destruct Hn.
Qed.

Definition loses (path : list gostring) (it : confItem) (o : option confItem) (d : list DroppedConfEntry) : Prop :=
  ∃ lost, interleave (from_option (settings_of path) [] o) lost (settings_of path it) ∧ Forall (reported d) lost.

Lemma collect_loses f path l :
  (∀ x, x ∈ l → loses path x (f x).1 (f x).2) →
  ∃ lost, interleave (concat (map (settings_of path) (collect f l).1)) lost (concat (map (settings_of path) l))
    ∧ Forall (reported (collect f l).2) lost.
Proof.
  induction l as [|x l IH]; intros Hf; [exists []; split; constructor|].
  destruct (Hf x ltac:(set_solver)) as (l1 & H1 & H2). destruct IH as (l2 & H3 & H4); [set_solver|].
  exists (l1 ++ l2). rewrite collect_app_inv. cbn [fst snd map concat]. split.
  - destruct ((f x).1) as [y|]; cbn in H1 |- *; [by apply interleave_app|].
    by apply (interleave_app [] l1 _ _ _ _ H1).
  - apply Forall_app; split; (eapply Forall_impl; [done|]); intros s; apply reported_mono; set_solver.
Qed.

Lemma filter_loses it path : loses path it (filter_item allowProxy file it path).1 (filter_item allowProxy file it path).2.
Proof.
  revert it path. apply filter_item_ind. intros path it o d Hf IH. unfold loses.
  destruct Hf as [d Hd|Hd Hk|reason Hd Hk Hr|block d Hd Hk Hi Hb Hc Hn|block d Hd Hk Hi Hr Hc Hn|Hd Hk Hi Hr].
  - exists []. destruct it as [d' ? ? ? ? ?]. cbn in *.
    unfold streq. rewrite bool_decide_eq_false_2 by done. split; constructor.
  - exists []. split; [apply interleave_left|done].
  - exists (settings_of path it). split; [apply interleave_right|]. apply Forall_forall. intros s Hs.
    assert (∃ t, setting_path s = (path ++ splitConfKeyPath (Key it)) ++ t) as [t Ht] by (by eapply keyed_path).
    exists (path ++ splitConfKeyPath (Key it)), t, it, reason. split_and!; [by constructor|done..].
  - subst block. destruct (collect_loses (λ x, filter_item allowProxy file x (path ++ splitConfKeyPath (Key it)))
      (path ++ splitConfKeyPath (Key it)) (Block it)) as (lost & H1 & H2); [by intros; apply IH|].
    rewrite Hc in H1, H2. exists lost. split; [|done]. by rewrite settings_block.
  - destruct (collect_loses (λ x, filter_item allowProxy file x (path ++ splitConfKeyPath (Key it)))
      (path ++ splitConfKeyPath (Key it)) (Block it)) as (lost & H1 & H2); [by intros; apply IH|].
    rewrite Hc in H1, H2. cbn [fst snd] in H1, H2. destruct (decide (Block it = [])) as [E|E].
    + rewrite E in Hn. destruct it; cbn in *; subst. rewrite (proj1 Hn) by done. exists []. split; [apply interleave_left|done].
    + exists lost. split; [|done]. cbn [from_option]. rewrite !settings_block; try done.
      cbn. intros ?. by apply E, Hn.
  - exists []. split; [apply interleave_left|done].
Qed.

(** ** What stays may stay *)

Lemma collect_elem {A B D} (f : A → option B * list D) l y :
  y ∈ (collect f l).1 → ∃ x, x ∈ l ∧ (f x).1 = Some y.
Proof.
  induction l as [|x l IH]; [by intros ?%elem_of_nil|]. rewrite collect_app_inv. cbn [fst].
  destruct ((f x).1) as [z|] eqn:E; [intros [->|Hy]%elem_of_cons|intros Hy].
  - exists x. set_solver.
  - apply IH in Hy as (w & ? & ?). exists w. set_solver.
  - apply IH in Hy as (w & ? & ?). exists w. set_solver.
Qed.

Lemma filter_elem path l y : y ∈ (filter_items path l).1 →
  ∃ x, x ∈ l ∧ (filter_item allowProxy file x path).1 = Some y.
Proof. apply collect_elem. Qed.

Lemma place_app path it : dropConfReason path it allowProxy = None → IsBlock it = true → place path.
Proof. intros Hr Hi. apply (kept_block path it); auto. Qed.

Definition stays_admitted (path : list gostring) (it : confItem) (o : option confItem) (d : list DroppedConfEntry) : Prop :=
  place path → ∀ it', o = Some it' → Forall admitted (settings_of path it').

Lemma filter_admitted it path :
  stays_admitted path it (filter_item allowProxy file it path).1 (filter_item allowProxy file it path).2.
Proof.
  revert it path. apply filter_item_ind. intros path it o d Hf IH Hp it' E.
  destruct Hf as [d Hd|Hd Hk|reason Hd Hk Hr|block d Hd Hk Hi Hb Hc Hn|block d Hd Hk Hi Hr Hc Hn|Hd Hk Hi Hr];
    simplify_eq.
  - destruct it' as [? ? v ? ? ?]. cbn in *. subst. by constructor.
  - destruct (decide (block = [])) as [->|Hne].
    + rewrite settings_leaf by auto. cbn. rewrite Hi. constructor; [|done]. by eapply place_app.
    + rewrite settings_block by done. cbn. apply Forall_concat, Forall_forall. intros l Hl.
      apply list_elem_of_In, in_map_iff in Hl as (y & <- & Hy). apply list_elem_of_In in Hy.
      pose proof (filter_elem _ (Block it) y ltac:(by rewrite Hc)) as (x & Hx & Ho).
      eapply IH; try done. by eapply place_app.
  - rewrite settings_leaf, Hi by auto. constructor; [|done]. destruct (HasValue it') eqn:Hv.
    + destruct (kept_value _ _ Hr Hi) as [?|E]; [done|]. cbn. by left.
    + apply (kept_block _ it'); auto.
Qed.

Lemma word_not_nil w : word w → w ≠ [].
Proof. by intros [_ (? & ? & -> & _)]. Qed.

Definition stays_shaped (path : list gostring) (it : confItem) (o : option confItem) (d : list DroppedConfEntry) : Prop :=
  shaped true it → ∀ it', o = Some it' → shaped false it'.

Lemma filter_shaped it path :
  stays_shaped path it (filter_item allowProxy file it path).1 (filter_item allowProxy file it path).2.
Proof.
  revert it path. apply filter_item_ind. intros path it o d Hf IH Hs it' E.
  destruct Hf as [d Hd|Hd Hk|reason Hd Hk Hr|block d Hd Hk Hi Hb Hc Hn|block d Hd Hk Hi Hr Hc Hn|Hd Hk Hi Hr];
    simplify_eq.
  - inversion Hs; subst; cbn in *; first [done | by constructor | by edestruct word_not_nil].
  - inversion Hs as [| |k b Hw Hb| |]; subst; cbn in *; try done. constructor; [done|].
    apply Forall_forall. intros y Hy.
    pose proof (filter_elem _ b y ltac:(by rewrite Hc)) as (x & Hx & Ho).
    eapply IH; try done. rewrite Forall_forall in Hb. by apply Hb.
  - inversion Hs; subst; cbn in *; try done; by constructor.
Qed.

(** ** Filtering again *)

Lemma drop_block path it b : dropConfReason path it allowProxy = None → IsBlock it = true ∨ HasValue it = false →
  IsBlock b = true → dropConfReason path b allowProxy = None.
Proof.
  intros Hr Hi Hb. pose proof (kept_block _ _ Hr Hi) as [_ Hc]. revert Hr. unfold dropConfReason.
  destruct path as [|p0 path]; [done|]. destruct (deny_reason _ allowProxy); [done|].
  destruct (classifyConfKey (p0 :: path) allowProxy); [done| |by rewrite Hb].
  unfold unsafeSolverValue. destruct (solver_path _); simpl; [|done].
  destruct Hi as [->| ->]; [done|]. by rewrite orb_true_r.
Qed.

Definition stable (path : list gostring) (it : confItem) (o : option confItem) (d : list DroppedConfEntry) : Prop :=
  shaped true it → ∀ it', o = Some it' → filter_item allowProxy file (norm it') path = (Some (norm it'), []).

Lemma collect_stable path l :
  (∀ x, x ∈ l → filter_item allowProxy file (norm x) path = (Some (norm x), [])) →
  filter_items path (map norm l) = (map norm l, []).
Proof.
  induction l as [|x l IH]; intros Hl; [done|]. cbn [map collect]. rewrite Hl by set_solver.
  rewrite IH by set_solver. done.
Qed.

Lemma filter_block_stable path k b : k ≠ [] → dropConfReason (path ++ splitConfKeyPath k) (block_item k b) allowProxy = None →
  filter_items (path ++ splitConfKeyPath k) b = (b, []) →
  filter_item allowProxy file (block_item k b) path = (Some (block_item k b), []).
Proof.
  intros Hk Hr Hb. cbn [filter_item block_item Directive Key IsBlock Block].
  change (negb (streq [] "")) with false. unfold streq. rewrite (bool_decide_eq_false_2 (k = _)) by done.
  cbn iota. unfold block_item in Hr. rewrite Hr, Hb. by destruct b.
Qed.

Lemma filter_stable it path :
  stable path it (filter_item allowProxy file it path).1 (filter_item allowProxy file it path).2.
Proof.
  revert it path. apply filter_item_ind. intros path it o d Hf IH Hs it' E.
  destruct Hf as [d Hd|Hd Hk|reason Hd Hk Hr|block d Hd Hk Hi Hb Hc Hn|block d Hd Hk Hi Hr Hc Hn|Hd Hk Hi Hr];
    simplify_eq.
  - inversion Hs; subst; cbn in *; first [done | by edestruct word_not_nil].
  - inversion Hs as [| |k b Hw Hb| |]; subst; cbn in *; try done. rewrite (word_streq k) by done.
    apply filter_block_stable; [done|by eapply drop_block; eauto|]. apply collect_stable.
    intros y Hy. pose proof (filter_elem _ b y ltac:(by rewrite Hc)) as (x & Hx & Ho).
    eapply IH; try done. rewrite Forall_forall in Hb. by apply Hb.
  - inversion Hs as [| | |k v Hw|k Hw]; subst; cbn [Directive Key IsBlock block_item value_item key_item] in *; try done.
    + cbn [norm value_item filter_item Directive Key IsBlock HasValue]. rewrite (word_streq k) by done.
      unfold value_item in Hr. cbn. rewrite (word_streq k) by done. by rewrite Hr.
    + cbn [norm key_item Key IsBlock HasValue]. rewrite (word_streq k) by done.
      apply filter_block_stable; [done| |done]. eapply drop_block; [done|by right|done].
Qed.

End policy.

(** ** The text that is written *)

Lemma norm_settings it : shaped false it → ∀ path, settings_of path (norm it) = settings_of path it.
Proof.
  induction it as [d k v h b i IH] using confItem_ind'. intros Hit path.
  inversion Hit as [| |? ? Hk Hb|? ? Hk|? Hk]; subst; [done|done|..];
    cbn [norm Directive Key Value HasValue Block IsBlock]; rewrite (word_streq k) by done; [|done|].
  - cbn [settings_of block_item Directive Key IsBlock Block]. rewrite !(word_streq k) by done.
    change (negb (streq [] "")) with false. cbn iota.
    assert (map (settings_of (path ++ splitConfKeyPath k)) (map norm b)
      = map (settings_of (path ++ splitConfKeyPath k)) b) as E; [|by destruct b; [|rewrite <- E]].
    clear -IH Hb. induction b as [|x b IHb]; [done|]. inversion IH as [|? ? Hx]; inversion Hb; subst.
    cbn [map]. rewrite Hx by done. f_equal. by apply IHb.
  - cbn [settings_of block_item Directive Key IsBlock Block HasValue]. by rewrite !(word_streq k) by done.
Qed.

Lemma norm_shaped it : shaped false it → shaped false (norm it).
Proof.
  induction it as [d k v h b i IH] using confItem_ind'. intros Hit.
  inversion Hit as [| |? ? Hk Hb|? ? Hk|? Hk]; subst; [done|done|..];
    cbn [norm Directive Key Value HasValue Block IsBlock]; rewrite (word_streq k) by done; constructor; try done.
  clear -IH Hb. induction b; inversion IH; inversion Hb; subst; constructor; auto.
Qed.

Lemma norm_idem it : norm (norm it) = norm it.
Proof.
  induction it as [d k v h b i IH] using confItem_ind'. cbn [norm Key IsBlock HasValue Block].
  destruct (streq k "") eqn:Hk; [by cbn; rewrite Hk|]. destruct i.
  - cbn [norm block_item Key IsBlock Block]. rewrite Hk. f_equal. rewrite map_map.
    induction IH as [|x l Hx _ IHl]; [done|]. cbn [map]. by rewrite Hx, IHl.
  - destruct h; cbn [norm block_item Key IsBlock HasValue]; by rewrite Hk.
Qed.

Lemma items_norm_settings items : Forall (shaped false) items → settings (map norm items) = settings items.
Proof.
  unfold settings. induction 1 as [|x l Hx Hl IH]; [done|]. cbn [map concat]. by rewrite norm_settings, IH.
Qed.

(** The filtered items and what reading the text written for them gives. *)
Lemma filterAptConf_items file data allowProxy :
  let items := (filterAptConfItems (read_conf data) [] allowProxy file).1 in
  Forall (shaped false) items
  ∧ filterAptConf file data allowProxy = (serializeAptConfItems 0 items, (filterAptConfItems (read_conf data) [] allowProxy file).2)
  ∧ read_conf (filterAptConf file data allowProxy).1 = map norm items
  ∧ settings (map norm items) = settings items.
Proof.
  intros items. assert (Forall (shaped false) items) as Hs.
  { apply Forall_forall. intros y Hy. apply filter_elem in Hy as (x & Hx & Ho).
    eapply filter_shaped; [|done]. pose proof (read_conf_shaped data) as Hr. rewrite Forall_forall in Hr. by apply Hr. }
  split; [done|]. unfold filterAptConf. subst items.
  destruct (filterAptConfItems (read_conf data) [] allowProxy file) as [items d]. cbn [fst snd] in *.
  split; [done|]. split; [by apply reread|by apply items_norm_settings].
Qed.

Lemma filtered_admitted file data allowProxy : Forall (admitted allowProxy) (settings (read_conf (filterAptConf file data allowProxy).1)).
Proof.
  destruct (filterAptConf_items file data allowProxy) as (_ & _ & Hr & Hn). rewrite Hr, Hn.
  apply Forall_concat, Forall_forall. intros l Hl.
  apply list_elem_of_In, in_map_iff in Hl as (y & <- & Hy). apply list_elem_of_In in Hy.
  apply filter_elem in Hy as (x & Hx & Hxo). eapply filter_admitted; [|done]. by left.
Qed.

(** ** The rules, spelled out *)

(** The keys that decide what apt selects; below APT::Solver, and only there,
    deeper keys may be set too. *)
Definition exact_keys : list (list gostring) := map (map bytes_of)
  [["APT"; "Install-Recommends"]; ["APT"; "Install-Suggests"]; ["APT"; "Default-Release"];
   ["APT"; "Architecture"]; ["APT"; "Architectures"]; ["APT"; "Machine-ID"];
   ["APT"; "Get"; "Never-Include-Phased-Updates"]; ["APT"; "Get"; "Always-Include-Phased-Updates"];
   ["Acquire"; "Languages"]]%string.
Definition solver_key : list gostring := map bytes_of ["APT"; "Solver"]%string.
(** The last segments of keys that run a program or weaken verification. *)
Definition never_last : list gostring := map bytes_of
  ["Pre-Invoke"; "Post-Invoke"; "Post-Invoke-Success"; "Post-Invoke-Stats"; "Pre-Install-Pkgs";
   "Proxy-Auto-Detect"; "ProxyAutoDetect"; "AllowUnauthenticated"; "AllowInsecureRepositories";
   "AllowDowngradeToInsecureRepositories"; "AllowWeakRepositories"; "Check-Valid-Until"; "Check-Date";
   "Verify-Peer"; "Verify-Host"]%string.
(** [Binary::<program>] in front of a key only says which program it is for. *)
Definition past_scope (path : list gostring) : list gostring :=
  match path with
  | b :: rest => if equal_fold b (bytes_of "Binary") then tail rest else path
  | [] => []
  end.
(** At a key or below it. *)
Definition key_under (p k : list gostring) : Prop := ∃ h t, p = h ++ t ∧ same_key h k.

Definition may_be_set (allowProxy : bool) (p : list gostring) : Prop :=
  (∃ k, k ∈ exact_keys ∧ same_key p k) ∨ key_under p solver_key
  ∨ (allowProxy = true ∧ key_under p [bytes_of "Acquire"] ∧ ∃ s, s ∈ tail p ∧ equal_fold s (bytes_of "Proxy") = true).
Definition never_set (allowProxy : bool) (p : list gostring) : Prop :=
  key_under p [bytes_of "Dir"] ∨ (∃ k, k ∈ never_last ∧ equal_fold (List.last p []) k = true)
  ∨ key_under p (map bytes_of ["DPkg"; "Tools"]%string)
  ∨ (key_under p (map bytes_of ["Acquire"; "gpgv"]%string) ∧ 3 ≤ length p ∧ equal_fold (List.last p []) (bytes_of "Options") = true)
  ∨ (allowProxy = false ∧ key_under p [bytes_of "Acquire"] ∧ ∃ s, s ∈ tail p ∧ equal_fold s (bytes_of "Proxy") = true).
Definition listed (allowProxy : bool) (path : list gostring) : Prop :=
  may_be_set allowProxy (past_scope path) ∧ ¬ never_set allowProxy (past_scope path).
(** A block on the way to a listed key. *)
Definition leads (allowProxy : bool) (path : list gostring) : Prop :=
  (∃ k h t, k ∈ solver_key :: exact_keys ∧ k = h ++ t ∧ same_key h (past_scope path))
  ∨ (allowProxy = true ∧ key_under (past_scope path) [bytes_of "Acquire"]).

Lemma past_scope_eq path : (stripBinaryScope path).1 = past_scope path.
Proof. destruct path as [|b [|x r]]; [done|..]; simpl; by destruct (equal_fold b _). Qed.
Lemma carried_spelled allowProxy p : carried allowProxy p → may_be_set allowProxy p.
Proof.
  inversion 1 as [e q r He Hq Hr|a q Hp Ha Hs]; subst.
  - unfold aptConfAllowList in He. rewrite !elem_of_cons, elem_of_nil in He.
    repeat match goal with H : _ ∨ _ |- _ => destruct H as [He|He] end; try done; subst e;
      first [right; left; exists q, r; by split
            |left; destruct Hr as [?| ->]; [done|]; rewrite app_nil_r; eexists; split; [|exact Hq]; unfold exact_keys; simpl; set_solver].
  - right; right. split; [done|]. split; [|done]. exists [a], q. split; [done|]. by constructor.
Qed.
Lemma harmless_spelled allowProxy p : harmless allowProxy p → ¬ never_set allowProxy p.
Proof.
  intros (H1 & H2 & H3 & H4 & H5) [H|[(k & Hk & E)|[H|[(H & Hl & E)|(-> & H & s & Hs & E)]]]].
  - apply hasConfPrefix_spec in H. congruence.
  - specialize (H2 k Hk). congruence.
  - apply hasConfPrefix_spec in H. congruence.
  - apply hasConfPrefix_spec in H. specialize (H4 H Hl). congruence.
  - apply hasConfPrefix_spec in H. specialize (H5 eq_refl H). apply not_true_iff_false in H5. apply H5.
    apply existsb_exists. exists s. by rewrite <- list_elem_of_In.
Qed.
Lemma safe_listed allowProxy path : safe_key allowProxy path → listed allowProxy path.
Proof. unfold safe_key, listed. rewrite past_scope_eq. intros [H1%carried_spelled H2%harmless_spelled]. done. Qed.
Lemma leads_nil allowProxy : leads allowProxy [].
Proof. left. exists solver_key, [], solver_key. split; [by left|]. split; [done|constructor]. Qed.
Lemma container_leads allowProxy path : classifyConfKey path allowProxy = confKeyContainer → leads allowProxy path.
Proof.
  unfold classifyConfKey, leads. rewrite <- past_scope_eq. destruct (stripBinaryScope path) as [[|a q] scoped]; cbn [fst].
  { intros _. apply leads_nil. }
  destruct (class_loop (a :: q) aptConfAllowList) as [c|] eqn:Hl.
  - intros ->. apply class_loop_container in Hl as (e & He & (h & t & E & Hs)%hasConfPrefix_spec). left. exists (ce_Path e), h, t.
    split; [|by split]. unfold aptConfAllowList in He. rewrite !elem_of_cons, elem_of_nil in He. unfold exact_keys, solver_key.
    repeat match goal with H : _ ∨ _ |- _ => destruct H as [He|He] end; try done; subst e; simpl; set_solver.
  - destruct (allowProxy && equal_fold a (bytes_of "Acquire")) eqn:Ea; [|done]. apply andb_true_iff in Ea as [-> Ea]. intros _.
    right. split; [done|]. exists [a], q. split; [done|by constructor].
Qed.
Lemma solver_key_spec p : same_key p solver_key → solver_path p = true.
Proof.
  unfold solver_key. intros H. inversion H as [|a ? q ? Ha Hq]; subst. inversion Hq as [|b ? r ? Hb Hr]; subst. inversion Hr; subst.
  simpl in *. by rewrite Ha, Hb.
Qed.
Lemma place_spelled allowProxy path : place allowProxy path →
  (listed allowProxy path ∧ ¬ same_key (past_scope path) solver_key) ∨ leads allowProxy path.
Proof.
  intros [->|[[Hs Hn]|Hc]]; [right; apply leads_nil|left|right; by apply container_leads].
  split; [by apply safe_listed|]. rewrite past_scope_eq in Hn. intros H%solver_key_spec. congruence.
Qed.


(** Nothing is lost silently: the settings of a captured file are, in
    order, those that reading the filtered text gives together with others,
    and each of the others is at or under a key that is reported, for this
    file and with the reason it was withheld. *)
Theorem filterAptConf_reported file data allowProxy :
  let '(out, dropped) := filterAptConf file data allowProxy in
  ∃ lost, interleave (settings (read_conf out)) lost (settings (read_conf data))
    ∧ Forall (reported allowProxy file dropped) lost.
Proof.
  destruct (filterAptConf_items file data allowProxy) as (_ & E & Hr & Hn). rewrite E in *. cbn [fst] in Hr.
  rewrite Hr, Hn. apply collect_loses. intros x _. apply filter_loses.
Qed.

End safe.

(** ** Cases worth knowing *)

(** A closing brace at the top ends the parse: what follows is neither carried
    nor reported. *)
Example stray_brace :
  filterAptConf (bytes_of "f") (bytes_of "APT::Get {}; }; Dir::Bin::gpgv /tmp/x;") false
  = (bytes_of "APT::Get" ++ [newline] ++ bytes_of "{" ++ [newline] ++ bytes_of "};" ++ [newline], []).
Proof. vm_compute. reflexivity. Qed.

(** A setting below the solver is carried in the dotted form and dropped, with
    a report, in the nested one. *)
Example nested_solver_setting :
  (filterAptConf (bytes_of "f") (bytes_of "APT::Solver::RemoveManual true;") false).2 = []
  ∧ (filterAptConf (bytes_of "f") (bytes_of "APT::Solver { RemoveManual true; };") false).1 = [].
Proof. split; vm_compute; reflexivity. Qed.

(** A key that is only the separator has no path, and is carried. *)
Example separator_key :
  settings (read_conf (filterAptConf (bytes_of "f") (bytes_of ":: /tmp/x;") false).1) = [Keyed [] (Some (bytes_of "/tmp/x"))].
Proof. vm_compute. reflexivity. Qed.

(** A value without a key is carried at the top and in a block that only leads to
    listed keys, with nothing reported. *)
Example bare_values :
  let conf := "APT" ++ [newline] ++ "{" ++ [newline] ++ "    " ++ [dquote] ++ "x" ++ [dquote] ++ ";" ++ [newline] ++ "};" ++ [newline] in
  filterAptConf (bytes_of "f") conf false = (conf, [])
  ∧ settings (read_conf conf) = [Bare [bytes_of "APT"] (bytes_of "x")]
  ∧ settings (read_conf (filterAptConf (bytes_of "f") (dquote :: "z" ++ [dquote; ";"%char]) false).1) = [Bare [] (bytes_of "z")].
Proof. split_and!; vm_compute; reflexivity. Qed.

(** A hook named by a child of its key is withheld as an unknown key. *)
Example named_hook :
  map dc_Reason (filterAptConf (bytes_of "f") (bytes_of "DPkg::Pre-Invoke::x /tmp/x;") false).2 = [notOnAllowListReason].
Proof. vm_compute. reflexivity. Qed.
