(* ===== verification/AptSources.v ===== *)
(** * core/apt/sources.go: the source files of a private root.

    Which keyring a captured source is pinned to and how that is rewritten for
    the root, and which of the root's sources apt is told to trust without a
    check. A regular expression is applied to a text as in [GoRegexp]; the file
    names a directory lists are given, with their contents. *)
From S2P Require Export GoRegexp ClosedWorld.
#[local] Open Scope Z_scope.

Record SignedByRecord := mkSignedBy {
  sb_SourceFile : gostring; sb_Stanza : Z; sb_OriginalPath : gostring; sb_Inline : bool;
  sb_RewrittenTo : gostring; sb_Stripped : bool; sb_Fingerprints : list gostring
}.

Section sources.
Context {unicode : UnicodeTables}.

Definition isDeb822SourceFile (name : gostring) : bool := has_suffix (bytes_of ".sources") (to_lower name).

Definition signedByFieldRE : re := cats [Bol; lit_fold "Signed-By:"; any ws; Cap 1 (any dot); Eol].

(** ** One Signed-By value *)

Definition deb822SignedBySeps (c : ascii) : bool := beq c "," || beq c " " || beq c (chr 9).
Definition oneLineSignedBySeps (c : ascii) : bool := beq c ",".

(** [strings.FieldsFunc] for an ASCII separator; [cur] is the field being read,
    reversed. *)
Fixpoint fields_func (sep : ascii → bool) (cur s : gostring) : list gostring :=
  match s with
  | [] => emit cur []
  | c :: s' => if sep c then emit cur (fields_func sep [] s') else fields_func sep (c :: cur) s'
  end.
Definition unquoteSourceValue (s : gostring) : gostring :=
  match s with
  | q :: r =>
      match rev r with
      | q' :: m => if beq q (chr 34) && beq q' (chr 34) then rev m else s
      | [] => s
      end
  | [] => s
  end.
Definition splitSignedByValue (value : gostring) (sep : ascii → bool) : list gostring :=
  List.filter (λ f, negb (streq f ""))
    (map (λ f, unquoteSourceValue (trim_space f)) (fields_func sep [] (unquoteSourceValue value))).

Abbreviation keyrings := (gmap gostring gostring).
Definition dest_of (keyringDest : keyrings) (e : gostring) : gostring := default [] (keyringDest !! e).

Definition entry_record (file : gostring) (stanza : Z) (keyringDest : keyrings) (e : gostring) : SignedByRecord :=
  if negb (has_prefix "/" e) then mkSignedBy file stanza [] true [] false []
  else mkSignedBy file stanza e false (dest_of keyringDest e) false [].
Definition entry_kept (keyringDest : keyrings) (e : gostring) : option gostring :=
  if negb (has_prefix "/" e) then Some e
  else if negb (streq (dest_of keyringDest e) "") then Some (dest_of keyringDest e) else None.
Definition strip_record (r : SignedByRecord) : SignedByRecord :=
  mkSignedBy (sb_SourceFile r) (sb_Stanza r) (sb_OriginalPath r) (sb_Inline r) (sb_RewrittenTo r) true (sb_Fingerprints r).
Definition rewriteSignedByList (file : gostring) (stanza : Z) (value : gostring) (keyringDest : keyrings)
    (sep : ascii → bool) : gostring * list SignedByRecord :=
  match keyringDest !! value with
  | Some dest => (dest, [mkSignedBy file stanza value false dest false []])
  | None =>
      match splitSignedByValue value sep with
      | [] => ([], [mkSignedBy file stanza value false [] true []])
      | entries =>
          let records := map (entry_record file stanza keyringDest) entries in
          match omap (entry_kept keyringDest) entries with
          | [] => ([], map strip_record records)
          | kept => (join (bytes_of ",") kept, records)
          end
      end
  end.

(** ** deb822 files *)

Definition continues (line : gostring) : bool :=
  match line with c :: _ => beq c " " || beq c (chr 9) | [] => false end.
Fixpoint span_continued (lines : list gostring) : list gostring * list gostring :=
  match lines with
  | l :: rest => if continues l then let '(cont, after) := span_continued rest in (l :: cont, after) else ([], lines)
  | [] => ([], [])
  end.

Definition blank (line : gostring) : bool := streq (trim_space line) "".
Fixpoint deb822_loop (fuel : nat) (file : gostring) (keyringDest : keyrings) (stanza : Z) (lines : list gostring)
    : list gostring * list SignedByRecord :=
  match fuel, lines with
  | S fuel, line :: rest =>
      if blank line then
        let '(out, records) := deb822_loop fuel file keyringDest (stanza + 1) rest in (line :: out, records)
      else match find_submatch signedByFieldRE line with
      | None => let '(out, records) := deb822_loop fuel file keyringDest stanza rest in (line :: out, records)
      | Some m =>
          let value := trim_space (group 1 m) in
          let '(cont, after) := span_continued rest in
          let '(out, records) := deb822_loop fuel file keyringDest stanza after in
          match cont with
          | [] =>
              if has_prefix "/" value then
                let '(rewritten, recs) := rewriteSignedByList file stanza value keyringDest deb822SignedBySeps in
                ((if negb (streq rewritten "") then [bytes_of "Signed-By: " ++ rewritten] else []) ++ out, recs ++ records)
              else (line :: out, mkSignedBy file stanza [] true [] false [] :: records)
          | _ => (line :: cont ++ out, mkSignedBy file stanza [] true [] false [] :: records)
          end
      end
  | _, _ => ([], [])
  end.
Definition rewriteSignedByDeb822 (file data : gostring) (keyringDest : keyrings) : gostring * list SignedByRecord :=
  let lines := split newline data in
  let '(out, records) := deb822_loop (length lines) file keyringDest 0 lines in
  (join [newline] out, records).

Lemma span_continued_length lines : (length (snd (span_continued lines)) ≤ length lines)%nat.
Proof.
  induction lines as [|l rest IH]; [done|]. cbn [span_continued]. destruct (continues l); [|done].
  destruct (span_continued rest) as [cont after]. cbn in *. lia.
Qed.
(** As many rounds as there are lines are enough: more change nothing. *)
Lemma deb822_loop_fuel file keyringDest fuel fuel' stanza lines :
  (length lines ≤ fuel)%nat → (length lines ≤ fuel')%nat →
  deb822_loop fuel file keyringDest stanza lines = deb822_loop fuel' file keyringDest stanza lines.
Proof.
  revert fuel' stanza lines. induction fuel as [|fuel IH]; intros [|fuel'] stanza [|line rest] H H'; cbn in H, H'; try done; try lia.
  cbn [deb822_loop]. destruct (blank line); [by rewrite (IH fuel') by lia|].
  destruct (find_submatch signedByFieldRE line); [|by rewrite (IH fuel') by lia].
  pose proof (span_continued_length rest) as Hs. destruct (span_continued rest) as [cont after]. cbn in Hs.
  by rewrite (IH fuel') by lia.
Qed.

(** ** One-line files *)

Definition oneLineSourceRE : re :=
  cats [Bol; Cap 1 (any ws); Cap 2 (Alt (Lit "deb") (Lit "deb-src")); Cap 3 (many ws);
        Opt (Cap 4 (cats [Lit "["; any (not_byte "]"); Lit "]"])); Cap 5 (any ws); Cap 6 (any dot); Eol].
Definition signedByOptRE : re :=
  cats [lit_fold "signed-by="; Cap 1 (Alt (cats [Lit [chr 34]; any (not_byte (chr 34)); Lit [chr 34]]) (many nonws))].
Definition not_an_entry (line : gostring) : bool :=
  let trimmed := trim_space line in streq trimmed "" || has_prefix "#" trimmed.
(** What is between the brackets of an option group. *)
Definition inside (opts : gostring) : gostring := take (length opts - 2) (tail opts).

Definition one_line (file : gostring) (keyringDest : keyrings) (stanza : Z) (line : gostring)
    : gostring * list SignedByRecord * Z :=
  if not_an_entry line then (line, [], stanza)
  else match find_submatch oneLineSourceRE line with
  | None => (line, [], stanza)
  | Some m =>
      if streq (group 4 m) "" then (line, [], stanza + 1)
      else
        let inner := inside (group 4 m) in
        match find_parts signedByOptRE inner with
        | None => (line, [], stanza + 1)
        | Some (before, whole, after, sm) =>
            let orig := group 1 sm in
            let '(rewritten, recs) := rewriteSignedByList file stanza orig keyringDest oneLineSignedBySeps in
            let newInner :=
              join (bytes_of " ") (fields
                (if negb (streq rewritten "")
                 then before ++ take (length whole - length orig) whole ++ rewritten ++ after
                 else before ++ after)) in
            let rest := trim_space (group 6 m) in
            (group 2 m ++ (if negb (streq newInner "") then bytes_of " [" ++ newInner ++ bytes_of "]" else [])
             ++ (if negb (streq rest "") then bytes_of " " ++ rest else []), recs, stanza + 1)
        end
  end.
Fixpoint one_line_loop (file : gostring) (keyringDest : keyrings) (stanza : Z) (lines : list gostring)
    : list gostring * list SignedByRecord :=
  match lines with
  | [] => ([], [])
  | line :: rest =>
      let '(l, recs, stanza') := one_line file keyringDest stanza line in
      let '(out, records) := one_line_loop file keyringDest stanza' rest in (l :: out, recs ++ records)
  end.
Definition rewriteSignedByOneLine (file data : gostring) (keyringDest : keyrings) : gostring * list SignedByRecord :=
  let '(out, records) := one_line_loop file keyringDest 0 (split newline data) in (join [newline] out, records).

Definition rewriteSignedBy (archivePath data : gostring) (keyringDest : keyrings) : gostring * list SignedByRecord :=
  if isDeb822SourceFile archivePath then rewriteSignedByDeb822 archivePath data keyringDest
  else rewriteSignedByOneLine archivePath data keyringDest.

(** ** Sources that are trusted without a check *)

Record aptSourceEntry := mkSource { se_URIs : list gostring; se_Trusted : bool }.
Definition trustedOptRE : re :=
  let edge := Opt (Lit [chr 34]) in
  cats [Alt Bol ws; lit_fold "trusted="; edge; alts [lit_fold "yes"; lit_fold "true"; Lit "1"]; edge; Alt ws Eol].

Definition one_line_entry (line : gostring) : option aptSourceEntry :=
  if not_an_entry line then None
  else m ← find_submatch oneLineSourceRE line;
    let opts := group 4 m in
    match fields (group 6 m) with
    | [] => None
    | uri :: _ => Some (mkSource [uri] ((2 <=? length opts)%nat && re_matches trustedOptRE (inside opts)))
    end.
Definition parseSourceEntriesOneLine (data : gostring) : list aptSourceEntry := omap one_line_entry (split newline data).

Definition flush_entry (st : list aptSourceEntry * aptSourceEntry) : list aptSourceEntry * aptSourceEntry :=
  (match se_URIs st.2 with [] => st.1 | _ => st.1 ++ [st.2] end, mkSource [] false).
Definition deb822_line (st : list aptSourceEntry * aptSourceEntry) (line : gostring) : list aptSourceEntry * aptSourceEntry :=
  if blank line then flush_entry st
  else if continues line then st
  else match cut ":" line with
  | None => st
  | Some (key, value) =>
      let value := trim_space value in
      let key := to_lower (trim_space key) in
      if streq key "uris" then (st.1, mkSource (se_URIs st.2 ++ fields value) (se_Trusted st.2))
      else if streq key "trusted" then
        let v := to_lower (unquoteSourceValue value) in
        (st.1, mkSource (se_URIs st.2) (streq v "yes" || streq v "true" || streq v "1"))
      else st
  end.
Definition parseSourceEntriesDeb822 (data : gostring) : list aptSourceEntry :=
  (flush_entry (fold_left deb822_line (split newline data) ([], mkSource [] false))).1.
Definition parseSourceEntries (name data : gostring) : list aptSourceEntry :=
  if isDeb822SourceFile name then parseSourceEntriesDeb822 data else parseSourceEntriesOneLine data.

(** The root's [sources.list] and the files of [sources.list.d] in the order
    [os.ReadDir] lists them, with their contents as far as they can be read. *)
Definition uri_prefix (u : gostring) : gostring :=
  aptURItoFileName (if has_suffix "/" u then u else u ++ "/").
Definition add_prefix (out : list gostring) (p : gostring) : list gostring :=
  if negb (streq p "") && negb (bool_decide (p ∈ out)) then out ++ [p] else out.
Definition trustedIndexPrefixes (files : list (gostring * option gostring)) : list gostring :=
  let entries := concat (map (λ f : gostring * option gostring,
    match f.2 with Some data => parseSourceEntries f.1 data | None => [] end) files) in
  let uris := concat (map (λ e, if se_Trusted e then se_URIs e else []) entries) in
  sort_strings (fold_left add_prefix (map uri_prefix uris) []).
Definition indexFileBelongsTo (indexFile : gostring) (prefixes : list gostring) : bool :=
  existsb (λ p, has_prefix p indexFile) prefixes.
(** local.go *)
Definition verificationForIndexes (indexFiles trustedPrefixes : list gostring) : gostring :=
  if existsb (λ f, indexFileBelongsTo f trustedPrefixes) indexFiles then VerifiedURLUnverified else VerifiedAPTSigned.

End sources.
