(* ===== verification/AptSourcesSafe.v ===== *)
(** * A rewritten source names the keyring it is pinned to.

    [rewriteSignedBy_names]: every keyring that a record of [rewriteSignedBy]
    says a source was pointed at stands in the text that was written, in the
    list of a Signed-By. *)
From S2P Require Export AptSources.
#[local] Open Scope Z_scope.

(** ** What an expression matched *)

(** The texts an expression can match; of a starred one nothing is said. *)
Fixpoint lang (r : re) (m : gostring) : Prop :=
  match r with
  | Lit t => m = t
  | Cls f => ∃ c, m = [c] ∧ f c = true
  | Cat a b => ∃ x y, m = x ++ y ∧ lang a x ∧ lang b y
  | Alt a b => lang a m ∨ lang b m
  | Opt a => m = [] ∨ lang a m
  | Star _ _ => True
  | Cap _ a => lang a m
  | Bol | Eol => m = []
  end.
Lemma re_match_lang {R} whole r : ∀ s gs (k : gostring → groups → option R) x, re_match whole r s gs k = Some x →
  ∃ m rest gs', s = m ++ rest ∧ lang r m ∧ k rest gs' = Some x.
Proof.
  induction r as [t|f|a IHa b IHb|a IHa b IHb|a IHa|g a IHa|n a IHa| |]; intros s gs k x; cbn [re_match lang].
  - destruct (cut_prefix t s) as [rest|] eqn:E; [|done]. apply cut_prefix_Some in E as ->. intros H. by exists t, rest, gs.
  - destruct s as [|c rest]; [done|]. destruct (f c) eqn:E; [|done]. intros H. exists [c], rest, gs. split_and!; [done| |done]. by exists c.
  - intros (m & r1 & g1 & -> & Hm & H)%IHa. apply IHb in H as (m' & r2 & g2 & -> & Hm' & H).
    exists (m ++ m'), r2, g2. rewrite <- app_assoc. split_and!; [done| |done]. by exists m, m'.
  - destruct (re_match whole a s gs k) eqn:E.
    + intros [= <-]. apply IHa in E as (m & rest & gs' & ? & ? & ?). exists m, rest, gs'. tauto.
    + intros (m & rest & gs' & ? & ? & ?)%IHb. exists m, rest, gs'. tauto.
  - destruct (re_match whole a s gs k) eqn:E.
    + intros [= <-]. apply IHa in E as (m & rest & gs' & ? & ? & ?). exists m, rest, gs'. tauto.
    + intros H. exists [], s, gs. tauto.
  - generalize (length s) as n. intros n. revert s gs x. induction n as [|n IH]; intros s gs x.
    + destruct g; [|destruct (k s gs) eqn:E]; intros H; exists [], s, gs; (split_and!; [done..|]); congruence.
    + match goal with |- context [re_match whole a s gs ?K] => set (more := re_match whole a s gs K) end.
      assert (∀ y, more = Some y → ∃ m rest gs', s = m ++ rest ∧ True ∧ k rest gs' = Some y) as Hmore.
      { unfold more. intros y (m & rest & g1 & -> & _ & H)%IHa. destruct (_ <? _)%nat; [|done].
        apply IH in H as (m' & r2 & g2 & -> & _ & H). exists (m ++ m'), r2, g2. by rewrite <- app_assoc. }
      assert (∀ y, k s gs = Some y → ∃ m rest gs', s = m ++ rest ∧ True ∧ k rest gs' = Some y) as Hk by (intros y H; by exists [], s, gs).
      destruct g.
      * destruct more eqn:E; [intros [= <-]; by apply Hmore|apply Hk].
      * destruct (k s gs) eqn:E; [intros [= <-]; by apply Hk|apply Hmore].
  - intros (m & rest & g1 & -> & Hm & H)%IHa. exists m, rest. by eexists.
  - destruct (_ =? _)%nat; [|done]. intros H. by exists [], s, gs.
  - destruct s; [|done]. intros H. by exists [], [], gs.
Qed.
Lemma search_at whole r s x : search whole r s = Some x → ∃ pre s', s = pre ++ s' ∧ match_at whole r s' = Some x.
Proof.
  induction s as [|c s IH]; cbn [search]; destruct (match_at whole r _) as [y|] eqn:E; intros H.
  - exists [], []. split; [done|congruence].
  - done.
  - exists [], (c :: s). split; [done|congruence].
  - destruct (IH H) as (pre & s' & -> & H'). by exists (c :: pre), s'.
Qed.
(** A key and its value, where the expression is one after the other. *)
Lemma find_parts_key l v s before w after gs : find_parts (Cat l (Cap 1 v)) s = Some (before, w, after, gs) →
  ∃ key, s = before ++ w ++ after ∧ w = key ++ group 1 gs ∧ lang l key.
Proof.
  unfold find_parts. destruct (search _ _ s) as [[rest g]|] eqn:E; [|done]. cbn. intros [= <- <- <- <-].
  apply search_at in E as (pre & s' & -> & E). unfold match_at in E. cbn [re_match] in E.
  apply re_match_lang in E as (key & r1 & g1 & -> & Hl & E). apply re_match_lang in E as (val & r2 & g2 & -> & _ & E).
  injection E as <- <-. exists key. unfold group at 1 2 3. cbn [find fst snd Nat.eqb].
  rewrite (app_assoc key), !length_app, <- !length_app.
  replace (length ((key ++ val) ++ r2) - length r2)%nat with (length (key ++ val)) by (rewrite !length_app; lia).
  rewrite (take_app_length (key ++ val)).
  replace (length (val ++ r2) - length r2)%nat with (length val) by (rewrite length_app; lia). rewrite take_app_length.
  replace (length (pre ++ (key ++ val) ++ r2) - length r2 - length (key ++ val))%nat with (length pre) by (rewrite !length_app; lia).
  rewrite take_app_length. done.
Qed.

(** ** Words in a text *)

(** A byte that is no white space, and part of none: ASCII that prints, and the
    two bytes of the letter that folds to [s]. *)
Definition graphic (c : ascii) : bool := (33 <=? ord c) && (ord c <=? 126).
Definition tight (c : ascii) : bool := graphic c || beq c (chr 197) || beq c (chr 191).
Lemma tight_not_space c : tight c = true →
  is_space1 c = false ∧ (∀ a, is_space2 a c = false ∧ is_space2 c a = false)
  ∧ ∀ a b, is_space3 c a b = false ∧ is_space3 a c b = false ∧ is_space3 a b c = false.
Proof.
  intros H. assert (33 ≤ ord c ≤ 126 ∨ ord c = 197 ∨ ord c = 191) as Hc.
  { unfold tight, graphic, beq in H. apply orb_true_iff in H as [[H|H]%orb_true_iff|H]; bsplit; [lia|subst; by right; left|subst; by right; right]. }
  assert (∀ k, k ∈ [9; 13; 32; 194; 133; 160; 225; 154; 128; 226; 168; 169; 175; 129; 159; 227] → (ord c =? k) = false) as Hk.
  { intros k Hk. apply Z.eqb_neq. intros E. rewrite E in Hc. clear E. repeat (apply elem_of_cons in Hk as [->|Hk]; [lia|]). by apply elem_of_nil in Hk. }
  assert (in_range 9 13 c = false ∧ in_range 128 138 c = false) as [H1 H2] by (unfold in_range; split; apply andb_false_iff; lia).
  unfold is_space1, is_space2, is_space3. rewrite H1, H2.
  split; [|split; [intros a; split|intros a b; split_and!]]; rewrite ?Hk by set_solver; by rewrite ?andb_false_r, ?orb_false_r.
Qed.
Lemma fields_tight x : Forall (λ c, tight c = true) x → ∀ cur s, fields_go cur (x ++ s) = fields_go (rev x ++ cur) s.
Proof.
  induction 1 as [|c x Hc _ IH]; intros cur s; [done|]. destruct (tight_not_space c Hc) as (H1 & H2 & H3).
  assert (fields_go cur (c :: x ++ s) = fields_go (c :: cur) (x ++ s)) as E.
  { cbn [fields_go]. rewrite H1. destruct (x ++ s) as [|b s2]; [done|]. rewrite (proj2 (H2 b)).
    destruct s2 as [|d s3]; [done|]. by rewrite (proj1 (H3 b d)). }
  change ((c :: x) ++ s) with (c :: x ++ s). rewrite E, IH. cbn [rev]. by rewrite <- app_assoc.
Qed.
(** One step of [fields_go] ends the word or adds a byte to it. *)
Lemma fields_step cur a s : (∃ s', (length s' ≤ length s)%nat ∧ (∃ w, s = w ++ s') ∧ fields_go cur (a :: s) = emit cur (fields_go [] s'))
  ∨ fields_go cur (a :: s) = fields_go (a :: cur) s.
Proof.
  cbn [fields_go]. destruct (is_space1 a); [left; exists s; split_and!; [done|by exists []|done]|].
  destruct s as [|b s2]; [by right|]. destruct (is_space2 a b); [left; exists s2; split_and!; [cbn; lia|by exists [b]|done]|].
  destruct s2 as [|c s3]; [by right|]. destruct (is_space3 a b c); [left; exists s3; split_and!; [cbn; lia|by exists [b; c]|done]|by right].
Qed.
Lemma fields_open n : ∀ s cur, (length s ≤ n)%nat → cur ≠ [] → ∃ v l, fields_go cur s = (rev cur ++ v) :: l.
Proof.
  induction n as [|n IH]; intros [|a s] cur Hl Hc; cbn [length] in Hl; try lia.
  - exists [], []. rewrite app_nil_r. cbn. by destruct cur.
  - exists [], []. rewrite app_nil_r. cbn. by destruct cur.
  - destruct (fields_step cur a s) as [(s' & _ & _ & ->)| ->].
    + exists [], (fields_go [] s'). rewrite app_nil_r. by destruct cur.
    + destruct (IH s (a :: cur)) as (v & l & ->); [lia|done|]. exists (a :: v), l. cbn [rev]. by rewrite <- app_assoc.
Qed.
Lemma emit_app cur l : ∃ k, emit cur l = k ++ l.
Proof. destruct cur; [by exists []|by eexists [_]]. Qed.
(** A tight text stays whole in a word, wherever it stands. *)
Lemma fields_keep x s : x ≠ [] → Forall (λ c, tight c = true) x → ∀ n p cur, (length p ≤ n)%nat →
  ∃ l1 u v l2, fields_go cur (p ++ x ++ s) = l1 ++ (u ++ x ++ v) :: l2.
Proof.
  intros Hx Ht. assert (∀ cur, ∃ l1 u v l2, fields_go cur (x ++ s) = l1 ++ (u ++ x ++ v) :: l2) as H0.
  { intros cur. rewrite fields_tight by done. destruct (fields_open (length s) s (rev x ++ cur)) as (v & l & ->); [done| |].
    - intros [E _]%app_eq_nil. apply Hx. rewrite <- (rev_involutive x). by rewrite E.
    - exists [], (rev cur), v, l. rewrite rev_app_distr, rev_involutive, <- app_assoc. done. }
  destruct x as [|c x]; [done|]. apply Forall_cons in Ht as Hc. destruct Hc as [Hc _]. destruct (tight_not_space c Hc) as (H1 & H2 & H3).
  induction n as [|n IH]; intros p cur Hl; [destruct p; [apply H0|cbn in Hl; lia]|]. destruct p as [|a p]; [apply H0|]. cbn [length] in Hl.
  assert (∀ q, (length q ≤ n)%nat → ∃ l1 u v l2, emit cur (fields_go [] (q ++ (c :: x) ++ s)) = l1 ++ (u ++ (c :: x) ++ v) :: l2) as He.
  { intros q Hq. destruct (IH q [] Hq) as (l1 & u & v & l2 & ->). destruct (emit_app cur (l1 ++ (u ++ (c :: x) ++ v) :: l2)) as [k ->].
    exists (k ++ l1), u, v, l2. by rewrite <- app_assoc. }
  cbn [app fields_go]. destruct (is_space1 a); [apply (He p); lia|].
  destruct p as [|b p]; cbn [app]; [rewrite (proj1 (H2 a))|].
  - specialize (IH [] (a :: cur) ltac:(cbn; lia)). cbn [app] in IH.
    destruct (x ++ s) as [|d r]; [exact IH|]. rewrite (proj1 (proj2 (H3 a d))). exact IH.
  - destruct (is_space2 a b); [apply (He p); cbn in Hl; lia|]. destruct p as [|d p]; cbn [app].
    + rewrite (proj2 (proj2 (H3 a b))). apply (IH [b]). cbn in *. lia.
    + destruct (is_space3 a b d); [apply (He p); cbn in Hl; lia|]. apply (IH (b :: d :: p)). cbn in *. lia.
Qed.
Lemma join_mid sep (l1 : list gostring) w l2 : ∃ a b, join sep (l1 ++ w :: l2) = a ++ w ++ b.
Proof.
  induction l1 as [|v l1 (a & b & IH)].
  - destruct l2 as [|y l2]; [exists [], []; by rewrite app_nil_r|]. by eexists [], _.
  - exists (v ++ sep ++ a), b. rewrite <- !app_assoc, <- IH. by destruct l1.
Qed.
Lemma fields_joined sep p x s : x ≠ [] → Forall (λ c, tight c = true) x → ∃ a b, join sep (fields (p ++ x ++ s)) = a ++ x ++ b.
Proof.
  intros Hx Ht. destruct (fields_keep x s Hx Ht (length p) p [] (le_n _)) as (l1 & u & v & l2 & E). unfold fields. rewrite E.
  destruct (join_mid sep l1 (u ++ x ++ v) l2) as (a & b & ->). exists (a ++ u), (v ++ b). by rewrite <- !app_assoc.
Qed.

(** ** The Signed-By of a rewritten source *)

(** A path an option can hold: printing ASCII, with no comma. *)
Definition plain_word (p : gostring) : Prop := p ≠ [] ∧ Forall (λ c, graphic c = true) p ∧ ","%char ∉ p.
(** The key of the option in a line, up to case as Go folds it (the long s is an
    s), or of the field in a stanza. *)
Definition signed_by_key (key : gostring) : Prop :=
  replace_all [chr 197; chr 191] "s" (map lower_byte key) = bytes_of "signed-by=" ∨ key = bytes_of "Signed-By: ".
(** A text has a Signed-By with this keyring in its list. *)
Definition signed_by (text keyring : gostring) : Prop := ∃ pre key keyrings post,
  text = pre ++ key ++ keyrings ++ post ∧ signed_by_key key ∧ Forall (λ c, graphic c = true) keyrings ∧ keyring ∈ split "," keyrings.

Section names.
Context {unicode : UnicodeTables}.
Definition good (r : SignedByRecord) : Prop := sb_Inline r = false ∧ sb_Stripped r = false ∧ plain_word (sb_RewrittenTo r).

Lemma graphic_tight l : Forall (λ c, graphic c = true) l → Forall (λ c, tight c = true) l.
Proof. intros H. eapply Forall_impl; [exact H|]. cbn beta. intros c Hc. unfold tight. by rewrite Hc. Qed.
Lemma lower_graphic c d : beq (lower_byte c) (lower_byte d) = true → graphic (lower_byte d) = true → tight c = true.
Proof.
  unfold beq. intros E%bool_decide_eq_true. rewrite <- E. unfold lower_byte, tight, graphic. destruct (is_upper c) eqn:Eu; intros H; [|by rewrite H].
  assert ((33 <=? ord c) && (ord c <=? 126) = true) as ->; [|done].
  unfold is_upper, between in Eu. change (ord "A") with 65 in Eu. change (ord "Z") with 90 in Eu. bsplit; lia.
Qed.
Lemma cats_lang l m : lang (cats l) m → ∃ ms, Forall2 lang l ms ∧ m = concat ms.
Proof.
  revert m. induction l as [|r [|r2 l] IH]; intros m; cbn [cats lang].
  - intros ->. by exists [].
  - intros H. exists [m]. split; [by repeat constructor|cbn; by rewrite app_nil_r].
  - intros (x & y & -> & Hx & (ms & Hms & ->)%IH). exists (x :: ms). split; [by constructor|done].
Qed.
Lemma fold_byte_lang c x : graphic (lower_byte c) = true → lower_byte c ≠ "k"%char → lang (fold_byte c) x →
  Forall (λ c, tight c = true) x ∧ (map lower_byte x = [lower_byte c] ∨ lower_byte c = "s"%char ∧ x = [chr 197; chr 191]).
Proof.
  intros Hg Hk. unfold fold_byte. cbv zeta.
  assert (∀ x, (∃ d, x = [d] ∧ beq (lower_byte d) (lower_byte c) = true) → Forall (λ c, tight c = true) x ∧ map lower_byte x = [lower_byte c]) as Hd.
  { intros y (d & -> & E). split; [repeat constructor; by eapply lower_graphic|]. unfold beq in E. bsplit. cbn. by rewrite E. }
  destruct (beq (lower_byte c) "s") eqn:Es; [|destruct (beq (lower_byte c) "k") eqn:Ek]; cbn [lang].
  - unfold beq in Es. bsplit. intros [[? ?]%Hd| ->]; [tauto|]. split; [by repeat constructor|]. by right.
  - unfold beq in Ek. by bsplit.
  - intros [? ?]%Hd. tauto.
Qed.
Lemma fold_bytes cs : ∀ ms, Forall (λ c, graphic (lower_byte c) = true ∧ lower_byte c ≠ "k"%char ∧ lower_byte c ≠ "s"%char) cs →
  Forall2 lang (map fold_byte cs) ms → Forall (λ c, tight c = true) (concat ms) ∧ map lower_byte (concat ms) = map lower_byte cs.
Proof.
  induction cs as [|c cs IH]; intros ms Hc Hm; inversion Hm as [|r y rs ys Hy Hys]; subst; [by repeat constructor|].
  apply Forall_cons in Hc as [(H1 & H2 & H3) Hc]. destruct (IH _ Hc Hys) as [I1 I2]. destruct (fold_byte_lang c y H1 H2) as [T [E|[E _]]]; [done| |done].
  cbn [concat map]. rewrite map_app, E, I2. split; [apply Forall_app; by split|done].
Qed.
Lemma fold_key key : lang (lit_fold "signed-by=") key → signed_by_key key ∧ Forall (λ c, tight c = true) key ∧ key ≠ [].
Proof.
  unfold lit_fold. intros (ms & Hms & ->)%cats_lang. change (map fold_byte "signed-by=") with (fold_byte "s" :: map fold_byte (bytes_of "igned-by=")) in Hms.
  inversion Hms as [|r x rs ys Hx Hys]; subst. 
  assert (Forall (λ c, graphic (lower_byte c) = true ∧ lower_byte c ≠ "k"%char ∧ lower_byte c ≠ "s"%char) (bytes_of "igned-by=")) as Hc
    by (apply (bool_decide_unpack _); vm_compute; exact I).
  destruct (fold_bytes _ ys Hc Hys) as [T E].
  destruct (fold_byte_lang "s" x ltac:(done) ltac:(done) Hx) as [Tx Ex]. cbn [concat]. split_and!; [|by apply Forall_app|].
  - left. rewrite map_app, E. destruct Ex as [->|[_ ->]]; by vm_compute.
  - intros [-> _]%app_eq_nil. by destruct Ex as [?|[_ ?]].
Qed.

Lemma list_names file stanza value dests sep rw recs : rewriteSignedByList file stanza value dests sep = (rw, recs) → Forall good recs →
  rw ≠ [] ∧ Forall (λ c, graphic c = true) rw ∧ ∀ r, r ∈ recs → sb_RewrittenTo r ∈ split "," rw.
Proof.
  unfold rewriteSignedByList. destruct (dests !! value) as [d|].
  { intros [= <- <-] [(_ & _ & Hn & Hg & Hc) _]%Forall_cons. cbn in *. split_and!; [done..|]. intros r ->%list_elem_of_singleton. cbn.
    rewrite split_no_occur by done. by left. }
  destruct (splitSignedByValue value sep) as [|e0 es0]; [intros [= <- <-] [(_ & ? & _) _]%Forall_cons; done|].
  set (es := e0 :: es0). intros H Hgood. assert (∃ e es', es = e :: es') as Hne by (by eexists _, _).
  assert (recs = map (entry_record file stanza dests) es ∧ rw = join "," (omap (entry_kept dests) es) ∧ omap (entry_kept dests) es ≠ []) as (-> & -> & Hk).
  { destruct (omap (entry_kept dests) es) as [|k ks] eqn:Ek; injection H as <- <-; [|done].
    exfalso. destruct Hne as (e & es' & ->). by apply Forall_cons in Hgood as [(_ & ? & _) _]. }
  assert (∀ e, e ∈ es → entry_kept dests e = Some (sb_RewrittenTo (entry_record file stanza dests e))
    ∧ plain_word (sb_RewrittenTo (entry_record file stanza dests e))) as Hall.
  { intros e He. rewrite Forall_map, Forall_forall in Hgood. destruct (Hgood e He) as (Hi & _ & Hp). split; [|done].
    unfold entry_kept, entry_record in *. destruct (negb (has_prefix "/" e)); [done|]. cbn [sb_RewrittenTo] in *.
    destruct (streq (dest_of dests e) "") eqn:Es; [apply streq_true in Es; by destruct Hp|done]. }
  assert (omap (entry_kept dests) es = map (λ e, sb_RewrittenTo (entry_record file stanza dests e)) es) as E.
  { clear -Hall. induction es as [|e es IH]; [done|]. unfold omap. cbn [list_omap map]. destruct (Hall e ltac:(by left)) as [-> _].
    f_equal. apply IH. intros x Hx. apply Hall. by right. }
  rewrite E in *. clear H. set (ks := map (λ e, sb_RewrittenTo (entry_record file stanza dests e)) es) in *. assert (Forall plain_word ks) as Hks.
  { apply Forall_map, Forall_forall. intros e He. by apply Hall. }
  split_and!.
  - destruct ks as [|k ks]; [done|]. apply Forall_cons in Hks as [[Hn _] _]. destruct k as [|c k]; [done|]. by destruct ks.
  - clear -Hks. induction Hks as [|k ks (_ & Hg & _) _ IH]; [constructor|]. destruct ks; [done|]. cbn [join].
    apply Forall_app. split; [done|]. apply Forall_app. split; [by repeat constructor|done].
  - intros r Hr. rewrite split_join; [|done|].
    + apply list_elem_of_fmap in Hr as (e & -> & He). apply list_elem_of_fmap. by exists e.
    + intros k Hin. rewrite Forall_forall in Hks. by destruct (Hks k Hin) as (_ & _ & ?).
Qed.

(** A line of a one-line file, and a file of either kind. *)
Lemma signed_by_more a text b k : signed_by text k → signed_by (a ++ text ++ b) k.
Proof. intros (pre & key & ks & post & -> & H). exists (a ++ pre), key, ks, (post ++ b). by rewrite <- !app_assoc. Qed.
Lemma signed_by_line lines line k : line ∈ lines → signed_by line k → signed_by (join [newline] lines) k.
Proof.
  intros (l1 & l2 & ->)%list_elem_of_split H. destruct (join_mid [newline] l1 line l2) as (a & b & ->). by apply signed_by_more.
Qed.
Lemma one_line_names file dests stanza line l recs st : one_line file dests stanza line = (l, recs, st) → Forall good recs →
  ∀ r, r ∈ recs → signed_by l (sb_RewrittenTo r).
Proof.
  unfold one_line. destruct (not_an_entry line); [intros [= <- <- <-] _ r ?%elem_of_nil; done|].
  destruct (find_submatch oneLineSourceRE line) as [m|]; [|intros [= <- <- <-] _ r ?%elem_of_nil; done].
  destruct (streq (group 4 m) ""); [intros [= <- <- <-] _ r ?%elem_of_nil; done|]. cbv zeta.
  destruct (find_parts signedByOptRE _) as [[[[before whole] after] sm]|] eqn:Ep; [|intros [= <- <- <-] _ r ?%elem_of_nil; done].
  unfold signedByOptRE in Ep. cbn [cats] in Ep. apply find_parts_key in Ep as (key & _ & -> & Hkey).
  destruct (rewriteSignedByList _ _ _ _ _) as [rw recs'] eqn:Er. intros [= <- <- <-] Hg r Hr.
  destruct (list_names _ _ _ _ _ _ _ Er Hg) as (Hn & Hgr & Hin). destruct (fold_key key Hkey) as (Hk & Ht & Hkn).
  assert (streq rw "" = false) as -> by by apply streq_false_iff. cbn [negb].
  replace (length (key ++ group 1 sm) - length (group 1 sm))%nat with (length key) by (rewrite length_app; lia). rewrite take_app_length.
  rewrite (app_assoc key). destruct (fields_joined " " before (key ++ rw) after) as (a & b & ->); [by intros [-> _]%app_eq_nil| |].
  { apply Forall_app. split; [done|by apply graphic_tight]. }
  assert (streq (a ++ (key ++ rw) ++ b) "" = false) as ->.
  { apply streq_false_iff. intros (_ & ([E _]%app_eq_nil & _)%app_eq_nil)%app_eq_nil. done. }
  cbn [negb]. eexists (group 2 m ++ bytes_of " [" ++ a), key, rw, _. split.
  { rewrite <- !app_assoc. change (bytes_of " [") with [" "%char; "["%char]. cbn [app]. rewrite <- !app_assoc. reflexivity. }
  split_and!; [done..|by apply Hin].
Qed.
Lemma one_line_loop_names file dests lines : ∀ stanza out recs, one_line_loop file dests stanza lines = (out, recs) → Forall good recs →
  ∀ r, r ∈ recs → ∃ l, l ∈ out ∧ signed_by l (sb_RewrittenTo r).
Proof.
  induction lines as [|line lines IH]; intros stanza out recs; cbn [one_line_loop]; [intros [= <- <-] _ r ?%elem_of_nil; done|].
  destruct (one_line file dests stanza line) as [[l recs1] st] eqn:E1. destruct (one_line_loop file dests st lines) as [out1 recs2] eqn:E2.
  intros [= <- <-] [H1 H2]%Forall_app r [Hr|Hr]%elem_of_app.
  - exists l. split; [by left|]. by eapply one_line_names.
  - destruct (IH _ _ _ E2 H2 r Hr) as (x & Hx & Hs). exists x. split; [by right|done].
Qed.
Lemma deb822_names file dests fuel : ∀ stanza lines out recs, deb822_loop fuel file dests stanza lines = (out, recs) → Forall good recs →
  ∀ r, r ∈ recs → ∃ l, l ∈ out ∧ signed_by l (sb_RewrittenTo r).
Proof.
  induction fuel as [|fuel IH]; intros stanza [|line lines] out recs; cbn [deb822_loop];
    try (intros [= <- <-] _ r ?%elem_of_nil; done).
  assert (∀ stanza lines x out recs, (let '(o, rs) := deb822_loop fuel file dests stanza lines in (x :: o, rs)) = (out, recs) → Forall good recs →
    ∀ r, r ∈ recs → ∃ l, l ∈ out ∧ signed_by l (sb_RewrittenTo r)) as Hnext.
  { intros st ls x o rs. destruct (deb822_loop fuel file dests st ls) as [o1 rs1] eqn:E. intros [= <- <-] Hg r Hr.
    destruct (IH _ _ _ _ E Hg r Hr) as (y & Hy & Hs). exists y. split; [by right|done]. }
  destruct (blank line); [apply Hnext|]. destruct (find_submatch signedByFieldRE line) as [m|]; [|apply Hnext].
  destruct (span_continued lines) as [cont after]. destruct (deb822_loop fuel file dests stanza after) as [o1 rs1] eqn:E.
  destruct cont; [|intros [= <- <-] [(? & _) _]%Forall_cons; done].
  destruct (has_prefix "/" _); [|intros [= <- <-] [(? & _) _]%Forall_cons; done].
  destruct (rewriteSignedByList _ _ _ _ _) as [rw rs2] eqn:Er. intros [= <- <-] [H1 H2]%Forall_app r [Hr|Hr]%elem_of_app.
  - destruct (list_names _ _ _ _ _ _ _ Er H1) as (Hn & Hgr & Hin). assert (streq rw "" = false) as -> by by apply streq_false_iff.
    eexists. split; [by left|]. exists [], (bytes_of "Signed-By: "), rw, []. rewrite app_nil_r. split; [done|]. split_and!; [by right|done|by apply Hin].
  - destruct (IH _ _ _ _ E H2 r Hr) as (y & Hy & Hs). exists y. split; [|done]. apply elem_of_app. by right.
Qed.
Lemma rewriteSignedBy_names ap data dests : let '(text, recs) := rewriteSignedBy ap data dests in
  Forall good recs → ∀ r, r ∈ recs → signed_by text (sb_RewrittenTo r).
Proof.
  unfold rewriteSignedBy, rewriteSignedByDeb822, rewriteSignedByOneLine. destruct (isDeb822SourceFile ap).
  - destruct (deb822_loop _ _ _ _ _) as [out recs] eqn:E. intros Hg r Hr.
    destruct (deb822_names _ _ _ _ _ _ _ E Hg r Hr) as (l & Hl & Hs). by eapply signed_by_line.
  - destruct (one_line_loop _ _ _ _) as [out recs] eqn:E. intros Hg r Hr.
    destruct (one_line_loop_names _ _ _ _ _ _ E Hg r Hr) as (l & Hl & Hs). by eapply signed_by_line.
Qed.
End names.
