(* ===== verification/PrivateRoot.v ===== *)
(** * core/apt/root.go: the private apt root.

    The root is a tree of files and directories built from a captured snapshot,
    and apt is told to use nothing else. [host] is what [os.ReadFile] gives of
    the snapshot's own files, which the build does not write to; [can_mkdir] and
    [can_write] are the disk's part in a call that makes a directory or writes a
    file. An error ends the build, and what it leaves behind is not described.
    File modes are left out. [sort.Slice] is a stable sort here: two keyrings of
    one archive path are one file. *)
From S2P Require Export AptConf AptSources Keyring PathJoin.
#[local] Open Scope Z_scope.

(** ** Paths *)

(** [filepath.Ext] of a name without a separator. *)
Definition Ext (name : gostring) : gostring := match after_last "." name with Some r => "."%char :: r | None => [] end.
(** [filepath.Dir] *)
Definition Dir : gostring → gostring := filepath_dir.

(** ** The tree *)

Record tree := mkTree { tr_files : gmap gostring gostring; tr_dirs : gset gostring }.
(** A path and the directories above it. *)
Fixpoint inits (l : list gostring) : list (list gostring) :=
  match l with [] => [] | x :: l' => [x] :: map (cons x) (inits l') end.
Definition parents (p : gostring) : list gostring :=
  (if has_prefix [slash] p then [slash] else bytes_of ".") :: map (join [slash]) (inits (split slash p)).

Inductive root_error :=
| DirRequired | ArchRequired
| MkdirFailed (path : gostring)
| WriteFailed (path : gostring)
| ReadFailed (path : gostring)
| CopyFailed (path : gostring)
| NotApproved (text : gostring).
Definition root_class (e : root_error) : Class :=
  match e with
  | DirRequired | ArchRequired | ReadFailed _ | CopyFailed _ => Usage
  | MkdirFailed _ | WriteFailed _ => Environment
  | NotApproved _ => Policy
  end.

(** ** What is asked for and what is built *)

Record ExtraSource := mkExtra { es_Name : gostring; es_Line : gostring }.
Record RootSpec := mkSpec {
  rs_Dir : gostring; rs_ArchivesDir : gostring; rs_Arch : gostring; rs_ForeignArchs : list gostring;
  rs_Recommends : bool; rs_PhasedPolicy : gostring; rs_MachineID : gostring;
  rs_Snapshot : option Snapshot; rs_SnapshotFilesDir : gostring; rs_CopySnapshotSources : bool;
  rs_ApprovedKeys : list gostring; rs_AllowProxy : bool; rs_ExtraSources : list ExtraSource
}.
Record RootWarning := mkRootWarning { rw_Code : gostring; rw_Message : gostring }.
Record PrivateRoot := mkRoot {
  pr_Dir : gostring; pr_Options : list gostring; pr_PhasedPolicy : gostring; pr_AptConfigPath : gostring;
  pr_Dropped : list DroppedConfEntry; pr_SignedBy : list SignedByRecord; pr_Warnings : list RootWarning
}.
Definition SortedOptions (r : PrivateRoot) : list gostring := sort_strings (pr_Options r).
Definition warnNoDpkgStatus : gostring := "private-root.no-dpkg-status".

Section root.
Context {pgp : OpenPGP} {unicode : UnicodeTables}.
(** [unicode.ToUpper] on the runes from 0x80. *)
Variable table_upper : Z → Z.
Variable host : gostring → option gostring.
Variables can_mkdir can_write : gostring → bool.

Definition upper_rune (r : Z) : Z := if r <? 128 then ord (upper_byte (chr r)) else table_upper r.
Definition to_upper (s : gostring) : gostring :=
  if is_ascii s then map upper_byte s else concat (map (λ r, encode_rune (upper_rune r)) (runes s)).

(** [os.MkdirAll] and [os.WriteFile]. *)
Definition mkdir_all (d : gostring) (t : tree) : result root_error tree :=
  if can_mkdir d && forallb (λ p, negb (bool_decide (is_Some (tr_files t !! p)))) (parents d)
  then Ok (mkTree (tr_files t) (list_to_set (parents d) ∪ tr_dirs t)) else Err (MkdirFailed d).
Definition write_file (p data : gostring) (t : tree) : result root_error tree :=
  if can_write p && negb (bool_decide (p ∈ tr_dirs t)) && bool_decide (Dir p ∈ tr_dirs t)
  then Ok (mkTree (<[p := data]> (tr_files t)) (tr_dirs t)) else Err (WriteFailed p).
Definition writeIfAbsent (p : gostring) (t : tree) : result root_error tree :=
  if bool_decide (is_Some (tr_files t !! p)) || bool_decide (p ∈ tr_dirs t) then Ok t else write_file p [] t.

(** ** The snapshot's files *)

Definition safeExtractPath (filesDir archivePath : gostring) : option gostring :=
  if streq archivePath "" then None
  else if contains_byte "\" archivePath then None
  else if has_prefix "/" archivePath then None
  else if drive_letter archivePath then None
  else if existsb (λ seg, streq seg "..") (split slash archivePath) then None
  else
    let joined := join_path filesDir archivePath in
    match Rel filesDir joined with
    | None => None
    | Some rel => if streq rel ".." || has_prefix "../" rel then None else Some joined
    end.
Definition readSnapshotFile (filesDir archivePath : gostring) : option gostring :=
  p ← safeExtractPath filesDir archivePath; host p.
(** Every failure is reported as that of the copy. *)
Definition copySnapshotFile (filesDir : gostring) (f : File) (dst : gostring) (t : tree) : result root_error tree :=
  match readSnapshotFile filesDir (fi_ArchivePath f) with
  | None => Err (CopyFailed (fi_Path f))
  | Some data => map_err (λ _, CopyFailed (fi_Path f)) (t ← mkdir_all (Dir dst) t; write_file dst data t)
  end.

Definition placed (rootDir top parts targetPath : gostring) : gostring :=
  let base := Base targetPath in
  if streq base top && negb (contains_str (parts ++ [slash]) targetPath)
  then filepath_join [rootDir; bytes_of "etc"; bytes_of "apt"; top]
  else filepath_join [rootDir; bytes_of "etc"; bytes_of "apt"; parts; base].
Definition sourceDest (rootDir targetPath : gostring) : gostring := placed rootDir "sources.list" "sources.list.d" targetPath.
Definition preferencesDest (rootDir targetPath : gostring) : gostring := placed rootDir "preferences" "preferences.d" targetPath.
Definition confDest (rootDir targetPath : gostring) : gostring := placed rootDir "apt.conf" "apt.conf.d" targetPath.

(** ** Keyrings *)

Record keyFile := mkKeyFile { ky_path : gostring; ky_archivePath : gostring; ky_data : gostring }.
Fixpoint collect_keys (filesDir : gostring) (files : list File) : result root_error (list keyFile) :=
  match files with
  | [] => Ok []
  | f :: rest =>
      match readSnapshotFile filesDir (fi_ArchivePath f) with
      | None => Err (ReadFailed (fi_Path f))
      | Some data => ks ← collect_keys filesDir rest; Ok (mkKeyFile (fi_Path f) (fi_ArchivePath f) data :: ks)
      end
  end.
Definition sort_keys : list keyFile → list keyFile := sort_by (λ a b, str_leb (ky_archivePath a) (ky_archivePath b)).

Definition keyring_base (kf : keyFile) : gostring :=
  let base := Base (ky_path kf) in
  let base := if streq base "" || streq base "." || streq base [slash] then Base (ky_archivePath kf) else base in
  let lower := to_lower base in
  if negb (has_suffix ".gpg" lower) && negb (has_suffix ".asc" lower) then base ++ ".gpg" else base.
Definition keyring_name (used : gset gostring) (kf : keyFile) : gostring :=
  let name := keyring_base kf in
  if bool_decide (name ∈ used)
  then trim_suffix (Ext name) name ++ "-" ++ hex_encode (take 4 (Sha256.sum (ky_path kf))) ++ Ext name
  else name.

Record keyring_state := mkKeyrings {
  kr_tree : tree; kr_used : gset gostring; kr_dest : gmap gostring gostring;
  kr_fps : gmap gostring (list gostring); kr_warnings : list RootWarning
}.
Definition unparseable (path why : gostring) : RootWarning := mkRootWarning "private-root.keyring-unparseable"
  ("keyring " ++ path ++ " is not a readable OpenPGP keyring (" ++ why
   ++ "); it contributes no fingerprints, so no approved-keys policy can be satisfied through it").
Definition place_keyring (trustedDir : gostring) (kf : keyFile) (st : keyring_state) : result root_error keyring_state :=
  let name := keyring_name (kr_used st) kf in
  let dst := filepath_join [trustedDir; name] in
  t ← write_file dst (ky_data kf) (kr_tree st);
  let used := {[name]} ∪ kr_used st in
  if streq (ky_path kf) "" then Ok (mkKeyrings t used (kr_dest st) (kr_fps st) (kr_warnings st))
  else
    let '(fps, warn) := match doFingerprintsIn (ky_data kf) with
                        | Ok fps => (fps, [])
                        | Err why => ([], [unparseable (ky_path kf) why])
                        end in
    Ok (mkKeyrings t used (<[ky_path kf := dst]> (kr_dest st)) (<[ky_path kf := fps]> (kr_fps st)) (kr_warnings st ++ warn)).
Fixpoint place_keyrings (trustedDir : gostring) (kfs : list keyFile) (st : keyring_state) : result root_error keyring_state :=
  match kfs with
  | [] => Ok st
  | kf :: rest => st ← place_keyring trustedDir kf st; place_keyrings trustedDir rest st
  end.

(** ** Sources *)

Definition fingerprintsFor (rec : SignedByRecord) (keyringFingerprints : gmap gostring (list gostring)) : list gostring :=
  if sb_Inline rec || sb_Stripped rec || streq (sb_OriginalPath rec) "" then []
  else default [] (keyringFingerprints !! sb_OriginalPath rec).
Definition with_fingerprints (fps : list gostring) (r : SignedByRecord) : SignedByRecord :=
  mkSignedBy (sb_SourceFile r) (sb_Stanza r) (sb_OriginalPath r) (sb_Inline r) (sb_RewrittenTo r) (sb_Stripped r) fps.
Definition stripped_warning (from : gostring) (r : SignedByRecord) : RootWarning :=
  mkRootWarning "private-root.signed-by-stripped"
  ("no captured keyring for Signed-By " ++ sb_OriginalPath r ++ " (from " ++ from
   ++ "); trusting it via the private root's combined keyring set instead of pinning it to its own key").

Record source_state := mkSources {
  so_tree : tree; so_records : list SignedByRecord; so_byFile : gmap gostring (list SignedByRecord);
  so_files : list gostring; so_warnings : list RootWarning
}.
Definition place_source (spec : RootSpec) (ks : keyring_state) (f : File) (st : source_state) : result root_error source_state :=
  match readSnapshotFile (rs_SnapshotFilesDir spec) (fi_ArchivePath f) with
  | None => Err (ReadFailed (fi_Path f))
  | Some data =>
      let '(rewritten, records) := rewriteSignedBy (fi_ArchivePath f) data (kr_dest ks) in
      let records := map (λ r, with_fingerprints (fingerprintsFor r (kr_fps ks)) r) records in
      let dst := sourceDest (rs_Dir spec) (fi_Path f) in
      t ← mkdir_all (Dir dst) (so_tree st);
      t ← write_file dst rewritten t;
      Ok (mkSources t (so_records st ++ records) (<[fi_ArchivePath f := records]> (so_byFile st))
            (so_files st ++ [fi_ArchivePath f])
            (so_warnings st ++ map (stripped_warning (fi_Path f)) (List.filter sb_Stripped records)))
  end.
Fixpoint place_sources (spec : RootSpec) (ks : keyring_state) (files : list File) (st : source_state)
    : result root_error source_state :=
  match files with
  | [] => Ok st
  | f :: rest => st ← place_source spec ks f st; place_sources spec ks rest st
  end.

(** ** Approved keys *)

Fixpoint approvedKeyRefusal (sawPinned : bool) (records : list SignedByRecord) (approved : gset gostring) : gostring :=
  match records with
  | [] => if sawPinned then [] else bytes_of "declares no path-form Signed-By, so nothing pins it to a key"
  | rec :: rest =>
      if sb_Stripped rec then
        "Signed-By " ++ sb_OriginalPath rec ++ " was stripped because no captured keyring matched it, so apt verifies this source against the whole combined keyring set rather than an approved key"
      else if sb_Inline rec then
        bytes_of "carries an inline armoured Signed-By key, which belongs to no keyring and so can be traced to no approved fingerprint"
      else if existsb (λ fp, bool_decide (to_upper fp ∈ approved)) (sb_Fingerprints rec) then approvedKeyRefusal true rest approved
      else match sb_Fingerprints rec with
      | [] => "no OpenPGP key could be read from the keyring " ++ sb_OriginalPath rec ++ " names"
      | _ => "the keyring " ++ sb_OriginalPath rec ++ " names holds no approved key"
      end
  end.
Definition approved_set (approvedKeys : list gostring) : gset gostring :=
  list_to_set (map (λ k, to_upper (trim_space k)) approvedKeys).
Definition refused_file (bySourceFile : gmap gostring (list SignedByRecord)) (approved : gset gostring) (f : gostring)
    : option gostring :=
  let why := approvedKeyRefusal false (default [] (bySourceFile !! f)) approved in
  if streq why "" then None else Some (f ++ " (" ++ why ++ ")").
Definition checkApprovedKeys (files : list gostring) (bySourceFile : gmap gostring (list SignedByRecord))
    (approvedKeys : list gostring) : option root_error :=
  match approvedKeys with
  | [] => None
  | _ =>
      match omap (refused_file bySourceFile (approved_set approvedKeys)) files with
      | [] => None
      | bad => Some (NotApproved ("apt: source(s) not authenticated by an approved key: " ++ join (bytes_of "; ") (sort_strings bad)))
      end
  end.

(** ** The rest of the configuration *)

Fixpoint place_preferences (spec : RootSpec) (files : list File) (t : tree) : result root_error tree :=
  match files with
  | [] => Ok t
  | f :: rest =>
      t ← copySnapshotFile (rs_SnapshotFilesDir spec) f (preferencesDest (rs_Dir spec) (fi_Path f)) t;
      place_preferences spec rest t
  end.
Fixpoint place_confs (spec : RootSpec) (files : list File) (t : tree) (dropped : list DroppedConfEntry)
    : result root_error (tree * list DroppedConfEntry) :=
  match files with
  | [] => Ok (t, dropped)
  | f :: rest =>
      match readSnapshotFile (rs_SnapshotFilesDir spec) (fi_ArchivePath f) with
      | None => Err (ReadFailed (fi_Path f))
      | Some data =>
          let '(filtered, drop) := filterAptConf (fi_ArchivePath f) data (rs_AllowProxy spec) in
          let dst := confDest (rs_Dir spec) (fi_Path f) in
          t ← mkdir_all (Dir dst) t;
          t ← write_file dst filtered t;
          place_confs spec rest t (dropped ++ drop)
      end
  end.
Definition dropped_warning (d : DroppedConfEntry) : RootWarning :=
  mkRootWarning "private-root.apt-conf-dropped" ("dropped " ++ dc_Key d ++ " from " ++ dc_File d ++ ": " ++ dc_Reason d).

Record config := mkConfig {
  cf_tree : tree; cf_Dropped : list DroppedConfEntry; cf_SignedBy : list SignedByRecord; cf_Warnings : list RootWarning
}.
Definition trusted_dir (spec : RootSpec) : gostring := filepath_join [rs_Dir spec; bytes_of "etc"; bytes_of "apt"; bytes_of "trusted.gpg.d"].
Definition copySnapshotConfig (spec : RootSpec) (snap : Snapshot) (t : tree) : result root_error config :=
  kfs ← collect_keys (rs_SnapshotFilesDir spec) (ap_Trusted (sn_APT snap) ++ ap_Keyrings (sn_APT snap));
  ks ← place_keyrings (trusted_dir spec) (sort_keys kfs) (mkKeyrings t ∅ ∅ ∅ []);
  so ← place_sources spec ks (ap_Sources (sn_APT snap)) (mkSources (kr_tree ks) [] ∅ [] []);
  match checkApprovedKeys (so_files so) (so_byFile so) (rs_ApprovedKeys spec) with
  | Some e => Err e
  | None =>
      t ← place_preferences spec (ap_Preferences (sn_APT snap)) (so_tree so);
      '(t, dropped) ← place_confs spec (ap_Conf (sn_APT snap)) t [];
      Ok (mkConfig t dropped (so_records so) (kr_warnings ks ++ so_warnings so ++ map dropped_warning dropped))
  end.

(** ** Options and the loader *)

Definition is_target_machine (p : gostring) : bool := streq p PhasedTargetMachineID.
Definition buildOptions (spec : RootSpec) : list gostring :=
  let dir := rs_Dir spec in
  let etc := filepath_join [dir; bytes_of "etc"; bytes_of "apt"] in
  ["Dir::Etc::sourcelist=" ++ filepath_join [etc; bytes_of "sources.list"];
   "Dir::Etc::sourceparts=" ++ filepath_join [etc; bytes_of "sources.list.d"];
   "Dir::Etc::preferences=" ++ filepath_join [etc; bytes_of "preferences"];
   "Dir::Etc::preferencesparts=" ++ filepath_join [etc; bytes_of "preferences.d"];
   "Dir::Etc::trustedparts=" ++ filepath_join [etc; bytes_of "trusted.gpg.d"];
   "Dir::State=" ++ filepath_join [dir; bytes_of "var"; bytes_of "lib"; bytes_of "apt"];
   "Dir::State::status=" ++ filepath_join [dir; bytes_of "var"; bytes_of "lib"; bytes_of "dpkg"; bytes_of "status"];
   "Dir::Cache=" ++ filepath_join [dir; bytes_of "var"; bytes_of "cache"; bytes_of "apt"]]
  ++ (if negb (streq (rs_ArchivesDir spec) "") then ["Dir::Cache::archives=" ++ rs_ArchivesDir spec] else [])
  ++ ["Dir::Log=" ++ filepath_join [dir; bytes_of "var"; bytes_of "log"; bytes_of "apt"];
      "APT::Architecture=" ++ rs_Arch spec; "APT::Architectures::=" ++ rs_Arch spec]
  ++ map (λ fa, "APT::Architectures::=" ++ fa) (List.filter (λ fa, negb (streq fa (rs_Arch spec))) (rs_ForeignArchs spec))
  ++ [bytes_of "Acquire::Languages=none"; bytes_of "Acquire::Retries=3"; bytes_of "Acquire::GzipIndexes=false";
      bytes_of "APT::Sandbox::User=root"; bytes_of "Debug::NoLocking=1";
      if rs_Recommends spec then bytes_of "APT::Install-Recommends=true" else bytes_of "APT::Install-Recommends=false";
      if is_target_machine (rs_PhasedPolicy spec) && negb (streq (rs_MachineID spec) "")
      then "APT::Machine-ID=" ++ rs_MachineID spec else bytes_of "APT::Get::Never-Include-Phased-Updates=true"].

Definition loader_text (rootDir : gostring) : gostring :=
  let etc := filepath_join [rootDir; bytes_of "etc"; bytes_of "apt"] in
  "Dir::Etc::main " ++ quoteConfValue (filepath_join [etc; bytes_of "apt.conf"]) ++ ";" ++ [newline]
  ++ "Dir::Etc::parts " ++ quoteConfValue (filepath_join [etc; bytes_of "apt.conf.d"]) ++ ";" ++ [newline].
Definition writeAptConfigLoader (rootDir : gostring) (t : tree) : result root_error (gostring * tree) :=
  let path := filepath_join [rootDir; bytes_of "debark-apt.conf"] in
  t ← write_file path (loader_text rootDir) t; Ok (path, t).

(** ** BuildPrivateRoot *)

Definition root_dirs (dir : gostring) : list gostring := map (λ l, filepath_join (dir :: l)) [
  [bytes_of "etc"; bytes_of "apt"; bytes_of "sources.list.d"];
  [bytes_of "etc"; bytes_of "apt"; bytes_of "preferences.d"];
  [bytes_of "etc"; bytes_of "apt"; bytes_of "apt.conf.d"];
  [bytes_of "etc"; bytes_of "apt"; bytes_of "trusted.gpg.d"];
  [bytes_of "var"; bytes_of "lib"; bytes_of "apt"; bytes_of "lists"; bytes_of "partial"];
  [bytes_of "var"; bytes_of "lib"; bytes_of "dpkg"];
  [bytes_of "var"; bytes_of "log"; bytes_of "apt"];
  [bytes_of "var"; bytes_of "cache"; bytes_of "apt"; bytes_of "archives"; bytes_of "partial"]].
Fixpoint mkdirs (ds : list gostring) (t : tree) : result root_error tree :=
  match ds with [] => Ok t | d :: rest => t ← mkdir_all d t; mkdirs rest t end.
Definition status_path (dir : gostring) : gostring := filepath_join [dir; bytes_of "var"; bytes_of "lib"; bytes_of "dpkg"; bytes_of "status"].
Definition place_status (spec : RootSpec) (t : tree) : result root_error (tree * list RootWarning) :=
  let empty := t ← write_file (status_path (rs_Dir spec)) [] t;
    Ok (t, [mkRootWarning warnNoDpkgStatus "no dpkg status available; resolving as if nothing were installed on the target"]) in
  match rs_Snapshot spec with
  | Some s =>
      if negb (streq (fi_ArchivePath (sn_DpkgStatus s)) "") then
        t ← copySnapshotFile (rs_SnapshotFilesDir spec) (sn_DpkgStatus s) (status_path (rs_Dir spec)) t; Ok (t, [])
      else empty
  | None => empty
  end.
Definition extra_name (name : gostring) : gostring :=
  if negb (has_suffix ".list" name) && negb (has_suffix ".sources" name) then name ++ ".list" else name.
Fixpoint place_extras (dir : gostring) (extras : list ExtraSource) (t : tree) : result root_error tree :=
  match extras with
  | [] => Ok t
  | es :: rest =>
      t ← write_file (filepath_join [dir; bytes_of "etc"; bytes_of "apt"; bytes_of "sources.list.d"; extra_name (es_Name es)])
            (es_Line es ++ [newline]) t;
      place_extras dir rest t
  end.
Definition copied_config (spec : RootSpec) (t : tree) : result root_error config :=
  match rs_CopySnapshotSources spec, rs_Snapshot spec with
  | true, Some snap => copySnapshotConfig spec snap t
  | _, _ => Ok (mkConfig t [] [] [])
  end.
Definition BuildPrivateRoot (spec : RootSpec) (t : tree) : result root_error (PrivateRoot * tree) :=
  let dir := rs_Dir spec in
  if streq dir "" then Err DirRequired
  else if streq (rs_Arch spec) "" then Err ArchRequired
  else
    t ← mkdirs (root_dirs dir) t;
    t ← (if negb (streq (rs_ArchivesDir spec) "") then mkdir_all (filepath_join [rs_ArchivesDir spec; bytes_of "partial"]) t else Ok t);
    '(t, warned) ← place_status spec t;
    t ← writeIfAbsent (filepath_join [dir; bytes_of "etc"; bytes_of "apt"; bytes_of "preferences"]) t;
    t ← writeIfAbsent (filepath_join [dir; bytes_of "etc"; bytes_of "apt"; bytes_of "sources.list"]) t;
    c ← copied_config spec t;
    t ← place_extras dir (rs_ExtraSources spec) (cf_tree c);
    '(loader, t) ← writeAptConfigLoader dir t;
    Ok (mkRoot dir (buildOptions spec) (rs_PhasedPolicy spec) loader (cf_Dropped c) (cf_SignedBy c) (warned ++ cf_Warnings c), t).
End root.
