(* ===== verification/PrivateRootSafe.v ===== *)
(** * core/apt/root.go: what the private root holds.

    Every file a build writes, with the place it is written to ([built]), and
    what an approved-keys build guarantees of the captured sources. [writes P]
    relates the tree before and after steps that write only what [P] allows;
    each part of the build is an instance, and they compose. *)
From S2P Require Import AptSourcesSafe.
From S2P Require Export PrivateRoot AptConfSafe.
#[local] Open Scope Z_scope.
#[local] Set Default Proof Using "All".

Section safe.
Context {pgp : OpenPGP} {unicode : UnicodeTables}.
Variable table_upper : Z → Z.
Variable host : gostring → option gostring.
Variables can_mkdir can_write : gostring → bool.
Abbreviation mkdir_all := (mkdir_all can_mkdir).
Abbreviation write_file := (write_file can_write).
Abbreviation readSnapshotFile := (readSnapshotFile host).
Abbreviation copySnapshotFile := (copySnapshotFile host can_mkdir can_write).

(** ** What a step may write *)

Definition writes (P : gostring → gostring → Prop) (t t' : tree) : Prop :=
  tr_dirs t ⊆ tr_dirs t' ∧ ∀ p, tr_files t' !! p = tr_files t !! p ∨ ∃ d, tr_files t' !! p = Some d ∧ P p d.

Lemma writes_refl P t : writes P t t.
Proof. split; [done|auto]. Qed.
Lemma writes_trans P t1 t2 t3 : writes P t1 t2 → writes P t2 t3 → writes P t1 t3.
Proof.
  intros [H1 H2] [H3 H4]. split; [by etrans|]. intros p. destruct (H4 p) as [->|?]; [apply H2|by right].
Qed.
Lemma writes_impl (P Q : gostring → gostring → Prop) t t' : (∀ p d, P p d → Q p d) → writes P t t' → writes Q t t'.
Proof. intros HP [H1 H2]. split; [done|]. intros p. destruct (H2 p) as [?|(d & ? & ?)]; eauto. Qed.
Lemma writes_dir P t t' d : writes P t t' → d ∈ tr_dirs t → d ∈ tr_dirs t'.
Proof. intros [H _]. apply H. Qed.
Lemma mkdir_writes P d t t' : mkdir_all d t = Ok t' →
  writes P t t' ∧ list_to_set (parents d) ⊆ tr_dirs t' ∧ tr_files t' = tr_files t.
Proof.
  unfold PrivateRoot.mkdir_all. case_match; [|done]. intros [= <-].
  split_and!; [split; cbn; [set_solver|auto]|cbn; set_solver|done].
Qed.
Lemma write_inv p d t t' : write_file p d t = Ok t' →
  (p ∉ tr_dirs t) ∧ t' = mkTree (<[p := d]> (tr_files t)) (tr_dirs t).
Proof. unfold PrivateRoot.write_file. case_match; [|done]. intros [= <-]. by bsplit. Qed.
Lemma write_writes (P : gostring → gostring → Prop) p d t t' : write_file p d t = Ok t' → P p d → writes P t t'.
Proof.
  intros [_ ->]%write_inv HP. split; [done|]. intros q. cbn. destruct (decide (q = p)) as [->|Hne].
  - right. exists d. by rewrite lookup_insert_eq.
  - left. by rewrite lookup_insert_ne.
Qed.

Lemma copy_inv filesDir f dst t t' : copySnapshotFile filesDir f dst t = Ok t' →
  ∃ data t1, readSnapshotFile filesDir (fi_ArchivePath f) = Some data ∧ mkdir_all (Dir dst) t = Ok t1 ∧ write_file dst data t1 = Ok t'.
Proof.
  unfold PrivateRoot.copySnapshotFile. destruct (PrivateRoot.readSnapshotFile _ _ _) as [data|]; [|done].
  rewrite map_err_Ok, bind_Ok. intros (t1 & H1 & H2). by exists data, t1.
Qed.

(** ** Names *)

Lemma Base_no_slash p : Base p = [slash] ∨ slash ∉ Base p.
Proof.
  unfold Base. destruct (streq p ""); [right; by apply contains_byte_false|].
  set (b := List.last _ _). assert (slash ∉ b) as Hb.
  { subst b. set (q := trim_right _ _). destruct (snoc_cases (split slash q)) as [E|(l & x & E)].
    - rewrite E. by intros ?%elem_of_nil.
    - rewrite E, last_last. apply (split_no_sep slash q). rewrite E. apply elem_of_app. right. by left. }
  destruct (streq b ""); [by left|by right].
Qed.

Definition etc_apt : list gostring := [bytes_of "etc"; bytes_of "apt"].
Definition placed_at (dir top parts p : gostring) : Prop :=
  p = under dir (etc_apt ++ [top]) ∨ ∃ base, plain_seg base ∧ p = under dir (etc_apt ++ [parts; base]).

Definition etc_dir (dir parts : gostring) : gostring := under dir (etc_apt ++ [parts]).
Lemma etc_plain l : Forall plain_seg l → Forall plain_seg (etc_apt ++ l).
Proof. intros H. apply Forall_app. split; [by apply plain_check|done]. Qed.

Lemma etc_two parts name : plain_segb parts = true → plain_seg name → Forall plain_seg (etc_apt ++ [parts; name]).
Proof. intros Hp%plain_segb_spec Hn. apply etc_plain. constructor; [done|]. by constructor. Qed.

(** A captured file is written at its place or, when its name is no name, not at
    all: that is a directory. *)
Lemma placed_spec dir top parts target d t t' : dir ≠ [] → plain_seg top → plain_seg parts →
  etc_dir dir parts ∈ tr_dirs t → under dir etc_apt ∈ tr_dirs t →
  write_file (placed dir top parts target) d t = Ok t' → placed_at dir top parts (placed dir top parts target).
Proof.
  intros Hd Htop Hparts H1 H2 [Hw _]%write_inv. unfold placed in *. case_match.
  { left. change [dir; bytes_of "etc"; bytes_of "apt"; top] with (dir :: etc_apt ++ [top]).
    apply Join_under; [done|]. by apply etc_plain, Forall_singleton. }
  assert (Forall plain_seg (etc_apt ++ [parts])) as Hpre by (by apply etc_plain, Forall_singleton).
  change [dir; bytes_of "etc"; bytes_of "apt"; parts; Base target] with (dir :: (etc_apt ++ [parts]) ++ [Base target]) in *.
  destruct (Base_no_slash target) as [E|Hns].
  { exfalso. apply Hw. by rewrite E, Join_slash. }
  rewrite Join_last in Hw |- * by done. destruct (streq (Base target) "" || streq (Base target) ".") eqn:E1.
  { exfalso. by apply Hw. }
  destruct (streq (Base target) "..") eqn:E2.
  - exfalso. apply Hw. rewrite clean_parent; [done|by apply plain_safe, plain_check|apply Hparts].
  - right. exists (Base target). split; [|done]. apply orb_false_iff in E1 as [E0 E1]. split; [|done].
    split_and!; by apply streq_false_iff.
Qed.

Lemma split_last_nonempty c l x : x ≠ c → List.last (split c (l ++ [x])) [] ≠ [].
Proof.
  intros Hx. induction l as [|a l IH]; cbn [app split].
  - unfold beq. by rewrite bool_decide_eq_false_2.
  - destruct (split_hd c (l ++ [x])) as (w & ws & E). rewrite E in *. case_match; [done|]. by destruct ws.
Qed.
Lemma Base_slash p : Base p = [slash] → has_prefix [slash] p = true.
Proof.
  unfold Base. destruct (streq p "") eqn:Ep; [done|]. apply streq_false_iff in Ep.
  destruct p as [|c p]; [done|]. unfold has_prefix. cbn [cut_prefix]. destruct (beq slash c) eqn:E; [done|].
  apply bool_decide_eq_false in E. unfold trim_right. cbn [rev].
  assert (∀ l, ∃ l' x, drop_in [slash] (l ++ [c]) = x :: l' ∧ x ≠ slash) as H.
  { induction l as [|y l (l' & x & IH & Hx)]; cbn [app drop_in].
    - unfold contains_byte, beq. cbn [existsb]. rewrite bool_decide_eq_false_2 by done. by exists [], c.
    - destruct (contains_byte y [slash]) eqn:Ey; [by exists l', x|]. exists (l ++ [c]), y. split; [done|].
      intros ->. done. }
  destruct (H (rev p)) as (l' & x & -> & Hx). cbn [rev]. pose proof (split_last_nonempty slash (rev l') x Hx) as Hn.
  destruct (streq _ "") eqn:E2; [by apply streq_true in E2|]. intros Hs. exfalso.
  destruct (snoc_cases (split slash (rev l' ++ [x]))) as [E3|(k & w & E3)]; [by apply split_nonempty in E3|].
  rewrite E3, last_last in Hs. subst w. apply (split_no_sep slash (rev l' ++ [x]) [slash]); [|by left].
  rewrite E3. apply elem_of_app. right. by left.
Qed.

Lemma after_last_Some c s r : after_last c s = Some r → ∃ a, s = a ++ c :: r.
Proof.
  unfold after_last. destruct (cut c (rev s)) as [[b a]|] eqn:E; [|done]. intros [= <-].
  apply cut_Some in E as [E _]. exists (rev a). rewrite <- (rev_involutive s), E, rev_app_distr. cbn [rev]. by rewrite <- app_assoc.
Qed.
Lemma Ext_suffix name : ∃ a, name = a ++ Ext name.
Proof.
  unfold Ext. destruct (after_last "." name) as [r|] eqn:E; [by apply after_last_Some|]. exists name. by rewrite app_nil_r.
Qed.

Lemma hex_encode_no_slash s : slash ∉ hex_encode s.
Proof.
  assert (∀ n, 0 ≤ n < 16 → Digest.hex_digit n ≠ slash) as H.
  { intros n Hn. assert (n ∈ seqZ 0 16) as Hin by (apply elem_of_seqZ; lia). clear Hn. revert n Hin.
    apply Forall_forall. repeat constructor; done. }
  induction s as [|c s IH]; cbn [hex_encode]; [by intros ?%elem_of_nil|].
  pose proof (ord_range c). rewrite !not_elem_of_cons. split_and!; [| |done]; symmetry; apply H.
  - split; [apply Z.div_pos; lia|apply Z.div_lt_upper_bound; lia].
  - apply Z.mod_pos_bound. lia.
Qed.

Lemma keyring_base_plain kf : has_prefix [slash] (ky_archivePath kf) = false → plain_seg (keyring_base kf).
Proof.
  intros Ha. unfold keyring_base. set (base := if _ : bool then Base (ky_archivePath kf) else Base (ky_path kf)).
  assert (slash ∉ base) as Hns.
  { subst base. case_match eqn:E.
    - destruct (Base_no_slash (ky_archivePath kf)) as [E2|]; [|done]. apply Base_slash in E2. congruence.
    - destruct (Base_no_slash (ky_path kf)) as [E2|]; [|done]. rewrite E2 in E. done. }
  clearbody base. case_match eqn:E.
  - split.
    + split_and!; intros Hb; by destruct base as [|? [|? [|? ?]]].
    + rewrite elem_of_app. intros [?|Hin]; [done|]. revert Hin. by apply contains_byte_false.
  - split; [|done]. apply andb_false_iff in E.
    split_and!; intros ->; by destruct E.
Qed.
Lemma keyring_name_plain used kf : has_prefix [slash] (ky_archivePath kf) = false → plain_seg (keyring_name used kf).
Proof.
  intros H. pose proof (keyring_base_plain kf H) as Hp. unfold keyring_name. case_bool_decide; [|done].
  set (name := keyring_base kf) in *. clearbody name. destruct (Ext_suffix name) as [a Ea].
  remember (Ext name) as e eqn:Ee. clear Ee. subst name. rewrite trim_suffix_app. destruct Hp as [_ Hns].
  rewrite not_elem_of_app in Hns. destruct Hns as [Hna Hne]. split.
  - assert ("-"%char ∈ a ++ bytes_of "-" ++ hex_encode (take 4 (Sha256.sum (ky_path kf))) ++ e) as Hin.
    { rewrite !elem_of_app. right. left. by left. }
    split_and!; intros E; rewrite E in Hin; revert Hin; by apply contains_byte_false.
  - rewrite !not_elem_of_app. split_and!; [done|by apply contains_byte_false|apply hex_encode_no_slash|done].
Qed.

Lemma safe_extract_relative filesDir ap p : safeExtractPath filesDir ap = Some p → has_prefix [slash] ap = false.
Proof. unfold safeExtractPath. intros H. by guards. Qed.
Lemma read_relative filesDir ap data : readSnapshotFile filesDir ap = Some data → has_prefix [slash] ap = false.
Proof.
  unfold PrivateRoot.readSnapshotFile. intros (p & Hp & _)%bind_Some. by eapply safe_extract_relative.
Qed.

(** ** What a build writes *)

Section contents.
Variable spec : RootSpec.
Abbreviation dir := (rs_Dir spec).
Abbreviation read := (readSnapshotFile (rs_SnapshotFilesDir spec)).
Definition captured (s : Snapshot) : Prop := rs_CopySnapshotSources spec = true ∧ rs_Snapshot spec = Some s.
Definition trusted_path (p : gostring) : Prop := ∃ name, plain_seg name ∧ p = under dir (etc_apt ++ [bytes_of "trusted.gpg.d"; name]).

Hypothesis dir_given : dir ≠ [].

Section dests.
(** The places the captured keyrings were given. *)
Variable D : gmap gostring gostring.

Inductive built : gostring → gostring → Prop :=
| built_status d :
    d = [] ∨ (∃ s, rs_Snapshot spec = Some s ∧ read (fi_ArchivePath (sn_DpkgStatus s)) = Some d) →
    built (under dir [bytes_of "var"; bytes_of "lib"; bytes_of "dpkg"; bytes_of "status"]) d
| built_preferences_file : built (under dir (etc_apt ++ [bytes_of "preferences"])) []
| built_sources_list : built (under dir (etc_apt ++ [bytes_of "sources.list"])) []
| built_keyring s f d p :
    captured s → f ∈ ap_Trusted (sn_APT s) ++ ap_Keyrings (sn_APT s) → read (fi_ArchivePath f) = Some d → trusted_path p →
    built p d
| built_source s f data p :
    captured s → f ∈ ap_Sources (sn_APT s) → read (fi_ArchivePath f) = Some data →
    (∀ k v, D !! k = Some v → trusted_path v) → placed_at dir (bytes_of "sources.list") (bytes_of "sources.list.d") p →
    built p (rewriteSignedBy (fi_ArchivePath f) data D).1
| built_preference s f d p :
    captured s → f ∈ ap_Preferences (sn_APT s) → read (fi_ArchivePath f) = Some d →
    placed_at dir (bytes_of "preferences") (bytes_of "preferences.d") p → built p d
| built_conf s f data p :
    captured s → f ∈ ap_Conf (sn_APT s) → read (fi_ArchivePath f) = Some data →
    placed_at dir (bytes_of "apt.conf") (bytes_of "apt.conf.d") p →
    built p (filterAptConf (fi_ArchivePath f) data (rs_AllowProxy spec)).1
| built_extra es : es ∈ rs_ExtraSources spec →
    built (filepath_join [dir; bytes_of "etc"; bytes_of "apt"; bytes_of "sources.list.d"; extra_name (es_Name es)]) (es_Line es ++ [newline])
| built_loader : built (under dir [bytes_of "debark-apt.conf"]) (loader_text dir).

(** What is written once the keyrings are. *)
Definition late (p d : gostring) : Prop := built p d ∧ ¬ trusted_path p.
Lemma late_built t t' : writes late t t' → writes built t t'.
Proof. apply writes_impl. by intros p d [? _]. Qed.
Lemma late_keeps t t' p : writes late t t' → trusted_path p → tr_files t' !! p = tr_files t !! p.
Proof. intros [_ Hw] Hp. destruct (Hw p) as [?|(d & _ & _ & Hn)]; [done|by destruct Hn]. Qed.
Lemma placed_not_trusted top parts p : plain_segb top = true → plain_segb parts = true → bytes_of "trusted.gpg.d" ≠ parts →
  placed_at dir top parts p → ¬ trusted_path p.
Proof.
  intros Htop Hparts Hne Hp (name & Hn & ->). destruct Hp as [E|(base & Hb & E)].
  - apply under_inj in E; [done|by apply etc_two|apply etc_plain, Forall_singleton; by apply plain_segb_spec|done|done].
  - apply under_inj in E; [by injection E|by apply etc_two|by apply etc_two|done|done].
Qed.

(** The directories a build makes first. *)
Definition has_dirs (t : tree) : Prop :=
  under dir etc_apt ∈ tr_dirs t
  ∧ ∀ parts, parts ∈ [bytes_of "sources.list.d"; bytes_of "preferences.d"; bytes_of "apt.conf.d"; bytes_of "trusted.gpg.d"] →
      etc_dir dir parts ∈ tr_dirs t.
Lemma has_dirs_writes P t t' : writes P t t' → has_dirs t → has_dirs t'.
Proof. intros Hw [H1 H2]. split; [|intros parts Hp]; (eapply writes_dir; [done|]); auto. Qed.

Lemma inits_elem a : ∀ l b, a ≠ [] → l = a ++ b → a ∈ inits l.
Proof.
  induction a as [|x a IH]; intros l b Ha ->; [done|]. cbn [app inits]. destruct a as [|y a]; [by left|].
  right. apply list_elem_of_fmap. exists (y :: a). split; [done|]. by eapply IH.
Qed.
(** Every path above another is one of its parents. *)
Lemma parents_under d a b : Forall plain_seg (a ++ b) → a ≠ [] → under d a ∈ parents (under d (a ++ b)).
Proof.
  intros Hp Ha. unfold parents. right. apply list_elem_of_fmap. unfold under. rewrite app_assoc.
  set (base := clean_segs _ _). set (rooted := has_prefix [slash] d).
  assert (∀ s, s ∈ (base ++ a) ++ b → slash ∉ s) as Hns.
  { intros s Hs. apply (under_segs d (a ++ b)); [done|]. subst base. by rewrite app_assoc. }
  assert (split slash (show rooted ((base ++ a) ++ b)) = (if rooted then [[]] else []) ++ (base ++ a) ++ b) as E.
  { destruct rooted; cbn [show].
    - change (slash :: join [slash] ((base ++ a) ++ b)) with ([] ++ slash :: join [slash] ((base ++ a) ++ b)).
      rewrite split_app, split_join; [done|by destruct base, a|done].
    - destruct ((base ++ a) ++ b) eqn:E; [by destruct base, a|]. by rewrite split_join. }
  exists ((if rooted then [[]] else []) ++ base ++ a). split.
  - destruct rooted; cbn [app show]; [|by destruct base, a]. by rewrite join_cons_ne by (by destruct base, a).
  - eapply inits_elem; [by destruct rooted, base, a|]. rewrite E. by rewrite <- !app_assoc.
Qed.


Lemma mkdirs_writes P ds : ∀ t t', mkdirs can_mkdir ds t = Ok t' →
  writes P t t' ∧ ∀ d, d ∈ ds → list_to_set (parents d) ⊆ tr_dirs t'.
Proof.
  induction ds as [|d ds IH]; intros t t'; cbn [mkdirs].
  { intros [= <-]. split; [apply writes_refl|]. by intros d ?%elem_of_nil. }
  rewrite bind_Ok. intros (t1 & H1 & H2). apply (mkdir_writes P) in H1 as (Hw & Hp & _). apply IH in H2 as [Hw2 Hd].
  split; [by eapply writes_trans|]. intros d' [->|Hin]%elem_of_cons; [|by apply Hd]. etrans; [exact Hp|apply Hw2].
Qed.
Lemma root_has_dirs t t' : mkdirs can_mkdir (root_dirs dir) t = Ok t' → has_dirs t'.
Proof.
  intros [_ Hd]%(mkdirs_writes (λ _ _, True)).
  assert (∀ parts, parts ∈ [bytes_of "sources.list.d"; bytes_of "preferences.d"; bytes_of "apt.conf.d"; bytes_of "trusted.gpg.d"] →
    list_to_set (parents (under dir (etc_apt ++ [parts]))) ⊆ tr_dirs t' ∧ plain_seg parts) as H.
  { intros parts Hp. assert (plain_seg parts) as Hpl.
    { apply plain_segb_spec. revert parts Hp. apply Forall_forall. by repeat constructor. }
    split; [|done]. rewrite <- Join_under by (try done; by apply etc_plain, Forall_singleton). apply Hd.
    unfold root_dirs. rewrite !elem_of_cons in Hp. rewrite elem_of_nil in Hp. cbn [map].
    destruct Hp as [->|[->|[->|[->|[]]]]]; rewrite !elem_of_cons; auto. }
  assert (∀ parts, plain_seg parts → Forall plain_seg (etc_apt ++ [parts])) as Hpl.
  { intros parts Hp. by apply etc_plain, Forall_singleton. }
  split.
  - destruct (H (bytes_of "apt.conf.d")) as [Hs Hp]; [rewrite !elem_of_cons; auto|].
    apply Hs, elem_of_list_to_set. apply parents_under; [by apply Hpl|done].
  - intros parts Hin. destruct (H parts Hin) as [Hs Hp]. apply Hs, elem_of_list_to_set. unfold etc_dir.
    rewrite <- (app_nil_r (etc_apt ++ [parts])) at 2. apply parents_under; [|done]. rewrite app_nil_r. by apply Hpl.
Qed.

Lemma trusted_join name : plain_seg name →
  filepath_join [trusted_dir spec; name] = under dir (etc_apt ++ [bytes_of "trusted.gpg.d"; name]).
Proof.
  intros Hn. unfold trusted_dir.
  change [dir; bytes_of "etc"; bytes_of "apt"; bytes_of "trusted.gpg.d"] with (dir :: (etc_apt ++ [bytes_of "trusted.gpg.d"])).
  rewrite (Join_under dir) by (try done; by apply plain_check).
  rewrite Join_under; [|by apply under_nonempty, plain_check|by apply Forall_singleton].
  by rewrite under_under by (by apply plain_check).
Qed.

(** ** Keyrings *)

Definition of_snapshot (s : Snapshot) (kf : keyFile) : Prop :=
  ∃ f, f ∈ ap_Trusted (sn_APT s) ++ ap_Keyrings (sn_APT s) ∧ kf = mkKeyFile (fi_Path f) (fi_ArchivePath f) (ky_data kf)
    ∧ read (fi_ArchivePath f) = Some (ky_data kf).
Lemma collect_keys_spec files : ∀ kfs, collect_keys host (rs_SnapshotFilesDir spec) files = Ok kfs →
  ∀ kf, kf ∈ kfs → ∃ f, f ∈ files ∧ kf = mkKeyFile (fi_Path f) (fi_ArchivePath f) (ky_data kf)
    ∧ read (fi_ArchivePath f) = Some (ky_data kf).
Proof.
  induction files as [|f files IH]; intros kfs; cbn [collect_keys]; [by intros [= <-] kf ?%elem_of_nil|].
  destruct (PrivateRoot.readSnapshotFile _ _ _) as [data|] eqn:Hr; [|done]. rewrite bind_Ok. intros (ks & Hk & [= <-]).
  intros kf [->|Hin]%elem_of_cons; [exists f; split_and!; [by left|done|done]|].
  destruct (IH _ Hk kf Hin) as (g & Hg & ?). exists g. split; [by right|done].
Qed.

(** The names of the keyrings, in the order they are written. *)
Fixpoint keyring_names (used : gset gostring) (kfs : list keyFile) : list gostring :=
  match kfs with
  | [] => []
  | kf :: rest => let name := keyring_name used kf in name :: keyring_names ({[name]} ∪ used) rest
  end.
Lemma keyring_names_length kfs : ∀ used, length (keyring_names used kfs) = length kfs.
Proof. induction kfs; intros used; cbn; auto. Qed.

Definition fps_of (data : gostring) : list gostring := match doFingerprintsIn data with Ok fps => fps | Err _ => [] end.
Definition pinned_at (path dst : gostring) (st : keyring_state) (kf : keyFile) (name : gostring) : Prop :=
  ky_path kf = path ∧ path ≠ [] ∧ dst = under dir (etc_apt ++ [bytes_of "trusted.gpg.d"; name])
  ∧ kr_fps st !! path = Some (fps_of (ky_data kf)).
(** One keyring: where it is written and what is remembered of it. *)
Lemma place_keyring_inv kf st st' : has_prefix [slash] (ky_archivePath kf) = false →
  place_keyring can_write (trusted_dir spec) kf st = Ok st' →
  let name := keyring_name (kr_used st) kf in
  write_file (under dir (etc_apt ++ [bytes_of "trusted.gpg.d"; name])) (ky_data kf) (kr_tree st) = Ok (kr_tree st')
  ∧ kr_used st' = {[name]} ∪ kr_used st
  ∧ ∀ path dst, kr_dest st' !! path = Some dst →
      (kr_dest st !! path = Some dst ∧ kr_fps st' !! path = kr_fps st !! path) ∨ pinned_at path dst st' kf name.
Proof.
  intros Ha. unfold place_keyring. rewrite trusted_join by (by apply keyring_name_plain). rewrite bind_Ok.
  intros (t & Hw & Hst). destruct (streq (ky_path kf) "") eqn:Ep.
  - injection Hst as <-. split_and!; [done..|]. cbn. auto.
  - destruct (match doFingerprintsIn (ky_data kf) with Ok fps => _ | Err why => _ end) as [fps warn] eqn:Ef.
    injection Hst as <-. split_and!; [done..|]. cbn. intros path dst Hd.
    destruct (decide (path = ky_path kf)) as [->|Hne].
    + right. rewrite lookup_insert_eq in Hd. injection Hd as <-. split_and!; [done|by apply streq_false_iff|done|].
      cbn. rewrite lookup_insert_eq. f_equal. unfold fps_of. by destruct (doFingerprintsIn (ky_data kf)); simplify_eq.
    + left. rewrite lookup_insert_ne in Hd by done. by rewrite lookup_insert_ne.
Qed.

Lemma place_keyrings_inv s kfs : captured s → ∀ st st', (∀ kf, kf ∈ kfs → of_snapshot s kf) →
  place_keyrings can_write (trusted_dir spec) kfs st = Ok st' →
  writes built (kr_tree st) (kr_tree st')
  ∧ (∀ path dst, kr_dest st' !! path = Some dst →
      (kr_dest st !! path = Some dst ∧ kr_fps st' !! path = kr_fps st !! path)
      ∨ ∃ kf name, (kf, name) ∈ zip kfs (keyring_names (kr_used st) kfs) ∧ pinned_at path dst st' kf name ∧ plain_seg name)
  ∧ (NoDup (keyring_names (kr_used st) kfs) → ∀ kf name, (kf, name) ∈ zip kfs (keyring_names (kr_used st) kfs) →
      tr_files (kr_tree st') !! under dir (etc_apt ++ [bytes_of "trusted.gpg.d"; name]) = Some (ky_data kf))
  ∧ (∀ name, plain_seg name → name ∉ keyring_names (kr_used st) kfs →
      tr_files (kr_tree st') !! under dir (etc_apt ++ [bytes_of "trusted.gpg.d"; name])
      = tr_files (kr_tree st) !! under dir (etc_apt ++ [bytes_of "trusted.gpg.d"; name])).
Proof.
  intros Hs. induction kfs as [|kf kfs IH]; intros st st' Hk; cbn [place_keyrings keyring_names zip].
  { intros [= <-]. split_and!; [apply writes_refl|auto|by intros _ ? ? ?%elem_of_nil|done]. }
  rewrite bind_Ok. intros (st1 & H1 & H2). destruct (Hk kf ltac:(by left)) as (f & Hf & Hkf & Hr).
  assert (has_prefix [slash] (ky_archivePath kf) = false) as Hrel by (rewrite Hkf; by eapply read_relative).
  pose proof (place_keyring_inv kf st st1 Hrel H1) as (Hw & Hu & Hd). pose proof (keyring_name_plain (kr_used st) kf Hrel) as Hpl.
  set (name := keyring_name (kr_used st) kf) in *. rewrite <- Hu.
  destruct (IH st1 st') as (Hw2 & Hd2 & Hn2 & Ho2); [intros; apply Hk; by right|done|].
  pose proof (write_inv _ _ _ _ Hw) as [_ Et]. split_and!.
  - eapply writes_trans; [|exact Hw2]. eapply write_writes; [exact Hw|]. eapply built_keyring; [done|exact Hf| |by exists name].
    rewrite Hkf in Hr. exact Hr.
  - intros path dst Hp. apply Hd2 in Hp as [[Hp Hfp]|(kf' & n & Hin & Hpin)]; [|right; exists kf', n; split; [by right|done]].
    apply Hd in Hp as [[Hp Hfp2]|(? & ? & ? & Hfp2)]; [left; by rewrite Hfp|]. right. exists kf, name. split; [by left|].
    split; [|done]. split_and!; [done..|by rewrite Hfp].
  - intros [Hnn Hnd]%NoDup_cons kf' n [[= -> ->]|Hin]%elem_of_cons; [|by apply Hn2].
    rewrite Ho2 by done. rewrite Et. cbn. by rewrite lookup_insert_eq.
  - intros n Hn [Hne Hnin]%not_elem_of_cons. rewrite Ho2 by done. rewrite Et. cbn. rewrite lookup_insert_ne; [done|].
    intros E. apply under_inj in E; [|by apply etc_two..|done|done].
    injection E as E. by symmetry in E.
Qed.

(** ** Sources *)

Definition pinned (dests : gmap gostring gostring) (r : SignedByRecord) : Prop :=
  sb_Inline r = false → sb_Stripped r = false → sb_RewrittenTo r = dest_of dests (sb_OriginalPath r).
Lemma list_pinned file stanza value dests sep : Forall (pinned dests) (rewriteSignedByList file stanza value dests sep).2.
Proof.
  unfold rewriteSignedByList. destruct (dests !! value) as [d|] eqn:E.
  { constructor; [|constructor]. intros _ _. cbn. unfold dest_of. by rewrite E. }
  destruct (splitSignedByValue value sep) as [|e es] eqn:Es; [constructor; [by intros _|constructor]|].
  rewrite <- Es. destruct (omap _ _); cbn [snd]; apply Forall_forall; intros r Hr;
    apply list_elem_of_In, in_map_iff in Hr as (x & <- & Hx).
  - intros _. done.
  - unfold entry_record, pinned. by case_match.
Qed.
Lemma deb822_pinned file dests fuel : ∀ stanza lines, Forall (pinned dests) (deb822_loop fuel file dests stanza lines).2.
Proof.
  induction fuel as [|fuel IH]; intros stanza [|line lines]; cbn [deb822_loop]; try constructor.
  case_match.
  { pose proof (IH (stanza + 1) lines) as H1. destruct (deb822_loop _ _ _ _ _). exact H1. }
  destruct (find_submatch _ _) as [m|].
  2: { pose proof (IH stanza lines) as H1. destruct (deb822_loop _ _ _ _ _). exact H1. }
  destruct (span_continued lines) as [cont after]. pose proof (IH stanza after) as H1.
  destruct (deb822_loop _ _ _ _ _) as [out records]. destruct cont; [|by constructor].
  case_match; [|by constructor]. pose proof (list_pinned file stanza (trim_space (group 1 m)) dests deb822SignedBySeps) as H2.
  destruct (rewriteSignedByList _ _ _ _ _). apply Forall_app. by split.
Qed.
Lemma one_line_pinned file dests lines : ∀ stanza, Forall (pinned dests) (one_line_loop file dests stanza lines).2.
Proof.
  induction lines as [|line lines IH]; intros stanza; cbn [one_line_loop]; [constructor|].
  assert (Forall (pinned dests) (one_line file dests stanza line).1.2) as H1.
  { unfold one_line. case_match; [constructor|]. destruct (find_submatch _ _) as [m|]; [|constructor].
    case_match; [constructor|]. destruct (find_parts _ _) as [[[[before whole] after] sm]|]; [|constructor].
    pose proof (list_pinned file stanza (group 1 sm) dests oneLineSignedBySeps) as H2.
    by destruct (rewriteSignedByList _ _ _ _ _). }
  destruct (one_line file dests stanza line) as [[l recs] stanza']. pose proof (IH stanza') as H2.
  destruct (one_line_loop _ _ _ _). apply Forall_app. by split.
Qed.
(** A record that names a keyring names where its source is pinned. *)
Lemma rewriteSignedBy_pinned ap data dests : Forall (pinned dests) (rewriteSignedBy ap data dests).2.
Proof.
  unfold rewriteSignedBy. case_match.
  - unfold rewriteSignedByDeb822. pose proof (deb822_pinned ap dests (length (split newline data)) 0 (split newline data)) as H1.
    by destruct (deb822_loop _ _ _ _ _).
  - unfold rewriteSignedByOneLine. pose proof (one_line_pinned ap dests (split newline data) 0) as H1.
    by destruct (one_line_loop _ _ _ _).
Qed.

Definition records_of (ks : keyring_state) (ap data : gostring) : list SignedByRecord :=
  map (λ r, with_fingerprints (fingerprintsFor r (kr_fps ks)) r) (rewriteSignedBy ap data (kr_dest ks)).2.
(** What is known of each source's records, by its archive path. *)
Definition recorded (ks : keyring_state) (st : source_state) : Prop :=
  ∀ ap recs, so_byFile st !! ap = Some recs → ∃ data, read ap = Some data ∧ recs = records_of ks ap data.
Lemma place_source_inv s ks f st st' : kr_dest ks = D → captured s → f ∈ ap_Sources (sn_APT s) → has_dirs (so_tree st) → recorded ks st →
  (∀ k v, kr_dest ks !! k = Some v → trusted_path v) →
  place_source host can_mkdir can_write spec ks f st = Ok st' →
  writes late (so_tree st) (so_tree st') ∧ recorded ks st' ∧ so_files st' = so_files st ++ [fi_ArchivePath f]
  ∧ (∀ ap, is_Some (so_byFile st' !! ap) ↔ ap = fi_ArchivePath f ∨ is_Some (so_byFile st !! ap))
  ∧ ∃ data, read (fi_ArchivePath f) = Some data
    ∧ so_records st' = so_records st ++ records_of ks (fi_ArchivePath f) data.
Proof.
  intros HD Hs Hf Hd Hrec Hdst. unfold place_source.
  destruct (PrivateRoot.readSnapshotFile _ _ _) as [data|] eqn:Hr; [|done].
  destruct (rewriteSignedBy (fi_ArchivePath f) data (kr_dest ks)) as [rewritten records] eqn:Erw.
  rewrite bind_Ok. intros (t1 & H1 & (t2 & H2 & [= <-])%bind_Ok). apply (mkdir_writes late) in H1 as (Hw1 & _ & _).
  pose proof (has_dirs_writes _ _ _ Hw1 Hd) as [Ha Hp]. cbn.
  assert (records_of ks (fi_ArchivePath f) data = map (λ r, with_fingerprints (fingerprintsFor r (kr_fps ks)) r) records) as Er.
  { unfold records_of. by rewrite Erw. }
  split_and!; [|..|by exists data; rewrite Er]; try done.
  - eapply writes_trans; [exact Hw1|]. eapply write_writes; [exact H2|]. 
    replace rewritten with (rewriteSignedBy (fi_ArchivePath f) data (kr_dest ks)).1 by (by rewrite Erw).
    assert (placed_at dir (bytes_of "sources.list") (bytes_of "sources.list.d") (sourceDest dir (fi_Path f))) as Hpl.
    { eapply placed_spec; [done|by apply plain_segb_spec..| |done|exact H2]. apply Hp. by left. }
    split; [rewrite HD; eapply built_source; [done..| |done]; by rewrite <- HD|by refine (placed_not_trusted _ _ _ _ _ _ Hpl)].
  - intros ap recs Hin. cbn in Hin. destruct (decide (ap = fi_ArchivePath f)) as [->|Hne].
    + rewrite lookup_insert_eq in Hin. injection Hin as <-. exists data. by rewrite Er.
    + rewrite lookup_insert_ne in Hin by done. by apply Hrec.
  - intros ap. destruct (decide (ap = fi_ArchivePath f)) as [->|Hne].
    + rewrite lookup_insert_eq. split; [by left|by eexists].
    + rewrite lookup_insert_ne by done. split; [by right|]. by intros [?|?].
Qed.

Definition sources_done (ks : keyring_state) (files : list File) (st : source_state) : Prop :=
  recorded ks st ∧ so_files st = map fi_ArchivePath files ∧ (∀ f, f ∈ files → is_Some (so_byFile st !! fi_ArchivePath f))
  ∧ ∃ datas, Forall2 (λ f data, read (fi_ArchivePath f) = Some data) files datas
      ∧ so_records st = concat (zip_with (λ f data, records_of ks (fi_ArchivePath f) data) files datas).
Lemma place_sources_inv s ks : kr_dest ks = D → captured s → (∀ k v, kr_dest ks !! k = Some v → trusted_path v) →
  ∀ files done st st', (∀ f, f ∈ files → f ∈ ap_Sources (sn_APT s)) → has_dirs (so_tree st) → sources_done ks done st →
  place_sources host can_mkdir can_write spec ks files st = Ok st' →
  writes late (so_tree st) (so_tree st') ∧ sources_done ks (done ++ files) st'.
Proof.
  intros HD Hs Hdst. induction files as [|f files IH]; intros done st st' Hf Hd Hdone; cbn [place_sources].
  { intros [= <-]. split; [apply writes_refl|]. by rewrite app_nil_r. }
  rewrite bind_Ok. intros (st1 & H1 & H2). destruct Hdone as (Hrec & Hfs & Hby & datas & Hda & Hrs).
  apply (place_source_inv s) in H1 as (Hw & Hrec1 & Hfs1 & Hby1 & data & Hr & Hrs1); [|done|done|apply Hf; by left|done..].
  replace (done ++ f :: files) with ((done ++ [f]) ++ files) by (by rewrite <- app_assoc).
  destruct (IH (done ++ [f]) st1 st') as [Hw2 Hd2]; [|by eapply has_dirs_writes| |exact H2|].
  - intros g Hg. apply Hf. by right.
  - split_and!; [exact Hrec1|by rewrite Hfs1, Hfs, map_app| |].
    + intros g Hg. apply Hby1. apply elem_of_app in Hg as [Hg|Hg]; [right; by apply Hby|].
      apply list_elem_of_singleton in Hg as ->. by left.
    + exists (datas ++ [data]). split; [apply Forall2_app; [exact Hda|by constructor]|].
      rewrite Hrs1, Hrs, zip_with_app by (by eapply Forall2_length). rewrite concat_app. cbn. by rewrite app_nil_r.
  - split; [by eapply writes_trans|exact Hd2].
Qed.

(** ** The rest of the configuration *)

Lemma place_preferences_writes s files : captured s → (∀ f, f ∈ files → f ∈ ap_Preferences (sn_APT s)) →
  ∀ t t', has_dirs t → place_preferences host can_mkdir can_write spec files t = Ok t' → writes late t t'.
Proof.
  intros Hs. induction files as [|f files IH]; intros Hf t t' Hd; cbn [place_preferences].
  { intros [= <-]. apply writes_refl. }
  rewrite bind_Ok. intros (t1 & (data & t0 & Hr & H0 & H1)%copy_inv & H2).
  apply (mkdir_writes late) in H0 as (Hw0 & _ & _). pose proof (has_dirs_writes _ _ _ Hw0 Hd) as Hd0.
  assert (writes late t t1) as Hw1.
  { eapply writes_trans; [exact Hw0|]. eapply write_writes; [exact H1|].
    assert (placed_at dir (bytes_of "preferences") (bytes_of "preferences.d") (preferencesDest dir (fi_Path f))) as Hpl.
    { destruct Hd0 as [Ha Hp]. eapply placed_spec; [done|by apply plain_segb_spec..| |done|exact H1]. apply Hp. right. by left. }
    split; [|by refine (placed_not_trusted _ _ _ _ _ _ Hpl)]. eapply built_preference; [exact Hs|apply Hf; by left|exact Hr|done]. }
  eapply writes_trans; [exact Hw1|]. apply IH in H2; [done| |by eapply has_dirs_writes]. intros g Hg. apply Hf. by right.
Qed.
Lemma place_confs_writes s files : captured s → (∀ f, f ∈ files → f ∈ ap_Conf (sn_APT s)) →
  ∀ t d t' d', has_dirs t → place_confs host can_mkdir can_write spec files t d = Ok (t', d') → writes late t t'.
Proof.
  intros Hs. induction files as [|f files IH]; intros Hf t d t' d' Hd; cbn [place_confs].
  { intros [= <- <-]. apply writes_refl. }
  destruct (PrivateRoot.readSnapshotFile _ _ _) as [data|] eqn:Hr; [|done].
  destruct (filterAptConf (fi_ArchivePath f) data (rs_AllowProxy spec)) as [filtered drop] eqn:Ef.
  rewrite bind_Ok. intros (t0 & H0 & (t1 & H1 & H2)%bind_Ok).
  apply (mkdir_writes late) in H0 as (Hw0 & _ & _). pose proof (has_dirs_writes _ _ _ Hw0 Hd) as Hd0.
  assert (writes late t t1) as Hw1.
  { eapply writes_trans; [exact Hw0|]. eapply write_writes; [exact H1|].
    replace filtered with (filterAptConf (fi_ArchivePath f) data (rs_AllowProxy spec)).1 by (by rewrite Ef).
    assert (placed_at dir (bytes_of "apt.conf") (bytes_of "apt.conf.d") (confDest dir (fi_Path f))) as Hpl.
    { destruct Hd0 as [Ha Hp]. eapply placed_spec; [done|by apply plain_segb_spec..| |done|exact H1].
      apply Hp. rewrite !elem_of_cons. auto. }
    split; [|by refine (placed_not_trusted _ _ _ _ _ _ Hpl)]. eapply built_conf; [exact Hs|apply Hf; by left|exact Hr|done]. }
  eapply writes_trans; [exact Hw1|]. eapply IH; [|by eapply has_dirs_writes|exact H2]. intros g Hg. apply Hf. by right.
Qed.

End dests.

(** ** The whole of the captured configuration *)

(** The state after the keyrings of a build, and what follows from it. *)
Definition keyrings_of (s : Snapshot) (kfs : list keyFile) (t : tree) (ks : keyring_state) : Prop :=
  collect_keys host (rs_SnapshotFilesDir spec) (ap_Trusted (sn_APT s) ++ ap_Keyrings (sn_APT s)) = Ok kfs
  ∧ place_keyrings can_write (trusted_dir spec) (sort_keys kfs) (mkKeyrings t ∅ ∅ ∅ []) = Ok ks.
Lemma keyrings_of_snapshot s kfs t ks : keyrings_of s kfs t ks → ∀ kf, kf ∈ sort_keys kfs → of_snapshot s kf.
Proof. intros [H _] kf Hin. unfold sort_keys in Hin. rewrite elem_of_sort_by in Hin. by eapply (collect_keys_spec ∅). Qed.
Lemma keyrings_trusted s kfs t ks : captured s → keyrings_of s kfs t ks → ∀ k v, kr_dest ks !! k = Some v → trusted_path v.
Proof.
  intros Hs Hk k v Hv. pose proof (keyrings_of_snapshot _ _ _ _ Hk) as Hof. destruct Hk as [_ Hp].
  apply (place_keyrings_inv ∅ s) in Hp as (_ & Hd & _); [|done..].
  apply Hd in Hv as [[Hv _]|(kf & name & _ & (_ & _ & -> & _) & Hn)]; [cbn in Hv; by rewrite lookup_empty in Hv|by exists name].
Qed.

Definition sources_of (s : Snapshot) (ks : keyring_state) (so : source_state) : Prop :=
  place_sources host can_mkdir can_write spec ks (ap_Sources (sn_APT s)) (mkSources (kr_tree ks) [] ∅ [] []) = Ok so.
Lemma sources_of_done s kfs t ks so : captured s → has_dirs t → keyrings_of s kfs t ks → sources_of s ks so →
  writes (built (kr_dest ks)) t (kr_tree ks) ∧ writes (late (kr_dest ks)) (kr_tree ks) (so_tree so) ∧ sources_done ks (ap_Sources (sn_APT s)) so.
Proof.
  intros Hs Hd Hk Hso. pose proof (keyrings_trusted _ _ _ _ Hs Hk) as Htr. pose proof (keyrings_of_snapshot _ _ _ _ Hk) as Hof.
  destruct Hk as [_ Hp]. apply (place_keyrings_inv (kr_dest ks) s) in Hp as (Hw & _); [|done..].
  apply (place_sources_inv (kr_dest ks) s ks eq_refl Hs Htr _ []) in Hso as [Hw2 Hdone]; [|done|by eapply (has_dirs_writes ∅)|].
  - done.
  - split_and!; [|done|by intros f ?%elem_of_nil|exists []; split; [constructor|done]].
    intros ap recs Hin. cbn in Hin. by rewrite lookup_empty in Hin.
Qed.

Lemma copy_config_inv s t c : captured s → has_dirs t →
  copySnapshotConfig table_upper host can_mkdir can_write spec s t = Ok c →
  ∃ kfs ks so, keyrings_of s kfs t ks ∧ sources_of s ks so
    ∧ checkApprovedKeys table_upper (so_files so) (so_byFile so) (rs_ApprovedKeys spec) = None
    ∧ writes (built (kr_dest ks)) t (kr_tree ks) ∧ writes (late (kr_dest ks)) (kr_tree ks) (cf_tree c) ∧ cf_SignedBy c = so_records so
    ∧ ∃ t1, place_preferences host can_mkdir can_write spec (ap_Preferences (sn_APT s)) (so_tree so) = Ok t1
      ∧ place_confs host can_mkdir can_write spec (ap_Conf (sn_APT s)) t1 [] = Ok (cf_tree c, cf_Dropped c).
Proof.
  intros Hs Hd. unfold copySnapshotConfig. rewrite bind_Ok. intros (kfs & Hk & (ks & Hp & (so & Hso & H)%bind_Ok)%bind_Ok).
  destruct (checkApprovedKeys _ _ _ _) eqn:Hc; [done|]. apply bind_Ok in H as (t1 & H1 & H).
  apply bind_Ok in H as ([t2 dropped] & H2 & [= <-]). cbn. exists kfs, ks, so.
  assert (keyrings_of s kfs t ks) as Hks by done.
  pose proof (sources_of_done _ _ _ _ _ Hs Hd Hks Hso) as (Hw & Hw1 & Hdone). split_and!; [done..| |done|by exists t1].
  pose proof (has_dirs_writes ∅ _ _ _ Hw Hd) as Hd0. pose proof (has_dirs_writes ∅ _ _ _ Hw1 Hd0) as Hd1.
  pose proof (place_preferences_writes (kr_dest ks) s _ Hs (λ _ H, H) _ _ Hd1 H1) as Hw2. pose proof (has_dirs_writes ∅ _ _ _ Hw2 Hd1) as Hd2.
  pose proof (place_confs_writes (kr_dest ks) s _ Hs (λ _ H, H) _ _ _ _ Hd2 H2) as Hw3.
  eapply writes_trans; [exact Hw1|]. by eapply writes_trans.
Qed.

(** ** The build *)

Definition extras_plain : Prop := ∀ es, es ∈ rs_ExtraSources spec → slash ∉ es_Name es.
Lemma extra_name_plain name : slash ∉ name → plain_seg (extra_name name).
Proof.
  intros Hn. unfold extra_name. case_match eqn:E.
  - split; [split_and!; intros E2; by destruct name as [|? [|? [|? ?]]]|]. rewrite not_elem_of_app. split; [done|].
    by apply contains_byte_false.
  - split; [|done]. apply andb_false_iff in E. split_and!; intros ->; by destruct E.
Qed.
Definition extra_path (es : ExtraSource) : gostring := under dir (etc_apt ++ [bytes_of "sources.list.d"; extra_name (es_Name es)]).
Lemma extra_join es : slash ∉ es_Name es →
  filepath_join [dir; bytes_of "etc"; bytes_of "apt"; bytes_of "sources.list.d"; extra_name (es_Name es)] = extra_path es.
Proof.
  intros Hn. apply (Join_under dir (etc_apt ++ [bytes_of "sources.list.d"; extra_name (es_Name es)])); [done|].
  by apply etc_two, extra_name_plain.
Qed.
Lemma place_extras_writes P extras : (∀ es, es ∈ extras →
    P (filepath_join [dir; bytes_of "etc"; bytes_of "apt"; bytes_of "sources.list.d"; extra_name (es_Name es)]) (es_Line es ++ [newline])) →
  ∀ t t', place_extras can_write dir extras t = Ok t' → writes P t t'.
Proof.
  intros HP. induction extras as [|es extras IH]; intros t t'; cbn [place_extras]; [intros [= <-]; apply writes_refl|].
  rewrite bind_Ok. intros (t1 & H1 & H2). eapply writes_trans; [eapply write_writes; [exact H1|apply HP; by left]|].
  apply IH in H2; [done|]. intros e He. apply HP. by right.
Qed.

Lemma top_join l : forallb plain_segb l = true → filepath_join (dir :: l) = under dir l.
Proof. intros Hl. apply Join_under; [done|by apply plain_check]. Qed.
Lemma place_status_writes t t' ws : place_status host can_mkdir can_write spec t = Ok (t', ws) → ∀ D, writes (built D) t t'.
Proof.
  assert (status_path dir = under dir [bytes_of "var"; bytes_of "lib"; bytes_of "dpkg"; bytes_of "status"]) as Ep by (by apply top_join).
  assert (∀ t ws', (t1 ← write_file (status_path dir) [] t; Ok (t1, ws')) = Ok (t', ws) → ∀ D, writes (built D) t t') as Hempty.
  { intros t0 ws'. rewrite bind_Ok. intros (t1 & H1 & [= <- _]) D. eapply write_writes; [exact H1|]. rewrite Ep.
    apply built_status. by left. }
  unfold place_status. destruct (rs_Snapshot spec) as [s|] eqn:Es; [|by apply Hempty]. case_match; [|by apply Hempty].
  rewrite bind_Ok. intros (t1 & (data & t0 & Hr & H0 & H1)%copy_inv & [= <- _]) D. apply (mkdir_writes (built D)) in H0 as (Hw0 & _).
  eapply writes_trans; [exact Hw0|]. eapply write_writes; [exact H1|]. rewrite Ep. apply built_status. right. by exists s.
Qed.
Lemma if_absent_writes P p t t' : P p [] → writeIfAbsent can_write p t = Ok t' → writes P t t'.
Proof.
  intros HP. unfold writeIfAbsent. case_match; [intros [= <-]; apply writes_refl|]. intros Hw. by eapply write_writes.
Qed.

Lemma build_inv t root t' : BuildPrivateRoot table_upper host can_mkdir can_write spec t = Ok (root, t') →
  ∃ t0 c t1, (∀ D, writes (built D) t t0) ∧ has_dirs t0 ∧ copied_config table_upper host can_mkdir can_write spec t0 = Ok c
    ∧ place_extras can_write dir (rs_ExtraSources spec) (cf_tree c) = Ok t1
    ∧ write_file (under dir [bytes_of "debark-apt.conf"]) (loader_text dir) t1 = Ok t'
    ∧ pr_SignedBy root = cf_SignedBy c ∧ pr_AptConfigPath root = under dir [bytes_of "debark-apt.conf"]
    ∧ pr_Dropped root = cf_Dropped c.
Proof.
  unfold BuildPrivateRoot. destruct (streq dir ""); [done|]. destruct (streq (rs_Arch spec) ""); [done|]. rewrite bind_Ok. intros (ta & Ha & H).
  pose proof (root_has_dirs ∅ _ _ Ha) as Hd.
  assert (∀ D, writes (built D) t ta) as Hwa by (intros D; by apply (mkdirs_writes ∅ (built D)) in Ha as [? _]). clear Ha.
  apply bind_Ok in H as (tb & Hb & H). assert (∀ D, writes (built D) ta tb) as Hwb.
  { intros D. case_match; [by apply (mkdir_writes (built D)) in Hb as (Hb & _)|]. injection Hb as <-. apply writes_refl. }
  apply bind_Ok in H as ([tc ws] & Hc & H). pose proof (place_status_writes _ _ _ Hc) as Hwc. apply bind_Ok in H as (td & Htd & H).
  change [dir; bytes_of "etc"; bytes_of "apt"; bytes_of "preferences"] with (dir :: etc_apt ++ [bytes_of "preferences"]) in Htd.
  rewrite top_join in Htd by done.
  assert (∀ D, writes (built D) tc td) as Hwd by (intros D; eapply if_absent_writes; [|exact Htd]; apply built_preferences_file).
  apply bind_Ok in H as (te & Hte & H).
  change [dir; bytes_of "etc"; bytes_of "apt"; bytes_of "sources.list"] with (dir :: etc_apt ++ [bytes_of "sources.list"]) in Hte.
  rewrite top_join in Hte by done.
  assert (∀ D, writes (built D) td te) as Hwe by (intros D; eapply if_absent_writes; [|exact Hte]; apply built_sources_list).
  apply bind_Ok in H as (c & Hcc & H). apply bind_Ok in H as (tf & Htf & H). unfold writeAptConfigLoader in H.
  rewrite top_join in H by done. apply bind_Ok in H as ([lp tg] & H & Hroot). apply bind_Ok in H as (th & Hth & [= <- <-]).
  injection Hroot as <- <-. exists te, c, tf.
  assert (∀ D, writes (built D) ta te) as Hwae.
  { intros D. eapply writes_trans; [apply Hwb|]. eapply writes_trans; [apply Hwc|]. by eapply writes_trans. }
  split_and!; [intros D; by eapply writes_trans|apply (has_dirs_writes ∅ _ _ _ (Hwae ∅) Hd)|done..].
Qed.

Lemma build_writes t t' D c t0 t1 : writes (built D) t t0 → writes (built D) t0 (cf_tree c) →
  place_extras can_write dir (rs_ExtraSources spec) (cf_tree c) = Ok t1 →
  write_file (under dir [bytes_of "debark-apt.conf"]) (loader_text dir) t1 = Ok t' → writes (built D) t t'.
Proof.
  intros H1 H2 H3 H4. eapply writes_trans; [exact H1|]. eapply writes_trans; [exact H2|].
  eapply writes_trans; [|eapply write_writes; [exact H4|apply built_loader]].
  eapply place_extras_writes; [|exact H3]. intros es. apply built_extra.
Qed.
Lemma copied_writes t0 c : has_dirs t0 → copied_config table_upper host can_mkdir can_write spec t0 = Ok c →
  ∃ D, writes (built D) t0 (cf_tree c).
Proof.
  intros Hd. unfold copied_config. destruct (rs_CopySnapshotSources spec) eqn:E1; [|intros [= <-]; exists ∅; apply writes_refl].
  destruct (rs_Snapshot spec) as [s|] eqn:E2; [|intros [= <-]; exists ∅; apply writes_refl].
  intros H. apply copy_config_inv in H as (kfs & ks & so & _ & _ & _ & Hw1 & Hw2 & _); [|done|done].
  exists (kr_dest ks). eapply writes_trans; [exact Hw1|]. eapply writes_impl; [|exact Hw2]. by intros p d [? _].
Qed.

Hypothesis extras_named : extras_plain.

(** Two places of the root are told apart by their segments. *)
Ltac place_plain := first [by apply plain_check|by apply etc_two|by apply etc_two, extra_name_plain, extras_named].
Ltac apart := match goal with
  | E : under _ ?a = under _ ?b |- _ =>
      apply under_inj in E; [try (injection E as E; subst); try discriminate|place_plain|place_plain|done|done]
  end.
Lemma conf_built D p d : placed_at dir (bytes_of "apt.conf") (bytes_of "apt.conf.d") p → built D p d →
  ∃ s f data, captured s ∧ f ∈ ap_Conf (sn_APT s) ∧ d = (filterAptConf (fi_ArchivePath f) data (rs_AllowProxy spec)).1.
Proof.
  intros Hp Hb. destruct Hb as [d _| | |s f d p _ _ _ (name & Hn & ->)|s f data p _ _ _ _ Hq|s f d p _ _ _ Hq|s f data p Hs Hf Hr _|es Hes|].
  all: try (by exists s, f, data).
  all: exfalso; try rewrite extra_join in Hp by (by apply extras_named).
  all: try (destruct Hq as [->|(b & Hb & ->)]).
  all: destruct Hp as [Hp|(base & Hbase & Hp)]; try unfold extra_path in Hp; by apart.
Qed.
Lemma source_built D p d : placed_at dir (bytes_of "sources.list") (bytes_of "sources.list.d") p → built D p d →
  d = [] ∨ (∃ es, es ∈ rs_ExtraSources spec ∧ p = extra_path es ∧ d = es_Line es ++ [newline])
  ∨ ∃ s f data, captured s ∧ f ∈ ap_Sources (sn_APT s) ∧ read (fi_ArchivePath f) = Some data
      ∧ d = (rewriteSignedBy (fi_ArchivePath f) data D).1.
Proof.
  intros Hp Hb. destruct Hb as [d _| | |s f d p _ _ _ (name & Hn & ->)|s f data p Hs Hf Hr _ _|s f d p _ _ _ Hq|s f data p _ _ _ Hq|es Hes|].
  all: try (by left); right; try (right; by exists s, f, data).
  all: try (left; exists es; split_and!; [done|by apply extra_join, extras_named|done]).
  all: exfalso; try (destruct Hq as [->|(b & Hb & ->)]).
  all: destruct Hp as [Hp|(base & Hbase & Hp)]; by apart.
Qed.
Lemma extras_late D t1 t2 : place_extras can_write dir (rs_ExtraSources spec) t1 = Ok t2 → writes (late D) t1 t2.
Proof.
  apply place_extras_writes. intros es Hes. split; [by apply built_extra|].
  rewrite extra_join by (by apply extras_named). intros (name & Hn & E). unfold extra_path in E. by apart.
Qed.
Lemma loader_late D t1 t2 : write_file (under dir [bytes_of "debark-apt.conf"]) (loader_text dir) t1 = Ok t2 → writes (late D) t1 t2.
Proof.
  intros H. eapply write_writes; [exact H|]. split; [apply built_loader|]. intros (name & Hn & E). by apart.
Qed.

(** ** Approved keys *)

Lemma refusal_none recs approved : ∀ saw, approvedKeyRefusal table_upper saw recs approved = [] →
  (saw = true ∨ recs ≠ []) ∧ ∀ r, r ∈ recs → sb_Inline r = false ∧ sb_Stripped r = false
    ∧ ∃ fp, fp ∈ sb_Fingerprints r ∧ to_upper table_upper fp ∈ approved.
Proof.
  induction recs as [|r recs IH]; intros saw; cbn [approvedKeyRefusal].
  { destruct saw; [|done]. split; [by left|]. by intros r ?%elem_of_nil. }
  destruct (sb_Stripped r) eqn:Es; [done|]. destruct (sb_Inline r) eqn:Ei; [done|].
  destruct (existsb _ _) eqn:Ex; [|by destruct (sb_Fingerprints r)]. intros [_ H]%IH. split; [by right|].
  intros r' [->|Hin]%elem_of_cons; [|by apply H]. split_and!; [done..|].
  apply existsb_exists in Ex as (fp & Hin & Hfp). exists fp. split; [by apply list_elem_of_In|by bsplit].
Qed.
Lemma check_none files byFile keys : keys ≠ [] → checkApprovedKeys table_upper files byFile keys = None →
  ∀ f, f ∈ files → approvedKeyRefusal table_upper false (default [] (byFile !! f)) (approved_set table_upper keys) = [].
Proof.
  intros Hk. unfold checkApprovedKeys. destruct keys as [|k keys]; [done|].
  destruct (omap _ _) as [|b bad] eqn:E; [|done]. intros _ f Hf.
  destruct (streq (approvedKeyRefusal table_upper false (default [] (byFile !! f)) (approved_set table_upper (k :: keys))) "") eqn:Er;
    [by apply streq_true in Er|].
  assert (is_Some (refused_file table_upper byFile (approved_set table_upper (k :: keys)) f)) as [x Hx].
  { unfold refused_file. by rewrite Er. }
  assert (x ∈ omap (refused_file table_upper byFile (approved_set table_upper (k :: keys))) files) as Hin.
  { apply list_elem_of_omap. by exists f. }
  rewrite E in Hin. by apply elem_of_nil in Hin.
Qed.

(** A pinned source's record: its keyring is one of the snapshot's, by the path
    the source names, holds an approved key, and is where the source now
    points; with distinct names for the keyrings, its bytes are there. *)
Definition vouched (kfs : list keyFile) (t' : tree) (r : SignedByRecord) : Prop :=
  let names := keyring_names ∅ (sort_keys kfs) in
  sb_Inline r = false ∧ sb_Stripped r = false ∧
  ∃ kf name fp, (kf, name) ∈ zip (sort_keys kfs) names ∧ ky_path kf = sb_OriginalPath r
    ∧ fp ∈ fps_of (ky_data kf) ∧ to_upper table_upper fp ∈ approved_set table_upper (rs_ApprovedKeys spec)
    ∧ sb_RewrittenTo r = under dir (etc_apt ++ [bytes_of "trusted.gpg.d"; name])
    ∧ (NoDup names → tr_files t' !! sb_RewrittenTo r = Some (ky_data kf)).

Lemma place_keyrings_dom td kfs : ∀ st st', dom (kr_fps st) = dom (kr_dest st) →
  place_keyrings can_write td kfs st = Ok st' → dom (kr_fps st') = dom (kr_dest st').
Proof.
  induction kfs as [|kf kfs IH]; intros st st' Hst; cbn [place_keyrings]; [by intros [= <-]|].
  rewrite bind_Ok. intros (st1 & H1 & H2). eapply IH; [|exact H2]. unfold place_keyring in H1.
  apply bind_Ok in H1 as (t & _ & H1). case_match; [by simplify_eq|].
  destruct (doFingerprintsIn (ky_data kf)); injection H1 as <-; cbn; rewrite !dom_insert_L; by rewrite Hst.
Qed.
Lemma vouched_record s kfs t0 ks ap data t' : captured s → keyrings_of s kfs t0 ks →
  (∀ p, trusted_path p → tr_files t' !! p = tr_files (kr_tree ks) !! p) → rs_ApprovedKeys spec ≠ [] →
  approvedKeyRefusal table_upper false (records_of ks ap data) (approved_set table_upper (rs_ApprovedKeys spec)) = [] →
  let recs := (rewriteSignedBy ap data (kr_dest ks)).2 in recs ≠ [] ∧ ∀ r, r ∈ recs → vouched kfs t' r.
Proof.
  intros Hs Hk Hkeep Hap [Hne Hall]%refusal_none recs. pose proof (keyrings_of_snapshot _ _ _ _ Hk) as Hof.
  destruct Hk as [_ Hk]. assert (dom (kr_fps ks) = dom (kr_dest ks)) as Hdom.
  { eapply place_keyrings_dom; [|exact Hk]. cbn. by rewrite !dom_empty_L. }
  apply (place_keyrings_inv (kr_dest ks) s) in Hk as (_ & Hd & Hn & _); [|done..]. cbn in Hd, Hn.
  split; [destruct Hne as [|Hne]; [done|]; intros E; apply Hne; unfold records_of; by fold recs; rewrite E|].
  intros r Hr. destruct (Hall (with_fingerprints (fingerprintsFor r (kr_fps ks)) r)) as (Hi & Hst & fp & Hfp & Hup).
  { unfold records_of. apply list_elem_of_fmap. by exists r. }
  cbn in Hi, Hst, Hfp. split_and!; [done..|]. pose proof (rewriteSignedBy_pinned ∅ ap data (kr_dest ks)) as Hpin.
  rewrite Forall_forall in Hpin. specialize (Hpin r Hr Hi Hst).
  unfold fingerprintsFor in Hfp. rewrite Hi, Hst in Hfp. cbn [orb] in Hfp.
  destruct (streq (sb_OriginalPath r) ""); [by apply elem_of_nil in Hfp|].
  destruct (kr_fps ks !! sb_OriginalPath r) as [fps|] eqn:Ef; [|by apply elem_of_nil in Hfp]. cbn in Hfp.
  assert (is_Some (kr_dest ks !! sb_OriginalPath r)) as [dst Hdst] by (rewrite <- elem_of_dom, <- Hdom; apply elem_of_dom; by exists fps).
  unfold dest_of in Hpin. rewrite Hdst in Hpin. cbn in Hpin.
  destruct (Hd _ _ Hdst) as [[E _]|(kf & name & Hin & (Hp & _ & Edst & Hf) & Hname)]; [by rewrite lookup_empty in E|].
  rewrite Ef in Hf. injection Hf as ->. exists kf, name, fp. rewrite Hpin. split_and!; [done..|].
  intros Hnd. rewrite Hkeep, Edst; [by apply Hn|]. exists name. by split.
Qed.
End contents.

Lemma loader_settings dir : dir ≠ [] →
  settings (read_conf (loader_text dir))
  = [Keyed (map bytes_of ["Dir"; "Etc"; "main"]%string) (Some (under dir (etc_apt ++ [bytes_of "apt.conf"])));
     Keyed (map bytes_of ["Dir"; "Etc"; "parts"]%string) (Some (under dir (etc_apt ++ [bytes_of "apt.conf.d"])))].
Proof.
  intros Hd. assert (∀ x, plain_segb x = true →
    filepath_join [filepath_join [dir; bytes_of "etc"; bytes_of "apt"]; x] = under dir (etc_apt ++ [x])) as Hj.
  { intros x Hx. change [dir; bytes_of "etc"; bytes_of "apt"] with (dir :: etc_apt).
    rewrite (Join_under dir etc_apt) by (try done; by apply plain_check).
    rewrite Join_under; [by apply under_under, plain_check|by apply under_nonempty, plain_check|].
    apply Forall_singleton. by apply plain_segb_spec. }
  unfold loader_text. rewrite !Hj by done.
  set (main := under dir (etc_apt ++ [bytes_of "apt.conf"])). set (parts := under dir (etc_apt ++ [bytes_of "apt.conf.d"])).
  set (items := [value_item "Dir::Etc::main" main; value_item "Dir::Etc::parts" parts]).
  match goal with |- settings (read_conf ?t) = _ => assert (t = serializeAptConfItems 0 items) as -> end.
  { unfold items, serializeAptConfItems. cbn [map concat serialize_item Directive Key IsBlock HasValue Value value_item].
    change (conf_indent 0) with ([] : gostring). cbn [app negb].
    change (streq [] "") with true. change (streq (bytes_of "Dir::Etc::main") "") with false.
    change (streq (bytes_of "Dir::Etc::parts") "") with false. cbn [negb].
    change (bytes_of "Dir::Etc::main ") with (bytes_of "Dir::Etc::main" ++ bytes_of " ").
    change (bytes_of "Dir::Etc::parts ") with (bytes_of "Dir::Etc::parts" ++ bytes_of " ").
    rewrite app_nil_r, <- !app_assoc. done. }
  rewrite reread; [by vm_compute|]. unfold items. repeat (constructor; [|]); try constructor; (split; [by vm_compute|by do 2 eexists]).
Qed.

(** (C34) A private root holds nothing but what the specification asks for: each
    file that was not there before is at one of the known places below the
    directory, a captured file under the last segment of its path, whatever
    path the untrusted snapshot gives, and has the bytes it should: the
    snapshot's status, keyrings and preferences, its sources with their keyrings
    renamed, its configuration filtered, the extra sources, the loader. The
    loader, read as apt does, points at the root's own configuration and nothing
    else; and what apt then reads of a configuration of a fresh root is on the
    allow-list. *)
Theorem root_contents spec t root t' :
  BuildPrivateRoot table_upper host can_mkdir can_write spec t = Ok (root, t') →
  (∃ D, ∀ p d, tr_files t' !! p = Some d → tr_files t !! p = Some d ∨ built spec D p d)
  ∧ pr_AptConfigPath root = under (rs_Dir spec) [bytes_of "debark-apt.conf"]
  ∧ tr_files t' !! pr_AptConfigPath root = Some (loader_text (rs_Dir spec))
  ∧ settings (read_conf (loader_text (rs_Dir spec)))
    = [Keyed (map bytes_of ["Dir"; "Etc"; "main"]%string) (Some (under (rs_Dir spec) (etc_apt ++ [bytes_of "apt.conf"])));
       Keyed (map bytes_of ["Dir"; "Etc"; "parts"]%string) (Some (under (rs_Dir spec) (etc_apt ++ [bytes_of "apt.conf.d"])))]
  ∧ (extras_plain spec → ∀ p d, placed_at (rs_Dir spec) (bytes_of "apt.conf") (bytes_of "apt.conf.d") p →
       tr_files t !! p = None → tr_files t' !! p = Some d → Forall (admitted (rs_AllowProxy spec)) (settings (read_conf d))).
Proof.
  intros Hb. assert (rs_Dir spec ≠ []) as Hd.
  { intros E. unfold BuildPrivateRoot in Hb. by rewrite E in Hb. }
  destruct (build_inv spec Hd _ _ _ Hb) as (t0 & c & t1 & H1 & Hdirs & Hc & H2 & H3 & _ & Hl & _).
  destruct (copied_writes spec Hd _ _ Hdirs Hc) as [D Hw].
  pose proof (build_writes spec Hd _ _ D _ _ _ (H1 D) Hw H2 H3) as [_ Hall].
  assert (∀ p d, tr_files t' !! p = Some d → tr_files t !! p = Some d ∨ built spec D p d) as Hcl.
  { intros p d Hp. destruct (Hall p) as [E|(d' & E & Hbd)]; [left; by rewrite <- E|right]. by simplify_eq. }
  split_and!; [by exists D|done|..].
  - rewrite Hl. apply write_inv in H3 as [_ ->]. cbn. by rewrite lookup_insert_eq.
  - by apply loader_settings.
  - intros He p d Hp Hn Hs. destruct (Hcl p d Hs) as [?|Hbd]; [congruence|].
    destruct (conf_built spec Hd He D p d Hp Hbd) as (s & f & data & _ & _ & ->). apply filtered_admitted.
Qed.

End safe.

(** ** A root built *)

Definition key_text (data : gostring) : gostring := fingerprintHex data.
Definition host_file (ap data : gostring) : gostring * gostring := (bytes_of "/snap/" ++ ap, data).
Definition root_snapshot (keyrings sources conf : list File) : Snapshot :=
  mkSnapshot [] [] (mkTool [] [] []) (mkTarget [] [] [] [] [] [] [] [] [] None)
    (mkAPT sources [] conf [] keyrings) (captured_file "/var/lib/dpkg/status" "status") (mkOrigin [] [] [] [] []) 0 [] ∅ [] [].
Definition root_spec (keys : list gostring) (s : Snapshot) : RootSpec :=
  mkSpec "/work/root" "" "amd64" [bytes_of "i386"; bytes_of "amd64"] true PhasedTargetMachineID "abc" (Some s) "/snap" true keys false
    [mkExtra "debark-external" "deb [trusted=yes] file:///stage ./"].
Definition host_of (l : list (gostring * gostring)) (p : gostring) : option gostring :=
  (list_to_map l : gmap gostring gostring) !! p.
Definition build_root (host : list (gostring * gostring)) (spec : RootSpec) : result root_error (PrivateRoot * tree) :=
  BuildPrivateRoot (λ r, r) (host_of host) (λ _, true) (λ _, true) spec (mkTree ∅ ∅).

Definition sample_host : list (gostring * gostring) := [
  host_file "status" "Package: a"; host_file "k/a.gpg" "GENUINE";
  host_file "s/a.list" "deb [signed-by=/usr/share/keyrings/a.gpg] http://a.example/ stable main";
  host_file "c/90x" "APT::Install-Recommends 0; DPkg::Pre-Invoke { run; };"].
Definition sample_root : RootSpec := root_spec [key_text "GENUINE"]
  (root_snapshot [captured_file "/usr/share/keyrings/a.gpg" "k/a.gpg"] [captured_file "/etc/apt/sources.list.d/a.list" "s/a.list"]
     [captured_file "/etc/apt/apt.conf.d/90x" "c/90x"]).
Definition built_tree (host : list (gostring * gostring)) (spec : RootSpec) : gmap gostring gostring :=
  match build_root host spec with Ok (_, t) => tr_files t | Err _ => ∅ end.

Example sample_root_sources : built_tree sample_host sample_root !! bytes_of "/work/root/etc/apt/sources.list.d/a.list"
  = Some (bytes_of "deb [signed-by=/work/root/etc/apt/trusted.gpg.d/a.gpg] http://a.example/ stable main").
Proof. vm_compute. reflexivity. Qed.

Lemma sample_root_built : match build_root sample_host sample_root with Ok _ => true | Err _ => false end = true.
Proof. vm_compute. reflexivity. Qed.
Lemma root_contents_witness : ∃ root t', build_root sample_host sample_root = Ok (root, t')
  ∧ tr_files t' !! pr_AptConfigPath root = Some (loader_text (rs_Dir sample_root)).
Proof.
  pose proof sample_root_built as Hok. destruct (build_root sample_host sample_root) as [[root t']|e] eqn:E; [|discriminate Hok].
  exists root, t'. split; [done|]. apply (root_contents _ _ _ _ _ _ _ _ E).
Defined.


(** ** Cases worth knowing *)

(** The name a keyring gets when its own is taken is not looked up in turn: a
    keyring that has it already is overwritten. The source stays pinned to that
    file and passes as approved for the key it had; the root holds another. *)
Definition collision_name : gostring :=
  "x-" ++ hex_encode (take 4 (Sha256.sum (bytes_of "/m/x.gpg"))) ++ ".gpg".
Definition collision_host : list (gostring * gostring) := [
  host_file "status" "Package: a"; host_file "k/1" "GENUINE"; host_file "k/2" "OTHER"; host_file "k/3" "EVIL";
  (bytes_of "/snap/s/a.list", "deb [signed-by=/g/" ++ collision_name ++ "] http://a.example/ stable main")].
Definition collision_root : RootSpec := root_spec [key_text "GENUINE"]
  (root_snapshot [captured_file ("/g/" ++ collision_name) "k/1"; captured_file "/n/x.gpg" "k/2"; captured_file "/m/x.gpg" "k/3"]
     [captured_file "/etc/apt/sources.list.d/a.list" "s/a.list"] []).
Example name_collision :
  let pinned_to := "/work/root/etc/apt/trusted.gpg.d/" ++ collision_name in
  built_tree collision_host collision_root !! bytes_of "/work/root/etc/apt/sources.list.d/a.list"
    = Some ("deb [signed-by=" ++ pinned_to ++ "] http://a.example/ stable main")
  ∧ built_tree collision_host collision_root !! pinned_to = Some (bytes_of "EVIL").
Proof. split; vm_compute; reflexivity. Qed.

(** The key of the option may be written with a long s, which Go's expression
    takes for an s: the source counts as pinned, by an option of another name. *)
Definition long_s_text : gostring := "deb [" ++ [chr 197; chr 191] ++ "igned-by=/usr/share/keyrings/a.gpg] http://evil.example/ stable main".
(** A line without a Signed-By is approved along with a pinned one of its file,
    and so is a source told to be trusted without any signature. *)
Definition riding_text : gostring :=
  "deb [signed-by=/usr/share/keyrings/a.gpg] http://a.example/ stable main" ++ newline :: bytes_of "deb http://evil.example/ stable main".
Definition trusted_text : gostring := "deb [trusted=yes signed-by=/usr/share/keyrings/a.gpg] http://evil.example/ ./".
Definition with_source (text : gostring) : list (gostring * gostring) :=
  host_file "s/a.list" text :: sample_host.
Example long_s : built_tree (with_source long_s_text) sample_root !! bytes_of "/work/root/etc/apt/sources.list.d/a.list"
  = Some ("deb [" ++ [chr 197; chr 191] ++ "igned-by=/work/root/etc/apt/trusted.gpg.d/a.gpg] http://evil.example/ stable main").
Proof. vm_compute. reflexivity. Qed.
Example unpinned_line_rides : built_tree (with_source riding_text) sample_root !! bytes_of "/work/root/etc/apt/sources.list.d/a.list"
  = Some ("deb [signed-by=/work/root/etc/apt/trusted.gpg.d/a.gpg] http://a.example/ stable main" ++ newline
          :: bytes_of "deb http://evil.example/ stable main").
Proof. vm_compute. reflexivity. Qed.
Example trusted_source_approved :
  se_Trusted <$> parseSourceEntriesOneLine
    (default [] (built_tree (with_source trusted_text) sample_root !! bytes_of "/work/root/etc/apt/sources.list.d/a.list"))
  = [true].
Proof. vm_compute. reflexivity. Qed.
