(* ===== verification/Manifest.v ===== *)
(** * core/manifest: the signed document of a bundle. *)
From S2P Require Export FsTree JsonFold Canonical.
#[local] Open Scope Z_scope.

(** ** types.go *)

Definition SchemaVersion : gostring := "debark.manifest/v1".
Definition SignatureSchemaVersion : gostring := "debark.signature/v1".
Definition FileName : gostring := "debark.manifest.json".
Definition SigFileName : gostring := "debark.manifest.sig".
Definition CurrentFormatVersion : Z := 1.
Definition SignerEd25519File : gostring := "ed25519-file".
Definition SignerGPG : gostring := "gpg".
Definition SignerPluginPrefix : gostring := "plugin:".
Definition SignPurpose : gostring := "debark.manifest/v1".

Record Tool := mkTool { tl_Name : gostring; tl_Version : gostring; tl_BuildDigest : gostring; tl_Edition : gostring }.
Record Target := mkTarget {
  tg_DistroID : gostring; tg_VersionID : gostring; tg_Codename : gostring; tg_Arch : gostring;
  tg_ForeignArchs : list gostring
}.
Record Repository := mkRepository {
  rp_PackagesSHA256 : gostring; rp_PackagesGzSHA256 : gostring; rp_ReleaseSHA256 : gostring;
  rp_InReleaseSHA256 : gostring; rp_ReleaseGPGSHA256 : gostring; rp_PackageCount : Z; rp_PoolBytes : Z
}.
Record File := mkFile { f_Path : gostring; f_Size : Z; f_SHA256 : gostring }.
Record Manifest := mkManifest {
  m_SchemaVersion : gostring; m_BundleID : gostring; m_CreatedAt : gostring; m_FormatVersion : Z;
  m_Tool : Tool; m_SnapshotDigest : gostring; m_LockDigest : gostring; m_Repository : Repository;
  m_Files : list File; m_Target : Target; m_SBOMRef : gostring; m_EvidenceRef : gostring
}.
Record Signature := mkSignature {
  sg_SignerKind : gostring; sg_KeyID : gostring; sg_Algorithm : gostring; sg_CreatedAt : gostring;
  sg_Signature : gostring; sg_Comment : gostring
}.
Record SignatureFile := mkSignatureFile {
  sf_Schema : gostring; sf_ManifestSHA256 : gostring; sf_Signatures : list Signature
}.

#[export] Instance File_eq_dec : EqDecision File.
Proof. solve_decision. Defined.

(** ** JSON *)

Definition enc_Tool (t : Tool) : json := enc_struct [
  (bytes_of "name", enc_string (tl_Name t)); (bytes_of "version", enc_string (tl_Version t));
  (bytes_of "build_digest", omit_string (tl_BuildDigest t)); (bytes_of "edition", enc_string (tl_Edition t))].
Definition enc_Target (t : Target) : json := enc_struct [
  (bytes_of "distro_id", enc_string (tg_DistroID t)); (bytes_of "version_id", enc_string (tg_VersionID t));
  (bytes_of "codename", enc_string (tg_Codename t)); (bytes_of "arch", enc_string (tg_Arch t));
  (bytes_of "foreign_archs", omit_slice JStr (tg_ForeignArchs t))].
Definition enc_Repository (r : Repository) : json := enc_struct [
  (bytes_of "packages_sha256", enc_string (rp_PackagesSHA256 r));
  (bytes_of "packages_gz_sha256", omit_string (rp_PackagesGzSHA256 r));
  (bytes_of "release_sha256", enc_string (rp_ReleaseSHA256 r));
  (bytes_of "inrelease_sha256", omit_string (rp_InReleaseSHA256 r));
  (bytes_of "release_gpg_sha256", omit_string (rp_ReleaseGPGSHA256 r));
  (bytes_of "package_count", enc_int (rp_PackageCount r)); (bytes_of "pool_bytes", enc_int (rp_PoolBytes r))].
Definition enc_File (f : File) : json := enc_struct [
  (bytes_of "path", enc_string (f_Path f)); (bytes_of "size", enc_int (f_Size f));
  (bytes_of "sha256", enc_string (f_SHA256 f))].
Definition enc_Manifest (m : Manifest) : json := enc_struct [
  (bytes_of "schema_version", enc_string (m_SchemaVersion m)); (bytes_of "bundle_id", enc_string (m_BundleID m));
  (bytes_of "created_at", enc_string (m_CreatedAt m)); (bytes_of "format_version", enc_int (m_FormatVersion m));
  (bytes_of "tool", Some (enc_Tool (m_Tool m))); (bytes_of "snapshot_digest", enc_string (m_SnapshotDigest m));
  (bytes_of "lock_digest", enc_string (m_LockDigest m));
  (bytes_of "repository", Some (enc_Repository (m_Repository m)));
  (bytes_of "files", enc_slice enc_File (m_Files m)); (bytes_of "target", Some (enc_Target (m_Target m)));
  (bytes_of "sbom_ref", omit_string (m_SBOMRef m)); (bytes_of "evidence_ref", omit_string (m_EvidenceRef m))].

Section decode.
Context `{UnicodeTables}.

Definition into_Tool : into Tool := into_struct (λ ms o,
  a ← into_field into_string ms "name" (tl_Name o); b ← into_field into_string ms "version" (tl_Version o);
  c ← into_field into_string ms "build_digest" (tl_BuildDigest o);
  d ← into_field into_string ms "edition" (tl_Edition o); Ok (mkTool a b c d)).
Definition into_Target : into Target := into_struct (λ ms o,
  a ← into_field into_string ms "distro_id" (tg_DistroID o);
  b ← into_field into_string ms "version_id" (tg_VersionID o);
  c ← into_field into_string ms "codename" (tg_Codename o); d ← into_field into_string ms "arch" (tg_Arch o);
  e ← into_field (into_slice into_string []) ms "foreign_archs" (tg_ForeignArchs o);
  Ok (mkTarget a b c d e)).
Definition into_Repository : into Repository := into_struct (λ ms o,
  a ← into_field into_string ms "packages_sha256" (rp_PackagesSHA256 o);
  b ← into_field into_string ms "packages_gz_sha256" (rp_PackagesGzSHA256 o);
  c ← into_field into_string ms "release_sha256" (rp_ReleaseSHA256 o);
  d ← into_field into_string ms "inrelease_sha256" (rp_InReleaseSHA256 o);
  e ← into_field into_string ms "release_gpg_sha256" (rp_ReleaseGPGSHA256 o);
  f ← into_field into_int64 ms "package_count" (rp_PackageCount o);
  g ← into_field into_int64 ms "pool_bytes" (rp_PoolBytes o); Ok (mkRepository a b c d e f g)).
Definition into_File : into File := into_struct (λ ms o,
  a ← into_field into_string ms "path" (f_Path o); b ← into_field into_int64 ms "size" (f_Size o);
  c ← into_field into_string ms "sha256" (f_SHA256 o); Ok (mkFile a b c)).
Definition zero_File : File := mkFile [] 0 [].
Definition into_Manifest : into Manifest := into_struct (λ ms o,
  a ← into_field into_string ms "schema_version" (m_SchemaVersion o);
  b ← into_field into_string ms "bundle_id" (m_BundleID o);
  c ← into_field into_string ms "created_at" (m_CreatedAt o);
  d ← into_field into_int64 ms "format_version" (m_FormatVersion o);
  e ← into_field into_Tool ms "tool" (m_Tool o);
  f ← into_field into_string ms "snapshot_digest" (m_SnapshotDigest o);
  g ← into_field into_string ms "lock_digest" (m_LockDigest o);
  h ← into_field into_Repository ms "repository" (m_Repository o);
  i ← into_field (into_slice into_File zero_File) ms "files" (m_Files o);
  j ← into_field into_Target ms "target" (m_Target o);
  k ← into_field into_string ms "sbom_ref" (m_SBOMRef o);
  l ← into_field into_string ms "evidence_ref" (m_EvidenceRef o);
  Ok (mkManifest a b c d e f g h i j k l)).
Definition zero_Manifest : Manifest :=
  mkManifest [] [] [] 0 (mkTool [] [] [] []) [] [] (mkRepository [] [] [] [] [] 0 0) []
    (mkTarget [] [] [] [] []) [] [].

Definition into_Signature : into Signature := into_struct (λ ms o,
  a ← into_field into_string ms "signer_kind" (sg_SignerKind o);
  b ← into_field into_string ms "key_id" (sg_KeyID o);
  c ← into_field into_string ms "algorithm" (sg_Algorithm o);
  d ← into_field into_string ms "created_at" (sg_CreatedAt o);
  e ← into_field into_string ms "signature" (sg_Signature o);
  f ← into_field into_string ms "comment" (sg_Comment o); Ok (mkSignature a b c d e f)).
Definition zero_Signature : Signature := mkSignature [] [] [] [] [] [].
Definition into_SignatureFile : into SignatureFile := into_struct (λ ms o,
  a ← into_field into_string ms "schema" (sf_Schema o);
  b ← into_field into_string ms "manifest_sha256" (sf_ManifestSHA256 o);
  c ← into_field (into_slice into_Signature zero_Signature) ms "signatures" (sf_Signatures o);
  Ok (mkSignatureFile a b c)).
End decode.

(** ** Paths *)

Inductive path_error :=
| PathEmpty | PathTooLong | PathNotUTF8 | PathBackslash | PathControl (c : ascii)
| PathAbsolute | PathDrive | PathEscapes | PathNotClean (cleaned : gostring).

Definition path_byte (c : ascii) : option path_error :=
  if beq c "\" then Some PathBackslash else if is_control c then Some (PathControl c) else None.

Definition checkFilePath (p : gostring) : option path_error :=
  if streq p "" then Some PathEmpty
  else if (4096 <? length p)%nat then Some PathTooLong
  else if negb (utf8_valid p) then Some PathNotUTF8
  else match first_err path_byte p with
  | Some e => Some e
  | None =>
      if has_prefix "/" p then Some PathAbsolute
      else if drive_letter p then Some PathDrive
      else if streq p "." || streq p ".." || streq p "./" || has_prefix "../" p then Some PathEscapes
      else let cleaned := path_clean p in
           if negb (streq cleaned p) then Some (PathNotClean cleaned) else None
  end.

(** ** checkDocument, NewBundleID, Build *)

Inductive document_error :=
| NoFilesKey
| BadPath (i : Z) (e : path_error)
| PathTwice (i : Z) (path : gostring)
| SizeNegative (i : Z) (path : gostring) (size : Z)
| BadDigest (i : Z) (path sha256 : gostring).

Fixpoint files_loop (seen : gset gostring) (i : Z) (files : list File) : option document_error :=
  match files with
  | [] => None
  | f :: rest =>
      match checkFilePath (f_Path f) with
      | Some e => Some (BadPath i e)
      | None =>
          if bool_decide (f_Path f ∈ seen) then Some (PathTwice i (f_Path f))
          else if f_Size f <? 0 then Some (SizeNegative i (f_Path f) (f_Size f))
          else if negb (Valid (f_SHA256 f)) then Some (BadDigest i (f_Path f) (f_SHA256 f))
          else files_loop ({[f_Path f]} ∪ seen) (i + 1) rest
      end
  end.

(** [top] holds the member names of the raw document. *)
Definition checkDocument (m : Manifest) (top : list gostring) : option document_error :=
  if negb (existsb (λ k, streq k "files") top) then Some NoFilesKey else files_loop ∅ 0 (m_Files m).

Definition bundleIDInput (lockDigest createdAt : gostring) : json := enc_struct [
  (bytes_of "lock_digest", enc_string lockDigest); (bytes_of "created_at", enc_string createdAt)].
Definition NewBundleID `{JCS} (lockDigest createdAt : gostring) : gostring :=
  match Canonical.Digest (bundleIDInput lockDigest createdAt) with
  | Err _ => []
  | Ok d => if (length d <? 16)%nat then d else take 16 d
  end.

Record BuildInput := mkBuildInput {
  bi_Dir : gostring; bi_SnapshotDigest : gostring; bi_LockDigest : gostring; bi_Repository : Repository;
  bi_Target : Target; bi_Tool : Tool; bi_CreatedAt : gostring; bi_SBOMRef : gostring; bi_EvidenceRef : gostring
}.

Inductive build_error :=
| DirRequired | StatDir | NotADirectory
| WalkFailed (path err : gostring)
| UnlistablePath (path : gostring) (e : path_error)
| HashFailed (path err : gostring).

(** The walk function of [Build] over the visits; the first error ends it. *)
Fixpoint build_walk (visits : list visit) : result build_error (list File) :=
  match visits with
  | [] => Ok []
  | VDir _ :: rest => build_walk rest
  | VError rel e :: _ => Err (WalkFailed rel e)
  | VFile rel _ _ content :: rest =>
      if streq rel FileName || streq rel SigFileName then build_walk rest
      else match checkFilePath rel with
      | Some e => Err (UnlistablePath rel e)
      | None =>
          match SHA256File content with
          | Err e => Err (HashFailed rel e)
          | Ok (sum, size) => fs ← build_walk rest; Ok (mkFile rel size sum :: fs)
          end
      end
  end.

Definition path_leb (a b : File) : bool := str_leb (f_Path a) (f_Path b).

(** [dir] is what [os.Stat] finds at [in.Dir]. *)
Definition Build `{JCS} (inp : BuildInput) (dir : option fsnode) : result build_error Manifest :=
  if streq (bi_Dir inp) "" then Err DirRequired
  else match dir with
  | None => Err StatDir
  | Some (FFile _ _ _) => Err NotADirectory
  | Some root =>
      files ← build_walk (walk [] root);
      Ok (mkManifest SchemaVersion (NewBundleID (bi_LockDigest inp) (bi_CreatedAt inp)) (bi_CreatedAt inp)
        CurrentFormatVersion (bi_Tool inp) (bi_SnapshotDigest inp) (bi_LockDigest inp) (bi_Repository inp)
        (sort_by path_leb files) (bi_Target inp) (bi_SBOMRef inp) (bi_EvidenceRef inp))
  end.

(** ** Load *)

Definition maxManifestSize : Z := 16 * 2 ^ 20.

Inductive load_error :=
| NotExist
| ReadError (err : gostring)
| TooBig
| ParseError
| SchemaKeyMissing
| UnsupportedSchema (version : gostring)
| BadDocument (e : document_error)
| NotCanonical (e : canonical_error).

(** [errors.Is(err, ErrUnknownSchema)]. *)
Definition is_unknown_schema (e : load_error) : bool :=
  match e with SchemaKeyMissing | UnsupportedSchema _ => true | _ => false end.

Definition top_keys (v : json) : option (list gostring) :=
  match v with
  | JNull => Some []
  | JObj members => Some (map fst members)
  | _ => None
  end.

Section load.
Context `{UnicodeTables} `{JCS}.

(** [readBounded] of what opening and reading the file gives. *)
Definition readBounded (file : option (result gostring gostring)) : result load_error gostring :=
  match file with
  | None => Err NotExist
  | Some (Err e) => Err (ReadError e)
  | Some (Ok raw) => if maxManifestSize <? Z.of_nat (length raw) then Err TooBig else Ok raw
  end.

Definition Load (file : option (result gostring gostring)) : result load_error (Manifest * gostring) :=
  raw ← readBounded file;
  match json_parse raw with
  | None => Err ParseError
  | Some doc =>
      match top_keys doc, into_Manifest doc zero_Manifest with
      | None, _ | _, Err _ => Err ParseError
      | Some top, Ok m =>
          if negb (existsb (λ k, streq k "schema_version") top) then Err SchemaKeyMissing
          else if negb (streq (m_SchemaVersion m) SchemaVersion) then Err (UnsupportedSchema (m_SchemaVersion m))
          else match checkDocument m top with
          | Some e => Err (BadDocument e)
          | None =>
              match Transform raw with
              | Err e => Err (NotCanonical e)
              | Ok canon => Ok (m, canon)
              end
          end
      end
  end.

(** A missing signature file is no error. *)
Definition LoadSignature (file : option (result gostring gostring)) : result load_error (option SignatureFile) :=
  match file with
  | None => Ok None
  | Some (Err e) => Err (ReadError e)
  | Some (Ok raw) =>
      match json_parse raw with
      | None => Err ParseError
      | Some doc =>
          match into_SignatureFile doc (mkSignatureFile [] [] []) with
          | Err _ => Err ParseError
          | Ok sig =>
              if negb (streq (sf_Schema sig) SignatureSchemaVersion) then Err (UnsupportedSchema (sf_Schema sig))
              else Ok (Some sig)
          end
      end
  end.
End load.

(** [Save]: the bytes it writes. *)
Definition Save (m : Manifest) : result canonical_error gostring := MarshalIndent (enc_Manifest m).

(** ** Paths: the specification *)

Lemma path_byte_None p : first_err path_byte p = None ↔ plain_bytes p = true.
Proof.
  rewrite first_err_None. unfold plain_bytes. rewrite forallb_forall.
  assert (∀ c, path_byte c = None ↔ negb (beq c "\" || is_control c) = true) as H.
  { intros c. unfold path_byte. destruct (beq c "\"), (is_control c); simpl; naive_solver. }
  split; intros Hp c Hc; apply H, Hp; by apply list_elem_of_In.
Qed.

Lemma checkFilePath_None p :
  checkFilePath p = None ↔ bundle_path p ∧ (length p ≤ 4096)%nat ∧ utf8_valid p = true.
Proof.
  unfold checkFilePath, bundle_path. split.
  - intros H. guards. apply path_byte_None in G2. rewrite !orb_false_iff, !streq_false_iff in *.
    destruct G5 as [[[? ?] _] ?]. apply Nat.ltb_ge in G0. bsplit. apply streq_true in G6.
    split_and!; try done. by apply clean_safe_path.
  - intros ((Hs & Hp & Hd) & Hl & Hu).
    rewrite (streq_false p "") by (by apply safe_path_nonempty).
    rewrite (proj2 (Nat.ltb_ge _ _)), Hu by done. cbn [negb].
    rewrite (proj2 (path_byte_None p) Hp), (safe_path_not_rooted p Hs : has_prefix "/" p = false), Hd.
    rewrite (safe_path_clean p Hs), streq_refl. cbn [negb].
    assert (∀ q, ¬ safe_path q → streq p q = false) as Hne by (intros q Hq; apply streq_false; congruence).
    rewrite !Hne by (by apply (bool_decide_unpack _); vm_compute).
    destruct (has_prefix "../" p) eqn:E; [|done]. exfalso.
    apply has_prefix_spec in E as [r ->]. unfold safe_path in Hs.
    change (bytes_of "../" ++ r) with ((bytes_of "..") ++ slash :: r) in Hs.
    rewrite split_app_sep in Hs by (by apply (bool_decide_unpack _); vm_compute).
    apply Forall_cons in Hs as [(_ & _ & ?) _]. done.
Qed.

(** ** checkDocument: the specification *)

Definition file_wf (f : File) : Prop :=
  checkFilePath (f_Path f) = None ∧ 0 ≤ f_Size f ∧ Valid (f_SHA256 f) = true.
Definition files_wf (files : list File) : Prop := Forall file_wf files ∧ NoDup (map f_Path files).

Lemma files_loop_None files : ∀ seen i,
  files_loop seen i files = None ↔
  Forall file_wf files ∧ NoDup (map f_Path files) ∧ ∀ f, f ∈ files → f_Path f ∉ seen.
Proof.
  induction files as [|f files IH]; intros seen i; cbn [files_loop map].
  - split; [|done]. intros _. split_and!; [constructor|constructor|by intros ? ?%elem_of_nil].
  - rewrite Forall_cons, NoDup_cons. unfold file_wf at 1.
    destruct (checkFilePath (f_Path f)); [naive_solver|].
    case_bool_decide as Hs.
    { split; [done|]. intros (_ & _ & H). by destruct (H f (list_elem_of_here _ _)). }
    destruct (Z.ltb_spec (f_Size f) 0); [split; [done|intros ([(_ & ? & _) _] & _); lia]|].
    destruct (Valid (f_SHA256 f)); simpl; [|naive_solver].
    rewrite IH. split.
    + intros (H1 & H2 & H3). split_and!; try done.
      * intros (g & Hg & Hin)%list_elem_of_fmap. apply (H3 g Hin). rewrite <- Hg. set_solver.
      * intros g [->|Hg]%elem_of_cons; [done|]. specialize (H3 g Hg). set_solver.
    + intros ([_ H1] & [H2 H3] & H4). split_and!; try done.
      intros g Hg [E%elem_of_singleton|Hin]%elem_of_union; [|by apply (H4 g); [right|]].
      apply H2. rewrite <- E. by apply list_elem_of_fmap_2.
Qed.

Lemma checkDocument_None m top :
  checkDocument m top = None ↔ bytes_of "files" ∈ top ∧ files_wf (m_Files m).
Proof.
  unfold checkDocument, files_wf. destruct (existsb _ top) eqn:E; simpl.
  - apply existsb_exists in E as (k & Hk & E). apply list_elem_of_In in Hk. apply streq_true in E as ->.
    rewrite files_loop_None. split; [naive_solver|]. intros (_ & ? & ?). split_and!; try done.
  - split; [done|]. intros [H _]. exfalso. apply not_true_iff_false in E. apply E.
    apply existsb_exists. exists (bytes_of "files"). rewrite streq_refl. by apply list_elem_of_In in H.
Qed.

(** ** Build: the specification *)

(** The manifest entry of a file of the tree. *)
Definition file_of (rel content : gostring) : File := mkFile rel (Z.of_nat (length content)) (Bytes content).
Definition own_name (rel : gostring) : Prop := rel = FileName ∨ rel = SigFileName.
#[export] Instance own_name_dec rel : Decision (own_name rel) := _.

Lemma build_walk_Ok visits : ∀ files,
  build_walk visits = Ok files →
  (∀ rel e, VError rel e ∉ visits) ∧
  map f_Path files = List.filter (λ rel, negb (bool_decide (own_name rel))) (file_paths visits) ∧
  (∀ f, f ∈ files ↔ ∃ mode info content, VFile (f_Path f) mode info (Ok content) ∈ visits ∧
     ¬ own_name (f_Path f) ∧ f = file_of (f_Path f) content) ∧
  (∀ rel mode info content, VFile rel mode info content ∈ visits → ¬ own_name rel →
     checkFilePath rel = None ∧ ∃ b, content = Ok b).
Proof.
  unfold own_name.
  induction visits as [|[rel|rel e|rel mode info content] visits IH]; intros files; cbn [build_walk].
  - intros [= <-]. split_and!; [set_solver|done|set_solver|set_solver].
  - intros H. destruct (IH _ H) as (H1 & H2 & H3 & H4). split_and!; [set_solver|done| |set_solver].
    intros f. rewrite H3. set_solver.
  - done.
  - destruct (streq rel FileName || streq rel SigFileName) eqn:E.
    + apply orb_true_iff in E. rewrite !streq_true in E. intros H.
      destruct (IH _ H) as (H1 & H2 & H3 & H4). split_and!; [set_solver| | |].
      * unfold file_paths in *. cbn [omap list_omap List.filter]. by rewrite bool_decide_eq_true_2.
      * intros f. rewrite H3. split.
        -- intros (m & i & c & Hin & ?). exists m, i, c. split; [by right|done].
        -- intros (m & i & c & [Hin|Hin]%elem_of_cons & Hn & Hf); [|eauto 10]. simplify_eq. done.
      * intros r m i c [Hin|Hin]%elem_of_cons Hn; [simplify_eq; done|eauto].
    + apply orb_false_iff in E. rewrite !streq_false_iff in E.
      destruct (checkFilePath rel) eqn:Ep; [done|]. destruct content as [b|err]; [|done]. cbn [SHA256File].
      destruct (build_walk visits) as [fs|] eqn:Eb; [|done]. intros [= <-].
      destruct (IH _ eq_refl) as (H1 & H2 & H3 & H4). split_and!; [set_solver| | |].
      * unfold file_paths in *. cbn [omap list_omap List.filter map f_Path].
        rewrite bool_decide_eq_false_2 by tauto. simpl. by rewrite H2.
      * intros f. rewrite elem_of_cons, H3. split.
        -- intros [->|(m & i & c & Hin & ?)]; [|exists m, i, c; split; [by right|done]].
           exists mode, info, b. split_and!; [by left|simpl; tauto|done].
        -- intros (m & i & c & [Hin|Hin]%elem_of_cons & Hn & Hf); [left; rewrite Hf; by simplify_eq|eauto 10].
      * intros r m i c [Hin|Hin]%elem_of_cons Hn; [simplify_eq; eauto|eauto].
Qed.

Lemma Build_files `{JCS} inp root m :
  Build inp (Some root) = Ok m → ∃ fail entries files,
    root = FDir fail entries ∧ build_walk (walk [] root) = Ok files ∧ m_Files m = sort_by path_leb files ∧
    m_SchemaVersion m = SchemaVersion.
Proof.
  unfold Build. destruct (streq _ _); [done|]. destruct root as [|fail entries]; [done|].
  destruct (build_walk _) as [files|] eqn:E; [|done]. intros [= <-]. exists fail, entries, files. done.
Qed.

Lemma Build_listed `{JCS} inp fail entries m f :
  fs_wf (FDir fail entries) → Build inp (Some (FDir fail entries)) = Ok m →
  f ∈ m_Files m ↔ ∃ b, read_file (FDir fail entries) (f_Path f) = Some (Ok b) ∧ ¬ own_name (f_Path f) ∧
    f = file_of (f_Path f) b.
Proof.
  intros Hwf HB. destruct (Build_files _ _ _ HB) as (fail' & es & files & [= <- <-] & Hw & -> & _).
  destruct (build_walk_Ok _ _ Hw) as (_ & _ & Hin & _). rewrite elem_of_sort_by, Hin. clear Hin. split.
  - intros (mode & info & b & Hin & ?). exists b. split; [|done]. apply walk_read_file; eauto.
  - intros (b & Hr & ?). apply walk_read_file in Hr as (mode & info & Hin); [|done]. by exists mode, info, b.
Qed.

Lemma NoDup_filter_bool {A} (f : A → bool) l : NoDup l → NoDup (List.filter f l).
Proof.
  induction 1 as [|x l Hx Hl IH]; cbn [List.filter]; [constructor|].
  destruct (f x); [|done]. constructor; [|done]. rewrite list_elem_of_In, filter_In, <- list_elem_of_In. tauto.
Qed.

Lemma Build_files_wf `{JCS} inp fail entries m :
  fs_wf (FDir fail entries) → Build inp (Some (FDir fail entries)) = Ok m → files_wf (m_Files m).
Proof.
  intros Hwf HB. destruct (Build_files _ _ _ HB) as (fail' & es & files & [= <- <-] & Hw & -> & _).
  destruct (build_walk_Ok _ _ Hw) as (_ & Hp & H3 & H4). split.
  - apply Forall_forall. intros f (mode & info & b & Hin & Hn & Hf)%elem_of_sort_by%H3.
    destruct (H4 _ _ _ _ Hin Hn) as [Hc _]. split; [done|]. rewrite Hf. simpl. split; [lia|apply Bytes_Valid].
  - rewrite (Permutation_map f_Path (sort_by_perm path_leb files)), Hp.
    apply NoDup_filter_bool. by apply (walk_NoDup _ []).
Qed.
Lemma path_leb_total a b : path_leb a b = true ∨ path_leb b a = true.
Proof. apply str_leb_total. Qed.
Lemma path_leb_trans a b c : path_leb a b = true → path_leb b c = true → path_leb a c = true.
Proof. apply str_leb_trans. Qed.

(** A built manifest lists exactly the readable files of the tree other
    than the manifest and its signature: each once, in path order, under a path
    a loader accepts, with its true size and SHA-256; and Build fails rather
    than leave out a file it cannot name or read. *)
Theorem Build_spec `{JCS} (inp : BuildInput) (fail : option gostring) (entries : list (gostring * fsnode)) (m : Manifest) :
  let root := FDir fail entries in
  fs_wf root → Build inp (Some root) = Ok m →
  fail = None ∧
  StronglySorted (leR path_leb) (m_Files m) ∧ files_wf (m_Files m) ∧
  (∀ f, f ∈ m_Files m ↔ ∃ b, read_file root (f_Path f) = Some (Ok b) ∧ ¬ own_name (f_Path f) ∧
     f = file_of (f_Path f) b) ∧
  (∀ path content, read_file root path = Some content → ¬ own_name path → ∃ f, f ∈ m_Files m ∧ f_Path f = path).
Proof.
  intros root Hwf HB. destruct (Build_files _ _ _ HB) as (fail' & es & files & E & Hw & Hm & _).
  destruct (build_walk_Ok _ _ Hw) as (Herr & _ & _ & H4). injection E as <- <-.
  split_and!.
  - destruct fail as [e|]; [|done]. exfalso. apply (Herr [] e). right. by left.
  - rewrite Hm. apply sort_by_sorted; [apply path_leb_total|apply path_leb_trans].
  - by eapply Build_files_wf.
  - intros f. by eapply Build_listed.
  - intros path content Hr Hn. pose proof Hr as Hr'. apply walk_read_file in Hr' as (mode & info & Hin); [|done].
    destruct (H4 _ _ _ _ Hin Hn) as [_ [b ->]].
    exists (file_of path b). split; [|done]. by apply (Build_listed _ _ _ _ _ Hwf HB); exists b.
Qed.

(** ** Save and Load *)

Section round_trip.
Context `{UnicodeTables} `{JCS}.

(** Every field of an encoded struct decodes to itself. *)
Ltac fold_values :=
  fold_fields;
  repeat first
    [ rewrite into_enc_string | rewrite into_omit_string | rewrite into_omit_strings
    | rewrite into_enc_int by assumption ].

Lemma into_enc_Tool t : into_Tool (enc_Tool t) (mkTool [] [] [] []) = Ok t.
Proof. unfold into_Tool, enc_Tool, enc_struct, into_struct. cbn [tl_Name tl_Version tl_BuildDigest tl_Edition]. fold_values. by destruct t. Qed.
Lemma into_enc_Target t : into_Target (enc_Target t) (mkTarget [] [] [] [] []) = Ok t.
Proof.
  unfold into_Target, enc_Target, enc_struct, into_struct.
  cbn [tg_DistroID tg_VersionID tg_Codename tg_Arch tg_ForeignArchs]. fold_values. by destruct t.
Qed.
Lemma into_enc_Repository r :
  int64 (rp_PackageCount r) → int64 (rp_PoolBytes r) →
  into_Repository (enc_Repository r) (mkRepository [] [] [] [] [] 0 0) = Ok r.
Proof.
  intros ??. unfold into_Repository, enc_Repository, enc_struct, into_struct.
  cbn [rp_PackagesSHA256 rp_PackagesGzSHA256 rp_ReleaseSHA256 rp_InReleaseSHA256 rp_ReleaseGPGSHA256 rp_PackageCount rp_PoolBytes].
  fold_values. by destruct r.
Qed.
Lemma into_enc_File f : int64 (f_Size f) → into_File (enc_File f) zero_File = Ok f.
Proof.
  intros ?. unfold into_File, enc_File, enc_struct, into_struct, zero_File. cbn [f_Path f_Size f_SHA256].
  fold_values. by destruct f.
Qed.

(** The integer fields hold 64-bit values. *)
Definition Manifest_int64 (m : Manifest) : Prop :=
  int64 (m_FormatVersion m) ∧ int64 (rp_PackageCount (m_Repository m)) ∧ int64 (rp_PoolBytes (m_Repository m)) ∧
  Forall (λ f, int64 (f_Size f)) (m_Files m).

Lemma into_all_one {A} (f : into A) v old x : f v old = Ok x → into_all f [v] old = Ok x.
Proof. intros H1. simpl. by rewrite H1. Qed.

Lemma into_enc_Manifest m : Manifest_int64 m → into_Manifest (enc_Manifest m) zero_Manifest = Ok m.
Proof.
  intros (? & H1 & H2 & Hf). unfold into_Manifest, enc_Manifest, enc_struct, into_struct, zero_Manifest.
  cbn [m_SchemaVersion m_BundleID m_CreatedAt m_FormatVersion m_Tool m_SnapshotDigest m_LockDigest m_Repository
    m_Files m_Target m_SBOMRef m_EvidenceRef].
  fold_values.
  rewrite (into_all_one _ _ _ _ (into_enc_Tool _)), (into_all_one _ _ _ _ (into_enc_Target _)).
  rewrite (into_all_one _ _ _ _ (into_enc_Repository _ H1 H2)).
  rewrite (into_enc_slice into_File) by (intros f Hin; rewrite Forall_forall in Hf; apply into_enc_File; auto).
  cbn [mbind result_bind]. fold_values. by destruct m.
Qed.

Lemma small_File f : int64 (f_Size f) → small_value 1 (enc_File f).
Proof. intros ?. small_leaves. Qed.
Lemma small_Manifest m : Manifest_int64 m → small_value 3 (enc_Manifest m).
Proof.
  intros (? & H1 & H2 & Hf). rewrite Forall_forall in Hf.
  assert (small_value 2 (enc_Tool (m_Tool m))) by small_leaves.
  assert (small_value 2 (enc_Target (m_Target m))) by small_leaves.
  assert (small_value 2 (enc_Repository (m_Repository m))) by small_leaves.
  apply small_struct.
  each_field ltac:(first
    [ small_leaf
    | split; [reflexivity|]; injection Hv as <-; assumption
    | split; [reflexivity|]; eapply small_slice; [left; exact Hv|]; intros f Hin; apply small_File, Hf, Hin ]).
Qed.

(** (C20) A manifest whose files a loader accepts, written by Save, loads back
    as the same manifest together with the canonical bytes of the text, for
    every canonicaliser that accepts it: no field is lost to the encoder, to
    the case-folding decoder or to the document checks. *)
Theorem Manifest_roundtrip (m : Manifest) (out canon : gostring) :
  Manifest_int64 m → m_SchemaVersion m = SchemaVersion → files_wf (m_Files m) →
  Save m = Ok out → Z.of_nat (length out) ≤ maxManifestSize → Transform out = Ok canon →
  Load (Some (Ok out)) = Ok (m, canon).
Proof.
  intros Hi Hs Hf Hsave Hlen Ht. destruct (small_Manifest m Hi) as [Hg Hd].
  assert (json_parse out = Some (enc_Manifest m)) as Hp
    by (apply MarshalIndent_parse; [done|unfold max_depth; lia|done]).
  unfold Load, readBounded. rewrite (proj2 (Z.ltb_ge _ _) Hlen). cbn [mbind result_bind].
  rewrite Hp, into_enc_Manifest by done.
  assert (top_keys (enc_Manifest m) = Some (map fst (present [
    (bytes_of "schema_version", enc_string (m_SchemaVersion m)); (bytes_of "bundle_id", enc_string (m_BundleID m));
    (bytes_of "created_at", enc_string (m_CreatedAt m)); (bytes_of "format_version", enc_int (m_FormatVersion m));
    (bytes_of "tool", Some (enc_Tool (m_Tool m))); (bytes_of "snapshot_digest", enc_string (m_SnapshotDigest m));
    (bytes_of "lock_digest", enc_string (m_LockDigest m));
    (bytes_of "repository", Some (enc_Repository (m_Repository m)));
    (bytes_of "files", enc_slice enc_File (m_Files m)); (bytes_of "target", Some (enc_Target (m_Target m)));
    (bytes_of "sbom_ref", omit_string (m_SBOMRef m)); (bytes_of "evidence_ref", omit_string (m_EvidenceRef m))])))
    as -> by done.
  rewrite Hs, streq_refl. cbn [negb present enc_string map fst existsb enc_int enc_slice].
  rewrite streq_refl. cbn [orb negb].
  rewrite (proj2 (checkDocument_None m _)); [by rewrite Ht|]. split; [|done].
  cbn [present map fst]. set_solver.
Qed.
End round_trip.

(** A bundle of two payload files next to its own manifest. *)
Definition sample_jcs : JCS := {| jcs_Transform := λ raw, Ok raw |}.
Definition sample_entries : list (gostring * fsnode) :=
  [(FileName, FFile [] (Ok 2) (Ok (bytes_of "{}")));
   (bytes_of "lock.json", FFile [] (Ok 3) (Ok (bytes_of "abc")));
   (bytes_of "repo", FDir None [(bytes_of "Packages", FFile [] (Ok 0) (Ok []))])].
Definition sample_root : fsnode := FDir None sample_entries.
Definition sample_input : BuildInput :=
  mkBuildInput "/tmp/b" [] [] (mkRepository [] [] [] [] [] 1 3) (mkTarget [] [] [] [] []) (mkTool [] [] [] []) [] [] [].
Definition sample_manifest : Manifest :=
  match @Build sample_jcs sample_input (Some sample_root) with Ok m => m | Err _ => zero_Manifest end.
Definition sample_text : gostring := match Save sample_manifest with Ok out => out | Err _ => [] end.

Lemma sample_root_wf : fs_wf sample_root.
Proof.
  constructor; [apply (bool_decide_unpack _); by vm_compute|apply (bool_decide_unpack _); by vm_compute|].
  intros ne. unfold sample_entries. rewrite !elem_of_cons. intros [->|[->|[->|H]]]; [constructor|constructor| |by apply elem_of_nil in H].
  constructor; [apply (bool_decide_unpack _); by vm_compute|apply (bool_decide_unpack _); by vm_compute|].
  intros ne ->%list_elem_of_singleton. constructor.
Qed.

Lemma Build_spec_witness :
  @Build sample_jcs sample_input (Some sample_root) = Ok sample_manifest ∧ files_wf (m_Files sample_manifest) ∧
  map f_Path (m_Files sample_manifest) = [bytes_of "lock.json"; bytes_of "repo/Packages"].
Proof.
  assert (@Build sample_jcs sample_input (Some sample_root) = Ok sample_manifest) as H by (by vm_compute).
  split; [exact H|]. split; [|by vm_compute].
  exact (proj1 (proj2 (proj2 (@Build_spec sample_jcs sample_input None sample_entries sample_manifest sample_root_wf H)))).
Defined.

Lemma Manifest_roundtrip_witness :
  Save sample_manifest = Ok sample_text ∧
  @Load ascii_tables sample_jcs (Some (Ok sample_text)) = Ok (sample_manifest, sample_text).
Proof.
  assert (Save sample_manifest = Ok sample_text) as H1 by (by vm_compute).
  assert (Manifest_int64 sample_manifest) as H2.
  { split; [apply int64b_int64; vm_compute; reflexivity|].
    split; [apply int64b_int64; vm_compute; reflexivity|].
    split; [apply int64b_int64; vm_compute; reflexivity|].
    assert (forallb (λ f, int64b (f_Size f)) (m_Files sample_manifest) = true) as E by (vm_compute; reflexivity).
    rewrite forallb_forall in E. apply Forall_forall. intros f Hf%list_elem_of_In. by apply int64b_int64, E. }
  assert (files_wf (m_Files sample_manifest)) as H3.
  { assert (@Build sample_jcs sample_input (Some sample_root) = Ok sample_manifest) as H by (by vm_compute).
    exact (@Build_files_wf sample_jcs sample_input None sample_entries sample_manifest sample_root_wf H). }
  assert (Z.of_nat (length sample_text) ≤ maxManifestSize) as H4 by (by vm_compute).
  assert (@Transform sample_jcs sample_text = Ok sample_text) as H5 by (by vm_compute).
  exact (conj H1 (@Manifest_roundtrip ascii_tables sample_jcs sample_manifest sample_text sample_text H2 eq_refl H3 H1 H4 H5)).
Defined.
