(* ===== verification/EngineTypes.v ===== *)
(** * core/engine: the request, its digest, and the pure steps of a build.

    api/buildjob/v1/types.go, util.go, lockbuild.go, reproducible.go and the
    parts of policy.go, inputs.go and result.go that call nothing. A nil pointer
    is [None]; the order in which Go visits the two keys of a map of
    replacements is an argument. *)
From S2P Require Export RunMonad HostText Assemble FetchList Policy Canonical Clock.
From S2P Require SnapshotTypes Manifest.
From S2P Require Export Dferr LockDoc Resolve Lock LockTypes.
#[local] Open Scope Z_scope.

(** ** The request *)

Definition UpdateRefresh : gostring := "refresh".
Definition FormatTar : gostring := "tar".
Record Options := mkOptions {
  op_Recommends : option bool; op_Upgrades : bool; op_UpdateMode : gostring; op_Prune : bool;
  op_ArchOverride : gostring; op_MirrorOverrides : gmap gostring gostring; op_Backend : gostring; op_Image : gostring;
  op_PolicyRef : gostring; op_ApprovedKeysRef : gostring; op_AcknowledgeRedistribution : bool;
  op_EmbedBinary : gostring; op_SBOM : bool; op_StoreDir : gostring; op_ClosedWorldCheck : option bool
}.
Record SignOptions := mkSignOptions { so_SignerRef : gostring; so_Required : bool; so_RepoSignerRef : gostring }.
Record Output := mkOutput { ou_Path : gostring; ou_Format : gostring; ou_Sign : SignOptions }.
Record BuildRequest := mkRequest {
  br_SchemaVersion : gostring; br_SnapshotRef : gostring; br_Inputs : Inputs; br_Options : Options; br_Output : Output
}.

(** ** Lists without repeats (util.go) *)

(** The first of each key, in order; an empty key is dropped. *)
Fixpoint dedupe_by {A} (key : A → gostring) (seen : gset gostring) (l : list A) : list A :=
  match l with
  | [] => []
  | x :: l' =>
      if streq (key x) "" || bool_decide (key x ∈ seen) then dedupe_by key seen l'
      else x :: dedupe_by key ({[key x]} ∪ seen) l'
  end.
Definition dedupeStrings : list gostring → list gostring := dedupe_by id ∅.
Definition dedupeURLs : list URLInput → list URLInput := dedupe_by ui_URL ∅.
Definition containsString (l : list gostring) (s : gostring) : bool := existsb (streq s) l.

Record FetchFailure := mkFailure { ff_Input : gostring; ff_Reason : gostring; ff_Detail : gostring }.
Definition dedupeFetchFailures : list FetchFailure → list FetchFailure := dedupe_by ff_Input ∅.

(** ** What the request asks for (lockbuild.go) *)

Record requestDigestInput := mkDigestInput {
  rd_Packages : list gostring; rd_URLs : list URLInput; rd_FileNames : list gostring; rd_LocalDirNames : list gostring;
  rd_ListFileNames : list gostring; rd_Options : Options
}.
Definition baseNameOf (p : gostring) : gostring := if streq p "" then [] else Base p.
Definition sortedBaseNames (paths : list gostring) : list gostring := sort_strings (map baseNameOf paths).
Definition url_leb (a b : URLInput) : bool :=
  if negb (streq (ui_URL a) (ui_URL b)) then str_leb (ui_URL a) (ui_URL b) else str_leb (ui_SHA256 a) (ui_SHA256 b).
(** The options with every path reduced to its base name, and no store. *)
Definition requestDigestOptions (o : Options) : Options :=
  mkOptions (op_Recommends o) (op_Upgrades o) (op_UpdateMode o) (op_Prune o) (op_ArchOverride o) (op_MirrorOverrides o)
    (op_Backend o) (op_Image o) (baseNameOf (op_PolicyRef o)) (baseNameOf (op_ApprovedKeysRef o))
    (op_AcknowledgeRedistribution o) (baseNameOf (op_EmbedBinary o)) (op_SBOM o) [] (op_ClosedWorldCheck o).
Definition newRequestDigestInput (req : BuildRequest) : requestDigestInput :=
  let i := br_Inputs req in
  mkDigestInput (sort_strings (in_Packages i)) (sort_by url_leb (in_URLs i)) (sortedBaseNames (in_Files i))
    (sortedBaseNames (in_LocalDirs i)) (sortedBaseNames (in_ListFiles i)) (requestDigestOptions (br_Options req)).

(** Its JSON: the options that are not shadowed, then the four that are. *)
Definition enc_URLInput (u : URLInput) : json :=
  enc_struct [(bytes_of "url", enc_string (ui_URL u)); (bytes_of "sha256", omit_string (ui_SHA256 u))].
Definition enc_Options (o : Options) : json := enc_struct [
  (bytes_of "recommends", JBool <$> op_Recommends o); (bytes_of "upgrades", omit_bool (op_Upgrades o));
  (bytes_of "update_mode", omit_string (op_UpdateMode o)); (bytes_of "prune", omit_bool (op_Prune o));
  (bytes_of "arch_override", omit_string (op_ArchOverride o));
  (bytes_of "mirror_overrides", SnapshotTypes.enc_labels (op_MirrorOverrides o));
  (bytes_of "backend", omit_string (op_Backend o)); (bytes_of "image", omit_string (op_Image o));
  (bytes_of "acknowledge_redistribution", omit_bool (op_AcknowledgeRedistribution o));
  (bytes_of "sbom", omit_bool (op_SBOM o)); (bytes_of "closed_world_check", JBool <$> op_ClosedWorldCheck o);
  (bytes_of "store_dir", omit_string (op_StoreDir o)); (bytes_of "policy_ref", omit_string (op_PolicyRef o));
  (bytes_of "approved_keys_ref", omit_string (op_ApprovedKeysRef o)); (bytes_of "embed_binary", omit_string (op_EmbedBinary o))].
Definition enc_requestDigestInput (r : requestDigestInput) : json := enc_struct [
  (bytes_of "packages", omit_slice JStr (rd_Packages r)); (bytes_of "urls", omit_slice enc_URLInput (rd_URLs r));
  (bytes_of "file_names", omit_slice JStr (rd_FileNames r)); (bytes_of "local_dir_names", omit_slice JStr (rd_LocalDirNames r));
  (bytes_of "list_file_names", omit_slice JStr (rd_ListFileNames r)); (bytes_of "options", Some (enc_Options (rd_Options r)))].
(** The error of the digest is dropped. *)
Definition requestDigest `{JCS} (req : BuildRequest) : gostring :=
  match Canonical.Digest (enc_requestDigestInput (newRequestDigestInput req)) with Ok d => d | Err _ => [] end.

(** ** Approved keys (policy.go) *)

Definition unionApprovedKeys (fromFlag fromPolicy : list gostring) : list gostring :=
  match fromPolicy, fromFlag with
  | [], _ => fromFlag
  | _, [] => sort_strings (dedupeStrings fromPolicy)
  | _, _ => sort_strings (dedupeStrings (fromFlag ++ fromPolicy))
  end.

(** ** Where an external came from (inputs.go) *)

Record externalOrigin := mkExternal { xo_url : gostring; xo_digest : gostring }.
Definition with_uri (uri : gostring) (s : Selection) : Selection :=
  let o := Origin_ s in
  mkSelection (Name s) (Arch s) (Version s) (SourcePackage s) (Section_ s) (Filename s) (Resolve.Size s) (Resolve.SHA256 s) uri
    (mkOrigin uri (o_LocalPath o) (o_Suite o) (o_Component o) (o_ReleaseDigest o) (o_KeyFingerprint o)) (Reason s)
    (PublisherVerification s) (Essential s) (Flags s) (StagedPath s) (UserSupplied s).
(** The selection, and whether the two sides disagree about its file. *)
Definition attribute_external (origins : gmap gostring externalOrigin) (s : Selection) : Selection * bool :=
  if negb (streq (Reason s) ReasonExternal) then (s, false)
  else match origins !! Filename s with
  | None => (s, false)
  | Some org =>
      if negb (streq (Resolve.SHA256 s) "") && negb (streq (xo_digest org) "") && negb (equal_fold (Resolve.SHA256 s) (xo_digest org))
      then (s, true) else (with_uri (xo_url org) s, false)
  end.

(** ** The plan, and the first lock *)

Record Plan := mkPlan {
  pn_Target : LockTypes.Target; pn_Resolver : Resolver; pn_Selections : list Selection; pn_Install : list gostring; pn_Warnings : list Warning;
  pn_Unresolved : list Unresolved
}.
Definition with_selections (sels : list Selection) (p : Plan) : Plan :=
  mkPlan (pn_Target p) (pn_Resolver p) sels (pn_Install p) (pn_Warnings p) (pn_Unresolved p).
Definition FlagUserSupplied : gostring := "user-supplied".

Definition redactOrigin {hosts : Hosts} (o : Origin) : Origin :=
  mkOrigin (RedactURL (o_URI o)) (o_LocalPath o) (o_Suite o) (o_Component o) (o_ReleaseDigest o) (o_KeyFingerprint o).
Definition initial_flags (s : Selection) : list gostring :=
  sort_strings (Flags s ++ if UserSupplied s && negb (containsString (Flags s) FlagUserSupplied) then [FlagUserSupplied] else []).
Definition initial_package {hosts : Hosts} (s : Selection) : Package :=
  mkPackage (Name s) (Arch s) (Version s) (SourcePackage s) (PoolPath (Name s) (Filename s)) (Resolve.Size s) (Resolve.SHA256 s)
    (redactOrigin (Origin_ s)) (Reason s) (PublisherVerification s) (initial_flags s) (Essential s).
Definition lock_target (t : SnapshotTypes.Target) (arch : gostring) : Target :=
  mkTarget (SnapshotTypes.ta_DistroID t) (SnapshotTypes.ta_VersionID t) (SnapshotTypes.ta_Codename t) arch
    (SnapshotTypes.ta_ForeignArchs t) (SnapshotTypes.ta_APTVersion t) (SnapshotTypes.ta_DpkgVersion t).
Definition buildInitialLock {hosts : Hosts} `{JCS} (req : BuildRequest) (createdAt snapshotDigest : gostring)
    (target : SnapshotTypes.Target) (arch : gostring) (plan : Plan) (policyWarnings : list Warning) (totalBytes : Z) : Lock :=
  mkLock SchemaVersion createdAt snapshotDigest (requestDigest req) (lock_target target arch) (pn_Resolver plan)
    (map initial_package (pn_Selections plan)) (sort_strings (pn_Install plan)) (mkClosedWorld [] [] [] [])
    (pn_Warnings plan ++ policyWarnings) (pn_Unresolved plan) (mkStats 0 0 0 totalBytes 0).

(** ** What a policy's findings come to (policy.go) *)

Record finding := mkPolicyFinding { pf_Finding : Finding; pf_Message : gostring }.
Definition denied (f : finding) : bool := streq (fd_Severity (pf_Finding f)) SeverityDeny.
Definition finding_warning (f : finding) : option Warning :=
  if denied f || negb (streq (fd_Severity (pf_Finding f)) SeverityWarn) then None
  else Some (mkWarning ("policy." ++ fd_Rule (pf_Finding f)) (pf_Message f) (fd_Packages (pf_Finding f))).

(** ** Host paths out of the lock (reproducible.go) *)

Definition workRootPlaceholder : gostring := "<BUILD-WORKDIR>".
Definition bundleDirPlaceholder : gostring := "<BUNDLE-DIR>".
(** [fn] on every string of the lock, which [scrubStrings] finds by reflection. *)
Section scrub.
Context (fn : gostring → gostring).
Definition scrub_Target (t : Target) : Target :=
  mkTarget (fn (t_DistroID t)) (fn (t_VersionID t)) (fn (t_Codename t)) (fn (t_Arch t)) (map fn (t_ForeignArchs t))
    (fn (t_APTVersion t)) (fn (t_DpkgVersion t)).
Definition scrub_Resolver (r : Resolver) : Resolver :=
  mkResolver (fn (r_Backend r)) (fn (r_Image r)) (fn (r_ImageDigest r)) (fn (r_APTVersion r)) (fn (r_DpkgVersion r))
    (map fn (r_APTOptions r)) (fn (r_PhasedUpdates r)) (r_InstallRecommends r) (fn (r_SolverDivergence r)).
Definition scrub_Origin (o : Origin) : Origin :=
  mkOrigin (fn (o_URI o)) (fn (o_LocalPath o)) (fn (o_Suite o)) (fn (o_Component o)) (fn (o_ReleaseDigest o))
    (fn (o_KeyFingerprint o)).
Definition scrub_Package (p : Package) : Package :=
  mkPackage (fn (p_Name p)) (fn (p_Arch p)) (fn (p_Version p)) (fn (p_SourcePackage p)) (fn (p_Filename p)) (p_Size p)
    (fn (p_SHA256 p)) (scrub_Origin (p_Origin p)) (fn (p_Reason p)) (fn (p_PublisherVerification p)) (map fn (p_Flags p))
    (p_Essential p).
Definition scrub_ClosedWorld (c : ClosedWorld) : ClosedWorld :=
  mkClosedWorld (fn (cw_Result c)) (fn (cw_CommandDigest c)) (fn (cw_OutputDigest c)) (fn (cw_Detail c)).
Definition scrub_Warning (w : Warning) : Warning := mkWarning (fn (w_Code w)) (fn (w_Message w)) (map fn (w_Packages w)).
Definition scrub_Unresolved (u : Unresolved) : Unresolved :=
  mkUnresolved (fn (u_Input u)) (fn (u_Kind u)) (fn (u_Detail u)) (map fn (u_Missing u)).
Definition scrubStrings (l : Lock) : Lock :=
  mkLock (fn (l_SchemaVersion l)) (fn (l_CreatedAt l)) (fn (l_SnapshotDigest l)) (fn (l_RequestDigest l))
    (scrub_Target (l_Target l)) (scrub_Resolver (l_Resolver l)) (map scrub_Package (l_Packages l)) (map fn (l_Install l))
    (scrub_ClosedWorld (l_ClosedWorld l)) (map scrub_Warning (l_Warnings l)) (map scrub_Unresolved (l_Unresolved l)) (l_Stats l).
End scrub.
Definition scrubHostPaths (repl : replacements) (l : Lock) : Lock :=
  match List.filter (λ r, negb (streq r.1 "")) repl with
  | [] => l
  | repl => scrubStrings (scrub_text repl) l
  end.
(** The map of the two replacements, as Go visits it: one key when they are
    equal, the later value. *)
Definition host_paths (workRoot bundleDir : gostring) (bundle_first : bool) : replacements :=
  if streq workRoot bundleDir then [(bundleDir, bundleDirPlaceholder)]
  else if bundle_first then [(bundleDir, bundleDirPlaceholder); (workRoot, workRootPlaceholder)]
  else [(workRoot, workRootPlaceholder); (bundleDir, bundleDirPlaceholder)].
Definition stripCacheDependentStats (l : Lock) : Lock :=
  let s := l_Stats l in
  mkLock (l_SchemaVersion l) (l_CreatedAt l) (l_SnapshotDigest l) (l_RequestDigest l) (l_Target l) (l_Resolver l) (l_Packages l)
    (l_Install l) (l_ClosedWorld l) (l_Warnings l) (l_Unresolved l)
    (mkStats (s_Added s) (s_Removed s) (s_Unchanged s) (s_Bytes s) 0).
Definition makeLockReproducible (workRoot bundleDir : gostring) (bundle_first : bool) (l : Lock) : Lock :=
  stripCacheDependentStats (scrubHostPaths (host_paths workRoot bundleDir bundle_first) l).
