(* ===== verification/Engine.v ===== *)
(** * core/engine: a build.

    engine.go, defaults.go, snapshot.go, inputs.go, resolve.go, policy.go,
    finalize.go and result.go. The engine calls everything through [Deps] or a
    variable of vars.go, so its collaborators are a record of functions
    ([world]), and what each answers may depend on everything done before: the
    state of a build is the list of the [action]s so far and the events of the
    engine's own. A stage of [build] gives the values the later ones take, where
    the source sets fields of one struct. Contexts, the attributes of events and
    the texts of errors the engine wraps are left out. *)
From S2P Require Export EngineTypes.
From S2P Require SnapshotTypes SnapshotArchive Manifest.
From S2P Require Import FetchDeb Dferr LockTypes.
#[local] Open Scope Z_scope.

(** ** The collaborators and what is asked of them *)

Record evaluator := mkEvaluator {
  ev_Evaluate : SnapshotTypes.Snapshot → Plan → list gostring → result goerror (list finding);
  ev_ApprovedKeys : option (list gostring)                  (* approvedKeysCarrier, if it is one *)
}.
Record signer := mkSigner { sn_Kind : gostring; sn_KeyID : gostring }.
Record Capabilities := mkCapabilities { cap_APTVersion : gostring; cap_DpkgVersion : gostring; cap_Image : gostring }.
Record Backend := mkBackend { bk_Kind : gostring; bk_Capabilities : option Capabilities }.
(** An opened snapshot and the directory its files are in. *)
Record opened := mkOpened { op_Archive : SnapshotArchive.Archive; op_FilesDir : gostring }.
Record StoreEntry := mkStoreEntry {
  se_Digest : gostring; se_Name : gostring; se_Version : gostring; se_Arch : gostring; se_Size : Z; se_Filename : gostring;
  se_AddedAt : gostring; se_UserSupplied : bool
}.
Record ResolveInput := mkResolveInput {
  ri_Snapshot : SnapshotTypes.Snapshot; ri_SnapshotFilesDir : gostring; ri_Packages : list gostring;
  ri_ExternalRepoDir : gostring; ri_ExternalNames : list gostring; ri_ArchivesDir : gostring; ri_WorkDir : gostring;
  ri_Options : Options; ri_Recommends : bool; ri_Upgrades : bool; ri_PhasedPolicy : gostring; ri_ApprovedKeys : list gostring;
  ri_DownloadOnly : bool
}.
Record AssembleInput := mkAssembleInput {
  ai_Dir : gostring; ai_Plan : Plan; ai_Snapshot : SnapshotTypes.Snapshot; ai_Lock : Lock; ai_Release : ReleaseFields;
  ai_Prune : bool; ai_EmbedBinary : gostring; ai_CreatedAt : gostring
}.
Record Assembled := mkAssembled {
  as_Lock : option Lock; as_Repo : option Repository.Result; as_Stats : Stats; as_Added : list gostring;
  as_Removed : list gostring; as_Unreferenced : list gostring
}.
Record DoctorFinding := mkDoctorFinding { df_Package : gostring; df_Message : gostring; df_Flag : gostring }.
Record ClosedWorldInput := mkClosedWorldInput {
  ci_Snapshot : SnapshotTypes.Snapshot; ci_SnapshotFilesDir : gostring; ci_BundleRepoDir : gostring;
  ci_Install : list gostring; ci_Upgrades : bool; ci_WorkDir : gostring
}.

#[warnings="-register-all"]
Inductive action :=
| OpenStore (dir : gostring) | LoadPolicy (ref : gostring) | LoadApprovedKeys (ref : gostring) | SignerFor (ref : gostring)
| MkdirTemp | OpenSnapshot (ref : gostring)
| ParseListFile (path : gostring) | ScanDir (dir : gostring) | FromLocalFile (path : gostring) | FetchAll (urls : list URLInput)
| StoreMaterialise (digest dest : gostring) | DebPackageName (path : gostring) | Remove (path : gostring)
| IndexExternals (i : Repository.Input)
| SelectBackend (requested image : gostring) | MkdirAll (dir : gostring) | Resolve (i : ResolveInput)
| StorePut (path : gostring) | StoreRecord (e : StoreEntry)
| EvaluatePolicy (p : Plan) (keys : list gostring)
| AssembleBundle (i : AssembleInput) | RunDoctor (l : Lock) | CheckClosedWorld (i : ClosedWorldInput)
| SaveLock (dir : gostring) (l : Lock) | WriteFile (path data : gostring)
| BuildManifest (i : Manifest.BuildInput) | SaveManifest (dir : gostring) (m : Manifest.Manifest)
| Sign (purpose canon : gostring) | SaveSignature (dir : gostring) (f : Manifest.SignatureFile)
| RemoveAll (dir : gostring) | ExportTar (dir path : gostring) | CloseSnapshot | CloseSigner.
Abbreviation history := (list action).

Record event := mkEvent { e_Type : gostring; e_Warn : bool; e_Msg : gostring }.

Record world := mkWorld {
  w_epoch : gostring; w_now : Z; w_elapsed : Z; w_tool : Manifest.Tool; w_default_store : gostring;
  w_abs : gostring → option gostring;                                          (* filepath.Abs *)
  w_bundle_first : bool;                                                       (* the order of a map *)
  w_open_store : history → gostring → result goerror unit;
  w_load_policy : history → gostring → result goerror evaluator;
  w_load_keys : history → gostring → result goerror (list gostring);
  w_signer_for : history → gostring → result goerror signer;
  w_mkdir_temp : history → result goerror gostring;
  w_open_snapshot : history → gostring → result goerror opened;
  w_recommends : history → opened → bool;                                      (* snapshot.InstallRecommends *)
  w_parse_list : history → gostring → result goerror Inputs;
  w_scan_dir : history → gostring → result goerror (list gostring);
  w_local_file : history → gostring → result fetch_error Fetched;
  w_fetch_all : history → list URLInput → list (URLInput * result fetch_error Fetched);
  w_materialise : history → gostring → gostring → result goerror unit;
  w_deb_name : history → gostring → result goerror gostring;
  w_index : history → Repository.Input → result goerror Repository.Result;
  w_select_backend : history → gostring → gostring → result goerror Backend;
  w_mkdir : history → gostring → result goerror unit;
  w_resolve : history → ResolveInput → result goerror Plan;
  w_has : history → gostring → bool;
  w_put : history → gostring → result goerror (gostring * Z);
  w_record : history → StoreEntry → result goerror unit;
  w_assemble : history → AssembleInput → result goerror Assembled;
  w_doctor : history → Lock → result goerror (list DoctorFinding);
  w_doctor_flags : list DoctorFinding → gostring → list gostring;
  w_closed_world : history → ClosedWorldInput → result goerror ClosedWorld;
  w_save_lock : history → gostring → Lock → result goerror gostring;
  w_readme : Manifest.Manifest → Lock → bool → gostring;
  w_sbom : Lock → gostring → gostring → result goerror gostring;
  w_evidence : gostring → list event → result goerror gostring;
  w_write : history → gostring → gostring → result goerror unit;
  w_build_manifest : history → Manifest.BuildInput → result goerror Manifest.Manifest;
  w_save_manifest : history → gostring → Manifest.Manifest → result goerror unit;
  w_sign : history → signer → gostring → gostring → result goerror Manifest.Signature;
  w_save_signature : history → gostring → Manifest.SignatureFile → result goerror unit;
  w_export : history → gostring → gostring → result goerror unit
}.
Record Deps := mkDeps {
  d_Backend : option gostring; d_Store : bool; d_Policy : option evaluator; d_Signer : option signer
}.

(** ** The monad *)

Record state := mkState { st_trace : history; st_events : list event }.
Abbreviation build := (run state goerror).
Definition act {A} (a : action) (answer : history → result goerror A) : build A :=
  λ s, (answer (st_trace s), mkState (st_trace s ++ [a]) (st_events s)).
Definition do_ (a : action) : build unit := act a (λ _, Ok tt).
Definition look {A} (f : history → A) : build A := gets (λ s, f (st_trace s)).
Definition send (e : event) : build unit := modify (λ s, mkState (st_trace s) (st_events s ++ [e])).
Definition emit (typ msg : gostring) : build unit := send (mkEvent typ false msg).
Definition warn (typ msg : gostring) : build unit := send (mkEvent typ true msg).
Definition usage {A} : build A := fail_with (New Usage []).

Definition classify (def : Class) (e : goerror) : goerror :=
  match as_dferr e with Some _ => e | None => DfError def [] [] (Some e) end.
Definition classified {A} (def : Class) (r : result goerror A) : result goerror A := map_err (classify def) r.
Definition wrapped {A} (r : result goerror A) : result goerror A := map_err (λ e, DfError Environment [] [] (Some e)) r.

Definition TypeSnapshotLoaded : gostring := "snapshot.loaded".
Definition TypeBackendSelected : gostring := "backend.selected".
Definition TypeInputExternal : gostring := "input.external".
Definition TypeStoreHit : gostring := "store.hit".
Definition TypePolicyFinding : gostring := "policy.finding".
Definition TypeDoctorFinding : gostring := "doctor.finding".
Definition TypeRepoIndexed : gostring := "repo.indexed".
Definition TypeClosedWorld : gostring := "closed_world.checked".
Definition TypeManifestSigned : gostring := "manifest.signed".
Definition TypeBundleAssembled : gostring := "bundle.assembled".
Definition TypePruned : gostring := "bundle.pruned".
Definition TypeWarning : gostring := "warning".

Section engine.
Context {unicode : UnicodeTables} {hosts : Hosts} `{JCS} (w : world) (deps : Deps) (req : BuildRequest).
Abbreviation opts := (br_Options req).
Abbreviation out := (br_Output req).

(** ** Dependencies (defaults.go) *)

Definition open_store : build unit :=
  if d_Store deps then mret tt
  else let dir := if streq (op_StoreDir opts) "" then w_default_store w else op_StoreDir opts in
    act (OpenStore dir) (λ h, classified Environment (w_open_store w h dir)).
Definition get_policy : build evaluator :=
  match d_Policy deps with
  | Some p => mret p
  | None => act (LoadPolicy (op_PolicyRef opts)) (λ h, classified Usage (w_load_policy w h (op_PolicyRef opts)))
  end.
Definition get_keys : build (list gostring) :=
  if streq (op_ApprovedKeysRef opts) "" then mret []
  else act (LoadApprovedKeys (op_ApprovedKeysRef opts)) (λ h, classified Usage (w_load_keys w h (op_ApprovedKeysRef opts))).
Definition inlineApprovedKeys (p : evaluator) : list gostring := default [] (ev_ApprovedKeys p).
(** The signer, and whether this build made it. *)
Definition get_signer : build (option signer * bool) :=
  match d_Signer deps with
  | Some s => mret (Some s, false)
  | None =>
      if streq (so_SignerRef (ou_Sign out)) "" then mret (None, false)
      else s ← act (SignerFor (so_SignerRef (ou_Sign out))) (λ h, classified Usage (w_signer_for w h (so_SignerRef (ou_Sign out))));
           mret (Some s, true)
  end.
Record resolved := mkResolved { rs_policy : evaluator; rs_keys : list gostring; rs_signer : option signer; rs_owned : bool }.
Definition resolveDeps : build resolved :=
  _ ← guard_with (streq (ou_Path out) "") (New Usage []);
  _ ← guard_with (streq (br_SnapshotRef req) "") (New Usage []);
  _ ← open_store;
  pol ← get_policy;
  keys ← get_keys;
  let keys := unionApprovedKeys keys (inlineApprovedKeys pol) in
  '(sgn, owned) ← get_signer;
  _ ← guard_with (bool_decide (sgn = None) && so_Required (ou_Sign out)) (New Usage []);
  mret (mkResolved pol keys sgn owned).

(** ** The snapshot (snapshot.go, engine.go) *)

Definition loadSnapshot : build opened :=
  snap ← act (OpenSnapshot (br_SnapshotRef req)) (λ h, classified Usage (w_open_snapshot w h (br_SnapshotRef req)));
  _ ← emit TypeSnapshotLoaded "snapshot loaded";
  mret snap.
Definition snapshot_of (snap : opened) : SnapshotTypes.Snapshot := SnapshotArchive.ar_Snapshot (op_Archive snap).
Definition target_of (snap : opened) : SnapshotTypes.Target := SnapshotTypes.sn_Target (snapshot_of snap).
Definition effectiveArch (snap : opened) : gostring :=
  if streq (op_ArchOverride opts) "" then SnapshotTypes.ta_Arch (target_of snap) else op_ArchOverride opts.
Definition assemblyDir : gostring := if streq (ou_Format out) FormatTar then ou_Path out ++ ".d" else ou_Path out.
Fixpoint add_archs (seen : list gostring) (archs : list gostring) : list gostring :=
  match archs with
  | [] => seen
  | a :: rest => add_archs (if bool_decide (a ∈ seen) then seen else seen ++ [a]) rest
  end.
Definition repoArches (snap : opened) : list gostring :=
  sort_strings (add_archs [effectiveArch snap] (SnapshotTypes.ta_ForeignArchs (target_of snap))).
Definition bundleRepoPath : gostring :=
  let p := filepath_join [assemblyDir; bytes_of "repo"] in default p (w_abs w p).

(** ** Inputs (inputs.go) *)

Record expanded := mkExpanded { ex_packages : list gostring; ex_urls : list URLInput; ex_files : list gostring }.
Definition expandInputs : build expanded :=
  let i := br_Inputs req in
  lists ← each (λ lf, act (ParseListFile lf) (λ h, classified Usage (w_parse_list w h lf))) (in_ListFiles i);
  let dirs := in_LocalDirs i ++ concat (map in_LocalDirs lists) in
  found ← each (λ dir, act (ScanDir dir) (λ h, classified Usage (w_scan_dir w h dir))) (dedupeStrings dirs);
  mret (mkExpanded (dedupeStrings (in_Packages i ++ concat (map in_Packages lists)))
    (dedupeURLs (in_URLs i ++ concat (map in_URLs lists)))
    (dedupeStrings (in_Files i ++ concat (map in_Files lists) ++ concat found))).

Record stagedExternal := mkStaged { sx_path : gostring; sx_filename : gostring; sx_origin : externalOrigin }.
Definition stage (stagingDir url : gostring) (f : Fetched) : build stagedExternal :=
  let dest := filepath_join [stagingDir; ft_Filename f] in
  _ ← act (StoreMaterialise (ft_Digest f) dest) (λ h, wrapped (w_materialise w h (ft_Digest f) dest));
  mret (mkStaged dest (ft_Filename f) (mkExternal url (ft_Digest f))).
(** One local file: staged, or a failure. *)
Definition stage_file (stagingDir path : gostring) : build (stagedExternal + FetchFailure) :=
  r ← act (FromLocalFile path) (λ h, Ok (w_local_file w h path));
  match r with
  | Err e =>
      let base := Base path in
      let detail := replace_all path base (error_text (fe_err e)) in
      _ ← warn TypeInputExternal ("local .deb not found or unreadable: " ++ base);
      mret (inr (mkFailure path (if streq (fe_reason e) ReasonOther then ReasonUnreadable else fe_reason e) detail))
  | Ok f =>
      s ← stage stagingDir [] f;
      _ ← emit TypeInputExternal ("staged local .deb: " ++ ft_Filename f);
      mret (inl s)
  end.
Definition stage_url (stagingDir : gostring) (r : URLInput * result fetch_error Fetched) : build (stagedExternal + FetchFailure) :=
  match r.2 with
  | Err e =>
      let detail := RedactMessage (error_text (fe_err e)) in
      _ ← warn TypeInputExternal ("download failed: " ++ RedactURL (ui_URL r.1));
      mret (inr (mkFailure (ui_URL r.1) (fe_reason e) detail))
  | Ok f =>
      s ← stage stagingDir (ui_URL r.1) f;
      _ ← emit TypeInputExternal ("downloaded: " ++ ft_Filename f);
      mret (inl s)
  end.
Definition lefts {A B} (l : list (A + B)) : list A := omap (λ x, match x with inl a => Some a | inr _ => None end) l.
Definition rights {A B} (l : list (A + B)) : list B := omap (λ x, match x with inr b => Some b | inl _ => None end) l.
(** A staged file that is a package, with its name. *)
Definition name_staged (s : stagedExternal) : build (option (gostring * stagedExternal)) :=
  r ← act (DebPackageName (sx_path s)) (λ h, Ok (w_deb_name w h (sx_path s)));
  let name := match r with Ok n => n | Err _ => [] end in
  if streq name "" then
    _ ← warn TypeInputExternal ("not a valid .deb, ignoring: " ++ sx_filename s);
    _ ← do_ (Remove (sx_path s));
    mret None
  else mret (Some (name, s)).
Definition origins_of (l : list stagedExternal) : gmap gostring externalOrigin :=
  fold_left (λ (m : gmap gostring externalOrigin) s, <[sx_filename s := sx_origin s]> m) l ∅.
Record externals := mkExternals {
  xt_repoDir : gostring; xt_names : list gostring; xt_origins : gmap gostring externalOrigin; xt_failures : list FetchFailure
}.
Definition external_release (createdAt arch : gostring) : ReleaseFields :=
  mkRelease "debark-external" "debark external inputs" "./" [] [arch] [bytes_of "main"] [] createdAt false false ∅.
Definition stageExternals (createdAt workRoot arch : gostring) (e : expanded) : build externals :=
  if bool_decide (ex_urls e = []) && bool_decide (ex_files e = []) then mret (mkExternals [] [] ∅ [])
  else
    let stagingDir := filepath_join [workRoot; bytes_of "external"] in
    _ ← act (MkdirAll stagingDir) (λ h, wrapped (w_mkdir w h stagingDir));
    local ← each (stage_file stagingDir) (ex_files e);
    fetched ← (match ex_urls e with
               | [] => mret []
               | urls => rs ← act (FetchAll urls) (λ h, Ok (w_fetch_all w h urls)); each (stage_url stagingDir) rs
               end);
    let all := local ++ fetched in
    let failures := rights all in
    named ← each name_staged (lefts all);
    match omap id named with
    | [] => mret (mkExternals [] [] ∅ failures)
    | good =>
        let i := mkInput stagingDir (map (λ p, mkPoolFile (sx_filename p.2) zero_hashes) good) (external_release createdAt arch) true in
        _ ← act (IndexExternals i) (λ h, classified Environment (w_index w h i));
        mret (mkExternals stagingDir (dedupeStrings (sort_strings (map fst good))) (origins_of (map snd good)) failures)
    end.

(** ** Resolution (resolve.go) *)

Definition selectBackend : build Backend :=
  match d_Backend deps with
  | Some kind => _ ← emit TypeBackendSelected "backend supplied by caller"; mret (mkBackend kind None)
  | None =>
      b ← act (SelectBackend (op_Backend opts) (op_Image opts))
            (λ h, classified Environment (w_select_backend w h (op_Backend opts) (op_Image opts)));
      _ ← emit TypeBackendSelected "backend selected";
      mret b
  end.
Definition attribute_one (origins : gmap gostring externalOrigin) (s : Selection) : build Selection :=
  let '(s', disagree) := attribute_external origins s in
  _ ← (if disagree : bool then warn TypeInputExternal
         ("staged input and resolved package disagree about " ++ Filename s ++ "; provenance not attributed") else mret tt);
  mret s'.
Definition attributeExternalOrigins (origins : gmap gostring externalOrigin) (p : Plan) : build Plan :=
  if bool_decide (origins = ∅) then mret p
  else sels ← each (attribute_one origins) (pn_Selections p); mret (with_selections sels p).
Definition resolve_input (workRoot : gostring) (snap : opened) (e : expanded) (x : externals) (keys : list gostring)
    (recommends : bool) : ResolveInput :=
  mkResolveInput (snapshot_of snap) (op_FilesDir snap) (ex_packages e) (xt_repoDir x) (xt_names x)
    (filepath_join [workRoot; bytes_of "archives"]) (filepath_join [workRoot; bytes_of "resolve-work"]) opts recommends
    (op_Upgrades opts) (SnapshotTypes.PhasedPolicyFor (snapshot_of snap)) keys true.
Definition resolveWithBackend (workRoot : gostring) (snap : opened) (e : expanded) (x : externals) (keys : list gostring) : build Plan :=
  let archives := filepath_join [workRoot; bytes_of "archives"] in
  let work := filepath_join [workRoot; bytes_of "resolve-work"] in
  _ ← act (MkdirAll archives) (λ h, wrapped (w_mkdir w h archives));
  _ ← act (MkdirAll work) (λ h, wrapped (w_mkdir w h work));
  own ← look (λ h, w_recommends w h snap);
  let i := resolve_input workRoot snap e x keys (default own (op_Recommends opts)) in
  plan ← act (Resolve i) (λ h, classified Resolution (w_resolve w h i));
  attributeExternalOrigins (xt_origins x) (with_selections (SortSelections (pn_Selections plan)) plan).

(** A selection taken into the store: with its digest and size, no staged path,
    and what counts as downloaded. *)
Definition stored (sum : gostring) (size : Z) (s : Selection) : Selection :=
  mkSelection (Name s) (Arch s) (Version s) (SourcePackage s) (Section_ s) (Filename s) size sum (URI s) (Origin_ s) (Reason s)
    (PublisherVerification s) (Essential s) (Flags s) [] (UserSupplied s).
Definition ingest (createdAt : gostring) (s : Selection) : build (Selection * (Z * Z)) :=
  if streq (StagedPath s) "" then
    _ ← warn TypeWarning ("selection with no staged file: " ++ Name s); mret (s, (0, 0))
  else
    held ← look (λ h, negb (streq (Resolve.SHA256 s) "") && w_has w h (Resolve.SHA256 s));
    '(sum, size) ← act (StorePut (StagedPath s)) (λ h, wrapped (w_put w h (StagedPath s)));
    let e := mkStoreEntry sum (Name s) (Version s) (Arch s) size (Filename s) createdAt (UserSupplied s) in
    _ ← act (StoreRecord e) (λ h, wrapped (w_record w h e));
    _ ← emit TypeStoreHit ("ingested " ++ Filename s);
    mret (stored sum size s, (size, if held : bool then 0 else size)).
Definition ingestPlan (createdAt : gostring) (p : Plan) : build (Plan * (Z * Z)) :=
  rs ← each (ingest createdAt) (pn_Selections p);
  let sum f := fold_left (λ n r, wrap_int64 (n + f r.2)) rs 0 in
  mret (with_selections (map fst rs) p, (sum fst, sum snd)).

(** ** Policy (policy.go) *)

Definition evaluatePolicy (pol : evaluator) (keys : list gostring) (snap : opened) (p : Plan) : build (list Warning) :=
  fs ← act (EvaluatePolicy p keys) (λ _, classified Policy (ev_Evaluate pol (snapshot_of snap) p keys));
  _ ← each (λ f, emit TypePolicyFinding (pf_Message f)) fs;
  _ ← guard_with (existsb denied fs) (New Policy []);
  mret (omap finding_warning fs).

(** ** Assembly, doctor and the closed world (finalize.go) *)

Definition bundle_release (createdAt : gostring) (snap : opened) : ReleaseFields :=
  mkRelease "debark" "debark bundle" "bundle" (SnapshotTypes.ta_Codename (target_of snap)) (repoArches snap) [bytes_of "main"]
    "debark offline bundle" createdAt false false ∅.
Definition assemble (createdAt : gostring) (snap : opened) (plan : Plan) (lk : Lock) : build (Assembled * Lock) :=
  let dir := filepath_dir assemblyDir in
  _ ← act (MkdirAll dir) (λ h, wrapped (w_mkdir w h dir));
  let i := mkAssembleInput assemblyDir plan (snapshot_of snap) lk (bundle_release createdAt snap)
    (streq (op_UpdateMode opts) UpdateRefresh && op_Prune opts) (op_EmbedBinary opts) createdAt in
  res ← act (AssembleBundle i) (λ h, classified Environment (w_assemble w h i));
  _ ← emit TypeBundleAssembled "bundle assembled";
  _ ← (if bool_decide (as_Removed res = []) then mret tt else emit TypePruned "pruned superseded files");
  _ ← (if bool_decide (as_Repo res = None) then mret tt else emit TypeRepoIndexed "repository indexed");
  mret (res, default lk (as_Lock res)).

Definition add_flag (flags : list gostring) (f : gostring) : list gostring := if containsString flags f then flags else flags ++ [f].
Definition with_flags (flags : list gostring) (p : Package) : Package :=
  mkPackage (p_Name p) (p_Arch p) (p_Version p) (p_SourcePackage p) (p_Filename p) (p_Size p) (p_SHA256 p) (p_Origin p) (p_Reason p)
    (p_PublisherVerification p) flags (p_Essential p).
Definition doctor_package (fs : list DoctorFinding) (p : Package) : Package :=
  match w_doctor_flags w fs (p_Name p) with
  | [] => p
  | add => with_flags (sort_strings (fold_left add_flag add (p_Flags p))) p
  end.
Definition with_lock_packages (ps : list Package) (l : Lock) : Lock :=
  mkLock (l_SchemaVersion l) (l_CreatedAt l) (l_SnapshotDigest l) (l_RequestDigest l) (l_Target l) (l_Resolver l) ps (l_Install l)
    (l_ClosedWorld l) (l_Warnings l) (l_Unresolved l) (l_Stats l).
Definition with_closed_world (c : ClosedWorld) (ws : list Warning) (l : Lock) : Lock :=
  mkLock (l_SchemaVersion l) (l_CreatedAt l) (l_SnapshotDigest l) (l_RequestDigest l) (l_Target l) (l_Resolver l) (l_Packages l)
    (l_Install l) c (l_Warnings l ++ ws) (l_Unresolved l) (l_Stats l).
Definition runDoctor (lk : Lock) : build Lock :=
  r ← act (RunDoctor lk) (λ h, Ok (w_doctor w h lk));
  match r with
  | Err e => _ ← warn TypeWarning ("doctor: " ++ error_text e); mret lk
  | Ok fs =>
      _ ← each (λ f, emit TypeDoctorFinding (df_Message f)) fs;
      mret (with_lock_packages (map (doctor_package fs) (l_Packages lk)) lk)
  end.

Definition closed_world_warning (c : ClosedWorld) : Warning :=
  if streq (cw_Result c) ClosedWorldSkipped
  then mkWarning "closed-world.skipped" ("closed-world check skipped: " ++ cw_Detail c) []
  else mkWarning ("closed-world." ++ cw_Result c)
    ("closed-world check " ++ cw_Result c ++ ": this bundle may not install cleanly with no network. " ++ cw_Detail c) [].
(** The lock with the result, and whether the check failed. *)
Definition runClosedWorld (workRoot : gostring) (snap : opened) (lk : Lock) : build (Lock * bool) :=
  if bool_decide (op_ClosedWorldCheck opts = Some false) then
    _ ← emit TypeClosedWorld "closed-world check skipped";
    mret (with_closed_world (mkClosedWorld ClosedWorldSkipped [] [] "disabled by request options") [] lk, false)
  else
    let work := filepath_join [workRoot; bytes_of "closed-world"] in
    _ ← do_ (MkdirAll work);
    let i := mkClosedWorldInput (snapshot_of snap) (op_FilesDir snap) bundleRepoPath (l_Install lk) (op_Upgrades opts) work in
    r ← act (CheckClosedWorld i) (λ h, Ok (w_closed_world w h i));
    let c := match r with Ok c => c | Err e => mkClosedWorld ClosedWorldFailed [] [] (error_text e) end in
    if streq (cw_Result c) ClosedWorldOK then
      _ ← emit TypeClosedWorld "closed-world check passed"; mret (with_closed_world c [] lk, false)
    else
      _ ← warn TypeClosedWorld ("closed-world check " ++ cw_Result c);
      mret (with_closed_world c [closed_world_warning c] lk, negb (streq (cw_Result c) ClosedWorldSkipped)).

Definition unsigned_warning : Warning :=
  mkWarning "unsigned" "this bundle is unsigned; verify will refuse it unless --allow-unsigned is given. Pass --sign or configure a signer to produce a verifiable bundle." [].
Definition foldUnsignedWarning (sgn : option signer) (l : Lock) : Lock :=
  match sgn with Some _ => l | None => with_closed_world (l_ClosedWorld l) [unsigned_warning] l end.

(** ** The last writes (finalize.go) *)

Definition repositoryDigests (a : Assembled) : Manifest.Repository :=
  match as_Repo a with
  | None => Manifest.mkRepository [] [] [] [] [] 0 0
  | Some r => Manifest.mkRepository (re_PackagesSHA256 r) (re_PackagesGzSHA256 r) (re_ReleaseSHA256 r) [] [] (re_PackageCount r) (re_PoolBytes r)
  end.
Definition manifest_target (snap : opened) : Manifest.Target :=
  let t := target_of snap in
  Manifest.mkTarget (SnapshotTypes.ta_DistroID t) (SnapshotTypes.ta_VersionID t) (SnapshotTypes.ta_Codename t) (effectiveArch snap) [].
Definition EvidenceFile : gostring := "evidence.json".
Definition SBOMFile : gostring := "sbom.cdx.json".
Definition bundle_file (name : gostring) : gostring := filepath_join [assemblyDir; name].
Definition write (name data : gostring) : build unit :=
  act (WriteFile (bundle_file name) data) (λ h, wrapped (w_write w h (bundle_file name) data)).
Definition readme_manifest (createdAt lockDigest : gostring) (snap : opened) (a : Assembled) : Manifest.Manifest :=
  Manifest.mkManifest Manifest.SchemaVersion (Manifest.NewBundleID lockDigest createdAt) createdAt Manifest.CurrentFormatVersion
    (w_tool w) (SnapshotArchive.ar_Digest (op_Archive snap)) lockDigest (repositoryDigests a) [] (manifest_target snap) [] EvidenceFile.
Definition write_sbom (lk : Lock) (bundleID createdAt : gostring) : build gostring :=
  if op_SBOM opts then
    doc ← lift_result (wrapped (w_sbom w lk bundleID createdAt)); _ ← write SBOMFile doc; mret SBOMFile
  else mret [].
Definition write_evidence (createdAt : gostring) : build unit :=
  events ← gets st_events;
  data ← lift_result (wrapped (w_evidence w createdAt events));
  write EvidenceFile data.
Definition with_created_at (t : gostring) (s : Manifest.Signature) : Manifest.Signature :=
  Manifest.mkSignature (Manifest.sg_SignerKind s) (Manifest.sg_KeyID s) (Manifest.sg_Algorithm s) t (Manifest.sg_Signature s) (Manifest.sg_Comment s).
(** An error after which the bundle is removed. *)
Definition or_remove {A} (m : build A) : build A :=
  r ← attempt m;
  match r with Ok a => mret a | Err e => _ ← do_ (RemoveAll assemblyDir); fail_with e end.
Definition sign_bundle (createdAt : gostring) (sgn : signer) (m : Manifest.Manifest) : build unit :=
  canon ← lift_result (match Canonical.Marshal (Manifest.enc_Manifest m) with Ok c => Ok c | Err _ => Err (New Environment []) end);
  sig ← or_remove (act (Sign Manifest.SignPurpose canon) (λ h, classified Environment (w_sign w h sgn Manifest.SignPurpose canon)));
  let f := Manifest.mkSignatureFile Manifest.SignatureSchemaVersion (DigestBytes canon) [with_created_at createdAt sig] in
  or_remove (act (SaveSignature assemblyDir f) (λ h, wrapped (w_save_signature w h assemblyDir f))).
Definition finalizeBundle (createdAt workRoot : gostring) (snap : opened) (sgn : option signer) (a : Assembled) (lk : Lock)
    : build (Manifest.Manifest * Lock) :=
  let lk := makeLockReproducible workRoot assemblyDir (w_bundle_first w) lk in
  _ ← guard_with (bool_decide (Validate lk ≠ None)) (New Usage []);
  lockDigest ← act (SaveLock assemblyDir lk) (λ h, wrapped (w_save_lock w h assemblyDir lk));
  let willSign := bool_decide (sgn ≠ None) in
  let rm := readme_manifest createdAt lockDigest snap a in
  _ ← write "README.txt" (w_readme w rm lk willSign);
  sbomRef ← write_sbom lk (Manifest.m_BundleID rm) createdAt;
  _ ← (if willSign then emit TypeManifestSigned "manifest signed" else mret tt);
  _ ← write_evidence createdAt;
  let i := Manifest.mkBuildInput assemblyDir (SnapshotArchive.ar_Digest (op_Archive snap)) lockDigest (repositoryDigests a)
    (manifest_target snap) (w_tool w) createdAt sbomRef EvidenceFile in
  m ← act (BuildManifest i) (λ h, classified Environment (w_build_manifest w h i));
  _ ← act (SaveManifest assemblyDir m) (λ h, wrapped (w_save_manifest w h assemblyDir m));
  _ ← (match sgn with Some s => sign_bundle createdAt s m | None => mret tt end);
  mret (m, lk).

(** ** The result (result.go) and the whole build (engine.go) *)

Inductive ExitClass := ExitSuccess | ExitIncomplete | ExitResolution.
Record BuildResult := mkBuildResult {
  bt_BundlePath : gostring; bt_BundleID : gostring; bt_Signed : bool; bt_Added : Z; bt_Removed : Z; bt_Unchanged : Z;
  bt_Bytes : Z; bt_DownloadedBytes : Z; bt_PackageCount : Z; bt_DurationSeconds : Z; bt_Warnings : list gostring;
  bt_Unresolved : list gostring; bt_FetchFailed : list gostring; bt_FetchFailures : list FetchFailure; bt_ExitClass : ExitClass
}.
Definition buildResult (path : gostring) (m : Manifest.Manifest) (signed cwFailed : bool) (a : Assembled) (lk : Lock)
    (total downloaded : Z) (failures : list FetchFailure) : BuildResult :=
  let unresolved := dedupeStrings (map u_Input (l_Unresolved lk)) in
  let fetchFailures := dedupeFetchFailures failures in
  let fetchFailed := map ff_Input fetchFailures in
  mkBuildResult path (Manifest.m_BundleID m) signed (Z.of_nat (length (as_Added a))) (Z.of_nat (length (as_Removed a)))
    (s_Unchanged (as_Stats a)) total downloaded (Z.of_nat (length (l_Packages lk))) (w_elapsed w)
    (dedupeStrings (map w_Message (l_Warnings lk))) unresolved fetchFailed fetchFailures
    (if cwFailed then ExitResolution
     else if bool_decide (unresolved = []) && bool_decide (fetchFailed = []) then ExitSuccess else ExitIncomplete).

Definition export : build gostring :=
  if streq (ou_Format out) FormatTar then
    _ ← act (ExportTar assemblyDir (ou_Path out)) (λ h, classified Environment (w_export w h assemblyDir (ou_Path out)));
    mret (ou_Path out)
  else mret assemblyDir.
(** With the snapshot open, up to the policy: the plan that may be built. *)
Definition plan_build (createdAt workRoot : gostring) (d : resolved) (snap : opened)
    : build (Plan * (Z * Z) * list Warning * list FetchFailure) :=
  e ← expandInputs;
  x ← stageExternals createdAt workRoot (effectiveArch snap) e;
  _ ← selectBackend;
  plan ← resolveWithBackend workRoot snap e x (rs_keys d);
  '(plan, bytes) ← ingestPlan createdAt plan;
  ws ← evaluatePolicy (rs_policy d) (rs_keys d) snap plan;
  mret (plan, bytes, ws, xt_failures x).
Definition make_bundle (createdAt workRoot : gostring) (d : resolved) (snap : opened) (plan : Plan) (bytes : Z * Z)
    (ws : list Warning) (failures : list FetchFailure) : build BuildResult :=
  let lk := buildInitialLock req createdAt (SnapshotArchive.ar_Digest (op_Archive snap)) (target_of snap) (effectiveArch snap)
    plan ws bytes.1 in
  '(a, lk) ← assemble createdAt snap plan lk;
  lk ← runDoctor lk;
  '(lk, cwFailed) ← runClosedWorld workRoot snap lk;
  let lk := foldUnsignedWarning (rs_signer d) lk in
  '(m, lk) ← finalizeBundle createdAt workRoot snap (rs_signer d) a lk;
  path ← export;
  mret (buildResult path m (bool_decide (rs_signer d ≠ None)) cwFailed a lk bytes.1 bytes.2 failures).
Definition Build : build BuildResult :=
  createdAt ← lift_result (EffectiveTime (w_epoch w) (w_now w));
  d ← resolveDeps;
  finally (if rs_owned d then do_ CloseSigner else mret tt) (
    workRoot ← act MkdirTemp (λ h, wrapped (w_mkdir_temp w h));
    finally (do_ (RemoveAll workRoot)) (
      snap ← loadSnapshot;
      finally (do_ CloseSnapshot) (
        '(plan, bytes, ws, failures) ← plan_build createdAt workRoot d snap;
        make_bundle createdAt workRoot d snap plan bytes ws failures))).
Definition run_Build : result goerror BuildResult * state := Build (mkState [] []).
End engine.
