(* ===== verification/EngineLock.v ===== *)
(** * core/engine: what goes into the lock, and what may not.

    The request digest depends on what was asked for and not on where it lies,
    and the finished lock names neither of the two directories the build used. *)
From S2P Require Export EngineTypes HostText.
#[local] Open Scope Z_scope.

(** ** Every string of a lock *)

Definition origin_strings (o : Origin) : list gostring :=
  [o_URI o; o_LocalPath o; o_Suite o; o_Component o; o_ReleaseDigest o; o_KeyFingerprint o].
Definition package_strings (p : Package) : list gostring :=
  [p_Name p; p_Arch p; p_Version p; p_SourcePackage p; p_Filename p; p_SHA256 p] ++ origin_strings (p_Origin p)
  ++ [p_Reason p; p_PublisherVerification p] ++ p_Flags p.
Definition target_strings (t : Target) : list gostring :=
  [t_DistroID t; t_VersionID t; t_Codename t; t_Arch t] ++ t_ForeignArchs t ++ [t_APTVersion t; t_DpkgVersion t].
Definition resolver_strings (r : Resolver) : list gostring :=
  [r_Backend r; r_Image r; r_ImageDigest r; r_APTVersion r; r_DpkgVersion r] ++ r_APTOptions r ++ [r_PhasedUpdates r; r_SolverDivergence r].
Definition closed_world_strings (c : ClosedWorld) : list gostring := [cw_Result c; cw_CommandDigest c; cw_OutputDigest c; cw_Detail c].
Definition warning_strings (w : Warning) : list gostring := [w_Code w; w_Message w] ++ w_Packages w.
Definition unresolved_strings (u : Unresolved) : list gostring := [u_Input u; u_Kind u; u_Detail u] ++ u_Missing u.
Definition lock_strings (l : Lock) : list gostring :=
  [l_SchemaVersion l; l_CreatedAt l; l_SnapshotDigest l; l_RequestDigest l] ++ target_strings (l_Target l)
  ++ resolver_strings (l_Resolver l) ++ concat (map package_strings (l_Packages l)) ++ l_Install l
  ++ closed_world_strings (l_ClosedWorld l) ++ concat (map warning_strings (l_Warnings l))
  ++ concat (map unresolved_strings (l_Unresolved l)).

Lemma concat_map_scrub {A} (strings : A → list gostring) (scrub : A → A) fn l :
  (∀ x, strings (scrub x) = map fn (strings x)) → concat (map strings (map scrub l)) = map fn (concat (map strings l)).
Proof. intros H. induction l as [|x l IH]; cbn [map concat]; [done|]. by rewrite H, IH, map_app. Qed.
Lemma scrubStrings_strings fn l : lock_strings (scrubStrings fn l) = map fn (lock_strings l).
Proof.
  destruct l as [a b c d t r ps i cw ws us st]. unfold lock_strings, scrubStrings. cbn.
  rewrite (concat_map_scrub package_strings (scrub_Package fn) fn) by (by intros [? ? ? ? ? ? ? []]).
  rewrite (concat_map_scrub warning_strings (scrub_Warning fn) fn) by (by intros []).
  rewrite (concat_map_scrub unresolved_strings (scrub_Unresolved fn) fn) by (by intros []).
  unfold target_strings, resolver_strings, closed_world_strings. destruct t, r, cw. cbn. repeat (rewrite map_app; cbn). repeat f_equal.
Qed.

Lemma map_fixed {A} (f : A → A) l : Forall (λ x, f x = x) l → map f l = l.
Proof. induction 1 as [|x l Hx _ IH]; cbn [map]; [done|]. by rewrite Hx, IH. Qed.
Lemma map_fixed_concat {A} (strings : A → list gostring) (scrub : A → A) fn l :
  (∀ x, Forall (λ s, fn s = s) (strings x) → scrub x = x) → Forall (λ s, fn s = s) (concat (map strings l)) → map scrub l = l.
Proof.
  intros H Hl. apply map_fixed. rewrite Forall_concat, Forall_map in Hl. eapply Forall_impl; [exact Hl|]. exact H.
Qed.
Ltac fixed := repeat match goal with
  | H : Forall _ (_ ++ _) |- _ => apply Forall_app in H as [? ?]
  | H : Forall _ (_ :: _) |- _ => apply Forall_cons in H as [? ?]
  end; f_equal; auto using map_fixed.
(** A function that changes none of its strings leaves a lock as it is. *)
Lemma scrubStrings_id fn l : Forall (λ s, fn s = s) (lock_strings l) → scrubStrings fn l = l.
Proof.
  destruct l as [a b c d t r ps i cw ws us st]. unfold lock_strings, scrubStrings. cbn [l_SchemaVersion l_CreatedAt l_SnapshotDigest
    l_RequestDigest l_Target l_Resolver l_Packages l_Install l_ClosedWorld l_Warnings l_Unresolved l_Stats]. intros H. fixed.
  - destruct t. unfold target_strings, scrub_Target in *. cbn in *. fixed.
  - destruct r. unfold resolver_strings, scrub_Resolver in *. cbn in *. fixed.
  - eapply map_fixed_concat; [|done]. intros [? ? ? ? ? ? ? []] Hp. unfold package_strings, scrub_Package, scrub_Origin in *. cbn in *. fixed. fixed.
  - destruct cw. unfold closed_world_strings, scrub_ClosedWorld in *. cbn in *. fixed.
  - eapply map_fixed_concat; [|done]. intros [] Hp. unfold warning_strings, scrub_Warning in *. cbn in *. fixed.
  - eapply map_fixed_concat; [|done]. intros [] Hp. unfold unresolved_strings, scrub_Unresolved in *. cbn in *. fixed.
Qed.

Lemma placeholders : placeholder workRootPlaceholder ∧ placeholder bundleDirPlaceholder.
Proof. split; (split; [by eexists|]; by apply contains_byte_false). Qed.
Lemma host_paths_spec workRoot bundleDir first : let r := host_paths workRoot bundleDir first in
  Forall (λ r, placeholder r.2) r ∧ ∀ p, p ∈ map fst r ↔ p = workRoot ∨ p = bundleDir.
Proof.
  destruct placeholders as [H1 H2]. unfold host_paths. destruct (streq workRoot bundleDir) eqn:E.
  - apply streq_true in E as ->. split; [by constructor|]. cbn. set_solver.
  - destruct first; (split; [by constructor; [|constructor]|]); cbn; set_solver.
Qed.
Lemma scrubHostPaths_eq workRoot bundleDir first l : host_path workRoot → host_path bundleDir →
  scrubHostPaths (host_paths workRoot bundleDir first) l = scrubStrings (scrub_text (host_paths workRoot bundleDir first)) l.
Proof.
  assert (∀ p, host_path p → streq p "" = false) as H by (by intros [|c p] [Hp _]).
  intros H1%H H2%H. unfold host_paths, scrubHostPaths. destruct (streq workRoot bundleDir); [|destruct first]; cbn; by rewrite ?H1, ?H2.
Qed.
Definition without_downloads (l : Lock) : Lock :=
  let s := l_Stats l in
  mkLock (l_SchemaVersion l) (l_CreatedAt l) (l_SnapshotDigest l) (l_RequestDigest l) (l_Target l) (l_Resolver l) (l_Packages l)
    (l_Install l) (l_ClosedWorld l) (l_Warnings l) (l_Unresolved l)
    (mkStats (s_Added s) (s_Removed s) (s_Unchanged s) (s_Bytes s) 0).

(** (C24) The lock that is written says nothing of the machine that built it: no
    string of it, in any field, holds the work directory or the bundle's
    directory, in whichever order Go visits the two, and nothing is said of what
    the store happened to hold. A lock that named neither directory is otherwise
    left as it was. The paths must be absolute, and without a [<], with which the
    placeholders begin: the replacement of one directory can make a name of the
    other that has one ([angle_bracket]). *)
Theorem lock_host_free workRoot bundleDir first l
    (Hw : has_prefix "/" workRoot = true) (Hw' : "<"%char ∉ workRoot) (Hb : has_prefix "/" bundleDir = true) (Hb' : "<"%char ∉ bundleDir) :
  let l' := makeLockReproducible workRoot bundleDir first l in
  (∀ s, s ∈ lock_strings l' → ¬ occurs workRoot s ∧ ¬ occurs bundleDir s)
  ∧ l_Stats l' = l_Stats (without_downloads l)
  ∧ ((∀ s, s ∈ lock_strings l → ¬ occurs workRoot s ∧ ¬ occurs bundleDir s) → l' = without_downloads l).
Proof.
  cbv zeta. destruct (host_paths_spec workRoot bundleDir first) as [Hph Hin]. unfold makeLockReproducible.
  rewrite scrubHostPaths_eq by done. set (repl := host_paths workRoot bundleDir first) in *.
  assert (∀ l, lock_strings (stripCacheDependentStats l) = lock_strings l) as Hstrip by done.
  split_and!.
  - intros s. rewrite Hstrip, scrubStrings_strings. intros (s0 & -> & _)%list_elem_of_fmap.
    split; (apply scrub_text_gone; [done..|]; apply Hin; tauto).
  - done.
  - intros Hfree. rewrite scrubStrings_id; [done|]. apply Forall_forall. intros s Hs. apply scrub_text_id. intros p Hp. destruct (Hfree s Hs).
    apply Hin in Hp as [ -> | -> ]; done.
Qed.

(** ** A bundle directory that is not absolute *)

Definition initial_lock (name : gostring) : Lock := buildInitialLock (hosts := plain_hosts) (H := sample_jcs)
  (mkRequest [] [] (mkInputs [name] [] [] [] []) (mkOptions None false [] false [] ∅ [] [] [] [] false [] false [] None)
    (mkOutput "bundle" [] (mkSignOptions [] false [])))
  "2025-01-02T03:04:05Z" (Bytes []) (SnapshotTypes.mkTarget "ubuntu" "24.04" "noble" [] "amd64" [] [] [] [] None) "amd64"
  (mkPlan (LockTypes.mkTarget [] [] [] [] [] [] []) (mkResolver BackendLocal [] [] "2.7" "1.22" [] "never-include" true [])
     [mkSelection name "amd64" "1.0" [] [] (name ++ "_1.0_all.deb") 4 (Bytes [])
        [] (mkOrigin [] [] [] [] [] []) ReasonRequested VerifiedAPTSigned false [] [] false]
     [name ++ ":amd64=1.0"] [] []) [] 4.
(** It, checked. *)
Definition built_lock (name : gostring) : Lock :=
  let l := initial_lock name in
  mkLock (l_SchemaVersion l) (l_CreatedAt l) (l_SnapshotDigest l) (l_RequestDigest l) (l_Target l) (l_Resolver l) (l_Packages l)
    (l_Install l) (mkClosedWorld ClosedWorldOK [] [] []) (l_Warnings l) (l_Unresolved l) (l_Stats l).
(** The default output is "bundle", and any name with that word in it is
    rewritten: the lock of such a package is refused once everything else is
    done. *)
Example relative_bundle_dir :
  Validate (makeLockReproducible "/tmp/debark-build-1" "/srv/bundle" true (built_lock "bundler")) = None
  ∧ Validate (makeLockReproducible "/tmp/debark-build-1" "bundle" true (built_lock "bundler")) ≠ None
  ∧ map p_Name (l_Packages (makeLockReproducible "/tmp/debark-build-1" "bundle" true (built_lock "bundler"))) = [bytes_of "<BUNDLE-DIR>r"].
Proof. vm_compute. split_and!; [done|done|done]. Qed.
(** With one directory below the other the lock depends on the order of a map. *)
Example map_order :
  scrub_text (host_paths "/tmp/debark-build-1" "/tmp" true) "/tmp/debark-build-1/root" = "<BUNDLE-DIR>/debark-build-1/root"
  ∧ scrub_text (host_paths "/tmp/debark-build-1" "/tmp" false) "/tmp/debark-build-1/root" = "<BUILD-WORKDIR>/root".
Proof. by vm_compute. Qed.

(** What a [<] in a directory's name can do: the directory is in the result. *)
Example angle_bracket :
  scrub_text (host_paths "/w" "/b<BUILD-WORKDIR>" true) "/b/w/x" = "/b<BUILD-WORKDIR>/x".
Proof. by vm_compute. Qed.

Lemma lock_host_free_witness : (has_prefix "/" "/tmp/debark-build-1" = true ∧ has_prefix "/" "/srv/bundle" = true)
  ∧ l_Stats (makeLockReproducible "/tmp/debark-build-1" "/srv/bundle" false (built_lock "curl")) = mkStats 0 0 0 4 0.
Proof.
  split; [split; reflexivity|].
  refine (proj1 (proj2 (lock_host_free "/tmp/debark-build-1" "/srv/bundle" false (built_lock "curl") eq_refl _ eq_refl _)));
    (apply contains_byte_false; reflexivity).
Defined.

(** ** The request digest *)

(** The last name of a path: nothing for no path, a slash for slashes alone. *)
Definition last_name (p b : gostring) : Prop :=
  p = [] ∧ b = []
  ∨ p ≠ [] ∧ Forall (λ c, c = slash) p ∧ b = [slash]
  ∨ ∃ dir slashes, p = dir ++ b ++ slashes ∧ b ≠ [] ∧ (slash ∉ b) ∧ Forall (λ c, c = slash) slashes ∧ (dir = [] ∨ ∃ d, dir = d ++ [slash]).
Definition same_name (p q : gostring) : Prop := ∃ b, last_name p b ∧ last_name q b.
Definition same_names (l k : list gostring) : Prop := ∃ bs cs, Forall2 last_name l bs ∧ Forall2 last_name k cs ∧ bs ≡ₚ cs.
(** Two requests for the same thing, written out. *)
Record same_request (a b : BuildRequest) : Prop := {
  sr_packages : in_Packages (br_Inputs a) ≡ₚ in_Packages (br_Inputs b);
  sr_urls : in_URLs (br_Inputs a) ≡ₚ in_URLs (br_Inputs b);
  sr_files : same_names (in_Files (br_Inputs a)) (in_Files (br_Inputs b));
  sr_dirs : same_names (in_LocalDirs (br_Inputs a)) (in_LocalDirs (br_Inputs b));
  sr_lists : same_names (in_ListFiles (br_Inputs a)) (in_ListFiles (br_Inputs b));
  sr_recommends : op_Recommends (br_Options a) = op_Recommends (br_Options b);
  sr_upgrades : op_Upgrades (br_Options a) = op_Upgrades (br_Options b);
  sr_mode : op_UpdateMode (br_Options a) = op_UpdateMode (br_Options b);
  sr_prune : op_Prune (br_Options a) = op_Prune (br_Options b);
  sr_arch : op_ArchOverride (br_Options a) = op_ArchOverride (br_Options b);
  sr_mirrors : op_MirrorOverrides (br_Options a) = op_MirrorOverrides (br_Options b);
  sr_backend : op_Backend (br_Options a) = op_Backend (br_Options b);
  sr_image : op_Image (br_Options a) = op_Image (br_Options b);
  sr_policy : same_name (op_PolicyRef (br_Options a)) (op_PolicyRef (br_Options b));
  sr_keys : same_name (op_ApprovedKeysRef (br_Options a)) (op_ApprovedKeysRef (br_Options b));
  sr_acknowledged : op_AcknowledgeRedistribution (br_Options a) = op_AcknowledgeRedistribution (br_Options b);
  sr_binary : same_name (op_EmbedBinary (br_Options a)) (op_EmbedBinary (br_Options b));
  sr_sbom : op_SBOM (br_Options a) = op_SBOM (br_Options b);
  sr_closed : op_ClosedWorldCheck (br_Options a) = op_ClosedWorldCheck (br_Options b)
}.

Lemma drop_slashes s q : Forall (λ c, c = slash) s → head q ≠ Some slash → drop_in [slash] (s ++ q) = q.
Proof.
  intros Hs Hq. induction Hs as [|c s -> _ IH]; cbn [app drop_in]; [|done]. destruct q as [|c q]; [done|]. cbn [drop_in].
  destruct (contains_byte c [slash]) eqn:E; [|done]. exfalso. apply Hq. cbn. apply contains_byte_spec in E.
  by apply list_elem_of_singleton in E as ->.
Qed.
Lemma drop_slashes_inv s : ∃ t, s = t ++ drop_in [slash] s ∧ Forall (λ c, c = slash) t ∧ head (drop_in [slash] s) ≠ Some slash.
Proof.
  induction s as [|c s (t & E & Ht & Hh)]; [exists []; by split_and!|]. cbn [drop_in]. destruct (contains_byte c [slash]) eqn:Ec.
  - apply contains_byte_spec, list_elem_of_singleton in Ec as ->. exists (slash :: t). cbn [app]. rewrite <- E. split_and!; [done|by constructor|done].
  - exists []. split_and!; [done|constructor|]. intros [= ->]. by vm_compute in Ec.
Qed.
Lemma join_snoc c l x : l ≠ [] → join [c] (l ++ [x]) = join [c] l ++ c :: x.
Proof.
  induction l as [|w [|v l] IH]; intros H; [done|done|].
  change (join [c] ((w :: v :: l) ++ [x])) with (w ++ [c] ++ join [c] ((v :: l) ++ [x])). rewrite IH by done.
  change (join [c] (w :: v :: l)) with (w ++ [c] ++ join [c] (v :: l)). by rewrite <- !app_assoc.
Qed.
Lemma last_split q : let b := List.last (split slash q) [] in
  (slash ∉ b) ∧ ∃ dir, q = dir ++ b ∧ (dir = [] ∨ ∃ d, dir = d ++ [slash]).
Proof.
  cbv zeta. pose proof (join_split slash q) as Hj. pose proof (split_no_sep slash q) as Hn.
  destruct (snoc_cases (split slash q)) as [E|(l & x & E)]; rewrite E in *; [by apply split_nonempty in E|].
  rewrite last_last. split; [apply Hn, elem_of_app; right; by left|]. destruct l as [|w l]; [exists []; split; [done|by left]|].
  rewrite join_snoc in Hj by done. exists (join [slash] (w :: l) ++ [slash]). rewrite <- app_assoc. split; [done|]. right. by eexists.
Qed.
Lemma last_name_base p b : last_name p b ↔ b = baseNameOf p.
Proof.
  unfold baseNameOf, Base. split.
  - intros [[-> ->]|[(Hp & Hs & ->)|(dir & sl & -> & Hb & Hn & Hs & Hd)]]; [done| |].
    + assert (streq p "" = false) as -> by by apply streq_false_iff. unfold trim_right. rewrite <- (app_nil_r (rev p)), drop_slashes; [done| |done].
      by apply Forall_rev.
    + assert (streq (dir ++ b ++ sl) "" = false) as -> by (apply streq_false_iff; intros (_ & (E & _)%app_eq_nil)%app_eq_nil; done).
      assert (trim_right [slash] (dir ++ b ++ sl) = dir ++ b) as ->.
      { unfold trim_right. rewrite app_assoc, rev_app_distr, drop_slashes; [apply rev_involutive|by apply Forall_rev|].
        destruct (snoc_cases b) as [->|(b' & x & ->)]; [done|]. rewrite app_assoc, rev_app_distr. cbn. intros [= ->]. apply Hn, elem_of_app. right. by left. }
      assert (List.last (split slash (dir ++ b)) [] = b) as ->; [|by rewrite (proj2 (streq_false_iff b "") Hb)].
      destruct Hd as [->|[d ->]]; [cbn [app]; by rewrite split_no_occur|]. rewrite <- app_assoc. cbn [app]. rewrite split_app.
      rewrite (split_no_occur slash b) by done. by rewrite last_last.
  - intros ->. destruct (streq p "") eqn:E; [apply streq_true in E as ->; by left|]. apply streq_false_iff in E. right. cbv zeta.
    destruct (drop_slashes_inv (rev p)) as (t & Hr & Ht & Hh). apply (f_equal (@rev ascii)) in Hr. rewrite rev_involutive, rev_app_distr in Hr.
    fold (trim_right [slash] p) in Hr. destruct (last_split (trim_right [slash] p)) as (Hn & dir & Hd & Hdir).
    set (b := List.last _ _) in *. destruct (streq b "") eqn:Eb.
    + left. apply streq_true in Eb. split_and!; [done| |done]. rewrite Hd, Eb, app_nil_r in Hr.
      destruct Hdir as [->|[d ->]]; [cbn [app] in Hr; rewrite Hr; by apply Forall_rev|].
      exfalso. rewrite Eb, app_nil_r in Hd. unfold trim_right in Hd. apply (f_equal (@rev ascii)) in Hd.
      rewrite rev_involutive, rev_app_distr in Hd. rewrite Hd in Hh. by apply Hh.
    + right. apply streq_false_iff in Eb. exists dir, (rev t). rewrite app_assoc, <- Hd. split_and!; [done..| |done]. by apply Forall_rev.
Qed.
Lemma same_name_base p q : same_name p q ↔ baseNameOf p = baseNameOf q.
Proof.
  unfold same_name. setoid_rewrite last_name_base. split; [by intros (b & -> & H)|]. intros H. by exists (baseNameOf p).
Qed.
Lemma last_names l bs : Forall2 last_name l bs ↔ bs = map baseNameOf l.
Proof.
  split.
  - induction 1 as [|p b l bs ->%last_name_base _ IH]; [done|]. cbn [map]. by rewrite IH.
  - intros ->. induction l as [|p l IH]; constructor; [by apply last_name_base|done].
Qed.
Lemma same_names_base l k : same_names l k ↔ map baseNameOf l ≡ₚ map baseNameOf k.
Proof.
  unfold same_names. setoid_rewrite last_names. split; [by intros (bs & cs & -> & -> & H)|]. intros H. by eexists _, _.
Qed.
Lemma sort_strings_iff l k : sort_strings l = sort_strings k ↔ l ≡ₚ k.
Proof.
  split.
  - intros H. by rewrite <- (sort_strings_perm l), <- (sort_strings_perm k), H.
  - apply sort_by_ext; [exact str_leb_total|exact str_leb_trans|exact str_leb_antisym].
Qed.
Lemma url_leb_spec a b : url_leb a b = true ↔
  (ui_URL a ≠ ui_URL b ∧ str_leb (ui_URL a) (ui_URL b) = true) ∨ (ui_URL a = ui_URL b ∧ str_leb (ui_SHA256 a) (ui_SHA256 b) = true).
Proof.
  unfold url_leb. destruct (streq (ui_URL a) (ui_URL b)) eqn:E; cbn [negb].
  - apply streq_true in E. naive_solver.
  - apply streq_false_iff in E. naive_solver.
Qed.
Lemma url_leb_total a b : url_leb a b = true ∨ url_leb b a = true.
Proof.
  rewrite !url_leb_spec. destruct (decide (ui_URL a = ui_URL b)) as [E|E].
  - destruct (str_leb_total (ui_SHA256 a) (ui_SHA256 b)); [left|right]; by right.
  - destruct (str_leb_total (ui_URL a) (ui_URL b)); [left|right]; left; (split; [congruence|done]).
Qed.
Lemma url_leb_antisym a b : url_leb a b = true → url_leb b a = true → a = b.
Proof.
  rewrite !url_leb_spec. intros [[E H]|[E H]] [[E' H']|[E' H']]; try congruence.
  - destruct E. by apply str_leb_antisym.
  - destruct a, b. cbn in *. f_equal; [done|]. by apply str_leb_antisym.
Qed.
Lemma url_leb_trans a b c : url_leb a b = true → url_leb b c = true → url_leb a c = true.
Proof.
  rewrite !url_leb_spec. intros [[E H]|[E H]] [[E' H']|[E' H']].
  - left. split; [|by eapply str_leb_trans]. intros Hc. destruct E. apply str_leb_antisym; [done|]. by rewrite Hc.
  - left. by rewrite <- E'.
  - left. by rewrite E.
  - right. split; [congruence|]. by eapply str_leb_trans.
Qed.
Lemma sort_urls_iff l k : sort_by url_leb l = sort_by url_leb k ↔ l ≡ₚ k.
Proof.
  split.
  - intros H. by rewrite <- (sort_by_perm url_leb l), <- (sort_by_perm url_leb k), H.
  - apply sort_by_ext; [exact url_leb_total|exact url_leb_trans|exact url_leb_antisym].
Qed.

(** The document of a request says what the request's digest is taken of. *)
Lemma present_inj fs gs : map fst fs = map fst gs → NoDup (map fst fs) → present fs = present gs → fs = gs.
Proof.
  revert gs. induction fs as [|[k v] fs IH]; intros [|[k' v'] gs]; [done|done|done|]. cbn [map fst]. intros [= <- Hk] [Hn Hd]%NoDup_cons H.
  assert (∀ v gs', present fs ≠ (k, v) :: gs') as H1.
  { intros x gs' E. apply Hn, (present_keys _ k). rewrite E. by left. }
  assert (∀ v gs', present gs ≠ (k, v) :: gs') as H2.
  { intros x gs' E. apply Hn. rewrite Hk. apply (present_keys _ k). rewrite E. by left. }
  destruct v as [v|], v' as [v'|]; cbn [present] in H.
  - injection H as -> H. by rewrite (IH gs).
  - exfalso. by eapply H2.
  - exfalso. by eapply H1.
  - by rewrite (IH gs).
Qed.
Lemma enc_struct_inj fs gs : map fst fs = map fst gs → NoDup (map fst fs) → enc_struct fs = enc_struct gs → fs = gs.
Proof. intros H1 H2 H. apply present_inj; [done..|]. unfold enc_struct in H. congruence. Qed.
Lemma omit_string_inj s t : omit_string s = omit_string t → s = t.
Proof. destruct s, t; cbn; congruence. Qed.
Lemma omit_bool_inj a b : omit_bool a = omit_bool b → a = b.
Proof. by destruct a, b. Qed.
Lemma fmap_bool_inj (a b : option bool) : JBool <$> a = JBool <$> b → a = b.
Proof. destruct a, b; cbn; congruence. Qed.
Lemma omit_slice_inj {A} (e : A → json) l k : (∀ x y, e x = e y → x = y) → omit_slice e l = omit_slice e k → l = k.
Proof.
  intros He H. assert (map e l = map e k) as Hm by (destruct l, k; cbn in *; congruence).
  clear H. revert k Hm. induction l as [|x l IH]; intros [|y k]; cbn [map]; [done|done|done|]. intros [= ->%He Hl]. by rewrite (IH k).
Qed.
Lemma sorted_keys_in {A} (m : gmap gostring A) k : k ∈ SnapshotTypes.sorted_keys m ↔ is_Some (m !! k).
Proof.
  unfold SnapshotTypes.sorted_keys. rewrite sort_strings_perm. rewrite list_elem_of_fmap. split.
  - intros ([k' v] & -> & H%elem_of_map_to_list). by exists v.
  - intros [v H%elem_of_map_to_list]. by exists (k, v).
Qed.
Lemma enc_labels_inj m n : SnapshotTypes.enc_labels m = SnapshotTypes.enc_labels n → m = n.
Proof.
  unfold SnapshotTypes.enc_labels. intros H. set (f := λ (m : gmap gostring gostring) k, (k, JStr (default [] (m !! k)))).
  assert (map (f m) (SnapshotTypes.sorted_keys m) = map (f n) (SnapshotTypes.sorted_keys n)) as Hm.
  { unfold f. destruct (SnapshotTypes.sorted_keys m), (SnapshotTypes.sorted_keys n); [done|done|done|].
    exact (f_equal (λ o, match o with Some (JObj l) => l | _ => [] end) H). }
  assert (SnapshotTypes.sorted_keys m = SnapshotTypes.sorted_keys n) as Hk.
  { apply (f_equal (map fst)) in Hm. unfold f in Hm. rewrite !map_map in Hm. cbn [fst] in Hm. by rewrite !map_id in Hm. }
  apply map_eq. intros k. rewrite Hk in Hm. assert (∀ l, map (f m) l = map (f n) l → k ∈ l → f m k = f n k) as Hf.
  { induction l as [|x l IH]; [by intros _ ?%elem_of_nil|]. cbn [map]. intros Hx [->|Hin]%elem_of_cons; [exact (f_equal (λ l, List.hd (f m x) l) Hx)|].
    apply IH; [|done]. exact (f_equal (λ l, List.tl l) Hx). }
  pose proof (sorted_keys_in m k) as Sm. pose proof (sorted_keys_in n k) as Sn. rewrite Hk in Sm.
  destruct (m !! k) as [v|] eqn:Em.
  - assert (k ∈ SnapshotTypes.sorted_keys n) as Hin by (apply Sm; by eexists). destruct (proj1 Sn Hin) as [w Hw].
    specialize (Hf _ Hm Hin). unfold f in Hf. rewrite Em, Hw in Hf. cbn [default] in Hf. injection Hf as ->. by rewrite Hw.
  - destruct (n !! k) as [w|] eqn:En; [|done]. destruct (proj1 Sm (proj2 Sn (ex_intro _ w eq_refl))) as [? [=]].
Qed.
Ltac fields_of H := apply enc_struct_inj in H; [|cbn [map fst]; reflexivity|cbn [map fst]; apply (bool_decide_unpack _); vm_compute; exact I].
Lemma enc_Options_inj o p : op_StoreDir o = op_StoreDir p → enc_Options o = enc_Options p → o = p.
Proof.
  intros Hs H. unfold enc_Options in H. fields_of H.
  injection H as H1 H2 H3 H4 H5 H6 H7 H8 H9 H10 H11 H12 H13 H14 H15.
  apply fmap_bool_inj in H1, H11. apply omit_bool_inj in H2, H4, H9, H10. apply omit_string_inj in H3, H5, H7, H8, H13, H14, H15.
  apply enc_labels_inj in H6. destruct o, p. cbn in *. by subst.
Qed.
Lemma enc_URLInput_inj u v : enc_URLInput u = enc_URLInput v → u = v.
Proof.
  destruct u as [u s], v as [u' s']. intros E. unfold enc_URLInput in E. cbn [ui_URL ui_SHA256] in E. fields_of E. injection E as E1 E2.
  apply omit_string_inj in E2. congruence.
Qed.
Lemma enc_digestInput_inj x y : op_StoreDir (rd_Options x) = op_StoreDir (rd_Options y) →
  enc_requestDigestInput x = enc_requestDigestInput y → x = y.
Proof.
  destruct x as [p u f d l o], y as [p' u' f' d' l' o']. unfold enc_requestDigestInput.
  cbn [rd_Packages rd_URLs rd_FileNames rd_LocalDirNames rd_ListFileNames rd_Options]. intros Hs H.
  remember (enc_Options o) as eo eqn:Eo. remember (enc_Options o') as eo' eqn:Eo'. fields_of H. injection H as H1 H2 H3 H4 H5 H6.
  assert (∀ x y, JStr x = JStr y → x = y) as HJ by congruence. rewrite Eo, Eo' in H6. apply enc_Options_inj in H6; [|done]. clear Eo Eo'.
  apply (omit_slice_inj _ _ _ HJ) in H1, H3, H4, H5. apply (omit_slice_inj _ _ _ enc_URLInput_inj) in H2. by subst.
Qed.

(** (C26) The document whose digest a lock records says exactly what was asked
    for: two requests give the same document when they name the same packages and
    URLs, and the same files, directories and lists by their last names, whatever
    the order, and set each option alike, the policy, the approved keys and the
    binary by their last names; and only then. So a request that differs in an
    option has another document, and the directory a vendor's file lies in, the
    store, the snapshot's path and the output change nothing of the digest. *)
Theorem request_digest_spec `{JCS} a b :
  (enc_requestDigestInput (newRequestDigestInput a) = enc_requestDigestInput (newRequestDigestInput b) ↔ same_request a b)
  ∧ (same_request a b → requestDigest a = requestDigest b).
Proof.
  assert (newRequestDigestInput a = newRequestDigestInput b ↔ same_request a b) as Hiff.
  { unfold newRequestDigestInput, sortedBaseNames, requestDigestOptions. split.
    - intros Heq. injection Heq as E1 E2 E3 E4 E5 E6 E7 E8 E9 E10 E11 E12 E13 E14 E15 E16 E17 E18 E19.
      apply sort_strings_iff in E1, E3, E4, E5. apply sort_urls_iff in E2.
      constructor; by (rewrite ?same_names_base, ?same_name_base).
    - intros [H1%sort_strings_iff H2%sort_urls_iff H3%same_names_base%sort_strings_iff H4%same_names_base%sort_strings_iff
        H5%same_names_base%sort_strings_iff H6 H7 H8 H9 H10 H11 H12 H13 H14%same_name_base H15%same_name_base H16 H17%same_name_base H18 H19].
      by rewrite H1, H2, H3, H4, H5, H6, H7, H8, H9, H10, H11, H12, H13, H14, H15, H16, H17, H18, H19. }
  split; [|intros Hs%Hiff; unfold requestDigest; by rewrite Hs].
  rewrite <- Hiff. split; [by apply enc_digestInput_inj|]. by intros ->.
Qed.

(** The same vendor's file on two machines; another file. *)
Definition request_of (file store : gostring) : BuildRequest :=
  mkRequest [] [] (mkInputs [bytes_of "curl"] [] [file] [] [])
    (mkOptions None false [] false [] ∅ [] [] [] [] false [] false store None) (mkOutput "bundle" [] (mkSignOptions [] false [])).
Example same_file_elsewhere : requestDigest (H := sample_jcs) (request_of "/home/alice/acme_1.deb" "/var/cache/debark")
    = requestDigest (H := sample_jcs) (request_of "/builds/acme/acme_1.deb" [])
  ∧ requestDigest (H := sample_jcs) (request_of "/builds/acme/acme_2.deb" []) ≠ requestDigest (H := sample_jcs) (request_of "/builds/acme/acme_1.deb" []).
Proof. vm_compute. by split. Qed.
