(* ===== verification/EngineSafe.v ===== *)
(** * What a build may do, and when.

    What a stage adds to the trace, stage by stage; that nothing is written
    before the policy has let everything pass; and the order of the last writes. *)
From S2P Require Export Engine.
From S2P Require SnapshotTypes SnapshotArchive SnapshotOpen Manifest FetchDeb.
From S2P Require Import Dferr LockTypes EngineLock.
#[local] Open Scope Z_scope.

(** ** What a stage adds to the trace *)

Abbreviation adds := (RunMonad.adds st_trace).
Lemma adds_send P e : adds P (send e).
Proof. by apply adds_still. Qed.
Lemma adds_act P {A} a (f : history → result goerror A) : P a → adds P (act a f).
Proof. intros Ha s. exists [a]. by repeat constructor. Qed.

Lemma wp_act {A} a (f : history → result goerror A) (Q : A → state → Prop) F s :
  match f (st_trace s) with
  | Ok x => Q x (mkState (st_trace s ++ [a]) (st_events s))
  | Err e => F e (mkState (st_trace s ++ [a]) (st_events s))
  end → wp (act a f) Q F s.
Proof. unfold wp, act. by destruct (f (st_trace s)). Qed.
Lemma classified_ok {A} c (r : result goerror A) a : classified c r = Ok a → r = Ok a.
Proof. by destruct r; [intros [= ->]|]. Qed.
Lemma wrapped_ok {A} (r : result goerror A) a : wrapped r = Ok a → r = Ok a.
Proof. by destruct r; [intros [= ->]|]. Qed.

Ltac adds_own :=
  idtac;
  match goal with
  | |- RunMonad.adds _ _ (act _ _) => apply adds_act; try first [exact I|exact (conj I I)|exact (conj I eq_refl)|reflexivity]
  | |- RunMonad.adds _ _ (do_ _) => apply adds_act; try first [exact I|exact (conj I I)|exact (conj I eq_refl)|reflexivity]
  | |- RunMonad.adds _ _ (look _) => apply adds_gets
  | |- RunMonad.adds _ _ (Engine.emit _ _) => apply adds_send
  | |- RunMonad.adds _ _ (Engine.warn _ _) => apply adds_send
  | |- RunMonad.adds _ _ usage => apply adds_fail
  end.
Ltac adds_all := repeat adds_step adds_own.

(** Nothing of the bundle is written or signed. *)
Definition quiet (a : action) : Prop :=
  match a with
  | AssembleBundle _ | SaveLock _ _ | WriteFile _ _ | BuildManifest _ | SaveManifest _ _ | Sign _ _ | SaveSignature _ _
  | ExportTar _ _ | RunDoctor _ | CheckClosedWorld _ => False
  | _ => True
  end.
(** And the solver has not been asked either. *)
Definition preparing (a : action) : Prop := quiet a ∧ match a with Resolve _ | EvaluatePolicy _ _ => False | _ => True end.

(** What is asked before the policy, with these keys, and after it, of this
    plan. *)
Definition planned (keys : list gostring) (a : action) : Prop :=
  quiet a ∧ match a with Resolve i => ri_ApprovedKeys i = keys | EvaluatePolicy _ _ => False | _ => True end.
Definition writing (plan : Plan) (a : action) : Prop :=
  match a with AssembleBundle i => ai_Plan i = plan | Resolve _ | EvaluatePolicy _ _ => False | _ => True end.
Lemma preparing_planned keys a : preparing a → planned keys a.
Proof. intros [Hq Ha]. split; [done|]. by destruct a. Qed.
Lemma planned_quiet keys a : planned keys a → quiet a.
Proof. by intros [? _]. Qed.

Section safe.
Context {unicode : UnicodeTables} {hosts : Hosts} `{JCS} (w : world) (deps : Deps) (req : BuildRequest).

Lemma loadSnapshot_adds : adds preparing (loadSnapshot w req).
Proof. unfold loadSnapshot. adds_all. Qed.
Lemma expandInputs_adds : adds preparing (expandInputs w req).
Proof. unfold expandInputs. adds_all. Qed.
Lemma stageExternals_adds createdAt workRoot arch e : adds preparing (stageExternals w createdAt workRoot arch e).
Proof. unfold stageExternals, stage_file, stage_url, name_staged, stage. adds_all. Qed.
Lemma selectBackend_adds : adds preparing (selectBackend w deps req).
Proof. unfold selectBackend. adds_all. Qed.
Lemma resolveDeps_adds : adds preparing (resolveDeps w deps req).
Proof. unfold resolveDeps, open_store, get_policy, get_keys, get_signer. adds_all. Qed.
Lemma ingestPlan_adds createdAt p : adds preparing (ingestPlan w createdAt p).
Proof. unfold ingestPlan, ingest. adds_all. Qed.
Lemma resolveWithBackend_adds workRoot snap e x keys :
  adds (planned keys) (resolveWithBackend w req workRoot snap e x keys).
Proof. unfold resolveWithBackend, attributeExternalOrigins, attribute_one. adds_all. Qed.
Lemma make_bundle_adds createdAt workRoot d snap plan bytes ws failures :
  adds (writing plan) (make_bundle w req createdAt workRoot d snap plan bytes ws failures).
Proof.
  unfold make_bundle, assemble, runDoctor, runClosedWorld, finalizeBundle, write_sbom, write_evidence, write, sign_bundle, or_remove, export.
  adds_all.
Qed.

(** The policy and the keys of this build. *)
Definition policy_of (pol : evaluator) : Prop :=
  match d_Policy deps with
  | Some p => pol = p
  | None => ∃ h, w_load_policy w h (op_PolicyRef (br_Options req)) = Ok pol
  end.
Definition keys_of (pol : evaluator) (keys : list gostring) : Prop := ∃ flag, keys = unionApprovedKeys flag (inlineApprovedKeys pol) ∧
  let ref := op_ApprovedKeysRef (br_Options req) in if streq ref "" then flag = [] else ∃ h, w_load_keys w h ref = Ok flag.

(** The signer of this build, and that a required one is there. *)
Definition signer_of (sgn : option signer) : Prop :=
  match d_Signer deps with
  | Some g => sgn = Some g
  | None => let ref := so_SignerRef (ou_Sign (br_Output req)) in
      if streq ref "" then sgn = None else ∃ g h, sgn = Some g ∧ w_signer_for w h ref = Ok g
  end ∧ (so_Required (ou_Sign (br_Output req)) = true → sgn ≠ None).

Definition resolved_ok (d : resolved) : Prop :=
  policy_of (rs_policy d) ∧ keys_of (rs_policy d) (rs_keys d) ∧ signer_of (rs_signer d).
Lemma get_signer_spec (Q : option signer * bool → state → Prop) s :
  (∀ sgn owned s', (so_Required (ou_Sign (br_Output req)) = true → sgn ≠ None) → signer_of sgn → Q (sgn, owned) s') →
  (∀ owned s', so_Required (ou_Sign (br_Output req)) = true → Q (None, owned) s') →
  wp (get_signer w deps req) Q (λ _ _, True) s.
Proof.
  intros Hs Hn. unfold get_signer. destruct (d_Signer deps) as [g|] eqn:Ed.
  - apply wp_ret, Hs; [done|]. split; [by rewrite Ed|done].
  - destruct (streq _ _) eqn:Er.
    + apply wp_ret. destruct (so_Required (ou_Sign (br_Output req))) eqn:Eq; [by apply Hn|]. apply Hs; [congruence|].
      split; [rewrite Ed; cbn zeta; by rewrite Er|congruence].
    + apply wp_bind, wp_act. destruct (classified _ _) as [g|e] eqn:E; [|done]. apply classified_ok in E.
      apply wp_ret, Hs; [done|]. split; [|done]. rewrite Ed. cbn zeta. rewrite Er. by exists g, (st_trace s).
Qed.
Lemma resolveDeps_spec s : wp (resolveDeps w deps req) (λ d _, resolved_ok d) (λ _ _, True) s.
Proof.
  unfold resolveDeps.
  apply wp_bind, wp_guard; [done|intros _]. apply wp_bind, wp_guard; [done|intros _].
  apply wp_bind. eapply (adds_wp st_trace (λ _, True)); [unfold open_store; adds_all|]. intros [[]|e] s1 ? _ _ _; [|done].
  apply wp_bind. assert (∀ Q : evaluator → state → Prop, (∀ pol s', policy_of pol → Q pol s') → wp (get_policy w deps req) Q (λ _ _, True) s1) as Hpol.
  { unfold get_policy, policy_of. intros Q HQ. destruct (d_Policy deps) as [p|]; [by apply wp_ret, HQ|].
    apply wp_act. destruct (classified _ _) as [p|e] eqn:E; [|done]. apply classified_ok in E. apply HQ. by eexists. }
  apply Hpol. intros pol s2 Hp. apply wp_bind. unfold get_keys.
  assert (∀ keys s3, keys_of pol keys → wp (ps ← get_signer w deps req; let '(sgn, owned) := ps in
     guard_with (bool_decide (sgn = None) && so_Required (ou_Sign (br_Output req))) (New Usage []);; mret (mkResolved pol keys sgn owned))
     (λ d _, resolved_ok d) (λ _ _, True) s3) as Hrest.
  { intros keys s3 Hk. apply wp_bind, get_signer_spec.
    - intros sgn owned s4 Hr Hs. apply wp_bind, wp_guard; [done|intros _]. by apply wp_ret.
    - intros owned s4 Hr. apply wp_bind, wp_guard; [done|]. by rewrite Hr. }
  destruct (streq _ _) eqn:Er.
  - apply wp_ret. refine (Hrest (unionApprovedKeys [] _) _ _). exists []. split; [done|]. cbn zeta. by rewrite Er.
  - apply wp_act. destruct (classified _ _) as [flag|e] eqn:E; [|done]. apply classified_ok in E. refine (Hrest (unionApprovedKeys flag _) _ _).
    exists flag. split; [done|]. cbn zeta. rewrite Er. by eexists.
Qed.

Lemma evaluatePolicy_spec pol keys snap p s (F := λ (_ : goerror) s', st_trace s' = st_trace s ++ [EvaluatePolicy p keys]) :
  wp (evaluatePolicy pol keys snap p) (λ _ s', F (New Policy []) s' ∧
    ∃ fs, ev_Evaluate pol (snapshot_of snap) p keys = Ok fs ∧ Forall (λ f, denied f = false) fs) F s.
Proof.
  unfold evaluatePolicy. apply wp_bind, wp_act. destruct (classified _ _) as [fs|e] eqn:E; [|done]. apply classified_ok in E.
  apply wp_bind. eapply (adds_wp st_trace (λ _, False)); [adds_all|]. intros r s1 new _ Hs1 Hnew.
  assert (new = []) as -> by (destruct new; [done|by inversion Hnew]). cbn in Hs1. rewrite app_nil_r in Hs1.
  destruct r as [us|e]; [|exact Hs1]. apply wp_bind, wp_guard; [done|]. intros Hd. apply wp_ret. split; [exact Hs1|].
  exists fs. split; [done|]. apply Forall_forall. intros f Hf. destruct (denied f) eqn:Ef; [|done].
  by rewrite (proj2 (existsb_exists denied fs) (ex_intro _ f (conj (proj1 (list_elem_of_In _ _) Hf) Ef))) in Hd.
Qed.

(** The trace of a build the policy let through. *)
Definition passed (tr : history) : Prop := ∃ pol snap plan keys fs q rest,
  tr = q ++ EvaluatePolicy plan keys :: rest ∧ policy_of pol ∧ keys_of pol keys ∧ Forall (planned keys) q
  ∧ ev_Evaluate pol snap plan keys = Ok fs ∧ Forall (λ f, denied f = false) fs ∧ Forall (writing plan) rest.
Definition stopped (tr : history) : Prop := Forall quiet tr ∨ passed tr.
Definition clean (a : action) : Prop := match a with RemoveAll _ | CloseSnapshot | CloseSigner => True | _ => False end.

Lemma passed_app tr new : passed tr → Forall clean new → passed (tr ++ new).
Proof.
  intros (pol & snap & plan & keys & fs & q & rest & -> & Hp & Hk & Hq & Hev & Hfs & Hrest) Hnew.
  exists pol, snap, plan, keys, fs, q, (rest ++ new). rewrite <- app_assoc. split_and!; try done.
  apply Forall_app. split; [done|]. eapply Forall_impl; [exact Hnew|]. by intros [].
Qed.
Lemma stopped_app tr new : stopped tr → Forall clean new → stopped (tr ++ new).
Proof.
  intros [Hq|Hp] Hnew; [left|right; by apply passed_app]. apply Forall_app. split; [done|].
  eapply Forall_impl; [exact Hnew|]. by intros [].
Qed.
Lemma wp_cleanup {A} c (m : build A) s : adds clean c →
  wp m (λ _ s', passed (st_trace s')) (λ _ s', stopped (st_trace s')) s →
  wp (finally c m) (λ _ s', passed (st_trace s')) (λ _ s', stopped (st_trace s')) s.
Proof.
  intros Hc Hm. apply wp_finally. eapply wp_mono; [exact Hm| |].
  - intros a s' Hp. destruct (Hc s') as (n & E & Hn). rewrite E. by apply passed_app.
  - intros e s' Hp. destruct (Hc s') as (n & E & Hn). rewrite E. by apply stopped_app.
Qed.
(** A step before the solver is asked. *)
Lemma wp_preparing {A} (m : build A) (Q : A → state → Prop) s : adds preparing m → Forall preparing (st_trace s) →
  (∀ a s', Forall preparing (st_trace s') → Q a s') → wp m Q (λ _ s', stopped (st_trace s')) s.
Proof.
  intros Hm Hs HQ. eapply adds_wp; [exact Hm|]. intros r s' new _ E Hnew.
  assert (Forall preparing (st_trace s')) as H' by (rewrite E; by apply Forall_app).
  destruct r as [a|e]; [by apply HQ|left]. eapply Forall_impl; [exact H'|]. by intros a [? _].
Qed.

Lemma plan_build_spec createdAt workRoot d snap s : policy_of (rs_policy d) → keys_of (rs_policy d) (rs_keys d) →
  Forall preparing (st_trace s) →
  wp (plan_build w deps req createdAt workRoot d snap) (λ r s', ∃ q fs, let plan := r.1.1.1 in
       st_trace s' = q ++ [EvaluatePolicy plan (rs_keys d)] ∧ Forall (planned (rs_keys d)) q
       ∧ ev_Evaluate (rs_policy d) (snapshot_of snap) plan (rs_keys d) = Ok fs ∧ Forall (λ f, denied f = false) fs)
    (λ _ s', stopped (st_trace s')) s.
Proof.
  intros Hp Hk Hs. unfold plan_build.
  apply wp_bind, wp_preparing; [apply expandInputs_adds|done|]. intros e s1 H1.
  apply wp_bind, wp_preparing; [apply stageExternals_adds|done|]. intros x s2 H2.
  apply wp_bind, wp_preparing; [apply selectBackend_adds|done|]. intros _ s3 H3.
  apply wp_bind. eapply adds_wp; [apply resolveWithBackend_adds|]. intros r s4 new _ E Hnew.
  assert (Forall (planned (rs_keys d)) (st_trace s4)) as H4.
  { rewrite E. apply Forall_app. split; [|done]. eapply Forall_impl; [exact H3|]. intros a. apply preparing_planned. }
  destruct r as [plan|e']; [|left; eapply Forall_impl; [exact H4|apply planned_quiet]].
  apply wp_bind. eapply adds_wp; [apply ingestPlan_adds|]. clear E Hnew. intros r s5 new' _ E Hnew.
  assert (Forall (planned (rs_keys d)) (st_trace s5)) as H5.
  { rewrite E. apply Forall_app. split; [done|]. eapply Forall_impl; [exact Hnew|]. intros a. apply preparing_planned. }
  destruct r as [[plan' bytes]|e']; [|left; eapply Forall_impl; [exact H5|apply planned_quiet]].
  apply wp_bind. eapply wp_mono; [apply evaluatePolicy_spec| |].
  - intros ws s6 (E6 & fs & Hev & Hfs). apply wp_ret. exists (st_trace s5), fs. by split_and!.
  - intros e' s6 E6. left. rewrite E6. apply Forall_app. split; [|by repeat constructor]. eapply Forall_impl; [exact H5|apply planned_quiet].
Qed.

(** (C5) Nothing of a bundle is written, signed or exported before the policy has
    passed what will be built. A build either has an error and only quiet
    actions behind it, or it asked the policy once, about the plan the
    bundle is then assembled from, with the keys apt was given, and no finding
    was a denial; the policy is the caller's or the file's, and the keys are the
    flag's and the policy's together. *)
Theorem policy_first : match run_Build w deps req with
  | (Ok _, s) => passed (st_trace s)
  | (Err _, s) => stopped (st_trace s)
  end.
Proof.
  change (wp (Build w deps req) (λ _ s, passed (st_trace s)) (λ _ s, stopped (st_trace s)) (mkState [] [])).
  unfold Build. apply wp_bind, wp_lift. destruct (EffectiveTime _ _) as [createdAt|e]; [|by left].
  apply wp_bind. eapply wp_mono; [apply wp_and; [apply (resolveDeps_spec (mkState [] []))|]| |].
  { apply wp_preparing with (Q := λ _ s', Forall preparing (st_trace s')); [apply resolveDeps_adds|done|done]. }
  2: { by intros e s [_ ?]. }
  intros d s [(Hp & Hk & _) Hs]. apply wp_cleanup; [destruct (rs_owned d); adds_all|].
  apply wp_bind, wp_preparing; [adds_all|done|]. intros workRoot s1 H1. apply wp_cleanup; [adds_all|].
  apply wp_bind, wp_preparing; [apply loadSnapshot_adds|done|]. intros snap s2 H2. apply wp_cleanup; [adds_all|].
  apply wp_bind. eapply wp_mono; [by apply plan_build_spec| |done].
  intros [[[plan bytes] ws] failures] s3 (q & fs & E & Hq & Hev & Hfs). cbn in E, Hev.
  eapply adds_wp; [apply make_bundle_adds|]. intros r s4 new _ E4 Hnew.
  assert (passed (st_trace s4)) as Hpass.
  { exists (rs_policy d), (snapshot_of snap), plan, (rs_keys d), fs, q, new. rewrite E4, E, <- app_assoc. by split_and!. }
  destruct r; [done|by right].
Qed.

(** ** The last writes *)

Abbreviation opts := (br_Options req).
Abbreviation out := (br_Output req).
Abbreviation dir := (assemblyDir req).

(** The signature, over the canonical bytes of the manifest that was saved. *)
Definition signing (createdAt : gostring) (sgn : option signer) (m : Manifest.Manifest) (acts : history) : Prop :=
  match sgn with
  | None => acts = []
  | Some g => ∃ canon sig h, Canonical.Marshal (Manifest.enc_Manifest m) = Ok canon
      ∧ w_sign w h g Manifest.SignPurpose canon = Ok sig
      ∧ acts = [Sign Manifest.SignPurpose canon;
                SaveSignature dir (Manifest.mkSignatureFile Manifest.SignatureSchemaVersion (DigestBytes canon) [with_created_at createdAt sig])]
  end.
(** The files in their order: the lock first, the manifest that digests them all
    after every one of them, the signature last. *)
Definition sealing (createdAt : gostring) (sgn : option signer) (m : Manifest.Manifest) (lk : Lock) (acts : history) : Prop :=
  ∃ readme sbom evidence i sigs,
    acts = SaveLock dir lk :: WriteFile (bundle_file req "README.txt") readme
      :: (if op_SBOM opts then [WriteFile (bundle_file req SBOMFile) sbom] else [])
      ++ WriteFile (bundle_file req EvidenceFile) evidence :: BuildManifest i :: SaveManifest dir m :: sigs
    ∧ Validate lk = None
    ∧ (∃ h, w_save_lock w h dir lk = Ok (Manifest.bi_LockDigest i)) ∧ (∃ h, w_build_manifest w h i = Ok m)
    ∧ Manifest.bi_Dir i = dir ∧ Manifest.bi_EvidenceRef i = EvidenceFile
    ∧ Manifest.bi_SBOMRef i = (if op_SBOM opts then SBOMFile else [])
    ∧ signing createdAt sgn m sigs.

Lemma wp_or_remove {A} (m : build A) (Q : A → state → Prop) s :
  wp m Q (λ _ _, True) s → wp (or_remove req m) Q (λ _ _, True) s.
Proof. intros Hm. apply wp_bind, wp_attempt. eapply wp_mono; [exact Hm| |done]. intros a s' HQ. by apply wp_ret. Qed.
Lemma sign_bundle_spec createdAt g m s :
  wp (sign_bundle w req createdAt g m) (λ _ s', ∃ sigs, st_trace s' = st_trace s ++ sigs ∧ signing createdAt (Some g) m sigs)
    (λ _ _, True) s.
Proof.
  unfold sign_bundle. apply wp_bind, wp_lift. destruct (Canonical.Marshal _) as [canon|e] eqn:Ec; [|done].
  apply wp_bind, wp_or_remove, wp_act. destruct (classified _ _) as [sig|e] eqn:Es; [|done]. apply classified_ok in Es.
  apply wp_or_remove, wp_act. destruct (wrapped _) as [[]|e]; [|done]. eexists. split; [symmetry; apply app_assoc|].
  by exists canon, sig, (st_trace s).
Qed.
Lemma write_spec name data s :
  wp (write w req name data) (λ _ s', st_trace s' = st_trace s ++ [WriteFile (bundle_file req name) data]) (λ _ _, True) s.
Proof. unfold write. apply wp_act. by destruct (wrapped _). Qed.
Lemma write_sbom_spec lk id createdAt s :
  wp (write_sbom w req lk id createdAt) (λ ref s', ref = (if op_SBOM opts then SBOMFile else [])
    ∧ ∃ doc, st_trace s' = st_trace s ++ if op_SBOM opts then [WriteFile (bundle_file req SBOMFile) doc] else []) (λ _ _, True) s.
Proof.
  unfold write_sbom. destruct (op_SBOM opts); [|apply wp_ret; split; [done|]; exists []; by rewrite app_nil_r].
  apply wp_bind, wp_lift. destruct (wrapped _) as [doc|e]; [|done]. apply wp_bind.
  eapply wp_mono; [apply write_spec| |done]. intros [] s' E. apply wp_ret. split; [done|]. by exists doc.
Qed.
Lemma finalizeBundle_spec createdAt workRoot snap sgn a lk0 s :
  wp (finalizeBundle w req createdAt workRoot snap sgn a lk0)
    (λ r s', r.2 = makeLockReproducible workRoot dir (w_bundle_first w) lk0
       ∧ ∃ acts, st_trace s' = st_trace s ++ acts ∧ sealing createdAt sgn r.1 r.2 acts) (λ _ _, True) s.
Proof.
  unfold finalizeBundle. cbv zeta. set (lk := makeLockReproducible _ _ _ _).
  apply wp_bind, wp_guard; [done|]. intros Hv%bool_decide_eq_false%dec_stable.
  apply wp_bind, wp_act. destruct (wrapped _) as [digest|e] eqn:El; [|done]. apply wrapped_ok in El.
  apply wp_bind. eapply wp_mono; [apply write_spec| |done]. intros u1 s1 E1.
  apply wp_bind. eapply wp_mono; [apply write_sbom_spec| |done]. intros ref s2 (-> & sbom & E2).
  apply wp_bind. eapply adds_wp with (P := λ _, False); [adds_all|]. intros [[]|e] s3 new _ E3 Hn; [|done].
  assert (new = []) as -> by (destruct new; [done|by inversion Hn]). rewrite app_nil_r in E3.
  unfold write_evidence. apply wp_bind, wp_bind, wp_gets, wp_bind, wp_lift. destruct (wrapped _) as [evid|e]; [|done].
  eapply wp_mono; [apply write_spec| |done]. intros u4 s4 E4. cbn [st_trace] in E1.
  match goal with |- context [BuildManifest ?x] => set (i := x) end.
  apply wp_bind, wp_act. destruct (classified _ _) as [m|e] eqn:Em; [|done]. apply classified_ok in Em.
  apply wp_bind, wp_act. destruct (wrapped _) as [[]|e]; [|done]. apply wp_bind.
  assert (∀ sigs s', st_trace s' = st_trace s4 ++ [BuildManifest i; SaveManifest dir m] ++ sigs → signing createdAt sgn m sigs →
    wp (mret (m, lk) : build _) (λ r s', r.2 = lk ∧ ∃ acts, st_trace s' = st_trace s ++ acts ∧ sealing createdAt sgn r.1 r.2 acts)
      (λ _ _, True) s') as Hend.
  { intros sigs s' E' Hsigs. apply wp_ret. split; [done|]. eexists. split; [|eexists _, sbom, evid, i, sigs; split; [reflexivity|]].
    - rewrite E', E4, E3, E2, E1. by destruct (op_SBOM opts); cbn; rewrite <- ?app_assoc.
    - cbn [Manifest.bi_LockDigest Manifest.bi_Dir Manifest.bi_EvidenceRef Manifest.bi_SBOMRef].
      split_and!; [done|by eexists|by eexists|done..]. }
  destruct sgn as [g|].
  - eapply wp_mono; [apply sign_bundle_spec| |done]. intros _ s5 (sigs & E5 & Hs). apply (Hend sigs); [|done].
    rewrite E5. cbn [st_trace]. by rewrite <- ?app_assoc.
  - apply wp_ret, (Hend []); [|done]. cbn [st_trace]. by rewrite <- app_assoc.
Qed.

(** Before the last writes. *)
Definition unsealed (a : action) : Prop :=
  match a with
  | SaveLock _ _ | WriteFile _ _ | BuildManifest _ | SaveManifest _ _ | Sign _ _ | SaveSignature _ _ | ExportTar _ _ => False
  | _ => True
  end.
Definition exported : history := if streq (ou_Format out) FormatTar then [ExportTar dir (ou_Path out)] else [].
Definition sealed (res : BuildResult) (tr : history) : Prop :=
  ∃ pre acts closing createdAt workRoot sgn m lk0 lk,
    tr = pre ++ acts ++ exported ++ closing ∧ Forall unsealed pre ∧ Forall clean closing
    ∧ EffectiveTime (w_epoch w) (w_now w) = Ok createdAt ∧ signer_of sgn
    ∧ lk = makeLockReproducible workRoot dir (w_bundle_first w) lk0 ∧ sealing createdAt sgn m lk acts
    ∧ bt_BundleID res = Manifest.m_BundleID m ∧ bt_Signed res = bool_decide (sgn ≠ None)
    ∧ bt_BundlePath res = (if streq (ou_Format out) FormatTar then ou_Path out else dir).

Lemma sealed_app res tr new : sealed res tr → Forall clean new → sealed res (tr ++ new).
Proof.
  intros (pre & acts & closing & createdAt & workRoot & sgn & m & lk0 & lk & -> & Hpre & Hc & Hrest) Hnew.
  exists pre, acts, (closing ++ new), createdAt, workRoot, sgn, m, lk0, lk. rewrite <- !app_assoc.
  split; [done|]. split; [done|]. split; [by apply Forall_app|done].
Qed.
Lemma wp_closing c (m : build BuildResult) s : adds clean c →
  wp m (λ res s', sealed res (st_trace s')) (λ _ _, True) s → wp (finally c m) (λ res s', sealed res (st_trace s')) (λ _ _, True) s.
Proof.
  intros Hc Hm. apply wp_finally. eapply wp_mono; [exact Hm| |done].
  intros a s' Hp. destruct (Hc s') as (n & E & Hn). rewrite E. by apply sealed_app.
Qed.
(** A step before the last writes. *)
Lemma wp_unsealed {A} (m : build A) (Q : A → state → Prop) s : adds unsealed m → Forall unsealed (st_trace s) →
  (∀ a s', Forall unsealed (st_trace s') → Q a s') → wp m Q (λ _ _, True) s.
Proof.
  intros Hm Hs HQ. eapply adds_wp; [exact Hm|]. intros [a|e] s' new _ E Hnew; [|done].
  apply HQ. rewrite E. by apply Forall_app.
Qed.
Lemma preparing_unsealed a : preparing a → unsealed a.
Proof. intros [Hq _]. by destruct a. Qed.
Lemma plan_build_unsealed createdAt workRoot d snap : adds unsealed (plan_build w deps req createdAt workRoot d snap).
Proof.
  unfold plan_build, evaluatePolicy. repeat first
    [ eapply adds_mono; [exact preparing_unsealed|apply expandInputs_adds]
    | eapply adds_mono; [exact preparing_unsealed|apply stageExternals_adds]
    | eapply adds_mono; [exact preparing_unsealed|apply selectBackend_adds]
    | eapply adds_mono; [exact preparing_unsealed|apply ingestPlan_adds]
    | adds_step adds_own ].
  eapply adds_mono; [|apply resolveWithBackend_adds]. intros ac [Hq _]. by destruct ac.
Qed.

(** (C6) What a successful build did last, and in which order: the lock was
    checked and saved, with the two host directories gone from it; then the
    README, the bill of materials if asked for and the evidence were written;
    then the manifest was made, from the digest the saved lock has and after
    every file it digests, and saved; then its canonical bytes, no others, were
    signed by the signer the request or the caller gave, which is there when one
    is required; then the bundle was exported, if as one file. Before that
    nothing of them was written, after it only the temporary files and handles
    go, and the result says the bundle id of that manifest and whether it was
    signed. *)
Theorem build_sealed : match run_Build w deps req with
  | (Ok res, s) => sealed res (st_trace s)
  | (Err _, _) => True
  end.
Proof.
  change (wp (Build w deps req) (λ res s, sealed res (st_trace s)) (λ _ _, True) (mkState [] [])).
  unfold Build. apply wp_bind, wp_lift. destruct (EffectiveTime _ _) as [createdAt|e] eqn:Et; [|done].
  apply wp_bind. eapply wp_mono; [apply wp_and; [apply (resolveDeps_spec (mkState [] []))|]| |done].
  { apply wp_unsealed with (Q := λ _ s', Forall unsealed (st_trace s')); [|done..].
    eapply adds_mono; [exact preparing_unsealed|apply resolveDeps_adds]. }
  intros d s [(_ & _ & Hsgn) Hs]. apply wp_closing; [destruct (rs_owned d); adds_all|].
  apply wp_bind, wp_unsealed; [adds_all|done|]. intros workRoot s1 H1. apply wp_closing; [adds_all|].
  apply wp_bind, wp_unsealed; [eapply adds_mono; [exact preparing_unsealed|apply loadSnapshot_adds]|done|].
  intros snap s2 H2. apply wp_closing; [adds_all|].
  apply wp_bind, wp_unsealed; [apply plan_build_unsealed|done|]. intros [[[plan bytes] ws] failures] s3 H3.
  unfold make_bundle. cbv zeta. apply wp_bind, wp_unsealed; [unfold assemble; adds_all|done|]. intros [a lk1] s4 H4.
  apply wp_bind, wp_unsealed; [unfold runDoctor; adds_all|done|]. intros lk2 s5 H5.
  apply wp_bind, wp_unsealed; [unfold runClosedWorld; adds_all|done|]. intros [lk3 cwFailed] s6 H6.
  apply wp_bind. eapply wp_mono; [apply finalizeBundle_spec| |done]. intros [m lk] s7 (Hlk & acts & E7 & Hseal). cbn [fst snd] in *.
  apply wp_bind. assert (∀ path s8, st_trace s8 = st_trace s7 ++ exported →
    path = (if streq (ou_Format out) FormatTar then ou_Path out else dir) →
    wp (mret (buildResult w path m (bool_decide (rs_signer d ≠ None)) cwFailed a lk bytes.1 bytes.2 failures) : build _)
      (λ res s, sealed res (st_trace s)) (λ _ _, True) s8) as Hend.
  { intros path s8 E8 ->. apply wp_ret. exists (st_trace s6), acts, [], createdAt, workRoot, (rs_signer d), m, (foldUnsignedWarning (rs_signer d) lk3), lk.
    rewrite E8, E7, app_nil_r, <- app_assoc. by split_and!. }
  unfold export. unfold exported in Hend. destruct (streq (ou_Format out) FormatTar) eqn:Ef.
  - apply wp_bind, wp_act. destruct (classified _ _) as [u|e]; [|done]. apply wp_ret. by apply Hend.
  - apply wp_ret, Hend; [by rewrite app_nil_r|done].
Qed.
End safe.

(** ** Whole builds *)

(** A resolver that answers with one package, collaborators that succeed. *)
Definition sample_plan (name : gostring) : Plan :=
  mkPlan (LockTypes.mkTarget [] [] [] [] [] [] []) (mkResolver BackendLocal [] [] "2.7" "1.22" [] "never-include" true [])
    [mkSelection name "amd64" "1.0" [] [] (name ++ "_1.0_amd64.deb") 4 (Bytes []) [] (mkOrigin [] [] [] [] [] []) ReasonRequested
       VerifiedAPTSigned false [] ("/tmp/b/archives/" ++ name) false] [name ++ ":amd64=1.0"] [] [].
Definition sample_manifest (i : Manifest.BuildInput) : Manifest.Manifest :=
  Manifest.mkManifest Manifest.SchemaVersion (Manifest.NewBundleID (H := LockDoc.sample_jcs) (Manifest.bi_LockDigest i) (Manifest.bi_CreatedAt i)) (Manifest.bi_CreatedAt i)
    Manifest.CurrentFormatVersion (Manifest.bi_Tool i) (Manifest.bi_SnapshotDigest i) (Manifest.bi_LockDigest i) (Manifest.bi_Repository i) []
    (Manifest.bi_Target i) (Manifest.bi_SBOMRef i) (Manifest.bi_EvidenceRef i).
Definition toy_world (name : gostring) : world := {|
  w_epoch := "1735787045"; w_now := 0; w_elapsed := 0; w_tool := Manifest.mkTool "debark" "1.0" [] []; w_default_store := "/store";
  w_abs p := Some (bytes_of "/work/" ++ p); w_bundle_first := true;
  w_open_store _ _ := Ok tt; w_load_policy _ _ := Err (New Usage []); w_load_keys _ _ := Ok []; w_signer_for _ _ := Err (New Usage []);
  w_mkdir_temp _ := Ok (bytes_of "/tmp/b"); w_open_snapshot _ _ := Ok (mkOpened (SnapshotArchive.mkArchive SnapshotOpen.sample_snapshot (Bytes []) ∅) "/snap");
  w_recommends _ _ := true; w_parse_list _ _ := Err (New Usage []); w_scan_dir _ _ := Ok [];
  w_local_file _ _ := Err (FetchDeb.mkFetchError (New Environment []) FetchDeb.ReasonOther); w_fetch_all _ _ := [];
  w_materialise _ _ _ := Ok tt; w_deb_name _ _ := Err (New Usage []); w_index _ _ := Err (New Environment []);
  w_select_backend _ _ _ := Ok (mkBackend BackendLocal None); w_mkdir _ _ := Ok tt; w_resolve _ _ := Ok (sample_plan name);
  w_has _ _ := false; w_put _ _ := Ok (Bytes [], 4); w_record _ _ := Ok tt;
  w_assemble _ i := Ok (mkAssembled (Some (ai_Lock i)) None (mkStats 1 0 0 4 0) [name] [] []);
  w_doctor _ _ := Ok []; w_doctor_flags _ _ := []; w_closed_world _ _ := Ok (mkClosedWorld ClosedWorldOK [] [] []);
  w_save_lock _ _ l := Ok (Bytes (l_RequestDigest l));
  w_readme _ _ _ := []; w_sbom _ _ _ := Ok []; w_evidence _ _ := Ok []; w_write _ _ _ := Ok tt;
  w_build_manifest _ i := Ok (sample_manifest i); w_save_manifest _ _ _ := Ok tt;
  w_sign _ g _ c := Ok (Manifest.mkSignature (sn_Kind g) (sn_KeyID g) "ed25519" [] [] []); w_save_signature _ _ _ := Ok tt;
  w_export _ _ _ := Ok tt |}.
Definition allow_all : evaluator := mkEvaluator (λ _ _ _, Ok []) None.
Definition deny_all : evaluator :=
  mkEvaluator (λ _ _ _, Ok [mkPolicyFinding (mkFinding "packages" SeverityDeny [bytes_of "curl"] []) "denied"]) None.
Definition toy_deps (pol : evaluator) : Deps := mkDeps None true (Some pol) (Some (mkSigner "file" "k1")).
Definition toy_request (name dir : gostring) : BuildRequest :=
  mkRequest [] "jammy.tar.gz" (mkInputs [name] [] [] [] [])
    (mkOptions None false [] false [] ∅ [] [] [] [] false [] true [] None) (mkOutput dir [] (mkSignOptions [] true [])).
Definition toy_run (pol : evaluator) (name dir : gostring) : result goerror BuildResult * state :=
  run_Build (hosts := plain_hosts) (H := LockDoc.sample_jcs) (toy_world name) (toy_deps pol) (toy_request name dir).
(** What was done, by name. *)
Definition step_name (a : action) : gostring :=
  match a with
  | EvaluatePolicy _ _ => "policy" | AssembleBundle _ => "assemble" | SaveLock _ _ => "lock" | WriteFile p _ => Base p
  | BuildManifest _ => "manifest" | SaveManifest _ _ => "save" | Sign _ _ => "sign" | SaveSignature _ _ => "signature"
  | ExportTar _ _ => "tar" | _ => []
  end.
Definition steps (r : result goerror BuildResult * state) : list gostring :=
  List.filter (λ n, negb (streq n "")) (map step_name (st_trace r.2)).
Definition succeeded (r : result goerror BuildResult * state) : bool := match r.1 with Ok _ => true | Err _ => false end.

(** A whole build; one the policy stops; and the package with "bundle" in its
    name, built with the default output: refused when the bundle has been
    assembled. *)
Example whole_build : succeeded (toy_run allow_all "curl" "/srv/out") = true
  ∧ steps (toy_run allow_all "curl" "/srv/out")
    = map bytes_of ["policy"; "assemble"; "lock"; "README.txt"; "sbom.cdx.json"; "evidence.json"; "manifest"; "save"; "sign"; "signature"]%string.
Proof. vm_compute. by split. Qed.
Example denied_build : succeeded (toy_run deny_all "curl" "/srv/out") = false ∧ steps (toy_run deny_all "curl" "/srv/out") = map bytes_of ["policy"]%string.
Proof. vm_compute. by split. Qed.
Example default_output_build : succeeded (toy_run allow_all "bundler" "bundle") = false
  ∧ steps (toy_run allow_all "bundler" "bundle") = map bytes_of ["policy"; "assemble"]%string.
Proof. vm_compute. by split. Qed.
