(* ===== verification/AptLocal.v ===== *)
(** * core/apt/local.go: the parts of the local backend that call nothing.

    The operands apt is given, what a simulation's actions come to, the staged
    files' names, the index of the fetched Packages files, the attribution of
    reasons and the texts the lock may hold. The reader of control stanzas
    (pault.ag/go/debian) is a parameter. *)
From S2P Require Export AptSolver HostText Repository PrivateRoot AptParse EngineTypes.
From S2P Require ClosedWorld AptClosure.
#[local] Open Scope Z_scope.

(** ** Operands *)

Record pkgOperand := mkOperand { po_Name : gostring; po_Arch : gostring; po_Release : gostring; po_Version : gostring }.
Definition cut_or (sep : ascii) (s : gostring) : gostring * gostring := default (s, []) (cut sep s).
Definition splitPackageOperand (operand : gostring) : pkgOperand :=
  let '(rest, version) := cut_or "=" operand in
  let '(rest, release) := cut_or "/" rest in
  let '(name, arch) := cut_or ":" rest in
  mkOperand name arch release version.
Definition baseName (pkgArg : gostring) : gostring := po_Name (splitPackageOperand pkgArg).

Definition validOperandToken (s extra : gostring) : bool := forallb (λ c, AptParse.is_alnum c || existsb (beq c) extra) s.
Definition valid_operand (operand : gostring) : bool :=
  let o := splitPackageOperand operand in
  negb (streq operand "") && negb (has_prefix "-" operand) && ValidPackageName (po_Name o)
  && validOperandToken (po_Version o) ".+-:~" && validOperandToken (po_Arch o) "-." && validOperandToken (po_Release o) "-."
  && negb (contains_byte "=" operand && streq (po_Version o) "").
Definition validatePackageOperands (operands : list gostring) : error :=
  if forallb valid_operand operands then None else Some (New Usage []).
Definition aptOperandArgs (operands : list gostring) : result goerror (list gostring) :=
  match validatePackageOperands operands with
  | Some e => Err e
  | None => Ok (match operands with [] => [] | _ => bytes_of "--" :: operands end)
  end.

Definition operandMatches (operand name arch : gostring) : bool :=
  let o := splitPackageOperand operand in
  streq (po_Name o) name && (streq (po_Arch o) "" || streq (po_Arch o) arch).
Definition reqContains (pkgs : list gostring) (name arch : gostring) : bool := existsb (λ p, operandMatches p name arch) pkgs.
Definition requestSatisfied (operand : gostring) (selections : list Selection) : bool :=
  existsb (λ s, operandMatches operand (Name s) (Arch s)) selections.
Definition unsatisfiedNonHeldRequest (pkgs : list gostring) (selections : list Selection) (heldExcluded : gset gostring) : bool :=
  existsb (λ p, negb (streq p "" || bool_decide (baseName p ∈ heldExcluded)) && negb (requestSatisfied p selections)) pkgs.
Definition dedupSorted (l : list gostring) : list gostring := sort_strings (dedupeStrings l).

(** ** What the simulations' actions come to *)

Definition pkgRef : Type := gostring * gostring.
Abbreviation pins := (gmap pkgRef gostring).
(** [versions] and [heldPinned], the names of a pass, and the held names seen. *)
Record recorded := mkRecorded { rc_versions : pins; rc_pinned : pins; rc_excluded : gset gostring }.
Definition action_ref (arch : gostring) (a : InstAction) : pkgRef := (ac_Name a, if streq (ac_Arch a) "" then arch else ac_Arch a).
Definition record (held : gmap gostring gostring) (arch : gostring) (r : recorded) (a : InstAction) : recorded :=
  match held !! ac_Name a with
  | Some curVer =>
      mkRecorded (rc_versions r)
        (if streq curVer "" then rc_pinned r else <[action_ref arch a := curVer]> (rc_pinned r)) ({[ac_Name a]} ∪ rc_excluded r)
  | None => mkRecorded (<[action_ref arch a := ac_Version a]> (rc_versions r)) (rc_pinned r) (rc_excluded r)
  end.
Definition record_all (held : gmap gostring gostring) (arch : gostring) (r : recorded) (l : list InstAction) : recorded :=
  fold_left (record held arch) l r.
Definition pinned_operand (p : pkgRef * gostring) : gostring := p.1.1 ++ ":" ++ p.1.2 ++ "=" ++ p.2.
Definition qualifiedNameVersion (s : Selection) : gostring := Name s ++ ":" ++ Arch s ++ "=" ++ Version s.

(** ** Files apt left behind *)

Section texts.
Context {unicode : UnicodeTables}.
Definition stagedVersionMatches (segment version : gostring) : bool :=
  negb (streq version "") && (streq segment version || equal_fold segment (replace_all ":" "%3a" version)).
(** A directory entry: its name and whether it is a directory. *)
Definition dir_entry : Type := gostring * bool.
Definition staged_name (name arch version : gostring) (e : dir_entry) : bool :=
  let prefix := name ++ "_" in let suffix := "_" ++ arch ++ ".deb" in
  negb e.2 && has_prefix prefix e.1 && has_suffix suffix e.1
  && stagedVersionMatches (take (length e.1 - length suffix - length prefix) (drop (length prefix) e.1)) version.
Definition findStagedFile (entries : list dir_entry) (name arch version : gostring) : option gostring :=
  fst <$> find (staged_name name arch version) entries.
End texts.
Definition archives_option : gostring := "Dir::Cache::archives=".
Definition archivesDirOf (root : PrivateRoot) : option gostring :=
  match omap (cut_prefix archives_option) (pr_Options root) with d :: _ => Some d | [] => None end.

(** ** The fetched indexes *)

Record BinaryIndex := mkBinaryIndex {
  bi_Package : gostring; bi_Architecture : gostring; bi_Version : gostring; bi_Filename : gostring; bi_Size : Z;
  bi_SHA256 : gostring; bi_Section : gostring; bi_SourcePackage : gostring; bi_Values : gmap gostring gostring;
  bi_PreDepends : list gostring; bi_Depends : list gostring
}.
(** [control.ParseBinaryIndex], and the names [dependency.Parse] finds. *)
Class DebControl := { ParseBinaryIndex : gostring → result gostring (list BinaryIndex); ParseDependency : gostring → option (list gostring) }.
Record PackagesIndexEntry := mkIndexEntry { pe_Binary : BinaryIndex; pe_Suite : gostring; pe_Component : gostring; pe_IndexFile : gostring }.

Section index.
Context {control : DebControl} {unicode : UnicodeTables}.
Definition index_file (path data : gostring) : result gostring (list PackagesIndexEntry) :=
  let base := Base path in
  let '(suite, component) := default ([], []) (deriveSuiteComponent base) in
  match ParseBinaryIndex data with
  | Ok stanzas => Ok (map (λ s, mkIndexEntry s suite component base) stanzas)
  | Err e => Err ("apt: parse " ++ path ++ ": " ++ e)
  end.
Fixpoint index_files (l : list (gostring * result gostring gostring)) : result gostring (list PackagesIndexEntry) :=
  match l with
  | [] => Ok []
  | (path, Err e) :: _ => Err ("apt: read " ++ path ++ ": " ++ e)
  | (path, Ok data) :: rest => es ← index_file path data; more ← index_files rest; Ok (es ++ more)
  end.
(** The files [filepath.Glob] finds, with what reading each gives. *)
Definition ReadPackagesIndex (listsDir : gostring) (found : result gostring (list (gostring * result gostring gostring)))
    : result gostring (list PackagesIndexEntry) :=
  match found with
  | Err e => Err ("apt: glob " ++ listsDir ++ ": " ++ e)
  | Ok files => index_files (sort_by (λ a b, str_leb a.1 b.1) files)
  end.
Definition Essential_entry (e : PackagesIndexEntry) : bool :=
  equal_fold (trim_space (default [] (bi_Values (pe_Binary e) !! bytes_of "Essential"))) "yes".

Definition nul : ascii := chr 0.
Definition nvKey (name arch version : gostring) : gostring := name ++ [nul] ++ arch ++ [nul] ++ version.
Definition entry_key (e : PackagesIndexEntry) : gostring :=
  nvKey (bi_Package (pe_Binary e)) (bi_Architecture (pe_Binary e)) (bi_Version (pe_Binary e)).
Definition indexByNameVersion (entries : list PackagesIndexEntry) : gmap gostring PackagesIndexEntry :=
  fold_left (λ (m : gmap gostring PackagesIndexEntry) e, <[entry_key e := e]> m) entries ∅.
Definition indexFilesByNameVersion (entries : list PackagesIndexEntry) (key : gostring) : list gostring :=
  map pe_IndexFile (List.filter (λ e, streq (entry_key e) key) entries).

Definition releaseFileRE : re :=
  cats [Bol; Cap 1 (cats [any dot; Lit "_dists_"; Cat dot (Star false dot)]); Lit "_"; many (not_byte "_"); Lit "_binary-"; many (not_byte "_");
        Lit "_Packages"; Eol].
Definition releaseBaseFor (indexFile : gostring) : option gostring := group 1 <$> find_submatch releaseFileRE indexFile.
Definition singleSourceFingerprint (root : PrivateRoot) : option gostring :=
  match elements (list_to_set (concat (map sb_Fingerprints (pr_SignedBy root))) : gset gostring) with
  | [fp] => Some fp
  | _ => None
  end.

(** ** Dependencies between what was selected *)

Definition entry_depends (e : PackagesIndexEntry) : list gostring :=
  bi_PreDepends (pe_Binary e) ++ bi_Depends (pe_Binary e)
  ++ match bi_Values (pe_Binary e) !! bytes_of "Recommends" with
     | Some raw => if streq (trim_space raw) "" then [] else default [] (ParseDependency raw)
     | None => []
     end.
(** The first of each name. *)
Definition uniq (l : list gostring) : list gostring := fold_left (λ out n, if bool_decide (n ∈ out) then out else out ++ [n]) l [].
Definition graph_step (known : gset gostring) (byNV : gmap gostring PackagesIndexEntry) (graph : gmap gostring (list gostring)) (s : Selection)
    : gmap gostring (list gostring) :=
  match byNV !! nvKey (Name s) (Arch s) (Version s) with
  | None => graph
  | Some e =>
      match uniq (List.filter (λ n, bool_decide (n ∈ known)) (entry_depends e)) with
      | [] => graph
      | ns => <[Name s := default [] (graph !! Name s) ++ ns]> graph
      end
  end.
Definition buildDependencyGraph (selections : list Selection) (byNV : gmap gostring PackagesIndexEntry) : gmap gostring (list gostring) :=
  fold_left (graph_step (list_to_set (map Name selections)) byNV) selections ∅.
End index.

(** ** Reasons *)

Definition name_reason (external requested : list gostring) (s : Selection) : Selection :=
  if reqContains external (Name s) (Arch s) then
    mkSelection (Name s) (Arch s) (Version s) (SourcePackage s) (Section_ s) (Filename s) (Resolve.Size s) (Resolve.SHA256 s) (URI s)
      (Origin_ s) ReasonExternal VerifiedURLUnverified (Essential s) (Flags s ++ [FlagUserSupplied]) (StagedPath s) true
  else if reqContains requested (Name s) (Arch s) then with_reason ReasonRequested s else s.
Definition with_staged (p : gostring) (s : Selection) : Selection :=
  mkSelection (Name s) (Arch s) (Version s) (SourcePackage s) (Section_ s) (Filename s) (Resolve.Size s) (Resolve.SHA256 s) (URI s)
    (Origin_ s) (Reason s) (PublisherVerification s) (Essential s) (Flags s) p (UserSupplied s).
Definition restage (repoDir : gostring) (s : Selection) : Selection :=
  if negb (streq repoDir "") && streq (Reason s) ReasonExternal && negb (streq (Filename s) "")
  then with_staged (filepath_join [repoDir; Filename s]) s else s.
Definition attributionRoots (roots upgradeRoots : gset gostring) (selections : list Selection) : list gostring :=
  let unnamed := list_to_set (map Name (List.filter (λ s, streq (Reason s) "" && negb (bool_decide (Name s ∈ upgradeRoots))) selections))
    : gset gostring in
  elements (roots ∖ unnamed).
Definition upgrade_reason (roots : gset gostring) (s : Selection) : Selection :=
  if streq (Reason s) "" && bool_decide (Name s ∈ roots) then with_reason ReasonUpgrade s else s.

(** ** What the lock may say *)

Definition hostPathMask : Type := gostring * gostring.
Definition longer_first (a b : hostPathMask) : bool := (length b.1 <=? length a.1)%nat.
Definition resolveHostPathMasks (rootDir archivesDir externalRepoDir snapshotFilesDir workDir : gostring) : list hostPathMask :=
  sort_by longer_first [(rootDir, bytes_of "<PRIVATE-ROOT>"); (archivesDir, bytes_of "<PRIVATE-ROOT>");
    (externalRepoDir, bytes_of "<EXTERNAL-REPO>"); (snapshotFilesDir, bytes_of "<SNAPSHOT-FILES>"); (workDir, bytes_of "<WORK-DIR>")].
Definition maskHostPaths (masks : list hostPathMask) (s : gostring) : gostring :=
  scrub_text (List.filter (λ m : hostPathMask, negb (streq m.1 "")) masks) s.
Definition embeddedURIRE : re :=
  cats [Cls (λ c, is_lower c || is_upper c); any (Cls (λ c, AptParse.is_alnum c || existsb (beq c) "+.-")); Lit "://";
        many (Cls (λ c, negb (is_re_space c || beq c (chr 39) || beq c dquote || beq c "<" || beq c ">")))].
Section lock_texts.
Context {unicode : UnicodeTables} {hosts : Hosts}.
Definition redact_match (m : gostring) : gostring :=
  let body := trim_right ".,;:!?)]}>" m in RedactURL body ++ drop (length body) m.
Definition redactURIsInText (s : gostring) : gostring := replace_all_func embeddedURIRE (λ m _, redact_match m) s.
Definition lockSafeText (masks : list hostPathMask) (s : gostring) : gostring := maskHostPaths masks (redactURIsInText s).
Definition lockSafeWarning (masks : list hostPathMask) (w : Warning) : Warning :=
  mkWarning (w_Code w) (lockSafeText masks (w_Message w)) (w_Packages w).
Definition lockSafeUnresolved (masks : list hostPathMask) (u : Unresolved) : Unresolved :=
  mkUnresolved (u_Input u) (u_Kind u) (lockSafeText masks (u_Detail u)) (u_Missing u).
End lock_texts.
Definition sanitizeAPTOptionsForLock (roots opts : list gostring) : list gostring :=
  map (maskHostPaths (map (λ r, (r, bytes_of "<PRIVATE-ROOT>")) roots)) opts.

Definition gpg_warning (ge : GPGError) : Warning :=
  mkWarning "apt-update.gpg-error" ("apt-get update reported a GPG error for " ++ ge_Repository ge
    ++ (match ge_NoPubkeys ge with
        | [] => if streq (ge_Detail ge) "" then [] else ": " ++ ge_Detail ge
        | ks => ": missing key(s) " ++ join ", " ks
        end)
    ++ ". apt did not fail the update, so the resolution below went ahead against this repository; treat anything sourced from it as unauthenticated.") [].
Definition fetch_warning (e : UpdateEntry) : option Warning :=
  if streq (ue_Status e) "err" then
    Some (mkWarning "apt-update.fetch-error" ("apt-get update could not fetch " ++ ue_Detail e
      ++ ". apt did not fail the update (it retries internally), so this may have succeeded on a later attempt; it is recorded because an index that never arrived silently narrows what apt had to resolve against.") [])
  else None.
Definition updateDiagnosticWarnings (u : UpdateResult) : list Warning :=
  let '(fetched, failed) := SourceOutcomes u in
  (if (fetched =? 0) && (0 <? failed) then
     [mkWarning "apt-update.no-index-fetched" ("apt-get update could not fetch an index from any of the " ++ itoa failed
        ++ " configured source(s), and apt still exited 0 (it falls back to whatever indexes were already on disk). If anything below failed to resolve, this is why: the archive was unreachable, not the package missing. Check network, DNS and proxy settings for this machine.") []]
   else [])
  ++ map gpg_warning (up_GPGErrors u) ++ omap fetch_warning (up_Entries u).

(** ** The host (Probe) *)

(** [strings.Trim] of double quotes. *)
Definition trim_quotes (s : gostring) : gostring := trim_right [dquote] (drop_in [dquote] s).
Definition release_line (r : gostring * gostring) (line : gostring) : gostring * gostring :=
  match cut "=" (trim_space line) with
  | Some (k, v) =>
      let v := trim_quotes (trim_space v) in
      if streq k "ID" then (v, r.2) else if streq k "VERSION_ID" then (r.1, v) else r
  | None => r
  end.
Definition readLocalOSRelease (file : option gostring) : gostring * gostring :=
  match file with Some data => fold_left release_line (split newline data) ([], []) | None => ([], []) end.

Definition dpkgVersionRE : re := cats [lit_fold "version"; many ws; Cap 1 (many nonws)].
Definition ParseDpkgVersion (out : gostring) : option gostring :=
  match splitLines out with
  | [] => None
  | l :: _ => (λ m, trim_right "." (group 1 m)) <$> find_submatch dpkgVersionRE l
  end.
