(* ===== verification/AptResolve.v ===== *)
(** * core/apt/local.go: a resolution by the local backend.

    [Probe], [Resolve] and what they call, as a run whose state is what it has
    done so far: the commands it started, the private root it asked for, the
    directories it listed and the files it moved. What the host answers may
    depend on all of it. The order in which Go visits a map is [hw_range]. Events
    are left out, and of errors only the class is kept. *)
From S2P Require Export RunMonad AptLocal.
From S2P Require ClosedWorld AptClosure Engine Distro.
#[local] Open Scope Z_scope.

Inductive apt_action :=
| RunApt (config : gostring) (argv : list gostring)
| RunDpkg | DumpConfig (config : gostring) | BuildRoot (spec : RootSpec)
| ListDir (dir : gostring) | MakeDir (dir : gostring) | RenameFile (old new : gostring).
Abbreviation apt_history := (list apt_action).

Record host_world := mkHost {
  hw_apt : apt_history → gostring → list gostring → ClosedWorld.exec_result;
  hw_dpkg : apt_history → option gostring;
  hw_os_release : option gostring;
  hw_abs : gostring → option gostring;
  hw_read : gostring → option gostring;                     (* the snapshot's files *)
  hw_root : apt_history → RootSpec → result root_error PrivateRoot;
  hw_dump : apt_history → gostring → option gostring;       (* apt-config dump *)
  hw_lists : apt_history → gostring → result gostring (list (gostring * result gostring gostring));
  hw_sources : apt_history → gostring → list (gostring * option gostring);
  hw_dir : apt_history → gostring → result bool (list dir_entry);   (* the error: whether it is not there *)
  hw_size : apt_history → gostring → option Z;
  hw_sha256 : apt_history → gostring → option gostring;
  hw_getwd : option gostring;
  hw_mkdir : apt_history → gostring → bool;
  hw_rename : apt_history → gostring → gostring → bool;
  hw_range : list (pkgRef * gostring) → list (pkgRef * gostring)
}.
Abbreviation apt_run := (run apt_history goerror).

Section resolve.
Context {control : DebControl} {unicode : UnicodeTables} {hosts : Hosts} (is_print : Z → bool) (w : host_world).
Abbreviation ResolveInput := Engine.ResolveInput.
Abbreviation fails c := (fail_with (New c [])).
Definition done_ (a : apt_action) : apt_run unit := modify (λ h, h ++ [a]).
(** An error of [ok], with its class. *)
Definition must {A} (c : Class) (r : option A) : apt_run A := match r with Some a => mret a | None => fails c end.

(** ** One run of apt-get *)

Definition run_apt (config : gostring) (opts args : list gostring) : apt_run (ClosedWorld.exec_result * (AptParse.Output * error)) :=
  λ h, let exec := hw_apt w h config in
    (Ok (exec (ClosedWorld.full_args opts args), ClosedWorld.Run exec opts args), h ++ [RunApt config (ClosedWorld.full_args opts args)]).
Definition root_apt (root : PrivateRoot) (args : list gostring) : apt_run (AptParse.Output * error) :=
  r ← run_apt (pr_AptConfigPath root) (pr_Options root) args; mret r.2.
(** A run whose error ends the resolution. *)
Definition strict_apt (root : PrivateRoot) (args : list gostring) : apt_run AptParse.Output :=
  '(out, err) ← root_apt root args; match err with Some e => fail_with e | None => mret out end.

(** ** Probe *)

Definition Probe : apt_run Capabilities :=
  '(_, (out, err)) ← run_apt [] [] [bytes_of "-v"];
  match err with
  | Some e =>
      if bool_decide (ClassOf err = Environment) then
        mret (mkCapabilities false "apt-get is not available on this host"
          "install apt-get (the apt package), or build with --backend=container" [] [] [] [] [] [] [])
      else mret (mkCapabilities false (error_text e) [] [] [] [] [] [] [] [])
  | None =>
      dpkg ← gets (λ h, hw_dpkg w h); _ ← done_ RunDpkg;
      let '(distroID, versionID) := readLocalOSRelease (hw_os_release w) in
      mret (mkCapabilities true [] [] (default [] (ParseAptGetVersion (o_Stdout out)))
        (default [] (dpkg ≫= ParseDpkgVersion)) distroID versionID [] [] [])
  end.

(** ** Simulations *)

Definition read_simulation (out : AptParse.Output) : apt_run SimulateResult :=
  let sim := ParseSimulate out in
  match sr_UnparsedActions sim with [] => mret sim | _ => fails Resolution end.
Definition simulate_args (operands : list gostring) : list gostring := [bytes_of "-s"; bytes_of "install"] ++ operands.
Definition simulateInstall (root : PrivateRoot) (names : list gostring) : apt_run SimulateResult :=
  operands ← lift_result (aptOperandArgs names);
  '(out, err) ← root_apt root (simulate_args operands);
  _ ← guard_with (bool_decide (err ≠ None ∧ ClassOf err ≠ Resolution)) (default (New Environment []) err);
  read_simulation out.

(** What is recorded, the roots, those of the upgrade, warnings, and for
    externals which were confirmed and which could not be resolved. *)
Record passes := mkPasses { pa_rec : recorded; pa_roots : gset gostring; pa_upgrade : gset gostring; pa_warnings : list Warning }.
Definition action_names (sim : SimulateResult) : gset gostring := list_to_set (map ac_Name (sr_Actions sim)).
Definition full_upgrade : list gostring := [bytes_of "-s"; bytes_of "full-upgrade"].
Definition upgrade_pass (held : gmap gostring gostring) (arch : gostring) (root : PrivateRoot) (upgrades : bool) (p : passes) : apt_run passes :=
  if negb upgrades then mret p else
  '(out, err) ← root_apt root full_upgrade;
  _ ← guard_with (bool_decide (err ≠ None ∧ ClassOf err = Environment)) (default (New Environment []) err);
  sim ← read_simulation out;
  if sr_Failed sim then
    mret (mkPasses (pa_rec p) (pa_roots p) (pa_upgrade p) (pa_warnings p ++ [mkWarning "resolver.full-upgrade-failed"
      ("apt-get -s full-upgrade reported problems and was skipped: " ++ sr_Summary sim) []]))
  else mret (mkPasses (record_all held arch (pa_rec p) (sr_Actions sim)) (pa_roots p ∪ action_names sim)
    (pa_upgrade p ∪ action_names sim) (pa_warnings p)).
Definition package_pass (held : gmap gostring gostring) (arch : gostring) (root : PrivateRoot) (packages : list gostring) (p : passes)
    : apt_run passes :=
  if bool_decide (packages = []) then mret p else
  sim ← simulateInstall root packages;
  _ ← guard_with (sr_Failed sim) (New Resolution (simulateFailureMessage sim));
  mret (mkPasses (record_all held arch (pa_rec p) (sr_Actions sim)) (pa_roots p ∪ list_to_set (map baseName packages)) (pa_upgrade p)
    (pa_warnings p)).

Record confirmation := mkConfirmation { cn_rec : recorded; cn_names : list gostring; cn_unresolved : list Unresolved }.
Definition not_resolved (n : gostring) (sim : SimulateResult) : list Unresolved :=
  match sr_Unresolved sim with [] => [mkUnresolved n "package" (simulateFailureMessage sim) []] | us => us end.
Fixpoint one_by_one (held : gmap gostring gostring) (arch : gostring) (root : PrivateRoot) (names : list gostring) (c : confirmation)
    : apt_run confirmation :=
  match names with
  | [] => mret c
  | n :: rest =>
      sim ← simulateInstall root [n];
      one_by_one held arch root rest
        (if sr_Failed sim then mkConfirmation (cn_rec c) (cn_names c) (cn_unresolved c ++ not_resolved n sim)
         else mkConfirmation (record_all held arch (cn_rec c) (sr_Actions sim)) (cn_names c ++ [n]) (cn_unresolved c))
  end.
Definition external_pass (held : gmap gostring gostring) (arch : gostring) (root : PrivateRoot) (external : list gostring) (r : recorded)
    : apt_run confirmation :=
  if bool_decide (external = []) then mret (mkConfirmation r [] []) else
  let names := dedupSorted external in
  sim ← simulateInstall root names;
  if sr_Failed sim then one_by_one held arch root names (mkConfirmation r [] [])
  else mret (mkConfirmation (record_all held arch r (sr_Actions sim)) names []).

(** ** Downloads *)

Definition failed_to_fetch (out : AptParse.Output) : bool := contains_str "failed to fetch" (to_lower (Combined out)).
Definition list_dir (dir : gostring) : apt_run (result bool (list dir_entry)) :=
  r ← gets (λ h, hw_dir w h dir); _ ← done_ (ListDir dir); mret r.
Definition must_list (dir : gostring) : apt_run (list dir_entry) :=
  r ← list_dir dir; match r with Ok es => mret es | Err _ => fails Environment end.
Fixpoint move_held (cwd dir : gostring) (entries : list dir_entry) (l : list (pkgRef * gostring)) : apt_run unit :=
  match l with
  | [] => mret tt
  | (ref, ver) :: rest =>
      match findStagedFile entries ref.1 ref.2 ver with
      | None => move_held cwd dir entries rest
      | Some name =>
          let old := filepath_join [cwd; name] in let new := filepath_join [dir; name] in
          ok ← gets (λ h, hw_rename w h old new);
          _ ← done_ (RenameFile old new);
          _ ← guard_with (negb ok) (New Environment []);
          move_held cwd dir entries rest
      end
  end.
Definition download_args (operands : list gostring) : list gostring := bytes_of "download" :: operands.
Definition downloadHeldPackages (root : PrivateRoot) (dir : gostring) (held : pins) : apt_run unit :=
  if bool_decide (held = ∅) then mret tt
  else
    cwd ← must Environment (hw_getwd w);
    before ← must_list cwd;
    operands ← lift_result (aptOperandArgs (sort_strings (map pinned_operand (map_to_list held))));
    out ← strict_apt root (download_args operands);
    _ ← guard_with (failed_to_fetch out) (New Incomplete []);
    after ← must_list cwd;
    let fresh := List.filter (λ e : dir_entry, negb (bool_decide (e.1 ∈ map fst before))) after in
    ok ← gets (λ h, hw_mkdir w h dir);
    _ ← done_ (MakeDir dir);
    _ ← guard_with (negb ok) (New Environment []);
    move_held cwd dir fresh (hw_range w (map_to_list held)).

Definition print_uris_args (operands : list gostring) : list gostring := [bytes_of "install"; bytes_of "--print-uris"; bytes_of "-y"] ++ operands.
Definition download_only_args (operands : list gostring) : list gostring := [bytes_of "--download-only"; bytes_of "-y"; bytes_of "install"] ++ operands.
Definition by_filename (us : list URIEntry) : gmap gostring URIEntry :=
  fold_left (λ (m : gmap gostring URIEntry) u, <[ur_Filename u := u]> m) us ∅.
Definition fetch_pinned (root : PrivateRoot) (versions : pins) : apt_run (gmap gostring URIEntry) :=
  match sort_strings (map pinned_operand (map_to_list versions)) with
  | [] => mret ∅
  | pinned =>
      operands ← lift_result (aptOperandArgs pinned);
      uriOut ← strict_apt root (print_uris_args operands);
      dlOut ← strict_apt root (download_only_args operands);
      _ ← guard_with (failed_to_fetch dlOut) (New Incomplete []);
      mret (by_filename (ParsePrintURIs uriOut))
  end.

(** ** Selections *)

Definition lists_dir (root : PrivateRoot) : gostring := filepath_join [pr_Dir root; bytes_of "var"; bytes_of "lib"; bytes_of "apt"; bytes_of "lists"].
Definition read_index (dir : gostring) (h : apt_history) : result gostring (list PackagesIndexEntry) := ReadPackagesIndex dir (hw_lists w h dir).
Definition originFor (h : apt_history) (root : PrivateRoot) (e : PackagesIndexEntry) : Origin :=
  let release := base ← releaseBaseFor (pe_IndexFile e);
    head (omap (λ suf : gostring, hw_sha256 w h (filepath_join [lists_dir root; base ++ suf])) [bytes_of "_InRelease"; bytes_of "_Release"]) in
  mkOrigin [] [] (pe_Suite e) (pe_Component e) (default [] release) (default [] (singleSourceFingerprint root)).
Record built := mkBuilt {
  bl_staged : gostring; bl_listing : list dir_entry; bl_entries : list PackagesIndexEntry; bl_uris : gmap gostring URIEntry;
  bl_trusted : list gostring
}.
Definition build_selection (h : apt_history) (root : PrivateRoot) (b : built) (p : pkgRef * gostring) : option Selection :=
  let '((name, refArch), ver) := p in
  let key := nvKey name refArch ver in
  e ← indexByNameVersion (bl_entries b) !! key;
  let bin := pe_Binary e in
  let arch := bi_Architecture bin in
  let indexFilename := Base (bi_Filename bin) in
  let filename :=
    match hw_size w h (filepath_join [bl_staged b; indexFilename]) with
    | Some _ => indexFilename
    | None => default indexFilename (findStagedFile (bl_listing b) name arch ver)
    end in
  let stagedPath := filepath_join [bl_staged b; filename] in
  let stat := hw_size w h stagedPath in
  let size := default 0 stat in
  let sha := match stat with Some _ => default [] (hw_sha256 w h stagedPath) | None => [] end in
  Some (mkSelection name arch ver (bi_SourcePackage bin) (bi_Section bin) filename
    (if size =? 0 then bi_Size bin else size) (if streq sha "" then to_lower (bi_SHA256 bin) else sha)
    (default [] (ur_URI <$> bl_uris b !! indexFilename)) (originFor h root e) []
    (verificationForIndexes (indexFilesByNameVersion (bl_entries b) key) (bl_trusted b)) (Essential_entry e)
    (match Distro.ComponentFlag (pe_Component e) with Some f => [f] | None => [] end) stagedPath false).
Definition fetchAndBuildSelections (root : PrivateRoot) (versions pinned : pins) : apt_run (list Selection) :=
  uris ← fetch_pinned root versions;
  staged ← must Resolution (archivesDirOf root);
  _ ← downloadHeldPackages root staged pinned;
  found ← gets (read_index (lists_dir root));
  entries ← lift_result (map_err (λ _, New Resolution []) found);
  listing ← list_dir staged;
  listing ← (match listing with Ok es => mret es | Err true => mret [] | Err false => fails Resolution end);
  h ← gets id;
  let b := mkBuilt staged listing entries uris (trustedIndexPrefixes (hw_sources w h (pr_Dir root))) in
  mret (omap (build_selection h root b) (hw_range w (map_to_list (pinned ∪ versions)))).

(** ** Resolve *)

Definition input_arch (i : ResolveInput) : gostring :=
  if streq (op_ArchOverride (Engine.ri_Options i)) "" then SnapshotTypes.ta_Arch (sn_Target (Engine.ri_Snapshot i))
  else op_ArchOverride (Engine.ri_Options i).
Definition root_dir (i : ResolveInput) : gostring := filepath_join [Engine.ri_WorkDir i; bytes_of "aptroot"].
Definition external_source (abs : gostring) : ExtraSource :=
  mkExtra "debark-external" ("deb [trusted=yes] " ++ ClosedWorld.FileURI abs ++ " ./").
Definition root_spec (i : ResolveInput) (extra : list ExtraSource) : RootSpec :=
  let t := sn_Target (Engine.ri_Snapshot i) in
  mkSpec (root_dir i) (Engine.ri_ArchivesDir i) (input_arch i) (SnapshotTypes.ta_ForeignArchs t) (Engine.ri_Recommends i)
    (Engine.ri_PhasedPolicy i) (SnapshotTypes.ta_MachineID t) (Some (Engine.ri_Snapshot i)) (Engine.ri_SnapshotFilesDir i) true
    (Engine.ri_ApprovedKeys i) false extra.
Definition dpkg_status (i : ResolveInput) : option (result gostring gostring) :=
  let ap := fi_ArchivePath (sn_DpkgStatus (Engine.ri_Snapshot i)) in
  if streq ap "" then None
  else Some (match readSnapshotFile (hw_read w) (Engine.ri_SnapshotFilesDir i) ap with Some d => Ok d | None => Err [] end).
Definition phased_warning : Warning :=
  mkWarning "phased-updates.never-include" "snapshot carried no machine id; the full-upgrade pass only considered fully-phased versions. This does not extend to explicitly requested packages — apt resolves those to the newest candidate regardless of phasing, with or without a machine id." [].
Definition held_warning (names : gset gostring) : Warning :=
  mkWarning "held-package.change-skipped" "on hold in the target's dpkg status (Status: hold ok installed); apt proposed changing its version but the hold was honoured instead. It is included in this bundle at its current version, unchanged, even though it was requested by name or an upgrade would otherwise have moved it. Remove the hold on the target and re-resolve to include the newer version."
    (sort_strings (elements names)).
Definition satisfied_warning : Warning :=
  mkWarning "resolver.already-satisfied" "one or more requested packages were already at the exact version on the target; nothing was added for them" [].
Definition coded (code msg : gostring) : list Warning := if streq msg "" then [] else [mkWarning code msg []].

(** The root, the target's holds, and what is worth telling before apt runs. *)
Record prepared := mkPrepared { pp_cap : Capabilities; pp_root : PrivateRoot; pp_held : gmap gostring gostring; pp_divergence : gostring; pp_warnings : list Warning }.
Definition prepare (i : ResolveInput) : apt_run prepared :=
  cap ← Probe;
  _ ← guard_with (negb (ca_Available cap)) (DfError Environment ("apt: local backend: " ++ ca_Reason cap) (ca_Hint cap) None);
  _ ← guard_with (streq (input_arch i) "") (New Usage []);
  _ ← guard_with (negb (forallb valid_operand (Engine.ri_Packages i))) (New Usage []);
  _ ← guard_with (negb (forallb valid_operand (Engine.ri_ExternalNames i))) (New Usage []);
  extra ← (if streq (Engine.ri_ExternalRepoDir i) "" then mret []
           else abs ← must Usage (hw_abs w (Engine.ri_ExternalRepoDir i)); mret [external_source abs]);
  let spec := root_spec i extra in
  r ← gets (λ h, hw_root w h spec);
  _ ← done_ (BuildRoot spec);
  root ← lift_result (map_err (λ e, New (root_class e) []) r);
  held ← lift_result (map_err (λ _, New Usage []) (AptClosure.heldPackageVersions (dpkg_status i)));
  dump ← gets (λ h, hw_dump w h (pr_AptConfigPath root));
  _ ← done_ (DumpConfig (pr_AptConfigPath root));
  let '(divergence, note) := solverDivergenceForLock is_print (Some (Engine.ri_Snapshot i))
    (buildFileSetFromDir (hw_read w) (Engine.ri_Snapshot i) (Engine.ri_SnapshotFilesDir i)) (ca_APTVersion cap) dump in
  mret (mkPrepared cap root held divergence
    (map (λ x, mkWarning (rw_Code x) (rw_Message x) []) (pr_Warnings root)
     ++ (if streq (Engine.ri_PhasedPolicy i) PhasedNeverInclude && Engine.ri_Upgrades i then [phased_warning] else [])
     ++ coded "resolver.solver-divergence" divergence ++ coded "resolver.apt-version-differs" note)).
Definition update (root : PrivateRoot) : apt_run (list Warning) :=
  '(out, err) ← root_apt root [bytes_of "update"];
  let u := ParseUpdate out in
  _ ← guard_with (up_Failed u) (New Resolution []);
  _ ← guard_with (bool_decide (err ≠ None)) (default (New Resolution []) err);
  mret (updateDiagnosticWarnings u).

Definition no_passes : passes := mkPasses (mkRecorded ∅ ∅ ∅) ∅ ∅ [].
(** The three passes: what to take, from which roots, and the external names. *)
Definition simulate_all (i : ResolveInput) (root : PrivateRoot) (held : gmap gostring gostring) : apt_run (passes * confirmation) :=
  let arch := input_arch i in
  p ← upgrade_pass held arch root (Engine.ri_Upgrades i) no_passes;
  p ← package_pass held arch root (Engine.ri_Packages i) p;
  c ← external_pass held arch root (Engine.ri_ExternalNames i) (pa_rec p);
  mret (mkPasses (cn_rec c) (pa_roots p ∪ list_to_set (map baseName (cn_names c))) (pa_upgrade p) (pa_warnings p), c).
(** The reasons, in the order the source gives them. *)
Definition attribute_all (i : ResolveInput) (p : passes) (c : confirmation) (entries : list PackagesIndexEntry) (selections : list Selection)
    : list Selection :=
  let graph := buildDependencyGraph selections (indexByNameVersion entries) in
  let named := map (restage (Engine.ri_ExternalRepoDir i)) (map (name_reason (cn_names c) (Engine.ri_Packages i)) selections) in
  let reasoned := AttributeReasons (attributionRoots (pa_roots p) (pa_upgrade p) named) named graph in
  SortSelections (map (upgrade_reason (pa_roots p)) reasoned).
Definition masks_of (i : ResolveInput) : list hostPathMask :=
  resolveHostPathMasks (root_dir i) (Engine.ri_ArchivesDir i) (Engine.ri_ExternalRepoDir i) (Engine.ri_SnapshotFilesDir i) (Engine.ri_WorkDir i).
Definition make_plan (i : ResolveInput) (pp : prepared) (p : passes) (c : confirmation) (selections : list Selection) (install : list gostring)
    (warnings : list Warning) : Plan :=
  let t := sn_Target (Engine.ri_Snapshot i) in let masks := masks_of i in
  mkPlan (LockTypes.mkTarget (SnapshotTypes.ta_DistroID t) (SnapshotTypes.ta_VersionID t) (SnapshotTypes.ta_Codename t) (input_arch i)
            (SnapshotTypes.ta_ForeignArchs t) (SnapshotTypes.ta_APTVersion t) (SnapshotTypes.ta_DpkgVersion t))
    (LockTypes.mkResolver BackendLocal [] [] (ca_APTVersion (pp_cap pp)) (ca_DpkgVersion (pp_cap pp))
       (sanitizeAPTOptionsForLock [root_dir i; Engine.ri_ArchivesDir i] (SortedOptions (pp_root pp))) (pr_PhasedPolicy (pp_root pp))
       (Engine.ri_Recommends i) (pp_divergence pp))
    selections (sort_strings install) (map (lockSafeWarning masks) warnings) (map (lockSafeUnresolved masks) (cn_unresolved c)).
Definition Resolve (i : ResolveInput) : apt_run Plan :=
  pp ← prepare i;
  let root := pp_root pp in
  updated ← update root;
  '(p, c) ← simulate_all i root (pp_held pp);
  let r := pa_rec p in
  selections ← (if bool_decide (rc_versions r = ∅) && bool_decide (rc_pinned r = ∅) then mret []
                else fetchAndBuildSelections root (rc_versions r) (rc_pinned r));
  let dir := filepath_join [root_dir i; bytes_of "var"; bytes_of "lib"; bytes_of "apt"; bytes_of "lists"] in
  found ← gets (read_index dir);
  let final := attribute_all i p c (match found with Ok es => es | Err _ => [] end) selections in
  mret (make_plan i pp p c final (map qualifiedNameVersion selections)
    (pp_warnings pp ++ updated ++ pa_warnings p
     ++ (if bool_decide (rc_excluded r = ∅) then [] else [held_warning (rc_excluded r)])
     ++ (match found with Ok _ => [] | Err e => [mkWarning "resolver.packages-index-unreadable" e []] end)
     ++ (if unsatisfiedNonHeldRequest (Engine.ri_Packages i) final (rc_excluded r) then [satisfied_warning] else []))).
End resolve.
