(* ===== verification/AptResolveSafe.v ===== *)
(** * What a resolution by the local backend runs, selects and says.

    The command lines apt is given, whatever happens; that every version of a
    plan is one apt proposed or the target holds; and what the texts of a plan
    leave out. *)
From S2P Require Export AptResolve.
From S2P Require ClosedWorld AptClosure Engine SnapshotOpen.
#[local] Open Scope Z_scope.

Abbreviation adds := (RunMonad.adds (λ h : apt_history, h)).

Section safe.
Context {control : DebControl} {unicode : UnicodeTables} {hosts : Hosts} (is_print : Z → bool) (w : host_world) (i : Engine.ResolveInput).

(** ** The command lines *)

Definition built_root (root : PrivateRoot) : Prop := ∃ h extra, hw_root w h (root_spec i extra) = Ok root
  ∧ (extra = [] ∨ ∃ abs, hw_abs w (Engine.ri_ExternalRepoDir i) = Some abs ∧ extra = [external_source abs]).
Definition dashdash (operands : list gostring) : list gostring := match operands with [] => [] | _ => bytes_of "--" :: operands end.
(** What a package operand is, by its characters: a name, and perhaps an
    architecture, a release and a version. *)
Definition lower_digits : gostring := "abcdefghijklmnopqrstuvwxyz0123456789".
Definition letters_digits : gostring := "ABCDEFGHIJKLMNOPQRSTUVWXYZ" ++ lower_digits.
Definition part (sep : ascii) (extra s : gostring) : Prop :=
  s = [] ∨ ∃ r, s = sep :: r ∧ Forall (λ c, c ∈ letters_digits ++ extra) r.
Definition package_name (s : gostring) : Prop :=
  (∃ c r, s = c :: r ∧ c ∈ lower_digits) ∧ Forall (λ c, c ∈ lower_digits ++ "+-.") s ∧ (length s ≤ 255)%nat.
Definition operand (o : gostring) : Prop := ∃ name arch release version,
  o = name ++ arch ++ release ++ version ∧ package_name name
  ∧ part ":" "-." arch ∧ part "/" "-." release ∧ part "=" ".+-:~" version ∧ version ≠ bytes_of "=".
(** The command lines that take operands, as apt is given them. *)
Definition commands : list (list gostring) :=
  [ [bytes_of "-s"; bytes_of "install"]; [bytes_of "install"; bytes_of "--print-uris"; bytes_of "-y"];
    [bytes_of "--download-only"; bytes_of "-y"; bytes_of "install"]; [bytes_of "download"] ].
Definition safe_args (args : list gostring) : Prop :=
  args = [bytes_of "update"] ∨ args = [bytes_of "-s"; bytes_of "full-upgrade"]
  ∨ ∃ command operands, command ∈ commands ∧ Forall operand operands
      ∧ args = command ++ match operands with [] => [] | _ => bytes_of "--" :: operands end.
Definition allowed (a : apt_action) : Prop :=
  match a with
  | RunApt config argv =>
      config = [] ∧ argv = [bytes_of "-v"]
      ∨ ∃ root args, built_root root ∧ config = pr_AptConfigPath root ∧ argv = concat (map (λ o, [bytes_of "-o"; o]) (pr_Options root)) ++ args ∧ safe_args args
  | BuildRoot spec => ∃ extra, spec = root_spec i extra
  | _ => True
  end.

Lemma alnum_letter c : AptParse.is_alnum c = true → c ∈ letters_digits.
Proof. intros H. destruct c as [[] [] [] [] [] [] [] []]; (discriminate H || (apply (bool_decide_unpack _); vm_compute; exact I)). Qed.
Lemma lower_letter c : isLowerAlnum c = true → c ∈ lower_digits.
Proof. intros H. destruct c as [[] [] [] [] [] [] [] []]; (discriminate H || (apply (bool_decide_unpack _); vm_compute; exact I)). Qed.
Lemma token_chars s extra : validOperandToken s extra = true → Forall (λ c, c ∈ letters_digits ++ extra) s.
Proof.
  unfold validOperandToken. rewrite forallb_forall. intros H. apply Forall_forall. intros c Hc%list_elem_of_In%H.
  apply elem_of_app. apply orb_true_iff in Hc as [Hc|(x & Hx%list_elem_of_In & Hb)%existsb_exists]; [left; by apply alnum_letter|right].
  unfold beq in Hb. by bsplit; subst.
Qed.
Lemma cut_or_part sep extra s l r : cut_or sep s = (l, r) → validOperandToken r extra = true →
  ∃ p, s = l ++ p ∧ part sep extra p ∧ (p = [] ∧ r = [] ∧ sep ∉ s ∨ p = sep :: r).
Proof.
  unfold cut_or. destruct (cut sep s) as [[l' r']|] eqn:E; cbn [default]; intros [= <- <-] Ht.
  - apply cut_Some in E as [-> _]. exists (sep :: r'). split; [done|]. split; [right|by right]. exists r'. split; [done|]. by apply token_chars.
  - apply cut_None in E. exists []. rewrite app_nil_r. split; [done|]. split; [by left|by left].
Qed.
Lemma valid_operand_chars o : valid_operand o = true → operand o.
Proof.
  unfold valid_operand, splitPackageOperand. destruct (cut_or "=" o) as [rest version] eqn:E1.
  destruct (cut_or "/" rest) as [rest' release] eqn:E2. destruct (cut_or ":" rest') as [name arch] eqn:E3.
  cbn [po_Name po_Arch po_Release po_Version]. rewrite !andb_true_iff. intros [[[[[[_ _] Hn] Hv] Ha] Hr] He].
  destruct (cut_or_part _ _ _ _ _ E1 Hv) as (pv & -> & Pv & Cv), (cut_or_part _ _ _ _ _ E2 Hr) as (pr & -> & Pr & _),
    (cut_or_part _ _ _ _ _ E3 Ha) as (pa & -> & Pa & _).
  exists name, pa, pr, pv. rewrite <- !app_assoc. split_and!; [done| |done..|].
  - unfold package_name. destruct name as [|c r]; [done|]. unfold ValidPackageName in Hn. bsplit.
    split_and!; [exists c, r; split; [done|by apply lower_letter]| |lia].
    apply Forall_forall. intros x Hx. match goal with H : forallb _ _ = true |- _ => rewrite forallb_forall in H; apply list_elem_of_In, H in Hx end.
    apply elem_of_app. rewrite !orb_true_iff in Hx. destruct Hx as [[[Hx|Hx]|Hx]|Hx]; [left; by apply lower_letter|right..];
      unfold beq in Hx; bsplit; subst; (apply (bool_decide_unpack _); vm_compute; exact I).
  - intros ->. destruct Cv as [(? & _)|[= <-]]; [done|]. apply negb_true_iff, andb_false_iff in He as [He|He]; [|done].
    apply contains_byte_false in He. apply He. rewrite !elem_of_app. right. by left.
Qed.

(** The name of a package as an operand names it, whatever release or version
    it asks for: with the architecture, or with none. *)
Definition tail_of (sep : ascii) (p : gostring) : Prop := p = [] ∨ ∃ r, p = sep :: r.
Definition names_package (o name arch : gostring) : Prop := ∃ a release version,
  o = name ++ a ++ release ++ version ∧ Forall (λ c, c ∉ name) [":"; "/"; "="]%char ∧ Forall (λ c, c ∉ a) ["/"; "="]%char ∧ ("="%char ∉ release)
  ∧ (a = [] ∨ a = bytes_of ":" ∨ a = ":"%char :: arch) ∧ tail_of "/" release ∧ tail_of "=" version.
Lemma cut_or_tail sep l p : sep ∉ l → tail_of sep p → cut_or sep (l ++ p) = (l, drop 1 p).
Proof.
  intros Hl [->|[r ->]]; unfold cut_or; [|by rewrite (cut_app sep l r Hl)]. rewrite app_nil_r. by rewrite (proj2 (cut_None sep l) Hl).
Qed.
Lemma cut_or_inv sep s l r : cut_or sep s = (l, r) → ∃ p, s = l ++ p ∧ tail_of sep p ∧ r = drop 1 p ∧ sep ∉ l.
Proof.
  unfold cut_or. destruct (cut sep s) as [[l' r']|] eqn:E; cbn [default]; intros [= <- <-].
  - apply cut_Some in E as [-> ?]. exists (sep :: r'). split_and!; [done|right; by exists r'|done|done].
  - apply cut_None in E. exists []. rewrite app_nil_r. split_and!; [done|by left|done|done].
Qed.
Lemma operandMatches_spec o name arch : operandMatches o name arch = true ↔ names_package o name arch.
Proof.
  unfold operandMatches, splitPackageOperand, names_package. split.
  - destruct (cut_or "=" o) as [rest version] eqn:E1. destruct (cut_or "/" rest) as [rest' release] eqn:E2.
    destruct (cut_or ":" rest') as [n a] eqn:E3. cbn [po_Name po_Arch]. intros [->%streq_true Ha]%andb_true_iff.
    apply cut_or_inv in E1 as (pv & -> & Tv & -> & Nv), E2 as (pr & -> & Tr & -> & Nr), E3 as (pa & -> & Ta & -> & Na).
    rewrite !not_elem_of_app in *. exists pa, pr, pv. rewrite <- !app_assoc. split_and!; try tauto; [repeat constructor; tauto..|].
    destruct Ta as [->|[r ->]]; [by left|right]. change (drop 1 (":"%char :: r)) with r in Ha. apply orb_true_iff in Ha as [->%streq_true| ->%streq_true]; [by left|by right].
  - intros (a & r & v & -> & Hn & Hs & Hr & Ha & Tr & Tv). 
    apply Forall_cons in Hn as [N1 [N2 [N3 _]%Forall_cons]%Forall_cons], Hs as [A1 [A2 _]%Forall_cons].
    rewrite (app_assoc a), (app_assoc name), (cut_or_tail "=") by (rewrite ?not_elem_of_app; tauto).
    rewrite (app_assoc name), (cut_or_tail "/") by (rewrite ?not_elem_of_app; tauto).
    rewrite (cut_or_tail ":"); [|done|destruct Ha as [->|[->| ->]]; [by left|right; by eexists..]].
    cbn [po_Name po_Arch]. rewrite streq_refl. destruct Ha as [->|[->| ->]]; cbn [drop andb]; [done..|]. by rewrite streq_refl, orb_true_r.
Qed.

Lemma aptOperandArgs_ok names operands : aptOperandArgs names = Ok operands →
  operands = dashdash names ∧ Forall (λ o, valid_operand o = true) names.
Proof.
  unfold aptOperandArgs, validatePackageOperands. destruct (forallb valid_operand names) eqn:E; [|done]. intros [= <-].
  split; [by destruct names|]. apply Forall_forall. intros o Ho. rewrite forallb_forall in E. by apply E, list_elem_of_In.
Qed.

Lemma adds_done P a : P a → adds P (done_ a).
Proof. intros Ha s. exists [a]. by repeat constructor. Qed.
Lemma adds_run_apt P config opts args : P (RunApt config (ClosedWorld.full_args opts args)) → adds P (run_apt w config opts args).
Proof. intros Ha s. eexists. by repeat constructor. Qed.
Ltac adds_own :=
  idtac;
  match goal with
  | |- RunMonad.adds _ _ (done_ _) => apply adds_done; try exact I
  | |- RunMonad.adds _ _ (run_apt _ _ _ _) => apply adds_run_apt
  | |- RunMonad.adds _ _ (must _ ?x) => unfold must; destruct x
  end.
Ltac adds_all := repeat adds_step adds_own.

Section root.
Context (root : PrivateRoot) (Hroot : built_root root).
Lemma root_apt_adds args : safe_args args → adds allowed (root_apt w root args).
Proof. intros Ha. unfold root_apt. adds_all. right. by exists root, args. Qed.
Lemma strict_apt_adds args : safe_args args → adds allowed (strict_apt w root args).
Proof. intros Ha. unfold strict_apt. apply adds_bind; [by apply root_apt_adds|]. intros [out err]. adds_all. Qed.
Lemma operands_adds {A} names (f : list gostring → apt_run A) :
  (Forall (λ o, valid_operand o = true) names → adds allowed (f (dashdash names))) → adds allowed (lift_result (aptOperandArgs names) ≫= f).
Proof.
  intros Hf. apply (adds_bind_wp _ _ (λ ops, ops = dashdash names ∧ Forall (λ o, valid_operand o = true) names)).
  - adds_all.
  - intros s. apply wp_lift. destruct (aptOperandArgs names) as [ops|e] eqn:E; [by apply aptOperandArgs_ok|done].
  - intros ops [-> H]. by apply Hf.
Qed.
Lemma command_safe command names : command ∈ commands → Forall (λ o, valid_operand o = true) names → safe_args (command ++ dashdash names).
Proof.
  intros Hc Hn. right. right. exists command, names. split_and!; [done| |done]. eapply Forall_impl; [exact Hn|]. apply valid_operand_chars.
Qed.

Lemma simulateInstall_adds names : adds allowed (simulateInstall w root names).
Proof.
  unfold simulateInstall. apply operands_adds. intros Hn.
  apply adds_bind; [apply root_apt_adds, command_safe; [unfold commands; set_solver|done]|].
  intros [out err]. unfold read_simulation. adds_all.
Qed.
Lemma one_by_one_adds held arch names c : adds allowed (one_by_one w held arch root names c).
Proof.
  revert c. induction names as [|n rest IH]; intros c; cbn [one_by_one]; [adds_all|].
  apply adds_bind; [apply simulateInstall_adds|]. intros sim. apply IH.
Qed.
Lemma simulate_all_adds held : adds allowed (simulate_all w i root held).
Proof.
  unfold simulate_all, upgrade_pass, package_pass, external_pass, read_simulation.
  repeat first [apply simulateInstall_adds | apply one_by_one_adds | apply root_apt_adds; right; by left | adds_step adds_own].
Qed.
Lemma update_adds : adds allowed (update w root).
Proof. unfold update. apply adds_bind; [apply root_apt_adds; by left|]. intros [out err]. adds_all. Qed.
Lemma move_held_adds cwd dir entries l : adds allowed (move_held w cwd dir entries l).
Proof. induction l as [|[ref ver] rest IH]; cbn [move_held]; [adds_all|]. repeat first [exact IH|adds_step adds_own]. Qed.
Lemma list_dir_adds dir : adds allowed (list_dir w dir).
Proof. unfold list_dir. adds_all. Qed.
Lemma downloadHeldPackages_adds dir held : adds allowed (downloadHeldPackages w root dir held).
Proof.
  unfold downloadHeldPackages, must_list. repeat first
    [ apply operands_adds; intros Hn | apply strict_apt_adds, (command_safe [bytes_of "download"]); [unfold commands; set_solver|done]
    | apply list_dir_adds | apply move_held_adds | adds_step adds_own ].
Qed.
Lemma fetchAndBuildSelections_adds versions pinned : adds allowed (fetchAndBuildSelections w root versions pinned).
Proof.
  unfold fetchAndBuildSelections, fetch_pinned. repeat first
    [ apply operands_adds; intros Hn | apply strict_apt_adds, command_safe; [unfold commands; set_solver|done]
    | apply list_dir_adds | apply downloadHeldPackages_adds | adds_step adds_own ].
Qed.
End root.

Lemma prepare_adds : adds allowed (prepare is_print w i).
Proof.
  unfold prepare, Probe. repeat adds_step adds_own; try by left. all: by eexists.
Qed.
Lemma wp_run_apt Q F config opts args s :
  (let exec := hw_apt w s config in
   Q (exec (ClosedWorld.full_args opts args), ClosedWorld.Run exec opts args) (s ++ [RunApt config (ClosedWorld.full_args opts args)])) →
  wp (run_apt w config opts args) Q F s.
Proof. done. Qed.
Definition known_held (held : gmap gostring gostring) : Prop := AptClosure.heldPackageVersions (dpkg_status w i) = Ok held.
Lemma prepare_spec s : wp (prepare is_print w i) (λ pp _, built_root (pp_root pp) ∧ known_held (pp_held pp)) (λ _ _, True) s.
Proof.
  unfold prepare. apply wp_bind. eapply (adds_wp (λ h : apt_history, h) (λ _, True)); [unfold Probe; repeat adds_step adds_own; exact I|].
  intros [cap|e] s1 ? _ _ _; [|done]. do 4 (apply wp_bind, wp_guard; [done|intros _]). apply wp_bind.
  assert (∀ extra s2, (extra = [] ∨ ∃ abs, hw_abs w (Engine.ri_ExternalRepoDir i) = Some abs ∧ extra = [external_source abs]) →
    wp (r ← gets (λ h, hw_root w h (root_spec i extra)); _ ← done_ (BuildRoot (root_spec i extra));
        root ← lift_result (map_err (λ e, New (root_class e) []) r);
        held ← lift_result (map_err (λ _, New Usage []) (AptClosure.heldPackageVersions (dpkg_status w i)));
        dump ← gets (λ h, hw_dump w h (pr_AptConfigPath root)); _ ← done_ (DumpConfig (pr_AptConfigPath root));
        let '(divergence, note) := solverDivergenceForLock is_print (Some (Engine.ri_Snapshot i))
          (buildFileSetFromDir (hw_read w) (Engine.ri_Snapshot i) (Engine.ri_SnapshotFilesDir i)) (ca_APTVersion cap) dump in
        mret (mkPrepared cap root held divergence
          (map (λ x, mkWarning (rw_Code x) (rw_Message x) []) (pr_Warnings root)
           ++ (if streq (Engine.ri_PhasedPolicy i) PhasedNeverInclude && Engine.ri_Upgrades i then [phased_warning] else [])
           ++ coded "resolver.solver-divergence" divergence ++ coded "resolver.apt-version-differs" note)))
      (λ pp _, built_root (pp_root pp) ∧ known_held (pp_held pp)) (λ _ _, True) s2) as Hrest.
  { intros extra s2 Hx. apply wp_bind, wp_gets, wp_bind, wp_modify, wp_bind, wp_lift.
    destruct (hw_root w s2 (root_spec i extra)) as [root|e] eqn:Er; [|done]. cbn [map_err]. apply wp_bind, wp_lift.
    destruct (AptClosure.heldPackageVersions _) as [held|e] eqn:Eh; [|done]. cbn [map_err].
    apply wp_bind, wp_gets, wp_bind, wp_modify. destruct (solverDivergenceForLock _ _ _ _ _) as [divergence note]. apply wp_ret.
    split; [|exact Eh]. by exists s2, extra. }
  destruct (streq (Engine.ri_ExternalRepoDir i) ""); [apply wp_ret; refine (Hrest [] _ _); by left|]. apply wp_bind. unfold must.
  destruct (hw_abs w _) as [abs|] eqn:Ea; [|done]. do 2 apply wp_ret. refine (Hrest [external_source abs] _ _). right. by exists abs.
Qed.


(** ** Names without a NUL *)

Lemma app_sep_inj {A} (x : A) a l : ∀ a' l', x ∉ a → a ++ x :: l = a' ++ x :: l' →
  (a = a' ∧ l = l') ∨ ∃ d, a' = a ++ x :: d ∧ l = d ++ x :: l'.
Proof.
  induction a as [|y a IH]; intros [|z a'] l' Hx; cbn [app].
  - intros [= ->]. by left.
  - intros [= -> ->]. right. by exists a'.
  - intros [= -> _]. by destruct Hx; left.
  - intros [= -> H]. destruct (IH a' l') as [[-> ->]|(d & -> & ->)]; [set_solver|done|by left|right; by exists d].
Qed.
Lemma nvKey_inj a b c a' b' c' : nul ∉ a → nul ∉ b → nul ∉ c → nvKey a b c = nvKey a' b' c' → a = a' ∧ b = b' ∧ c = c'.
Proof.
  intros Ha Hb Hc H. unfold nvKey in H. cbn [app] in H.
  apply app_sep_inj in H as [[-> H]|(d & _ & H)]; [| |done]; (apply app_sep_inj in H as [[-> ->]|(d' & -> & ->)]; [| |done]).
  - done.
  - destruct Hc. set_solver.
  - destruct Hc. set_solver.
  - destruct Hc. set_solver.
Qed.
Lemma indexByNameVersion_lookup entries key e : indexByNameVersion entries !! key = Some e → e ∈ entries ∧ entry_key e = key.
Proof.
  assert (∀ m : gmap gostring PackagesIndexEntry, fold_left (λ m e, <[entry_key e := e]> m) entries m !! key = Some e →
    (e ∈ entries ∧ entry_key e = key) ∨ m !! key = Some e) as H.
  { induction entries as [|x l IH]; intros m Hm; cbn [fold_left] in Hm; [by right|]. apply IH in Hm as [[Hin Hk]|Hm].
    - left. split; [by right|done].
    - destruct (decide (entry_key x = key)) as [<-|Hne].
      + rewrite lookup_insert_eq in Hm. injection Hm as ->. left. split; [by left|done].
      + rewrite lookup_insert_ne in Hm by done. by right. }
  intros Hm. destruct (H ∅ Hm) as [?|Hbad]; [done|]. by rewrite lookup_empty in Hbad.
Qed.

(** A legal operand is printable. *)
Lemma cut_or_parts sep s c : c ∈ s → c ∈ (cut_or sep s).1 ∨ c ∈ (cut_or sep s).2 ∨ c = sep.
Proof.
  unfold cut_or. destruct (cut sep s) as [[a b]|] eqn:E; cbn; [|by left]. apply cut_Some in E as [-> _].
  rewrite elem_of_app, elem_of_cons. naive_solver.
Qed.
Lemma forallb_not_in (f : ascii → bool) c s : f c = false → forallb f s = true → c ∉ s.
Proof. intros Hc Hs Hin. rewrite forallb_forall in Hs. specialize (Hs c (proj1 (list_elem_of_In _ _) Hin)). congruence. Qed.
Lemma valid_operand_no_nul o : valid_operand o = true → nul ∉ o.
Proof.
  unfold valid_operand, splitPackageOperand. destruct (cut_or "=" o) as [rest version] eqn:E1.
  destruct (cut_or "/" rest) as [rest' release] eqn:E2. destruct (cut_or ":" rest') as [name arch] eqn:E3.
  cbn [po_Name po_Arch po_Release po_Version]. rewrite !andb_true_iff. intros [[[[[[_ _] Hn] Hv] Ha] Hr] _] Hin.
  apply (forallb_not_in _ nul) in Hv, Ha, Hr; [|done..].
  assert (nul ∉ name) as Hn'.
  { destruct name as [|c r]; [done|]. cbn [ValidPackageName] in Hn. apply andb_true_iff in Hn as [_ Hn].
    by apply (forallb_not_in _ nul) in Hn. }
  apply (cut_or_parts "=") in Hin. rewrite E1 in Hin; cbn [fst snd] in Hin. destruct Hin as [Hin|[Hin|]]; [|by apply Hv|done].
  apply (cut_or_parts "/") in Hin. rewrite E2 in Hin; cbn [fst snd] in Hin. destruct Hin as [Hin|[Hin|]]; [|by apply Hr|done].
  apply (cut_or_parts ":") in Hin. rewrite E3 in Hin; cbn [fst snd] in Hin. destruct Hin as [Hin|[Hin|]]; [by apply Hn'|by apply Ha|done].
Qed.

(** ** Where a version comes from *)

Section sound.
Context (root : PrivateRoot) (held : gmap gostring gostring).
Abbreviation arch := (input_arch i).

(** An action of a simulation this run started and understood. *)
Definition proposed (h : apt_history) (a : InstAction) : Prop := ∃ h1 h2 args,
  let exec := hw_apt w h1 (pr_AptConfigPath root) in
  let sim := ParseSimulate (ClosedWorld.Run exec (pr_Options root) args).1 in
  h = h1 ++ RunApt (pr_AptConfigPath root) (ClosedWorld.full_args (pr_Options root) args) :: h2
  ∧ (args = [bytes_of "-s"; bytes_of "full-upgrade"] ∨ ∃ operands, args = [bytes_of "-s"; bytes_of "install"] ++ operands)
  ∧ sr_Failed sim = false ∧ sr_UnparsedActions sim = [] ∧ a ∈ sr_Actions sim.
Definition recorded_ok (h : apt_history) (r : recorded) : Prop :=
  (∀ ref v, rc_versions r !! ref = Some v → held !! ref.1 = None ∧ ∃ a, proposed h a ∧ action_ref arch a = ref ∧ ac_Version a = v)
  ∧ (∀ ref v, rc_pinned r !! ref = Some v → held !! ref.1 = Some v ∧ v ≠ [] ∧ ∃ a, proposed h a ∧ action_ref arch a = ref).

Lemma proposed_mono h h' a : h `prefix_of` h' → proposed h a → proposed h' a.
Proof.
  intros [more ->] (h1 & h2 & args & -> & H). exists h1, (h2 ++ more), args. split; [|exact H]. by rewrite <- app_assoc.
Qed.
Lemma recorded_mono h h' r : h `prefix_of` h' → recorded_ok h r → recorded_ok h' r.
Proof.
  intros Hp [H1 H2]. split; intros ref v Hv.
  - destruct (H1 ref v Hv) as (? & a & ? & ?). split; [done|]. exists a. split; [by eapply proposed_mono|done].
  - destruct (H2 ref v Hv) as (? & ? & a & ? & ?). split_and!; [done..|]. exists a. split; [by eapply proposed_mono|done].
Qed.
Lemma record_ok h r a : recorded_ok h r → proposed h a → recorded_ok h (record held arch r a).
Proof.
  intros [H1 H2] Ha. unfold record. destruct (held !! ac_Name a) as [cur|] eqn:Eh.
  - split; cbn [rc_versions rc_pinned]; [exact H1|]. destruct (streq cur "") eqn:Ec; [exact H2|]. apply streq_false_iff in Ec.
    intros ref v. destruct (decide (action_ref arch a = ref)) as [<-|Hne].
    + rewrite lookup_insert_eq. intros [= <-]. split_and!; [done|done|by exists a].
    + rewrite lookup_insert_ne by done. apply H2.
  - split; cbn [rc_versions rc_pinned]; [|exact H2]. intros ref v. destruct (decide (action_ref arch a = ref)) as [<-|Hne].
    + rewrite lookup_insert_eq. intros [= <-]. split; [done|by exists a].
    + rewrite lookup_insert_ne by done. apply H1.
Qed.
Lemma record_all_ok h l : ∀ r, recorded_ok h r → (∀ a, a ∈ l → proposed h a) → recorded_ok h (record_all held arch r l).
Proof.
  induction l as [|a l IH]; intros r Hr Hl; [done|]. apply IH; [apply record_ok; [done|apply Hl; by left]|]. intros b Hb. apply Hl. by right.
Qed.

(** An installation of these operands that was simulated, and failed or did not. *)
Definition simulated (operands : list gostring) (failed : bool) (h : apt_history) : Prop := ∃ h1 h2,
  let args := [bytes_of "-s"; bytes_of "install"; bytes_of "--"] ++ operands in
  h = h1 ++ RunApt (pr_AptConfigPath root) (ClosedWorld.full_args (pr_Options root) args) :: h2
  ∧ sr_Failed (ParseSimulate (ClosedWorld.Run (hw_apt w h1 (pr_AptConfigPath root)) (pr_Options root) args).1) = failed.
Lemma simulated_mono operands failed h h' : h `prefix_of` h' → simulated operands failed h → simulated operands failed h'.
Proof. intros [more ->] (h1 & h2 & -> & H). exists h1, (h2 ++ more). split; [|exact H]. by rewrite <- app_assoc. Qed.
(** A simulation: what it says, when it did not fail, was proposed. *)
Definition heard (s : apt_history) (sim : SimulateResult) (s' : apt_history) : Prop :=
  s `prefix_of` s' ∧ (sr_Failed sim = false → ∀ a, a ∈ sr_Actions sim → proposed s' a).
Definition after (s : apt_history) (args : list gostring) : apt_history :=
  s ++ [RunApt (pr_AptConfigPath root) (ClosedWorld.full_args (pr_Options root) args)].
Lemma wp_root_apt args Q F s :
  Q (ClosedWorld.Run (hw_apt w s (pr_AptConfigPath root)) (pr_Options root) args) (after s args) → wp (root_apt w root args) Q F s.
Proof. done. Qed.
Lemma wp_read_simulation args s (Q : SimulateResult → apt_history → Prop) :
  (args = full_upgrade ∨ ∃ operands, args = simulate_args operands) →
  (∀ sim, sim = ParseSimulate (ClosedWorld.Run (hw_apt w s (pr_AptConfigPath root)) (pr_Options root) args).1 →
     heard s sim (after s args) → Q sim (after s args)) →
  wp (read_simulation (ClosedWorld.Run (hw_apt w s (pr_AptConfigPath root)) (pr_Options root) args).1) Q (λ _ _, True) (after s args).
Proof.
  intros Ha HQ. unfold read_simulation. destruct (sr_UnparsedActions _) eqn:Eu; [|done]. apply wp_ret, HQ; [done|].
  split; [by eexists|]. intros Hf a Hin. by exists s, [], args.
Qed.
Lemma simulateInstall_spec names s : wp (simulateInstall w root names)
  (λ sim s', heard s sim s' ∧ (names ≠ [] → simulated names (sr_Failed sim) s')) (λ _ _, True) s.
Proof.
  unfold simulateInstall. apply wp_bind, wp_lift. destruct (aptOperandArgs names) as [operands|e] eqn:Eo; [|done].
  apply aptOperandArgs_ok in Eo as [-> _]. apply wp_bind, wp_root_apt. destruct (ClosedWorld.Run _ _ _) as [out err] eqn:Er.
  apply wp_bind, wp_guard; [done|intros _]. change out with (out, err).1. rewrite <- Er.
  apply wp_read_simulation; [right; by eexists|]. intros sim -> Hh. split; [done|]. intros Hn. destruct names; [done|]. by exists s, [].
Qed.
Lemma heard_ok s sim s' r : heard s sim s' → recorded_ok s r → sr_Failed sim = false → recorded_ok s' (record_all held arch r (sr_Actions sim)).
Proof. intros [Hp Ha] Hr Hf. apply record_all_ok; [by eapply recorded_mono|auto]. Qed.

Lemma upgrade_simulated_ok upgrades p s : recorded_ok s (pa_rec p) →
  wp (upgrade_pass w held arch root upgrades p) (λ p' s', recorded_ok s' (pa_rec p')) (λ _ _, True) s.
Proof.
  intros Hr. unfold upgrade_pass. destruct upgrades; [|by apply wp_ret]. cbn [negb]. apply wp_bind, wp_root_apt. destruct (ClosedWorld.Run _ _ _) as [out err] eqn:Er.
  apply wp_bind, wp_guard; [done|intros _]. apply wp_bind. change out with (out, err).1. rewrite <- Er.
  apply wp_read_simulation; [by left|]. intros sim _ Hh. destruct (sr_Failed sim) eqn:Ef; apply wp_ret; cbn [pa_rec].
  - eapply recorded_mono; [exact (proj1 Hh)|done].
  - by eapply heard_ok.
Qed.
Lemma package_pass_ok packages p s : recorded_ok s (pa_rec p) →
  wp (package_pass w held arch root packages p) (λ p' s', recorded_ok s' (pa_rec p')) (λ _ _, True) s.
Proof.
  intros Hr. unfold package_pass. destruct (bool_decide _); [by apply wp_ret|]. apply wp_bind. eapply wp_mono; [apply simulateInstall_spec| |done]. intros sim s1 [Hh _].
  apply wp_bind, wp_guard; [done|]. intros Hf. apply wp_ret. by eapply heard_ok.
Qed.
(** Of the names given, which were confirmed: each in a simulation with it that
    did not fail; and each that was not failed alone. *)
Definition confirmed_by (external names : list gostring) (s : apt_history) : Prop :=
  Forall (λ n, n ∈ external ∧ ∃ operands, n ∈ operands ∧ simulated operands false s) names.
Definition settled (external names : list gostring) (s : apt_history) : Prop := Forall (λ n, n ∈ names ∨ simulated [n] true s) external.
Lemma confirmed_by_mono external names s s' : s `prefix_of` s' → confirmed_by external names s → confirmed_by external names s'.
Proof. intros Hp H. eapply Forall_impl; [exact H|]. intros n (? & ops & ? & ?). split; [done|]. exists ops. split; [done|by eapply simulated_mono]. Qed.
Lemma settled_mono external names s s' : s `prefix_of` s' → settled external names s → settled external names s'.
Proof. intros Hp H. eapply Forall_impl; [exact H|]. intros n [?|?]; [by left|right; by eapply simulated_mono]. Qed.
Definition confirmed_ok (external : list gostring) (c : confirmation) (s : apt_history) : Prop :=
  recorded_ok s (cn_rec c) ∧ confirmed_by external (cn_names c) s.
Lemma one_by_one_ok external names : ∀ c tried s, Forall (λ n, n ∈ external) names → confirmed_ok external c s → settled tried (cn_names c) s →
  wp (one_by_one w held arch root names c) (λ c' s', confirmed_ok external c' s' ∧ settled (tried ++ names) (cn_names c') s') (λ _ _, True) s.
Proof.
  induction names as [|n rest IH]; intros c tried s Hn [Hr Hc] Ht; cbn [one_by_one]; [apply wp_ret; by rewrite app_nil_r|].
  apply Forall_cons in Hn as [Hn Hrest]. apply wp_bind. eapply wp_mono; [apply simulateInstall_spec| |done]. intros sim s1 [Hh Hs].
  specialize (Hs ltac:(done)). pose proof (proj1 Hh) as Hp.
  eapply wp_mono; [|intros c' s'; rewrite (cons_middle n tried rest), app_assoc; exact id|done].
  destruct (sr_Failed sim) eqn:Ef; apply IH; [done| | |done| |].
  - split; [by eapply recorded_mono|by eapply confirmed_by_mono].
  - apply Forall_app. split; [by eapply settled_mono|]. apply Forall_singleton. by right.
  - split; [by eapply heard_ok|]. apply Forall_app. split; [by eapply confirmed_by_mono|]. apply Forall_singleton.
    split; [done|]. exists [n]. split; [by left|done].
  - cbn [cn_names]. apply Forall_app. split; [|apply Forall_singleton; left; apply elem_of_app; right; by left].
    eapply Forall_impl; [by eapply settled_mono|]. cbn beta. intros m [Hm|Hm]; [left; apply elem_of_app; by left|by right].
Qed.
Lemma dedupSorted_in external n : n ∈ dedupSorted external → n ∈ external.
Proof.
  unfold dedupSorted. rewrite sort_strings_perm. unfold dedupeStrings. generalize (∅ : gset gostring) as seen.
  induction external as [|x l IH]; intros seen Hn; cbn [dedupe_by] in Hn; [done|]. destruct (_ || _); [right; by eapply IH|].
  apply elem_of_cons in Hn as [->|Hn]; [by left|right; by eapply IH].
Qed.
Lemma dedupSorted_all external n : n ≠ [] → n ∈ external → n ∈ dedupSorted external.
Proof.
  intros Hn. unfold dedupSorted. rewrite sort_strings_perm. unfold dedupeStrings.
  assert (∀ seen : gset gostring, n ∉ seen → n ∈ external → n ∈ dedupe_by id seen external) as H; [|by apply H, not_elem_of_empty].
  induction external as [|x l IH]; intros seen Hs Hin; [by apply elem_of_nil in Hin|]. cbn [dedupe_by]. unfold id at 1 2.
  destruct (streq x "" || bool_decide (x ∈ seen)) eqn:E.
  - apply IH; [done|]. apply elem_of_cons in Hin as [->|Hin]; [|done]. apply orb_true_iff in E as [->%streq_true|E]; [done|]. by bsplit.
  - destruct (decide (n = x)) as [->|Hne]; [by left|right]. apply IH; [unfold id; set_solver|]. by apply elem_of_cons in Hin as [->|Hin].
Qed.
Lemma external_pass_ok external r s : recorded_ok s r →
  wp (external_pass w held arch root external r)
    (λ c s', confirmed_ok external c s' ∧ ∀ n, n ≠ [] → n ∈ external → n ∈ cn_names c ∨ simulated [n] true s') (λ _ _, True) s.
Proof.
  intros Hr. unfold external_pass. case_bool_decide as Hnil; [apply wp_ret; subst; split; [split; [done|constructor]|by intros n _ ?%elem_of_nil]|].
  apply wp_bind. eapply wp_mono; [apply simulateInstall_spec| |done]. intros sim s1 [Hh Hs].
  assert (Forall (λ n, n ∈ external) (dedupSorted external)) as Hall by (apply Forall_forall; intros n; apply dedupSorted_in).
  destruct (sr_Failed sim) eqn:Ef.
  - eapply wp_mono; [apply (one_by_one_ok external (dedupSorted external) _ []); [done| |constructor]| |done].
    + split; [eapply recorded_mono; [exact (proj1 Hh)|done]|constructor].
    + intros c s2 [Hc Ht]. split; [done|]. intros n Hn Hin. unfold settled in Ht. rewrite Forall_forall in Ht. by apply Ht, dedupSorted_all.
  - apply wp_ret. split; [split; [by eapply heard_ok|]|].
    + cbn [cn_names]. apply Forall_forall. intros n Hin. split; [by apply dedupSorted_in|]. exists (dedupSorted external). split; [done|].
      apply Hs. by intros ->%elem_of_nil_inv || (intros E; rewrite E in Hin; by apply elem_of_nil in Hin).
    + intros n Hn Hin. left. by apply dedupSorted_all.
Qed.
Lemma no_passes_ok s : recorded_ok s (pa_rec no_passes).
Proof. by split. Qed.
(** The names the user's own packages go by. *)
Definition user_named (names : list gostring) (s : apt_history) : Prop := confirmed_by (Engine.ri_ExternalNames i) names s
  ∧ ∀ n, n ≠ [] → n ∈ Engine.ri_ExternalNames i → n ∈ names ∨ simulated [n] true s.
Lemma user_named_mono names s s' : s `prefix_of` s' → user_named names s → user_named names s'.
Proof.
  intros Hp [H1 H2]. split; [by eapply confirmed_by_mono|]. intros n Hn Hin. destruct (H2 n Hn Hin); [by left|right; by eapply simulated_mono].
Qed.
Lemma simulate_all_ok s : wp (simulate_all w i root held)
  (λ r s', recorded_ok s' (pa_rec r.1) ∧ user_named (cn_names r.2) s') (λ _ _, True) s.
Proof.
  unfold simulate_all. apply wp_bind. eapply wp_mono; [apply upgrade_simulated_ok, no_passes_ok| |done]. intros p1 s1 H1.
  apply wp_bind. eapply wp_mono; [apply package_pass_ok, H1| |done]. intros p2 s2 H2.
  apply wp_bind. eapply wp_mono; [apply external_pass_ok, H2| |done]. intros c s3 [[H3 H4] H5]. apply wp_ret. by split.
Qed.

(** ** What is built of them *)

(** Apt's own mark of trust: no index that carries this very package comes from
    a source that says trusted=yes. *)
Definition mark_earned (x : Selection) : Prop := PublisherVerification x = VerifiedAPTSigned →
  ∃ h h' entries, read_index w (lists_dir root) h = Ok entries
    ∧ ∀ e, e ∈ entries → entry_key e = nvKey (Name x) (Arch x) (Version x) →
        indexFileBelongsTo (pe_IndexFile e) (trustedIndexPrefixes (hw_sources w h' (pr_Dir root))) = false.
Definition taken (all : pins) (x : Selection) : Prop :=
  all !! (Name x, Arch x) = Some (Version x) ∧ (Reason x = [] ∧ UserSupplied x = false) ∧ mark_earned x.
Definition clean_pin (p : pkgRef * gostring) : Prop := (nul ∉ p.1.1) ∧ (nul ∉ p.1.2) ∧ (nul ∉ p.2).

Lemma build_selection_spec h h' b p x : clean_pin p → read_index w (lists_dir root) h' = Ok (bl_entries b) →
  bl_trusted b = trustedIndexPrefixes (hw_sources w h (pr_Dir root)) →
  build_selection w h root b p = Some x →
  (Name x, Arch x) = p.1 ∧ Version x = p.2 ∧ (Reason x = [] ∧ UserSupplied x = false) ∧ mark_earned x.
Proof.
  destruct p as [[name arch] ver]. intros (Hn & Ha & Hv) Hidx Htr. unfold build_selection. cbn [fst snd] in *.
  destruct (indexByNameVersion _ !! _) as [e|] eqn:Ee; [|done]. apply indexByNameVersion_lookup in Ee as [Hin Hkey].
  symmetry in Hkey. apply nvKey_inj in Hkey as (_ & Harch & _); [|done..]. intros [= <-]. cbn [Name Arch Version Reason].
  split_and!; [by rewrite Harch|done|done|done|]. intros Hs. cbn [PublisherVerification Name Arch Version] in *.
  exists h', h, (bl_entries b). split; [done|]. intros e' He' Hk. rewrite <- Htr. unfold verificationForIndexes in Hs.
  destruct (existsb _ _) eqn:Ex; [done|]. rewrite <- not_true_iff_false in Ex |- *. intros Hb. apply Ex, existsb_exists.
  exists (pe_IndexFile e'). split; [|done]. apply list_elem_of_In. unfold indexFilesByNameVersion. apply list_elem_of_fmap. exists e'.
  split; [done|]. apply elem_of_lfilter. split; [done|]. rewrite <- Harch in Hk. by apply streq_true.
Qed.

Definition clean_pins (m : pins) : Prop := ∀ ref v, m !! ref = Some v → clean_pin (ref, v).
Lemma operands_clean m operands : aptOperandArgs (sort_strings (map pinned_operand (map_to_list m))) = Ok operands → clean_pins m.
Proof.
  intros [_ H]%aptOperandArgs_ok ref v Hm. rewrite Forall_forall in H.
  assert (nul ∉ pinned_operand (ref, v)) as Hno.
  { apply valid_operand_no_nul, H. rewrite sort_strings_perm. apply list_elem_of_fmap. exists (ref, v). split; [done|].
    by apply elem_of_map_to_list. }
  unfold pinned_operand in Hno. cbn [fst snd] in Hno. unfold clean_pin. cbn [fst snd]. rewrite !not_elem_of_app in Hno. naive_solver.
Qed.
Lemma fetch_pinned_clean versions s : wp (fetch_pinned w root versions) (λ _ _, clean_pins versions) (λ _ _, True) s.
Proof.
  unfold fetch_pinned. destruct (sort_strings _) as [|o os] eqn:Eo.
  - apply wp_ret. intros ref v Hm. apply elem_of_map_to_list in Hm.
    assert (pinned_operand (ref, v) ∈ sort_strings (map pinned_operand (map_to_list versions))) as Hin.
    { rewrite sort_strings_perm. apply list_elem_of_fmap. by exists (ref, v). }
    rewrite Eo in Hin. by apply elem_of_nil in Hin.
  - rewrite <- Eo. apply wp_bind, wp_lift. destruct (aptOperandArgs _) as [operands|e] eqn:E; [|done]. apply operands_clean in E.
    eapply (adds_wp (λ h : apt_history, h) (λ _, True)); [unfold strict_apt, root_apt; repeat adds_step adds_own; exact I|].
    by intros [] ? ? _ _ _.
Qed.
Lemma downloadHeldPackages_clean dir pinned s :
  wp (downloadHeldPackages w root dir pinned) (λ _ _, clean_pins pinned) (λ _ _, True) s.
Proof.
  unfold downloadHeldPackages. destruct (bool_decide _) eqn:Ep.
  { apply bool_decide_eq_true in Ep as ->. apply wp_ret. intros ref v Hm. by rewrite lookup_empty in Hm. }
  apply wp_bind. unfold must. destruct (hw_getwd w) as [cwd|]; [|done]. apply wp_ret, wp_bind.
  eapply (adds_wp (λ h : apt_history, h) (λ _, True)); [unfold must_list, list_dir; repeat adds_step adds_own; exact I|].
  intros [before|e] s1 ? _ _ _; [|done]. apply wp_bind, wp_lift. destruct (aptOperandArgs _) as [operands|e] eqn:E; [|done].
  apply operands_clean in E. eapply (adds_wp (λ h : apt_history, h) (λ _, True)).
  - unfold strict_apt, root_apt, must_list, list_dir.
    repeat first [exact I|apply (adds_mono _ (λ a, allowed a)); [done|apply move_held_adds]|adds_step adds_own].
  - by intros [] ? ? _ _ _.
Qed.

Definition nv_ref (x : Selection) : pkgRef := (Name x, Arch x).
Lemma NoDup_omap {A B C} (f : A → option B) (k : B → C) (g : A → C) l :
  Forall (λ a, ∀ b, f a = Some b → k b = g a) l → NoDup (map g l) → NoDup (map k (omap f l)).
Proof.
  induction 1 as [|a l Ha Hl IH]; cbn [map]; [constructor|]. intros [Hn Hd]%NoDup_cons. change (omap f (a :: l)) with
    (match f a with Some b => b :: omap f l | None => omap f l end).
  destruct (f a) as [b|] eqn:E; [|by apply IH]. cbn [map]. apply NoDup_cons. split; [|by apply IH].
  intros Hin. apply Hn. rewrite (Ha b eq_refl) in Hin. apply list_elem_of_fmap in Hin as (b' & Hk & (a' & Ha' & E')%list_elem_of_omap).
  apply list_elem_of_fmap. exists a'. split; [|done]. rewrite Hk. rewrite Forall_forall in Hl. by apply (Hl a' Ha').
Qed.
Lemma fetch_spec versions pinned s (Hrange : ∀ l, hw_range w l ≡ₚ l) :
  wp (fetchAndBuildSelections w root versions pinned)
    (λ sels _, Forall (taken (pinned ∪ versions)) sels ∧ NoDup (map nv_ref sels)) (λ _ _, True) s.
Proof.
  unfold fetchAndBuildSelections. apply wp_bind. eapply wp_mono; [apply fetch_pinned_clean| |done]. intros uris s1 Hv.
  apply wp_bind. unfold must. destruct (archivesDirOf root) as [staged|]; [|done]. apply wp_ret, wp_bind.
  eapply wp_mono; [apply downloadHeldPackages_clean| |done]. intros u2 s2 Hp. apply wp_bind, wp_gets, wp_bind, wp_lift.
  destruct (read_index w (lists_dir root) s2) as [entries|e] eqn:Ei; [|done]. cbn [map_err].
  apply wp_bind. eapply (adds_wp (λ h : apt_history, h) (λ _, True)); [unfold list_dir; repeat adds_step adds_own; exact I|].
  intros [listing|e] s3 ? _ _ _; [|done]. apply wp_bind. eapply (adds_wp (λ h : apt_history, h) (λ _, True)); [repeat adds_step adds_own|].
  intros [listing'|e] s4 ? _ _ _; [|done]. apply wp_bind, wp_gets, wp_ret. cbv zeta.
  set (b := mkBuilt _ _ _ _ _). set (l := hw_range w (map_to_list (pinned ∪ versions))).
  assert (Forall (λ p, ∀ x, build_selection w s4 root b p = Some x → nv_ref x = p.1 ∧ taken (pinned ∪ versions) x) l) as Hb.
  { apply Forall_forall. intros [ref v] Hin x Hx. unfold l in Hin. rewrite Hrange in Hin. apply elem_of_map_to_list in Hin.
    assert (clean_pin (ref, v)) as Hc by (apply lookup_union_Some_raw in Hin as [Hin|[_ Hin]]; auto).
    destruct (build_selection_spec s4 s2 b _ x Hc Ei eq_refl Hx) as (Hr & Hver & Hre & Hm). cbn [fst snd] in *.
    split; [done|]. split; [by rewrite Hr, Hver|done]. }
  split.
  - apply Forall_forall. intros x ([ref v] & Hin & Hx)%list_elem_of_omap. rewrite Forall_forall in Hb. by apply (Hb _ Hin).
  - eapply (NoDup_omap _ _ fst).
    + eapply Forall_impl; [exact Hb|]. intros p Hbp x Hx. by apply Hbp.
    + unfold l. rewrite Hrange. apply NoDup_fst_map_to_list.
Qed.
End sound.

(** ** The reasons change nothing else *)

Lemma attribute_all_ind (P : Selection → Prop) p c entries selections :
  (∀ x, x ∈ selections → P (name_reason (cn_names c) (Engine.ri_Packages i) x)) →
  (∀ path x, P x → P (with_staged path x)) →
  (∀ r x, P x → Reason x = [] → r ≠ ReasonExternal → P (with_reason r x)) →
  Forall P (attribute_all i p c entries selections).
Proof.
  intros H1 H2 H3. unfold attribute_all, SortSelections, AttributeReasons. rewrite sort_by_perm, !Forall_map.
  apply Forall_forall. intros x Hx. specialize (H1 x Hx). set (named := map _ _).
  assert (∀ y, P y → P (restage (Engine.ri_ExternalRepoDir i) y)) as Hr.
  { intros y Hy. unfold restage. destruct (_ && _); [by apply H2|done]. }
  assert (∀ known deps roots y, P y → P (attribute (search known deps roots) (fallback known roots) y)) as Ha.
  { intros known deps roots y Hy. unfold attribute. destruct (streq (Reason y) "") eqn:E; cbn [negb]; [|done]. apply streq_true in E.
    repeat case_match; try done; by apply H3. }
  assert (∀ roots y, P y → P (upgrade_reason roots y)) as Hu.
  { intros roots y Hy. unfold upgrade_reason. destruct (streq (Reason y) "") eqn:E; cbn [andb]; [|done]. apply streq_true in E.
    destruct (bool_decide _); [by apply H3|done]. }
  by apply Hu, Ha, Hr.
Qed.
Lemma attribute_all_map {B} (f : Selection → B) p c entries selections :
  (∀ x, f (name_reason (cn_names c) (Engine.ri_Packages i) x) = f x) → (∀ path x, f (with_staged path x) = f x) →
  (∀ r x, f (with_reason r x) = f x) → map f (attribute_all i p c entries selections) ≡ₚ map f selections.
Proof.
  intros H1 H2 H3. unfold attribute_all, SortSelections, AttributeReasons. rewrite sort_by_perm, !map_map.
  apply reflexive_eq, map_ext. intros x. unfold upgrade_reason, attribute, restage.
  repeat case_match; rewrite ?H3, ?H2, ?H1; done.
Qed.

Ltac same_fields := intros; first [reflexivity|unfold name_reason; repeat case_match; reflexivity].

(** ** A plan *)

(** At the held version, or as a simulation proposed. *)
Definition selected (root : PrivateRoot) (held : gmap gostring gostring) (h : apt_history) (x : Selection) : Prop :=
  match held !! Name x with
  | Some cur => cur ≠ [] ∧ Version x = cur
  | None => ∃ a, proposed root h a ∧ action_ref (input_arch i) a = nv_ref x ∧ ac_Version a = Version x
  end.
(** The user's own are those that go by a confirmed name, they are said to be so,
    and not to be signed. *)
Definition external_marked (confirmed : list gostring) (x : Selection) : Prop :=
  (Reason x = ReasonExternal ↔ ∃ n, n ∈ confirmed ∧ names_package n (Name x) (Arch x))
  ∧ (UserSupplied x = true ↔ Reason x = ReasonExternal) ∧ (Reason x = ReasonExternal → PublisherVerification x = VerifiedURLUnverified).
Definition sound_plan (h : apt_history) (plan : Plan) : Prop := ∃ root held confirmed,
  built_root root ∧ known_held held ∧ user_named root confirmed h ∧ NoDup (map nv_ref (pn_Selections plan))
  ∧ Forall (λ x, selected root held h x ∧ external_marked confirmed x ∧ mark_earned root x) (pn_Selections plan)
  ∧ pn_Install plan = sort_strings (map qualifiedNameVersion (pn_Selections plan)).

Lemma taken_selected root held h r x : recorded_ok root held h r → taken root (rc_pinned r ∪ rc_versions r) x → selected root held h x.
Proof.
  intros [Hv Hp] [Hx _]. unfold selected. apply lookup_union_Some_raw in Hx as [Hx|[_ Hx]].
  - destruct (Hp _ _ Hx) as (Hh & Hne & _). cbn in Hh. by rewrite Hh.
  - destruct (Hv _ _ Hx) as (Hh & a & Ha). cbn in Hh. rewrite Hh. by exists a.
Qed.
Lemma reqContains_spec names name arch : reqContains names name arch = true ↔ ∃ n, n ∈ names ∧ names_package n name arch.
Proof.
  unfold reqContains. rewrite existsb_exists. split; intros (n & Hn & Ho); exists n; (split; [by apply list_elem_of_In|by apply operandMatches_spec]).
Qed.
Lemma attributed_sound root p c entries selections (R : Selection → Prop) :
  (∀ r x, R (with_reason r x) ↔ R x) → (∀ path x, R (with_staged path x) ↔ R x) →
  (∀ x, R (name_reason (cn_names c) (Engine.ri_Packages i) x) ↔ R x) →
  Forall (λ x, R x ∧ (Reason x = [] ∧ UserSupplied x = false) ∧ mark_earned root x) selections →
  Forall (λ x, R x ∧ external_marked (cn_names c) x ∧ mark_earned root x) (attribute_all i p c entries selections).
Proof.
  intros HR1 HR2 HR3 Hs. rewrite Forall_forall in Hs. apply attribute_all_ind.
  - intros x (Hx & [Hr Hu] & Hm)%Hs. split; [by apply HR3|]. unfold name_reason, external_marked, mark_earned.
    pose proof (reqContains_spec (cn_names c) (Name x) (Arch x)) as Hc.
    destruct (reqContains (cn_names c) _ _) eqn:Ec; [|destruct (reqContains (Engine.ri_Packages i) _ _)];
      cbn [with_reason Reason UserSupplied PublisherVerification Name Arch Version]; rewrite <- Hc, ?Hr, ?Hu; by split_and!.
  - intros path x (Hx & He & Hm). split; [by apply HR2|done].
  - intros r x (Hx & He & Hm) Hn Hr. split; [by apply HR1|]. split; [|done]. destruct He as (H1 & H2 & H3). rewrite Hn in H1, H2.
    split_and!; cbn [with_reason Reason UserSupplied PublisherVerification Name Arch]; [rewrite <- H1; by split|rewrite H2; by split|by intros E%Hr].
Qed.

(** (C7) A plan says what apt said. Each of its selections is a package at the
    version on hold on the target or, for one not on hold, at a version that a
    simulation of this run, with the private root built for the request, proposed
    for that package and architecture without failing and with every line
    understood; there is one per package and architecture, and the install list
    is theirs. The names of the user's own packages are confirmed by a simulation
    that did not fail, and one that is not failed on its own; the selections that
    go by a confirmed name, and no others, are marked as the user's own and
    as supplied, and not as signed by apt; and one that is marked as signed is in
    no index of a source that is trusted without a signature. *)
Theorem resolve_sound (Hrange : ∀ l, hw_range w l ≡ₚ l) : match Resolve is_print w i [] with
  | (Ok plan, h) => sound_plan h plan
  | (Err _, _) => True
  end.
Proof.
  change (wp (Resolve is_print w i) (λ plan h, sound_plan h plan) (λ _ _, True) []).
  unfold Resolve. apply wp_bind. eapply wp_mono; [apply prepare_spec| |done]. intros pp s1 [Hroot Hheld].
  apply wp_bind. eapply (adds_wp (λ h : apt_history, h)); [by apply update_adds|]. intros [updated|e] s2 ? _ _ _; [|done].
  apply wp_bind. eapply wp_mono; [apply simulate_all_ok| |done]. intros [p c] s3 [Hrec Hc]. cbn [fst snd] in *. cbv zeta.
  apply wp_bind. set (root := pp_root pp) in *. set (held := pp_held pp) in *.
  assert (∀ selections s4, s3 `prefix_of` s4 → Forall (taken root (rc_pinned (pa_rec p) ∪ rc_versions (pa_rec p))) selections →
    NoDup (map nv_ref selections) → ∀ entries warnings,
    sound_plan s4 (make_plan i pp p c (attribute_all i p c entries selections) (map qualifiedNameVersion selections) warnings)) as Hend.
  { intros selections s4 Hpre Ht Hnd entries warnings. exists root, held, (cn_names c). split_and!; [done|done|by eapply user_named_mono| | |].
    - cbn [make_plan pn_Selections]. rewrite attribute_all_map by same_fields. exact Hnd.
    - cbn [make_plan pn_Selections]. apply attributed_sound; try done.
      + intros x. unfold name_reason. destruct (reqContains _ _ _); [done|]. by destruct (reqContains _ _ _).
      + eapply Forall_impl; [exact Ht|]. intros x Hx. split; [|exact (proj2 Hx)].
        eapply taken_selected; [by eapply recorded_mono|exact Hx].
    - cbn [make_plan pn_Selections pn_Install]. apply sort_by_ext; [exact str_leb_total|exact str_leb_trans|exact str_leb_antisym|].
      symmetry. apply attribute_all_map; same_fields. }
  destruct (_ && _).
  - apply wp_ret, wp_bind, wp_gets, wp_ret. apply Hend; [done|constructor|constructor].
  - eapply wp_mono; [apply wp_and; [apply (fetch_spec root _ _ s3 Hrange)|]| |].
    + apply (adds_wp (λ h : apt_history, h) allowed _ (λ _ s4, s3 `prefix_of` s4) (λ _ _, True));
        [by apply fetchAndBuildSelections_adds|]. intros [sels|e] s4 more _ E _; [by exists more|done].
    + intros selections s4 [[Ht Hnd] Hpre]. apply wp_bind, wp_gets, wp_ret. by apply Hend.
    + done.
Qed.

(** ** What the lock may say *)

Lemma masked_free masks p t : host_path p → Forall (λ m, placeholder m.2) masks → p ∈ map fst masks → ¬ occurs p (maskHostPaths masks t).
Proof.
  intros Hp Hm Hin. unfold maskHostPaths. apply scrub_text_gone; [done| |].
  - apply Forall_forall. intros m [Hi _]%elem_of_lfilter. rewrite Forall_forall in Hm. by apply Hm.
  - apply list_elem_of_fmap in Hin as (m & -> & Hi). apply list_elem_of_fmap. exists m. split; [done|]. apply elem_of_lfilter.
    split; [done|]. apply negb_true_iff, streq_false_iff. intros E. destruct Hp as [Hp _]. by rewrite E in Hp.
Qed.
Definition host_dirs : list gostring :=
  [root_dir i; Engine.ri_ArchivesDir i; Engine.ri_ExternalRepoDir i; Engine.ri_SnapshotFilesDir i; Engine.ri_WorkDir i].
Lemma a_placeholder (t : gostring) : has_prefix "<" t && negb (contains_byte slash t) = true → placeholder t.
Proof.
  intros [H1 H2%negb_true_iff]%andb_true_iff. apply has_prefix_spec in H1 as [r ->]. split; [by exists r|]. by apply contains_byte_false.
Qed.
Lemma masks_of_spec : Forall (λ m, placeholder m.2) (masks_of i) ∧ ∀ p, p ∈ host_dirs → p ∈ map fst (masks_of i).
Proof.
  unfold masks_of, resolveHostPathMasks. split.
  - rewrite sort_by_perm. repeat apply Forall_cons_2; [..|apply Forall_nil_2]; by apply a_placeholder.
  - intros p Hp. rewrite sort_by_perm. exact Hp.
Qed.
Lemma wp_any {A} (m : apt_run A) (Q : A → apt_history → Prop) s : (∀ a s', Q a s') → wp m Q (λ _ _, True) s.
Proof. intros HQ. unfold wp. destruct (m s) as [[a|e] s']; [apply HQ|done]. Qed.
Definition recorded_texts (plan : Plan) : list gostring := map w_Message (pn_Warnings plan) ++ map u_Detail (pn_Unresolved plan).
Definition texts_free (plan : Plan) : Prop :=
  (∀ p t, has_prefix "/" p = true → "<"%char ∉ p → p ∈ host_dirs → t ∈ recorded_texts plan → ¬ occurs p t)
  ∧ (∀ p o, has_prefix "/" p = true → "<"%char ∉ p → p ∈ [root_dir i; Engine.ri_ArchivesDir i] → o ∈ r_APTOptions (pn_Resolver plan) → ¬ occurs p o).

(** (C25) No warning of a plan and no reason why something could not be resolved
    names a directory of the host the resolution worked in: not the private root,
    the archives, the staged files, the snapshot's or the work directory, as far
    as they are absolute and their names have no [<] (with which the placeholders
    begin: see [angle_bracket]), even where apt repeated them; nor does an option
    of apt that the plan records name such a root or archives. *)
Theorem lock_texts_free : match Resolve is_print w i [] with
  | (Ok plan, _) => texts_free plan
  | (Err _, _) => True
  end.
Proof.
  change (wp (Resolve is_print w i) (λ plan _, texts_free plan) (λ _ _, True) []).
  unfold Resolve. apply wp_bind, wp_any. intros pp s1. apply wp_bind, wp_any. intros updated s2. apply wp_bind, wp_any. intros [p c] s3.
  apply wp_bind, wp_any. intros selections s4. apply wp_bind, wp_any. intros found s5. apply wp_ret. cbv beta zeta.
  destruct masks_of_spec as [Hm Hin]. unfold texts_free, recorded_texts. cbn [make_plan pn_Warnings pn_Unresolved pn_Resolver r_APTOptions]. split.
  - intros q t Hq Hb Hd [Ht|Ht]%elem_of_app; rewrite map_map in Ht; apply list_elem_of_fmap in Ht as (x & -> & _);
      cbn [lockSafeWarning lockSafeUnresolved w_Message u_Detail]; apply masked_free; (done || auto).
  - intros q o Hq Hb Hd (o' & -> & _)%list_elem_of_fmap. apply masked_free; [done| |].
    + repeat apply Forall_cons_2; [..|apply Forall_nil_2]; by apply a_placeholder.
    + exact Hd.
Qed.
End safe.

(** ** A resolution *)

Definition toy_control : DebControl := {|
  ParseBinaryIndex data := Ok [mkBinaryIndex "curl" "amd64" "1.0" "pool/c/curl_1.0_amd64.deb" 4 "AB" "net" "curl" ∅ [] []];
  ParseDependency _ := None |}.
Definition toy_answer (argv : list gostring) : ClosedWorld.exec_result :=
  let said (args : list gostring) (out : string) := if bool_decide (suffix args argv) then Some (ClosedWorld.Exited out [] 0) else None in
  default (ClosedWorld.Exited [] [] 100) (head (omap id
    [said [bytes_of "-v"] "apt 2.7.14 (amd64)"; said [bytes_of "update"] "Hit:1 http://deb.debian.org/debian bookworm InRelease";
     said [bytes_of "-s"; bytes_of "install"; bytes_of "--"; bytes_of "curl"] "Inst curl (1.0 Debian:12/stable [amd64])";
     said [bytes_of "--"; bytes_of "curl:amd64=1.0"] ""])).
Definition toy_host : host_world := {|
  hw_apt _ _ argv := toy_answer argv; hw_dpkg _ := None; hw_os_release := None; hw_abs p := Some p; hw_read _ := Some [];
  hw_root _ spec := Ok (mkRoot (rs_Dir spec) [archives_option ++ rs_ArchivesDir spec] (rs_PhasedPolicy spec) "/tmp/w/aptroot/debark-apt.conf" [] []
    [mkRootWarning "private-root.test" ("built in " ++ rs_Dir spec)]);
  hw_dump _ _ := None; hw_lists _ _ := Ok [(bytes_of "/l/deb.debian.org_debian_dists_bookworm_main_binary-amd64_Packages", Ok [])];
  hw_sources _ _ := []; hw_dir _ _ := Ok []; hw_size _ _ := None; hw_sha256 _ _ := None; hw_getwd := None;
  hw_mkdir _ _ := true; hw_rename _ _ _ := true; hw_range l := l |}.
Definition toy_input : Engine.ResolveInput :=
  Engine.mkResolveInput SnapshotOpen.sample_snapshot "/snap" [bytes_of "curl"] [] [] "/tmp/w/archives" "/tmp/w"
    (mkOptions None false [] false [] ∅ [] [] [] [] false [] false [] None) true false "never-include" [] true.
Definition toy_resolution : result goerror Plan * apt_history :=
  Resolve (control := toy_control) (hosts := plain_hosts) (λ _, false) toy_host toy_input [].
Definition said_of (r : result goerror Plan) : option (list gostring * list gostring * list gostring) :=
  match r with Ok p => Some (pn_Install p, map Reason (pn_Selections p), take 1 (map w_Message (pn_Warnings p))) | Err _ => None end.
Example toy_plan : said_of toy_resolution.1
  = Some ([bytes_of "curl:amd64=1.0"], [bytes_of "requested"], [bytes_of "built in <PRIVATE-ROOT>"]).
Proof. by vm_compute. Qed.
Lemma resolve_sound_witness : (∀ l, hw_range toy_host l ≡ₚ l) ∧ match toy_resolution with
  | (Ok plan, h) => sound_plan (control := toy_control) toy_host toy_input h plan
  | (Err _, _) => False
  end.
Proof.
  assert (∀ l, hw_range toy_host l ≡ₚ l) as Hr by (intros l; reflexivity). split; [exact Hr|].
  pose proof (resolve_sound (control := toy_control) (hosts := plain_hosts) (λ _, false) toy_host toy_input Hr) as H.
  assert (match toy_resolution.1 with Ok _ => true | Err _ => false end = true) as Hok by (vm_compute; reflexivity).
  unfold toy_resolution in *. destruct (Resolve _ _ _ _) as [[plan|e] h]; [exact H|discriminate Hok].
Defined.

(** Apt saves a package whose version has an epoch under a name with [%3a] in it,
    and prints that name with its URI; the index knows the name of the archive.
    The staged file is found, the URI is not. *)
Definition epoch_host : host_world := {|
  hw_apt _ _ _ := ClosedWorld.NotStarted []; hw_dpkg _ := None; hw_os_release := None; hw_abs _ := None; hw_read _ := None;
  hw_root _ _ := Err ArchRequired; hw_dump _ _ := None; hw_lists _ _ := Err []; hw_sources _ _ := []; hw_dir _ _ := Ok [];
  hw_size _ p := if streq p "/a/vim_2%3a9.0_amd64.deb" then Some 7 else None; hw_sha256 _ _ := None; hw_getwd := None;
  hw_mkdir _ _ := true; hw_rename _ _ _ := true; hw_range l := l |}.
Definition epoch_built : built :=
  mkBuilt "/a" [(bytes_of "vim_2%3a9.0_amd64.deb", false)]
    [mkIndexEntry (mkBinaryIndex "vim" "amd64" "2:9.0" "pool/v/vim_9.0_amd64.deb" 7 "AB" "editors" "vim" ∅ [] []) [] [] []]
    (by_filename (ParsePrintURIs (AptParse.mkOutput [] ("'http://deb.debian.org/pool/v/vim_9.0_amd64.deb' vim_2%3a9.0_amd64.deb 7 SHA256:ab") [] 0))) [].
Example epoch_uri_lost :
  (λ x, (Filename x, Resolve.Size x, URI x)) <$> build_selection epoch_host [] (mkRoot [] [] [] [] [] [] []) epoch_built
    ((bytes_of "vim", bytes_of "amd64"), bytes_of "2:9.0")
  = Some (bytes_of "vim_2%3a9.0_amd64.deb", 7, []).
Proof. by vm_compute. Qed.
