(* ===== verification/Sign.v ===== *)
(** * core/sign: key files, the trust set and signature checking.

    Ed25519 itself (crypto/ed25519) is the parameter [Ed25519]; the gpg check
    of gpg.go, which runs the gpg program, is a parameter of the verifier. *)
From S2P Require Export Manifest.
#[local] Open Scope Z_scope.

(** ** encoding/base64, [StdEncoding] *)

Definition b64_char (n : Z) : ascii :=
  if n <? 26 then chr (65 + n) else if n <? 52 then chr (71 + n) else if n <? 62 then chr (n - 4)
  else if n =? 62 then "+"%char else "/"%char.
Definition b64_val (c : ascii) : option Z :=
  if is_upper c then Some (ord c - 65) else if is_lower c then Some (ord c - 71)
  else if is_digit c then Some (ord c + 4) else if beq c "+" then Some 62 else if beq c "/" then Some 63 else None.

Fixpoint b64_encode (b : gostring) : gostring :=
  match b with
  | [] => []
  | [x] => [b64_char (ord x / 4); b64_char (ord x mod 4 * 16); "="%char; "="%char]
  | [x; y] => [b64_char (ord x / 4); b64_char (ord x mod 4 * 16 + ord y / 16);
               b64_char (ord y mod 16 * 4); "="%char]
  | x :: y :: z :: rest =>
      b64_char (ord x / 4) :: b64_char (ord x mod 4 * 16 + ord y / 16) ::
      b64_char (ord y mod 16 * 4 + ord z / 64) :: b64_char (ord z mod 64) :: b64_encode rest
  end.

(** The four-character groups, padding only in the last one. *)
Fixpoint b64_groups (s : gostring) : option gostring :=
  match s with
  | [] => Some []
  | p :: q :: r :: t :: rest =>
      match b64_val p, b64_val q with
      | Some a, Some b =>
          let x := chr (a * 4 + b / 16) in
          match b64_val r, b64_val t with
          | Some c, Some d =>
              match b64_groups rest with
              | Some out => Some (x :: chr (b mod 16 * 16 + c / 4) :: chr (c mod 4 * 64 + d) :: out)
              | None => None
              end
          | Some c, None =>
              if beq t "=" && bool_decide (rest = []) then Some [x; chr (b mod 16 * 16 + c / 4)] else None
          | None, _ =>
              if beq r "=" && beq t "=" && bool_decide (rest = []) then Some [x] else None
          end
      | _, _ => None
      end
  | _ => None
  end.
(** [DecodeString]: line breaks are skipped. *)
Definition b64_decode (s : gostring) : option gostring :=
  b64_groups (List.filter (λ c, negb (beq c (chr 13) || beq c (chr 10))) s).

(** ** keyformat.go *)

Definition keyAlgTag : gostring := "Ed".
Definition keyIDLen : nat := 8.
Definition pubKeyLen : nat := 32.
Definition pubBlobLen : nat := 2 + keyIDLen + pubKeyLen.
Definition untrustedCommentPrefix : gostring := "untrusted comment: ".
Definition labelPublic : gostring := "debark ed25519 public key".
Definition labelPrivate : gostring := "debark ed25519 secret key".
Definition AlgorithmEd25519 : gostring := "ed25519".
Definition PublicKeyFileSuffix : gostring := ".pub".
Definition PrivateKeyFileSuffix : gostring := ".key".

Definition keyIDFromPublic (pub : gostring) : gostring := take keyIDLen (Sha256.sum pub).
Definition keyIDHex (id : gostring) : gostring := hex_encode id.

Definition encodeKeyFile (label keyIDHexStr comment blob : gostring) : gostring :=
  untrustedCommentPrefix ++ label ++ " " ++ keyIDHexStr ++
  (match comment with [] => [] | _ => " "%char :: comment end) ++ [newline] ++ b64_encode blob ++ [newline].
Definition encodePublicKeyFile (pub comment : gostring) : gostring :=
  let id := keyIDFromPublic pub in
  encodeKeyFile labelPublic (keyIDHex id) comment (keyAlgTag ++ id ++ pub).

Inductive key_error :=
| ReadKey (err : gostring)
| LinesMissing (found : Z)
| BadBase64
| CommentPrefixMissing
| WrongLabel (want : gostring)
| BlobLength (len : Z)
| BlobTag (tag : gostring)
| KeyIDMismatch (stored derived : gostring)
| CommentIDMismatch (comment material : gostring)
| PermissionsTooWide (perm : Z)
| ReadKeyDir (dir : gostring)
| KeyIDCollision (id first second : gostring).

(** [bufio.MaxScanTokenSize]. *)
Definition max_token : Z := 64 * 1024.

(** The scanning loop: the first two lines that are not blank. *)
Fixpoint two_lines (lines : list gostring) (found : list gostring) : list gostring :=
  match lines with
  | [] => found
  | l :: rest =>
      let line := trim_space l in
      if streq line "" then two_lines rest found
      else let found' := found ++ [line] in
           if (length found' =? 2)%nat then found' else two_lines rest found'
  end.
Definition decodeKeyFile (data : gostring) : result key_error (gostring * gostring) :=
  match two_lines (scan_lines max_token data).1 [] with
  | [comment; payload] =>
      match b64_decode payload with Some blob => Ok (comment, blob) | None => Err BadBase64 end
  | lines => Err (LinesMissing (Z.of_nat (length lines)))
  end.

(** Key id and comment. *)
Definition parseCommentLine (line wantLabel : gostring) : result key_error (gostring * gostring) :=
  match cut_prefix untrustedCommentPrefix line with
  | None => Err CommentPrefixMissing
  | Some rest =>
      match cut_prefix (wantLabel ++ " ") rest with
      | None => Err (WrongLabel wantLabel)
      | Some rest => Ok (match cut " " rest with Some (id, comment) => (id, comment) | None => (rest, []) end)
      end
  end.

Definition parsePublicKeyBlob (blob : gostring) : result key_error (gostring * gostring) :=
  if negb (length blob =? pubBlobLen)%nat then Err (BlobLength (Z.of_nat (length blob)))
  else if negb (streq (take 2 blob) keyAlgTag) then Err (BlobTag (take 2 blob))
  else
    let stored := take keyIDLen (drop 2 blob) in
    let pub := drop (2 + keyIDLen) blob in
    let id := keyIDFromPublic pub in
    if negb (streq id stored) then Err (KeyIDMismatch stored id) else Ok (id, pub).

(** ** ed25519.go and api.go: keys and the trust set *)

Record PublicKey := mkPublicKey {
  k_KeyID : gostring; k_Algorithm : gostring; k_Comment : gostring; k_Raw : gostring; k_Source : gostring
}.

Definition privateKeyPermissionError (perm : Z) : option key_error :=
  if Z.land perm 63 =? 0 then None else Some (PermissionsTooWide perm).

Definition publicKeyPathFor (privPath : gostring) : gostring :=
  if has_suffix PrivateKeyFileSuffix privPath
  then trim_suffix PrivateKeyFileSuffix privPath ++ PublicKeyFileSuffix
  else privPath ++ PublicKeyFileSuffix.

Section keys.
Context `{UnicodeTables}.

Definition loadPublicKeyFile (path : gostring) (file : result gostring gostring) : result key_error PublicKey :=
  match file with
  | Err e => Err (ReadKey e)
  | Ok raw =>
      '(commentLine, blob) ← decodeKeyFile raw;
      '(id, pub) ← parsePublicKeyBlob blob;
      '(commentKeyID, comment) ← parseCommentLine commentLine labelPublic;
      if negb (equal_fold commentKeyID (keyIDHex id)) then Err (CommentIDMismatch commentKeyID (keyIDHex id))
      else Ok (mkPublicKey (keyIDHex id) AlgorithmEd25519 comment pub path)
  end.

(** The trust set: lower-case key id to public key and its source. *)
Fixpoint trust_loop (keys : list PublicKey) (ed : gmap gostring (gostring * gostring))
    : result key_error (gmap gostring (gostring * gostring)) :=
  match keys with
  | [] => Ok ed
  | k :: rest =>
      if negb (streq (k_Algorithm k) AlgorithmEd25519) || negb (length (k_Raw k) =? pubKeyLen)%nat then trust_loop rest ed
      else
        let id := to_lower (k_KeyID k) in
        match ed !! id with
        | Some (prev, from) =>
            if streq prev (k_Raw k) then trust_loop rest ed else Err (KeyIDCollision id from (k_Source k))
        | None => trust_loop rest (<[id := (k_Raw k, k_Source k)]> ed)
        end
  end.
Definition buildEd25519TrustSet (keys : list PublicKey) : result key_error (gmap gostring (gostring * gostring)) :=
  trust_loop keys ∅.
End keys.

(** ** Checking a signature block *)

Definition SigningInput (purpose canonical : gostring) : gostring := purpose ++ chr 0 :: canonical.

(** crypto/ed25519. *)
Class Ed25519 := {
  ed_verify : gostring → gostring → gostring → bool;   (* public key, message, signature *)
  ed_sign : gostring → gostring → gostring;            (* private key, message *)
  ed_public : gostring → gostring
}.
Class Ed25519Laws `{Ed25519} : Prop := {
  ed_sign_verify priv msg : ed_verify (ed_public priv) msg (ed_sign priv msg) = true;
  ed_sign_length priv msg : length (ed_sign priv msg) = 64%nat
}.

(** The error values [Verify] returns: [ErrUntrustedKey], a [dferr.Verification]
    error, or any other error. *)
Inductive verdict :=
| Accepted
| UntrustedKey
| BadSignature (detail : gostring)
| CheckFailed (err : gostring).

Section verify.
Context `{UnicodeTables} `{Ed25519}.

Definition verifyEd25519Signature (trusted : gmap gostring (gostring * gostring)) (purpose canon : gostring)
    (sig : Signature) : verdict :=
  match trusted !! to_lower (sg_KeyID sig) with
  | None => UntrustedKey
  | Some (pub, _) =>
      match b64_decode (sg_Signature sig) with
      | None => BadSignature "malformed base64"
      | Some raw =>
          if negb (length raw =? 64)%nat then BadSignature "wrong length"
          else if negb (ed_verify pub (SigningInput purpose canon) raw)
          then BadSignature "does not verify against the trusted key"
          else Accepted
      end
  end.

Definition isPluginSignerKind (kind : gostring) : bool :=
  has_prefix SignerPluginPrefix kind && (length SignerPluginPrefix <? length kind)%nat.

(** [compositeVerifier]: the trust set and the gpg check. *)
Record compositeVerifier := mkVerifier {
  v_keys : gmap gostring (gostring * gostring);
  v_gpg : gostring → gostring → Signature → verdict
}.

Definition Verify (v : compositeVerifier) (purpose canon : gostring) (sig : Signature) : verdict :=
  if streq (sg_SignerKind sig) SignerGPG then v_gpg v purpose canon sig
  else if streq (sg_SignerKind sig) SignerEd25519File then
    if negb (streq (sg_Algorithm sig) "") && negb (equal_fold (sg_Algorithm sig) AlgorithmEd25519)
    then BadSignature "signer_kind contradicts algorithm"
    else verifyEd25519Signature (v_keys v) purpose canon sig
  else if isPluginSignerKind (sg_SignerKind sig) && equal_fold (sg_Algorithm sig) AlgorithmEd25519
  then verifyEd25519Signature (v_keys v) purpose canon sig
  else UntrustedKey.

(** The method [Sign] of the file signer. *)
Definition Sign (priv keyID now purpose canon : gostring) : Signature :=
  mkSignature SignerEd25519File keyID AlgorithmEd25519 now
    (b64_encode (ed_sign priv (SigningInput purpose canon))) [].
End verify.

(** ** base64 round trip *)

Lemma b64_val_char n : 0 ≤ n < 64 → b64_val (b64_char n) = Some n.
Proof.
  intros Hn. assert (forallb (λ k, bool_decide (b64_val (b64_char (Z.of_nat k)) = Some (Z.of_nat k))) (seq 0 64) = true) as H
    by (by vm_compute).
  rewrite forallb_forall in H. specialize (H (Z.to_nat n)). rewrite in_seq, bool_decide_eq_true, Z2Nat.id in H by lia.
  apply H. lia.
Qed.
Lemma b64_val_pad : b64_val "=" = None.
Proof. done. Qed.

Lemma list_ind3 {A} (P : list A → Prop) :
  P [] → (∀ x, P [x]) → (∀ x y, P [x; y]) → (∀ x y z l, P l → P (x :: y :: z :: l)) → ∀ l, P l.
Proof.
  intros H0 H1 H2 H3. fix IH 1. intros [|x [|y [|z l]]]; [done|done|done|]. apply H3, IH.
Qed.

Lemma chr_of x n : n = ord x → chr n = x.
Proof. intros ->. apply chr_ord. Qed.

Lemma b64_groups_encode b : b64_groups (b64_encode b) = Some b.
Proof.
  induction b as [|x|x y|x y z b IH] using list_ind3; cbn [b64_encode b64_groups]; [done|..].
  - pose proof (ord_range x). rewrite !b64_val_char, b64_val_pad by (Z.to_euclidean_division_equations; lia).
    cbn. f_equal. f_equal. apply chr_of. Z.to_euclidean_division_equations; lia.
  - pose proof (ord_range x). pose proof (ord_range y).
    rewrite !b64_val_char, b64_val_pad by (Z.to_euclidean_division_equations; lia).
    change (beq "=" "=" && bool_decide ([] = @nil ascii)) with true. cbn iota. f_equal.
    f_equal; [|f_equal]; apply chr_of; Z.to_euclidean_division_equations; lia.
  - pose proof (ord_range x). pose proof (ord_range y). pose proof (ord_range z).
    rewrite !b64_val_char by (Z.to_euclidean_division_equations; lia). rewrite IH.
    f_equal. f_equal; [|f_equal; [|f_equal]]; apply chr_of; Z.to_euclidean_division_equations; lia.
Qed.

Lemma b64_chars b c : c ∈ b64_encode b → is_digit c || is_upper c || is_lower c || beq c "+" || beq c "/" || beq c "=" = true.
Proof.
  assert (∀ n, 0 ≤ n < 64 → is_digit (b64_char n) || is_upper (b64_char n) || is_lower (b64_char n) ||
    beq (b64_char n) "+" || beq (b64_char n) "/" || beq (b64_char n) "=" = true) as Hn.
  { intros n Hn. pose proof (b64_val_char n Hn) as H. unfold b64_val in H.
    destruct (is_upper _), (is_lower _), (is_digit _), (beq _ "+"), (beq _ "/"); done. }
  induction b as [|x|x y|x y z b IH] using list_ind3; cbn [b64_encode]; rewrite ?elem_of_cons, ?elem_of_nil;
    try pose proof (ord_range x); try pose proof (ord_range y); try pose proof (ord_range z); [done|..];
    intros Hc; repeat (destruct Hc as [->|Hc]; [try done; apply Hn; Z.to_euclidean_division_equations; lia|]); [done|done|auto].
Qed.

Lemma b64_decode_encode b : b64_decode (b64_encode b) = Some b.
Proof.
  unfold b64_decode. assert (List.filter (λ c, negb (beq c (chr 13) || beq c (chr 10))) (b64_encode b) = b64_encode b) as ->.
  { apply filter_all. intros c Hc%b64_chars.
    destruct c as [[] [] [] [] [] [] [] []]; try reflexivity; by vm_compute in Hc. }
  apply b64_groups_encode.
Qed.

(** ** Signature blocks *)

(** The signed bytes determine purpose and document: no signature made for
    one purpose verifies as a signature over another document of another. *)
Theorem SigningInput_injective (p1 p2 c1 c2 : gostring) :
  (chr 0 ∉ p1) → (chr 0 ∉ p2) → SigningInput p1 c1 = SigningInput p2 c2 → p1 = p2 ∧ c1 = c2.
Proof.
  intros H1 H2 E. unfold SigningInput in E.
  assert (cut (chr 0) (p1 ++ chr 0 :: c1) = Some (p2, c2)) as E' by (rewrite E; by apply cut_app).
  rewrite cut_app in E' by done. by simplify_eq.
Qed.

Lemma SigningInput_injective_witness :
  (chr 0 ∉ SignPurpose) ∧ ∀ c, SigningInput SignPurpose "{}" = SigningInput SignPurpose c → bytes_of "{}" = c.
Proof.
  assert (chr 0 ∉ SignPurpose) as H by (apply (bool_decide_unpack _); vm_compute; exact I).
  split; [exact H|]. intros c E. exact (proj2 (SigningInput_injective _ _ _ _ H H E)).
Defined.

Section sound.
Context `{UnicodeTables} `{Ed25519}.

(** What [Verify] asks of a block it hands to the ed25519 check. *)
Definition ed25519_block (sig : Signature) : Prop :=
  (sg_SignerKind sig = SignerEd25519File ∧ (sg_Algorithm sig = [] ∨ equal_fold (sg_Algorithm sig) AlgorithmEd25519 = true)) ∨
  ((∃ name, name ≠ [] ∧ sg_SignerKind sig = SignerPluginPrefix ++ name) ∧
   equal_fold (sg_Algorithm sig) AlgorithmEd25519 = true).

Lemma verifyEd25519_Accepted trusted purpose canon sig :
  verifyEd25519Signature trusted purpose canon sig = Accepted ↔
  ∃ pub from raw, trusted !! to_lower (sg_KeyID sig) = Some (pub, from) ∧ b64_decode (sg_Signature sig) = Some raw ∧
    length raw = 64%nat ∧ ed_verify pub (SigningInput purpose canon) raw = true.
Proof.
  unfold verifyEd25519Signature. destruct (trusted !! _) as [[pub from]|]; [|naive_solver].
  destruct (b64_decode _) as [raw|]; [|naive_solver].
  destruct (Nat.eqb_spec (length raw) 64); simpl; [|naive_solver].
  split.
  - intros Hv. exists pub, from, raw. split_and!; try done. by destruct (ed_verify _ _ _).
  - intros (pub' & from' & raw' & ? & ? & _ & Hv). simplify_eq. by rewrite Hv.
Qed.

Lemma isPluginSignerKind_spec kind :
  isPluginSignerKind kind = true ↔ ∃ name, name ≠ [] ∧ kind = SignerPluginPrefix ++ name.
Proof.
  unfold isPluginSignerKind. rewrite andb_true_iff, has_prefix_spec, Nat.ltb_lt. split.
  - intros [[r ->] Hl]. exists r. split; [|done]. intros ->. rewrite app_nil_r in Hl. lia.
  - intros (r & Hr & ->). split; [by exists r|]. rewrite length_app. destruct r; [done|simpl; lia].
Qed.

(** (C18) A block is accepted exactly when the gpg check accepts a gpg block, or
    an ed25519 block (of the file signer with no other algorithm claimed, or of
    a named plugin that claims ed25519) carries 64 bytes that verify, over the
    purpose and the document, under the key its key id names in the trust set. *)
Theorem Verify_sound (v : compositeVerifier) (purpose canon : gostring) (sig : Signature) :
  Verify v purpose canon sig = Accepted ↔
  (sg_SignerKind sig = SignerGPG ∧ v_gpg v purpose canon sig = Accepted) ∨
  (ed25519_block sig ∧
   ∃ pub from raw, v_keys v !! to_lower (sg_KeyID sig) = Some (pub, from) ∧ b64_decode (sg_Signature sig) = Some raw ∧
     length raw = 64%nat ∧ ed_verify pub (SigningInput purpose canon) raw = true).
Proof.
  rewrite <- verifyEd25519_Accepted. unfold Verify, ed25519_block. rewrite <- isPluginSignerKind_spec.
  destruct (streq (sg_SignerKind sig) SignerGPG) eqn:E1.
  { apply streq_true in E1. rewrite E1. split; [auto|].
    intros [[_ ?]|[[[E _]|[E _]] _]]; [done|by vm_compute in E..]. }
  apply streq_false_iff in E1. destruct (streq (sg_SignerKind sig) SignerEd25519File) eqn:E2.
  - apply streq_true in E2. rewrite E2 in *. change (isPluginSignerKind SignerEd25519File) with false. destruct (streq (sg_Algorithm sig) "") eqn:E3; simpl.
    + apply streq_true in E3. naive_solver.
    + apply streq_false_iff in E3. destruct (equal_fold _ _); simpl; naive_solver.
  - apply streq_false_iff in E2. destruct (isPluginSignerKind _), (equal_fold _ _); simpl; naive_solver.
Qed.

Lemma Sign_accepted `{!Ed25519Laws} v priv keyID now purpose canon from :
  v_keys v !! to_lower keyID = Some (ed_public priv, from) →
  Verify v purpose canon (Sign priv keyID now purpose canon) = Accepted.
Proof.
  intros Hk. unfold Verify. cbn [sg_SignerKind Sign sg_Algorithm].
  change (streq SignerEd25519File SignerGPG) with false. rewrite streq_refl. cbn iota.
  rewrite equal_fold_refl, andb_false_r. apply verifyEd25519_Accepted. cbn [sg_KeyID Sign sg_Signature].
  exists (ed_public priv), from, (ed_sign priv (SigningInput purpose canon)).
  split_and!; [done|apply b64_decode_encode|apply ed_sign_length|apply ed_sign_verify].
Qed.

(** ** The trust set *)

Lemma trust_loop_spec keys : ∀ ed ed',
  trust_loop keys ed = Ok ed' →
  (∀ id e, ed !! id = Some e → ed' !! id = Some e) ∧
  (∀ id pub from, ed' !! id = Some (pub, from) → ed !! id = Some (pub, from) ∨
     ∃ k, k ∈ keys ∧ k_Raw k = pub ∧ k_Source k = from ∧ to_lower (k_KeyID k) = id ∧
       k_Algorithm k = AlgorithmEd25519 ∧ length pub = pubKeyLen) ∧
  (∀ k, k ∈ keys → k_Algorithm k = AlgorithmEd25519 → length (k_Raw k) = pubKeyLen →
     ∃ from, ed' !! to_lower (k_KeyID k) = Some (k_Raw k, from)).
Proof.
  induction keys as [|k keys IH]; intros ed ed'; cbn [trust_loop].
  - intros [= <-]. split_and!; [done|auto|by intros k ?%elem_of_nil].
  - destruct (negb _ || negb _) eqn:E.
    { intros H1. destruct (IH _ _ H1) as (Ha & Hb & Hc). split_and!; [done| |].
      - intros id pub from Hid. destruct (Hb _ _ _ Hid) as [?|(k' & ? & ?)]; [auto|]. right. exists k'. split; [by right|done].
      - intros k' [->|Hk]%elem_of_cons Halg Hlen; [|auto]. exfalso.
        rewrite Halg, Hlen, streq_refl, Nat.eqb_refl in E. done. }
    apply orb_false_iff in E as [Ealg Elen]. apply negb_false_iff, streq_true in Ealg.
    apply negb_false_iff, Nat.eqb_eq in Elen.
    destruct (ed !! to_lower (k_KeyID k)) as [[prev from]|] eqn:Eid.
    + destruct (streq prev (k_Raw k)) eqn:Ep; [|done]. apply streq_true in Ep as ->. intros H1.
      destruct (IH _ _ H1) as (Ha & Hb & Hc). split_and!; [done| |].
      * intros id pub from' Hid. destruct (Hb _ _ _ Hid) as [?|(k' & ? & ?)]; [auto|]. right. exists k'. split; [by right|done].
      * intros k' [->|Hk]%elem_of_cons Halg Hlen; [|auto]. exists from. auto.
    + intros H1. destruct (IH _ _ H1) as (Ha & Hb & Hc). split_and!.
      * intros id e Hid. apply Ha. rewrite lookup_insert_ne by congruence. done.
      * intros id pub from Hid. destruct (Hb _ _ _ Hid) as [H2|(k' & ? & ?)].
        -- destruct (decide (id = to_lower (k_KeyID k))) as [->|Hne].
           ++ rewrite lookup_insert_eq in H2. simplify_eq. right. exists k. split_and!; [by left|done..].
           ++ rewrite lookup_insert_ne in H2 by done. auto.
        -- right. exists k'. split; [by right|done].
      * intros k' [->|Hk]%elem_of_cons Halg Hlen; [|auto].
        exists (k_Source k). apply Ha. apply lookup_insert_eq.
Qed.

(** A trust set built without error holds exactly the ed25519 keys it was
    given, under their lower-case ids, and never answers for an id with another
    key than the one given for it: two different keys under one id are an error. *)
Theorem buildEd25519TrustSet_spec (keys : list PublicKey) (ed : gmap gostring (gostring * gostring)) :
  buildEd25519TrustSet keys = Ok ed →
  (∀ id pub from, ed !! id = Some (pub, from) →
     ∃ k, k ∈ keys ∧ k_Raw k = pub ∧ k_Source k = from ∧ to_lower (k_KeyID k) = id ∧
       k_Algorithm k = AlgorithmEd25519 ∧ length pub = pubKeyLen) ∧
  (∀ k, k ∈ keys → k_Algorithm k = AlgorithmEd25519 → length (k_Raw k) = pubKeyLen →
     ∃ from, ed !! to_lower (k_KeyID k) = Some (k_Raw k, from)).
Proof.
  intros Hb. destruct (trust_loop_spec _ _ _ Hb) as (_ & H1 & H2). split; [|done].
  intros id pub from Hid. destruct (H1 _ _ _ Hid) as [Hn|?]; [by rewrite lookup_empty in Hn|done].
Qed.
End sound.

(** ** Key files round trip *)

Section key_files.
Context `{UnicodeTables}.

(** A comment one line holds unchanged: empty, or without a newline and ending
    in an ASCII byte that is no space. *)
Definition plain_comment (c : gostring) : Prop :=
  c = [] ∨ ∃ c' x, c = c' ++ [x] ∧ solid x = true ∧ (newline ∉ c).

Lemma raw_lines_two l1 l2 : l1 ≠ [] → raw_lines [l1; l2; []] = [l1; l2].
Proof. intros H1. destruct l1; [done|]. by destruct l2. Qed.

Lemma drop_cr_solid s x : solid x = true → drop_cr (s ++ [x]) = s ++ [x].
Proof.
  intros Hx. unfold drop_cr, trim_suffix, cut_suffix. rewrite rev_app_distr. cbn [rev app cut_prefix].
  destruct (decide (x = chr 13)) as [->|Hne]; [done|].
  unfold beq. by rewrite bool_decide_eq_false_2 by congruence.
Qed.

(** Two solid lines are read back as they are. *)
Lemma decode_two_lines c1 s1 d1 c2 s2 d2 blob :
  let l1 := c1 :: s1 ++ [d1] in let l2 := c2 :: s2 ++ [d2] in
  solid c1 = true → solid d1 = true → solid c2 = true → solid d2 = true →
  (newline ∉ l1) → (newline ∉ l2) →
  Z.of_nat (length l1) < max_token → Z.of_nat (length l2) < max_token →
  b64_decode l2 = Some blob →
  decodeKeyFile (l1 ++ newline :: l2 ++ [newline]) = Ok (l1, blob).
Proof.
  intros l1 l2 Hc1 Hd1 Hc2 Hd2 Hn1 Hn2 Hl1 Hl2 Hb. unfold decodeKeyFile, scan_lines.
  rewrite split_app_sep by done. change (l2 ++ [newline]) with (l2 ++ newline :: []).
  rewrite split_app_sep by done. change (split newline []) with [@nil ascii].
  rewrite raw_lines_two by done. cbn [take_lines].
  rewrite (proj2 (Z.ltb_lt _ _) Hl1), (proj2 (Z.ltb_lt _ _) Hl2).
  assert (drop_cr l1 = l1) as -> by (apply (drop_cr_solid (c1 :: s1)); done).
  assert (drop_cr l2 = l2) as -> by (apply (drop_cr_solid (c2 :: s2)); done).
  cbn [fst two_lines].
  assert (trim_space l1 = l1) as -> by (by apply solid_trim).
  assert (trim_space l2 = l2) as -> by (by apply solid_trim).
  rewrite !streq_false by done. cbn [app length Nat.eqb]. by rewrite Hb.
Qed.

Definition comment_line (label id comment : gostring) : gostring :=
  untrustedCommentPrefix ++ label ++ " " ++ id ++ match comment with [] => [] | _ => " "%char :: comment end.

Lemma parseCommentLine_line label id comment :
  (" "%char ∉ id) → parseCommentLine (comment_line label id comment) label = Ok (id, comment).
Proof.
  intros Hid. unfold parseCommentLine, comment_line. rewrite cut_prefix_app.
  rewrite app_assoc, cut_prefix_app. destruct comment as [|c s].
  - rewrite app_nil_r. by rewrite (proj2 (cut_None _ _)).
  - by rewrite cut_app.
Qed.

Lemma parsePublicKeyBlob_blob pub :
  length pub = pubKeyLen →
  parsePublicKeyBlob (keyAlgTag ++ keyIDFromPublic pub ++ pub) = Ok (keyIDFromPublic pub, pub).
Proof.
  intros Hl. set (id := keyIDFromPublic pub).
  assert (length id = keyIDLen) as Hid.
  { unfold id, keyIDFromPublic. rewrite length_take, Sha256.length_sum. done. }
  unfold parsePublicKeyBlob. rewrite !length_app, Hid, Hl. cbn [Nat.eqb negb length keyAlgTag].
  change (take 2 (keyAlgTag ++ id ++ pub)) with keyAlgTag. rewrite streq_refl. cbn [negb].
  change (drop 2 (keyAlgTag ++ id ++ pub)) with (id ++ pub).
  change (drop (2 + keyIDLen) (keyAlgTag ++ id ++ pub)) with (drop keyIDLen (id ++ pub)).
  rewrite (take_app_length' id pub keyIDLen), (drop_app_length' id pub keyIDLen) by done.
  fold id. by rewrite streq_refl.
Qed.

Lemma ends_of (l : gostring) c x : (2 ≤ length l)%nat → has_prefix [c] l = true → last l = Some x → ∃ s, l = c :: s ++ [x].
Proof.
  intros Hl Hc Hx. destruct (snoc_cases l) as [->|(l' & y & ->)]; [done|].
  rewrite last_snoc in Hx. injection Hx as ->. destruct l' as [|b l']; [simpl in Hl; lia|].
  apply has_prefix_spec in Hc as [r Hr]. injection Hr as -> _. by exists l'.
Qed.

Lemma last_solid l : l ≠ [] → (∀ c, c ∈ l → solid c = true) → ∃ x, last l = Some x ∧ solid x = true.
Proof.
  intros Hl Hs. destruct (snoc_cases l) as [->|(l' & x & ->)]; [done|]. exists x.
  rewrite last_snoc. split; [done|]. apply Hs. rewrite elem_of_app. right. by left.
Qed.

Lemma comment_line_ends label id comment :
  (newline ∉ label) → id ≠ [] → (∀ c, c ∈ id → is_hex_lower c = true) → plain_comment comment →
  ∃ x s, comment_line label id comment = "u"%char :: s ++ [x] ∧ solid x = true ∧
    (newline ∉ comment_line label id comment).
Proof.
  intros Hlabel Hid Hhex Hc.
  assert (∀ c, is_hex_lower c = true → solid c = true ∧ c ≠ newline) as Hsol.
  { intros c H1. destruct c as [[] [] [] [] [] [] [] []]; try done; by vm_compute in H1. }
  assert (newline ∉ id) as Hnid by (intros H1%Hhex; by apply Hsol in H1 as [_ ?]).
  assert (newline ∉ untrustedCommentPrefix ∧ newline ∉ bytes_of " ") as [Hnp Hns]
    by (split; apply (bool_decide_unpack _); vm_compute; exact I).
  assert (∃ x, last (comment_line label id comment) = Some x ∧ solid x = true) as (x & Hx & Hsx).
  { unfold comment_line. rewrite !app_assoc. destruct Hc as [->|(c' & x & -> & Hx & _)].
    - rewrite app_nil_r. destruct (last_solid id Hid) as (x & Hx & ?); [intros c Hc; by apply Hsol, Hhex|].
      exists x. rewrite last_app, Hx. done.
    - exists x. destruct (c' ++ [x]) as [|y t] eqn:E; [by destruct c'|]. rewrite <- E.
      change (" "%char :: c' ++ [x]) with ((" "%char :: c') ++ [x]). rewrite app_assoc, last_snoc. done. }
  assert (newline ∉ comment_line label id comment) as Hn.
  { unfold comment_line. rewrite !not_elem_of_app.
    split_and!; try done. destruct Hc as [->|(c' & y & -> & _ & Hc)]; [by intros ?%elem_of_nil|].
    destruct (c' ++ [y]); [by intros ?%elem_of_nil|]. intros [?|?]%elem_of_cons; done. }
  destruct (ends_of (comment_line label id comment) "u" x) as (s & E); [simpl; lia|done|done|].
  exists x, s. done.
Qed.

Lemma b64_ends b : (2 ≤ length b)%nat → ∃ c s d, b64_encode b = c :: s ++ [d] ∧ solid c = true ∧ solid d = true ∧
  (newline ∉ b64_encode b).
Proof.
  intros Hb.
  assert (∀ c, c ∈ b64_encode b → solid c = true ∧ c ≠ newline) as Hs.
  { intros c Hc%b64_chars. destruct c as [[] [] [] [] [] [] [] []]; try done; by vm_compute in Hc. }
  destruct (last_solid (b64_encode b)) as (d & Hd & Hsd).
  { destruct b as [|x [|y [|z b]]]; simpl in Hb; (lia || done). }
  { intros c Hc. by apply Hs. }
  destruct (b64_encode b) as [|c l] eqn:E; [done|].
  destruct (ends_of (c :: l) c d) as (s & Hl).
  { destruct b as [|x [|y [|z b]]]; simpl in Hb, E; try lia; injection E as <- <-; simpl; lia. }
  { unfold has_prefix. simpl. unfold beq. by rewrite bool_decide_eq_true_2. }
  { done. }
  exists c, s, d. split_and!; [done|by apply Hs; left|done|]. intros Hn. by apply Hs in Hn as [_ ?].
Qed.

Lemma b64_length b : (length (b64_encode b) ≤ 2 * length b + 4)%nat.
Proof. induction b as [|x|x y|x y z b IH] using list_ind3; simpl in *; lia. Qed.

Lemma keyIDFromPublic_length pub : length (keyIDFromPublic pub) = keyIDLen.
Proof. unfold keyIDFromPublic. by rewrite length_take, Sha256.length_sum. Qed.
Lemma keyIDHex_hex id c : c ∈ keyIDHex id → is_hex_lower c = true.
Proof. intros Hc. pose proof (hex_encode_ok id) as H1. rewrite forallb_forall in H1. by apply H1, list_elem_of_In. Qed.
(** What the writer of key files writes, the reader takes apart. *)
Lemma decode_written label pub comment material : let id := keyIDFromPublic pub in let blob := keyAlgTag ++ id ++ material in
  (newline ∉ label) → (length label ≤ 40)%nat → (length material ≤ 64)%nat → plain_comment comment → Z.of_nat (length comment) < 65000 →
  decodeKeyFile (encodeKeyFile label (keyIDHex id) comment blob) = Ok (comment_line label (keyIDHex id) comment, blob).
Proof.
  intros id blob Hn Hll Hml Hc Hlen. pose proof (keyIDFromPublic_length pub) as Hkl. fold id in Hkl.
  assert (length (keyIDHex id) = 16%nat) as Hidl by (unfold keyIDHex; by rewrite length_hex_encode, Hkl).
  assert (length blob = 10 + length material)%nat as Hbl by (unfold blob; rewrite !length_app, Hkl; done).
  assert (encodeKeyFile label (keyIDHex id) comment blob = comment_line label (keyIDHex id) comment ++ newline :: b64_encode blob ++ [newline]) as ->.
  { unfold encodeKeyFile, comment_line. by rewrite <- !app_assoc. }
  assert (length (comment_line label (keyIDHex id) comment) ≤ 100 + length comment)%nat as Hcl.
  { unfold comment_line. rewrite !length_app, Hidl. destruct comment; simpl; lia. }
  destruct (comment_line_ends label (keyIDHex id) comment) as (x & s & E1 & Hx & Hn1); [done|by destruct (keyIDHex id)|apply keyIDHex_hex|done|].
  destruct (b64_ends blob) as (c & t & d & E2 & Hc2 & Hd2 & Hn2); [lia|].
  pose proof (b64_length blob).
  rewrite E1, E2. apply decode_two_lines; try done.
  - by rewrite <- E1.
  - by rewrite <- E2.
  - rewrite <- E1. unfold max_token. lia.
  - rewrite <- E2. unfold max_token. lia.
  - rewrite <- E2. apply b64_decode_encode.
Qed.
Lemma parse_written label id comment : parseCommentLine (comment_line label (keyIDHex id) comment) label = Ok (keyIDHex id, comment).
Proof. apply parseCommentLine_line. by intros Hsp%keyIDHex_hex. Qed.

(** A public key file reads back: the key, the id derived from it and the
    comment survive the comment line, the base64 line, the scanner, the
    trimming and every consistency check of the loader. *)
Theorem public_key_roundtrip (path pub comment : gostring) :
  length pub = pubKeyLen → plain_comment comment → Z.of_nat (length comment) < 65000 →
  loadPublicKeyFile path (Ok (encodePublicKeyFile pub comment)) =
  Ok (mkPublicKey (keyIDHex (keyIDFromPublic pub)) AlgorithmEd25519 comment pub path).
Proof.
  intros Hl Hc Hlen. unfold loadPublicKeyFile, encodePublicKeyFile.
  rewrite (decode_written labelPublic pub comment pub);
    [|apply (bool_decide_unpack _); vm_compute; exact I|vm_compute; lia|rewrite Hl; unfold pubKeyLen; lia|done|done].
  cbn [mbind result_bind]. rewrite parsePublicKeyBlob_blob by done. cbn [mbind result_bind].
  rewrite parse_written. cbn [mbind result_bind]. by rewrite equal_fold_refl.
Qed.
End key_files.

Definition sample_pub : gostring := bytes_of "0123456789abcdef0123456789abcdef".
Lemma public_key_roundtrip_witness :
  plain_comment "release key" ∧
  @loadPublicKeyFile ascii_tables "k.pub" (Ok (encodePublicKeyFile sample_pub "release key")) =
  Ok (mkPublicKey (keyIDHex (keyIDFromPublic sample_pub)) AlgorithmEd25519 "release key" sample_pub "k.pub").
Proof.
  assert (plain_comment "release key") as H.
  { right. exists (bytes_of "release ke"), "y"%char. split_and!; [done|done|].
    apply (bool_decide_unpack _). vm_compute. exact I. }
  exact (conj H (@public_key_roundtrip ascii_tables "k.pub" sample_pub "release key" eq_refl H eq_refl)).
Defined.

Definition sample_key : PublicKey := mkPublicKey "AB" AlgorithmEd25519 [] sample_pub "k.pub".
Lemma buildEd25519TrustSet_spec_witness :
  let ed := {[ bytes_of "ab" := (sample_pub, bytes_of "k.pub") ]} : gmap gostring (gostring * gostring) in
  @buildEd25519TrustSet ascii_tables [sample_key] = Ok ed ∧
  ∃ from, ed !! to_lower (k_KeyID sample_key) = Some (k_Raw sample_key, from).
Proof.
  intros ed. assert (@buildEd25519TrustSet ascii_tables [sample_key] = Ok ed) as H by (by vm_compute).
  split; [exact H|].
  exact (proj2 (@buildEd25519TrustSet_spec ascii_tables [sample_key] ed H) sample_key (list_elem_of_here _ _) eq_refl eq_refl).
Defined.
