(* ===== verification/Gpg.v ===== *)
(** * core/sign: signatures by gpg.

    All of gpg.go. The program is a function of its arguments, its input and the
    files that were written for it; a run gives its two outputs and the error of
    [Cmd.Run]. What the verifier returns is the [verdict] of [Sign]; of the
    signer's errors the class is kept. *)
From S2P Require Export Sign Dferr PathJoin.
#[local] Open Scope Z_scope.

Definition AlgorithmGPG : gostring := "gpg".

Record gpg_run := mkGpgRun { gr_stdout : gostring; gr_stderr : gostring; gr_err : option goerror }.
Inductive keyring_stat := NoKeyring (err : goerror) | KeyringDir | KeyringFile.
Record gpg_host := mkGpgHost {
  gh_found : bool;                                                  (* exec.LookPath *)
  gh_stat : gostring → keyring_stat;
  gh_tmp : result goerror gostring;                                 (* os.MkdirTemp *)
  gh_write : gostring → gostring → option goerror;
  gh_run : list (gostring * gostring) → list gostring → option gostring → gpg_run
}.

(** [bufio.Scanner] over what a run printed. *)
Definition lines_of (out : gostring) : list gostring := (scan_lines max_token out).1.

Section gpg.
Context {unicode : UnicodeTables} (table_upper : Z → Z) (h : gpg_host).

Definition upper_rune (r : Z) : Z := if r <? 128 then ord (upper_byte (chr r)) else table_upper r.
Definition to_upper (s : gostring) : gostring :=
  if is_ascii s then map upper_byte s else concat (map (λ r, encode_rune (upper_rune r)) (runes s)).

(** ** What gpg says of a signature *)

Record gpgVerifyStatus := mkStatus {
  st_signingKey : gostring; st_primaryKey : gostring; st_valid : bool; st_rejected : gostring; st_noPublicKey : bool; st_sawStatus : bool
}.
Definition no_status : gpgVerifyStatus := mkStatus [] [] false [] false false.

Definition isHexFingerprint (s : gostring) : bool := (32 <=? length s)%nat && forallb is_hex s.
Definition validsigPrimaryKey (fields : list gostring) : gostring :=
  match fields !! 10%nat with
  | Some f => if isHexFingerprint f then to_upper f
              else let l := List.last fields [] in if isHexFingerprint l then to_upper l else []
  | None =>
      if (9 <? length fields)%nat then let l := List.last fields [] in if isHexFingerprint l then to_upper l else [] else []
  end.
Definition statusPrefix : gostring := "[GNUPG:] ".
Definition fatal_keywords : list gostring := map bytes_of ["BADSIG"; "REVKEYSIG"; "EXPKEYSIG"; "EXPSIG"]%string.
(** The keyword and its arguments. *)
Definition status_of (line : gostring) : option (gostring * list gostring) :=
  match cut_prefix statusPrefix line with
  | None => None
  | Some rest => match fields rest with [] => None | k :: args => Some (k, args) end
  end.
Definition status_step (st : gpgVerifyStatus) (s : gostring * list gostring) : gpgVerifyStatus :=
  let '(k, args) := s in
  let '(mkStatus signing primary valid rejected nokey _) := st in
  if streq k "VALIDSIG" then
    let primary := validsigPrimaryKey (k :: args) in
    match args with
    | fpr :: _ => mkStatus (to_upper fpr) primary true rejected nokey true
    | [] => mkStatus signing primary valid rejected nokey true
    end
  else if bool_decide (k ∈ fatal_keywords) then mkStatus signing primary valid k nokey true
  else if streq k "ERRSIG" then
    if bool_decide (args !! 5%nat = Some (bytes_of "9")) then mkStatus signing primary valid rejected true true
    else mkStatus signing primary valid "ERRSIG" nokey true
  else if streq k "NO_PUBKEY" then mkStatus signing primary valid rejected true true
  else mkStatus signing primary valid rejected nokey true.
Definition statuses (out : gostring) : list (gostring * list gostring) := omap status_of (lines_of out).
Definition parseVerifyStatus (out : gostring) : gpgVerifyStatus := fold_left status_step (statuses out) no_status.

Definition fingerprintMatches (claimed signingKey primaryKey : gostring) : bool :=
  if streq claimed "" then false
  else (negb (streq signingKey "") && equal_fold claimed signingKey) || (negb (streq primaryKey "") && equal_fold claimed primaryKey).

(** ** Verifying *)

Definition newGPGVerifier (gpgKeyring : gostring) : result goerror (list gostring) :=
  if streq gpgKeyring "" then Ok []
  else match gh_stat h gpgKeyring with
  | NoKeyring e => Err (New Usage [])
  | KeyringDir => Err (New Usage [])
  | KeyringFile => Ok [bytes_of "--no-default-keyring"; bytes_of "--keyring"; gpgKeyring]
  end.
Definition verify_args (keyringArgs : list gostring) (sigPath dataPath : gostring) : list gostring :=
  map bytes_of ["--batch"; "--status-fd"; "1"; "--trust-model"; "always"; "--no-auto-key-retrieve"; "--keyserver-options";
    "no-auto-key-retrieve"]%string ++ keyringArgs ++ [bytes_of "--verify"; sigPath; dataPath].
Definition judge (keyID : gostring) (r : gpg_run) : verdict :=
  let st := parseVerifyStatus (gr_stdout r) in
  let failed := bool_decide (gr_err r ≠ None) in
  if negb (streq (st_rejected st) "") then BadSignature (st_rejected st)
  else if st_noPublicKey st && negb (st_valid st) then UntrustedKey
  else if negb (st_valid st) && negb (st_sawStatus st) && failed then CheckFailed "gpg: could not check the signature"
  else if negb (st_valid st) then UntrustedKey
  else if failed then BadSignature "gpg reported it valid but exited non-zero"
  else if negb (fingerprintMatches keyID (st_signingKey st) (st_primaryKey st)) then BadSignature "gpg validated it against another key"
  else Accepted.
Definition sig_files (dir raw msg : gostring) : list (gostring * gostring) :=
  [(filepath_join [dir; bytes_of "sig.bin"], raw); (filepath_join [dir; bytes_of "data.bin"], msg)].
Definition written (files : list (gostring * gostring)) : bool :=
  forallb (λ f : gostring * gostring, bool_decide (gh_write h f.1 f.2 = None)) files.
Definition verify_run (keyringArgs : list gostring) (dir raw msg : gostring) : gpg_run :=
  gh_run h (sig_files dir raw msg)
    (verify_args keyringArgs (filepath_join [dir; bytes_of "sig.bin"]) (filepath_join [dir; bytes_of "data.bin"])) None.
Definition gpg_verify (keyringArgs : list gostring) (purpose canon : gostring) (sig : Signature) : verdict :=
  if negb (gh_found h) then CheckFailed "gpg binary not found on PATH"
  else match b64_decode (sg_Signature sig) with
  | None => BadSignature "malformed base64"
  | Some rawSig =>
      match gh_tmp h with
      | Err e => CheckFailed "gpg: create temp dir"
      | Ok dir =>
          let msg := SigningInput purpose canon in
          if negb (written (sig_files dir rawSig msg)) then CheckFailed "gpg: write temp file"
          else judge (sg_KeyID sig) (verify_run keyringArgs dir rawSig msg)
      end
  end.

(** ** Signing *)

Definition gpg_error_class (stderr : gostring) : Class :=
  let text := to_lower stderr in
  if contains_str "no secret key" text || contains_str "secret key not available" text || contains_str "no default secret key" text then Environment
  else if contains_str "no such file or directory" text && contains_str "agent" text then Environment
  else if contains_str "gpg-agent" text then Environment
  else if contains_str "cancel" text then Usage
  else Environment.
Fixpoint colon_loop (primary : bool) (lines : list gostring) : gostring :=
  match lines with
  | [] => []
  | line :: rest =>
      let fs := GoStrings.split ":" line in
      let k := hd [] fs in
      if streq k "sec" || streq k "pub" then colon_loop true rest
      else if streq k "ssb" || streq k "sub" then colon_loop false rest
      else if streq k "fpr" && primary && negb (streq (nth 9 fs []) "") then to_upper (nth 9 fs [])
      else colon_loop primary rest
  end.
Definition parseColonFingerprint (out : gostring) : gostring := colon_loop false (lines_of out).
Definition gpg_output (r : gpg_run) : result goerror gostring :=
  match gr_err r with Some _ => Err (New (gpg_error_class (gr_stderr r)) []) | None => Ok (gr_stdout r) end.
Definition gpgSecretKeyFingerprint (keyRef : gostring) : result goerror gostring :=
  out ← gpg_output (gh_run h [] [bytes_of "--batch"; bytes_of "--with-colons"; bytes_of "--fingerprint"; bytes_of "--list-secret-keys"; keyRef] None);
  let fp := parseColonFingerprint out in
  if streq fp "" then Err (New Environment []) else Ok fp.
(** [gpgSigner] *)
Record gpgSigner := mkGpgSigner { gs_keyRef : gostring; gs_fingerprint : gostring }.
Definition newGPGSigner (keyRef : gostring) : result goerror gpgSigner :=
  if streq keyRef "" then Err (New Usage [])
  else if negb (gh_found h) then Err (New Environment [])
  else fp ← gpgSecretKeyFingerprint keyRef; Ok (mkGpgSigner keyRef fp).
Definition sign_args (keyRef : gostring) : list gostring :=
  [bytes_of "--batch"; bytes_of "--yes"; bytes_of "--local-user"; keyRef; bytes_of "--detach-sign"; bytes_of "--output"; bytes_of "-"; bytes_of "-"].
Definition gpg_sign (s : gpgSigner) (now purpose canon : gostring) : result goerror Signature :=
  out ← gpg_output (gh_run h [] (sign_args (gs_keyRef s)) (Some (SigningInput purpose canon)));
  Ok (mkSignature SignerGPG (gs_fingerprint s) AlgorithmGPG now (b64_encode out) []).

(** ** What an accepted signature rests on *)

(** A line that says the signature must not be relied on: it is bad, its key was
    revoked, it or its key has expired, or it could not be checked for another
    reason than a missing key. *)
Definition fatal (s : gostring * list gostring) : Prop :=
  s.1 = "BADSIG" ∨ s.1 = "REVKEYSIG" ∨ s.1 = "EXPKEYSIG" ∨ s.1 = "EXPSIG" ∨ s.1 = "ERRSIG" ∧ s.2 !! 5%nat ≠ Some (bytes_of "9").
Lemma fatal_spec s : fatal s ↔ s.1 ∈ fatal_keywords ∨ s.1 = "ERRSIG" ∧ s.2 !! 5%nat ≠ Some (bytes_of "9").
Proof. unfold fatal, fatal_keywords. cbn [map]. rewrite !elem_of_cons, elem_of_nil. tauto. Qed.
Definition validsig (s : gostring * list gostring) : bool := streq s.1 "VALIDSIG" && negb (bool_decide (s.2 = [])).
(** The key a [VALIDSIG] names: the one that signed, or its primary, which is the
    tenth argument or, where that is no fingerprint, the last of at least nine. *)
Definition fingerprint (f : gostring) : Prop := (32 ≤ length f)%nat ∧ Forall (λ c, is_hex c = true) f.
Definition primary_named (args : list gostring) (f : gostring) : Prop :=
  fingerprint f ∧ (args !! 9%nat = Some f
    ∨ ((∀ g, args !! 9%nat = Some g → ¬ fingerprint g) ∧ (9 ≤ length args)%nat ∧ List.last args [] = f)).
Definition names_key (s : gostring * list gostring) (keyID : gostring) : Prop :=
  keyID ≠ [] ∧ ((to_upper (hd [] s.2) ≠ [] ∧ equal_fold keyID (to_upper (hd [] s.2)) = true)
    ∨ ∃ f, primary_named s.2 f ∧ equal_fold keyID (to_upper f) = true).

Lemma isHexFingerprint_spec f : isHexFingerprint f = true ↔ fingerprint f.
Proof.
  unfold isHexFingerprint, fingerprint. rewrite andb_true_iff, Nat.leb_le, forallb_forall, Forall_forall.
  by setoid_rewrite list_elem_of_In.
Qed.
Lemma upper_fingerprint f : fingerprint f → to_upper f ≠ [].
Proof.
  intros [Hl Hh]. unfold to_upper. assert (is_ascii f = true) as ->.
  { apply forallb_forall. intros c Hc. rewrite Forall_forall in Hh. apply list_elem_of_In, Hh in Hc. unfold is_hex in Hc.
    apply Z.ltb_lt. unfold is_hex_lower, is_digit, between in Hc. rewrite !orb_true_iff in Hc. byte_cases; destruct Hc as [[Hc|Hc]|Hc]; bsplit; lia. }
  destruct f; [simpl in Hl; lia|done].
Qed.
Lemma primary_spec k args f : f ≠ [] → validsigPrimaryKey (k :: args) = f ↔ ∃ g, primary_named args g ∧ f = to_upper g.
Proof.
  intros Hne. unfold validsigPrimaryKey, primary_named. change ((k :: args) !! 10%nat) with (args !! 9%nat).
  assert (∀ g, isHexFingerprint g = false → ¬ fingerprint g) as Hn by (intros g Hg ?%isHexFingerprint_spec; congruence).
  assert (9 ≤ length args → List.last (k :: args) [] = List.last args [])%nat as Hlast by (by destruct args; [cbn; lia|]).
  destruct (args !! 9%nat) as [x|] eqn:E.
  - assert (9 ≤ length args)%nat as Hl by (apply lookup_lt_Some in E; lia). rewrite Hlast by done.
    destruct (isHexFingerprint x) eqn:Ex; [apply isHexFingerprint_spec in Ex|apply Hn in Ex].
    { split; [intros <-; exists x; naive_solver|]. intros (g & [Hg [[= ->]|(H & _)]] & ->); [done|]. by destruct (H x). }
    destruct (isHexFingerprint (List.last args [])) eqn:Ey; [apply isHexFingerprint_spec in Ey|apply Hn in Ey].
    + split; [intros <-; exists (List.last args []); naive_solver|]. intros (g & [Hg [[= ->]|(_ & _ & <-)]] & ->); done.
    + split; [by intros <-|]. intros (g & [Hg [[= ->]|(_ & _ & <-)]] & ->); done.
  - destruct (9 <? length (k :: args))%nat eqn:El; [apply Nat.ltb_lt in El|apply Nat.ltb_ge in El]; cbn [length] in El.
    + rewrite Hlast by lia. destruct (isHexFingerprint (List.last args [])) eqn:Ey; [apply isHexFingerprint_spec in Ey|apply Hn in Ey].
      * split; [intros <-; exists (List.last args []); split; [|done]; split; [done|]; right; split_and!; [done|lia|done]|].
        intros (g & [Hg [?|(_ & _ & <-)]] & ->); done.
      * split; [by intros <-|]. intros (g & [Hg [?|(_ & _ & <-)]] & ->); done.
    + split; [by intros <-|]. intros (g & [Hg [?|(_ & ? & _)]] & ->); [done|lia].
Qed.

Definition is_valid (s : gostring * list gostring) : bool := streq s.1 "VALIDSIG".
(** The status after the lines of [seen]. *)
Record read_so_far (seen : list (gostring * list gostring)) (st : gpgVerifyStatus) : Prop := {
  rs_rejected : st_rejected st = [] ↔ Forall (λ s, ¬ fatal s) seen;
  rs_signed : st_valid st = true → ∃ v, v ∈ seen ∧ validsig v = true ∧ st_signingKey st = to_upper (hd [] v.2);
  rs_primary : st_primaryKey st ≠ [] → ∃ v, v ∈ seen ∧ validsig v = true ∧ st_primaryKey st = validsigPrimaryKey (v.1 :: v.2);
  rs_none : List.filter is_valid seen = [] → st_valid st = false ∧ st_signingKey st = [] ∧ st_primaryKey st = [];
  rs_one : ∀ v, List.filter is_valid seen = [v] → v.2 ≠ [] →
    st_valid st = true ∧ st_signingKey st = to_upper (hd [] v.2) ∧ st_primaryKey st = validsigPrimaryKey (v.1 :: v.2)
}.
Lemma still_found {A} (P : A → Prop) seen (s : A) : (∃ v, v ∈ seen ∧ P v) → ∃ v, v ∈ seen ++ [s] ∧ P v.
Proof. intros (v & Hv & HP). exists v. split; [apply elem_of_app; by left|done]. Qed.
(** A line that says nothing of a valid signature. *)
Lemma read_other seen si pr va re re' no no' sa s : is_valid s = false → (re' = [] ↔ re = [] ∧ ¬ fatal s) →
  read_so_far seen (mkStatus si pr va re no sa) → read_so_far (seen ++ [s]) (mkStatus si pr va re' no' true).
Proof.
  intros Hs Hre [H1 H2 H3 H4 H5]. cbn [st_rejected st_valid st_signingKey st_primaryKey] in *.
  assert (List.filter is_valid (seen ++ [s]) = List.filter is_valid seen) as Hf.
  { rewrite List.filter_app. cbn [List.filter]. rewrite Hs. by rewrite app_nil_r. }
  constructor; cbn [st_rejected st_valid st_signingKey st_primaryKey].
  - by rewrite Forall_app, Forall_singleton, <- H1.
  - intros Hv. apply still_found. auto.
  - intros Hp. apply still_found. auto.
  - by rewrite Hf.
  - by rewrite Hf.
Qed.
Lemma fatal_nonempty k : k = [] → k ∉ fatal_keywords.
Proof. intros ->. by apply (bool_decide_unpack _). Qed.
Lemma validsig_short k : validsigPrimaryKey [k] = [].
Proof. done. Qed.
Lemma read_step seen st s : read_so_far seen st → read_so_far (seen ++ [s]) (status_step st s).
Proof.
  intros H. destruct st as [si pr va re no sa], s as [k args]. unfold status_step.
  destruct (streq k "VALIDSIG") eqn:Ek.
  - apply streq_true in Ek. subst k. assert (¬ fatal (bytes_of "VALIDSIG", args)) as Hnf.
    { intros [Hk|[Hk _]]%fatal_spec; [|by vm_compute in Hk]. revert Hk. cbn [fst]. by apply (bool_decide_unpack _). }
    destruct H as [H1 H2 H3 H4 H5]. cbn [st_rejected st_valid st_signingKey st_primaryKey] in *.
    assert (List.filter is_valid (seen ++ [(bytes_of "VALIDSIG", args)]) = List.filter is_valid seen ++ [(bytes_of "VALIDSIG", args)]) as Hf.
    { by rewrite List.filter_app. }
    destruct args as [|fpr args].
    + rewrite validsig_short. constructor; cbn [st_rejected st_valid st_signingKey st_primaryKey].
      * rewrite Forall_app, Forall_singleton, <- H1. by intuition.
      * intros Hv. apply still_found. auto.
      * done.
      * rewrite Hf. by destruct (List.filter _ _).
      * rewrite Hf. intros v Hv Hne. destruct (List.filter is_valid seen) as [|? [|]]; [|done..]. injection Hv as <-. done.
    + assert (∀ P : gostring * list gostring → Prop, P (bytes_of "VALIDSIG", fpr :: args) → ∃ v, v ∈ seen ++ [(bytes_of "VALIDSIG", fpr :: args)] ∧ P v) as Hhere.
      { intros P HP. eexists. split; [|exact HP]. apply elem_of_app. right. by left. }
      constructor; cbn [st_rejected st_valid st_signingKey st_primaryKey].
      * rewrite Forall_app, Forall_singleton, <- H1. by intuition.
      * intros _. by apply Hhere.
      * intros _. by apply Hhere.
      * rewrite Hf. by destruct (List.filter _ _).
      * rewrite Hf. intros v Hv Hne. destruct (List.filter is_valid seen) as [|? [|]]; [|done..]. by injection Hv as <-.
  - apply streq_false_iff in Ek. assert (is_valid (k, args) = false) as Hs by (by apply streq_false_iff).
    case_bool_decide as Hf.
    { apply (read_other _ _ _ _ _ _ _ _ _ _ Hs) with (2 := H). split; [by intros ?%fatal_nonempty|]. intros [_ []]. apply fatal_spec. by left. }
    destruct (streq k "ERRSIG") eqn:Ee; [apply streq_true in Ee; case_bool_decide as Ha|apply streq_false_iff in Ee; destruct (streq k "NO_PUBKEY")].
    all: apply (read_other _ _ _ _ _ _ _ _ _ _ Hs) with (2 := H); rewrite fatal_spec; cbn [fst snd].
    + split; [|by intros [? _]]. intros ->. split; [done|]. by intros [?|[_ ?]].
    + split; [done|]. intros [_ []]. by right.
    + split; [|by intros [? _]]. intros ->. split; [done|]. by intros [?|[? _]].
    + split; [|by intros [? _]]. intros ->. split; [done|]. by intros [?|[? _]].
Qed.
Lemma parse_read out : read_so_far (statuses out) (parseVerifyStatus out).
Proof.
  unfold parseVerifyStatus. induction (statuses out) as [|s l IH] using rev_ind.
  - by constructor.
  - rewrite fold_left_app. by apply read_step.
Qed.

(** The verdict on a run. *)
Lemma judge_accepts keyID r : judge keyID r = Accepted ↔
  let st := parseVerifyStatus (gr_stdout r) in
  st_rejected st = [] ∧ st_valid st = true ∧ gr_err r = None ∧ fingerprintMatches keyID (st_signingKey st) (st_primaryKey st) = true.
Proof.
  unfold judge. cbv zeta. destruct (parseVerifyStatus _) as [si pr va re no sa]. cbn [st_rejected st_valid st_noPublicKey st_sawStatus st_signingKey st_primaryKey].
  destruct (streq re "") eqn:Er; [apply streq_true in Er|apply streq_false_iff in Er]; cbn [negb]; [|by split; [|intros [? _]]].
  destruct va; cbn [negb andb]; rewrite ?andb_false_r.
  2: { destruct no, sa, (bool_decide _); cbn [andb negb]; (split; [done|by intros (_ & ? & _)]). }
  destruct (gr_err r); cbn; [by split; [|intros (_ & _ & ? & _)]|].
  destruct (fingerprintMatches _ _ _); cbn [negb]; [by split|by split; [|intros (_ & _ & _ & ?)]].
Qed.
Lemma fingerprint_names keyID si pr : fingerprintMatches keyID si pr = true ↔
  keyID ≠ [] ∧ (si ≠ [] ∧ equal_fold keyID si = true ∨ pr ≠ [] ∧ equal_fold keyID pr = true).
Proof.
  unfold fingerprintMatches. destruct (streq keyID "") eqn:E; [apply streq_true in E; by split; [|intros [? _]]|apply streq_false_iff in E].
  rewrite orb_true_iff, !andb_true_iff, !negb_true_iff, !streq_false_iff. naive_solver.
Qed.

(** The run an accepted signature rests on: over two files of a directory of its
    own, the signature's bytes and what was signed, with the status on the output
    and no key fetched. *)
Definition checked_run (keyringArgs : list gostring) (purpose canon : gostring) (sig : Signature) (r : gpg_run) : Prop :=
  gh_found h = true ∧ ∃ raw dir, b64_decode (sg_Signature sig) = Some raw ∧ gh_tmp h = Ok dir ∧
    let sig_file := filepath_join [dir; bytes_of "sig.bin"] in let data_file := filepath_join [dir; bytes_of "data.bin"] in
    gh_write h sig_file raw = None ∧ gh_write h data_file (SigningInput purpose canon) = None ∧
    r = gh_run h [(sig_file, raw); (data_file, SigningInput purpose canon)]
      ([bytes_of "--batch"; bytes_of "--status-fd"; bytes_of "1"; bytes_of "--trust-model"; bytes_of "always"; bytes_of "--no-auto-key-retrieve";
        bytes_of "--keyserver-options"; bytes_of "no-auto-key-retrieve"] ++ keyringArgs ++ [bytes_of "--verify"; sig_file; data_file]) None.
Lemma written_spec raw dir msg : written (sig_files dir raw msg) = true ↔
  gh_write h (filepath_join [dir; bytes_of "sig.bin"]) raw = None ∧ gh_write h (filepath_join [dir; bytes_of "data.bin"]) msg = None.
Proof. unfold written, sig_files. cbn [forallb fst snd]. by rewrite andb_true_r, andb_true_iff, !bool_decide_eq_true. Qed.
Lemma gpg_verify_run keyringArgs purpose canon sig : gpg_verify keyringArgs purpose canon sig = Accepted ↔
  ∃ r, checked_run keyringArgs purpose canon sig r ∧ judge (sg_KeyID sig) r = Accepted.
Proof.
  unfold gpg_verify, checked_run. split.
  - destruct (gh_found h) eqn:Ef; [|done]. cbn [negb]. destruct (b64_decode _) as [raw|] eqn:Eb; [|done].
    destruct (gh_tmp h) as [dir|] eqn:Et; [|done]. cbv zeta. destruct (written _) eqn:Ew; [|done]. apply written_spec in Ew as [H1 H2].
    cbn [negb]. intros Hj. eexists. split; [|exact Hj]. split; [done|]. exists raw, dir. by split_and!.
  - intros (r & (Hf & raw & dir & Eb & Et & H1 & H2 & ->) & Hj). rewrite Hf, Eb, Et. cbn [negb]. cbv zeta.
    by rewrite (proj2 (written_spec _ _ _)).
Qed.

End gpg.

(** ** Runs *)

Section runs.
Local Existing Instances ascii_tables.

Definition gpg_says (lines : list gostring) (err : option goerror) : gpg_host := {|
  gh_found := true; gh_stat _ := KeyringFile; gh_tmp := Ok (bytes_of "/tmp/v"); gh_write _ _ := None;
  gh_run _ _ _ := mkGpgRun (concat (map (λ l, l ++ [newline]) lines)) [] err
|}.
Definition subkey_fpr : gostring := "0123456789abcdef0123456789abcdef01234567".
Definition primary_fpr : gostring := "89ABCDEF0123456789ABCDEF0123456789ABCDEF".
Definition valid_line : gostring := "[GNUPG:] VALIDSIG " ++ subkey_fpr ++ " 2026-01-01 1767225600 0 4 0 22 10 00 " ++ primary_fpr.
Definition by_key (keyID : gostring) : Signature := mkSignature SignerGPG keyID AlgorithmGPG [] (b64_encode "sig") [].
Definition checked (lines : list gostring) (err : option goerror) (keyID : gostring) : verdict :=
  gpg_verify (λ r, r) (gpg_says lines err) [] SignPurpose "{}" (by_key keyID).

(** Either fingerprint of the key will do, in any case, and no other. *)
Example primary_or_subkey : map (checked [bytes_of "[GNUPG:] NEWSIG"; valid_line] None) [primary_fpr; subkey_fpr; bytes_of "DEADBEEF"; []]
  = [Accepted; Accepted; BadSignature "gpg validated it against another key"; BadSignature "gpg validated it against another key"].
Proof. by vm_compute. Qed.
(** gpg says of a revoked key that its signature is valid. *)
Example revoked_key : checked [bytes_of "[GNUPG:] REVKEYSIG 89ABCDEF acme"; valid_line] None primary_fpr = BadSignature "REVKEYSIG"
  ∧ checked [valid_line; bytes_of "[GNUPG:] REVKEYSIG 89ABCDEF acme"] None primary_fpr = BadSignature "REVKEYSIG".
Proof. by vm_compute. Qed.
Example missing_key : checked [bytes_of "[GNUPG:] ERRSIG 89ABCDEF 22 10 00 1767225600 9 -"; bytes_of "[GNUPG:] NO_PUBKEY 89ABCDEF"]
  (Some (Plain "exit status 2")) primary_fpr = UntrustedKey.
Proof. by vm_compute. Qed.
(** A line of 64 KiB ends the reading without an error, and what follows it is not
    looked at. *)
Example long_line_hides :
  checked [valid_line; statusPrefix ++ replicate (Z.to_nat max_token) "x"%char; bytes_of "[GNUPG:] REVKEYSIG 89ABCDEF acme"] None primary_fpr = Accepted.
Proof. by vm_compute. Qed.

End runs.
