(* ===== verification/Plugin.v ===== *)
(** * core/sign: the client of a signing plugin.

    plugin.go over the messages of api/plugin/v1. The plugin is a function of the
    requests written to it so far: whether the next can be written, and the lines
    it writes in answer before it exits or the time is up. One call is made at a
    time. [strconv.ParseFloat] decides which numbers an answer may hold; of an
    error the class is kept. *)
From S2P Require Export Sign Dferr JsonFold RunMonad.
#[local] Open Scope Z_scope.

(** ** The protocol (api/plugin/v1) *)

Definition Protocol : gostring := "debark.plugin/v1".
Definition CapabilitySign : gostring := "sign".
Definition MethodSign : gostring := "sign".
Definition MethodKeyInfo : gostring := "key_info".
Record Handshake := mkHandshake { hs_Protocol : gostring; hs_Name : gostring; hs_Version : gostring; hs_Capabilities : list gostring }.
Record PluginError := mkPluginError { er_Code : gostring; er_Message : gostring }.
(** [Result] is what was decoded into an interface. *)
Record Response := mkResponse { rs_ID : gostring; rs_Result : json; rs_Error : option PluginError }.
Record SignResult := mkSignResult { sr_Signature : gostring; sr_Algorithm : gostring; sr_KeyID : gostring; sr_SignerKind : gostring }.
Record KeyInfoResult := mkKeyInfo { ki_KeyID : gostring; ki_Algorithm : gostring; ki_PublicKey : gostring; ki_Comment : gostring }.

Definition maxPluginFieldLen : Z := 128.
Definition maxStderrLineLen : Z := 512.
Definition minOpaqueTokenLen : Z := 24.

Section plugin.
Context {unicode : UnicodeTables} (float_ok : gostring → bool).

(** A value that [encoding/json] can put into an interface. *)
Fixpoint any_ok (v : json) : bool :=
  match v with
  | JNum lit => float_ok lit
  | JArr l => forallb any_ok l
  | JObj l => forallb (λ kv, any_ok kv.2) l
  | _ => true
  end.
Definition into_any : into json := λ v _, if any_ok v then Ok v else Err UnmarshalTypeError.
(** A pointer: [null] is nil. *)
Definition into_pointer {A} (f : into A) (zero : A) : into (option A) := λ v old,
  match v with JNull => Ok None | _ => x ← f v (default zero old); Ok (Some x) end.

Definition into_Handshake : into Handshake := into_struct (λ ms o,
  a ← into_field into_string ms "protocol" (hs_Protocol o); b ← into_field into_string ms "name" (hs_Name o);
  c ← into_field into_string ms "version" (hs_Version o);
  d ← into_field (into_slice into_string []) ms "capabilities" (hs_Capabilities o); Ok (mkHandshake a b c d)).
Definition into_PluginError : into PluginError := into_struct (λ ms o,
  a ← into_field into_string ms "code" (er_Code o); b ← into_field into_string ms "message" (er_Message o); Ok (mkPluginError a b)).
Definition into_Response : into Response := into_struct (λ ms o,
  a ← into_field into_string ms "id" (rs_ID o); b ← into_field into_any ms "result" (rs_Result o);
  c ← into_field (into_pointer into_PluginError (mkPluginError [] [])) ms "error" (rs_Error o); Ok (mkResponse a b c)).
Definition into_SignResult : into SignResult := into_struct (λ ms o,
  a ← into_field into_string ms "signature" (sr_Signature o); b ← into_field into_string ms "algorithm" (sr_Algorithm o);
  c ← into_field into_string ms "key_id" (sr_KeyID o); d ← into_field into_string ms "signer_kind" (sr_SignerKind o);
  Ok (mkSignResult a b c d)).
Definition into_KeyInfo : into KeyInfoResult := into_struct (λ ms o,
  a ← into_field into_string ms "key_id" (ki_KeyID o); b ← into_field into_string ms "algorithm" (ki_Algorithm o);
  c ← into_field into_string ms "public_key" (ki_PublicKey o); d ← into_field into_string ms "comment" (ki_Comment o);
  Ok (mkKeyInfo a b c d)).

(** [json.Unmarshal] of one line. *)
Definition unmarshal_line {A} (f : into A) (zero : A) (line : gostring) : option A :=
  match json_parse line with Some v => match f v zero with Ok a => Some a | Err _ => None end | None => None end.

(** [remarshal]: an object came through a map, which keeps the last member of a
    name and is written in the order of its names. *)
Fixpoint keep_last (ms : list (gostring * json)) : list (gostring * json) :=
  match ms with
  | [] => []
  | m :: ms => if bool_decide (m.1 ∈ map fst ms) then keep_last ms else m :: keep_last ms
  end.
Definition through_map (v : json) : json :=
  match v with JObj ms => JObj (sort_by (λ a b : gostring * json, str_leb a.1 b.1) (keep_last ms)) | _ => v end.
Definition remarshal {A} (f : into A) (zero : A) (v : json) : option A :=
  match f (through_map v) zero with Ok a => Some a | Err _ => None end.

(** ** Calls *)

Record plugin_host := mkPluginHost {
  ph_start : option goerror;
  ph_handshake : result goerror gostring;                 (* the first line of its output *)
  ph_write : list gostring → gostring → option goerror;
  ph_answers : list gostring → list gostring              (* the lines after the last of these requests *)
}.
Context (h : plugin_host).

(** [pluginSigner]: the name announced, the requests written, and [keyInfo]. *)
Record pluginSigner := mkPlugin { pl_name : gostring; pl_sent : list gostring; pl_next : Z; pl_keyInfo : option KeyInfoResult }.
Definition plugin_run := run pluginSigner goerror.

Definition pluginError (e : PluginError) : goerror :=
  if streq (er_Code e) "key-unavailable" then New Environment []
  else if streq (er_Code e) "user-declined" then New Usage []
  else if streq (er_Code e) "unsupported-method" then New Usage []
  else New Environment [].
(** [readLoop]: a line that is no response is passed over, and so is one that
    answers no request. *)
Definition response_line (line : gostring) : option Response :=
  let trimmed := trim_space line in
  if streq trimmed "" then None
  else match unmarshal_line into_Response (mkResponse [] JNull None) trimmed with
  | Some r => if streq (rs_ID r) "" then None else Some r
  | None => None
  end.
Fixpoint await (id : gostring) (lines : list gostring) : option Response :=
  match lines with
  | [] => None
  | line :: rest => match response_line line with
      | Some r => if streq (rs_ID r) id then Some r else await id rest
      | None => await id rest
      end
  end.
Definition request_line (id method : gostring) (params : option json) : gostring :=
  json_marshal (JObj ([(bytes_of "id", JStr id); (bytes_of "method", JStr method)] ++ match params with Some p => [(bytes_of "params", p)] | None => [] end))
  ++ [newline].
Definition call (method : gostring) (params : option json) : plugin_run Response :=
  _ ← modify (λ p, mkPlugin (pl_name p) (pl_sent p) (pl_next p + 1) (pl_keyInfo p));
  id ← gets (λ p, itoa (pl_next p));
  let line := request_line id method params in
  failed ← gets (λ p, ph_write h (pl_sent p) line);
  _ ← guard_with (bool_decide (failed ≠ None)) (New Environment []);
  _ ← modify (λ p, mkPlugin (pl_name p) (pl_sent p ++ [line]) (pl_next p) (pl_keyInfo p));
  answers ← gets (λ p, ph_answers h (pl_sent p));
  match await id answers with Some r => mret r | None => fail_with (New Environment []) end.
(** The result of a call, once the error it may carry is looked at. *)
Definition call_for {A} (f : into A) (zero : A) (method : gostring) (params : option json) : plugin_run A :=
  resp ← call method params;
  match rs_Error resp with
  | Some e => fail_with (pluginError e)
  | None => match remarshal f zero (rs_Result resp) with Some a => mret a | None => fail_with (New Usage []) end
  end.
Definition zero_KeyInfo : KeyInfoResult := mkKeyInfo [] [] [] [].
Definition zero_SignResult : SignResult := mkSignResult [] [] [] [].
Definition keyInfoRequest : plugin_run KeyInfoResult := call_for into_KeyInfo zero_KeyInfo MethodKeyInfo None.

(** ** Starting *)

Definition field_rune (r : Z) : bool :=
  ((97 <=? r) && (r <=? 122)) || ((65 <=? r) && (r <=? 90)) || ((48 <=? r) && (r <=? 57)) || existsb (Z.eqb r) [45; 95; 46; 58; 43].
Definition validPluginField (s : gostring) : bool :=
  negb (streq s "") && (Z.of_nat (length s) <=? maxPluginFieldLen) && forallb field_rune (runes s).
Definition set_keyInfo (ki : KeyInfoResult) (p : pluginSigner) : pluginSigner := mkPlugin (pl_name p) (pl_sent p) (pl_next p) (Some ki).
Definition newPluginSigner (path : gostring) : result goerror pluginSigner :=
  if streq path "" then Err (New Usage [])
  else match ph_start h with
  | Some e => Err (New Environment [])
  | None => match ph_handshake h with
      | Err e => Err (New Environment [])
      | Ok line => match unmarshal_line into_Handshake (mkHandshake [] [] [] []) (trim_space line) with
          | None => Err (New Usage [])
          | Some hs =>
              if negb (streq (hs_Protocol hs) Protocol) then Err (New Usage [])
              else if negb (bool_decide (CapabilitySign ∈ hs_Capabilities hs)) then Err (New Usage [])
              else if streq (hs_Name hs) "" then Err (New Usage [])
              else if negb (validPluginField (hs_Name hs)) then Err (New Usage [])
              else match keyInfoRequest (mkPlugin (hs_Name hs) [] 0 None) with
              | (Ok ki, p) => Ok (set_keyInfo ki p)
              | (Err _, p) => Ok p
              end
          end
      end
  end.

(** ** Signing *)

Section sign.
Context {ed : Ed25519}.

(** [checkReturnedSignature]: whether it is refused. *)
Definition signature_refused (known : option KeyInfoResult) (purpose canon : gostring) (sr : SignResult) (rawSig : gostring) : bool :=
  match known with
  | None => false
  | Some ki =>
      if streq (ki_PublicKey ki) "" then false
      else if negb (equal_fold (sr_Algorithm sr) AlgorithmEd25519) || negb (equal_fold (ki_Algorithm ki) AlgorithmEd25519) then false
      else match b64_decode (ki_PublicKey ki) with
      | None => false
      | Some pub =>
          if negb (length pub =? pubKeyLen)%nat then false
          else if negb (equal_fold (sr_KeyID sr) (keyIDHex (keyIDFromPublic pub))) then true
          else negb (length rawSig =? 64)%nat || negb (ed_verify pub (SigningInput purpose canon) rawSig)
      end
  end.
Definition Kind (p : pluginSigner) : gostring := SignerPluginPrefix ++ pl_name p.
Definition KeyID (p : pluginSigner) : gostring := match pl_keyInfo p with Some ki => ki_KeyID ki | None => [] end.
Definition sign_params (purpose canon : gostring) : json :=
  JObj [(bytes_of "purpose", JStr purpose); (bytes_of "payload", JStr (b64_encode canon))].
Definition Sign (now purpose canon : gostring) : plugin_run Signature :=
  sr ← call_for into_SignResult zero_SignResult MethodSign (Some (sign_params purpose canon));
  _ ← guard_with (streq (sr_Signature sr) "") (New Usage []);
  rawSig ← lift_result (match b64_decode (sr_Signature sr) with Some raw => Ok raw | None => Err (New Usage []) end);
  _ ← guard_with (negb (validPluginField (sr_KeyID sr))) (New Usage []);
  _ ← guard_with (negb (validPluginField (sr_Algorithm sr))) (New Usage []);
  known ← gets pl_keyInfo;
  _ ← guard_with (signature_refused known purpose canon sr rawSig) (New Usage []);
  _ ← modify (λ p, match pl_keyInfo p with None => set_keyInfo (mkKeyInfo (sr_KeyID sr) (sr_Algorithm sr) [] []) p | Some _ => p end);
  kind ← gets Kind;
  mret (mkSignature kind (sr_KeyID sr) (sr_Algorithm sr) now (sr_Signature sr) []).
End sign.

(** ** What it writes on its error stream *)

Definition secretKeywords : list gostring :=
  map bytes_of ["token"; "secret"; "password"; "passwd"; "passphrase"; "pin"; "key"; "credential"; "auth"; "authorization"; "bearer";
    "session"; "cookie"]%string.
(** Before and after the first [=] or [:]. *)
Fixpoint splitAssignment (f : gostring) : option (gostring * gostring) :=
  match f with
  | [] => None
  | c :: rest => if beq c "=" || beq c ":" then Some ([], rest)
      else match splitAssignment rest with Some (k, v) => Some (c :: k, v) | None => None end
  end.
Definition isSecretKeyword (key : gostring) : bool := existsb (λ kw, has_suffix kw (to_lower key)) secretKeywords.
Definition looksLikePathOrURL (f : gostring) : bool :=
  has_prefix "/" f || has_prefix "\" f || contains_str "://" f
  || match f with _ :: b :: c :: _ => beq b ":" && (beq c "\" || beq c "/") | _ => false end.
Definition rune_in (s : gostring) (r : Z) : bool := existsb (λ c, ord c =? r) s.
Definition token_rune (r : Z) : bool :=
  ((48 <=? r) && (r <=? 57)) || ((97 <=? r) && (r <=? 122)) || ((65 <=? r) && (r <=? 90)) || rune_in "+/=_-." r.
Definition looksLikeOpaqueToken (f : gostring) : bool :=
  if (Z.of_nat (length f) <? minOpaqueTokenLen) || looksLikePathOrURL f then false
  else
    forallb token_rune (runes f) && existsb (λ r, (48 <=? r) && (r <=? 57)) (runes f)
    && existsb (λ r, ((97 <=? r) && (r <=? 122)) || ((65 <=? r) && (r <=? 90))) (runes f).
Definition REDACTED : gostring := "REDACTED".
Fixpoint redact_fields (fs : list gostring) : list gostring :=
  match fs with
  | [] => []
  | f :: rest =>
      match splitAssignment f with
      | Some (key, val) =>
          if isSecretKeyword key then
            if negb (streq val "") then (firstn (S (length key)) f ++ REDACTED) :: redact_fields rest
            else f :: match rest with [] => [] | _ => [REDACTED] end
          else if looksLikeOpaqueToken f then REDACTED :: redact_fields rest else f :: redact_fields rest
      | None => if looksLikeOpaqueToken f then REDACTED :: redact_fields rest else f :: redact_fields rest
      end
  end.
Definition redactStderrLine (line : gostring) : gostring :=
  let line := if maxStderrLineLen <? Z.of_nat (length line) then firstn (Z.to_nat maxStderrLineLen) line ++ " [truncated]" else line in
  GoStrings.join " " (redact_fields (fields line)).
End plugin.

(** ** What a signature of a plugin is worth *)

Section sound.
Context {unicode : UnicodeTables} {laws : UnicodeLaws} {ed : Ed25519} (float_ok : gostring → bool) (h : plugin_host).

Definition asked (p p' : pluginSigner) (method : gostring) (params : option json) : Prop :=
  pl_name p' = pl_name p ∧ pl_keyInfo p' = pl_keyInfo p
  ∧ pl_sent p' = pl_sent p ++ [request_line (itoa (pl_next p + 1)) method params].
Lemma call_for_spec {A} (f : into A) zero method params p :
  wp (call_for float_ok h f zero method params) (λ _ p', asked p p' method params) (λ _ p', pl_name p' = pl_name p) p.
Proof.
  unfold call_for, call. apply wp_bind. apply wp_bind, wp_modify, wp_bind, wp_gets, wp_bind, wp_gets, wp_bind, wp_guard; [done|intros _].
  apply wp_bind, wp_modify, wp_bind, wp_gets. cbn [pl_name pl_sent pl_next pl_keyInfo]. destruct (await _ _ _) as [r|]; [|by apply wp_fail].
  apply wp_ret. destruct (rs_Error r); [by apply wp_fail|]. destruct (remarshal _ _ _); [|by apply wp_fail]. by apply wp_ret.
Qed.
Lemma field_rune_range r : field_rune r = true → 0 ≤ r < 128.
Proof.
  unfold field_rune. rewrite !orb_true_iff, !andb_true_iff, !Z.leb_le. intros [[[?|?]|?]|(x & Hx & E%Z.eqb_eq)%existsb_exists]; [lia..|].
  subst x. cbn in Hx. lia.
Qed.
Lemma field_ascii s : forallb field_rune (runes s) = true → is_ascii s = true.
Proof.
  intros H. rewrite forallb_forall in H.
  assert (s = map chr (runes s)) as ->.
  { apply runes_all_small, Forall_forall. intros r Hr%list_elem_of_In. by apply H, field_rune_range in Hr as []. }
  apply forallb_forall. intros c (r & <- & Hr)%in_map_iff. apply H, field_rune_range in Hr. rewrite ord_chr by lia. apply Z.ltb_lt. lia.
Qed.
(** A key id that folds to the one of a key names it in a trust set. *)
Lemma key_id_lower s pub : validPluginField s = true → equal_fold s (keyIDHex (keyIDFromPublic pub)) = true → to_lower s = keyIDHex (keyIDFromPublic pub).
Proof.
  unfold validPluginField. intros [[_ _]%andb_true_iff Ha%field_ascii]%andb_true_iff Hf. unfold to_lower. rewrite Ha.
  unfold keyIDHex in *. apply equal_fold_hex in Hf; [|apply hex_lower_hex, hex_encode_ok]. by rewrite Hf, hex_lower_fixed by apply hex_encode_ok.
Qed.
Lemma newPluginSigner_name path p : newPluginSigner float_ok h path = Ok p → validPluginField (pl_name p) = true ∧ pl_name p ≠ [].
Proof.
  unfold newPluginSigner. destruct (streq path ""); [done|]. destruct (ph_start h); [done|]. destruct (ph_handshake h) as [line|]; [|done].
  destruct (unmarshal_line _ _ _) as [hs|]; [|done]. destruct (negb (streq (hs_Protocol hs) _)); [done|]. case_bool_decide as Hcap; [|done]. cbn [negb].
  destruct (streq (hs_Name hs) "") eqn:En; [done|]. destruct (validPluginField (hs_Name hs)) eqn:Ev; [|done]. cbn [negb].
  apply streq_false_iff in En. pose proof (call_for_spec into_KeyInfo zero_KeyInfo MethodKeyInfo None (mkPlugin (hs_Name hs) [] 0 None)) as H.
  unfold wp, keyInfoRequest in *. destruct (call_for _ _ _ _ _ _ _) as [[ki|e] q]; intros [= <-].
  - destruct H as (Hn & _). cbn [set_keyInfo pl_name] in *. by rewrite Hn.
  - cbn [pl_name] in H. by rewrite H.
Qed.

(** The key it exported is one that can be checked against. *)
Definition exported (p : pluginSigner) (pub : gostring) : Prop := ∃ ki, pl_keyInfo p = Some ki ∧ ki_PublicKey ki ≠ []
  ∧ b64_decode (ki_PublicKey ki) = Some pub ∧ length pub = pubKeyLen ∧ equal_fold (ki_Algorithm ki) AlgorithmEd25519 = true.
Lemma refused_not known purpose canon sr raw : signature_refused known purpose canon sr raw = false →
  ∀ ki pub, known = Some ki → ki_PublicKey ki ≠ [] → b64_decode (ki_PublicKey ki) = Some pub → length pub = pubKeyLen →
    equal_fold (ki_Algorithm ki) AlgorithmEd25519 = true → equal_fold (sr_Algorithm sr) AlgorithmEd25519 = true →
    equal_fold (sr_KeyID sr) (keyIDHex (keyIDFromPublic pub)) = true ∧ length raw = 64%nat ∧ ed_verify pub (SigningInput purpose canon) raw = true.
Proof.
  intros H ki pub -> Hne Hb Hl Ha Hs. unfold signature_refused in H. destruct (streq (ki_PublicKey ki) "") eqn:E; [by apply streq_true in E|]. rewrite Hs, Ha, Hb, Hl in H. cbn [negb orb Nat.eqb] in H.
  destruct (equal_fold (sr_KeyID sr) _); [|done]. apply orb_false_iff in H as [H1 H2]. apply negb_false_iff in H1, H2.
  split_and!; [done|by apply Nat.eqb_eq|done].
Qed.

(** A plugin that was started and signs gives a block that says who signed:
    the kind is its own announced name, whatever it answers, and the key id and
    the algorithm are plain words. It was asked once, for this purpose and this
    document. If it exported an ed25519 key, a block that says ed25519 is accepted
    by every verifier that trusts that key: what could not be verified on the
    other side is not written. *)
Theorem plugin_sign_verifies path p now purpose canon sig p' :
  newPluginSigner float_ok h path = Ok p → Sign float_ok h now purpose canon p = (Ok sig, p') →
  isPluginSignerKind (sg_SignerKind sig) = true ∧ sg_SignerKind sig = Kind p
  ∧ validPluginField (pl_name p) = true ∧ validPluginField (sg_KeyID sig) = true ∧ validPluginField (sg_Algorithm sig) = true
  ∧ pl_sent p' = pl_sent p ++ [request_line (itoa (pl_next p + 1)) MethodSign (Some (sign_params purpose canon))]
  ∧ ∀ pub v from, exported p pub → equal_fold (sg_Algorithm sig) AlgorithmEd25519 = true →
      v_keys v !! keyIDHex (keyIDFromPublic pub) = Some (pub, from) → Verify v purpose canon sig = Accepted.
Proof.
  intros [Hname Hne]%newPluginSigner_name Hsign.
  assert (wp (Sign float_ok h now purpose canon) (λ sig p', sg_SignerKind sig = Kind p ∧ validPluginField (sg_KeyID sig) = true
    ∧ validPluginField (sg_Algorithm sig) = true ∧ asked p (mkPlugin (pl_name p') (pl_sent p') 0 (pl_keyInfo p)) MethodSign (Some (sign_params purpose canon))
    ∧ ∃ sr raw, sg_KeyID sig = sr_KeyID sr ∧ sg_Algorithm sig = sr_Algorithm sr ∧ b64_decode (sg_Signature sig) = Some raw
        ∧ signature_refused (pl_keyInfo p) purpose canon sr raw = false) (λ _ _, True) p) as H.
  { clear Hsign. unfold Sign. apply wp_bind. eapply wp_mono; [apply call_for_spec| |done]. intros sr p1 (Hn1 & Hk1 & Hs1).
    apply wp_bind, wp_guard; [done|intros _]. apply wp_bind, wp_lift. destruct (b64_decode (sr_Signature sr)) as [raw|] eqn:Eb; [|done].
    apply wp_bind, wp_guard; [done|intros Hv1%negb_false_iff]. apply wp_bind, wp_guard; [done|intros Hv2%negb_false_iff].
    apply wp_bind, wp_gets, wp_bind, wp_guard; [done|intros Hr]. apply wp_bind, wp_modify, wp_bind, wp_gets, wp_ret.
    cbn [sg_SignerKind sg_KeyID sg_Algorithm sg_Signature]. rewrite Hk1 in Hr.
    unfold Kind, asked. rewrite <- Hn1. split_and!; try (by destruct (pl_keyInfo p1)); [done..|].
    by exists sr, raw. }
  unfold wp in H. rewrite Hsign in H. destruct H as (Hkind & Hv1 & Hv2 & (_ & _ & Hsent) & sr & raw & Eid & Ealg & Eb & Hr).
  assert (isPluginSignerKind (sg_SignerKind sig) = true) as Hplugin by (rewrite Hkind; apply isPluginSignerKind_spec; by exists (pl_name p)).
  split_and!; [done..|]. intros pub v from (ki & Hki & Hk & Hd & Hl & Ha) Hs Hv.
  rewrite Ealg in Hs. destruct (refused_not _ _ _ _ _ Hr ki pub Hki Hk Hd Hl Ha Hs) as (Hid & Hlr & Hed).
  unfold Verify. assert (streq (sg_SignerKind sig) SignerGPG = false ∧ streq (sg_SignerKind sig) SignerEd25519File = false) as [-> ->].
  { rewrite !streq_false_iff. split; intros E; rewrite E in Hplugin; by vm_compute in Hplugin. }
  rewrite Hplugin, Ealg, Hs. cbn [andb]. apply verifyEd25519_Accepted. exists pub, from, raw.
  rewrite Eid in Hv1. rewrite Eid, (key_id_lower _ _ Hv1 Hid). by split_and!.
Qed.
End sound.

(** ** A plugin *)

Section example.
Local Existing Instances ascii_tables ascii_tables_laws.
#[local] Instance hash_ed : Ed25519 := {|
  ed_verify pub msg sig := streq sig (hex_encode (Sha256.sum (pub ++ msg)));
  ed_sign priv msg := hex_encode (Sha256.sum (priv ++ msg));
  ed_public priv := priv |}.
Definition acme_key : gostring := replicate 32 "k"%char.
Definition acme_id : gostring := keyIDHex (keyIDFromPublic acme_key).
Definition obj (l : list (String.string * gostring)) : json := JObj (map (λ kv : String.string * gostring, (bytes_of kv.1, JStr kv.2)) l).
Definition answers (id : gostring) (result : json) : gostring := json_marshal (JObj [(bytes_of "id", JStr id); (bytes_of "result", result)]).
Definition said_first : gostring :=
  json_marshal (JObj [(bytes_of "protocol", JStr Protocol); (bytes_of "name", JStr "acme-hsm"); (bytes_of "capabilities", JArr [JStr "sign"])]) ++ [newline].
(** It logs a line first, exports its key, calls itself gpg and signs the document
    [signed], whatever it was asked to sign. *)
Definition acme (signed : gostring) : plugin_host := {|
  ph_start := None; ph_handshake := Ok said_first; ph_write _ _ := None;
  ph_answers sent := bytes_of "connecting to slot 0" ::
    if (length sent =? 1)%nat then
      [answers "1" (obj [("key_id"%string, acme_id); ("algorithm"%string, AlgorithmEd25519); ("public_key"%string, b64_encode acme_key)])]
    else [answers "7" (obj []);
      answers "2" (obj [("signature"%string, b64_encode (ed_sign acme_key (SigningInput SignPurpose signed))); ("algorithm"%string, bytes_of "ED25519");
        ("key_id"%string, acme_id); ("signer_kind"%string, SignerGPG)])]
|}.
Definition acme_signs (signed asked : gostring) : result goerror pluginSigner * option (result goerror Signature) :=
  let p := newPluginSigner (λ _, true) (acme signed) "/usr/lib/acme" in
  (p, match p with Ok p => Some (Sign (λ _, true) (acme signed) "t" SignPurpose asked p).1 | Err _ => None end).
Example acme_signature : (acme_signs "{}" "{}").2 = Some (Ok (mkSignature "plugin:acme-hsm" acme_id "ED25519" "t"
  (b64_encode (ed_sign acme_key (SigningInput SignPurpose "{}"))) [])).
Proof. by vm_compute. Qed.
(** One that signs something else is caught. *)
Example wrong_document : (acme_signs "{}" "{1}").2 = Some (Err (New Usage [])).
Proof. by vm_compute. Qed.
(** What an operator is shown of what it logs. *)
Example redacted_lines : map redactStderrLine
  [bytes_of "slot 0: pin=1234 key at /opt/acme/keys/op.key"; bytes_of "Authorization: Bearer abc"; bytes_of "sent 0123456789abcdef0123456789abcdef ok"]
  = [bytes_of "slot 0: pin=REDACTED key at /opt/acme/keys/op.key"; bytes_of "Authorization: REDACTED"; bytes_of "sent REDACTED ok"].
Proof. by vm_compute. Qed.

Lemma plugin_sign_verifies_witness : match newPluginSigner (λ _, true) (acme "{}") "/usr/lib/acme" with
  | Ok p => match Sign (λ _, true) (acme "{}") "t" SignPurpose "{}" p with
      | (Ok sig, _) => ∀ gpg, Verify (mkVerifier {[acme_id := (acme_key, bytes_of "acme.pub")]} gpg) SignPurpose "{}" sig = Accepted
      | (Err _, _) => False
      end
  | Err _ => False
  end.
Proof.
  destruct (newPluginSigner (λ _, true) (acme "{}") "/usr/lib/acme") as [p|e] eqn:Ep; [|exfalso; vm_compute in Ep; discriminate Ep].
  destruct (Sign (λ _, true) (acme "{}") "t" SignPurpose "{}" p) as [[sig|e] p'] eqn:Es.
  2: { exfalso. assert (∃ q, newPluginSigner (λ _, true) (acme "{}") "/usr/lib/acme" = Ok q ∧ is_ok (Sign (λ _, true) (acme "{}") "t" SignPurpose "{}" q).1 = true) as (q & Hq & Hok).
       { eexists. split; [vm_compute; reflexivity|]. vm_compute. reflexivity. }
       rewrite Ep in Hq. injection Hq as <-. rewrite Es in Hok. discriminate Hok. }
  intros gpg. destruct (plugin_sign_verifies (λ _, true) (acme "{}") "/usr/lib/acme" p "t" SignPurpose "{}" sig p' Ep Es) as (_ & _ & _ & _ & _ & _ & H).
  assert (∃ q, newPluginSigner (λ _, true) (acme "{}") "/usr/lib/acme" = Ok q
    ∧ pl_keyInfo q = Some (mkKeyInfo acme_id AlgorithmEd25519 (b64_encode acme_key) []) ∧ match Sign (λ _, true) (acme "{}") "t" SignPurpose "{}" q with
        (Ok s, _) => sg_Algorithm s = "ED25519" | (Err _, _) => False end) as (q & Hq & Hk & Ha).
  { eexists. split; [vm_compute; reflexivity|]. split; vm_compute; reflexivity. }
  rewrite Ep in Hq. injection Hq as <-. rewrite Es in Ha.
  apply (H acme_key _ (bytes_of "acme.pub")).
  - eexists. split; [exact Hk|]. split_and!; [discriminate|vm_compute; reflexivity..].
  - rewrite Ha. vm_compute. reflexivity.
  - apply lookup_insert_eq.
Defined.
End example.
