(* ===== verification/Verify.v ===== *)
(** * core/verify: the verdict on a bundle. *)
From S2P Require Export Sign LockDoc.
#[local] Open Scope Z_scope.

(** ** iface.go *)

Inductive ProblemKind :=
| ProblemManifestMissing | ProblemManifestMalformed | ProblemSchemaUnknown | ProblemSignatureMissing
| ProblemSignatureInvalid | ProblemSignatureUntrusted | ProblemManifestDigest | ProblemFileMissing
| ProblemFileDigest | ProblemFileSize | ProblemFileUnexpected | ProblemFileNotRegular | ProblemRepoDigest
| ProblemLockDigest | ProblemSnapshotDigest | ProblemSameMediaKey.
(** A problem without its message. *)
Record Problem := mkProblem { pr_Kind : ProblemKind; pr_Path : gostring; pr_Expected : gostring; pr_Got : gostring }.
Record SignatureResult := mkSignatureResult {
  sr_SignerKind : gostring; sr_KeyID : gostring; sr_Algorithm : gostring;
  sr_Valid : bool; sr_Trusted : bool; sr_Detail : gostring
}.
Inductive report_warning := WarnNotSigned | WarnDefaultKeyring | WarnNoTrusted.
(** The fields later steps fill; the identity fields are copied from the manifest. *)
Record Report := mkReport {
  rp_OK : bool; rp_Signed : bool; rp_Signatures : list SignatureResult; rp_FilesChecked : Z; rp_BytesChecked : Z;
  rp_Problems : list Problem; rp_Warnings : list report_warning; rp_Manifest : option Manifest
}.
Definition empty_report : Report := mkReport false false [] 0 0 [] [] None.
Record Options := mkOptions { o_GPGKeyring : gostring; o_AllowUnsigned : bool; o_SkipFileDigests : bool }.

Definition add_problem (k : ProblemKind) (path expected got : gostring) (r : Report) : Report :=
  mkReport (rp_OK r) (rp_Signed r) (rp_Signatures r) (rp_FilesChecked r) (rp_BytesChecked r)
    (rp_Problems r ++ [mkProblem k path expected got]) (rp_Warnings r) (rp_Manifest r).
Definition add_warning (w : report_warning) (r : Report) : Report :=
  mkReport (rp_OK r) (rp_Signed r) (rp_Signatures r) (rp_FilesChecked r) (rp_BytesChecked r)
    (rp_Problems r) (rp_Warnings r ++ [w]) (rp_Manifest r).
Definition add_signature (s : SignatureResult) (r : Report) : Report :=
  mkReport (rp_OK r) (rp_Signed r) (rp_Signatures r ++ [s]) (rp_FilesChecked r) (rp_BytesChecked r)
    (rp_Problems r) (rp_Warnings r) (rp_Manifest r).
Definition set_signed (b : bool) (r : Report) : Report :=
  mkReport (rp_OK r) b (rp_Signatures r) (rp_FilesChecked r) (rp_BytesChecked r)
    (rp_Problems r) (rp_Warnings r) (rp_Manifest r).
Definition set_ok (b : bool) (r : Report) : Report :=
  mkReport b (rp_Signed r) (rp_Signatures r) (rp_FilesChecked r) (rp_BytesChecked r)
    (rp_Problems r) (rp_Warnings r) (rp_Manifest r).
Definition set_manifest (m : Manifest) (r : Report) : Report :=
  mkReport (rp_OK r) (rp_Signed r) (rp_Signatures r) (rp_FilesChecked r) (rp_BytesChecked r)
    (rp_Problems r) (rp_Warnings r) (Some m).
Definition count_file (size : Z) (r : Report) : Report :=
  mkReport (rp_OK r) (rp_Signed r) (rp_Signatures r) (rp_FilesChecked r + 1) (rp_BytesChecked r + size)
    (rp_Problems r) (rp_Warnings r) (rp_Manifest r).

(** ** Layout *)

Definition snapshotDocumentName : gostring := "snapshot.json".
Definition repoDirName : gostring := "repo".
Definition poolPathPrefix : gostring := "repo/pool/".
Definition lockRepoPrefix : gostring := "repo/".
Definition isPoolFile (rel : gostring) : bool := has_prefix poolPathPrefix rel.

Definition looksLikeBundle (root : fsnode) : bool :=
  existsb (exists_at root) [Manifest.FileName; SigFileName; LockTypes.FileName; snapshotDocumentName; repoDirName].

Definition classifyManifestErr (e : Manifest.load_error) : ProblemKind :=
  if is_unknown_schema e then ProblemSchemaUnknown else ProblemManifestMalformed.

(** ** indexFiles *)

(** [slices.Compact] of sorted strings. *)
Fixpoint compact (l : list gostring) : list gostring :=
  match l with
  | x :: (y :: _) as rest => if streq x y then compact rest else x :: compact rest
  | _ => l
  end.

Fixpoint index_loop (files : list File) (expected : gmap gostring File) (dups : list gostring) : gmap gostring File * list gostring :=
  match files with
  | [] => (expected, dups)
  | f :: rest =>
      match expected !! f_Path f with
      | Some _ => index_loop rest expected (dups ++ [f_Path f])
      | None => index_loop rest (<[f_Path f := f]> expected) dups
      end
  end.
Definition indexFiles (files : list File) : gmap gostring File * list gostring :=
  let '(expected, dups) := index_loop files ∅ [] in (expected, compact (sort_strings dups)).

Section verify.
Context `{UnicodeTables} `{JCS} `{Ed25519}.

(** ** checkFiles *)

(** The walk function on one visit; [root] is the absolute path of the bundle. *)
Definition check_visit (root : gostring) (expected : gmap gostring File) (skip : bool)
    (st : gset gostring * Report) (v : visit) : gset gostring * Report :=
  let '(seen, r) := st in
  match v with
  | VDir _ => st
  | VError rel e => (seen, add_problem ProblemFileMissing (join_rel root rel) [] [] r)
  | VFile rel mode info content =>
      if negb (streq mode "") then (seen, add_problem ProblemFileNotRegular rel "regular file" mode r)
      else if streq rel Manifest.FileName || streq rel SigFileName then st
      else match expected !! rel with
      | None => (seen, add_problem ProblemFileUnexpected rel [] [] r)
      | Some f =>
          let seen := {[rel]} ∪ seen in
          if skip && isPoolFile rel then
            match info with
            | Err e => (seen, add_problem ProblemFileMissing rel [] [] r)
            | Ok size =>
                let r := count_file size r in
                (seen, if negb (size =? f_Size f)
                       then add_problem ProblemFileSize rel (itoa (f_Size f)) (itoa size) r else r)
            end
          else
            match SHA256File content with
            | Err e => (seen, add_problem ProblemFileMissing rel [] [] r)
            | Ok (sum, size) =>
                let r := count_file size r in
                (seen,
                 if negb (size =? f_Size f) then add_problem ProblemFileSize rel (itoa (f_Size f)) (itoa size) r
                 else if negb (Equal sum (f_SHA256 f)) then add_problem ProblemFileDigest rel (f_SHA256 f) sum r
                 else r)
            end
      end
  end.

Definition missing_files (expected : gmap gostring File) (seen : gset gostring) : list gostring :=
  sort_strings (List.filter (λ p, negb (bool_decide (p ∈ seen))) (map fst (map_to_list expected))).

Definition checkFiles (rootPath : gostring) (root : fsnode) (expected : gmap gostring File) (skip : bool) (r : Report) : Report :=
  let '(seen, r) := fold_left (check_visit rootPath expected skip) (walk [] root) (∅, r) in
  fold_left (λ r p, add_problem ProblemFileMissing p (match expected !! p with Some f => f_SHA256 f | None => [] end) [] r)
    (missing_files expected seen) r.

(** ** checkRepository *)

Definition check_repo_digest (expected : gmap gostring File) (r : Report) (c : gostring * gostring) : Report :=
  let '(relPath, want) := c in
  if streq want "" then r
  else match expected !! relPath with
  | None => add_problem ProblemRepoDigest relPath [] [] r
  | Some f => if negb (Equal (f_SHA256 f) want) then add_problem ProblemRepoDigest relPath want (f_SHA256 f) r else r
  end.
Definition repo_digests (m : Manifest) : list (gostring * gostring) :=
  [(bytes_of "repo/Packages", rp_PackagesSHA256 (m_Repository m));
   (bytes_of "repo/Packages.gz", rp_PackagesGzSHA256 (m_Repository m));
   (bytes_of "repo/Release", rp_ReleaseSHA256 (m_Repository m));
   (bytes_of "repo/InRelease", rp_InReleaseSHA256 (m_Repository m));
   (bytes_of "repo/Release.gpg", rp_ReleaseGPGSHA256 (m_Repository m))].
Definition checkRepository (m : Manifest) (expected : gmap gostring File) (r : Report) : Report :=
  fold_left (check_repo_digest expected) (repo_digests m) r.

(** ** checkLockAndSnapshot, checkLockPackages *)

Definition canonicalDigestOfFile (file : option (result gostring gostring)) : option gostring :=
  match file with
  | Some (Ok raw) => match Transform raw with Ok canon => Some (DigestBytes canon) | Err _ => None end
  | _ => None
  end.
Definition check_digest (k : ProblemKind) (name want : gostring) (got : option gostring) (r : Report) : Report :=
  match got with
  | None => add_problem k name [] [] r
  | Some got => if negb (Equal got want) then add_problem k name want got r else r
  end.
Definition checkLockAndSnapshot (root : fsnode) (m : Manifest) (r : Report) : Report :=
  let r := check_digest ProblemLockDigest LockTypes.FileName (m_LockDigest m)
             (canonicalDigestOfFile (open_file root LockTypes.FileName)) r in
  if negb (exists_at root snapshotDocumentName) then r
  else check_digest ProblemSnapshotDigest snapshotDocumentName (m_SnapshotDigest m)
         (canonicalDigestOfFile (open_file root snapshotDocumentName)) r.

(** [lock.Load(root)]: its two system calls on the tree. *)
Definition lock_load (root : fsnode) : result LockDoc.load_error Lock :=
  match open_file root LockTypes.FileName with
  | None => LockDoc.Load None None
  | Some (Err _) => LockDoc.Load (Some 0) None
  | Some (Ok raw) => LockDoc.Load (Some (Z.of_nat (length raw))) (Some raw)
  end.
Definition check_lock_package (expected : gmap gostring File) (r : Report) (p : Package) : Report :=
  let rel := lockRepoPrefix ++ p_Filename p in
  match expected !! rel with
  | None => add_problem ProblemLockDigest rel [] [] r
  | Some f =>
      if negb (Equal (f_SHA256 f) (p_SHA256 p)) then add_problem ProblemLockDigest rel (f_SHA256 f) (p_SHA256 p) r
      else if negb (f_Size f =? p_Size p) then add_problem ProblemLockDigest rel (itoa (f_Size f)) (itoa (p_Size p)) r
      else r
  end.
Definition checkLockPackages (root : fsnode) (expected : gmap gostring File) (r : Report) : Report :=
  match lock_load root with
  | Err e => add_problem ProblemLockDigest LockTypes.FileName [] [] r
  | Ok l => fold_left (check_lock_package expected) (l_Packages l) r
  end.

(** ** checkSignatures *)

Definition maxSignatureBlocks : nat := 32.

(** What [sign.VerifierFor] returns. *)
Inductive verifier_error := SameMediaKey | VerifierError (err : gostring).
Inductive verify_error := UsageError | VerifierFailed (err : gostring) | CheckError (err : gostring).

(** The loop over the blocks: whether some block was valid, some was a bad
    signature by a trusted key, some gpg block was checked with the default
    keyring; a bad one ends the loop. *)
Fixpoint blocks_loop (v : compositeVerifier) (opts : Options) (canon : gostring) (blocks : list Signature)
    (valid default_gpg : bool) (r : Report) : result verify_error (bool * bool * bool * Report) :=
  match blocks with
  | [] => Ok (valid, false, default_gpg, r)
  | b :: rest =>
      let res ok trusted detail := mkSignatureResult (sg_SignerKind b) (sg_KeyID b) (sg_Algorithm b) ok trusted detail in
      match Verify v SignPurpose canon b with
      | Accepted =>
          blocks_loop v opts canon rest true
            (default_gpg || (streq (sg_SignerKind b) SignerGPG && streq (o_GPGKeyring opts) ""))
            (add_signature (res true true []) r)
      | UntrustedKey =>
          blocks_loop v opts canon rest valid default_gpg
            (add_signature (res false false "signed by a key not present in the trusted key sources") r)
      | BadSignature detail => Ok (valid, true, default_gpg, add_signature (res false true detail) r)
      | CheckFailed e => Err (CheckError e)
      end
  end.

(** [true] stops the verification. *)
Definition checkSignatures (verifier : result verifier_error compositeVerifier) (opts : Options)
    (sigFile : option SignatureFile) (canon : gostring) (r : Report) : result verify_error (bool * Report) :=
  match default [] (sf_Signatures <$> sigFile) with
  | [] =>
      if o_AllowUnsigned opts then Ok (false, add_warning WarnNotSigned (set_signed false r))
      else Ok (true, add_problem ProblemSignatureMissing SigFileName [] [] r)
  | blocks =>
      if (maxSignatureBlocks <? length blocks)%nat
      then Ok (true, add_problem ProblemManifestMalformed SigFileName "at most 32" (itoa (Z.of_nat (length blocks))) r)
      else match verifier with
      | Err SameMediaKey => Ok (true, add_problem ProblemSameMediaKey [] [] [] r)
      | Err (VerifierError e) => Err (VerifierFailed e)
      | Ok v =>
          '(valid, invalid, default_gpg, r) ← blocks_loop v opts canon blocks false false r;
          let r := if default_gpg : bool then add_warning WarnDefaultKeyring r else r in
          if invalid : bool then Ok (true, add_problem ProblemSignatureInvalid SigFileName [] [] r)
          else if valid : bool then Ok (false, set_signed true r)
          else if o_AllowUnsigned opts then Ok (false, add_warning WarnNoTrusted (set_signed false r))
          else Ok (true, add_problem ProblemSignatureUntrusted SigFileName [] [] r)
      end
  end.

(** ** runVerify *)

(** [root] is what the resolved bundle path names, [verifier] what
    [sign.VerifierFor] returns for the options' keys. *)
Definition runVerify (rootPath : gostring) (root : option fsnode) (opts : Options)
    (verifier : result verifier_error compositeVerifier) : result verify_error Report :=
  match root with
  | None | Some (FFile _ _ _) => Err UsageError
  | Some root =>
      if negb (looksLikeBundle root) then Err UsageError
      else match Manifest.Load (open_file root Manifest.FileName) with
      | Err NotExist => Ok (add_problem ProblemManifestMissing Manifest.FileName [] [] empty_report)
      | Err e => Ok (add_problem (classifyManifestErr e) Manifest.FileName [] [] empty_report)
      | Ok (m, canon) =>
          let r := set_manifest m empty_report in
          match LoadSignature (open_file root SigFileName) with
          | Err e => Ok (add_problem (classifyManifestErr e) SigFileName [] [] r)
          | Ok sigFile =>
              let manifestDigest := DigestBytes canon in
              match (if sigFile is Some sf then negb (Equal (sf_ManifestSHA256 sf) manifestDigest) else false) with
              | true =>
                  Ok (add_problem ProblemManifestDigest SigFileName
                        (default [] (sf_ManifestSHA256 <$> sigFile)) manifestDigest r)
              | false =>
                  '(stop, r) ← checkSignatures verifier opts sigFile canon r;
                  if stop : bool then Ok r
                  else
                    let '(expected, duplicates) := indexFiles (m_Files m) in
                    let r := fold_left (λ r p, add_problem ProblemManifestMalformed Manifest.FileName [] p r) duplicates r in
                    let r := checkFiles rootPath root expected (o_SkipFileDigests opts) r in
                    let r := checkRepository m expected r in
                    let r := checkLockAndSnapshot root m r in
                    let r := checkLockPackages root expected r in
                    Ok (set_ok (bool_decide (rp_Problems r = [])) r)
              end
          end
      end
  end.
End verify.
