(* ===== verification/VerifySound.v ===== *)
(** * What a verdict of [OK] means, and that honest bundles get it. *)
From S2P Require Export Verify.
#[local] Open Scope Z_scope.

Section sound.
Context {unicode : UnicodeTables} {laws : @UnicodeLaws unicode} {jcs : JCS} {ed : Ed25519}.

(** Problems only accumulate: a step leaves none exactly when there were none
    and it finds none. *)
Lemma add_problem_some k p e g r : rp_Problems (add_problem k p e g r) = [] ↔ False.
Proof. split; [|done]. simpl. by destruct (rp_Problems r). Qed.
Lemma add_problem_signed k p e g r : rp_Signed (add_problem k p e g r) = rp_Signed r.
Proof. done. Qed.

Lemma fold_problems {A} (f : Report → A → Report) (ok : A → Prop) l r :
  (∀ r x, x ∈ l → rp_Problems (f r x) = [] ↔ rp_Problems r = [] ∧ ok x) →
  rp_Problems (fold_left f l r) = [] ↔ rp_Problems r = [] ∧ Forall ok l.
Proof.
  revert r. induction l as [|x l IH]; intros r Hf; cbn [fold_left].
  - split; [|by intros [? _]]. intros Hr. split; [done|constructor].
  - rewrite IH by (intros; apply Hf; by right). rewrite Hf by (by left). rewrite Forall_cons. tauto.
Qed.

(** ** The tree against the index *)

(** A file entry a bundle may hold. *)
Definition file_matches (skip : bool) (f : File) (info : result gostring Z) (content : result gostring gostring) : Prop :=
  if skip && isPoolFile (f_Path f) then info = Ok (f_Size f)
  else ∃ b, content = Ok b ∧ f_Size f = Z.of_nat (length b) ∧ Equal (Bytes b) (f_SHA256 f) = true.
Definition indexed (expected : gmap gostring File) : Prop := ∀ p f, expected !! p = Some f → f_Path f = p.
Definition visit_ok (expected : gmap gostring File) (skip : bool) (v : visit) : Prop :=
  match v with
  | VDir _ => True
  | VError _ _ => False
  | VFile rel mode info content =>
      mode = [] ∧ (own_name rel ∨ ∃ f, expected !! rel = Some f ∧ file_matches skip f info content)
  end.

(** The paths [checkFiles] ticks off. *)
Definition ticked (expected : gmap gostring File) (v : visit) (p : gostring) : Prop :=
  match v with VFile rel mode _ _ => rel = p ∧ mode = [] ∧ ¬ own_name rel ∧ is_Some (expected !! rel) | _ => False end.

Lemma check_visit_step root expected skip seen r v :
  indexed expected →
  (rp_Problems (check_visit root expected skip (seen, r) v).2 = [] ↔ rp_Problems r = [] ∧ visit_ok expected skip v) ∧
  (∀ p, p ∈ (check_visit root expected skip (seen, r) v).1 ↔ p ∈ seen ∨ ticked expected v p).
Proof.
  intros Hidx. destruct v as [rel|rel e|rel mode info content]; cbn [check_visit visit_ok ticked].
  - split; [naive_solver|]. intros p. naive_solver.
  - split; [cbn [snd]; rewrite add_problem_some; tauto|]. intros p. simpl. naive_solver.
  - unfold own_name. destruct (streq mode "") eqn:Em; cbn [negb].
    2: { apply streq_false_iff in Em. change (bytes_of "") with (@nil ascii) in Em.
         split; [cbn [snd]; rewrite add_problem_some; tauto|]. intros p. simpl. tauto. }
    apply streq_true in Em. change (bytes_of "") with (@nil ascii) in Em.
    destruct (streq rel Manifest.FileName || streq rel SigFileName) eqn:Eo.
    { apply orb_true_iff in Eo. rewrite !streq_true in Eo. split; [tauto|]. intros p. simpl. tauto. }
    apply orb_false_iff in Eo. rewrite !streq_false_iff in Eo.
    destruct (expected !! rel) as [f|] eqn:Ef.
    2: { split; [cbn [snd]; rewrite add_problem_some; naive_solver|]. intros p. simpl. split; [auto|].
         intros [?|(_ & _ & _ & [? ?])]; [done|congruence]. }
    assert (∀ p, p ∈ {[rel]} ∪ seen ↔ p ∈ seen ∨ (rel = p ∧ mode = [] ∧ ¬ (rel = Manifest.FileName ∨ rel = SigFileName) ∧ is_Some (Some f))) as Hseen.
    { intros p. rewrite elem_of_union, elem_of_singleton. split; [|naive_solver].
      intros [->|?]; [right; split_and!; [done|done|tauto|eauto]|auto]. }
    pose proof (Hidx _ _ Ef) as Hp. subst rel. unfold file_matches.
    assert ((mode = [] ∧ ((f_Path f = Manifest.FileName ∨ f_Path f = SigFileName) ∨
      (∃ f0, Some f = Some f0 ∧ (if skip && isPoolFile (f_Path f0) then info = Ok (f_Size f0)
         else ∃ b, content = Ok b ∧ f_Size f0 = Z.of_nat (length b) ∧ Equal (Bytes b) (f_SHA256 f0) = true)))) ↔
      (if skip && isPoolFile (f_Path f) then info = Ok (f_Size f)
         else ∃ b, content = Ok b ∧ f_Size f = Z.of_nat (length b) ∧ Equal (Bytes b) (f_SHA256 f) = true)) as ->.
    { split; [|naive_solver]. intros (_ & [?|(f0 & [= <-] & ?)]); [tauto|done]. }
    destruct (skip && isPoolFile (f_Path f)).
    + destruct info as [size|e]; [|split; [cbn [snd]; rewrite add_problem_some; naive_solver|exact Hseen]].
      split; [|exact Hseen]. cbn [snd]. destruct (Z.eqb_spec size (f_Size f)) as [->|Hne]; cbn [negb].
      * simpl. tauto.
      * rewrite add_problem_some. naive_solver.
    + destruct content as [b|e]; cbn [SHA256File].
      2: { split; [cbn [snd]; rewrite add_problem_some; naive_solver|exact Hseen]. }
      split; [|exact Hseen]. cbn [snd].
      destruct (Z.eqb_spec (Z.of_nat (length b)) (f_Size f)) as [E|Hne]; cbn [negb].
      * destruct (Equal (Bytes b) (f_SHA256 f)) eqn:Eq; cbn [negb].
        -- simpl. split; [intros ?; split; [done|]; by exists b|tauto].
        -- rewrite add_problem_some. split; [done|]. intros (_ & b' & [= <-] & _ & ?). congruence.
      * rewrite add_problem_some. split; [done|]. intros (_ & b' & [= <-] & ? & _). congruence.
Qed.

Lemma check_visits root expected skip vs : ∀ seen r,
  indexed expected →
  let st := fold_left (check_visit root expected skip) vs (seen, r) in
  (rp_Problems st.2 = [] ↔ rp_Problems r = [] ∧ Forall (visit_ok expected skip) vs) ∧
  (∀ p, p ∈ st.1 ↔ p ∈ seen ∨ ∃ v, v ∈ vs ∧ ticked expected v p).
Proof.
  induction vs as [|v vs IH]; intros seen r Hidx; cbn [fold_left].
  - split; [split; [intros ?; split; [done|constructor]|tauto]|]. intros p. split; [auto|].
    intros [?|(v & Hv & _)]; [done|by apply elem_of_nil in Hv].
  - destruct (check_visit root expected skip (seen, r) v) as [seen' r'] eqn:E.
    destruct (check_visit_step root expected skip seen r v Hidx) as [H1 H2]. rewrite E in H1, H2. simpl in H1, H2.
    destruct (IH seen' r' Hidx) as [H3 H4]. split.
    + rewrite H3, H1, Forall_cons. tauto.
    + intros p. rewrite H4, H2. split.
      * intros [[?|?]|(w & Hw & ?)]; [auto|right; exists v; split; [by left|done]|right; exists w; split; [by right|done]].
      * intros [?|(w & [->|Hw]%elem_of_cons & ?)]; [auto|auto|right; eauto].
Qed.

(** [checkFiles] is silent exactly when every file of the tree is acceptable and
    every indexed path was met. *)
Lemma checkFiles_silent rootPath root expected skip r :
  indexed expected →
  rp_Problems (checkFiles rootPath root expected skip r) = [] ↔
  rp_Problems r = [] ∧ Forall (visit_ok expected skip) (walk [] root) ∧
  (∀ p, is_Some (expected !! p) → ∃ v, v ∈ walk [] root ∧ ticked expected v p).
Proof.
  intros Hidx. unfold checkFiles.
  destruct (check_visits rootPath expected skip (walk [] root) ∅ r Hidx) as [H1 H2].
  destruct (fold_left _ (walk [] root) (∅, r)) as [seen r']. simpl in H1, H2.
  rewrite (fold_problems _ (λ _, False)) by (intros; rewrite add_problem_some; tauto).
  rewrite H1.
  enough (Forall (λ _ : gostring, False) (missing_files expected seen) ↔
    ∀ p, is_Some (expected !! p) → ∃ v, v ∈ walk [] root ∧ ticked expected v p) by tauto.
  assert (Forall (λ _ : gostring, False) (missing_files expected seen) ↔ missing_files expected seen = []) as ->.
  { destruct (missing_files expected seen); [split; [done|constructor]|].
    rewrite Forall_cons. split; [tauto|done]. }
  assert (∀ p, p ∈ missing_files expected seen ↔ is_Some (expected !! p) ∧ p ∉ seen) as Hmiss.
  { intros p. unfold missing_files. rewrite elem_of_sort_strings, list_elem_of_In, filter_In, <- list_elem_of_In.
    rewrite negb_true_iff, bool_decide_eq_false. apply and_iff_compat_r. rewrite list_elem_of_fmap. split.
    - intros ([k f] & -> & Hkf%elem_of_map_to_list). eauto.
    - intros [f Hf]. exists (p, f). split; [done|]. by apply elem_of_map_to_list. }
  split.
  - intros Hm p Hp. destruct (decide (p ∈ seen)) as [Hs|Hs].
    + apply H2 in Hs as [Hs|?]; [by apply elem_of_empty in Hs|done].
    + assert (p ∈ missing_files expected seen) as Hin by (by apply Hmiss). rewrite Hm in Hin. by apply elem_of_nil in Hin.
  - intros Hall. apply elem_of_nil_inv. intros p [Hp Hs]%Hmiss. apply Hs, H2. right. by apply Hall.
Qed.

(** ** The index *)

Lemma index_loop_spec files : ∀ expected dups,
  NoDup (map f_Path files) → (∀ f, f ∈ files → expected !! f_Path f = None) →
  (index_loop files expected dups).2 = dups ∧
  ∀ p f, (index_loop files expected dups).1 !! p = Some f ↔ expected !! p = Some f ∨ (f ∈ files ∧ f_Path f = p).
Proof.
  induction files as [|f files IH]; intros expected dups; cbn [index_loop map].
  - intros _ _. split; [done|]. intros p g. split; [auto|]. intros [?|[H1 _]]; [done|by apply elem_of_nil in H1].
  - intros [Hf Hnd]%NoDup_cons Hnew. rewrite (Hnew f) by (by left).
    destruct (IH (<[f_Path f := f]> expected) dups Hnd) as [H1 H2].
    { intros g Hg. rewrite lookup_insert_ne; [apply Hnew; by right|].
      intros E. apply Hf. rewrite E. by apply list_elem_of_fmap_2. }
    split; [done|]. intros p g. rewrite H2, elem_of_cons. destruct (decide (f_Path f = p)) as [<-|Hne].
    + rewrite lookup_insert_eq, (Hnew f) by (by left). split.
      * intros [[= ->]|[? ?]]; auto.
      * intros [?|[[->|?] ?]]; auto; done.
    + rewrite lookup_insert_ne by done. split.
      * intros [?|[? ?]]; auto.
      * intros [?|[[->|?] ?]]; auto; done.
Qed.

Lemma indexFiles_spec files expected dups :
  NoDup (map f_Path files) → indexFiles files = (expected, dups) →
  dups = [] ∧ indexed expected ∧ ∀ p f, expected !! p = Some f ↔ f ∈ files ∧ f_Path f = p.
Proof.
  intros Hnd. unfold indexFiles.
  destruct (index_loop_spec files ∅ [] Hnd) as [H1 H2]; [intros; apply lookup_empty|].
  destruct (index_loop files ∅ []) as [e d]. simpl in H1, H2. intros [= <- <-]. subst d.
  assert (∀ p f, e !! p = Some f ↔ f ∈ files ∧ f_Path f = p) as H3.
  { intros p f. rewrite H2, lookup_empty. naive_solver. }
  split_and!; [done| |done]. intros p f Hpf. by apply H3 in Hpf as [_ ?].
Qed.

(** ** The other checks *)

Definition repo_digest_ok (expected : gmap gostring File) (c : gostring * gostring) : Prop :=
  c.2 = [] ∨ ∃ f, expected !! c.1 = Some f ∧ Equal (f_SHA256 f) c.2 = true.

Lemma checkRepository_silent m expected r :
  rp_Problems (checkRepository m expected r) = [] ↔
  rp_Problems r = [] ∧ Forall (repo_digest_ok expected) (repo_digests m).
Proof.
  apply fold_problems. intros r0 [p want] _. unfold check_repo_digest, repo_digest_ok. cbn [fst snd].
  destruct (streq want "") eqn:E; [apply streq_true in E; tauto|]. apply streq_false_iff in E.
  change (bytes_of "") with (@nil ascii) in E.
  destruct (expected !! p) as [f|]; [|rewrite add_problem_some; naive_solver].
  destruct (Equal (f_SHA256 f) want) eqn:Eq; cbn [negb].
  2: { rewrite add_problem_some. split; [done|]. intros (_ & [?|(f0 & [= <-] & ?)]); congruence. }
  split; [|tauto]. intros ?. split; [done|]. right. eauto.
Qed.

Definition digest_ok (want : gostring) (got : option gostring) : Prop := ∃ d, got = Some d ∧ Equal d want = true.
Lemma check_digest_silent k name want got r :
  rp_Problems (check_digest k name want got r) = [] ↔ rp_Problems r = [] ∧ digest_ok want got.
Proof.
  unfold check_digest, digest_ok. destruct got as [d|]; [|rewrite add_problem_some; naive_solver].
  destruct (Equal d want) eqn:E; cbn [negb].
  - split; [|by intros [? _]]. intros ?. split; [done|]. by exists d.
  - rewrite add_problem_some. split; [done|]. intros (_ & d0 & [= <-] & ?). congruence.
Qed.

Definition lock_package_ok (expected : gmap gostring File) (p : Package) : Prop :=
  ∃ f, expected !! (lockRepoPrefix ++ p_Filename p) = Some f ∧ Equal (f_SHA256 f) (p_SHA256 p) = true ∧ f_Size f = p_Size p.
Lemma checkLockPackages_silent root expected r :
  rp_Problems (checkLockPackages root expected r) = [] ↔
  rp_Problems r = [] ∧ ∃ l, lock_load root = Ok l ∧ Forall (lock_package_ok expected) (l_Packages l).
Proof.
  unfold checkLockPackages. destruct (lock_load root) as [l|e]; [|rewrite add_problem_some; naive_solver].
  rewrite (fold_problems _ (lock_package_ok expected)); [naive_solver|].
  intros r0 p _. unfold check_lock_package, lock_package_ok.
  destruct (expected !! _) as [f|]; [|rewrite add_problem_some; naive_solver].
  destruct (Equal (f_SHA256 f) (p_SHA256 p)) eqn:E; cbn [negb].
  2: { rewrite add_problem_some. split; [done|]. intros (_ & f0 & [= <-] & ? & _). congruence. }
  destruct (Z.eqb_spec (f_Size f) (p_Size p)); cbn [negb].
  - split; [|by intros [? _]]. intros ?. split; [done|]. by exists f.
  - rewrite add_problem_some. split; [done|]. intros (_ & f0 & [= <-] & _ & ?). congruence.
Qed.

(** ** Signatures *)

Lemma blocks_loop_spec v opts canon blocks : ∀ valid dg r valid' invalid dg' r',
  blocks_loop v opts canon blocks valid dg r = Ok (valid', invalid, dg', r') →
  rp_Problems r' = rp_Problems r ∧
  (valid' = true → valid = true ∨ ∃ b, b ∈ blocks ∧ Verify v SignPurpose canon b = Accepted) ∧
  (invalid = true ↔ ∃ l1 b l2 detail, blocks = l1 ++ b :: l2 ∧ Verify v SignPurpose canon b = BadSignature detail ∧
     Forall (λ b, Verify v SignPurpose canon b = Accepted ∨ Verify v SignPurpose canon b = UntrustedKey) l1).
Proof.
  induction blocks as [|b blocks IH]; intros valid dg r valid' invalid dg' r'; cbn [blocks_loop].
  - intros [= <- <- _ <-]. split_and!; [done|auto|]. split; [done|]. by intros ([|] & ? & ? & ? & ? & _).
  - destruct (Verify v SignPurpose canon b) eqn:Ev; [..|done].
    + intros Hl. destruct (IH _ _ _ _ _ _ _ Hl) as (H1 & H2 & H3). split_and!; [by rewrite H1| |].
      * intros Hv. right. destruct (H2 Hv) as [_|(b' & ? & ?)]; [exists b; split; [by left|done]|exists b'; split; [by right|done]].
      * rewrite H3. split.
        -- intros (l1 & b' & l2 & dt & -> & ? & ?). exists (b :: l1), b', l2, dt. split_and!; [done|done|constructor; auto].
        -- intros ([|c l1] & b' & l2 & dt & E & ? & Hf); simplify_eq/=; [congruence|].
           apply Forall_cons in Hf as [_ Hf]. eauto 10.
    + intros Hl. destruct (IH _ _ _ _ _ _ _ Hl) as (H1 & H2 & H3). split_and!; [by rewrite H1| |].
      * intros Hv. destruct (H2 Hv) as [?|(b' & ? & ?)]; [auto|right; exists b'; split; [by right|done]].
      * rewrite H3. split.
        -- intros (l1 & b' & l2 & dt & -> & ? & ?). exists (b :: l1), b', l2, dt. split_and!; [done|done|constructor; auto].
        -- intros ([|c l1] & b' & l2 & dt & E & ? & Hf); simplify_eq/=; [congruence|].
           apply Forall_cons in Hf as [_ Hf]. eauto 10.
    + intros [= <- <- _ <-]. split_and!; [done|auto|]. split; [|done]. intros _.
      exists [], b, blocks, detail. split_and!; [done|done|constructor].
Qed.

(** What lets the verification go on. *)
Definition signature_ok (verifier : result verifier_error compositeVerifier) (opts : Options)
    (sigFile : option SignatureFile) (canon : gostring) : Prop :=
  let blocks := default [] (sf_Signatures <$> sigFile) in
  (blocks = [] ∧ o_AllowUnsigned opts = true) ∨
  (blocks ≠ [] ∧ (length blocks ≤ maxSignatureBlocks)%nat ∧ ∃ v, verifier = Ok v ∧
    (¬ ∃ l1 b l2 detail, blocks = l1 ++ b :: l2 ∧ Verify v SignPurpose canon b = BadSignature detail ∧
       Forall (λ b, Verify v SignPurpose canon b = Accepted ∨ Verify v SignPurpose canon b = UntrustedKey) l1) ∧
    (o_AllowUnsigned opts = true ∨ ∃ b, b ∈ blocks ∧ Verify v SignPurpose canon b = Accepted)).

Lemma checkSignatures_go verifier opts sigFile canon r r' :
  checkSignatures verifier opts sigFile canon r = Ok (false, r') →
  rp_Problems r' = rp_Problems r ∧ signature_ok verifier opts sigFile canon ∧
  (rp_Signed r' = true → ∃ v b, verifier = Ok v ∧ b ∈ default [] (sf_Signatures <$> sigFile) ∧
     Verify v SignPurpose canon b = Accepted).
Proof.
  unfold checkSignatures, signature_ok. destruct (default [] (sf_Signatures <$> sigFile)) as [|b0 bs] eqn:Eb.
  - destruct (o_AllowUnsigned opts); [|done]. intros [= <-]. split_and!; [done|auto|done].
  - destruct (Nat.ltb_spec maxSignatureBlocks (length (b0 :: bs))); [done|].
    destruct verifier as [v|[|e]]; [|done|done].
    destruct (blocks_loop v opts canon (b0 :: bs) false false r) as [[[[valid invalid] dg] r1]|] eqn:El; [|done].
    apply blocks_loop_spec in El as (H1 & H2 & H3). cbn [mbind result_bind].
    destruct invalid; [done|]. assert (¬ false = true) as Hinv by done. rewrite H3 in Hinv.
    assert (rp_Problems (if dg then add_warning WarnDefaultKeyring r1 else r1) = rp_Problems r) as Hp by (by destruct dg).
    destruct valid.
    + intros [= <-]. destruct (H2 eq_refl) as [?|(b & Hb & Hv)]; [done|].
      split_and!; [done| |by intros _; exists v, b]. right. split_and!; [done|done|]. exists v. eauto 10.
    + destruct (o_AllowUnsigned opts); [|done]. intros [= <-]. split_and!; [done| |done].
      right. split_and!; [done|done|]. exists v. auto.
Qed.

(** ** The verdict *)

Lemma Load_files_wf file m canon : Manifest.Load file = Ok (m, canon) → files_wf (m_Files m).
Proof.
  unfold Manifest.Load. destruct (readBounded file) as [raw|]; [|done]. cbn [mbind result_bind].
  destruct (json_parse raw) as [doc|]; [|done]. destruct (top_keys doc) as [top|]; [|done].
  destruct (into_Manifest doc zero_Manifest) as [m'|]; [|done].
  destruct (negb _); [done|]. destruct (negb _); [done|].
  destruct (checkDocument m' top) eqn:E; [done|]. apply checkDocument_None in E as [_ E].
  destruct (Transform raw); [|done]. by intros [= <- _].
Qed.

Lemma checks_signed rootPath root m expected skip r :
  rp_Signed (checkLockPackages root expected (checkLockAndSnapshot root m (checkRepository m expected
    (checkFiles rootPath root expected skip r)))) = rp_Signed r.
Proof.
  assert (∀ {A} (f : Report → A → Report) l r, (∀ r x, rp_Signed (f r x) = rp_Signed r) →
    rp_Signed (fold_left f l r) = rp_Signed r) as Hfold.
  { intros A f l. induction l as [|x l IH]; intros r0 Hf; [done|]. cbn [fold_left]. by rewrite IH, Hf. }
  assert (∀ k n w g r, rp_Signed (check_digest k n w g r) = rp_Signed r) as Hcd.
  { intros. unfold check_digest. by repeat case_match. }
  unfold checkLockPackages. destruct (lock_load root); [rewrite Hfold|rewrite add_problem_signed].
  2: { intros r0 p. unfold check_lock_package. by repeat case_match. }
  all: unfold checkLockAndSnapshot; destruct (negb _); rewrite ?Hcd; unfold checkRepository; rewrite Hfold
    by (intros r0 [p w]; unfold check_repo_digest; by repeat case_match).
  all: unfold checkFiles; destruct (fold_left _ (walk [] root) (∅, r)) as [seen r'] eqn:E; rewrite Hfold by done.
  all: assert (∀ vs st, rp_Signed (fold_left (check_visit rootPath expected skip) vs st).2 = rp_Signed st.2) as Hv
    by (intros vs; induction vs as [|v vs IH]; intros st; [done|]; cbn [fold_left]; rewrite IH;
        destruct st as [sn r0]; unfold check_visit; by repeat case_match).
  all: change r' with (seen, r').2; rewrite <- E; by rewrite Hv.
Qed.

Lemma blocks_loop_OK v opts canon blocks : ∀ valid dg r v1 i d r',
  blocks_loop v opts canon blocks valid dg r = Ok (v1, i, d, r') → rp_OK r' = rp_OK r.
Proof.
  induction blocks as [|c blocks IH]; intros valid dg r v1 i d r'; cbn [blocks_loop]; [by intros [= _ _ _ <-]|].
  destruct (Verify _ _ _ c); [..|done].
  - intros Hx. by apply IH in Hx.
  - intros Hx. by apply IH in Hx.
  - by intros [= _ _ _ <-].
Qed.
Lemma checkSignatures_OK verifier opts sigFile canon r stop r' :
  checkSignatures verifier opts sigFile canon r = Ok (stop, r') → rp_OK r' = rp_OK r.
Proof.
  unfold checkSignatures. destruct (default [] (sf_Signatures <$> sigFile)) as [|b bs].
  - destruct (o_AllowUnsigned opts); by intros [= _ <-].
  - destruct (_ <? _)%nat; [by intros [= _ <-]|]. destruct verifier as [v|[|e]]; [|by intros [= _ <-]|done].
    destruct (blocks_loop _ _ _ _ _ _ _) as [[[[valid invalid] dg] r1]|] eqn:Eb; [|done]. cbn [mbind result_bind].
    apply blocks_loop_OK in Eb.
    destruct invalid, valid, (o_AllowUnsigned opts), dg; intros [= _ <-]; exact Eb.
Qed.

Lemma runVerify_OK rootPath root opts verifier rep :
  runVerify rootPath (Some root) opts verifier = Ok rep → rp_OK rep = true →
  ∃ m canon sigFile r expected,
    Manifest.Load (open_file root Manifest.FileName) = Ok (m, canon) ∧
    LoadSignature (open_file root SigFileName) = Ok sigFile ∧
    (∀ sf, sigFile = Some sf → Equal (sf_ManifestSHA256 sf) (DigestBytes canon) = true) ∧
    checkSignatures verifier opts sigFile canon (set_manifest m empty_report) = Ok (false, r) ∧
    indexFiles (m_Files m) = (expected, []) ∧ rp_Signed rep = rp_Signed r ∧
    rp_Problems (checkLockPackages root expected (checkLockAndSnapshot root m (checkRepository m expected
      (checkFiles rootPath root expected (o_SkipFileDigests opts) r)))) = [].
Proof.
  unfold runVerify. destruct root as [|fail entries]; [done|]. set (root := FDir fail entries).
  destruct (negb _); [done|].
  destruct (Manifest.Load _) as [[m canon]|[]] eqn:El; try (by intros [= <-]).
  destruct (LoadSignature _) as [sigFile|] eqn:Es; [|by intros [= <-]].
  destruct (if sigFile is Some sf then negb (Equal (sf_ManifestSHA256 sf) (DigestBytes canon)) else false) eqn:Ed;
    [by intros [= <-]|].
  destruct (checkSignatures _ _ _ _ _) as [[stop r]|] eqn:Ec; [|done]. cbn [mbind result_bind].
  destruct stop.
  { intros [= <-] Hok. by rewrite (checkSignatures_OK _ _ _ _ _ _ _ Ec) in Hok. }
  destruct (indexFiles (m_Files m)) as [expected dups] eqn:Ei.
  assert (NoDup (map f_Path (m_Files m))) as Hnd by (by apply Load_files_wf in El as [_ ?]).
  destruct (indexFiles_spec _ _ _ Hnd Ei) as (-> & _). cbn [fold_left].
  intros [= <-] Hok. cbn [rp_OK set_ok] in Hok. bsplit.
  exists m, canon, sigFile, r, expected. split_and!; try done.
  - intros sf ->. by apply negb_false_iff in Ed.
  - cbn [rp_Signed set_ok]. apply checks_signed.
Qed.

(** The file check of a listed file, in terms of its bytes. *)
Lemma file_matches_bytes f info content :
  file_wf f → file_matches false f info content → ∃ b, content = Ok b ∧ f = file_of (f_Path f) b.
Proof.
  intros (_ & _ & Hv) (b & -> & Hsz & Heq). exists b. split; [done|].
  apply Equal_valid in Heq; [|apply Bytes_hex|by apply Valid_spec in Hv as [_ ?]].
  destruct f as [p sz sha]; simpl in *. by subst.
Qed.

(** What a report of OK establishes; the theorem below states it. *)
Lemma OK_facts (rootPath : gostring) (fail : option gostring) (entries : list (gostring * fsnode))
    (opts : Options) (verifier : result verifier_error compositeVerifier) (rep : Report) :
  let root := FDir fail entries in
  fs_wf root → o_SkipFileDigests opts = false →
  runVerify rootPath (Some root) opts verifier = Ok rep → rp_OK rep = true →
  ∃ m canon sigFile,
    Manifest.Load (open_file root Manifest.FileName) = Ok (m, canon) ∧
    LoadSignature (open_file root SigFileName) = Ok sigFile ∧
    (∀ sf, sigFile = Some sf → map lower_byte (sf_ManifestSHA256 sf) = DigestBytes canon) ∧
    (∀ path mode info content, VFile path mode info content ∈ walk [] root → mode = []) ∧
    (∀ path content, read_file root path = Some content → ¬ own_name path →
       ∃ b, content = Ok b ∧ file_of path b ∈ m_Files m) ∧
    (∀ f, f ∈ m_Files m → ∃ b, read_file root (f_Path f) = Some (Ok b) ∧ f = file_of (f_Path f) b) ∧
    (∃ l, lock_load root = Ok l ∧ ∀ p, p ∈ l_Packages l →
       ∃ f, f ∈ m_Files m ∧ f_Path f = lockRepoPrefix ++ p_Filename p ∧
         Equal (f_SHA256 f) (p_SHA256 p) = true ∧ f_Size f = p_Size p).
Proof.
  intros root Hwf Hskip Hrun Hok.
  destruct (runVerify_OK _ _ _ _ _ Hrun Hok) as (m & canon & sigFile & r & expected & Hl & Hs & Hd & Hc & Hi & _ & Hp).
  pose proof (Load_files_wf _ _ _ Hl) as [Hfw Hnd]. rewrite Forall_forall in Hfw.
  destruct (indexFiles_spec _ _ _ Hnd Hi) as (_ & Hidx & Hexp).
  apply checkLockPackages_silent in Hp as [Hp (l & Hload & Hlp)].
  assert (rp_Problems (checkRepository m expected (checkFiles rootPath root expected (o_SkipFileDigests opts) r)) = []) as Hp'.
  { unfold checkLockAndSnapshot in Hp. destruct (negb _); [by apply check_digest_silent in Hp as [? _]|].
    apply check_digest_silent in Hp as [Hp _]. by apply check_digest_silent in Hp as [? _]. }
  apply checkRepository_silent in Hp' as [Hp' _]. apply checkFiles_silent in Hp' as (_ & Hv & Ht); [|done].
  rewrite Hskip in Hv. rewrite Forall_forall in Hv.
  exists m, canon, sigFile. split_and!; try done.
  - intros sf Hsf. apply Hd in Hsf. unfold DigestBytes in *.
    apply equal_fold_hex in Hsf; [|apply hex_lower_hex, hex_encode_ok].
    by rewrite (hex_lower_fixed _ (hex_encode_ok _)) in Hsf.
  - intros path mode info content Hin. by apply Hv in Hin as [? _].
  - intros path content Hr Hn. apply walk_read_file in Hr as (mode & info & Hin); [|done].
    apply Hv in Hin as [_ [?|(f & Hf & Hm)]]; [done|]. apply Hexp in Hf as [Hf <-].
    destruct (file_matches_bytes f info content (Hfw _ Hf) Hm) as (b & -> & E). exists b. split; [done|]. by rewrite <- E.
  - intros f Hf. destruct (Ht (f_Path f)) as (v & Hin & Htk); [exists f; by apply Hexp|].
    destruct v as [| |rel mode info content]; [done|done|]. destruct Htk as (-> & _ & Hn & _).
    pose proof Hin as Hin'. apply Hv in Hin' as [_ [?|(f' & Hf' & Hm)]]; [done|].
    apply Hexp in Hf' as [Hf' E]. assert (f' = f) as -> by (by apply (NoDup_map_inj f_Path (m_Files m))).
    destruct (file_matches_bytes f info content (Hfw _ Hf) Hm) as (b & -> & E'). exists b. split; [|done].
    apply walk_read_file; eauto.
  - exists l. split; [done|]. rewrite Forall_forall in Hlp. intros p Hpin. apply Hlp in Hpin as (f & Hf & ? & ?).
    apply Hexp in Hf as [? ?]. eauto.
Qed.

(** (C2) A report that says OK, without the digest-skipping option, means the
    bundle is what its manifest says: the manifest loads and the signature
    file, if any, names its canonical digest; the tree holds regular files only
    and, apart from the manifest and its signature, exactly the files listed,
    byte for byte by SHA-256; and every package of the lock is a listed file of
    the lock's size and digest. *)
Theorem OK_sound (rootPath : gostring) (fail : option gostring) (entries : list (gostring * fsnode))
    (opts : Options) (verifier : result verifier_error compositeVerifier) (rep : Report) :
  let root := FDir fail entries in
  fs_wf root → o_SkipFileDigests opts = false →
  runVerify rootPath (Some root) opts verifier = Ok rep → rp_OK rep = true →
  ∃ m canon sigFile,
    Manifest.Load (open_file root Manifest.FileName) = Ok (m, canon) ∧
    LoadSignature (open_file root SigFileName) = Ok sigFile ∧
    (∀ sf, sigFile = Some sf → map lower_byte (sf_ManifestSHA256 sf) = DigestBytes canon) ∧
    (∀ path mode info content, VFile path mode info content ∈ walk [] root → mode = []) ∧
    (∀ path content, read_file root path = Some content → ¬ own_name path →
       ∃ b, content = Ok b ∧ file_of path b ∈ m_Files m) ∧
    (∀ f, f ∈ m_Files m → ∃ b, read_file root (f_Path f) = Some (Ok b) ∧ f = file_of (f_Path f) b) ∧
    (∃ l, lock_load root = Ok l ∧ ∀ p, p ∈ l_Packages l →
       ∃ f, f ∈ m_Files m ∧ f_Path f = lockRepoPrefix ++ p_Filename p ∧
         Equal (f_SHA256 f) (p_SHA256 p) = true ∧ f_Size f = p_Size p).
Proof. apply OK_facts. Qed.

(** (C3) A report that says OK went past the signatures only in one of two ways:
    with no block at all and AllowUnsigned, or with at most 32 blocks of which
    none is a bad signature by a trusted key before the loop ends and either one
    is accepted or AllowUnsigned was given; and Signed is only ever set when a
    block verified for this manifest's canonical bytes. *)
Theorem OK_signed (rootPath : gostring) (root : fsnode) (opts : Options)
    (verifier : result verifier_error compositeVerifier) (rep : Report) :
  runVerify rootPath (Some root) opts verifier = Ok rep → rp_OK rep = true →
  ∃ m canon sigFile,
    Manifest.Load (open_file root Manifest.FileName) = Ok (m, canon) ∧
    LoadSignature (open_file root SigFileName) = Ok sigFile ∧
    signature_ok verifier opts sigFile canon ∧
    (rp_Signed rep = true → ∃ v b, verifier = Ok v ∧ b ∈ default [] (sf_Signatures <$> sigFile) ∧
       Verify v SignPurpose canon b = Accepted) ∧
    (o_AllowUnsigned opts = false → ∃ v b, verifier = Ok v ∧ b ∈ default [] (sf_Signatures <$> sigFile) ∧
       Verify v SignPurpose canon b = Accepted).
Proof.
  intros Hrun Hok.
  destruct (runVerify_OK _ _ _ _ _ Hrun Hok) as (m & canon & sigFile & r & expected & Hl & Hs & _ & Hc & _ & Hsg & _).
  destruct (checkSignatures_go _ _ _ _ _ _ Hc) as (_ & Hso & Hsigned).
  exists m, canon, sigFile. split_and!; try done.
  - rewrite Hsg. exact Hsigned.
  - intros Ha. destruct Hso as [[_ ?]|(_ & _ & v & -> & _ & [?|(b & ? & ?)])]; [congruence|congruence|eauto].
Qed.

(** (C17) Nothing is wrong with an honest bundle: over the tree a manifest was
    built from, all regular files, the file check adds no problem, whether or
    not the manifest and signature files have been added since. *)
Theorem Build_checkFiles (inp : BuildInput) (rootPath : gostring) (fail : option gostring)
    (entries : list (gostring * fsnode)) (m : Manifest) (expected : gmap gostring File) (dups : list gostring) (r : Report) :
  let root := FDir fail entries in
  fs_wf root → (∀ path mode info content, VFile path mode info content ∈ walk [] root → mode = []) →
  Build inp (Some root) = Ok m → indexFiles (m_Files m) = (expected, dups) →
  dups = [] ∧ (rp_Problems (checkFiles rootPath root expected false r) = [] ↔ rp_Problems r = []).
Proof.
  intros root Hwf Hreg HB Hi. pose proof (Build_files_wf _ _ _ _ Hwf HB) as [Hfw Hnd].
  destruct (indexFiles_spec _ _ _ Hnd Hi) as (Hd & Hidx & Hexp). split; [done|].
  rewrite checkFiles_silent by done. split; [by intros [? _]|]. intros Hr. split_and!; [done| |].
  - destruct (Build_files _ _ _ HB) as (fail' & es & files & [= <- <-] & Hw & Hm & _).
    destruct (build_walk_Ok _ _ Hw) as (Herr & _ & Hin & H4).
    apply Forall_forall. intros [rel|rel e|rel mode info content] Hv; [done|by apply Herr in Hv|]. split; [by eapply Hreg|].
    destruct (decide (own_name rel)) as [Hn|Hn]; [auto|]. right.
    destruct (H4 _ _ _ _ Hv Hn) as [_ [b ->]]. exists (file_of rel b). split.
    + apply Hexp. split; [|done]. rewrite Hm, elem_of_sort_by. apply Hin. by exists mode, info, b.
    + exists b. split_and!; [done|done|]. apply equal_fold_refl.
  - intros p [f Hf]. apply Hexp in Hf as [Hf <-]. pose proof Hf as Hf'.
    apply (Build_listed _ _ _ _ _ Hwf HB) in Hf as (b & Hrd & Hn & _).
    apply walk_read_file in Hrd as (mode & info & Hin); [|done].
    exists (VFile (f_Path f) mode info (Ok b)). split; [done|].
    split_and!; [done|by eapply Hreg|done|exists f; by apply Hexp].
Qed.
End sound.

(** ** A signed bundle of one package *)

Definition toy_ed : Ed25519 := {|
  ed_verify pub msg sig := streq sig (hex_encode (Sha256.sum (pub ++ msg)));
  ed_sign priv msg := hex_encode (Sha256.sum (priv ++ msg));
  ed_public priv := priv |}.
Definition sample_bytes : gostring := bytes_of "debian bytes".
Definition bundle_lock : Lock :=
  mkLock LockTypes.SchemaVersion [] [] [] (l_Target sample_lock) (l_Resolver sample_lock)
    [mkPackage "curl" "amd64" "1.0-1" [] "pool/curl.deb" 12 (Bytes sample_bytes) (mkOrigin [] [] [] [] [] [])
       ReasonRequested VerifiedAPTSigned [] false]
    [] (l_ClosedWorld sample_lock) [] [] (l_Stats sample_lock).
Definition bundle_saved : gostring * gostring :=
  ok_or ([], []) (@LockDoc.Save LockDoc.sample_jcs true bundle_lock).
Definition payload : list (gostring * fsnode) :=
  [(LockTypes.FileName, FFile [] (Ok (Z.of_nat (length bundle_saved.2))) (Ok bundle_saved.2));
   (bytes_of "repo", FDir None [(bytes_of "pool", FDir None
      [(bytes_of "curl.deb", FFile [] (Ok 12) (Ok sample_bytes))])])].
Definition payload_root : fsnode := FDir None payload.
Definition bundle_input : BuildInput :=
  mkBuildInput "/b" [] (DigestBytes bundle_saved.2) (mkRepository [] [] [] [] [] 1 12) (Manifest.mkTarget [] [] [] [] [])
    (mkTool [] [] [] []) [] [] [].
Definition bundle_manifest : Manifest :=
  ok_or zero_Manifest (@Build Manifest.sample_jcs bundle_input (Some payload_root)).
Definition bundle_text : gostring := ok_or [] (Manifest.Save bundle_manifest).
Definition sample_keys : gmap gostring (gostring * gostring) := {[ bytes_of "ab" := (sample_pub, bytes_of "k.pub") ]}.
Definition sample_signature : Signature := @Sign toy_ed sample_pub "AB" [] SignPurpose bundle_text.
Definition sample_sig_text : gostring :=
  json_marshal (JObj [(bytes_of "schema", JStr SignatureSchemaVersion); (bytes_of "manifest_sha256", JStr (DigestBytes bundle_text));
    (bytes_of "signatures", JArr [JObj [(bytes_of "signer_kind", JStr (sg_SignerKind sample_signature));
      (bytes_of "key_id", JStr (sg_KeyID sample_signature)); (bytes_of "algorithm", JStr (sg_Algorithm sample_signature));
      (bytes_of "signature", JStr (sg_Signature sample_signature))]])]).
Definition bundle_entries : list (gostring * fsnode) :=
  (Manifest.FileName, FFile [] (Ok (Z.of_nat (length bundle_text))) (Ok bundle_text)) ::
  (SigFileName, FFile [] (Ok (Z.of_nat (length sample_sig_text))) (Ok sample_sig_text)) :: payload.
Definition bundle_root : fsnode := FDir None bundle_entries.
Definition sample_verifier : result verifier_error compositeVerifier :=
  Ok (mkVerifier sample_keys (λ _ _ _, UntrustedKey)).
Definition sample_opts : Options := mkOptions [] false false.
Definition sample_report : Report :=
  ok_or empty_report (@runVerify ascii_tables LockDoc.sample_jcs toy_ed "/b" (Some bundle_root) sample_opts sample_verifier).

Ltac wf_leaf := apply (bool_decide_unpack _); vm_compute; exact I.
Ltac wf_dir := constructor; [wf_leaf|wf_leaf|intros ne].
Lemma payload_wf ne : ne ∈ payload → fs_wf ne.2.
Proof.
  unfold payload. rewrite elem_of_cons, list_elem_of_singleton. intros [->| ->]; [constructor|].
  wf_dir. intros ->%list_elem_of_singleton. wf_dir. intros ->%list_elem_of_singleton. constructor.
Qed.
Lemma payload_root_wf : fs_wf payload_root.
Proof. wf_dir. apply payload_wf. Qed.
Lemma bundle_root_wf : fs_wf bundle_root.
Proof.
  wf_dir. unfold bundle_entries. intros [->|[->|Hin]%elem_of_cons]%elem_of_cons; [constructor|constructor|].
  by apply payload_wf.
Qed.

Lemma sample_run :
  @runVerify ascii_tables LockDoc.sample_jcs toy_ed "/b" (Some bundle_root) sample_opts sample_verifier = Ok sample_report ∧
  rp_OK sample_report = true.
Proof.
  assert (match @runVerify ascii_tables LockDoc.sample_jcs toy_ed "/b" (Some bundle_root) sample_opts sample_verifier with
          | Ok r => rp_OK r | Err _ => false end = true) as H by (vm_compute; reflexivity).
  unfold sample_report, ok_or. destruct (runVerify _ _ _ _) as [r|]; [by split|discriminate H].
Qed.

Lemma OK_sound_witness :
  (@runVerify ascii_tables LockDoc.sample_jcs toy_ed "/b" (Some bundle_root) sample_opts sample_verifier = Ok sample_report ∧
   rp_OK sample_report = true) ∧
  ∃ m canon, @Manifest.Load ascii_tables LockDoc.sample_jcs (open_file bundle_root Manifest.FileName) = Ok (m, canon) ∧
    ∀ f, f ∈ m_Files m → ∃ b, read_file bundle_root (f_Path f) = Some (Ok b) ∧ f = file_of (f_Path f) b.
Proof.
  destruct sample_run as [H1 H2].
  split; [exact (conj H1 H2)|].
  destruct (@OK_sound ascii_tables ascii_tables_laws LockDoc.sample_jcs toy_ed "/b" None bundle_entries sample_opts
    sample_verifier sample_report bundle_root_wf eq_refl H1 H2) as (m & canon & sf & Hl & _ & _ & _ & _ & Hf & _).
  exists m, canon. exact (conj Hl Hf).
Defined.

Lemma OK_signed_witness :
  o_AllowUnsigned sample_opts = false ∧ ∃ canon v b, sample_verifier = Ok v ∧
  @Verify ascii_tables toy_ed v SignPurpose canon b = Accepted.
Proof.
  split; [reflexivity|].
  destruct sample_run as [H1 H2].
  destruct (@OK_signed ascii_tables LockDoc.sample_jcs toy_ed "/b" bundle_root sample_opts
    sample_verifier sample_report H1 H2) as (m & canon & sf & _ & _ & _ & _ & Hs).
  destruct (Hs eq_refl) as (v & b & Hv & _ & Ha).
  exists canon, v, b. exact (conj Hv Ha).
Defined.

Lemma Build_checkFiles_witness :
  @Build Manifest.sample_jcs bundle_input (Some payload_root) = Ok bundle_manifest ∧
  rp_Problems (checkFiles "/b" payload_root (fst (indexFiles (m_Files bundle_manifest))) false empty_report) = [].
Proof.
  assert (@Build Manifest.sample_jcs bundle_input (Some payload_root) = Ok bundle_manifest) as H1
    by (vm_compute; reflexivity).
  split; [exact H1|].
  assert (∀ path mode info content, VFile path mode info content ∈ walk [] payload_root → mode = []) as H2.
  { intros path mode info content Hin.
    assert (forallb (λ v, match v with VFile _ mode _ _ => bool_decide (mode = []) | _ => true end) (walk [] payload_root) = true)
      as E by (vm_compute; reflexivity).
    rewrite forallb_forall in E. apply list_elem_of_In in Hin. specialize (E _ Hin).
    exact (bool_decide_eq_true_1 _ E). }
  destruct (indexFiles (m_Files bundle_manifest)) as [expected dups] eqn:E.
  exact (proj2 (proj2 (@Build_checkFiles ascii_tables Manifest.sample_jcs bundle_input "/b" None payload
    bundle_manifest expected dups empty_report payload_root_wf H2 H1 E)) eq_refl).
Defined.
