(* ===== verification/InstallSelect.v ===== *)
(** * core/install: what is selected from the lock, and what apt's simulation says.

    [select.go], [parse.go], [precondition.go], [keepsource.go] and
    [mergeSortedUnique]; the run itself is in InstallRun. A Go map used as a set
    of the strings already appended is the list itself here. [sort.Slice] is
    modelled by a stable sort: its keys are the install entries, which determine
    the package in a validated lock. *)
From S2P Require Export Lock GoPath.
#[local] Open Scope Z_scope.

(** ** select.go *)

Definition archQualifiedEntry (p : Package) : gostring := p_Name p ++ ":" ++ p_Arch p ++ "=" ++ p_Version p.

Definition splitInstallEntry (s : gostring) : option (gostring * gostring * gostring) :=
  match index_byte "=" s with
  | None => None
  | Some eq =>
      if (eq =? 0)%nat || (eq =? length s - 1)%nat then None
      else
        let left := take eq s in
        let version := drop (eq + 1) s in
        match index_byte ":" left with
        | None => None
        | Some colon =>
            if (colon =? 0)%nat || (colon =? length left - 1)%nat then None
            else Some (take colon left, drop (colon + 1) left, version)
        end
  end.

Inductive select_error :=
| MalformedEntry (entry : gostring)
| EntryNotPresent (entry : gostring)
| OnlyMissing (names : list gostring).

Abbreviation selected := (gostring * Package)%type.

Fixpoint collect (lk : Lock) (entries : list gostring) : result select_error (list selected) :=
  match entries with
  | [] => Ok []
  | entry :: rest =>
      match splitInstallEntry entry with
      | None => Err (MalformedEntry entry)
      | Some (name, arch, version) =>
          match Find lk name arch with
          | None => Err (EntryNotPresent entry)
          | Some p =>
              if negb (streq (p_Version p) version) then Err (EntryNotPresent entry)
              else more ← collect lk rest; Ok ((entry, p) :: more)
          end
      end
  end.

Definition wanted_names (only : list gostring) : gset gostring :=
  list_to_set (List.filter (λ n, negb (streq n "")) (map trim_space only)).
Definition only_filter (only : list gostring) (all : list selected) : result select_error (list selected) :=
  let wanted := wanted_names only in
  let filtered := List.filter (λ sp, bool_decide (p_Name sp.2 ∈ wanted)) all in
  let found : gset gostring := list_to_set (map (λ sp, p_Name sp.2) filtered) in
  match List.filter (λ n, negb (bool_decide (n ∈ found))) (elements wanted) with
  | [] => Ok filtered
  | missing => Err (OnlyMissing (sort_strings missing))
  end.
Definition sort_selected : list selected → list selected := sort_by (λ x y, str_leb x.1 y.1).

(** [all] and [only] are the fields [All] and [Only] of [Options]. *)
Definition selectInstallSet (lk : Lock) (all : bool) (only : list gostring)
    : result select_error (list gostring * list Package) :=
  sel ← (if all then Ok (map (λ p, (archQualifiedEntry p, p)) (l_Packages lk)) else collect lk (l_Install lk));
  sel ← (match only with [] => Ok sel | _ => only_filter only sel end);
  let sel := sort_selected sel in
  Ok (map fst sel, map snd sel).

Definition upgrade_key (p : Package) : gostring := p_Name p ++ ":" ++ p_Arch p.
(** The names, the packages and the number of upgrade entries of the lock. *)
Definition selectUpgradeSet (lk : Lock) (baseSelection : list Package) : list gostring * list Package * Z :=
  let already : gset gostring := list_to_set (map upgrade_key baseSelection) in
  let upgrades := List.filter (λ p, streq (p_Reason p) ReasonUpgrade) (l_Packages lk) in
  let sel := sort_selected (map (λ p, (archQualifiedEntry p, p))
    (List.filter (λ p, negb (bool_decide (upgrade_key p ∈ already))) upgrades)) in
  (map fst sel, map snd sel, Z.of_nat (length upgrades)).

(** [runner.go]: the union, sorted; an empty [b] leaves [a] as it is. *)
Fixpoint add_unique (out l : list gostring) : list gostring :=
  match l with
  | [] => out
  | s :: rest => if bool_decide (s ∈ out) then add_unique out rest else add_unique (out ++ [s]) rest
  end.
Definition mergeSortedUnique (a b : list gostring) : list gostring :=
  match b with
  | [] => a
  | _ => sort_strings (add_unique (add_unique [] a) b)
  end.

(** ** parse.go *)

Definition nameVersion (name version : gostring) : gostring :=
  if streq version "" then name else name ++ "=" ++ version.

(** Skip the old version of an upgrade, up to the field that ends in a bracket. *)
Fixpoint skip_bracket (fs : list gostring) : list gostring :=
  match fs with
  | [] => []
  | f :: rest => if has_suffix "]" f then rest else skip_bracket rest
  end.
Definition parseInstLine (line : gostring) : option (gostring * gostring * bool) :=
  let rest := trim_prefix "Inst " line in
  if streq rest line then None
  else match fields rest with
  | name :: f :: fs =>
      let upgrade := has_prefix "[" f in
      match (if upgrade then skip_bracket (f :: fs) else f :: fs) with
      | [] => None
      | v :: _ =>
          let version := trim_prefix "(" v in
          if streq version "" then None else Some (name, version, upgrade)
      end
  | _ => None
  end.
Definition parseRemvLine (line : gostring) : option (gostring * gostring) :=
  let rest := trim_prefix "Remv " line in
  if streq rest line then None
  else match fields rest with
  | [] => None
  | name :: fs =>
      Some (name, match fs with [] => [] | v :: _ => trim_suffix "]" (trim_prefix "[" v) end)
  end.

Definition maxUnmetDetailLines : Z := 20.
Definition isUnmetHeaderLine (line : gostring) : bool :=
  has_prefix "The following packages have unmet dependencies" line.
Definition isUnmetDetailLine (raw : gostring) : bool :=
  if streq (trim_space raw) "" then false else has_prefix " " raw || has_prefix [chr 9] raw.

Record sim := mkSim {
  sm_install : list gostring; sm_upgrade : list gostring; sm_remove : list gostring; sm_problems : list gostring;
  sm_inUnmet : bool; sm_kept : Z
}.
Definition add_once (s : gostring) (l : list gostring) : list gostring := if bool_decide (s ∈ l) then l else l ++ [s].
Definition add_problem_line (line : gostring) (st : sim) : sim :=
  mkSim (sm_install st) (sm_upgrade st) (sm_remove st) (sm_problems st ++ [line]) (sm_inUnmet st) (sm_kept st).
Definition set_unmet (b : bool) (st : sim) : sim :=
  mkSim (sm_install st) (sm_upgrade st) (sm_remove st) (sm_problems st) b (sm_kept st).
Definition set_kept (n : Z) (st : sim) : sim :=
  mkSim (sm_install st) (sm_upgrade st) (sm_remove st) (sm_problems st) (sm_inUnmet st) n.

(** The second switch: the line outside an unmet-dependency block. *)
Definition sim_plain (line : gostring) (st : sim) : sim :=
  if has_prefix "Inst " line then
    match parseInstLine line with
    | None => st
    | Some (name, version, upgrade) =>
        let nv := nameVersion name version in
        if upgrade
        then mkSim (sm_install st) (add_once nv (sm_upgrade st)) (sm_remove st) (sm_problems st) (sm_inUnmet st) (sm_kept st)
        else mkSim (add_once nv (sm_install st)) (sm_upgrade st) (sm_remove st) (sm_problems st) (sm_inUnmet st) (sm_kept st)
    end
  else if has_prefix "Remv " line then
    match parseRemvLine line with
    | None => st
    | Some (name, version) =>
        mkSim (sm_install st) (sm_upgrade st) (add_once (nameVersion name version) (sm_remove st)) (sm_problems st)
          (sm_inUnmet st) (sm_kept st)
    end
  else if has_prefix "Conf " line then st
  else if isUnmetHeaderLine line then set_kept 0 (set_unmet true (add_problem_line line st))
  else if has_prefix "E: " line || contains_str "Unable to correct problems" line || contains_str "unmet dependencies" line
  then add_problem_line line st
  else st.

Definition omitted_line : gostring := "... (further unmet dependency lines omitted; see the captured apt output)".
Definition sim_line (st : sim) (text : gostring) : sim :=
  let raw := trim_right [chr 13] text in
  let line := trim_space raw in
  if sm_inUnmet st then
    if streq line "" || has_prefix "E:" line then sim_plain line (set_unmet false st)
    else if isUnmetDetailLine raw then
      if sm_kept st <? maxUnmetDetailLines then set_kept (sm_kept st + 1) (add_problem_line line st)
      else if sm_kept st =? maxUnmetDetailLines then set_kept (sm_kept st + 1) (add_problem_line omitted_line st)
      else st
    else sim_plain line (set_unmet false st)
  else sim_plain line st.

(** The scanner reads lines shorter than 4 MiB and stops, without an error
    reaching the caller, at a longer one. *)
Definition simTokenMax : Z := 4 * 1024 * 1024.
Definition sim_lines (output : gostring) : list gostring := fst (scan_lines simTokenMax output).
Definition parse_lines (lines : list gostring) : sim := fold_left sim_line lines (mkSim [] [] [] [] false 0).
(** To install, to upgrade, to remove, and the problems. *)
Definition parseAptSim (output : gostring) : list gostring * list gostring * list gostring * list gostring :=
  let st := parse_lines (sim_lines output) in
  (sort_strings (sm_install st), sort_strings (sm_upgrade st), sort_strings (sm_remove st), sm_problems st).

(** ** precondition.go *)

Record osRelease := mkOSRelease { os_ID : gostring; os_VersionID : gostring; os_VersionCodename : gostring }.
Definition last_byte (s : gostring) : option ascii := head (rev s).
Definition unquoteShellValue (s : gostring) : gostring :=
  match s with
  | a :: _ :: _ =>
      if (beq a (chr 34) || beq a (chr 39)) && bool_decide (last_byte s = Some a)
      then take (length s - 2) (drop 1 s) else s
  | _ => s
  end.
Definition os_line (rel : osRelease) (text : gostring) : osRelease :=
  let line := trim_space text in
  if streq line "" || has_prefix "#" line then rel
  else match cut "=" line with
  | None => rel
  | Some (key, val) =>
      let val := unquoteShellValue (trim_space val) in
      let key := trim_space key in
      if streq key "ID" then mkOSRelease val (os_VersionID rel) (os_VersionCodename rel)
      else if streq key "VERSION_ID" then mkOSRelease (os_ID rel) val (os_VersionCodename rel)
      else if streq key "VERSION_CODENAME" then mkOSRelease (os_ID rel) (os_VersionID rel) val
      else rel
  end.
(** [file]: the bytes of [etc/os-release] under the root, when it can be read. *)
Definition readOSRelease (file : option gostring) : osRelease :=
  match file with
  | None => mkOSRelease [] [] []
  | Some data => fold_left os_line (fst (scan_lines (64 * 1024) data)) (mkOSRelease [] [] [])
  end.

(** [freeBytes] is a uint64, [requiredBytes] an int64; the subtraction is Go's. *)
Definition diskShortfall (freeBytes requiredBytes : Z) : Z * bool :=
  if requiredBytes <=? 0 then (0, false)
  else
    let freeSigned := if max_int64 <? freeBytes then max_int64 else wrap_int64 freeBytes in
    if requiredBytes <=? freeSigned then (0, false)
    else (wrap_int64 (requiredBytes - freeSigned), true).

Definition parseForeignArchs (out : gostring) : list gostring := sort_strings (fields out).

Definition have_archs (enabled : list gostring) (nativeArch : gostring) : gset gostring :=
  list_to_set (List.filter (λ a, negb (streq a "")) (map trim_space (enabled ++ [nativeArch]))).
Fixpoint missing_loop (have : gset gostring) (required missing : list gostring) : list gostring :=
  match required with
  | [] => missing
  | a :: rest =>
      let a := trim_space a in
      if streq a "" || bool_decide (a ∈ have) || bool_decide (a ∈ missing) then missing_loop have rest missing
      else missing_loop have rest (missing ++ [a])
  end.
Definition missingForeignArchs (required enabled : list gostring) (nativeArch : gostring) : list gostring :=
  match required with
  | [] => []
  | _ => sort_strings (missing_loop (have_archs enabled nativeArch) required [])
  end.
Definition addArchitectureCommand (archs : list gostring) : gostring :=
  join " && " (map (λ a, "dpkg --add-architecture " ++ a) archs).

(** ** keepsource.go *)

(** The bits of a mode: permissions and [fs.ModeSticky]. *)
Record mode_bits := mkMode { md_perm : Z; md_sticky : bool }.
Definition writableByOthers (perm : Z) : gostring :=
  if Z.land perm 18 =? 18 then "group- and world-writable"
  else if negb (Z.land perm 16 =? 0) then "group-writable"
  else if negb (Z.land perm 2 =? 0) then "world-writable"
  else [].

Definition Dir : gostring → gostring := filepath_dir.

Section keepsource.
(** [pathPermissions]: an error, or the mode and whether it is known. *)
Context (pathPermissions : gostring → result gostring (mode_bits * bool)).

Inductive trust_problem :=
| CannotCheck (path err : gostring)
| RepoWritable (who : gostring)
| AncestorWritable (dir : gostring).

(** At most [n] ancestors, from [dir] up to the fixed point of [Dir]. *)
Fixpoint ancestors_loop (n : nat) (dir : gostring) : option trust_problem :=
  match n with
  | O => None
  | S n =>
      match pathPermissions dir with
      | Err e => Some (CannotCheck dir e)
      | Ok (mode, known) =>
          if known && negb (Z.land (md_perm mode) 2 =? 0) && negb (md_sticky mode) then Some (AncestorWritable dir)
          else if streq (Dir dir) dir then None
          else ancestors_loop n (Dir dir)
      end
  end.
Definition keepSourceTrustProblem (repoDir : gostring) : option trust_problem :=
  match pathPermissions repoDir with
  | Err e => Some (CannotCheck repoDir e)
  | Ok (mode, known) =>
      if negb known then None
      else if negb (streq (writableByOthers (md_perm mode)) "") then Some (RepoWritable (writableByOthers (md_perm mode)))
      else ancestors_loop 64 (Dir repoDir)
  end.
End keepsource.

Example Dir_examples : Dir "/a/b" = bytes_of "/a" ∧ Dir "/a" = bytes_of "/" ∧ Dir "/" = bytes_of "/" ∧ Dir "a" = bytes_of ".".
Proof. by vm_compute. Qed.
Example parseAptSim_example :
  parseAptSim ("Inst curl (1.0 Debian)" ++ [newline] ++ "Inst a [1] (2 x)" ++ [newline] ++
    "The following packages have unmet dependencies:" ++ [newline] ++ " z : Depends: y" ++ [newline] ++ "E: broken") =
  ([bytes_of "curl=1.0"], [bytes_of "a=2"], [],
   [bytes_of "The following packages have unmet dependencies:"; bytes_of "z : Depends: y"; bytes_of "E: broken"]).
Proof. by vm_compute. Qed.

(** ** The selection *)

Lemma index_cut c s :
  index_byte c s = match cut c s with Some (l, _) => Some (length l) | None => None end.
Proof. done. Qed.

(** The second parser of install entries is the lock's. *)
Lemma splitInstallEntry_eq s : splitInstallEntry s = parseInstallEntry s.
Proof.
  assert (∀ c t, match index_byte c t with
                 | None => cut c t = None
                 | Some i => cut c t = Some (take i t, drop (i + 1) t) ∧ (i < length t)%nat
                 end) as H.
  { intros c t. unfold index_byte. destruct (cut c t) as [[l r]|] eqn:E; [|done].
    apply cut_Some in E as [-> _]. rewrite take_app_length, <- drop_drop, drop_app_length.
    rewrite length_app. simpl. split; [done|lia]. }
  assert (∀ i (t : gostring), (i < length t)%nat →
    (i =? 0)%nat || (i =? length t - 1)%nat = bool_decide (take i t = []) || bool_decide (drop (i + 1) t = [])) as Hz.
  { intros i t Hi. f_equal; apply eq_true_iff_eq; rewrite Nat.eqb_eq, bool_decide_eq_true; split; intros E.
    - by subst.
    - apply (f_equal length) in E. rewrite length_take in E. simpl in E. lia.
    - apply length_zero_iff_nil. rewrite length_drop. lia.
    - apply (f_equal length) in E. rewrite length_drop in E. simpl in E. lia. }
  unfold splitInstallEntry, parseInstallEntry. specialize (H "="%char s) as H1.
  destruct (index_byte "=" s) as [i|]; [|by rewrite H1]. destruct H1 as [-> Hi]. rewrite Hz by done.
  destruct (_ || _); [done|]. specialize (H ":"%char (take i s)).
  destruct (index_byte ":" (take i s)) as [j|]; [|by rewrite H]. destruct H as [-> Hj]. by rewrite Hz by done.
Qed.

Lemma archQualifiedEntry_eq p : archQualifiedEntry p = package_entry p.
Proof. done. Qed.

Lemma collect_valid lk ps :
  Forall package_wf (l_Packages lk) → NoDup (map (λ p, (p_Name p, p_Arch p)) (l_Packages lk)) →
  Forall (λ p, p ∈ l_Packages lk) ps →
  collect lk (map package_entry ps) = Ok (map (λ p, (package_entry p, p)) ps).
Proof.
  intros Hwf Hnd Hps. rewrite Forall_forall in Hwf. induction Hps as [|p ps Hp Hps IH]; cbn [map collect]; [done|].
  rewrite splitInstallEntry_eq, package_entry_parse by auto. rewrite Find_complete, streq_refl by done.
  cbn [negb]. rewrite IH. done.
Qed.

Lemma sorted_map {A B} (f : A → B) (R : B → B → Prop) l :
  StronglySorted (λ x y, R (f x) (f y)) l → StronglySorted R (map f l).
Proof.
  induction 1 as [|x l _ IH Hx]; cbn [map]; constructor; [done|]. by apply Forall_fmap.
Qed.

Lemma sort_selected_spec l :
  let r := sort_selected (map (λ p, (package_entry p, p)) l) in
  map fst r = map package_entry (map snd r) ∧ StronglySorted (leR str_leb) (map fst r) ∧ map snd r ≡ₚ l.
Proof.
  intros r. assert (r ≡ₚ map (λ p, (package_entry p, p)) l) as Hp by apply sort_by_perm. split_and!.
  - rewrite map_map. apply map_ext_in. intros x Hx%list_elem_of_In. rewrite Hp in Hx.
    by apply list_elem_of_fmap in Hx as (p & -> & _).
  - apply (sorted_map fst). apply (sort_by_sorted (λ x y : selected, str_leb x.1 y.1)).
    + intros x y. apply str_leb_total.
    + intros x y z. apply str_leb_trans.
  - rewrite Hp, map_map. cbn [snd]. by rewrite map_id.
Qed.

(** A name the user asked for. *)
Definition asked (only : list gostring) (n : gostring) : Prop := n ≠ [] ∧ n ∈ map trim_space only.
#[export] Instance asked_dec only n : Decision (asked only n) := _.
Lemma elem_of_wanted only n : n ∈ wanted_names only ↔ asked only n.
Proof.
  unfold wanted_names, asked. rewrite elem_of_list_to_set, list_elem_of_In, filter_In, <- list_elem_of_In.
  rewrite negb_true_iff, streq_false_iff. tauto.
Qed.

Lemma only_filter_spec only l :
  let entry p := (package_entry p, p) in
  let chosen := List.filter (λ p, bool_decide (asked only (p_Name p))) l in
  match only_filter only (map entry l) with
  | Ok sel => sel = map entry chosen ∧ ∀ n, asked only n → ∃ p, p ∈ l ∧ p_Name p = n
  | Err e => ∃ ms, e = OnlyMissing ms ∧ ms ≠ [] ∧ StronglySorted (leR str_leb) ms ∧ NoDup ms ∧
      ∀ n, n ∈ ms ↔ asked only n ∧ ¬ ∃ p, p ∈ l ∧ p_Name p = n
  end.
Proof.
  intros entry chosen. unfold only_filter.
  assert (List.filter (λ sp : selected, bool_decide (p_Name sp.2 ∈ wanted_names only)) (map entry l) = map entry chosen) as ->.
  { unfold chosen. induction l as [|p l IH]; [done|]. cbn [map List.filter entry snd].
    rewrite (bool_decide_ext _ _ (elem_of_wanted only (p_Name p))).
    destruct (bool_decide _); cbn [map]; by rewrite IH. }
  rewrite map_map. cbn [entry snd].
  assert (∀ n, n ∈ List.filter (λ n, negb (bool_decide (n ∈@{gset gostring} list_to_set (map p_Name chosen)))) (elements (wanted_names only)) ↔
    asked only n ∧ ¬ ∃ p, p ∈ l ∧ p_Name p = n) as Hm.
  { intros n. rewrite elem_of_lfilter, elem_of_elements, elem_of_wanted, negb_true_iff, bool_decide_eq_false.
    rewrite elem_of_list_to_set, list_elem_of_fmap. unfold chosen. split; intros [Ha Hn]; (split; [done|]); intros H; apply Hn.
    - destruct H as (p & Hp & <-). exists p. rewrite elem_of_lfilter, bool_decide_eq_true. done.
    - destruct H as (p & -> & [Hp _]%elem_of_lfilter). eauto. }
  destruct (List.filter _ (elements _)) as [|m ms] eqn:E.
  - split; [done|]. intros n Hn. destruct (decide (n ∈ map p_Name l)) as [(p & -> & Hp)%list_elem_of_fmap|Hd]; [eauto|].
    exfalso. apply (not_elem_of_nil n), Hm. split; [done|]. intros (p & Hp & <-). apply Hd. by apply list_elem_of_fmap_2.
  - rewrite <- E in *. exists (sort_strings (List.filter (λ n, negb (bool_decide (n ∈@{gset gostring} list_to_set (map p_Name chosen)))) (elements (wanted_names only)))).
    split_and!; [done| |apply sort_strings_sorted| |].
    + intros H. apply (f_equal length) in H. unfold sort_strings in H. rewrite length_sort_by, E in H. done.
    + unfold sort_strings. rewrite NoDup_sort_by. apply NoDup_lfilter, NoDup_elements.
    + intros n. by rewrite elem_of_sort_strings.
Qed.

Lemma Validate_packages lk :
  Validate lk = None → Forall package_wf (l_Packages lk) ∧ NoDup (map (λ p, (p_Name p, p_Arch p)) (l_Packages lk)) ∧
  NoDup (l_Packages lk) ∧
  ∃ ps, l_Install lk = map package_entry ps ∧ NoDup ps ∧ Forall (λ p, p ∈ l_Packages lk) ps.
Proof.
  intros [_ _ _ _ Hwf _ Hid Hin]%Validate_None.
  split; [done|]. split; [done|]. split; [|done]. by apply (NoDup_fmap_1 (λ p, (p_Name p, p_Arch p))).
Qed.

Lemma package_entry_inj p q lk :
  Validate lk = None → p ∈ l_Packages lk → q ∈ l_Packages lk → package_entry p = package_entry q → p = q.
Proof.
  intros (Hwf & Hid & _)%Validate_packages Hp Hq E. rewrite Forall_forall in Hwf.
  pose proof (package_entry_parse p (Hwf _ Hp)) as E1. rewrite E, package_entry_parse in E1 by auto.
  apply (NoDup_map_inj (λ p, (p_Name p, p_Arch p)) (l_Packages lk)); try done. injection E1 as -> -> _. done.
Qed.

(** The selection on a lock that validates; the theorem below states it. *)
Lemma selectInstallSet_facts (lk : Lock) (all : bool) (only : list gostring) :
  Validate lk = None →
  let candidate p := p ∈ l_Packages lk ∧ (all = true ∨ package_entry p ∈ l_Install lk) in
  match selectInstallSet lk all only with
  | Ok (names, pkgs) =>
      names = map package_entry pkgs ∧ StronglySorted (leR str_leb) names ∧ NoDup pkgs ∧
      (∀ p, p ∈ pkgs ↔ candidate p ∧ (only = [] ∨ asked only (p_Name p))) ∧
      (∀ n, asked only n → ∃ p, p ∈ pkgs ∧ p_Name p = n)
  | Err e => ∃ ms, e = OnlyMissing ms ∧ ms ≠ [] ∧ StronglySorted (leR str_leb) ms ∧ NoDup ms ∧
      ∀ n, n ∈ ms ↔ asked only n ∧ ¬ ∃ p, candidate p ∧ p_Name p = n
  end.
Proof.
  intros Hv candidate. destruct (Validate_packages lk Hv) as (Hwf & Hid & Hnd & ps & Hi & Hps & Hin).
  assert (∃ l, NoDup l ∧ (∀ p, p ∈ l ↔ candidate p) ∧
    (if all then Ok (map (λ p, (archQualifiedEntry p, p)) (l_Packages lk)) else collect lk (l_Install lk)) =
    Ok (map (λ p, (package_entry p, p)) l)) as (l & Hl & Hc & E).
  { rewrite Forall_forall in Hin. unfold candidate. destruct all.
    - exists (l_Packages lk). split_and!; [done| |done]. intros p. tauto.
    - exists ps. split_and!; [done| |rewrite Hi; apply collect_valid; [done|done|by apply Forall_forall]].
      intros p. rewrite Hi, list_elem_of_fmap. split.
      + intros Hp. split; [auto|]. right. eauto.
      + intros [Hp [?|(q & E & Hq)]]; [done|]. by rewrite (package_entry_inj p q lk) by auto. }
  unfold selectInstallSet. rewrite E. cbn [mbind result_bind].
  assert (∀ chosen, NoDup chosen → (∀ p, p ∈ chosen ↔ candidate p ∧ (only = [] ∨ asked only (p_Name p))) →
    (∀ n, asked only n → ∃ p, p ∈ l ∧ p_Name p = n) →
    let r := sort_selected (map (λ p, (package_entry p, p)) chosen) in
    map fst r = map package_entry (map snd r) ∧ StronglySorted (leR str_leb) (map fst r) ∧ NoDup (map snd r) ∧
    (∀ p, p ∈ map snd r ↔ candidate p ∧ (only = [] ∨ asked only (p_Name p))) ∧
    (∀ n, asked only n → ∃ p, p ∈ map snd r ∧ p_Name p = n)) as Hfin.
  { intros chosen Hch Hm Hex r. destruct (sort_selected_spec chosen) as (H1 & H2 & H3). fold r in H1, H2, H3.
    assert (∀ p, p ∈ map snd r ↔ candidate p ∧ (only = [] ∨ asked only (p_Name p))) as Hr by (intros p; by rewrite H3).
    split_and!; [done|done|by rewrite H3|done|].
    intros n Hn. destruct (Hex n Hn) as (p & Hp & <-). exists p. rewrite Hr, <- Hc. auto. }
  destruct only as [|o only].
  - cbn [mbind result_bind]. apply Hfin; [done| |intros n [_ ?%elem_of_nil]; done].
    intros p. rewrite Hc. tauto.
  - pose proof (only_filter_spec (o :: only) l) as Hf. cbv zeta in Hf.
    destruct (only_filter (o :: only) _) as [sel|e]; cbn [mbind result_bind].
    + destruct Hf as [-> Hex]. apply Hfin; [| |done].
      * by apply NoDup_lfilter.
      * intros p. rewrite elem_of_lfilter, bool_decide_eq_true, Hc. naive_solver.
    + destruct Hf as (ms & -> & Hne & Hs & Hn & Hm). exists ms. split_and!; [done..|].
      intros n. rewrite Hm. setoid_rewrite Hc. done.
Qed.

(** The upgrade entries come from the lock, and none is already selected under
    its name and architecture. *)
Lemma selectUpgradeSet_facts (lk : Lock) (base : list Package) :
  let '(names, pkgs, total) := selectUpgradeSet lk base in
  names = map package_entry pkgs ∧ StronglySorted (leR str_leb) names ∧
  (∀ p, p ∈ pkgs ↔ p ∈ l_Packages lk ∧ p_Reason p = ReasonUpgrade ∧ ∀ q, q ∈ base → upgrade_key q ≠ upgrade_key p) ∧
  (0 ≤ total) ∧ (total = 0 ↔ ∀ p, p ∈ l_Packages lk → p_Reason p ≠ ReasonUpgrade).
Proof.
  unfold selectUpgradeSet. set (ups := List.filter (λ p, streq (p_Reason p) ReasonUpgrade) (l_Packages lk)).
  assert (∀ p, p ∈ ups ↔ p ∈ l_Packages lk ∧ p_Reason p = ReasonUpgrade) as Hu.
  { intros p. unfold ups. by rewrite elem_of_lfilter, streq_true. }
  destruct (sort_selected_spec (List.filter (λ p, negb (bool_decide (upgrade_key p ∈@{gset gostring} list_to_set (map upgrade_key base)))) ups))
    as (H1 & H2 & H3). split_and!; [exact H1|exact H2| |lia|].
  - intros p. change (map (λ p, (archQualifiedEntry p, p))) with (map (λ p, (package_entry p, p))).
    rewrite H3, elem_of_lfilter, Hu, negb_true_iff, bool_decide_eq_false, elem_of_list_to_set, list_elem_of_fmap.
    split; [intros [[? ?] Hn]|intros (? & ? & Hn)]; split_and!; try done.
    + intros q Hq E. apply Hn. by exists q.
    + intros (q & E & Hq). by apply (Hn q).
  - destruct ups as [|p ps]; simpl; split; intros Hx; try done; try lia.
    + intros p Hp Hr. apply (not_elem_of_nil p), Hu. done.
    + exfalso. destruct (proj1 (Hu p)) as [Hp Hr]; [by left|]. by apply (Hx p).
Qed.

(** On a lock that validates, the selection is what was asked for and
    nothing else: every package with [--all], the packages of the install list
    otherwise, cut down to the names of [--only] when it is given; each once, in
    the order of their [name:arch=version] entries, which are the arguments apt
    gets. The only refusal is for names asked for that no such package has, and
    it lists exactly those. *)
Theorem selectInstallSet_spec (lk : Lock) (all : bool) (only : list gostring) :
  Validate lk = None →
  let candidate p := p ∈ l_Packages lk ∧ (all = true ∨ package_entry p ∈ l_Install lk) in
  match selectInstallSet lk all only with
  | Ok (names, pkgs) =>
      names = map package_entry pkgs ∧ StronglySorted (leR str_leb) names ∧ NoDup pkgs ∧
      (∀ p, p ∈ pkgs ↔ candidate p ∧ (only = [] ∨ asked only (p_Name p))) ∧
      (∀ n, asked only n → ∃ p, p ∈ pkgs ∧ p_Name p = n)
  | Err e => ∃ ms, e = OnlyMissing ms ∧ ms ≠ [] ∧ StronglySorted (leR str_leb) ms ∧ NoDup ms ∧
      ∀ n, n ∈ ms ↔ asked only n ∧ ¬ ∃ p, candidate p ∧ p_Name p = n
  end.
Proof. apply selectInstallSet_facts. Qed.

(** ** The simulation *)

Definition sim_text (text : gostring) : gostring := trim_space (trim_right [chr 13] text).
Definition indented (text : gostring) : bool :=
  let raw := trim_right [chr 13] text in has_prefix " " raw || has_prefix [chr 9] raw.
(** A line that says something is wrong. *)
Definition reported (line : gostring) : bool :=
  negb (has_prefix "Inst " line || has_prefix "Remv " line || has_prefix "Conf " line) &&
  (isUnmetHeaderLine line ||
   (has_prefix "E: " line || contains_str "Unable to correct problems" line || contains_str "unmet dependencies" line)).

Lemma elem_of_add_once x s l : x ∈ add_once s l ↔ x ∈ l ∨ x = s.
Proof. unfold add_once. case_bool_decide; set_solver. Qed.
Lemma NoDup_add_once s l : NoDup l → NoDup (add_once s l).
Proof.
  unfold add_once. case_bool_decide; [done|]. intros. apply NoDup_app.
  split_and!; [done|set_solver|apply NoDup_singleton].
Qed.

(** The steps, one projection at a time. *)
Definition inst_of (line : gostring) (upgrade : bool) (nv : gostring) : Prop :=
  has_prefix "Inst " line = true ∧ ∃ n v, parseInstLine line = Some (n, v, upgrade) ∧ nv = nameVersion n v.
Definition remv_of (line : gostring) (nv : gostring) : Prop :=
  has_prefix "Remv " line = true ∧ ∃ n v, parseRemvLine line = Some (n, v) ∧ nv = nameVersion n v.

Ltac sim_cases :=
  repeat match goal with
  | |- context [if ?b then _ else _] => let E := fresh "E" in destruct b eqn:E
  | |- context [match ?o with Some _ => _ | None => _ end] => let E := fresh "E" in destruct o as [[[? ?] []]|] eqn:E
  | |- context [match ?o with Some _ => _ | None => _ end] => let E := fresh "E" in destruct o as [[? ?]|] eqn:E
  end; cbn [set_kept set_unmet add_problem_line sm_install sm_upgrade sm_remove sm_problems sm_inUnmet sm_kept] in *.

Lemma prefix_disjoint (p q s : gostring) :
  (length p = length q)%nat → p ≠ q → has_prefix p s = true → has_prefix q s = false.
Proof.
  intros Hl Hne [r ->]%has_prefix_spec. apply not_true_iff_false. intros [r' E]%has_prefix_spec.
  by apply app_inj_1 in E as [-> _].
Qed.

Lemma sim_plain_install line st nv :
  nv ∈ sm_install (sim_plain line st) ↔ nv ∈ sm_install st ∨ inst_of line false nv.
Proof.
  unfold sim_plain, inst_of. sim_cases; rewrite ?elem_of_add_once; try (split; [by auto|by intros [?|[? (?&?&?&?)]]]).
  split; [intros [?| ->]; [auto|]; right; eauto|]. intros [?|[_ (n & v & [= <- <-] & ->)]]; auto.
Qed.
Lemma sim_plain_upgrade line st nv :
  nv ∈ sm_upgrade (sim_plain line st) ↔ nv ∈ sm_upgrade st ∨ inst_of line true nv.
Proof.
  unfold sim_plain, inst_of. sim_cases; rewrite ?elem_of_add_once; try (split; [by auto|by intros [?|[? (?&?&?&?)]]]).
  split; [intros [?| ->]; [auto|]; right; eauto|]. intros [?|[_ (n & v & [= <- <-] & ->)]]; auto.
Qed.
Lemma sim_plain_remove line st nv :
  nv ∈ sm_remove (sim_plain line st) ↔ nv ∈ sm_remove st ∨ remv_of line nv.
Proof.
  unfold sim_plain, remv_of.
  assert (has_prefix "Inst " line = true → has_prefix "Remv " line = false) as Hd by (by apply prefix_disjoint).
  sim_cases; rewrite ?elem_of_add_once; try (split; [by auto|intros [?|[? (?&?&?&?)]]; [done|]; try rewrite Hd in * by done; done]).
  split; [intros [?| ->]; [auto|]; right; eauto|]. intros [?|[_ (n & v & [= <- <-] & ->)]]; auto.
Qed.
Lemma sim_plain_problems line st :
  sm_problems (sim_plain line st) = sm_problems st ++ (if reported line then [line] else []).
Proof.
  unfold sim_plain, reported. sim_cases; rewrite ?app_nil_r; try done; by rewrite E4 in *.
Qed.
Lemma sim_plain_unmet line st :
  sm_inUnmet (sim_plain line st) = true → sm_inUnmet st = true ∨ reported line = true.
Proof. unfold sim_plain, reported. sim_cases; auto. Qed.

Lemma sim_line_cases st text :
  (∃ b, sim_line st text = sim_plain (sim_text text) (set_unmet b st) ∧ (b = true → sm_inUnmet st = true)) ∨
  (sm_inUnmet st = true ∧ indented text = true ∧ has_prefix "E:" (sim_text text) = false ∧
   sm_install (sim_line st text) = sm_install st ∧ sm_upgrade (sim_line st text) = sm_upgrade st ∧
   sm_remove (sim_line st text) = sm_remove st ∧ (∃ ps, sm_problems (sim_line st text) = sm_problems st ++ ps)).
Proof.
  unfold sim_line, indented. fold (sim_text text). destruct (sm_inUnmet st) eqn:Eu.
  - destruct (streq (sim_text text) "" || has_prefix "E:" (sim_text text)) eqn:E1; [left; by exists false|].
    destruct (isUnmetDetailLine _) eqn:E2; [|left; by exists false]. right. bsplit.
    unfold isUnmetDetailLine in E2. destruct (streq (trim_space _) ""); [done|].
    split_and!; try done; sim_cases; try done; eauto. exists []. by rewrite app_nil_r.
  - left. exists false. split; [|done]. by destruct st; simpl in Eu; subst.
Qed.

(** A fact that one line makes true and no line makes false holds in the end. *)
Lemma parse_lines_reach (I Q : sim → Prop) lines text :
  I (mkSim [] [] [] [] false 0) → (∀ st t, I st → I (sim_line st t)) →
  (∀ st t, Q st → Q (sim_line st t)) → (∀ st, I st → Q (sim_line st text)) → text ∈ lines → Q (parse_lines lines).
Proof.
  intros H0 HI Hm Hs. unfold parse_lines. revert H0. generalize (mkSim [] [] [] [] false 0).
  assert (∀ ls st, Q st → Q (fold_left sim_line ls st)) as Hk.
  { induction ls as [|t ls IH]; cbn [fold_left]; auto. }
  induction lines as [|t lines IH]; intros st H0; [by intros ?%elem_of_nil|].
  intros [->|Hin]%elem_of_cons; cbn [fold_left]; auto.
Qed.
Lemma parse_lines_inv (Q : sim → Prop) lines :
  Q (mkSim [] [] [] [] false 0) → (∀ st t, t ∈ lines → Q st → Q (sim_line st t)) → Q (parse_lines lines).
Proof.
  unfold parse_lines. generalize (mkSim [] [] [] [] false 0).
  induction lines as [|t lines IH]; intros st H0 Hs; cbn [fold_left]; [done|].
  apply IH; [apply Hs; [by left|done]|]. intros st' t' Ht. apply Hs. by right.
Qed.

Ltac sim_step st t :=
  destruct (sim_line_cases st t) as [(b & -> & Hb)|(Hu & Hind & HE & E1 & E2 & E3 & ps & E4)].

Lemma sim_line_mono st t nv :
  (nv ∈ sm_install st → nv ∈ sm_install (sim_line st t)) ∧ (nv ∈ sm_upgrade st → nv ∈ sm_upgrade (sim_line st t)) ∧
  (nv ∈ sm_remove st → nv ∈ sm_remove (sim_line st t)) ∧ (nv ∈ sm_problems st → nv ∈ sm_problems (sim_line st t)).
Proof.
  sim_step st t.
  - rewrite sim_plain_install, sim_plain_upgrade, sim_plain_remove, sim_plain_problems, elem_of_app. simpl. tauto.
  - rewrite E1, E2, E3, E4, elem_of_app. tauto.
Qed.

Lemma sim_line_unmet st t : (sm_inUnmet st = true → sm_problems st ≠ []) →
  sm_inUnmet (sim_line st t) = true → sm_problems (sim_line st t) ≠ [].
Proof.
  intros HI. sim_step st t.
  - intros [Hu|Hr]%sim_plain_unmet; rewrite sim_plain_problems; simpl in *.
    + apply Hb in Hu. apply HI in Hu. by destruct (sm_problems st).
    + rewrite Hr. by destruct (sm_problems st).
  - intros _. rewrite E4. apply HI in Hu. by destruct (sm_problems st).
Qed.

Lemma parse_lines_problems lines :
  sm_problems (parse_lines lines) = [] ↔ ∀ t, t ∈ lines → reported (sim_text t) = false.
Proof.
  split.
  - intros Hn t Ht. destruct (reported (sim_text t)) eqn:Er; [|done]. exfalso. revert Hn.
    apply (parse_lines_reach (λ st, sm_inUnmet st = true → sm_problems st ≠ []) (λ st, sm_problems st ≠ []) lines t);
      [done|intros; by apply sim_line_unmet| | |done].
    + intros st t' Hne. sim_step st t'; [rewrite sim_plain_problems|rewrite E4]; simpl; by destruct (sm_problems st).
    + intros st HI. sim_step st t.
      * rewrite sim_plain_problems, Er. simpl. by destruct (sm_problems st).
      * rewrite E4. apply HI in Hu. by destruct (sm_problems st).
  - intros Hr. apply (parse_lines_inv (λ st, sm_problems st = [] ∧ sm_inUnmet st = false) lines); [done|].
    intros st t Ht [Hp Hu']. sim_step st t; [|congruence].
    split; [rewrite sim_plain_problems, Hr by done; simpl; by rewrite Hp|].
    apply not_true_iff_false. intros [Hx|Hx]%sim_plain_unmet; [|rewrite Hr in Hx by done; done].
    apply Hb in Hx. congruence.
Qed.

Lemma sim_line_error st t : has_prefix "E: " (sim_text t) = true → sim_text t ∈ sm_problems (sim_line st t).
Proof.
  intros He. assert (reported (sim_text t) = true) as Hr.
  { unfold reported. rewrite He. cbn [orb]. rewrite orb_true_r, andb_true_r.
    apply has_prefix_spec in He as [r ->]. done. }
  sim_step st t; [rewrite sim_plain_problems, Hr; set_solver|].
  exfalso. apply has_prefix_spec in He as [r E]. rewrite E in HE. done.
Qed.

Definition is_sorted_set (l : list gostring) : Prop := StronglySorted (leR str_leb) l ∧ NoDup l.
Lemma is_sorted_set_sort l : NoDup l → is_sorted_set (sort_strings l).
Proof. intros. split; [apply sort_strings_sorted|]. unfold sort_strings. by rewrite NoDup_sort_by. Qed.

Lemma sim_line_NoDup st t :
  NoDup (sm_install st) ∧ NoDup (sm_upgrade st) ∧ NoDup (sm_remove st) →
  NoDup (sm_install (sim_line st t)) ∧ NoDup (sm_upgrade (sim_line st t)) ∧ NoDup (sm_remove (sim_line st t)).
Proof.
  intros (H1 & H2 & H3). sim_step st t; [|by rewrite E1, E2, E3].
  unfold sim_plain. sim_cases; split_and!; auto using NoDup_add_once.
Qed.

(** What one of the three lists holds: an entry only if some line says so, and
    every entry a line that is not indented says. *)
Definition reads (lines : list gostring) (says : gostring → gostring → Prop) (l : list gostring) : Prop :=
  is_sorted_set l ∧ (∀ nv, nv ∈ l → ∃ t, t ∈ lines ∧ says (sim_text t) nv) ∧
  (∀ t nv, t ∈ lines → indented t = false → says (sim_text t) nv → nv ∈ l).

Lemma parse_lines_reads (proj : sim → list gostring) (says : gostring → gostring → Prop) lines :
  (∀ line st nv, nv ∈ proj (sim_plain line st) ↔ nv ∈ proj st ∨ says line nv) →
  (∀ b st, proj (set_unmet b st) = proj st) → proj (mkSim [] [] [] [] false 0) = [] →
  (∀ st t, (∃ b, sim_line st t = sim_plain (sim_text t) (set_unmet b st)) ∨ indented t = true ∧ proj (sim_line st t) = proj st) →
  NoDup (proj (parse_lines lines)) → reads lines says (sort_strings (proj (parse_lines lines))).
Proof.
  intros Hpl Hset H0 Hstep Hnd. split; [by apply is_sorted_set_sort|]. setoid_rewrite elem_of_sort_strings. split.
  - apply (parse_lines_inv (λ st, ∀ nv, nv ∈ proj st → ∃ t, t ∈ lines ∧ says (sim_text t) nv)).
    + intros nv. rewrite H0. by intros ?%elem_of_nil.
    + intros st t Ht IH nv. destruct (Hstep st t) as [[b ->]|[_ ->]]; [|apply IH].
      rewrite Hpl, Hset. intros [?|?]; [by apply IH|eauto].
  - intros t nv Ht Hi Hs. apply (parse_lines_reach (λ _, True) (λ st, nv ∈ proj st) lines t); [done|done| | |done].
    + intros st t' Hin. destruct (Hstep st t') as [[b ->]|[_ ->]]; [|done]. rewrite Hpl, Hset. auto.
    + intros st _. destruct (Hstep st t) as [[b ->]|[Hi' _]]; [|congruence]. rewrite Hpl. auto.
Qed.

(** What apt's simulation said is what the plan records. The three lists are
    sorted, without repetition, and hold only what an [Inst] or [Remv] line
    says and all that such a line says unless it is indented; every line that
    starts with [E: ] is a problem, and the plan has no problem exactly when no
    line reports one. *)
Theorem parseAptSim_spec (output : gostring) :
  let lines := sim_lines output in
  let '(toInstall, toUpgrade, toRemove, problems) := parseAptSim output in
  reads lines (λ line, inst_of line false) toInstall ∧
  reads lines (λ line, inst_of line true) toUpgrade ∧
  reads lines remv_of toRemove ∧
  (∀ t, t ∈ lines → has_prefix "E: " (sim_text t) = true → sim_text t ∈ problems) ∧
  (problems = [] ↔ ∀ t, t ∈ lines → reported (sim_text t) = false).
Proof.
  intros lines. unfold parseAptSim. fold lines.
  assert (NoDup (sm_install (parse_lines lines)) ∧ NoDup (sm_upgrade (parse_lines lines)) ∧ NoDup (sm_remove (parse_lines lines)))
    as (H1 & H2 & H3) by (apply (parse_lines_inv (λ st, NoDup (sm_install st) ∧ NoDup (sm_upgrade st) ∧ NoDup (sm_remove st)));
      [split_and!; constructor|intros; by apply sim_line_NoDup]).
  split_and!.
  1-3: apply parse_lines_reads; [| |done| |done]; [|done|].
  1: apply sim_plain_install. 2: apply sim_plain_upgrade. 3: apply sim_plain_remove.
  1-3: intros st t; destruct (sim_line_cases st t) as [(b & E & _)|(_ & ? & _ & ? & ? & ? & _)]; [left; eauto|by right].
  - intros t Ht HE. apply (parse_lines_reach (λ _, True) (λ st, sim_text t ∈ sm_problems st) lines t); [done|done| | |done].
    + intros st t' Hin. by apply sim_line_mono.
    + intros st _. by apply sim_line_error.
  - apply parse_lines_problems.
Qed.

(** ** Preconditions *)

(** The space check is exact over the whole range of its two machine
    integers: it reports a shortfall exactly when fewer bytes are free than are
    required, and the shortfall is their difference, without wrap-around. *)
Theorem diskShortfall_spec (freeBytes requiredBytes : Z) :
  0 ≤ freeBytes < 2 ^ 64 → int64 requiredBytes →
  let short := negb (requiredBytes <=? 0) && (freeBytes <? requiredBytes) in
  diskShortfall freeBytes requiredBytes = (if short then requiredBytes - freeBytes else 0, short).
Proof.
  unfold int64, min_int64, max_int64. intros Hf Hr. unfold diskShortfall, max_int64.
  assert (∀ n, -2 ^ 63 ≤ n < 2 ^ 63 → wrap_int64 n = n) as Hw.
  { intros n Hn. unfold wrap_int64. rewrite Z.mod_small; lia. }
  destruct (Z.leb_spec requiredBytes 0); [done|]. cbn [negb andb].
  destruct (Z.ltb_spec 9223372036854775807 freeBytes).
  - destruct (Z.leb_spec requiredBytes 9223372036854775807); [|lia].
    destruct (Z.ltb_spec freeBytes requiredBytes); [lia|done].
  - rewrite (Hw freeBytes) by lia.
    destruct (Z.leb_spec requiredBytes freeBytes), (Z.ltb_spec freeBytes requiredBytes); try lia; [done|].
    by rewrite Hw by lia.
Qed.
Lemma diskShortfall_spec_witness :
  (0 ≤ 5 < 2 ^ 64 ∧ int64 7) ∧ diskShortfall 5 7 = (2, true).
Proof.
  assert (0 ≤ 5 < 2 ^ 64) as H1 by lia.
  assert (int64 7) as H2 by (unfold int64, min_int64, max_int64; lia).
  split; [exact (conj H1 H2)|]. exact (diskShortfall_spec 5 7 H1 H2).
Defined.

Lemma elem_of_have a enabled native :
  a ∈ have_archs enabled native ↔ a ≠ [] ∧ a ∈ map trim_space (enabled ++ [native]).
Proof.
  unfold have_archs. rewrite elem_of_list_to_set, elem_of_lfilter, negb_true_iff, streq_false_iff. tauto.
Qed.
Lemma missing_loop_spec have required : ∀ missing,
  NoDup missing → (∀ a, a ∈ missing → a ∉ have) →
  NoDup (missing_loop have required missing) ∧
  ∀ a, a ∈ missing_loop have required missing ↔ a ∈ missing ∨ (a ≠ [] ∧ a ∈ map trim_space required ∧ a ∉ have).
Proof.
  induction required as [|r rest IH]; intros missing Hnd Hh; cbn [missing_loop map].
  { split; [done|]. set_solver. }
  destruct (streq (trim_space r) "") eqn:E1; cbn [orb].
  { apply streq_true in E1. change (bytes_of "") with (@nil ascii) in E1. destruct (IH missing) as [H1 H2]; [done|done|].
    split; [done|]. intros a. rewrite H2, E1, elem_of_cons. naive_solver. }
  apply streq_false_iff in E1. change (bytes_of "") with (@nil ascii) in E1.
  destruct (decide (trim_space r ∈ have)) as [Hin|Hin].
  { rewrite (bool_decide_eq_true_2 _ Hin). cbn [orb]. destruct (IH missing) as [H1 H2]; [done|done|].
    split; [done|]. intros a. rewrite H2, elem_of_cons. naive_solver. }
  rewrite (bool_decide_eq_false_2 _ Hin). cbn [orb].
  destruct (decide (trim_space r ∈ missing)) as [Hm|Hm].
  { rewrite (bool_decide_eq_true_2 _ Hm). destruct (IH missing) as [H1 H2]; [done|done|].
    split; [done|]. intros a. rewrite H2, elem_of_cons. naive_solver. }
  rewrite (bool_decide_eq_false_2 _ Hm). destruct (IH (missing ++ [trim_space r])) as [H1 H2].
  - apply NoDup_app. split_and!; [done|set_solver|apply NoDup_singleton].
  - intros a. rewrite elem_of_app, list_elem_of_singleton. naive_solver.
  - split; [done|]. intros a. rewrite H2, elem_of_app, list_elem_of_singleton, elem_of_cons. naive_solver.
Qed.

(** The architectures reported missing are, sorted and once each, exactly
    the trimmed non-blank required ones that are neither enabled nor the
    machine's own. *)
Lemma missingForeignArchs_spec (required enabled : list gostring) (nativeArch : gostring) :
  is_sorted_set (missingForeignArchs required enabled nativeArch) ∧
  ∀ a, a ∈ missingForeignArchs required enabled nativeArch ↔
    a ≠ [] ∧ (a ∈ map trim_space required) ∧ (a ∉ map trim_space enabled) ∧ a ≠ trim_space nativeArch.
Proof.
  destruct (missing_loop_spec (have_archs enabled nativeArch) required []) as [Hnd Hm];
    [constructor|by intros a ?%elem_of_nil|].
  assert (missingForeignArchs required enabled nativeArch =
    sort_strings (missing_loop (have_archs enabled nativeArch) required [])) as -> by (by destruct required).
  split; [by apply is_sorted_set_sort|]. intros a. rewrite elem_of_sort_strings, Hm, elem_of_nil, elem_of_have.
  rewrite map_app, elem_of_app. cbn [map]. rewrite list_elem_of_singleton. naive_solver.
Qed.

(** ** The standing trust of --keep-source *)

Lemma writableByOthers_none perm : writableByOthers perm = [] ↔ Z.land perm 16 = 0 ∧ Z.land perm 2 = 0.
Proof.
  unfold writableByOthers. destruct (Z.eqb_spec (Z.land perm 18) 18) as [E|E].
  - split; [done|]. intros [H1 H2]. exfalso. change 18 with (Z.lor 16 2) in E.
    rewrite Z.land_lor_distr_r, H1, H2 in E. done.
  - destruct (Z.eqb_spec (Z.land perm 16) 0), (Z.eqb_spec (Z.land perm 2) 0); cbn [negb]; split;
      solve [done|by intros [? ?]].
Qed.

(** The chain the loop walks: [n] ancestors at most, up to the fixed point. *)
Fixpoint ancestors (n : nat) (dir : gostring) : list gostring :=
  match n with
  | O => []
  | S n => dir :: (if streq (Dir dir) dir then [] else ancestors n (Dir dir))
  end.
Definition swappable (mode : mode_bits) : Prop := Z.land (md_perm mode) 2 ≠ 0 ∧ md_sticky mode = false.

Lemma ancestors_loop_None perms n dir :
  ancestors_loop perms n dir = None ↔
  ∀ d, d ∈ ancestors n dir → ∃ mode known, perms d = Ok (mode, known) ∧ (known = true → ¬ swappable mode).
Proof.
  revert dir. induction n as [|n IH]; intros dir; cbn [ancestors_loop ancestors].
  { split; [by intros _ d ?%elem_of_nil|done]. }
  destruct (perms dir) as [[mode known]|e] eqn:E.
  - destruct (known && negb (Z.land (md_perm mode) 2 =? 0) && negb (md_sticky mode)) eqn:Eb.
    + split; [done|]. intros H. exfalso. destruct (H dir) as (m & k & E' & Hs); [by left|].
      rewrite E in E'. simplify_eq. bsplit. subst. by apply Hs.
    + assert (known = true → ¬ swappable mode) as Hk.
      { intros -> [H1 H2]. rewrite H2, (proj2 (Z.eqb_neq _ _) H1) in Eb. done. }
      destruct (streq (Dir dir) dir); [|rewrite IH]; (split; intros H).
      * intros d ->%list_elem_of_singleton. eauto.
      * done.
      * intros d [->|Hd]%elem_of_cons; [eauto|auto].
      * intros d Hd. apply H. by right.
  - split; [done|]. intros H. destruct (H dir) as (m & k & E' & _); [by left|]. congruence.
Qed.

(** --keep-source is allowed exactly when the permissions could be read all
    the way: the repository directory is writable by its owner alone, and no
    ancestor (of the first 64, up to the root) is world-writable without the
    sticky bit; on a platform without such permissions it is always allowed. *)
Theorem keepSourceTrustProblem_spec (perms : gostring → result gostring (mode_bits * bool)) (repoDir : gostring) :
  keepSourceTrustProblem perms repoDir = None ↔
  ∃ mode known, perms repoDir = Ok (mode, known) ∧
    (known = true →
      Z.land (md_perm mode) 16 = 0 ∧ Z.land (md_perm mode) 2 = 0 ∧
      ∀ d, d ∈ ancestors 64 (Dir repoDir) → ∃ m k, perms d = Ok (m, k) ∧ (k = true → ¬ swappable m)).
Proof.
  unfold keepSourceTrustProblem. destruct (perms repoDir) as [[mode known]|e].
  - destruct known; cbn [negb].
    + destruct (streq (writableByOthers (md_perm mode)) "") eqn:E; cbn [negb].
      * apply streq_true in E. change (bytes_of "") with (@nil ascii) in E. apply writableByOthers_none in E as [E1 E2].
        rewrite ancestors_loop_None. split.
        -- intros H. exists mode, true. auto.
        -- intros (m & k & [= <- <-] & H). by apply H.
      * apply streq_false_iff in E. split; [done|]. intros (m & k & [= <- <-] & H).
        exfalso. apply E, writableByOthers_none. by destruct H as (? & ? & _).
    + split; [|done]. intros _. by exists mode, false.
  - split; [done|]. by intros (m & k & ? & _).
Qed.

Lemma selectInstallSet_spec_witness :
  Validate sample_lock = None ∧ ∃ names pkgs, selectInstallSet sample_lock false [] = Ok (names, pkgs) ∧
    names = map package_entry pkgs.
Proof.
  assert (Validate sample_lock = None) as H by (by vm_compute). split; [exact H|].
  pose proof (selectInstallSet_spec sample_lock false [] H) as Hs.
  assert (∃ r, selectInstallSet sample_lock false [] = Ok r) as [[names pkgs] E] by (eexists; vm_compute; reflexivity).
  rewrite E in Hs. exists names, pkgs. exact (conj E (proj1 Hs)).
Defined.
