(* ===== verification/InstallRun.v ===== *)
(** * core/install: one run of [debark install].

    [runner.go], [bundle.go], [privateroot.go], [basedivergence.go] and the
    confirmation and lookup of [exec.go]. A run is a state passed along: the
    processes started, their recorded output and the report; an early return
    [finish(err)] is the [Err] of the state monad below, [None] for a nil error.
    What the machine answers (files, processes, the verifier) is the record
    [machine]; a process's answer may depend on those started before it. Texts
    of problems and warnings are left out, the facts they carry are kept. *)
From S2P Require Export RunMonad InstallSelect Verify Dferr.
From S2P Require Import PathJoin.
#[local] Open Scope Z_scope.

Record Options := mkOptions {
  io_Verify : Verify.Options; io_Upgrade : bool; io_All : bool; io_Only : list gostring; io_KeepSource : bool;
  io_Fast : bool; io_Dpkg : bool; io_Yes : bool
}.
(** The paths of [Deps], the defaults of [New] filled in, and its root. *)
Record Deps := mkDeps { AptPath : gostring; DpkgPath : gostring; DpkgQueryPath : gostring; Root : gostring }.
Definition Deps_New (d : Deps) : Deps :=
  mkDeps (if streq (AptPath d) "" then "apt-get" else AptPath d)
         (if streq (DpkgPath d) "" then "dpkg" else DpkgPath d)
         (if streq (DpkgQueryPath d) "" then "dpkg-query" else DpkgQueryPath d) (Root d).
Definition effectiveRoot (d : Deps) : gostring := if streq (Root d) "" then "/" else Root d.

(** The processes a run may start. *)
Inductive call :=
| PrintArchitecture | PrintForeign | QueryInstalled
| AptUpdate (args : list gostring) | AptSimulate (args names : list gostring)
| AptInstall (args names : list gostring)
| DpkgUnpack (fastArgs files : list gostring) | DpkgConfigure (fastArgs : list gostring).
Definition dpkgInstalledQueryArgs : list gostring :=
  [bytes_of "-W"; bytes_of "--showformat=${Package}:${Architecture} ${Status}\n"].
Definition argv (d : Deps) (c : call) : list gostring :=
  match c with
  | PrintArchitecture => [DpkgPath d; bytes_of "--print-architecture"]
  | PrintForeign => [DpkgPath d; bytes_of "--print-foreign-architectures"]
  | QueryInstalled => DpkgQueryPath d :: dpkgInstalledQueryArgs
  | AptUpdate args => AptPath d :: args ++ [bytes_of "update"]
  | AptSimulate args names => AptPath d :: args ++ [bytes_of "-s"; bytes_of "install"] ++ names
  | AptInstall args names => AptPath d :: args ++ [bytes_of "install"] ++ names
  | DpkgUnpack fastArgs files => DpkgPath d :: fastArgs ++ [bytes_of "--unpack"] ++ files
  | DpkgConfigure fastArgs => DpkgPath d :: fastArgs ++ [bytes_of "--configure"; bytes_of "-a"]
  end.
(** The ones that change the machine's packages. *)
Definition changes (c : call) : bool :=
  match c with AptInstall _ _ | DpkgUnpack _ _ | DpkgConfigure _ => true | _ => false end.

Record BaseDivergence := mkDivergence { bd_BaseID : gostring; bd_Assumed : Z; bd_Missing : list gostring }.
Inductive problem :=
| ArchMismatch (bundle machine : gostring)
| ForeignNotEnabled (missing have : list gostring)
| NotInsideBundle (p : Package) | PoolFileMissing (p : Package) (err : gostring) | PoolNotRegular (p : Package)
| DiskShort (bytes : Z)
| AptSaid (line : gostring) | SimulationFailed (err : gostring) | ApplyFailed (err : goerror).
Inductive warning :=
| CodenameDiffers (bundle machine : gostring)
| NoDivergenceReport (err : goerror) | AssumedBase (baseID : gostring) | CannotListInstalled (err : gostring)
| DivergenceSentence (d : BaseDivergence) | UnusableEntries (n : Z)
| KeepSourceWithDpkg | RawDpkgPath | NothingToUpgrade
| CannotPersist (err : gostring) | StandingTrust (dest repoDir : gostring) | NoEvidenceLog (err : gostring).

Record IReport := mkIReport {
  ir_BundleID : gostring; ir_Verify : option Report; ir_Applied : bool; ir_OK : bool;
  ir_ToInstall : list gostring; ir_ToUpgrade : list gostring; ir_ToRemove : list gostring; ir_AlreadyCurrent : Z;
  ir_Expected : option Target; ir_Actual : option Target; ir_Divergence : option BaseDivergence;
  ir_Warnings : list warning; ir_Problems : list problem; ir_AptOutputDigest : gostring
}.
Definition empty_ireport : IReport := mkIReport [] None false false [] [] [] 0 None None None [] [] [].

(** ** The state of a run *)

Record state := mkState { st_calls : list call; st_output : gostring; st_report : IReport }.
Abbreviation run_monad := (run state error).
Definition finish {A} (err : error) : run_monad A := fail_with err.
Definition upd (f : IReport → IReport) : run_monad unit := λ s, (Ok tt, mkState (st_calls s) (st_output s) (f (st_report s))).
Definition get_report : run_monad IReport := λ s, (Ok (st_report s), s).
Definition guard_ (c : bool) (err : goerror) : run_monad unit := if c then finish (Some err) else mret tt.

Definition add_warning (w : warning) (r : IReport) : IReport :=
  mkIReport (ir_BundleID r) (ir_Verify r) (ir_Applied r) (ir_OK r) (ir_ToInstall r) (ir_ToUpgrade r) (ir_ToRemove r)
    (ir_AlreadyCurrent r) (ir_Expected r) (ir_Actual r) (ir_Divergence r) (ir_Warnings r ++ [w]) (ir_Problems r)
    (ir_AptOutputDigest r).
Definition add_problems (ps : list problem) (r : IReport) : IReport :=
  mkIReport (ir_BundleID r) (ir_Verify r) (ir_Applied r) (ir_OK r) (ir_ToInstall r) (ir_ToUpgrade r) (ir_ToRemove r)
    (ir_AlreadyCurrent r) (ir_Expected r) (ir_Actual r) (ir_Divergence r) (ir_Warnings r) (ir_Problems r ++ ps)
    (ir_AptOutputDigest r).
Definition set_verify (v : option Report) (r : IReport) : IReport :=
  mkIReport (match v ≫= rp_Manifest with Some m => m_BundleID m | None => ir_BundleID r end) v (ir_Applied r) (ir_OK r)
    (ir_ToInstall r) (ir_ToUpgrade r) (ir_ToRemove r) (ir_AlreadyCurrent r) (ir_Expected r) (ir_Actual r)
    (ir_Divergence r) (ir_Warnings r) (ir_Problems r) (ir_AptOutputDigest r).
Definition set_targets (e a : option Target) (r : IReport) : IReport :=
  mkIReport (ir_BundleID r) (ir_Verify r) (ir_Applied r) (ir_OK r) (ir_ToInstall r) (ir_ToUpgrade r) (ir_ToRemove r)
    (ir_AlreadyCurrent r) e a (ir_Divergence r) (ir_Warnings r) (ir_Problems r) (ir_AptOutputDigest r).
Definition set_divergence (d : BaseDivergence) (r : IReport) : IReport :=
  mkIReport (ir_BundleID r) (ir_Verify r) (ir_Applied r) (ir_OK r) (ir_ToInstall r) (ir_ToUpgrade r) (ir_ToRemove r)
    (ir_AlreadyCurrent r) (ir_Expected r) (ir_Actual r) (Some d) (ir_Warnings r) (ir_Problems r) (ir_AptOutputDigest r).
Definition set_plan (ins upg rem : list gostring) (already : Z) (r : IReport) : IReport :=
  mkIReport (ir_BundleID r) (ir_Verify r) (ir_Applied r) (ir_OK r) ins upg rem already (ir_Expected r) (ir_Actual r)
    (ir_Divergence r) (ir_Warnings r) (ir_Problems r) (ir_AptOutputDigest r).
Definition set_ok (applied ok : bool) (r : IReport) : IReport :=
  mkIReport (ir_BundleID r) (ir_Verify r) applied ok (ir_ToInstall r) (ir_ToUpgrade r) (ir_ToRemove r)
    (ir_AlreadyCurrent r) (ir_Expected r) (ir_Actual r) (ir_Divergence r) (ir_Warnings r) (ir_Problems r)
    (ir_AptOutputDigest r).
Definition set_digest (d : gostring) (r : IReport) : IReport :=
  mkIReport (ir_BundleID r) (ir_Verify r) (ir_Applied r) (ir_OK r) (ir_ToInstall r) (ir_ToUpgrade r) (ir_ToRemove r)
    (ir_AlreadyCurrent r) (ir_Expected r) (ir_Actual r) (ir_Divergence r) (ir_Warnings r) (ir_Problems r) d.

(** ** The machine *)

Record machine := mkMachine {
  w_bundle : gostring → result gostring bool;              (* os.Stat of the bundle path: is it a directory *)
  w_abs : gostring → option gostring;                      (* filepath.Abs *)
  w_verify : gostring → Verify.Options → option Report * error;
  w_lock_size : gostring → option Z;                       (* os.Stat of lock.json *)
  w_lock_raw : gostring → option gostring;                 (* os.ReadFile of lock.json *)
  w_snapshot : gostring → result gostring gostring;        (* os.ReadFile of snapshot.json *)
  w_stat_exe : gostring → result gostring bool;            (* os.Stat of a program: is it a directory *)
  w_lookpath : gostring → option gostring;                 (* exec.LookPath's error *)
  w_run : list call → call → gostring * option gostring;   (* combined output and error *)
  w_os_release : gostring → option gostring;
  w_perms : gostring → result gostring (mode_bits * bool);
  w_stat : gostring → result gostring bool;                (* os.Stat: is it a regular file *)
  w_disk_free : gostring → option Z;
  w_private_root : gostring → result gostring gostring;    (* the temporary directory built for a repository *)
  w_terminal : bool;                                       (* standard input is a terminal *)
  w_tree : gostring → option fsnode;                       (* what a path names *)
  w_persist : gostring → result gostring gostring;
  w_evidence : option gostring                             (* error writing the evidence log *)
}.

(** ** basedivergence.go *)

Record bundleOrigin := mkOrigin { bo_Kind : gostring; bo_BaseID : gostring; bo_AssumedInstalled : list gostring }.
Definition zero_origin : bundleOrigin := mkOrigin [] [] [].
Definition originSynthesized : gostring := "synthesized".
Definition maxEntryLen : nat := 256.
Definition printableEntry (s : gostring) : bool :=
  (length s <=? maxEntryLen)%nat && forallb (λ c, (33 <=? ord c) && (ord c <=? 126)) s.
Definition dpkgStatusInstalled (desired errFlag state : gostring) : bool :=
  (streq desired "install" || streq desired "hold") && streq errFlag "ok" && streq state "installed".
Definition installed_line (installed : gset gostring) (line : gostring) : gset gostring :=
  match fields line with
  | [pkg; desired; errFlag; state] => if dpkgStatusInstalled desired errFlag state then {[pkg]} ∪ installed else installed
  | _ => installed
  end.
Definition parseDpkgInstalledSet (out : gostring) : gset gostring :=
  fold_left installed_line (split newline (replace_all [chr 13; newline] [newline] out)) ∅.

(** The loop's state: seen, Assumed, Missing, unusable. *)
Fixpoint assumed_loop (installed : gset gostring) (entries : list gostring) (seen : gset gostring)
    (assumed : Z) (missing : list gostring) (unusable : Z) : Z * list gostring * Z :=
  match entries with
  | [] => (assumed, missing, unusable)
  | entry :: rest =>
      let entry := trim_space entry in
      if streq entry "" then assumed_loop installed rest seen assumed missing unusable
      else if negb (printableEntry entry) then assumed_loop installed rest seen assumed missing (unusable + 1)
      else if bool_decide (entry ∈ seen) then assumed_loop installed rest seen assumed missing unusable
      else assumed_loop installed rest ({[entry]} ∪ seen) (assumed + 1)
             (if bool_decide (entry ∈ installed) then missing else missing ++ [entry]) unusable
  end.
Definition compareAssumedInstalled (origin : bundleOrigin) (installed : gset gostring) : BaseDivergence * Z :=
  let '(assumed, missing, unusable) := assumed_loop installed (bo_AssumedInstalled origin) ∅ 0 [] 0 in
  (mkDivergence (bo_BaseID origin) assumed (sort_strings missing), unusable).

(** ** bundle.go, exec.go, privateroot.go *)

Fixpoint missingPoolFiles (stat : gostring → result gostring bool) (repoDir : gostring) (pkgs : list Package) : list problem :=
  match pkgs with
  | [] => []
  | p :: rest =>
      (if streq (p_Filename p) "" || negb (IsLocal (p_Filename p)) then [NotInsideBundle p]
       else match stat (path_clean (repoDir ++ "/" ++ p_Filename p)) with
            | Err e => [PoolFileMissing p e]
            | Ok regular => if regular then [] else [PoolNotRegular p]
            end) ++ missingPoolFiles stat repoDir rest
  end.

Definition fail (c : Class) : goerror := Dferr.New c "".
Definition requireConfirmation (terminal : bool) (opts : Options) : error :=
  if io_Yes opts then None else if terminal then None else Some (fail Usage).
Definition lookExecutable (w : machine) (path : gostring) : option gostring :=
  if streq (trim_space path) "" then Some (bytes_of "no path configured")
  else if contains_byte "/" path then
    match w_stat_exe w path with
    | Err e => Some e
    | Ok isDir => if isDir then Some (bytes_of "is a directory") else None
    end
  else w_lookpath w path.

Definition toSlash (p : gostring) : gostring := map (λ c, if beq c "\" then "/"%char else c) p.
Definition sourceStanza (absRepoDir : gostring) : gostring :=
  join [newline] [bytes_of "Types: deb"; "URIs: file://" ++ toSlash absRepoDir; bytes_of "Suites: ./"; bytes_of "Trusted: yes"; []].
Record privateRoot := mkPrivateRoot { pr_dir : gostring; pr_repoDir : gostring; pr_baseOpts : list gostring }.
Definition option_args (l : list gostring) : list gostring := concat (map (λ o, [bytes_of "-o"; o]) l).
Definition newPrivateRoot (w : machine) (repoDir : gostring) (fast : bool) : result gostring privateRoot :=
  dir ← w_private_root w repoDir;
  let opts := option_args [
    bytes_of "Dir::Etc::sourcelist=/dev/null"; "Dir::Etc::sourceparts=" ++ toSlash (dir ++ "/sources.list.d");
    bytes_of "Dir::Etc::preferences=/dev/null"; "Dir::Etc::preferencesparts=" ++ toSlash (dir ++ "/preferences.d");
    "Dir::State::lists=" ++ toSlash (dir ++ "/lists"); bytes_of "Dir::Cache::pkgcache="; bytes_of "Dir::Cache::srcpkgcache=";
    bytes_of "Acquire::Languages=none"; bytes_of "APT::Sandbox::User=root"] in
  let fastOpts := if fast then option_args [bytes_of "Dpkg::Options::=--force-unsafe-io"; bytes_of "Dpkg::Use-Pty=false"] else [] in
  Ok (mkPrivateRoot dir repoDir (opts ++ fastOpts)).
Definition AptArgs (pr : privateRoot) (yes : bool) : list gostring :=
  pr_baseOpts pr ++ (if yes then [bytes_of "-y"] else []).

(** [loadLock]; its error is wrapped by the caller. *)
Definition loadLock (w : machine) (bundleDir : gostring) : result goerror Lock :=
  match LockDoc.Load (w_lock_size w bundleDir) (w_lock_raw w bundleDir) with
  | Err _ => Err (fail Usage)
  | Ok lk => match Validate lk with Some _ => Err (fail Usage) | None => Ok lk end
  end.

(** [poolDebFiles]: the walk over [pool], stopped by its first error. Only the
    ASCII letters lower to those of [.deb], so lowering bytes decides the suffix. *)
Fixpoint pool_walk (root : gostring) (l : list visit) : result gostring (list gostring) :=
  match l with
  | [] => Ok []
  | VDir _ :: rest => pool_walk root rest
  | VError _ e :: _ => Err e
  | VFile rel _ _ _ :: rest =>
      more ← pool_walk root rest;
      Ok (if has_suffix ".deb" (map lower_byte (List.last (split slash rel) [])) then join_rel root rel :: more else more)
  end.
Definition poolDebFiles (w : machine) (repoDir : gostring) : result gostring (list gostring) :=
  let root := path_clean (repoDir ++ "/pool") in
  match w_tree w root with
  | None => Err (bytes_of "no such directory")
  | Some n => files ← pool_walk root (walk [] n); Ok (sort_strings files)
  end.

Section execute.
Context `{UnicodeTables} (w : machine) (d : Deps).

(** [runProcess] followed by [record]. *)
Definition run_process (c : call) : run_monad (gostring * option gostring) := λ s,
  let '(out, err) := w_run w (st_calls s) c in
  (Ok (out, err), mkState (st_calls s ++ [c]) (st_output s ++ out) (st_report s)).
Definition digestSoFar : run_monad unit := λ s,
  (Ok tt, mkState (st_calls s) (st_output s)
            (if streq (st_output s) "" then st_report s else set_digest (Bytes (st_output s)) (st_report s))).

Definition into_bundleOrigin : into bundleOrigin := into_struct (λ ms o,
  a ← into_field into_string ms "kind" (bo_Kind o);
  b ← into_field into_string ms "base_id" (bo_BaseID o);
  c ← into_field (into_slice into_string []) ms "assumed_installed" (bo_AssumedInstalled o);
  Ok (mkOrigin a b c)).
Definition readBundleSnapshotDoc (bundleDir : gostring) : result goerror bundleOrigin :=
  match w_snapshot w bundleDir with
  | Err e => Err (DfError Usage [] [] (Some (Plain e)))
  | Ok raw =>
      match json_parse raw with
      | None => Err (fail Usage)
      | Some doc =>
          map_err (λ _, fail Usage)
            (into_struct (λ ms o, into_field into_bundleOrigin ms "origin" o) doc zero_origin)
      end
  end.

Definition noteBaseDivergence (bundleDir : gostring) : run_monad unit :=
  match readBundleSnapshotDoc bundleDir with
  | Err e => upd (add_warning (NoDivergenceReport e))
  | Ok origin =>
      if negb (streq (bo_Kind origin) originSynthesized) then mret tt
      else
        _ ← upd (add_warning (AssumedBase (bo_BaseID origin)));
        '(out, qerr) ← run_process QueryInstalled;
        match qerr with
        | Some e => upd (add_warning (CannotListInstalled e))
        | None =>
            let '(div, unusable) := compareAssumedInstalled origin (parseDpkgInstalledSet out) in
            _ ← upd (set_divergence div);
            _ ← upd (add_warning (DivergenceSentence div));
            if 0 <? unusable then upd (add_warning (UnusableEntries unusable)) else mret tt
        end
  end.

(** The lock and the target checks, up to [noteBaseDivergence]. *)
Definition prepare (bundlePath : gostring) (opts : Options) : run_monad (gostring * Lock) :=
  _ ← guard_ (existsb (λ c, beq c " " || beq c (chr 9) || beq c newline) bundlePath) (fail Usage);
  _ ← (match w_bundle w bundlePath with
       | Ok true => mret tt
       | Ok false | Err _ => finish (Some (fail Usage))
       end);
  let bundleDir := default bundlePath (w_abs w bundlePath) in
  _ ← guard_ (o_SkipFileDigests (io_Verify opts)) (fail Usage);
  let '(vrep, verr) := w_verify w bundleDir (io_Verify opts) in
  _ ← upd (set_verify vrep);
  _ ← (match verr with
       | Some e => finish (match as_dferr e with Some _ => Some e | None => Wrap Verification (Some e) "" end)
       | None => mret tt
       end);
  vrep ← (match vrep with
          | Some r => if negb (rp_OK r) then finish (Some (fail Verification)) else mret r
          | None => finish (Some (fail Verification))
          end);
  lk ← (match loadLock w bundleDir with Ok lk => mret lk | Err e => finish (Wrap Usage (Some e) "") end);
  _ ← upd (λ r, set_targets (Some (l_Target lk)) (ir_Actual r) r);
  _ ← guard_ (bool_decide (lookExecutable w (DpkgPath d) ≠ None)) (fail Environment);
  _ ← guard_ (negb (io_Dpkg opts) && bool_decide (lookExecutable w (AptPath d) ≠ None)) (fail Environment);
  '(archOut, archErr) ← run_process PrintArchitecture;
  _ ← guard_ (bool_decide (archErr ≠ None)) (fail Environment);
  let actualArch := trim_space archOut in
  '(foreignOut, foreignErr) ← run_process PrintForeign;
  let actualForeign := match foreignErr with None => parseForeignArchs foreignOut | Some _ => [] end in
  let rel := readOSRelease (w_os_release w (effectiveRoot d)) in
  _ ← upd (λ r, set_targets (ir_Expected r)
        (Some (mkTarget (os_ID rel) (os_VersionID rel) (os_VersionCodename rel) actualArch actualForeign [] [])) r);
  let arch := t_Arch (l_Target lk) in
  _ ← (if negb (streq arch "") && negb (streq actualArch "") && negb (streq actualArch arch)
       then _ ← upd (add_problems [ArchMismatch arch actualArch]); finish (Some (fail TargetMismatch))
       else mret tt);
  let bundleForeign := match rp_Manifest vrep with Some m => tg_ForeignArchs (m_Target m) | None => [] end in
  let requiredForeign := mergeSortedUnique (t_ForeignArchs (l_Target lk)) bundleForeign in
  _ ← guard_ (negb (bool_decide (requiredForeign = [])) && bool_decide (foreignErr ≠ None)) (fail Environment);
  _ ← (match missingForeignArchs requiredForeign actualForeign actualArch with
       | [] => mret tt
       | missing =>
           _ ← upd (add_problems [ForeignNotEnabled missing actualForeign]);
           finish (Some (WithHint (fail TargetMismatch) (addArchitectureCommand missing)))
       end);
  let codename := t_Codename (l_Target lk) in
  _ ← (if negb (streq codename "") && negb (streq (os_VersionCodename rel) "") && negb (equal_fold codename (os_VersionCodename rel))
       then upd (add_warning (CodenameDiffers codename (os_VersionCodename rel))) else mret tt);
  _ ← noteBaseDivergence bundleDir;
  mret (bundleDir, lk).

(** The selected names and packages: [opts.Dpkg] or the two selections merged. *)
Definition pkg_leb (p q : Package) : bool :=
  if streq (p_Name p) (p_Name q) then str_leb (p_Arch p) (p_Arch q) else str_leb (p_Name p) (p_Name q).
Definition choose (opts : Options) (lk : Lock) : run_monad (list gostring * list Package) :=
  if io_Dpkg opts then
    _ ← upd (add_warning RawDpkgPath);
    mret (sort_strings (map (λ p, nameVersion (p_Name p) (p_Version p)) (l_Packages lk)), l_Packages lk)
  else
    '(names, pkgs) ← (match selectInstallSet lk (io_All opts) (io_Only opts) with
                      | Ok r => mret r
                      | Err _ => finish (Some (fail Usage))
                      end);
    if io_Upgrade opts then
      let '(upNames, upPkgs, total) := selectUpgradeSet lk pkgs in
      _ ← (if total =? 0 then upd (add_warning NothingToUpgrade) else mret tt);
      mret (mergeSortedUnique names upNames, sort_by pkg_leb (pkgs ++ upPkgs))
    else mret (names, pkgs).

Definition required_bytes (pkgs : list Package) : Z := fold_left (λ n p, wrap_int64 (n + p_Size p)) pkgs 0.
Definition check_disk (pkgs : list Package) : run_monad bool :=
  match w_disk_free w (effectiveRoot d) with
  | None => mret false
  | Some free =>
      let '(shortfall, short) := diskShortfall free (required_bytes pkgs) in
      if short then _ ← upd (add_problems [DiskShort shortfall]); mret true else mret false
  end.

(** [apt-get update] over the private root and the simulation. *)
Definition simulate (pr : privateRoot) (names : list gostring) : run_monad unit :=
  '(_, uerr) ← run_process (AptUpdate (AptArgs pr false));
  _ ← guard_ (bool_decide (uerr ≠ None)) (fail Environment);
  match names with
  | [] => mret tt
  | _ =>
      '(out, simErr) ← run_process (AptSimulate (AptArgs pr false) names);
      let '(toInstall, toUpgrade, toRemove, problems) := parseAptSim out in
      let already := Z.of_nat (length names) - Z.of_nat (length toInstall) - Z.of_nat (length toUpgrade) in
      _ ← upd (set_plan toInstall toUpgrade toRemove (if 0 <? already then already else 0));
      _ ← upd (add_problems (map AptSaid problems));
      match simErr, problems with
      | Some e, [] => upd (add_problems [SimulationFailed e])
      | _, _ => mret tt
      end
  end.

Definition check_keep_source (opts : Options) (repoDir : gostring) : run_monad unit :=
  if negb (io_KeepSource opts) then mret tt
  else if io_Dpkg opts then upd (add_warning KeepSourceWithDpkg)
  else match keepSourceTrustProblem (w_perms w) repoDir with
       | Some _ => finish (Some (fail Usage))
       | None => mret tt
       end.
(** apt's private view of the repository and its simulation, or the raw list. *)
Definition private_view (opts : Options) (repoDir : gostring) (names : list gostring) : run_monad (option privateRoot) :=
  if io_Dpkg opts then _ ← upd (set_plan names [] [] 0); mret None
  else match newPrivateRoot w repoDir (io_Fast opts) with
       | Err e => finish (Wrap Environment (Some (Plain e)) "")
       | Ok pr => _ ← simulate pr names; mret (Some pr)
       end.

(** From the --keep-source check to the computed plan. *)
Definition plan (opts : Options) (bundleDir : gostring) (lk : Lock)
    : run_monad (list gostring * list problem * bool * option privateRoot) :=
  let repoDir := path_clean (bundleDir ++ "/" ++ repoDirName) in
  _ ← check_keep_source opts repoDir;
  '(names, pkgs) ← choose opts lk;
  let poolProblems := missingPoolFiles (w_stat w) repoDir pkgs in
  _ ← upd (add_problems poolProblems);
  diskProblem ← check_disk pkgs;
  pr ← private_view opts repoDir names;
  _ ← upd (λ r, set_ok (ir_Applied r) (bool_decide (ir_Problems r = [])) r);
  _ ← digestSoFar;
  mret (names, poolProblems, diskProblem, pr).

Definition applyApt (pr : privateRoot) (names : list gostring) (opts : Options) : run_monad error :=
  match names with
  | [] => mret None
  | _ =>
      '(_, err) ← run_process (AptInstall (AptArgs pr (io_Yes opts)) names);
      mret (Plain <$> err)
  end.

Definition chunkSize : nat := 200.
(** [fuel] bounds the chunks: one per file is enough. *)
Fixpoint unpack_loop (fuel : nat) (fastArgs files : list gostring) : run_monad error :=
  match fuel, files with
  | _, [] | O, _ => mret None
  | S fuel, _ =>
      '(_, err) ← run_process (DpkgUnpack fastArgs (take chunkSize files));
      match err with
      | Some e => mret (Some (Plain e))
      | None => unpack_loop fuel fastArgs (drop chunkSize files)
      end
  end.
Definition applyDpkg (repoDir : gostring) (opts : Options) : run_monad error :=
  match poolDebFiles w repoDir with
  | Err e => mret (Some (Plain e))
  | Ok [] => mret (Some (Plain []))
  | Ok files =>
      let fastArgs := if io_Fast opts then [bytes_of "--force-unsafe-io"] else [] in
      err ← unpack_loop (length files) fastArgs files;
      match err with
      | Some e => mret (Some e)
      | None => '(_, err) ← run_process (DpkgConfigure fastArgs); mret (Plain <$> err)
      end
  end.

Definition refusal_class (poolProblems : list problem) (diskProblem : bool) : Class :=
  match poolProblems with
  | _ :: _ => Verification
  | [] => if diskProblem then Environment else Resolution
  end.

(** Past [if !apply]. *)
Definition apply_plan (opts : Options) (bundleDir : gostring) (names : list gostring) (poolProblems : list problem)
    (diskProblem : bool) (pr : option privateRoot) : run_monad unit :=
  r ← get_report;
  _ ← guard_ (negb (ir_OK r)) (fail (refusal_class poolProblems diskProblem));
  _ ← (match requireConfirmation (w_terminal w) opts with Some e => finish (Some e) | None => mret tt end);
  applyErr ← (match pr with
              | None => applyDpkg (path_clean (bundleDir ++ "/" ++ repoDirName)) opts
              | Some pr =>
                  err ← applyApt pr names opts;
                  _ ← (if bool_decide (err = None) && io_KeepSource opts then
                         match w_persist w (effectiveRoot d) with
                         | Err e => upd (add_warning (CannotPersist e))
                         | Ok dest => upd (add_warning (StandingTrust dest (pr_repoDir pr)))
                         end
                       else mret tt);
                  mret err
              end);
  _ ← upd (set_ok true (bool_decide (applyErr = None)));
  _ ← upd (add_problems (match applyErr with Some e => [ApplyFailed e] | None => [] end));
  _ ← digestSoFar;
  _ ← (match w_evidence w with Some e => upd (add_warning (NoEvidenceLog e)) | None => mret tt end);
  match applyErr with
  | Some e => finish (Wrap Resolution (Some e) "")
  | None => mret tt
  end.

Definition body (bundlePath : gostring) (opts : Options) (apply : bool) : run_monad unit :=
  '(bundleDir, lk) ← prepare bundlePath opts;
  '(names, poolProblems, diskProblem, pr) ← plan opts bundleDir lk;
  if apply then apply_plan opts bundleDir names poolProblems diskProblem pr else finish None.

(** The report, the error and the processes started. *)
Definition execute (bundlePath : gostring) (opts : Options) (apply : bool) : IReport * error * list call :=
  let '(r, s) := body bundlePath opts apply (mkState [] [] empty_ireport) in
  (st_report s, match r with Err e => e | Ok _ => None end, st_calls s).
Definition Plan (bundlePath : gostring) (opts : Options) := execute bundlePath opts false.
Definition Apply (bundlePath : gostring) (opts : Options) := execute bundlePath opts true.
End execute.
