(* ===== verification/InstallText.v ===== *)
(** * core/install: the texts that are bounded or grouped.

    [failureDetail] of [exec.go]; [groupThousands] and [divergenceSentence] of
    [basedivergence.go]. *)
From S2P Require Export InstallRun.
#[local] Open Scope Z_scope.

(** ** exec.go *)

(** The regular expression [^(?:E:|dpkg(?:-[a-z]+)?:)]. *)
Fixpoint after_letters (s : gostring) : gostring :=
  match s with c :: s' => if is_lower c then after_letters s' else s | [] => [] end.
Definition failureLineRE (line : gostring) : bool :=
  has_prefix "E:" line ||
  match cut_prefix "dpkg" line with
  | None => false
  | Some rest =>
      has_prefix ":" rest ||
      match rest with
      | d :: c :: rest' => beq d "-" && is_lower c && has_prefix ":" (after_letters rest')
      | _ => false
      end
  end.

Definition maxDetailLines : nat := 6.
Definition maxDetailBytes : nat := 600.

Fixpoint failure_loop (lines : list gostring) (inFailure : bool) : list gostring :=
  match lines with
  | [] => []
  | raw :: rest =>
      let trimmed := trim_space raw in
      if streq trimmed "" then failure_loop rest false
      else if failureLineRE trimmed then trimmed :: failure_loop rest true
      else if inFailure && (has_prefix " " raw || has_prefix [chr 9] raw) then trimmed :: failure_loop rest true
      else failure_loop rest false
  end.
(** The loop from the last line up; [kept] grows at its front. *)
Fixpoint tail_loop (rev_lines kept : list gostring) : list gostring :=
  match rev_lines with
  | [] => kept
  | raw :: rest =>
      if (length kept <? maxDetailLines)%nat
      then tail_loop rest (if streq (trim_space raw) "" then kept else trim_space raw :: kept)
      else kept
  end.
Definition elide (kept : list gostring) : list gostring :=
  if (maxDetailLines <? length kept)%nat
  then take (maxDetailLines - 1) kept ++ [bytes_of "..."; List.last kept []]
  else kept.
(** [utf8.RuneStart]. *)
Definition rune_start (c : ascii) : bool := negb (is_cont c).
Fixpoint back_off (s : gostring) (cut : nat) : nat :=
  match cut with
  | O => O
  | S n => match s !! cut with
           | Some c => if rune_start c then cut else back_off s n
           | None => cut
           end
  end.
(** The lines kept: the failures with their continuations, or else the last lines. *)
Definition output_lines (b : gostring) : list gostring := split newline (replace_all [chr 13; newline] [newline] b).
Definition kept_lines (lines : list gostring) : list gostring :=
  match failure_loop lines false with
  | [] => tail_loop (rev lines) []
  | kept => kept
  end.
Definition failureDetail (b : gostring) : gostring :=
  match kept_lines (output_lines b) with
  | [] => []
  | kept =>
      let detail := join "; " (elide kept) in
      if (maxDetailBytes <? length detail)%nat
      then take (back_off detail (maxDetailBytes - 3)) detail ++ "..."
      else detail
  end.

(** ** basedivergence.go *)

Fixpoint group_loop (n : nat) (s : gostring) : gostring :=
  match s with
  | [] => []
  | c :: rest =>
      (if (0 <? n)%nat && (length s mod 3 =? 0)%nat then [","%char; c] else [c]) ++ group_loop (S n) rest
  end.
Definition groupThousands (n : Z) : gostring :=
  let s := itoa n in
  match cut_prefix "-" s with
  | Some s => "-" ++ group_loop 0 s
  | None => group_loop 0 s
  end.
Definition maxNamedMissing : nat := 10.
Definition divergenceSentence (d : BaseDivergence) : gostring :=
  let total := groupThousands (bd_Assumed d) in
  if bd_Assumed d =? 0 then "this bundle's assumed base lists no packages, so there was nothing to compare against this machine"
  else match bd_Missing d with
  | [] => "all " ++ total ++ " packages the base assumes are present on this machine - nothing it assumed is missing"
  | missing =>
      let suffix := if (maxNamedMissing <? length missing)%nat
                    then " and " ++ groupThousands (Z.of_nat (length missing) - Z.of_nat maxNamedMissing) ++ " more"
                    else [] in
      groupThousands (Z.of_nat (length missing)) ++ " of the " ++ total ++
        " assumed base packages are not present on this machine: " ++
        join ", " (take maxNamedMissing missing) ++ suffix ++
        " - the bundle was resolved as if this machine already had them, so it may be short"
  end.

Example groupThousands_examples :
  groupThousands 1847 = bytes_of "1,847" ∧ groupThousands (-1234567) = bytes_of "-1,234,567" ∧ groupThousands 12 = bytes_of "12".
Proof. by vm_compute. Qed.
Example failureDetail_example :
  failureDetail ("Reading" ++ [newline] ++ "dpkg: error (--unpack):" ++ [newline] ++ " wrong arch" ++ [newline] ++ "E: bad") =
  bytes_of "dpkg: error (--unpack):; wrong arch; E: bad".
Proof. by vm_compute. Qed.

(** ** The bounds *)

Lemma back_off_le s cut : (back_off s cut ≤ cut)%nat.
Proof.
  induction cut as [|n IH]; cbn [back_off]; [done|]. destruct (s !! S n) as [c|]; [|done]. destruct (rune_start c); lia.
Qed.
(** The cut is at the start of a rune, or at the start of the text. *)
Lemma back_off_start s cut : (cut < length s)%nat →
  back_off s cut = O ∨ ∃ c, s !! back_off s cut = Some c ∧ rune_start c = true.
Proof.
  induction cut as [|n IH]; intros Hl; cbn [back_off]; [by left|].
  destruct (s !! S n) as [c|] eqn:E; [|by apply lookup_ge_None in E; lia].
  destruct (rune_start c) eqn:Er; [right; eauto|]. apply IH. lia.
Qed.

Lemma failure_loop_nonblank lines b : Forall (λ l, l ≠ []) (failure_loop lines b).
Proof.
  revert b. induction lines as [|raw rest IH]; intros b; cbn [failure_loop]; [constructor|].
  destruct (streq (trim_space raw) "") eqn:E; [apply IH|]. apply streq_false_iff in E.
  destruct (failureLineRE _); [by constructor|]. destruct (b && _); [by constructor|apply IH].
Qed.
Lemma failure_loop_blank lines b : Forall (λ l, trim_space l = []) lines → failure_loop lines b = [].
Proof.
  revert b. induction lines as [|raw rest IH]; intros b; cbn [failure_loop]; [done|].
  intros [-> Hr]%Forall_cons. rewrite streq_refl. by apply IH.
Qed.
Lemma tail_loop_spec ls : ∀ kept, Forall (λ l, l ≠ []) kept →
  Forall (λ l, l ≠ []) (tail_loop ls kept) ∧ (tail_loop ls kept = [] ↔ kept = [] ∧ Forall (λ l, trim_space l = []) ls).
Proof.
  induction ls as [|raw rest IH]; intros kept Hk; cbn [tail_loop].
  { split; [done|]. split; [|by intros [? _]]. intros ->. by split; [|constructor]. }
  destruct (Nat.ltb_spec (length kept) maxDetailLines) as [Hl|Hl].
  - rewrite Forall_cons. destruct (streq (trim_space raw) "") eqn:E.
    + apply streq_true in E. destruct (IH kept Hk) as [H1 H2]. split; [done|]. rewrite H2. tauto.
    + apply streq_false_iff in E. destruct (IH (trim_space raw :: kept)) as [H1 H2]; [by constructor|].
      split; [done|]. rewrite H2. split; [by intros [? _]|]. intros (_ & ? & _). done.
  - split; [done|]. destruct kept; [simpl in Hl; unfold maxDetailLines in Hl; lia|]. split; [done|by intros [? _]].
Qed.

Lemma join_nonempty sep l : l ≠ [] → Forall (λ x, x ≠ []) l → join sep l ≠ [].
Proof.
  destruct l as [|x [|y l]]; [done|..]; intros _ [Hx _]%Forall_cons; [done|].
  simpl. intros [? _]%app_eq_nil. done.
Qed.

Lemma kept_lines_spec lines :
  Forall (λ l, l ≠ []) (kept_lines lines) ∧ (kept_lines lines = [] ↔ Forall (λ l, trim_space l = []) lines).
Proof.
  unfold kept_lines. destruct (tail_loop_spec (rev lines) [] (Forall_nil_2 _)) as [H1 H2].
  assert (Forall (λ l, trim_space l = []) (rev lines) ↔ Forall (λ l, trim_space l = []) lines) as Hr
    by (rewrite !Forall_forall; by setoid_rewrite elem_of_rev).
  pose proof (failure_loop_nonblank lines false) as Hf. destruct (failure_loop lines false) as [|f fs] eqn:E.
  - split; [done|]. rewrite H2, Hr. tauto.
  - split; [done|]. split; [done|]. intros Hb. by rewrite failure_loop_blank in E.
Qed.
Lemma elide_spec kept : kept ≠ [] → Forall (λ l, l ≠ []) kept → elide kept ≠ [] ∧ Forall (λ l, l ≠ []) (elide kept).
Proof.
  intros Hne Hf. unfold elide. destruct (Nat.ltb_spec maxDetailLines (length kept)); [|done].
  split; [by intros [_ ?]%app_eq_nil|]. apply Forall_app. split; [by apply Forall_take|].
  constructor; [done|]. constructor; [|constructor]. destruct (snoc_cases kept) as [->|(l & x & ->)]; [done|].
  rewrite last_last. by apply Forall_app in Hf as [_ [? _]%Forall_cons].
Qed.

(** The detail of a failed process stays a message: at most 600 bytes
    whatever the output, empty only when the process printed nothing but blank
    lines, and cut, when it has to be, at the start of a rune. *)
Theorem failureDetail_bounds (b : gostring) :
  let detail := join "; " (elide (kept_lines (output_lines b))) in
  (length (failureDetail b) ≤ maxDetailBytes)%nat ∧
  (failureDetail b = [] ↔ Forall (λ l, trim_space l = []) (output_lines b)) ∧
  (failureDetail b = detail ∨
   ∃ cut, failureDetail b = take cut detail ++ "..." ∧ (cut = O ∨ ∃ c, detail !! cut = Some c ∧ rune_start c = true)).
Proof.
  unfold failureDetail. destruct (kept_lines_spec (output_lines b)) as [Hk Hb].
  destruct (kept_lines (output_lines b)) as [|k ks]; [split_and!; [simpl; unfold maxDetailBytes; lia|by rewrite <- Hb|by left]|].
  destruct (elide_spec (k :: ks)) as [Hne Hf]; [done|done|].
  pose proof (join_nonempty "; " _ Hne Hf) as Hj. set (detail := join "; " (elide (k :: ks))) in *. cbv zeta.
  rewrite <- Hb. destruct (Nat.ltb_spec maxDetailBytes (length detail)) as [Hl|Hl].
  - pose proof (back_off_le detail (maxDetailBytes - 3)). split_and!.
    + rewrite length_app, length_take. change (length (bytes_of "...")) with 3%nat. unfold maxDetailBytes in *. lia.
    + split; [|done]. by intros [_ ?]%app_eq_nil.
    + right. eexists. split; [done|]. apply back_off_start. unfold maxDetailBytes in *. lia.
  - split_and!; [done|by split|by left].
Qed.
