(* ===== verification/InstallSafe.v ===== *)
(** * What a run of [debark install] may do, and when.

    The rules of [RunMonad] for a run's own steps, one specification per
    phase, and the safety theorems of the whole run. *)
From S2P Require Export VerifySound InstallRun.
#[local] Open Scope Z_scope.

(** ** Weakest preconditions *)

Lemma wp_finish {A} (e : error) (Q : A → state → Prop) E s : E e s → wp (finish e) Q E s.
Proof. done. Qed.
Lemma wp_upd f (Q : unit → state → Prop) E s :
  Q tt (mkState (st_calls s) (st_output s) (f (st_report s))) → wp (upd f) Q E s.
Proof. done. Qed.
Lemma wp_get (Q : IReport → state → Prop) E s : Q (st_report s) s → wp get_report Q E s.
Proof. done. Qed.
Lemma wp_guard_ c e (Q : unit → state → Prop) E s :
  (c = true → E (Some e) s) → (c = false → Q tt s) → wp (guard_ c e) Q E s.
Proof. destruct c; cbn; auto. Qed.
Lemma wp_process w c (Q : gostring * option gostring → state → Prop) E s :
  (∀ out err, w_run w (st_calls s) c = (out, err) →
     Q (out, err) (mkState (st_calls s ++ [c]) (st_output s ++ out) (st_report s))) →
  wp (run_process w c) Q E s.
Proof. intros H. unfold wp, run_process. destruct (w_run w (st_calls s) c) as [out err] eqn:Er. by apply H. Qed.
Lemma wp_digest (Q : unit → state → Prop) E s :
  (∀ s', st_calls s' = st_calls s → ir_Problems (st_report s') = ir_Problems (st_report s) →
     ir_Applied (st_report s') = ir_Applied (st_report s) → ir_OK (st_report s') = ir_OK (st_report s) → Q tt s') →
  wp digestSoFar Q E s.
Proof. intros HQ. unfold wp, digestSoFar. destruct (streq (st_output s) ""); by apply HQ. Qed.

(** No process that changes the machine has been started. *)
Definition quiet (s : state) : Prop := Forall (λ c, changes c = false) (st_calls s).
Lemma quiet_snoc cs c : Forall (λ c, changes c = false) cs → changes c = false →
  Forall (λ c, changes c = false) (cs ++ [c]).
Proof. intros. apply Forall_app. repeat constructor; done. Qed.
#[export] Hint Resolve quiet_snoc : debark.

(** The walk over a phase: one rule per step. *)
Ltac wp_step :=
  cbn beta iota;
  match goal with
  | |- wp (mbind _ _) _ _ _ => apply wp_bind
  | |- wp (mret _) _ _ _ => apply wp_ret
  | |- wp (finish _) _ _ _ => apply wp_finish
  | |- wp (upd _) _ _ _ => apply wp_upd; cbn [st_calls st_output st_report]
  | |- wp get_report _ _ _ => apply wp_get; cbn [st_report]
  | |- wp (guard_ _ _) _ _ _ => apply wp_guard_; intros
  | |- wp (run_process _ _) _ _ _ => apply wp_process; cbn [st_calls]; intros
  | |- wp (if ?b then _ else _) _ _ _ => let E := fresh "G" in destruct b eqn:E
  end.

Section safe.
Context `{UnicodeTables} (w : machine) (d : Deps).

(** Divergence only adds warnings and a query. *)
Lemma wp_divergence dir (Q : unit → state → Prop) E s :
  quiet s →
  (∀ s', quiet s' → ir_Problems (st_report s') = ir_Problems (st_report s) ∧
     ir_Applied (st_report s') = ir_Applied (st_report s) ∧ ir_OK (st_report s') = ir_OK (st_report s) → Q tt s') →
  wp (noteBaseDivergence w dir) Q E s.
Proof.
  intros Hq HQ. unfold noteBaseDivergence, quiet in *.
  destruct (readBundleSnapshotDoc w dir) as [o|e]; [|wp_step; by apply HQ].
  wp_step; [wp_step; by apply HQ|]. wp_step. wp_step. wp_step. wp_step.
  destruct err as [e|]; [wp_step; apply HQ; cbn; auto with debark|].
  destruct (compareAssumedInstalled _ _) as [div n].
  wp_step. wp_step. wp_step. wp_step. wp_step; wp_step; apply HQ; cbn; auto with debark.
Qed.

(** What is established once [prepare] returns. *)
Record cleared (bundlePath : gostring) (opts : Options) (dir : gostring) (lk : Lock) : Prop := {
  cl_path : Forall (λ c, c ≠ " "%char ∧ c ≠ chr 9 ∧ c ≠ newline) bundlePath;
  cl_dir : w_bundle w bundlePath = Ok true ∧ dir = default bundlePath (w_abs w bundlePath);
  cl_digests : o_SkipFileDigests (io_Verify opts) = false;
  cl_lock : loadLock w dir = Ok lk;
  cl_verified : ∃ rep archOut foreignOut foreignErr,
    w_verify w dir (io_Verify opts) = (Some rep, None) ∧ rp_OK rep = true ∧
    w_run w [] PrintArchitecture = (archOut, None) ∧
    (trim_space archOut = [] ∨ trim_space archOut = t_Arch (l_Target lk)) ∧
    w_run w [PrintArchitecture] PrintForeign = (foreignOut, foreignErr) ∧
    ∀ a, a ∈ t_ForeignArchs (l_Target lk) ++ (match rp_Manifest rep with Some m => tg_ForeignArchs (m_Target m) | None => [] end) →
      trim_space a = [] ∨ trim_space a = trim_space archOut ∨
      (foreignErr = None ∧ (trim_space a ∈ map trim_space (fields foreignOut)))
}.

Lemma elem_of_add_unique x : ∀ l out, x ∈ add_unique out l ↔ x ∈ out ∨ x ∈ l.
Proof.
  induction l as [|y l IH]; intros out; cbn [add_unique]; [set_solver|].
  case_bool_decide; rewrite IH, ?elem_of_app; set_solver.
Qed.
Lemma elem_of_merge x a b : x ∈ mergeSortedUnique a b ↔ x ∈ a ∨ x ∈ b.
Proof.
  destruct b as [|y b]; [set_solver|]. unfold mergeSortedUnique. rewrite elem_of_sort_strings, !elem_of_add_unique. set_solver.
Qed.

Lemma loadLock_arch dir lk : loadLock w dir = Ok lk → t_Arch (l_Target lk) ≠ [].
Proof.
  unfold loadLock. destruct (LockDoc.Load _ _) as [l|]; [|done]. destruct (Validate l) eqn:Ev; [done|].
  intros [= <-]. by apply Validate_None in Ev as [].
Qed.

Lemma path_chars (p : gostring) :
  existsb (λ c, beq c " " || beq c (chr 9) || beq c newline) p = false →
  Forall (λ c, c ≠ " "%char ∧ c ≠ chr 9 ∧ c ≠ newline) p.
Proof.
  intros H0. apply Forall_forall. intros c Hc%list_elem_of_In. unfold beq in H0.
  rewrite <- not_true_iff_false, existsb_exists in H0.
  split_and!; intros ->; apply H0; eexists; (split; [done|]); by vm_compute.
Qed.

Lemma foreign_enabled archOut foreignOut foreignErr lockArchs bundleArchs :
  negb (bool_decide (mergeSortedUnique lockArchs bundleArchs = [])) && bool_decide (foreignErr ≠ None) = false →
  missingForeignArchs (mergeSortedUnique lockArchs bundleArchs)
    (match foreignErr with None => parseForeignArchs foreignOut | Some _ => [] end : list gostring) (trim_space archOut) = [] →
  ∀ a, a ∈ lockArchs ++ bundleArchs →
    trim_space a = [] ∨ trim_space a = trim_space archOut ∨
    ((foreignErr : option gostring) = None ∧ (trim_space a ∈ map trim_space (fields foreignOut))).
Proof.
  intros Hg Hm a Ha. set (req := mergeSortedUnique lockArchs bundleArchs) in *.
  assert (a ∈ req) as Hr by (apply elem_of_merge; by apply elem_of_app).
  destruct foreignErr as [e|].
  { exfalso. rewrite (bool_decide_eq_true_2 (Some e ≠ None)), andb_true_r in Hg by done. bsplit. rewrite Hg in Hr. by apply elem_of_nil in Hr. }
  destruct (missingForeignArchs_spec req (parseForeignArchs foreignOut) (trim_space archOut)) as [_ Hs].
  rewrite Hm in Hs. specialize (Hs (trim_space a)). rewrite elem_of_nil in Hs.
  destruct (decide (trim_space a = [])) as [?|Hne]; [auto|]. right.
  destruct (decide (trim_space a ∈ map trim_space (parseForeignArchs foreignOut))) as [Hin|Hin].
  - right. split; [done|]. apply list_elem_of_fmap in Hin as (b & -> & Hb). unfold parseForeignArchs in Hb.
    apply (list_elem_of_fmap_2 trim_space). by rewrite elem_of_sort_strings in Hb.
  - left. destruct (decide (trim_space a = trim_space archOut)) as [?|Hx]; [done|]. exfalso. apply Hs.
    split_and!; [done|by apply (list_elem_of_fmap_2 trim_space)|done|]. by rewrite trim_space_idem.
Qed.

(** Close a branch that ends the run. *)
Ltac wp_stop := cbn in *; split_and!; first [done | by auto with debark | by repeat constructor].

Lemma wp_prepare bundlePath opts s :
  s = mkState [] [] empty_ireport →
  wp (prepare w d bundlePath opts)
    (λ r s', quiet s' ∧ ir_Problems (st_report s') = [] ∧ ir_Applied (st_report s') = false ∧
       ir_OK (st_report s') = false ∧ cleared bundlePath opts r.1 r.2)
    (λ e s', quiet s' ∧ e ≠ None ∧ ir_Applied (st_report s') = false ∧ ir_OK (st_report s') = false) s.
Proof.
  intros ->. unfold prepare, quiet.
  assert (Forall (λ c, changes c = false) [PrintArchitecture; PrintForeign]) as Hq by (repeat constructor).
  do 2 wp_step; [wp_stop|]. wp_step.
  destruct (w_bundle w bundlePath) as [[]|e] eqn:Eb; [|wp_step; wp_stop..]. wp_step. cbv zeta.
  do 2 wp_step; [wp_stop|]. set (dir := default bundlePath (w_abs w bundlePath)).
  destruct (w_verify w dir (io_Verify opts)) as [vrep verr] eqn:Ev. do 3 wp_step.
  destruct verr as [e|]; [wp_step; destruct (as_dferr e); wp_stop|]. do 2 wp_step.
  destruct vrep as [rep|]; [|wp_step; wp_stop]. wp_step; [wp_step; wp_stop|]. do 2 wp_step.
  destruct (loadLock w dir) as [lk|e] eqn:El; [|wp_step; wp_stop]. do 3 wp_step.
  do 2 wp_step; [wp_stop|]. do 2 wp_step; [wp_stop|]. do 2 wp_step. do 2 wp_step; [wp_stop|]. do 2 wp_step. do 2 wp_step.
  match goal with |- wp _ _ _ (mkState _ ?o ?r) => generalize o; generalize (eq_refl : ir_Problems r = [])
    (eq_refl : ir_Applied r = false) (eq_refl : ir_OK r = false); generalize r end.
  intros rp Hp Ha Hok o. cbv zeta in *. cbn [app] in *.
  wp_step. wp_step; [do 2 wp_step; wp_step; wp_stop|]. wp_step.
  do 2 wp_step; [wp_stop|]. wp_step.
  match goal with Hg : negb _ && bool_decide (err0 ≠ None) = false |- _ => rename Hg into Hf end.
  destruct (missingForeignArchs _ _ (trim_space out)) as [|m ms] eqn:Em; [|do 2 wp_step; wp_step; wp_stop]. wp_step.
  pose proof (foreign_enabled _ _ _ _ _ Hf Em) as Hforeign.
  assert (∀ rp', ir_Problems rp' = [] → ir_Applied rp' = false → ir_OK rp' = false →
    wp (noteBaseDivergence w dir ≫= λ _, mret (dir, lk))
      (λ r s', quiet s' ∧ ir_Problems (st_report s') = [] ∧ ir_Applied (st_report s') = false ∧
         ir_OK (st_report s') = false ∧ cleared bundlePath opts r.1 r.2)
      (λ e s', quiet s' ∧ e ≠ None ∧ ir_Applied (st_report s') = false ∧ ir_OK (st_report s') = false)
      (mkState [PrintArchitecture; PrintForeign] o rp')) as Hend.
  { intros rp' Hp' Ha' Hok'. wp_step. apply wp_divergence; [exact Hq|]. intros s' Hq' (E1 & E2 & E3).
    wp_step. split_and!; [done|by rewrite E1|by rewrite E2|by rewrite E3|]. cbn [fst snd]. bsplit.
    constructor; [by apply path_chars|done|done|done|].
    assert (err = None) as -> by (by apply dec_stable).
    exists rep, out, out0, err0. split_and!; [done|done|done| |done|exact Hforeign].
    pose proof (loadLock_arch _ _ El) as Hne.
    destruct (streq (t_Arch (l_Target lk)) "") eqn:E4; [by apply streq_true in E4|].
    destruct (streq (trim_space out) "") eqn:E5; [left; by apply streq_true in E5|].
    right. cbn [negb andb] in G0. bsplit. by apply streq_true. }
  wp_step. wp_step; [wp_step; by apply Hend|wp_step; by apply Hend].
Qed.

(** ** The plan *)

Definition repo_of (dir : gostring) : gostring := path_clean (dir ++ "/" ++ repoDirName).

(** apt was asked for exactly [names] in a simulation that ended well and whose
    output reports nothing. *)
Definition simulated (pr : privateRoot) (names : list gostring) : Prop :=
  ∃ hist out, w_run w hist (AptSimulate (AptArgs pr false) names) = (out, None) ∧
    ∀ t, t ∈ sim_lines out → reported (sim_text t) = false.

(** The arguments and packages of the apt path: the selection, with the upgrades
    of the lock when they were asked for. *)
Definition chosen (opts : Options) (lk : Lock) (names : list gostring) (pkgs : list Package) : Prop :=
  ∃ bn bp, selectInstallSet lk (io_All opts) (io_Only opts) = Ok (bn, bp) ∧
    if io_Upgrade opts
    then names = mergeSortedUnique bn (selectUpgradeSet lk bp).1.1 ∧ pkgs ≡ₚ bp ++ (selectUpgradeSet lk bp).1.2
    else names = bn ∧ pkgs = bp.

Record plan_ok (opts : Options) (dir : gostring) (lk : Lock) (names : list gostring) (pr : option privateRoot) : Prop := {
  po_packages : ∃ pkgs,
    missingPoolFiles (w_stat w) (repo_of dir) pkgs = [] ∧
    (∀ free, w_disk_free w (effectiveRoot d) = Some free → (diskShortfall free (required_bytes pkgs)).2 = false) ∧
    if io_Dpkg opts then pkgs = l_Packages lk else chosen opts lk names pkgs;
  po_root : match pr with
            | None => io_Dpkg opts = true
            | Some pr => io_Dpkg opts = false ∧ newPrivateRoot w (repo_of dir) (io_Fast opts) = Ok pr ∧
                (names ≠ [] → simulated pr names)
            end
}.

(** The parts of the report the safety argument follows. *)
Definition same_flags (r r' : IReport) : Prop := ir_Applied r' = ir_Applied r ∧ ir_OK r' = ir_OK r.

Lemma parseAptSim_quiet out a b c : parseAptSim out = (a, b, c, []) → ∀ t, t ∈ sim_lines out → reported (sim_text t) = false.
Proof. unfold parseAptSim. intros [= _ _ _ Hp]. by apply parse_lines_problems. Qed.

Lemma wp_simulate pr names (Q : unit → state → Prop) E s :
  quiet s →
  (∀ s', quiet s' → same_flags (st_report s) (st_report s') →
     (ir_Problems (st_report s') = [] → ir_Problems (st_report s) = [] ∧ (names ≠ [] → simulated pr names)) → Q tt s') →
  (∀ s', quiet s' → same_flags (st_report s) (st_report s') → E (Some (fail Environment)) s') →
  wp (simulate w pr names) Q E s.
Proof.
  intros Hq HQ HE. unfold simulate, quiet in *. do 2 wp_step.
  do 2 wp_step; [by apply HE; [apply quiet_snoc|]|].
  destruct names as [|n ns]; [wp_step; apply HQ; [by apply quiet_snoc|done|done]|].
  do 2 wp_step. destruct (parseAptSim out0) as [[[ins upg] rem] ps] eqn:Ep. cbv zeta. do 4 wp_step.
  assert (∀ r, same_flags (st_report s) r →
    (ir_Problems r = [] → ir_Problems (st_report s) = [] ∧ err0 = None ∧ ps = []) →
    Q tt (mkState ((st_calls s ++ [AptUpdate (AptArgs pr false)]) ++ [AptSimulate (AptArgs pr false) (n :: ns)])
            ((st_output s ++ out) ++ out0) r)) as Hend.
  { intros r Hs Hr. apply HQ; [by repeat apply quiet_snoc|done|].
    intros Hnone. apply Hr in Hnone as (Hp & -> & ->). split; [done|]. intros _.
    eexists _, out0. split; [eassumption|]. by eapply parseAptSim_quiet. }
  destruct err0 as [e|]; [destruct ps as [|p ps]|]; wp_step; apply Hend; try done;
    cbn [set_plan add_problems ir_Problems map]; rewrite ?app_nil_r.
  - by intros [_ Hx]%app_eq_nil.
  - by intros [_ Hx]%app_eq_nil.
  - intros [Hp Hm]%app_eq_nil. by destruct ps.
Qed.

Lemma wp_choose opts lk (Q : list gostring * list Package → state → Prop) E s :
  quiet s →
  (∀ names pkgs s', quiet s' → same_flags (st_report s) (st_report s') → ir_Problems (st_report s') = ir_Problems (st_report s) →
     (if io_Dpkg opts then pkgs = l_Packages lk else chosen opts lk names pkgs) → Q (names, pkgs) s') →
  (E (Some (fail Usage)) s) →
  wp (choose opts lk) Q E s.
Proof.
  intros Hq HQ HE. unfold choose. wp_step.
  - do 2 wp_step. wp_step. by apply HQ.
  - wp_step. destruct (selectInstallSet _ _ _) as [[bn bp]|e] eqn:Es; [wp_step|by wp_step].
    wp_step; [|wp_step; apply HQ; [done..|exists bn, bp; by rewrite G0]].
    destruct (selectUpgradeSet lk bp) as [[un up] total] eqn:Eu. wp_step.
    assert (∀ s', quiet s' → same_flags (st_report s) (st_report s') → ir_Problems (st_report s') = ir_Problems (st_report s) →
      Q (mergeSortedUnique bn un, sort_by pkg_leb (bp ++ up)) s') as Hend.
    { intros s' ???. apply HQ; [done..|]. exists bn, bp. rewrite G0, Eu. split_and!; [done|done|]. apply sort_by_perm. }
    wp_step; repeat wp_step; by apply Hend.
Qed.

Definition keep_source_ok (opts : Options) (dir : gostring) : Prop :=
  io_KeepSource opts = true → io_Dpkg opts = false → keepSourceTrustProblem (w_perms w) (repo_of dir) = None.
Definition refused (e : error) (s : state) : Prop :=
  quiet s ∧ e ≠ None ∧ ir_Applied (st_report s) = false ∧ ir_OK (st_report s) = false.

Lemma wp_disk pkgs (Q : bool → state → Prop) E s :
  quiet s →
  (∀ b s', quiet s' → same_flags (st_report s) (st_report s') →
     (ir_Problems (st_report s') = [] → ir_Problems (st_report s) = [] ∧
        ∀ free, w_disk_free w (effectiveRoot d) = Some free → (diskShortfall free (required_bytes pkgs)).2 = false) → Q b s') →
  wp (check_disk w d pkgs) Q E s.
Proof.
  intros Hq HQ. unfold check_disk. destruct (w_disk_free w _) as [free|] eqn:Ef; [|wp_step; by apply HQ].
  destruct (diskShortfall free _) as [n []] eqn:Ed; repeat wp_step; apply HQ; try done.
  - cbn. by intros [_ ?]%app_eq_nil.
  - intros ?. split; [done|]. intros free' [= <-]. by rewrite Ed.
Qed.

Lemma wp_keep_source opts dir (Q : unit → state → Prop) E s :
  (∀ s', st_calls s' = st_calls s → ir_Problems (st_report s') = ir_Problems (st_report s) →
     same_flags (st_report s) (st_report s') → keep_source_ok opts dir → Q tt s') →
  E (Some (fail Usage)) s → wp (check_keep_source w opts (repo_of dir)) Q E s.
Proof.
  intros HQ HE. unfold check_keep_source, keep_source_ok in *. wp_step; [wp_step; apply HQ; try done; bsplit; congruence|].
  wp_step; [wp_step; apply HQ; try done; congruence|].
  destruct (keepSourceTrustProblem _ _) eqn:Ek; wp_step; [done|]. by apply HQ.
Qed.

Definition root_ok (opts : Options) (dir : gostring) (names : list gostring) (pr : option privateRoot) : Prop :=
  match pr with
  | None => io_Dpkg opts = true
  | Some pr => io_Dpkg opts = false ∧ newPrivateRoot w (repo_of dir) (io_Fast opts) = Ok pr ∧ (names ≠ [] → simulated pr names)
  end.
Lemma wp_private_view opts dir names (Q : option privateRoot → state → Prop) E s :
  quiet s →
  (∀ pr s', quiet s' → same_flags (st_report s) (st_report s') → (is_Some pr ↔ io_Dpkg opts = false) →
     (ir_Problems (st_report s') = [] → ir_Problems (st_report s) = [] ∧ root_ok opts dir names pr) → Q pr s') →
  (∀ e s', quiet s' → same_flags (st_report s) (st_report s') → E (Some e) s') →
  wp (private_view w opts (repo_of dir) names) Q E s.
Proof.
  intros Hq HQ HE. unfold private_view. wp_step.
  - do 3 wp_step. apply HQ; [done|done|by split; [intros []|]|done].
  - destruct (newPrivateRoot _ _ _) as [pr|e] eqn:Er; [|wp_step; by apply HE].
    wp_step. apply wp_simulate; [done| |intros; by apply HE]. intros s' Hq' Hf Hs. wp_step.
    apply HQ; [done|done|done|]. intros [? ?]%Hs. by split_and!.
Qed.

Lemma wp_plan opts dir lk s :
  quiet s → ir_Problems (st_report s) = [] → ir_Applied (st_report s) = false → ir_OK (st_report s) = false →
  wp (plan w d opts dir lk)
    (λ r s', quiet s' ∧ ir_Applied (st_report s') = false ∧ keep_source_ok opts dir ∧
       (is_Some r.2 ↔ io_Dpkg opts = false) ∧
       (ir_OK (st_report s') = true ↔ ir_Problems (st_report s') = []) ∧
       (ir_OK (st_report s') = true → plan_ok opts dir lk r.1.1.1 r.2)) refused s.
Proof.
  intros Hq Hp Ha Hok. unfold plan, refused. cbv zeta. fold (repo_of dir).
  wp_step. apply wp_keep_source; [|done]. intros s0 Ec Ep0 [Ea0 Eo0] Hk.
  assert (quiet s0) as Hq0 by (unfold quiet; by rewrite Ec).
  wp_step. apply wp_choose; [done| |split_and!; [done|done|congruence|congruence]].
  intros names pkgs s1 Hq1 [Ea1 Eo1] Ep1 Hch. do 3 wp_step.
  apply wp_disk; [done|]. intros b s2 Hq2 [Ea2 Eo2] Hd. cbn [st_report] in *. wp_step.
  apply wp_private_view; [done| |intros e s3 Hq3 [Ea3 Eo3]; cbn in *; split_and!; [done|done|congruence|congruence]].
  intros pr s3 Hq3 [Ea3 Eo3] Hsome Hpr. do 3 wp_step.
  apply wp_digest. cbn [st_calls st_report set_ok ir_Problems ir_Applied ir_OK]. intros s4 Ec4 Ep4 Ea4 Eo4. wp_step.
  cbn [add_problems ir_Applied ir_OK ir_Problems fst snd] in *.
  assert (quiet s4) by (unfold quiet; by rewrite Ec4).
  rewrite Eo4, Ep4, bool_decide_eq_true. split_and!; [done|congruence|done|done|done|].
  intros [Hp2 Hr]%Hpr. apply Hd in Hp2 as [[_ Hpool]%app_eq_nil Hdisk]. constructor; [|by destruct pr].
  exists pkgs. done.
Qed.

(** ** The application *)

Definition authorised (opts : Options) (dir : gostring) (names : list gostring) (pr : option privateRoot) (c : call) : Prop :=
  match c with
  | AptInstall args ns => ∃ p, pr = Some p ∧ args = AptArgs p (io_Yes opts) ∧ ns = names ∧ names ≠ []
  | DpkgUnpack _ files => pr = None ∧ ∃ all, poolDebFiles w (repo_of dir) = Ok all ∧ files ⊆ all
  | DpkgConfigure _ => pr = None
  | _ => True
  end.
Definition all_authorised opts dir names pr (s : state) : Prop := Forall (authorised opts dir names pr) (st_calls s).

Lemma quiet_authorised opts dir names pr s : quiet s → all_authorised opts dir names pr s.
Proof. intros Hq. eapply Forall_impl; [exact Hq|]. by intros []. Qed.

Lemma wp_unpack opts dir names fastArgs all (Q : error → state → Prop) E : ∀ fuel files s,
  poolDebFiles w (repo_of dir) = Ok all → files ⊆ all → all_authorised opts dir names None s → (length files ≤ fuel)%nat →
  (∀ err s', all_authorised opts dir names None s' → st_report s' = st_report s → Q err s') →
  wp (unpack_loop w fuel fastArgs files) Q E s.
Proof.
  induction fuel as [|fuel IH]; intros files s Hw Hsub Hq Hl HQ; (destruct files as [|f files];
    [cbn [unpack_loop]; wp_step; by apply HQ|]); [simpl in Hl; lia|].
  cbn [unpack_loop]. do 2 wp_step.
  assert (all_authorised opts dir names None
    (mkState (st_calls s ++ [DpkgUnpack fastArgs (take chunkSize (f :: files))]) (st_output s ++ out) (st_report s))) as Hq'.
  { apply Forall_app. split; [done|]. constructor; [|constructor]. split; [done|]. exists all. split; [done|].
    etrans; [apply subseteq_take|done]. }
  destruct err as [e|]; [wp_step; by apply HQ|]. apply IH; try done.
  - etrans; [apply subseteq_drop|done].
  - rewrite length_drop. unfold chunkSize. simpl in *. lia.
Qed.

Lemma wp_applyDpkg opts dir names (Q : error → state → Prop) E s :
  all_authorised opts dir names None s →
  (∀ err s', all_authorised opts dir names None s' → st_report s' = st_report s → Q err s') →
  wp (applyDpkg w (repo_of dir) opts) Q E s.
Proof.
  intros Hq HQ. unfold applyDpkg. destruct (poolDebFiles w _) as [[|f files]|e] eqn:Ew; [wp_step; by apply HQ| |wp_step; by apply HQ].
  cbv zeta. wp_step. apply (wp_unpack opts dir names _ (f :: files)); [done|done|done|done|].
  intros [e|] s' Hq' Er; [wp_step; by apply HQ|]. do 3 wp_step. apply HQ; [|done].
  apply Forall_app. split; [done|]. by repeat constructor.
Qed.

Lemma wp_applyApt opts dir names pr (Q : error → state → Prop) E s :
  all_authorised opts dir names (Some pr) s →
  (∀ err s', all_authorised opts dir names (Some pr) s' → st_report s' = st_report s → Q err s') →
  wp (applyApt w pr names opts) Q E s.
Proof.
  intros Hq HQ. unfold applyApt. destruct names as [|n ns]; [wp_step; by apply HQ|]. do 3 wp_step. apply HQ; [|done].
  apply Forall_app. split; [done|]. constructor; [|constructor]. by exists pr.
Qed.

(** What an application that went past its gate leaves. *)
Definition applied (opts : Options) (dir : gostring) (names : list gostring) (pr : option privateRoot)
    (before after : state) (ok : bool) : Prop :=
  all_authorised opts dir names pr after ∧ ir_OK (st_report before) = true ∧ requireConfirmation (w_terminal w) opts = None ∧
  ir_Applied (st_report after) = true ∧ ir_OK (st_report after) = ok.

Lemma wp_apply opts dir names pool disk pr s :
  quiet s → ir_Applied (st_report s) = false →
  wp (apply_plan w d opts dir names pool disk pr)
    (λ _ s', applied opts dir names pr s s' true ∧ ir_Problems (st_report s') = ir_Problems (st_report s))
    (λ e s', e ≠ None ∧ ((quiet s' ∧ ir_Applied (st_report s') = false) ∨
       (applied opts dir names pr s s' false ∧ ClassOf e = Resolution))) s.
Proof.
  intros Hq Ha. unfold apply_plan, refusal_class. do 2 wp_step.
  do 2 wp_step; [split; [done|by left]|]. wp_step.
  destruct (requireConfirmation (w_terminal w) opts) as [e|] eqn:Ec; [wp_step; split; [done|by left]|]. wp_step.
  match goal with Hn : negb (ir_OK _) = false |- _ => apply negb_false_iff in Hn as Hgo end.
  assert (∀ err s', all_authorised opts dir names pr s' → ir_Problems (st_report s') = ir_Problems (st_report s) →
    wp (_ ← upd (set_ok true (bool_decide (err = None)));
        _ ← upd (add_problems (match err with Some e => [ApplyFailed e] | None => [] end));
        _ ← digestSoFar;
        _ ← (match w_evidence w with Some e => upd (add_warning (NoEvidenceLog e)) | None => mret tt end);
        match err with Some e => finish (Wrap Resolution (Some e) "") | None => mret tt end)
      (λ _ s', applied opts dir names pr s s' true ∧ ir_Problems (st_report s') = ir_Problems (st_report s))
      (λ e s', e ≠ None ∧ ((quiet s' ∧ ir_Applied (st_report s') = false) ∨
         (applied opts dir names pr s s' false ∧ ClassOf e = Resolution))) s') as Hend.
  { intros err s1 Hq1 Hp1. do 5 wp_step. apply wp_digest. intros s2 Ec2 Ep2 Ea2 Eo2.
    assert (∀ r, ir_Problems r = ir_Problems (st_report s2) → ir_Applied r = ir_Applied (st_report s2) → ir_OK r = ir_OK (st_report s2) →
      wp (match err with Some e => finish (Wrap Resolution (Some e) "") | None => mret tt end)
        (λ _ s', applied opts dir names pr s s' true ∧ ir_Problems (st_report s') = ir_Problems (st_report s))
        (λ e s', e ≠ None ∧ ((quiet s' ∧ ir_Applied (st_report s') = false) ∨
           (applied opts dir names pr s s' false ∧ ClassOf e = Resolution))) (mkState (st_calls s2) (st_output s2) r)) as Hr.
    { intros r Ep Ea Eo. unfold applied, all_authorised. rewrite Ep2 in Ep. rewrite Ea2 in Ea. rewrite Eo2 in Eo.
      cbn [st_report st_calls add_problems set_ok ir_Problems ir_Applied ir_OK] in *.
      destruct err as [e|]; wp_step; cbn [st_calls st_report]; rewrite Ec2, Ea, Eo.
      - split; [done|]. right. by split_and!.
      - rewrite Ep, app_nil_r. by split_and!. }
    wp_step. destruct (w_evidence w); wp_step; [by apply Hr|]. destruct s2. by apply Hr. }
  wp_step. destruct pr as [pr|].
  - wp_step. apply (wp_applyApt opts dir names pr); [by apply quiet_authorised|]. intros err s1 Hq1 Er. wp_step.
    wp_step; [destruct (w_persist w _); wp_step|wp_step]; wp_step; apply Hend; try done; cbn; by rewrite Er.
  - apply (wp_applyDpkg opts dir names); [by apply quiet_authorised|]. intros err s1 Hq1 Er.
    apply Hend; [done|]. by rewrite Er.
Qed.

(** ** The whole run *)

Lemma wp_body path opts apply :
  wp (body w d path opts apply)
    (λ _ s', apply = true ∧ ∃ dir lk names pr s0,
       cleared path opts dir lk ∧ keep_source_ok opts dir ∧ plan_ok opts dir lk names pr ∧
       applied opts dir names pr s0 s' true ∧ ir_Problems (st_report s') = [])
    (λ e s',
       (quiet s' ∧ ir_Applied (st_report s') = false ∧
          (e = None → apply = false ∧ (ir_OK (st_report s') = true ↔ ir_Problems (st_report s') = []))) ∨
       (apply = true ∧ e ≠ None ∧ ClassOf e = Resolution ∧ ∃ dir lk names pr s0,
          cleared path opts dir lk ∧ keep_source_ok opts dir ∧ plan_ok opts dir lk names pr ∧
          applied opts dir names pr s0 s' false)) (mkState [] [] empty_ireport).
Proof.
  unfold body. wp_step. eapply wp_mono; [by apply wp_prepare| |].
  2: { intros e s' (Hq & He & Ha & _). left. by split_and!. }
  intros [dir lk] s1 (Hq1 & Hp1 & Ha1 & Ho1 & Hc). cbn [fst snd] in Hc. wp_step. eapply wp_mono; [by apply wp_plan| |].
  2: { intros e s' (Hq & He & Ha & _). left. by split_and!. }
  intros [[[names pool] disk] pr] s2 (Hq2 & Ha2 & Hk & _ & Hok & Hpl). cbn [fst snd] in Hpl. destruct apply.
  - eapply wp_mono; [by apply (wp_apply opts dir names)| |].
    + intros _ s' [Ha Hp]. split; [done|]. exists dir, lk, names, pr, s2. rewrite Hp.
      destruct (Ha) as (_ & Hgo & _). split_and!; auto. by apply Hok.
    + intros e s' [He [[Hq Ha]|[Ha Hcl]]]; [left; by split_and!|]. right. split_and!; [done|done|done|].
      exists dir, lk, names, pr, s2. destruct (Ha) as (_ & Hgo & _). split_and!; auto.
  - wp_step. left. by split_and!.
Qed.

(** What a changing call presupposes; the theorem below states it. *)
Lemma install_facts (path : gostring) (opts : Options) (apply : bool) (rep : IReport) (err : error) (calls : list call) (c : call) :
  execute w d path opts apply = (rep, err, calls) → c ∈ calls → changes c = true →
  apply = true ∧ ∃ dir lk names pr,
    cleared path opts dir lk ∧ plan_ok opts dir lk names pr ∧ keep_source_ok opts dir ∧
    requireConfirmation (w_terminal w) opts = None ∧ authorised opts dir names pr c.
Proof.
  unfold execute. pose proof (wp_body path opts apply) as Hb. unfold wp in Hb.
  destruct (body w d path opts apply _) as [r s]. intros [= <- _ <-] Hc Hch.
  assert (∀ s', quiet s' → c ∈ st_calls s' → False) as Hno.
  { intros s' Hq Hin. unfold quiet in Hq. rewrite Forall_forall in Hq. apply Hq in Hin. congruence. }
  assert (∀ dir lk names pr s0 ok, cleared path opts dir lk → keep_source_ok opts dir → plan_ok opts dir lk names pr →
    applied opts dir names pr s0 s ok → ∃ dir lk names pr,
    cleared path opts dir lk ∧ plan_ok opts dir lk names pr ∧ keep_source_ok opts dir ∧
    requireConfirmation (w_terminal w) opts = None ∧ authorised opts dir names pr c) as Hyes.
  { intros dir lk names pr s0 ok ??? (Hall & _ & ? & _). exists dir, lk, names, pr. split_and!; try done.
    unfold all_authorised in Hall. rewrite Forall_forall in Hall. by apply Hall. }
  destruct r as [[]|e].
  - destruct Hb as (-> & dir & lk & names & pr & s0 & ? & ? & ? & ? & _). split; [done|]. by eapply Hyes.
  - destruct Hb as [[Hq _]|(-> & _ & _ & dir & lk & names & pr & s0 & ? & ? & ? & ?)]; [by destruct (Hno s)|].
    split; [done|]. by eapply Hyes.
Qed.

(** (C4) Nothing changes the machine unless everything allows it. If a run
    starts [apt-get install], [dpkg --unpack] or [dpkg --configure], then the
    run is an Apply; the digest check was on and the verifier's verdict on the
    bundle was OK; the bundle's lock loaded and validated; the machine's
    architecture and foreign architectures are the bundle's; the pool holds
    every selected file and the disk has room; the operator confirmed;
    --keep-source is safe; and apt is given exactly the names it had simulated
    without any reported problem, or dpkg files of the pool only. *)
Theorem install_safe (path : gostring) (opts : Options) (apply : bool) (rep : IReport) (err : error) (calls : list call) (c : call) :
  execute w d path opts apply = (rep, err, calls) → c ∈ calls → changes c = true →
  apply = true ∧ ∃ dir lk names pr,
    cleared path opts dir lk ∧ plan_ok opts dir lk names pr ∧ keep_source_ok opts dir ∧
    requireConfirmation (w_terminal w) opts = None ∧ authorised opts dir names pr c.
Proof. apply install_facts. Qed.

(** The report and the error tell the truth about what was done. Without an
    error an Apply has applied an OK plan without problems, and a Plan has
    applied nothing and is OK exactly when it has no problem; an error means
    that nothing that changes the machine was started, or that the application
    itself failed, reported as applied, not OK, and classed as a resolution
    failure. *)
Theorem install_report (path : gostring) (opts : Options) (apply : bool) :
  let '(rep, err, calls) := execute w d path opts apply in
  let untouched := Forall (λ c, changes c = false) calls ∧ ir_Applied rep = false in
  match err with
  | None =>
      if apply then ir_Applied rep = true ∧ ir_OK rep = true ∧ ir_Problems rep = []
      else untouched ∧ (ir_OK rep = true ↔ ir_Problems rep = [])
  | Some e => untouched ∨ (apply = true ∧ ir_Applied rep = true ∧ ir_OK rep = false ∧ ClassOf err = Resolution)
  end.
Proof.
  unfold execute. pose proof (wp_body path opts apply) as Hb. unfold wp in Hb.
  destruct (body w d path opts apply _) as [[[]|e] s].
  - destruct Hb as (-> & dir & lk & names & pr & s0 & _ & _ & _ & (_ & _ & _ & ? & ?) & ?). by split_and!.
  - destruct Hb as [(Hq & Ha & He)|(-> & He & Hcl & dir & lk & names & pr & s0 & _ & _ & _ & (_ & _ & _ & ? & ?))].
    + destruct e as [e|]; [by left|]. destruct He as [-> ?]; [done|]. by split_and!.
    + destruct e as [e|]; [|done]. right. by split_and!.
Qed.
End safe.
