(* ===== verification/InstallVerified.v ===== *)
(** * Verification and installation together: what an installed bundle is.

    The verifier of [core/verify] plugged into the run of [core/install], both
    over the same directory tree. *)
From S2P Require Export InstallSafe.
#[local] Open Scope Z_scope.

Section verified.
Context {unicode : UnicodeTables} {laws : @UnicodeLaws unicode} {jcs : JCS} {ed : Ed25519}.

Definition verify_outcome (r : result verify_error Report) : option Report * error :=
  match r with Ok rep => (Some rep, None) | Err _ => (None, Some (Plain [])) end.
(** The machine's verifier is [runVerify] over [root] and its lock is the one there. *)
Record reads_bundle (w : machine) (root : fsnode) (verifier : result verifier_error compositeVerifier) : Prop := {
  rb_verify : ∀ dir o, w_verify w dir o = verify_outcome (runVerify dir (Some root) o verifier);
  rb_lock : ∀ dir, LockDoc.Load (w_lock_size w dir) (w_lock_raw w dir) = lock_load root
}.

Lemma chosen_entries w dir opts lk names pkgs :
  loadLock w dir = Ok lk → chosen opts lk names pkgs → ∀ n, n ∈ names → ∃ p, p ∈ l_Packages lk ∧ n = package_entry p.
Proof.
  intros Hl (bn & bp & Hs & Hu) n Hn. assert (Validate lk = None) as Hv.
  { unfold loadLock in Hl. destruct (LockDoc.Load _ _) as [l|]; [|done]. destruct (Validate l) eqn:E; [done|]. by simplify_eq. }
  pose proof (selectInstallSet_facts lk (io_All opts) (io_Only opts) Hv) as Hf. rewrite Hs in Hf.
  destruct Hf as (-> & _ & _ & Hp & _).
  assert (∀ n, n ∈ map package_entry bp → ∃ p, p ∈ l_Packages lk ∧ n = package_entry p) as Hbase.
  { intros m (p & -> & [[Hin _] _]%Hp)%list_elem_of_fmap. eauto. }
  destruct (io_Upgrade opts); destruct Hu as [-> _]; [|auto].
  apply elem_of_merge in Hn as [Hn|Hn]; [auto|].
  pose proof (selectUpgradeSet_facts lk bp) as Hf. destruct (selectUpgradeSet lk bp) as [[un up] total].
  destruct Hf as (-> & _ & Hup & _). apply list_elem_of_fmap in Hn as (p & -> & [? _]%Hup). eauto.
Qed.

(** (C1) End to end: when a run changes the machine, the bundle it read is intact.
    Every package of its lock is a regular file of the tree under [repo/], with
    the size and the SHA-256 the lock records for it, and what apt is asked to
    install is a list of exact versions of packages of that lock. *)
Theorem install_verified (w : machine) (d : Deps) (path : gostring) (opts : Options) (apply : bool)
    (fail : option gostring) (entries : list (gostring * fsnode)) (verifier : result verifier_error compositeVerifier)
    (rep : IReport) (err : error) (calls : list call) (c : call) :
  let root := FDir fail entries in
  fs_wf root → reads_bundle w root verifier →
  execute w d path opts apply = (rep, err, calls) → c ∈ calls → changes c = true →
  ∃ lk, lock_load root = Ok lk ∧ Validate lk = None ∧
    (∀ p, p ∈ l_Packages lk → ∃ b, read_file root (lockRepoPrefix ++ p_Filename p) = Some (Ok b) ∧
       Equal (Bytes b) (p_SHA256 p) = true ∧ Z.of_nat (length b) = p_Size p) ∧
    (∀ args names, c = AptInstall args names → names ≠ [] ∧
       ∀ n, n ∈ names → ∃ p, p ∈ l_Packages lk ∧ n = package_entry p).
Proof.
  intros root Hwf [Hver Hlock] Hrun Hc Hch.
  destruct (install_facts w d path opts apply rep err calls c Hrun Hc Hch)
    as (_ & dir & lk & names & pr & [_ _ Hskip Hl (r & archOut & fo & fe & Hv & Hok & _)] & [(pkgs & _ & _ & Hsel) Hroot] & _ & _ & Hauth).
  rewrite Hver in Hv. unfold verify_outcome in Hv. destruct (runVerify dir (Some root) (io_Verify opts) verifier) as [r'|] eqn:Er; [|done].
  injection Hv as ->.
  destruct (OK_facts dir fail entries (io_Verify opts) verifier r Hwf Hskip Er Hok)
    as (m & canon & sf & _ & _ & _ & _ & _ & Hlisted & l & Hload & Hpk).
  pose proof Hl as Hl'. unfold loadLock in Hl'. rewrite Hlock in Hl'. fold root in Hload. rewrite Hload in Hl'.
  destruct (Validate l) eqn:Ev; [done|]. injection Hl' as ->.
  exists lk. split_and!; [done|done| |].
  - intros p Hp. destruct (Hpk p Hp) as (f & Hf & Hpath & Heq & Hsz).
    destruct (Hlisted f Hf) as (b & Hr & Ef). exists b. rewrite <- Hpath. split; [done|].
    rewrite Ef in Heq, Hsz. done.
  - intros args ns ->. destruct Hauth as (p & -> & _ & -> & Hne). split; [done|].
    destruct (io_Dpkg opts); [by destruct Hroot as [? _]|]. by eapply chosen_entries.
Qed.
End verified.

(** ** A run over the signed bundle *)

Definition sample_machine : machine := {|
  w_bundle _ := Ok true; w_abs := Some;
  w_verify dir o := verify_outcome (@runVerify ascii_tables LockDoc.sample_jcs toy_ed dir (Some bundle_root) o sample_verifier);
  w_lock_size _ := Some (Z.of_nat (length bundle_saved.2)); w_lock_raw _ := Some bundle_saved.2;
  w_snapshot _ := Err (bytes_of "no such file"); w_stat_exe _ := Ok false; w_lookpath _ := None;
  w_run _ c := match c with
               | PrintArchitecture => ("amd64" ++ [newline], None)
               | AptSimulate _ _ => (bytes_of "Inst curl (1.0-1 x [amd64])", None)
               | _ => ([], None)
               end;
  w_os_release _ := None; w_perms _ := Ok (mkMode 493 false, true); w_stat _ := Ok true;
  w_disk_free _ := Some 1000; w_private_root _ := Ok (bytes_of "/tmp/x"); w_terminal := false;
  w_tree _ := None; w_persist _ := Ok (bytes_of "/etc/apt"); w_evidence := None |}.
Definition sample_deps : Deps := Deps_New (mkDeps [] [] [] []).
Definition sample_install : Options := mkOptions sample_opts false true [] false false false true.
Definition sample_run : IReport * error * list call := @execute ascii_tables sample_machine sample_deps "/b" sample_install true.
Definition sample_call : call := nth 4 sample_run.2 PrintForeign.

Lemma sample_run_call :
  @execute ascii_tables sample_machine sample_deps "/b" sample_install true = (sample_run.1.1, sample_run.1.2, sample_run.2) ∧
  sample_call ∈ sample_run.2 ∧ changes sample_call = true.
Proof.
  split; [unfold sample_run; by destruct (execute _ _ _ _ _) as [[? ?] ?]|].
  assert ((4 <? length sample_run.2)%nat && changes sample_call = true) as E by (vm_compute; reflexivity).
  apply andb_true_iff in E as [E1 E2]. split; [|exact E2].
  apply list_elem_of_In, nth_In. exact (proj1 (Nat.ltb_lt _ _) E1).
Qed.

Lemma install_safe_witness :
  changes sample_call = true ∧ o_SkipFileDigests (io_Verify sample_install) = false ∧
  requireConfirmation (w_terminal sample_machine) sample_install = None.
Proof.
  destruct sample_run_call as (H1 & H2 & H3). split; [exact H3|].
  destruct (@install_safe ascii_tables sample_machine sample_deps "/b" sample_install true _ _ _ sample_call H1 H2 H3)
    as (_ & dir & lk & names & pr & Hc & _ & _ & Hr & _).
  exact (conj (cl_digests _ _ _ _ _ Hc) Hr).
Defined.

Lemma install_verified_witness :
  changes sample_call = true ∧ ∃ lk, lock_load bundle_root = Ok lk ∧
    ∀ p, p ∈ l_Packages lk → ∃ b, read_file bundle_root (lockRepoPrefix ++ p_Filename p) = Some (Ok b) ∧
       Equal (Bytes b) (p_SHA256 p) = true ∧ Z.of_nat (length b) = p_Size p.
Proof.
  destruct sample_run_call as (H1 & H2 & H3). split; [exact H3|].
  assert (@reads_bundle ascii_tables LockDoc.sample_jcs toy_ed sample_machine bundle_root sample_verifier) as Hb.
  { constructor; [intros; reflexivity|intros; vm_compute; reflexivity]. }
  destruct (@install_verified ascii_tables ascii_tables_laws LockDoc.sample_jcs toy_ed sample_machine sample_deps "/b"
    sample_install true None bundle_entries sample_verifier _ _ _ sample_call bundle_root_wf Hb H1 H2 H3)
    as (lk & Hl & _ & Hp & _).
  exists lk. exact (conj Hl Hp).
Defined.
